(* ===== verification/_CoqProject ===== *)
-Q . S2P
Prelude.v
FdTable.v
ConnectionManager.v
Options.v
TaskRunner.v
TimerThreads.v
Alarm.v
AckWatch.v
World.v
Epoller.v
Socket.v
Api.v
Wakeup.v
System.v
Safety.v
EventSafety.v
CallSafety.v
ApiSafety.v
RunSafety.v
Readiness.v
Streams.v
QuicData.v
Wire.v
FlowController.v
FlowControl.v
IntervalSet.v
Intervals.v
SequencerBuffer.v
Reassembly.v
ReassemblyRuns.v
ReceiveStream.v
StreamClosing.v
StreamDelivery.v
StreamRuns.v
SendBuffer.v
Sending.v
SendAcks.v
SendRuns.v
SendStream.v
SendKept.v
SendSide.v
SendWrites.v
SendCalls.v
SendLosses.v
SendTraces.v
Transfer.v
ReaderSafety.v
Crypter.v
PacketNumberQueue.v
PacketNumbers.v
Framer.v
FrameWriter.v
FrameReader.v
FrameWire.v
AckWire.v
FrameBuild.v
FrameRead.v
AckRead.v
FrameData.v
Handshake.v
HandshakeTrip.v
HandshakeSafety.v
PacketFramer.v
PacketSafety.v
PacketNumberWire.v
SessionProducer.v
PacketTrip.v
Datagrams.v
ControlFrames.v
ControlLedger.v
ReceivedPackets.v
PacketCreator.v
PacketFilling.v
PacketCourses.v
PacketGenerator.v
PacketQueue.v
PacketWrites.v
