(* ===== verification/Prelude.v ===== *)
(** * posix_quic: QUIC streams behind a POSIX-like interface

    posix_quic gives an application sockets, streams and epoll for QUIC.  Its own
    layer (src/src) keeps descriptors, sockets, streams, epollers and timers; below
    it is a vendored protocol engine (src/libquic/net/quic).  The layer calls the
    engine through a session, and the engine calls back through delegates; epollers
    read datagrams, hand them to the session of their connection and report what
    became ready.  This library models the layer completely and, of the engine, the
    parts the bytes of a stream pass through between the application and a datagram,
    in both directions: wire encoding, flow control, interval sets, the send buffer
    and the sending stream, the generator and the creator of packets, the framer
    that writes frames into packets and reads them back, the reassembly buffer, the sequencer and the receiving stream; and
    the messages of the handshake with their incremental parser.

    ** Conventions

    Stateful code is a function of the monad [M S] below: it returns a value and a
    new state or ends in a [crash], the undefined behaviour it ran into (a null or
    destroyed object, an end iterator, an index out of range, an uninitialised
    byte).  So a theorem that a run [terminates_in] a postcondition also says that
    the code is memory safe and terminates.  Integers are [Z] with the wrap-around
    of their C++ type written out.  Assertions are compiled out of the release
    build and are not steps of the model.  Iteration over an unordered container
    is a parameter (class [Iteration]): theorems hold for every order.  System
    calls, clocks, thread schedules, ciphers and the callbacks the engine
    makes are inputs over which the theorems quantify.

    ** Files

    Prelude.v: integers, system constants, the monad with its judgements
    ([terminates_in], [preserves]), lenses, hints, and lemmas on lists and maps.

    The layer:
    - FdTable.v (fd_factory.h, fd_manager.h), ConnectionManager.v
      (connection_manager.h), Options.v (option.h, constants.h): the tables, each
      with its operations and its theorems.
    - TaskRunner.v (task_runner.h, task_runner.cpp) timers as functions;
      TimerThreads.v the same protocol as a step relation between threads; Alarm.v
      (quic_time.h, quic_alarm.cc, quartc_factory.cc, connection_visitor.cpp) and
      AckWatch.v alarms and the ack-timeout watch.
    - World.v the objects of the process in one record; Epoller.v (event.h,
      event.cpp, epoller_entry.cpp) readiness and registration; Socket.v
      (socket_entry.cpp, stream_entry.cpp, packet_transport.cpp) sockets and
      streams; Api.v (quic_socket.cpp, header_parser.cpp, the loop of
      [QuicEpollerEntry::Wait]) the exported calls; System.v runs of them.
      Wakeup.v the wake-up protocol of [Wait] and [Notify] as a step relation.
    - Safety.v the invariant of all pointers; EventSafety.v, CallSafety.v (with the
      judgement [safe_in]), ApiSafety.v, RunSafety.v every operation keeps it, up to
      whole runs.  Readiness.v and Streams.v what the operations do.

    The engine:
    - QuicData.v (quic_data_reader.cc, quic_data_writer.cc) and Wire.v.
    - FlowController.v (quic_flow_controller.cc) and FlowControl.v.
    - IntervalSet.v (interval.h, interval_set.h) and Intervals.v.
    - SequencerBuffer.v (quic_stream_sequencer_buffer.cc), Reassembly.v,
      ReassemblyRuns.v.
    - ReceiveStream.v (quic_stream_sequencer.cc, the receive side of
      quic_stream.cc, quic_session.cc and quic_connection.cc, quartc_stream.cc),
      StreamClosing.v, StreamDelivery.v, StreamRuns.v.
    - SendBuffer.v (quic_stream_send_buffer.cc, [QuicUtils::CopyToBuffer], the
      memory slices); Sending.v its abstract state, the saved bytes and the sets of
      sent, acknowledged and lost offsets, and SendAcks.v, SendRuns.v the
      refinement.
    - SendStream.v (the send side of quic_stream.cc and quic_session.cc, the loop of
      quic_packet_generator.cc that takes a write, quartc_stream.cc) on top of
      ReceiveStream.v and SendBuffer.v; SendKept.v the two halves of a stream leave
      each other alone; SendSide.v the invariant of the sending half; SendWrites.v,
      SendCalls.v, SendLosses.v every operation keeps it; SendTraces.v courses of
      events as an inductive relation.  Transfer.v puts a sender and a receiver
      together.

    The packets:
    - Crypter.v (quic_encrypter.h, quic_decrypter.h, null_encrypter.cc,
      null_decrypter.cc, quic_utils.cc): encrypters and decrypters as classes, the
      law [opened] of a pair of them, and the hash-only pair as its instance.
    - PacketNumberQueue.v (quic_ack_frame.cc) and PacketNumbers.v.
    - Framer.v (frames, headers, sizes), FrameWriter.v (building packets),
      FrameReader.v (frames of a payload) and PacketFramer.v (headers, decryption,
      whole packets) of quic_framer.cc, quic_packets.cc and quic_versions.cc.  The
      visitor is the class [FramerVisitor]: any function of the calls made so far.
      The source of stream data is the class [StreamFrameDataProducer];
      SessionProducer.v instantiates it with [QuicSession::WriteStreamData] over
      send buffers.
    - FrameWire.v and AckWire.v the bytes of each frame as plain functions;
      FrameBuild.v the writer produces them, FrameRead.v, AckRead.v and FrameData.v
      the reader takes them; PacketNumberWire.v truncated packet numbers;
      PacketTrip.v whole packets.  ReaderSafety.v and PacketSafety.v arbitrary
      input.  Datagrams.v puts the sending stream, the framers and the receiving
      stream together.
    - ControlFrames.v (quic_control_frame_manager.cc, frames/quic_frame.cc) and
      ControlLedger.v its abstract state; ReceivedPackets.v
      (quic_received_packet_manager.cc).
    - PacketCreator.v (quic_packet_creator.cc) the open packet and its operations;
      PacketFilling.v its size and that it can be sealed (class [Sealer]: what an
      encrypter promises); PacketCourses.v courses of operations and the peer.
      PacketGenerator.v (quic_packet_generator.cc); PacketQueue.v the frames that
      wait, PacketWrites.v writes of stream data.
    - Handshake.v (crypto_handshake_message.cc, crypto_framer.cc,
      quic_socket_address_coder.cc), HandshakeTrip.v, HandshakeSafety.v.

    ** What is shown

    - Lifetimes: no run of API calls, waits and network events uses a destroyed
      entry, epoller or event cell; waiters, descriptors and delegates stay
      consistent; the recursion of closing ends (RunSafety.v).
    - Readiness: state changes reach exactly the interested waiters, [Poll] reports
      each ready cell once, no wake-up is lost (Readiness.v, Wakeup.v).
    - Timers: due tasks are taken exactly, a cancelled task does not run, except
      one of the same round cancelled in the runner's thread (TaskRunner.v,
      TimerThreads.v); the ack watch refines "the oldest unacknowledged packet"
      (AckWatch.v).
    - Data: the receive buffer of a stream entry is a queue (Streams.v); wire
      encodings round-trip (Wire.v); windows are respected and kept open
      (FlowControl.v); interval sets are sets of integers (Intervals.v); the
      reassembly buffer returns the stream in order, with or without its fast path
      (ReassemblyRuns.v); and the receiving stream as a whole, flow control
      included, gives the delegate the peer's bytes in order and then the end, and
      never refuses data its windows admit (StreamRuns.v).
    - Sending: the send buffer keeps every byte until it is acknowledged, whatever
      its flags (SendRuns.v); in every course of writes, turns, acknowledgements,
      losses, window updates and packets that take as much as they like, no
      operation fails, frames carry the accepted bytes within the windows of the
      peer, and the stream waits for exactly what was not acknowledged
      (SendTraces.v).  From end to end the delegate of the receiver is given what
      the sender's application wrote (Transfer.v), also when the frames travel in
      sealed datagrams that are dropped, repeated and reordered (Datagrams.v).
    - Packets: what one framer builds and encrypts the other reports, frame by
      frame (PacketTrip.v), with any channel that keeps the law of Crypter.v; any
      bytes at all are processed inside the packet and refused with an error
      (PacketSafety.v); packet numbers are recovered from their low bytes
      (PacketNumberWire.v) and the sets of them in acks are sets (PacketNumbers.v).
      The packet creator puts the frames it accepts into packets in order, each
      once and within the limit, and the peer reads them; its fast path makes the
      same packets (PacketCourses.v); the generator cuts a write into consecutive
      pieces and sends what waits first (PacketWrites.v).
      Control frames are kept and sent again until they are acknowledged, each once
      and in order (ControlLedger.v); acks tell what arrived (ReceivedPackets.v).
      Handshake messages arrive whatever pieces they are cut into, and no input
      derails their parser (HandshakeTrip.v, HandshakeSafety.v).
    - Tables refine finite maps (FdTable.v, ConnectionManager.v), options round-trip
      (Options.v).

    ** Bounds and fuel

    Loops that are not structural take fuel, and a theorem shows it suffices: a
    byte count for the copy and read loops of the reassembly buffer and for the
    delivery loop (each turn moves a byte), the number of blocks for the walk over
    whole blocks, the lengths of both sets for the walks of [IntervalSet], a measure
    of the object graph for closing sockets, one level for closing a stream
    (the nested call finds it gone), and for the loop over lost data the number of
    its intervals and two turns more (each turn sends an interval or the FIN); the
    loops of the framer take the number of bytes left in the packet; adding a frame
    to a packet nests twice (a frame that does not fit flushes the packet, which
    adds its padding), the generator takes two turns for a waiting frame (one may
    flush) and a turn for each byte of a write.  The reassembly theorems take a
    capacity of more than one block, as the constructor demands, and offsets that leave room
    for the capacity below 2^64; the stream theorems take streams of at most 2^61
    bytes, half of what the protocol allows, so that sums of two offsets stay
    below 2^62.  The sending theorems take what is written to one stream to be at
    most 2^62 - 1 bytes, the limit of the protocol, in fewer than 2^31 slices, the
    range of the buffer's write index.  The packet theorem takes headers whose
    packet number is within half the range of its encoding of the one expected next
    and below 2^62, acks that fit the packet without truncation and carry no time
    stamps, and not version 41 with an eight-byte packet number, which the reader
    cannot take.  The packet creator is given frames whose fields are in range and
    whose data the producer has, padding of less than 2^15 bytes, keys for its
    level, and packet numbers below 2^62; the theorem on writes is about streams
    other than the handshake.

    ** Not modelled

    The sent packet manager, congestion control, key exchange
    and the vendored base library: they reach the modelled parts only through inputs
    of the model; what a packet takes of a write, what is acknowledged or lost and
    when a connection fails is such an input.  The frames and headers of IETF QUIC
    in the framer, which nothing in the tree calls.  The ciphers, which are
    parameters.  The creation of streams in a session and
    the lists that only own closed streams.  Debug output, the
    spin lock and the time-stamp clock of the layer, the demo server under
    src/simple, tests and benchmarks. *)

From stdpp Require Export base gmap list strings numbers option sorting.
From Stdlib Require Export ZArith Lia.

#[global] Open Scope Z_scope.

(** ** Machine integers

    A [w]-bit C++ integer is a [Z]; arithmetic that can leave its range is
    written with the explicit wrap-around of its type. *)

Definition wrap_u (w x : Z) : Z := x mod 2 ^ w.

Definition wrap_s (w x : Z) : Z := (x + 2 ^ (w - 1)) mod 2 ^ w - 2 ^ (w - 1).

Definition int32 (x : Z) : Z := wrap_s 32 x.
Definition int64 (x : Z) : Z := wrap_s 64 x.
Definition uint8 (x : Z) : Z := wrap_u 8 x.
Definition uint16 (x : Z) : Z := wrap_u 16 x.
Definition uint32 (x : Z) : Z := wrap_u 32 x.
Definition uint64 (x : Z) : Z := wrap_u 64 x.

Lemma wrap_u_small w x : 0 <= x < 2 ^ w -> wrap_u w x = x.
Proof. apply Z.mod_small. Qed.

Lemma wrap_u_range w x : 0 <= w -> 0 <= wrap_u w x < 2 ^ w.
Proof. intros. apply Z.mod_pos_bound, Z.pow_pos_nonneg; lia. Qed.

Lemma wrap_s_small w x : 0 < w -> - 2 ^ (w - 1) <= x < 2 ^ (w - 1) -> wrap_s w x = x.
Proof.
  intros Hw Hx. unfold wrap_s.
  assert (2 ^ w = 2 * 2 ^ (w - 1)) as Hp.
  { rewrite <- Z.pow_succ_r by lia. f_equal. lia. }
  rewrite Z.mod_small by lia. lia.
Qed.

(** The closed bounds of the fixed widths, so that [lia] sees numerals. *)
Lemma int32_small x : -2147483648 <= x < 2147483648 -> int32 x = x.
Proof. intros. apply (wrap_s_small 32); simpl; lia. Qed.

Lemma int64_small x :
  -9223372036854775808 <= x < 9223372036854775808 -> int64 x = x.
Proof. intros. apply (wrap_s_small 64); simpl; lia. Qed.

Lemma uint32_small x : 0 <= x < 4294967296 -> uint32 x = x.
Proof. intros. apply (wrap_u_small 32); simpl; lia. Qed.

Lemma uint64_small x : 0 <= x < 18446744073709551616 -> uint64 x = x.
Proof. intros. apply (wrap_u_small 64); simpl; lia. Qed.

Lemma uint64_range x : 0 <= uint64 x < 18446744073709551616.
Proof. apply (wrap_u_range 64). lia. Qed.

(** ** System constants (Linux [errno.h], [poll.h], [sys/epoll.h],
    [sys/socket.h]) *)

Definition ENOENT : Z := 2.
Definition EINTR : Z := 4.
Definition EBADF : Z := 9.
Definition EAGAIN : Z := 11.
Definition EBUSY : Z := 16.
Definition EEXIST : Z := 17.
Definition EINVAL : Z := 22.
Definition ENOTCONN : Z := 107.
Definition ESHUTDOWN : Z := 108.
Definition EALREADY : Z := 114.
Definition EINPROGRESS : Z := 115.

Definition POLLIN : Z := 1.
Definition POLLOUT : Z := 4.
Definition POLLERR : Z := 8.

Definition EPOLLIN : Z := 1.
Definition EPOLLOUT : Z := 4.
Definition EPOLLERR : Z := 8.
Definition EPOLLET : Z := 2147483648.

Definition EPOLL_CTL_ADD : Z := 1.
Definition EPOLL_CTL_DEL : Z := 2.
Definition EPOLL_CTL_MOD : Z := 3.

Definition SHUT_RD : Z := 0.
Definition SHUT_WR : Z := 1.
Definition SHUT_RDWR : Z := 2.

(** ** Bit masks *)

Definition has (x m : Z) : bool := negb (Z.land x m =? 0).

(** ** The effect monad

    Stateful code is a function from the state to an outcome: a result with the
    new state, or the C++ undefined behaviour it ran into.  Assertions are
    compiled out of the release build ([-DNDEBUG]), so a violated one shows up
    as the fault of the statement that relied on it. *)

Inductive crash : Type :=
| NullDeref        (* a null pointer is dereferenced *)
| EndIterator      (* an end() iterator is dereferenced or erased *)
| UseAfterFree     (* a destroyed object is used *)
| OutOfBounds      (* an array is indexed out of its range *)
| BadCast          (* a pointer is cast to the wrong entry class *)
| IntOverflow      (* signed arithmetic leaves its range *)
| Spins            (* a spin lock is taken that its holder never releases *)
| DeadRunner       (* a task runner is used after its epoller was destroyed *)
| DeadTask         (* a task is run after the socket of its alarm was destroyed *)
| NoTask           (* a task storage that was never created *)
| Uninit           (* an uninitialised byte is read *)
| NoInput          (* a loop on the kernel ran out of the results it was given *)
| OutOfFuel.       (* the model's recursion bound was too small *)

Inductive outcome (S A : Type) : Type :=
| Ret (a : A) (s : S)
| Crash (c : crash).

Arguments Ret {S A} a s.
Arguments Crash {S A} c.

Definition M (S A : Type) : Type := S -> outcome S A.

#[export] Instance M_ret S : MRet (M S) := fun A a s => Ret a s.

#[export] Instance M_bind S : MBind (M S) := fun A B f m s =>
  match m s with
  | Ret a s' => f a s'
  | Crash c => Crash c
  end.

Section Monad.
Context {S : Type}.

Definition get : M S S := fun s => Ret s s.
Definition gets {A} (f : S -> A) : M S A := fun s => Ret (f s) s.
Definition modify (f : S -> S) : M S unit := fun s => Ret tt (f s).
Definition crashed {A} (c : crash) : M S A := fun _ => Crash c.

(** [*p] of a pointer that may be null. *)
Definition deref {A} (p : option A) (c : crash) : M S A := fun s =>
  match p with
  | Some a => Ret a s
  | None => Crash c
  end.

(** [for (x : l) f(x);] *)
Fixpoint for_each {A} (l : list A) (f : A -> M S unit) : M S unit :=
  match l with
  | [] => mret tt
  | x :: r => f x;; for_each r f
  end.

Definition when (b : bool) (m : M S unit) : M S unit :=
  if b then m else mret tt.
End Monad.

(** A component inside a larger state, and its operations run in place. *)
Record Lens (S T : Type) : Type := { view : S -> T; put : T -> S -> S }.
Arguments view {S T} l s.
Arguments put {S T} l t s.

Definition zoom {S T A} (l : Lens S T) (m : M T A) : M S A := fun s =>
  match m (view l s) with
  | Ret a t => Ret a (put l t s)
  | Crash c => Crash c
  end.

Definition lens_comp {S T U} (l : Lens S T) (k : Lens T U) : Lens S U :=
  {| view s := view k (view l s); put u s := put l (put k u (view l s)) s |}.

Lemma zoom_inv {S T A} (l : Lens S T) (m : M T A) s a s' :
  zoom l m s = Ret a s' -> exists t, m (view l s) = Ret a t /\ s' = put l t s.
Proof. unfold zoom. destruct (m (view l s)); [intros [= <- <-]; eauto|done]. Qed.

Lemma bind_ret {S A B} (a : A) (f : A -> M S B) s :
  (mret a ≫= f) s = f a s.
Proof. reflexivity. Qed.

Lemma bind_inv {S A B} (m : M S A) (f : A -> M S B) s b s'' :
  (m ≫= f) s = Ret b s'' ->
  exists a s', m s = Ret a s' /\ f a s' = Ret b s''.
Proof. unfold mbind, M_bind. destruct (m s); [eauto|discriminate]. Qed.

(** An outcome that is a result satisfying [P]: total correctness of one run. *)
Definition terminates_in {S A} (o : outcome S A) (P : A -> S -> Prop) : Prop :=
  match o with
  | Ret a s => P a s
  | Crash _ => False
  end.

Section Total.
Context {S : Type}.

Lemma total_ret {A} (a : A) (s : S) (Q : A -> S -> Prop) : Q a s -> terminates_in ((mret a : M S A) s) Q.
Proof. done. Qed.

Lemma total_bind {A B} (m : M S A) (f : A -> M S B) s (Q : B -> S -> Prop) :
  terminates_in (m s) (fun a s' => terminates_in (f a s') Q) -> terminates_in ((m ≫= f) s) Q.
Proof. unfold mbind, M_bind. by destruct (m s). Qed.

Lemma total_mono {A} (o : outcome S A) (Q Q' : A -> S -> Prop) :
  terminates_in o Q -> (forall a s', Q a s' -> Q' a s') -> terminates_in o Q'.
Proof. destruct o; simpl; auto. Qed.

Lemma total_and {A} (o : outcome S A) (Q Q' : A -> S -> Prop) :
  terminates_in o Q -> terminates_in o Q' -> terminates_in o (fun a s => Q a s /\ Q' a s).
Proof. by destruct o. Qed.

(** A loop with an invariant that depends on the elements still to come. *)
Lemma total_for_each {A} (f : A -> M S unit) (J : list A -> S -> Prop) : forall l s,
  J l s -> (forall x l' s', J (x :: l') s' -> terminates_in (f x s') (fun _ s2 => J l' s2)) ->
  terminates_in (for_each l f s) (fun _ s' => J [] s').
Proof.
  induction l as [|x l IH]; intros s HJ Hf; [done|]. simpl. apply total_bind.
  eapply total_mono; [by apply Hf|]. intros ? s' HJ'. by apply IH.
Qed.

Lemma total_inv {A} (o : outcome S A) (Q : A -> S -> Prop) a s :
  terminates_in o Q -> o = Ret a s -> Q a s.
Proof. by intros H ->. Qed.
End Total.

(** A monadic operation preserves a state predicate on every run that does not
    fault. *)
Definition preserves {S A} (I : S -> Prop) (m : M S A) : Prop :=
  forall s a s', I s -> m s = Ret a s' -> I s'.

Lemma preserves_ret {S A} (I : S -> Prop) (a : A) : preserves I (mret a).
Proof. intros s b s' HI [= <- <-]. exact HI. Qed.

Lemma preserves_bind {S A B} (I : S -> Prop) (m : M S A) (f : A -> M S B) :
  preserves I m -> (forall a, preserves I (f a)) -> preserves I (m ≫= f).
Proof.
  intros Hm Hf s b s'' HI (a & s' & Hm' & Hf')%bind_inv.
  eapply Hf; [eapply Hm; eauto|eauto].
Qed.

Lemma preserves_gets {S A} (I : S -> Prop) (f : S -> A) : preserves I (gets f).
Proof. intros s a s' HI [= <- <-]. exact HI. Qed.

Lemma preserves_get {S} (I : S -> Prop) : preserves I (@get S).
Proof. intros s a s' HI [= <- <-]. exact HI. Qed.

Lemma preserves_modify {S} (I : S -> Prop) (f : S -> S) :
  (forall s, I s -> I (f s)) -> preserves I (modify f).
Proof. intros H s [] s' HI [= <-]. auto. Qed.

Lemma preserves_crashed {S A} (I : S -> Prop) c : preserves I (@crashed S A c).
Proof. intros s a s' HI [=]. Qed.

Lemma preserves_deref {S A} (I : S -> Prop) (p : option A) c :
  preserves I (deref (S:=S) p c).
Proof. intros s a s' HI. destruct p; simpl; congruence. Qed.

Lemma preserves_for_each {S A} (I : S -> Prop) (l : list A) (f : A -> M S unit) :
  (forall x, preserves I (f x)) -> preserves I (for_each l f).
Proof.
  intros Hf. induction l; [apply preserves_ret|].
  apply preserves_bind; auto.
Qed.

Lemma preserves_when {S} (I : S -> Prop) b (m : M S unit) :
  preserves I m -> preserves I (when b m).
Proof. intros. destruct b; [assumption|apply preserves_ret]. Qed.

Create HintDb posix_quic.
#[export] Hint Resolve preserves_ret preserves_bind preserves_gets preserves_get
  preserves_crashed preserves_deref preserves_for_each preserves_when
  : posix_quic.

(** Splits on the conditionals, options and pairs that block a monadic program. *)
Ltac split_cases :=
  repeat match goal with
  | |- context [match ?x with _ => _ end] => destruct x eqn:?
  | |- context [if ?x then _ else _] => destruct x eqn:?
  end.

(** Boolean tests of the code as propositions. *)
Ltac b2p :=
  repeat match goal with
  | H : (_ =? _) = true |- _ => apply Z.eqb_eq in H
  | H : (_ =? _) = false |- _ => apply Z.eqb_neq in H
  | H : (_ <? _) = true |- _ => apply Z.ltb_lt in H
  | H : (_ <? _) = false |- _ => apply Z.ltb_ge in H
  | H : (_ <=? _) = true |- _ => apply Z.leb_le in H
  | H : (_ <=? _) = false |- _ => apply Z.leb_gt in H
  | H : (_ >? _) = _ |- _ => rewrite Z.gtb_ltb in H
  | H : (_ >=? _) = _ |- _ => rewrite Z.geb_leb in H
  | H : negb _ = true |- _ => apply negb_true_iff in H
  | H : negb _ = false |- _ => apply negb_false_iff in H
  | H : (_ && _)%bool = true |- _ => apply andb_true_iff in H; destruct H
  | H : (_ || _)%bool = false |- _ => apply orb_false_iff in H; destruct H
  end.

(** ** Hash tables

    The iteration order of [std::unordered_map] and of a [std::map] keyed by
    pointers is not determined by the contents: what iterates takes it from an
    instance, which only promises to visit every pair once. *)
Class Iteration : Type := {
  iterate : forall {A : Type}, gmap Z A -> list (Z * A);
  iterate_perm : forall {A : Type} (m : gmap Z A), iterate m ≡ₚ map_to_list m
}.

(** The order of [gmap] itself, for running the definitions. *)
#[export, refine] Instance gmap_order : Iteration | 100 :=
  {| iterate A m := map_to_list m |}.
Proof. reflexivity. Defined.

Lemma elem_of_iterate `{Iteration} {A} (m : gmap Z A) k x :
  (k, x) ∈ iterate m <-> m !! k = Some x.
Proof. by rewrite iterate_perm, elem_of_map_to_list. Qed.

(** ** Maps *)

Lemma alter_as_insert {A} (f : A -> A) (m : gmap Z A) i x :
  m !! i = Some x -> alter f i m = <[i := f x]> m.
Proof.
  intros Hx. apply map_eq. intros j. rewrite lookup_alter, lookup_insert.
  case_decide; [by rewrite Hx|done].
Qed.

(** ** Time

    The clock is outside the program: a sequence of readings in microseconds,
    consumed one by one. *)

Record Clock : Type := { readings : nat -> Z; ticks : nat }.

(** [QuicClockImpl::NowMicroseconds()] *)
Definition read_clock (c : Clock) : Z * Clock :=
  (readings c (ticks c), {| readings := readings c; ticks := S (ticks c) |}).

Definition monotone (c : Clock) : Prop :=
  forall i j : nat, (i <= j)%nat -> readings c i <= readings c j.

(** ** Lists *)

Section Filters.
Context {A : Type} (P Q : A -> Prop) `{!forall x, Decision (P x), !forall x, Decision (Q x)}.

Lemma filter_ext_in (l : list A) :
  (forall x, x ∈ l -> P x <-> Q x) -> filter P l = filter Q l.
Proof.
  induction l as [|x l IH]; intros Hx; [done|]. rewrite !filter_cons, IH by set_solver.
  pose proof (Hx x). repeat case_decide; set_solver.
Qed.

Lemma filter_Forall_id (l : list A) : Forall P l -> filter P l = l.
Proof.
  induction 1 as [|x l Hx _ IH]; [done|]. by rewrite filter_cons, decide_True, IH.
Qed.

Lemma filter_Forall_nil (l : list A) : Forall (fun x => ~ P x) l -> filter P l = [].
Proof.
  induction 1 as [|x l Hx _ IH]; [done|]. by rewrite filter_cons, decide_False, IH.
Qed.
End Filters.

Lemma nodup_snd_functional {A B} (l : list (A * B)) a a' b :
  NoDup l.*2 -> (a, b) ∈ l -> (a', b) ∈ l -> a = a'.
Proof.
  induction l as [|[x y] l IH]; simpl; [set_solver|].
  intros [Hni Hnd]%NoDup_cons. rewrite !elem_of_cons.
  intros [[= -> ->]|H1] [[= ->]|H2]; try done; [..|by apply IH].
  - by destruct Hni; apply list_elem_of_fmap; exists (a', y).
  - subst. by destruct Hni; apply list_elem_of_fmap; exists (a, y).
Qed.
