(* ===== verification/FdTable.v ===== *)
(** The descriptor tables: [FdFactory] (src/src/fd_factory.h) hands out the
    small integers the API exposes, [FdManager] (src/src/fd_manager.h) maps them
    to the live entries.  The theorems are about the pair: a descriptor that is
    registered is never handed out a second time, and the tables behave as the
    finite map they implement. *)

From S2P Require Import Prelude.

Module FdFactory.

(** [struct FdFactory]: the last number ever taken from the counter and the
    queue of returned descriptors. *)
Record FdFactory : Type := { acq_ : Z; free_ : list Z }.

Definition init : FdFactory := {| acq_ := 0; free_ := [] |}.

(** [int Alloc()] *)
Definition Alloc (f : FdFactory) : Z * FdFactory :=
  match free_ f with
  | [] => let a := int32 (acq_ f + 1) in (a, {| acq_ := a; free_ := [] |})
  | fd :: r => (fd, {| acq_ := acq_ f; free_ := r |})
  end.

(** [void Free(int fd)] *)
Definition Free (fd : Z) (f : FdFactory) : FdFactory :=
  {| acq_ := acq_ f; free_ := free_ f ++ [fd] |}.

(** The factory is consistent with a set of live descriptors: everything ever
    taken from the counter is either live or queued, and nothing is both. *)
Record wf (f : FdFactory) (live : gset Z) : Prop := {
  wf_counter : 0 <= acq_ f;
  wf_nodup : NoDup (free_ f);
  wf_free : forall fd, fd ∈ free_ f -> 1 <= fd <= acq_ f /\ fd ∉ live;
  wf_live : forall fd, fd ∈ live -> 1 <= fd <= acq_ f;
  wf_cover : forall fd, 1 <= fd <= acq_ f -> fd ∈ live \/ fd ∈ free_ f
}.

(** The counter has not reached the end of [int]. *)
Definition room (f : FdFactory) : Prop := acq_ f < 2147483647.

Lemma init_wf : wf init ∅.
Proof. split; simpl; try lia; try constructor; set_solver by lia. Qed.

Lemma Alloc_wf f live :
  wf f live -> (free_ f = [] -> room f) ->
  let '(fd, f') := Alloc f in
  1 <= fd /\ fd ∉ live /\ wf f' ({[fd]} ∪ live).
Proof.
  intros [Hc Hn Hf Hl Hcov] Hr. unfold Alloc, room in *.
  destruct (free_ f) as [|fd r] eqn:E.
  - specialize (Hr eq_refl). rewrite int32_small by lia. split; [lia|]. split.
    { intros ?%Hl. lia. }
    split; simpl; try lia; [constructor|set_solver|..].
    + intros fd [->%elem_of_singleton|?%Hl]%elem_of_union; lia.
    + intros fd ?. destruct (decide (fd = acq_ f + 1)) as [->|]; [set_solver|].
      destruct (Hcov fd) as [|[]%elem_of_nil]; [lia|set_solver].
  - apply NoDup_cons in Hn as [Hni Hn].
    destruct (Hf fd) as [? ?]; [set_solver|].
    split; [lia|]. split; [assumption|].
    split; simpl; try assumption.
    + intros fd' ?. destruct (Hf fd'); [set_solver|]. set_solver.
    + intros fd' [->%elem_of_singleton|?%Hl]%elem_of_union; lia.
    + intros fd' ?. destruct (Hcov fd'); [lia|set_solver|].
      set_solver.
Qed.

Lemma Free_wf f live fd :
  wf f live -> fd ∈ live -> wf (Free fd f) (live ∖ {[fd]}).
Proof.
  intros [Hc Hn Hf Hl Hcov] Hin. unfold Free. split; simpl.
  - exact Hc.
  - apply NoDup_app; split; [assumption|]. split; [|apply NoDup_singleton].
    intros x Hx ->%list_elem_of_singleton. by destruct (Hf fd).
  - intros x [?%Hf| ->%list_elem_of_singleton]%elem_of_app; [set_solver|].
    split; [auto|set_solver].
  - intros x ?. apply Hl. set_solver.
  - intros x ?. destruct (decide (x = fd)) as [->|]; [set_solver|].
    destruct (Hcov x); [lia|set_solver|set_solver].
Qed.

(** A run of the factory as its clients use it: allocate, or give back a live
    descriptor. *)
Inductive run : FdFactory -> gset Z -> Prop :=
| run_init : run init ∅
| run_alloc f live : run f live -> room f ->
    run (Alloc f).2 ({[(Alloc f).1]} ∪ live)
| run_free f live fd : run f live -> fd ∈ live -> run (Free fd f) (live ∖ {[fd]}).

Lemma run_wf f live : run f live -> wf f live.
Proof.
  induction 1 as [|f live Hrun IH Hroom|]; [apply init_wf|..|by apply Free_wf].
  generalize (Alloc_wf f live IH (fun _ => Hroom)). destruct (Alloc f); simpl; tauto.
Qed.

End FdFactory.

Module FdManager.

Section FdManager.
Context {Entry : Type}.

(** [template <typename Entry> struct FdManager]: [map_] *)
Abbreviation map_t := (gmap Z Entry).

(** [void Put(int fd, Entry const& entry)] *)
Definition Put (fd : Z) (entry : Entry) (m : map_t) : map_t := <[fd := entry]> m.

(** [Entry Get(int fd)]: a null pointer when absent. *)
Definition Get (fd : Z) (m : map_t) : option Entry :=
  match m !! fd with
  | None => None
  | Some entry => Some entry
  end.

(** [bool Delete(int fd)] *)
Definition Delete (fd : Z) (m : map_t) : bool * map_t :=
  match m !! fd with
  | None => (false, m)
  | Some _ => (true, delete fd m)
  end.

(** The descriptors of [map_] collected in a [std::set<int>]: ascending. *)
Definition sorted_fds (m : map_t) : list Z :=
  merge_sort Z.le ((map_to_list m).*1).

(** [void Foreach(F const& f)]: the pairs [f] is called with, in order. *)
Definition Foreach (m : map_t) : list (Z * Entry) :=
  omap (fun fd => match m !! fd with Some e => Some (fd, e) | None => None end)
       (sorted_fds m).

Lemma sorted_fds_perm m : sorted_fds m ≡ₚ (map_to_list m).*1.
Proof. apply merge_sort_Permutation. Qed.

Lemma elem_of_sorted_fds m fd : fd ∈ sorted_fds m <-> is_Some (m !! fd).
Proof.
  rewrite sorted_fds_perm, list_elem_of_fmap. split.
  - intros ([k e] & -> & He%elem_of_map_to_list). eauto.
  - intros [e He]. exists (fd, e). by rewrite elem_of_map_to_list.
Qed.

Lemma Foreach_fsts m : (Foreach m).*1 = sorted_fds m.
Proof.
  unfold Foreach.
  assert (forall fd, fd ∈ sorted_fds m -> is_Some (m !! fd)) as H
    by (intros; by apply elem_of_sorted_fds).
  revert H. induction (sorted_fds m) as [|x l IH]; intros H; [done|].
  simpl. destruct (H x) as [e He]; [set_solver|]. rewrite He. simpl.
  f_equal. apply IH. set_solver.
Qed.

Lemma elem_of_Foreach m fd e : (fd, e) ∈ Foreach m <-> m !! fd = Some e.
Proof.
  unfold Foreach. rewrite list_elem_of_omap. split.
  - intros (x & _ & Hx). destruct (m !! x) eqn:E; congruence.
  - intros He. exists fd. rewrite He. split; [|done].
    apply elem_of_sorted_fds. eauto.
Qed.

End FdManager.

End FdManager.

(** Foreach visits every descriptor of the table once, in increasing order. *)
Theorem Foreach_visits_each_once_in_order (E : Type) (m : gmap Z E) :
  StronglySorted Z.lt (FdManager.Foreach m).*1 /\
  (forall fd e, (fd, e) ∈ FdManager.Foreach m <-> FdManager.Get fd m = Some e).
Proof.
  split.
  - rewrite FdManager.Foreach_fsts.
    assert (StronglySorted Z.le (FdManager.sorted_fds m)) as Hs.
    { apply Sorted_StronglySorted; [intros ???; lia|]. apply Sorted_merge_sort.
      intros x y. lia. }
    assert (NoDup (FdManager.sorted_fds m)) as Hn.
    { rewrite FdManager.sorted_fds_perm. apply NoDup_fst_map_to_list. }
    induction Hs as [|x l Hs IH Hx]; [constructor|].
    apply NoDup_cons in Hn as [Hni Hn]. constructor; [auto|].
    rewrite Forall_forall in *. intros y Hy. specialize (Hx y Hy).
    assert (x <> y) by (intros ->; done). lia.
  - intros fd e. rewrite FdManager.elem_of_Foreach. unfold FdManager.Get.
    by destruct (m !! fd).
Qed.

(** Over any sequence of allocations and releases a new descriptor is positive and not
    in use. *)
Theorem Alloc_never_returns_a_live_fd (f : FdFactory.FdFactory) (live : gset Z) :
  FdFactory.run f live -> FdFactory.room f ->
  (FdFactory.Alloc f).1 ∉ live /\ 1 <= (FdFactory.Alloc f).1.
Proof.
  intros Hrun%FdFactory.run_wf Hroom.
  generalize (FdFactory.Alloc_wf f live Hrun (fun _ => Hroom)).
  destruct (FdFactory.Alloc f); simpl. tauto.
Qed.

Example alloc_twice_free_first : FdFactory.FdFactory :=
  FdFactory.Free 1 (FdFactory.Alloc (FdFactory.Alloc FdFactory.init).2).2.

Lemma alloc_twice_run : FdFactory.run alloc_twice_free_first (({[2]} ∪ ({[1]} ∪ ∅)) ∖ {[1]}).
Proof.
  refine (FdFactory.run_free _ _ 1 _ _).
  - refine (FdFactory.run_alloc _ _ _ _); [|reflexivity].
    refine (FdFactory.run_alloc _ _ FdFactory.run_init _). reflexivity.
  - set_solver.
Qed.

Lemma Alloc_never_returns_a_live_fd_witness :
  (FdFactory.Alloc alloc_twice_free_first).1 ∉ (({[2]} ∪ ({[1]} ∪ ∅)) ∖ {[1]} : gset Z) /\
  1 <= (FdFactory.Alloc alloc_twice_free_first).1.
Proof.
  apply Alloc_never_returns_a_live_fd; [apply alloc_twice_run|reflexivity].
Defined.
