(* ===== verification/ConnectionManager.v ===== *)
(** The connection table (src/src/connection_manager.h): which quic socket a
    datagram that arrived on a udp socket with a given connection id belongs to,
    and which quic socket owns the udp socket (accepts its new connections). *)

From S2P Require Import Prelude.

Module ConnectionManager.

(** [struct ConnectionManager] *)
Record ConnectionManager : Type := {
  connections_ : gmap Z (gmap Z Z);   (* UdpSocket -> QuicConnectionId -> QuicSocket *)
  owners_ : gmap Z Z                  (* UdpSocket -> QuicSocket *)
}.

Definition init : ConnectionManager := {| connections_ := ∅; owners_ := ∅ |}.

(** [void Put(UdpSocket, QuicConnectionId, QuicSocket, bool owner)]:
    [connections_[udpSocket]] creates the inner map when it is missing. *)
Definition Put (udpSocket connectionId quicSocket : Z) (owner : bool)
    (c : ConnectionManager) : ConnectionManager :=
  let inner := default ∅ (connections_ c !! udpSocket) in
  {| connections_ := <[udpSocket := <[connectionId := quicSocket]> inner]> (connections_ c);
     owners_ := if owner then <[udpSocket := quicSocket]> (owners_ c) else owners_ c |}.

(** [QuicSocket Get(UdpSocket, QuicConnectionId)] *)
Definition Get (udpSocket connectionId : Z) (c : ConnectionManager) : Z :=
  match connections_ c !! udpSocket with
  | None => -1
  | Some inner =>
      match inner !! connectionId with
      | None => -1
      | Some s => s
      end
  end.

(** [QuicSocket GetOwner(UdpSocket)] *)
Definition GetOwner (udpSocket : Z) (c : ConnectionManager) : Z :=
  match owners_ c !! udpSocket with
  | Some s => s
  | None => -1
  end.

(** [bool Delete(UdpSocket, QuicConnectionId, QuicSocket)] *)
Definition Delete (udpSocket connectionId quicSocket : Z)
    (c : ConnectionManager) : bool * ConnectionManager :=
  match connections_ c !! udpSocket with
  | None => (false, c)
  | Some inner =>
      match inner !! connectionId with
      | None => (false, c)
      | Some _ =>
          let inner' := delete connectionId inner in
          let conns := if decide (inner' = ∅) then delete udpSocket (connections_ c)
                       else <[udpSocket := inner']> (connections_ c) in
          let owners := match owners_ c !! udpSocket with
                        | Some s => if s =? quicSocket then delete udpSocket (owners_ c)
                                    else owners_ c
                        | None => owners_ c
                        end in
          (true, {| connections_ := conns; owners_ := owners |})
      end
  end.

(** ** The abstract table: one flat map from (udp socket, connection id). *)

Definition table (c : ConnectionManager) : gmap (Z * Z) Z :=
  map_uncurry (M1:=gmap Z) (M2:=gmap Z) (M12:=gmap (Z * Z)) (connections_ c).

(** No inner map is left behind empty. *)
Definition compact (c : ConnectionManager) : Prop :=
  forall u, connections_ c !! u <> Some ∅.

Lemma table_lookup c u i :
  table c !! (u, i) = connections_ c !! u ≫= (fun m => m !! i).
Proof. apply (lookup_map_uncurry (M1:=gmap Z) (M2:=gmap Z) (MC:=gmap (Z * Z))). Qed.

Lemma Get_table u i c : Get u i c = default (-1) (table c !! (u, i)).
Proof.
  rewrite table_lookup. unfold Get.
  destruct (connections_ c !! u) as [m|]; [|done]. simpl. by destruct (m !! i).
Qed.

Lemma Put_table u i s o c : table (Put u i s o c) = <[(u, i) := s]> (table c).
Proof.
  apply map_eq. intros [u' i']. rewrite table_lookup. simpl.
  destruct (decide (u = u')) as [->|Hu].
  - rewrite lookup_insert_eq. simpl. destruct (decide (i = i')) as [->|].
    + by rewrite !lookup_insert_eq.
    + rewrite !lookup_insert_ne, table_lookup by congruence.
      by destruct (connections_ c !! u').
  - by rewrite !lookup_insert_ne, table_lookup by congruence.
Qed.

Lemma Delete_table u i s c : table (Delete u i s c).2 = delete (u, i) (table c).
Proof.
  unfold Delete.
  destruct (connections_ c !! u) as [m|] eqn:Hm; simpl.
  2:{ rewrite delete_id; [done|]. rewrite table_lookup. by rewrite Hm. }
  destruct (m !! i) as [x|] eqn:Hx; simpl.
  2:{ rewrite delete_id; [done|]. rewrite table_lookup, Hm. simpl. by rewrite Hx. }
  apply map_eq. intros [u' i']. rewrite table_lookup. simpl.
  destruct (decide (u = u')) as [<-|Hu].
  - transitivity (delete i m !! i').
    { case_decide as He; [by rewrite lookup_delete_eq, He|by rewrite lookup_insert_eq]. }
    destruct (decide (i = i')) as [<-|]; [by rewrite !lookup_delete_eq|].
    rewrite !lookup_delete_ne, table_lookup, Hm by congruence. done.
  - rewrite lookup_delete_ne, table_lookup by congruence.
    case_decide; [by rewrite lookup_delete_ne|by rewrite lookup_insert_ne].
Qed.

Lemma Put_compact u i s o c : compact c -> compact (Put u i s o c).
Proof.
  intros H u'. simpl. destruct (decide (u = u')) as [<-|].
  - rewrite lookup_insert_eq. intros [= Hc]. by apply (insert_non_empty _ _ _ Hc).
  - rewrite lookup_insert_ne by done. apply H.
Qed.

Lemma Delete_compact u i s c : compact c -> compact (Delete u i s c).2.
Proof.
  intros H u'. unfold Delete.
  destruct (connections_ c !! u) as [m|]; [|apply H].
  destruct (m !! i); [|apply H]. simpl. case_decide as He.
  - destruct (decide (u = u')) as [<-|]; [by rewrite lookup_delete_eq|].
    rewrite lookup_delete_ne by done. apply H.
  - destruct (decide (u = u')) as [<-|]; [rewrite lookup_insert_eq; congruence|].
    rewrite lookup_insert_ne by done. apply H.
Qed.

Lemma Delete_found u i s c : (Delete u i s c).1 = bool_decide (is_Some (table c !! (u, i))).
Proof.
  rewrite table_lookup. unfold Delete.
  destruct (connections_ c !! u) as [m|]; [|done]. simpl. by destruct (m !! i).
Qed.

Lemma GetOwner_Delete u i s c :
  GetOwner u (Delete u i s c).2 =
  if (Delete u i s c).1 && (GetOwner u c =? s) then -1 else GetOwner u c.
Proof.
  unfold Delete, GetOwner. destruct (connections_ c !! u) as [m|]; [|done].
  destruct (m !! i); [|done]. simpl.
  destruct (owners_ c !! u) as [x|] eqn:E; simpl.
  - destruct (x =? s); [by rewrite lookup_delete_eq|by rewrite E].
  - rewrite E. by destruct s as [|?|[]].
Qed.

Lemma GetOwner_Delete_ne u u' i s c :
  u <> u' -> GetOwner u' (Delete u i s c).2 = GetOwner u' c.
Proof.
  intros Hu. unfold Delete, GetOwner. destruct (connections_ c !! u) as [m|]; [|done].
  destruct (m !! i); [|done]. simpl. destruct (owners_ c !! u); [|done].
  destruct (_ =? s); [by rewrite lookup_delete_ne|done].
Qed.

End ConnectionManager.

Import ConnectionManager.

Lemma init_compact : compact init.
Proof. intros u. unfold init. simpl. by rewrite lookup_empty. Qed.

(** The two-level table of connections behaves as one map from (udp socket, connection
    id) to socket, and never keeps an empty inner table. *)
Theorem ConnectionManager_refines_flat_map (u i s : Z) (o : bool) (c : ConnectionManager) :
  compact c ->
  Get u i c = default (-1) (table c !! (u, i)) /\
  table (Put u i s o c) = <[(u, i) := s]> (table c) /\
  table (Delete u i s c).2 = delete (u, i) (table c) /\
  (Delete u i s c).1 = bool_decide (is_Some (table c !! (u, i))) /\
  compact (Put u i s o c) /\ compact (Delete u i s c).2.
Proof.
  auto 10 using Get_table, Put_table, Delete_table, Delete_found, Put_compact, Delete_compact.
Qed.

Lemma ConnectionManager_refines_flat_map_witness :
  compact (Put 7 1 3 true init) /\
  table (Delete 7 1 3 (Put 7 1 3 true init)).2 = ∅.
Proof.
  destruct (ConnectionManager_refines_flat_map 7 1 3 true init init_compact)
    as (_ & Hp & _ & _ & Hc & _).
  destruct (ConnectionManager_refines_flat_map 7 1 3 true _ Hc) as (_ & _ & Hd & _).
  split; [exact Hc|]. rewrite Hd, Hp. reflexivity.
Defined.

(** Deleting a connection ends the ownership of its udp socket exactly when the socket
    named is the owner, and touches no other udp socket. *)
Theorem only_the_owner_releases_its_udp_socket (u i s : Z) (c : ConnectionManager) :
  table c !! (u, i) <> None ->
  GetOwner u (Delete u i s c).2 = (if s =? GetOwner u c then -1 else GetOwner u c) /\
  (forall u', u' <> u -> GetOwner u' (Delete u i s c).2 = GetOwner u' c).
Proof.
  intros Ht. split; [|intros u' Hu; by apply GetOwner_Delete_ne].
  rewrite GetOwner_Delete, Delete_found, bool_decide_true, Z.eqb_sym; [done|].
  by apply not_eq_None_Some.
Qed.

Lemma only_the_owner_releases_its_udp_socket_witness :
  GetOwner 7 (Delete 7 2 4 (Put 7 2 4 false (Put 7 1 3 true init))).2 = 3 /\
  GetOwner 7 (Delete 7 1 3 (Put 7 2 4 false (Put 7 1 3 true init))).2 = -1.
Proof.
  split.
  - refine (eq_trans (proj1 (only_the_owner_releases_its_udp_socket 7 2 4 _ _)) _);
      [vm_compute; discriminate|reflexivity].
  - refine (eq_trans (proj1 (only_the_owner_releases_its_udp_socket 7 1 3 _ _)) _);
      [vm_compute; discriminate|reflexivity].
Defined.
