(* ===== verification/Options.v ===== *)
(** Socket options: the option array of src/src/option.h and the defaults of
    src/src/constants.h. *)

From S2P Require Import Prelude.

(** [enum eQuicSocketOptionType] *)
Inductive eQuicSocketOptionType : Type :=
| sockopt_ack_timeout_secs
| sockopt_idle_timeout_secs
| sockopt_stream_wmem
| sockopt_udp_rmem
| sockopt_udp_wmem.

Definition sockopt_count : Z := 5.

(** The enumerators' values. *)
Definition opt_type (t : eQuicSocketOptionType) : Z :=
  match t with
  | sockopt_ack_timeout_secs => 0
  | sockopt_idle_timeout_secs => 1
  | sockopt_stream_wmem => 2
  | sockopt_udp_rmem => 3
  | sockopt_udp_wmem => 4
  end.

(** constants.h *)
Definition kDefaultAckTimeout : Z := 12.
Definition kDefaultIdleTimeout : Z := 15 + 13.
Definition kMinIdleTimeout : Z := 1.
Definition kDefaultUdpRecvMem : Z := 5 * 1024 * 1024.
Definition kDefaultUdpWriteMem : Z := 5 * 1024 * 1024.

Module Options.

(** [template <int Count> class Options]: [long values_[Count]] *)
Record Options : Type := { values_ : list Z }.

(** [Options()]: [memset(values_, 0, sizeof(values_))] *)
Definition init (Count : Z) : Options := {| values_ := replicate (Z.to_nat Count) 0 |}.

(** [values_[type]]: a negative index is not caught by the guards below. *)
Definition index (type : Z) : M Options Z := fun o =>
  if type <? 0 then Crash OutOfBounds
  else match values_ o !! Z.to_nat type with
       | Some v => Ret v o
       | None => Crash OutOfBounds
       end.

(** [bool SetOption(int type, long value)] *)
Definition SetOption (Count type value : Z) : M Options bool :=
  if type >=? Count then mret false
  else
    v ← index type;
    if negb (v =? value) then
      modify (fun o => {| values_ := <[Z.to_nat type := value]> (values_ o) |});; mret true
    else mret false.

(** [long GetOption(int type) const] *)
Definition GetOption (Count type : Z) : M Options Z :=
  if type >=? Count then mret 0 else index type.

Lemma index_ok type (o : Options) :
  0 <= type < Z.of_nat (length (values_ o)) ->
  index type o = Ret (default 0 (values_ o !! Z.to_nat type)) o.
Proof.
  intros H. unfold index. rewrite (proj2 (Z.ltb_ge type 0)) by lia.
  destruct (lookup_lt_is_Some_2 (values_ o) (Z.to_nat type)) as [v Hv]; [lia|].
  by rewrite Hv.
Qed.

End Options.

Definition QuicSocketOptions : Type := Options.Options.

(** The value an in-range option reads as, as a total function. *)
Definition option_value (o : QuicSocketOptions) (t : eQuicSocketOptionType) : Z :=
  default 0 (Options.values_ o !! Z.to_nat (opt_type t)).

Lemma opt_type_range t : 0 <= opt_type t < sockopt_count.
Proof. destruct t; unfold sockopt_count; simpl; lia. Qed.

#[export] Instance eQuicSocketOptionType_dec : EqDecision eQuicSocketOptionType.
Proof. solve_decision. Defined.

Lemma opt_type_inj t t' : Z.to_nat (opt_type t) = Z.to_nat (opt_type t') -> t = t'.
Proof. by destruct t, t'. Qed.

Lemma GetOption_value o t :
  length (Options.values_ o) = Z.to_nat sockopt_count ->
  Options.GetOption sockopt_count (opt_type t) o = Ret (option_value o t) o.
Proof.
  intros Hl. unfold Options.GetOption, option_value.
  pose proof (opt_type_range t).
  rewrite Z.geb_leb, (proj2 (Z.leb_gt sockopt_count (opt_type t))) by lia.
  apply Options.index_ok. rewrite Hl. unfold sockopt_count in *. lia.
Qed.

(** An option set is the value read back, others are unchanged, and SetOption tells
    whether the value changed. *)
Theorem option_set_get_round_trip (o : QuicSocketOptions) (t t' : eQuicSocketOptionType) (v : Z) :
  length (Options.values_ o) = Z.to_nat sockopt_count ->
  exists o',
    Options.SetOption sockopt_count (opt_type t) v o
      = Ret (negb (option_value o t =? v)) o' /\
    length (Options.values_ o') = Z.to_nat sockopt_count /\
    Options.GetOption sockopt_count (opt_type t') o'
      = Ret (if decide (t = t') then v else option_value o t') o'.
Proof.
  intros Hl. pose proof (opt_type_range t).
  unfold Options.SetOption.
  rewrite Z.geb_leb, (proj2 (Z.leb_gt sockopt_count (opt_type t))) by lia.
  unfold mbind, M_bind.
  rewrite Options.index_ok by (rewrite Hl; unfold sockopt_count in *; lia).
  fold (option_value o t). destruct (Z.eqb_spec (option_value o t) v) as [<-|Hne]; simpl.
  - exists o. split; [done|]. split; [done|]. rewrite GetOption_value by done.
    by case_decide; subst.
  - eexists. split; [reflexivity|].
    assert (length (<[Z.to_nat (opt_type t):=v]> (Options.values_ o)) = Z.to_nat sockopt_count) as Hl'
      by by rewrite length_insert.
    split; [done|]. rewrite GetOption_value by done. f_equal.
    unfold option_value. simpl. case_decide as Ht.
    + subst. rewrite list_lookup_insert_eq; [done|].
      rewrite Hl. unfold sockopt_count in *. lia.
    + rewrite list_lookup_insert_ne; [done|]. intros ?%opt_type_inj. done.
Qed.

Lemma option_set_get_round_trip_witness :
  exists o',
    Options.SetOption sockopt_count (opt_type sockopt_stream_wmem) 4096
      (Options.init sockopt_count) = Ret true o' /\
    Options.GetOption sockopt_count 2 o' = Ret 4096 o'.
Proof.
  destruct (option_set_get_round_trip (Options.init sockopt_count) sockopt_stream_wmem
              sockopt_stream_wmem 4096 eq_refl) as (o' & Hs & _ & Hg).
  exists o'. split; [exact Hs|exact Hg].
Defined.

(** An option number past the last one is refused and leaves the options alone; a
    negative one is an access outside the array. *)
Theorem option_index_guard (o : QuicSocketOptions) (type v : Z) :
  0 <= type < sockopt_count \/
  (Options.SetOption sockopt_count type v o, Options.GetOption sockopt_count type o) =
  (if 0 <=? type then (Ret false o, Ret 0 o)
   else (Crash OutOfBounds, Crash OutOfBounds)).
Proof.
  unfold Options.SetOption, Options.GetOption, mbind, M_bind, Options.index.
  destruct (Z.leb_spec 0 type), (Z.leb_spec sockopt_count type);
    rewrite Z.geb_leb; unfold sockopt_count in *; try lia; right.
  - by rewrite (proj2 (Z.leb_le 5 type)).
  - by rewrite (proj2 (Z.leb_gt 5 type)), (proj2 (Z.ltb_lt type 0)) by lia.
Qed.
