(* ===== verification/TaskRunner.v ===== *)
(** The timers (src/src/task_runner.h, task_runner.cpp): [QuicTaskRunner], the
    deadline-ordered multimap an epoller drives, and [QuicTaskRunnerProxy], the
    per-socket task runner that is linked to one when the socket joins an
    epoller.

    [Timers] is the state the timer objects share: the [TaskStorage] objects
    (reachable from the multimap, from the [ScheduledTask] handles and from the
    local vector of [RunOnce]), the multimap of every runner and the static id
    counter.  A [TaskStorage] is known by its [id]. *)

From S2P Require Import Prelude.

Module TaskRunner.

(** [struct TaskStorage]; the spin locks are their [atomic_flag]. *)
Record TaskStorage : Type := {
  task : Z;                (* Task* *)
  runner_ : Z;             (* QuicTaskRunner* *)
  invalid : bool;
  callLock : bool;
  connectionId : Z
}.

Definition lock_invalid (s : TaskStorage) : TaskStorage :=
  {| task := task s; runner_ := runner_ s; invalid := true;
     callLock := callLock s; connectionId := connectionId s |}.

Definition set_callLock (b : bool) (s : TaskStorage) : TaskStorage :=
  {| task := task s; runner_ := runner_ s; invalid := invalid s;
     callLock := b; connectionId := connectionId s |}.

Record Timers : Type := {
  store : gmap Z TaskStorage;             (* the TaskStorage objects, by id *)
  tasks_ : gmap Z (list (Z * Z));         (* per runner: (deadline ms, id), by deadline *)
  StaticTaskId : Z;                       (* TaskStorage::StaticTaskId() *)
  StaticStorageId : Z;                    (* QuicTaskRunnerProxy::Storage::StaticTaskId() *)
  clock : Clock
}.

Definition set_store f (t : Timers) : Timers :=
  {| store := f (store t); tasks_ := tasks_ t; StaticTaskId := StaticTaskId t;
     StaticStorageId := StaticStorageId t; clock := clock t |}.
Definition set_tasks f (t : Timers) : Timers :=
  {| store := store t; tasks_ := f (tasks_ t); StaticTaskId := StaticTaskId t;
     StaticStorageId := StaticStorageId t; clock := clock t |}.

(** A runner is alive while it has a multimap in [tasks_]. *)
Definition runner_tasks (t : Timers) (r : Z) : list (Z * Z) := default [] (tasks_ t !! r).

Definition runner_alive (t : Timers) (r : Z) : Prop := is_Some (tasks_ t !! r).

(** [QuicClockImpl::getInstance().NowMicroseconds() / 1000] *)
Definition NowMS : M Timers Z := fun t =>
  Ret (Z.quot (read_clock (clock t)).1 1000)
      {| store := store t; tasks_ := tasks_ t; StaticTaskId := StaticTaskId t;
         StaticStorageId := StaticStorageId t; clock := (read_clock (clock t)).2 |}.

(** [std::multimap::insert]: after the elements with an equal key. *)
Fixpoint insert (d id : Z) (l : list (Z * Z)) : list (Z * Z) :=
  match l with
  | [] => [(d, id)]
  | (d', id') :: r => if d <? d' then (d, id) :: l else (d', id') :: insert d id r
  end.

(** [Schedule]: [uint64_t delay_ms] makes the sum unsigned before it is stored
    in the [int64_t] key. *)
Definition Schedule (r tsk delay_ms connId : Z) : M Timers Z :=
  now ← NowMS;
  let d := int64 (uint64 (now + delay_ms)) in
  t ← get;
  _ ← deref (tasks_ t !! r) DeadRunner;
  let id := StaticTaskId t + 1 in
  modify (fun t =>
    {| store := <[id := {| task := tsk; runner_ := r; invalid := false;
                           callLock := false; connectionId := connId |}]> (store t);
       tasks_ := <[r := insert d id (runner_tasks t r)]> (tasks_ t);
       StaticTaskId := id; StaticStorageId := StaticStorageId t; clock := clock t |});;
  mret id.

(** [QuicTaskRunner::Cancel(itr)]: the iterator is the one of storage [id]. *)
Definition erase (id : Z) (l : list (Z * Z)) : list (Z * Z) :=
  filter (fun p => p.2 <> id) l.

Definition Cancel_itr (r id : Z) : M Timers unit :=
  t ← get;
  _ ← deref (tasks_ t !! r) DeadRunner;
  if bool_decide (id ∈ (runner_tasks t r).*2) then
    modify (set_tasks <[r := erase id (runner_tasks t r)]>)
  else crashed EndIterator.

(** [ScheduledTask::Cancel()], called in the thread that is running
    [RunOnce] or in another one. *)
Definition Cancel (in_runner_thread : bool) (id : Z) : M Timers unit :=
  t ← get;
  s ← deref (store t !! id) NoTask;
  if negb (invalid s) then
    modify (set_store (alter lock_invalid id));;
    Cancel_itr (runner_ s) id
  else if negb in_runner_thread then
    if callLock s then crashed Spins
    else modify (set_store (alter (set_callLock true) id))
  else mret tt.

(** The first half of [RunOnce]: walk the multimap while [now > itr->first],
    moving out every storage whose [invalid] lock is free. *)
Fixpoint collect (now : Z) (st : gmap Z TaskStorage) (l : list (Z * Z))
    : list Z * gmap Z TaskStorage * list (Z * Z) :=
  match l with
  | [] => ([], st, [])
  | (d, id) :: r =>
      if now >? d then
        match st !! id with
        | Some s =>
            if invalid s then
              let '(tr, st', r') := collect now st r in (tr, st', (d, id) :: r')
            else
              let '(tr, st', r') := collect now (<[id := lock_invalid s]> st) r in
              (id :: tr, st', r')
        | None => ([], st, l)
        end
      else ([], st, l)
  end.

Definition CollectDue (r : Z) : M Timers (list Z) :=
  now ← NowMS;
  t ← get;
  let '(triggers, st, rest) := collect now (store t) (runner_tasks t r) in
  modify (fun t => {| store := st; tasks_ := <[r := rest]> (tasks_ t);
                      StaticTaskId := StaticTaskId t;
                      StaticStorageId := StaticStorageId t; clock := clock t |});;
  mret triggers.

(** One iteration of the second half: [callLock.try_lock()], the task, and the
    release at the end of the scope.  [run] is [Task::Run()] of the alarm, which
    may schedule and cancel; the timers sit inside the state [S] it acts on. *)
Section RunOnce.
Context {S : Type} (timers : Lens S Timers).

Definition Trigger (run : Z -> M S unit) (id : Z) : M S unit :=
  s ← get;
  st ← deref (store (view timers s) !! id) NoTask;
  if callLock st then mret tt
  else
    zoom timers (modify (set_store (alter (set_callLock true) id)));;
    run (task st);;
    zoom timers (modify (set_store (alter (set_callLock false) id))).

(** [void RunOnce()] *)
Definition RunOnce (run : Z -> M S unit) (r : Z) : M S unit :=
  triggers ← zoom timers (CollectDue r);
  for_each triggers (Trigger run).
End RunOnce.

(** ** Order of the multimap *)

Definition by_deadline (l : list (Z * Z)) : Prop := Sorted Z.le l.*1.

Lemma by_deadline_strong l : by_deadline l <-> StronglySorted Z.le l.*1.
Proof.
  split; [|apply StronglySorted_Sorted].
  intros H. apply Sorted_StronglySorted; [|exact H]. intros x y z. lia.
Qed.

Lemma insert_perm d id l : insert d id l ≡ₚ (d, id) :: l.
Proof.
  induction l as [|[d' id'] l IH]; simpl; [done|].
  destruct (d <? d'); [done|]. rewrite IH. constructor.
Qed.

Lemma insert_sorted d id l : by_deadline l -> by_deadline (insert d id l).
Proof.
  unfold by_deadline. induction l as [|[d' id'] l IH]; simpl; intros Hs; [by repeat constructor|].
  destruct (Z.ltb_spec d d'); simpl.
  - constructor; [done|]. constructor. lia.
  - apply Sorted_inv in Hs as [Hs Hh]. constructor; [auto|].
    destruct l as [|[d2 id2] l]; simpl in *; [constructor; lia|].
    inversion Hh; subst. by destruct (d <? d2); constructor.
Qed.

Lemma erase_sublist id l : erase id l `sublist_of` l.
Proof. apply sublist_filter. Qed.

Lemma elem_of_erase id x l : x ∈ (erase id l).*2 <-> x ∈ l.*2 /\ x <> id.
Proof.
  unfold erase. rewrite !list_elem_of_fmap. split.
  - intros ([d y] & -> & [Hne Hin]%list_elem_of_filter). split; [|done]. by exists (d, y).
  - intros [([d y] & -> & Hin) Hne]. exists (d, y). split; [done|].
    by apply list_elem_of_filter.
Qed.

Lemma sublist_sorted l k : k `sublist_of` l -> by_deadline l -> by_deadline k.
Proof.
  rewrite !by_deadline_strong. intros Hsub. induction Hsub as [|x l k Hs IH|x l k Hs IH];
    simpl; intros Hk; [done|..]; inversion Hk; subst; [|auto].
  constructor; [auto|]. eapply Forall_forall. intros y Hy.
  eapply Forall_forall; [eassumption|].
  eapply sublist_subseteq; [by apply fmap_sublist|exact Hy].
Qed.

(** A task is taken by a [collect] at [now]. *)
Definition due (now : Z) (st : gmap Z TaskStorage) (p : Z * Z) : Prop :=
  p.1 < now /\ exists s, st !! p.2 = Some s /\ invalid s = false.

#[export] Instance due_dec now st p : Decision (due now st p).
Proof.
  unfold due. destruct (decide (p.1 < now)); [|right; naive_solver].
  destruct (st !! p.2) as [s|]; [|right; naive_solver].
  destruct (invalid s) eqn:E; [right|left]; naive_solver congruence.
Defined.

Lemma due_ext now st st' l :
  (forall x, x ∈ l.*2 -> st' !! x = st !! x) ->
  forall p, p ∈ l -> due now st' p <-> due now st p.
Proof.
  intros H [d x] Hx. unfold due. simpl. rewrite H; [done|].
  apply list_elem_of_fmap. by exists (d, x).
Qed.

Lemma not_due_tail now st d id l :
  by_deadline ((d, id) :: l) -> now <= d -> Forall (fun p => ~ due now st p) ((d, id) :: l).
Proof.
  intros Hs%by_deadline_strong Hd. simpl in Hs. inversion Hs as [|?? _ Hall]; subst.
  rewrite Forall_forall in Hall.
  constructor; [intros [? _]; simpl in *; lia|].
  apply Forall_forall. intros [d' x] Hx [Hlt _]. simpl in *.
  enough (d <= d') by lia. apply Hall, list_elem_of_fmap. by exists (d', x).
Qed.

Lemma by_deadline_tail p l : by_deadline (p :: l) -> by_deadline l.
Proof. apply Sorted_inv. Qed.

(** What a walk does to the storages. *)
Definition locked_in (ids : list Z) (st st' : gmap Z TaskStorage) : Prop :=
  forall x, st' !! x = if decide (x ∈ ids) then lock_invalid <$> st !! x else st !! x.

Lemma locked_in_nil st : locked_in [] st st.
Proof. intros x. by rewrite decide_False by apply not_elem_of_nil. Qed.

(** The walk computes the filter by [due]: the due storages in deadline order
    are moved out, and their [invalid] lock is taken. *)
Lemma collect_spec now l : forall st,
  by_deadline l -> NoDup l.*2 -> (forall x, x ∈ l.*2 -> is_Some (st !! x)) ->
  exists st',
    collect now st l =
      ((filter (due now st) l).*2, st', filter (fun p => ~ due now st p) l) /\
    locked_in (filter (due now st) l).*2 st st'.
Proof.
  induction l as [|[d id] l IH]; intros st Hs Hn Hst.
  { exists st. split; [done|apply locked_in_nil]. }
  simpl in Hn. apply NoDup_cons in Hn as [Hni Hn].
  destruct (Hst id) as [s Hid]; [set_solver|].
  simpl. rewrite Z.gtb_ltb. destruct (Z.ltb_spec d now) as [Hd|Hd].
  2:{ pose proof (not_due_tail now st d id l Hs Hd) as Hall. exists st.
      rewrite filter_Forall_nil, (filter_Forall_id (fun p => ~ due now st p)) by done.
      split; [done|apply locked_in_nil]. }
  apply by_deadline_tail in Hs. rewrite Hid. destruct (invalid s) eqn:Hinv.
  - destruct (IH st) as (st' & Hc & Hl); [done|done|set_solver|].
    assert (~ due now st (d, id)) as Hnd.
    { intros [_ (s' & ? & ?)]. simpl in *. congruence. }
    rewrite Hc. exists st'. by rewrite !filter_cons, decide_False, decide_True.
  - destruct (IH (<[id := lock_invalid s]> st)) as (st' & Hc & Hl); [done|done|..].
    { intros x Hx. destruct (decide (x = id)) as [->|]; [by rewrite lookup_insert_eq|].
      rewrite lookup_insert_ne by done. set_solver. }
    assert (forall p, p ∈ l -> due now (<[id := lock_invalid s]> st) p <-> due now st p) as He.
    { apply due_ext. intros x Hx. rewrite lookup_insert_ne; [done|]. by intros ->. }
    rewrite (filter_ext_in _ (due now st)) in Hc, Hl by done.
    assert (filter (fun p => ~ due now (<[id := lock_invalid s]> st) p) l
            = filter (fun p => ~ due now st p) l) as Hf.
    { apply filter_ext_in. intros p Hp. by rewrite He. }
    rewrite Hf in Hc.
    assert (due now st (d, id)) as Hdue by (split; simpl; eauto).
    rewrite Hc. exists st'. rewrite !filter_cons, decide_True, decide_False by tauto.
    split; [done|]. intros x. rewrite Hl. simpl.
    destruct (decide (x = id)) as [->|Hx].
    + rewrite decide_False, decide_True, lookup_insert_eq, Hid; [done|set_solver|].
      intros ([d' y] & -> & [_ Hin]%list_elem_of_filter)%list_elem_of_fmap.
      apply Hni, list_elem_of_fmap. by exists (d', y).
    + rewrite lookup_insert_ne by done. by repeat case_decide; set_solver.
Qed.

(** ** Well-formed timers *)

Record wf (t : Timers) : Prop := {
  wf_sorted : forall r, by_deadline (runner_tasks t r);
  wf_nodup : forall r, NoDup (runner_tasks t r).*2;
  wf_stored : forall r id, id ∈ (runner_tasks t r).*2 ->
    exists s, store t !! id = Some s /\ runner_ s = r;
  wf_ids : forall id, is_Some (store t !! id) -> id <= StaticTaskId t
}.

Lemma runner_tasks_insert t r l r' :
  default [] (<[r := l]> (tasks_ t) !! r') = if decide (r = r') then l else runner_tasks t r'.
Proof. unfold runner_tasks. rewrite lookup_insert. by case_decide. Qed.

(** [Schedule] on a live runner succeeds; the new storage has a fresh id and its deadline
    is the clock reading plus the delay. *)
Lemma Schedule_spec r tsk delay c t :
  runner_alive t r ->
  exists t' d,
    Schedule r tsk delay c t = Ret (StaticTaskId t + 1) t' /\
    d = int64 (uint64 (Z.quot (readings (clock t) (ticks (clock t))) 1000 + delay)) /\
    StaticTaskId t' = StaticTaskId t + 1 /\
    store t' = <[StaticTaskId t + 1 := {| task := tsk; runner_ := r; invalid := false;
                 callLock := false; connectionId := c |}]> (store t) /\
    runner_tasks t' r = insert d (StaticTaskId t + 1) (runner_tasks t r) /\
    (forall r', r' <> r -> runner_tasks t' r' = runner_tasks t r') /\
    (forall r', runner_alive t r' -> runner_alive t' r') /\
    clock t' = {| readings := readings (clock t); ticks := S (ticks (clock t)) |}.
Proof.
  intros [l Hl]. unfold Schedule, NowMS, get, modify, deref, mbind, M_bind, mret, M_ret. simpl.
  rewrite Hl. eexists _, _. split; [reflexivity|]. split; [reflexivity|]. simpl.
  unfold runner_tasks, runner_alive; simpl. rewrite lookup_insert_eq. repeat split.
  - intros r' Hr. by rewrite lookup_insert_ne.
  - intros r' Hr. rewrite lookup_insert. by case_decide; eauto.
Qed.

Lemma Schedule_alive r tsk delay c t id t' :
  Schedule r tsk delay c t = Ret id t' -> runner_alive t r.
Proof.
  unfold Schedule, NowMS, get, deref, mbind, M_bind, runner_alive. simpl.
  destruct (tasks_ t !! r); [eauto|done].
Qed.

Lemma insert_ids d id l x : x ∈ (insert d id l).*2 <-> x = id \/ x ∈ l.*2.
Proof. rewrite insert_perm. simpl. by rewrite elem_of_cons. Qed.

Lemma Schedule_wf r tsk delay c : preserves wf (Schedule r tsk delay c).
Proof.
  intros t id t' [Hs Hn Hst Hid] H.
  pose proof (Schedule_alive _ _ _ _ _ _ _ H) as Hal.
  destruct (Schedule_spec r tsk delay c t Hal)
    as (t1 & d & H1 & _ & Hsid & Hstore & Hr & Hr' & _).
  rewrite H1 in H. injection H as <- <-.
  assert (StaticTaskId t + 1 ∉ (runner_tasks t r).*2) as Hfresh.
  { intros (s & Hs1 & _)%Hst. assert (StaticTaskId t + 1 <= StaticTaskId t) by eauto. lia. }
  split.
  - intros r'. destruct (decide (r' = r)) as [->|]; [|by rewrite Hr'].
    rewrite Hr. by apply insert_sorted.
  - intros r'. destruct (decide (r' = r)) as [->|]; [|by rewrite Hr'].
    rewrite Hr, insert_perm. simpl. by constructor.
  - intros r' x Hx. rewrite Hstore.
    destruct (decide (x = StaticTaskId t + 1)) as [->|Hx'].
    + rewrite lookup_insert_eq. eexists. split; [done|]. simpl.
      destruct (decide (r' = r)) as [->|Hne]; [done|]. rewrite Hr' in Hx by done.
      apply Hst in Hx as (s & Hs1 & _).
      assert (StaticTaskId t + 1 <= StaticTaskId t) by eauto. lia.
    + rewrite lookup_insert_ne by done.
      destruct (decide (r' = r)) as [->|Hne]; [|rewrite Hr' in Hx by done; auto].
      rewrite Hr in Hx. apply insert_ids in Hx as [?|?]; [done|auto].
  - intros x. rewrite Hstore, Hsid. destruct (decide (x = StaticTaskId t + 1)) as [->|]; [lia|].
    rewrite lookup_insert_ne by done. intros ?%Hid. lia.
Qed.

(** ** The proxy of a socket *)

(** [struct QuicTaskRunnerProxy::Storage]; [link_] is the [ScheduledTask] of the
    runner it is linked to, [proxy_] is the proxy itself. *)
Record Storage : Type := { task_ : Z; deadline_ : Z; link_ : option Z }.

(** [class QuicTaskRunnerProxy] *)
Record Proxy : Type := {
  storages_ : gmap Z Storage;
  prunner_ : option Z;
  connectionId_ : Z
}.

Definition proxy_init : Proxy :=
  {| storages_ := ∅; prunner_ := None; connectionId_ := uint64 (-1) |}.

(** [Initialize(connectionId, mtx)] *)
Definition Proxy_Initialize (connId : Z) (p : Proxy) : Proxy :=
  {| storages_ := storages_ p; prunner_ := prunner_ p; connectionId_ := connId |}.

Definition set_storages (m : gmap Z Storage) (p : Proxy) : Proxy :=
  {| storages_ := m; prunner_ := prunner_ p; connectionId_ := connectionId_ p |}.

(** [++StaticTaskId()] of [Storage] *)
Definition next_storage_id : M Timers Z := fun t =>
  Ret (StaticStorageId t + 1)
      {| store := store t; tasks_ := tasks_ t; StaticTaskId := StaticTaskId t;
         StaticStorageId := StaticStorageId t + 1; clock := clock t |}.

(** [QuicTaskRunnerProxy::Schedule]: the handle is the id of the storage. *)
Definition Proxy_Schedule (tsk delay_ms : Z) (p : Proxy) : M Timers (Z * Proxy) :=
  now ← NowMS;
  let deadline := int64 (uint64 (now + delay_ms)) in
  sid ← next_storage_id;
  link ← match prunner_ p with
         | Some r => id ← Schedule r tsk delay_ms (connectionId_ p); mret (Some id)
         | None => mret None
         end;
  mret (sid, set_storages (<[sid := {| task_ := tsk; deadline_ := uint64 deadline;
                                       link_ := link |}]> (storages_ p)) p).

(** One round of the loop of [Link]. *)
Definition link_one (r connId : Z) (s : Storage) : M Timers Storage :=
  now ← NowMS;
  let delay_ms := if uint64 now >? deadline_ s then 0 else uint64 (deadline_ s - now) in
  id ← Schedule r (task_ s) delay_ms connId;
  mret {| task_ := task_ s; deadline_ := deadline_ s; link_ := Some id |}.

Fixpoint link_all (r connId : Z) (l : list (Z * Storage)) : M Timers (gmap Z Storage) :=
  match l with
  | [] => mret ∅
  | (sid, s) :: l' =>
      s' ← link_one r connId s;
      m ← link_all r connId l';
      mret (<[sid := s']> m)
  end.

(** [bool Link(QuicTaskRunner *runner)] *)
Definition Link (r : Z) (p : Proxy) : M Timers (bool * Proxy) :=
  match prunner_ p with
  | Some _ => mret (false, p)
  | None =>
      m ← link_all r (connectionId_ p) (map_to_list (storages_ p));
      mret (true, {| storages_ := m; prunner_ := Some r; connectionId_ := connectionId_ p |})
  end.

Definition unlinked (s : Storage) : Storage :=
  {| task_ := task_ s; deadline_ := deadline_ s; link_ := None |}.

(** [void Unlink()] *)
Definition Unlink (in_runner_thread : bool) (p : Proxy) : M Timers Proxy :=
  match prunner_ p with
  | Some _ =>
      for_each (map_to_list (storages_ p)) (fun kv =>
        match link_ kv.2 with
        | Some id => Cancel in_runner_thread id
        | None => mret tt
        end);;
      mret {| storages_ := unlinked <$> storages_ p; prunner_ := None;
              connectionId_ := connectionId_ p |}
  | None => mret {| storages_ := storages_ p; prunner_ := None; connectionId_ := connectionId_ p |}
  end.

(** [void Cancel(StoragePtr storage)], reached through
    [ProxyScheduledTask::Cancel] which drops its storage afterwards. *)
Definition Proxy_Cancel (in_runner_thread : bool) (sid : Z) (p : Proxy) : M Timers Proxy :=
  match storages_ p !! sid with
  | Some s =>
      match link_ s with
      | Some id => Cancel in_runner_thread id
      | None => mret tt
      end;;
      mret (set_storages (delete sid (storages_ p)) p)
  | None => mret p
  end.

End TaskRunner.

Import TaskRunner.

Lemma store_keep_wf t st l r :
  wf t -> l `sublist_of` runner_tasks t r ->
  (forall x s, store t !! x = Some s -> exists s', st !! x = Some s' /\ runner_ s' = runner_ s) ->
  (forall x, is_Some (st !! x) -> is_Some (store t !! x)) ->
  wf {| store := st; tasks_ := <[r := l]> (tasks_ t); StaticTaskId := StaticTaskId t;
        StaticStorageId := StaticStorageId t; clock := clock t |}.
Proof.
  intros [Hs Hn Hst Hid] Hsub Hkeep Hback. split; simpl.
  - intros r'. unfold runner_tasks; simpl. rewrite runner_tasks_insert.
    case_decide; [|apply Hs]. eapply sublist_sorted; [done|apply Hs].
  - intros r'. unfold runner_tasks; simpl. rewrite runner_tasks_insert.
    case_decide; [|apply Hn]. eapply sublist_NoDup; [apply Hn|by apply fmap_sublist].
  - intros r' id. unfold runner_tasks; simpl. rewrite runner_tasks_insert. intros Hin.
    assert (id ∈ (runner_tasks t r').*2) as (s & Hs1 & Hr)%Hst.
    { case_decide; [|done]. subst. eapply sublist_subseteq; [by apply fmap_sublist|done]. }
    destruct (Hkeep _ _ Hs1) as (s' & ? & ?). exists s'. split; congruence.
  - intros id ?%Hback. auto.
Qed.

(** The time [CollectDue] reads. *)
Definition now_ms (t : Timers) : Z := Z.quot (readings (clock t) (ticks (clock t))) 1000.

Lemma CollectDue_spec t r :
  wf t ->
  exists t', CollectDue r t = Ret (filter (due (now_ms t) (store t)) (runner_tasks t r)).*2 t' /\
    runner_tasks t' r = filter (fun p => ~ due (now_ms t) (store t) p) (runner_tasks t r) /\
    locked_in (filter (due (now_ms t) (store t)) (runner_tasks t r)).*2 (store t) (store t') /\
    wf t' /\ StaticTaskId t' = StaticTaskId t /\
    (forall r', r' <> r -> runner_tasks t' r' = runner_tasks t r').
Proof.
  intros Hwf. destruct (collect_spec (now_ms t) (runner_tasks t r) (store t))
    as (st' & Hc & Hl); [apply Hwf|apply Hwf| |].
  { intros x (s & ? & _)%Hwf. eauto. }
  unfold CollectDue, NowMS, get, modify, mbind, M_bind, mret, M_ret. simpl.
  fold (now_ms t). unfold runner_tasks at 1. simpl. fold (runner_tasks t r). rewrite Hc.
  eexists. split; [reflexivity|]. simpl. unfold runner_tasks; simpl.
  rewrite lookup_insert_eq. split; [done|]. split; [done|]. split; [|split; [done|]].
  - apply (store_keep_wf {| store := store t; tasks_ := tasks_ t; StaticTaskId := StaticTaskId t;
        StaticStorageId := StaticStorageId t; clock := _ |}).
    + destruct Hwf as [H1 H2 H3 H4]. split; [exact H1|exact H2|exact H3|exact H4].
    + apply sublist_filter.
    + intros x s Hx. simpl in Hx. rewrite Hl. case_decide; rewrite Hx; simpl; eauto.
    + intros x Hx. rewrite Hl in Hx. case_decide; [|done].
      simpl. by apply fmap_is_Some in Hx.
  - intros r' Hr. by rewrite lookup_insert_ne.
Qed.

Lemma collected_tasks (t : Timers) (r : Z) :
  wf t ->
  exists ids t',
    CollectDue r t = Ret ids t' /\ wf t' /\
    (forall id, id ∈ ids <->
       exists d, (d, id) ∈ runner_tasks t r /\ due (now_ms t) (store t) (d, id)) /\
    (forall id, id ∈ ids ->
       id ∉ (runner_tasks t' r).*2 /\ exists s, store t' !! id = Some s /\ invalid s = true) /\
    NoDup ids /\
    exists ds, Sorted Z.le ds /\ zip ds ids `sublist_of` runner_tasks t r.
Proof.
  intros Hwf. destruct (CollectDue_spec t r Hwf) as (t' & Hc & Hrest & Hl & Hwf' & _).
  set (f := filter (due (now_ms t) (store t)) (runner_tasks t r)) in *.
  assert (f `sublist_of` runner_tasks t r) as Hsub by apply sublist_filter.
  assert (forall id, id ∈ f.*2 <->
     exists d, (d, id) ∈ runner_tasks t r /\ due (now_ms t) (store t) (d, id)) as Hf.
  { intros id. rewrite list_elem_of_fmap. split.
    - intros ([d x] & -> & [? ?]%list_elem_of_filter). eauto.
    - intros (d & ? & ?). exists (d, id). split; [done|]. by apply list_elem_of_filter. }
  exists f.*2, t'. split; [done|]. split; [done|]. split; [exact Hf|split; [|split]].
  - intros id Hid. split.
    + rewrite Hrest. intros ([d' x] & -> & [Hnot Hin']%list_elem_of_filter)%list_elem_of_fmap.
      apply Hf in Hid as (d & Hin & Hdue). apply Hnot.
      by rewrite (nodup_snd_functional _ d' d x (wf_nodup t Hwf r) Hin' Hin).
    + pose proof Hid as (d & _ & [_ (s & Hs & _)])%Hf. exists (lock_invalid s).
      simpl in Hs. split; [|done]. by rewrite Hl, decide_True, Hs.
  - eapply sublist_NoDup; [apply (wf_nodup t Hwf r)|by apply fmap_sublist].
  - exists f.*1. split; [|by rewrite zip_fst_snd].
    eapply (sublist_sorted _ _ Hsub), Hwf.
Qed.


(** Two tasks with delays 5 and 0 scheduled at time 100, collected at time 103. *)
Definition two_timers : Timers :=
  {| store := <[1 := {| task := 10; runner_ := 7; invalid := false; callLock := false;
                        connectionId := 0 |}]>
              (<[2 := {| task := 11; runner_ := 7; invalid := false; callLock := false;
                         connectionId := 0 |}]> ∅);
     tasks_ := {[ 7 := [(100, 2); (105, 1)] ]}; StaticTaskId := 2; StaticStorageId := 0;
     clock := {| readings := fun _ => 103000; ticks := 0 |} |}.

Lemma two_timers_wf : wf two_timers.
Proof.
  assert (forall r, runner_tasks two_timers r = if decide (r = 7) then [(100, 2); (105, 1)] else []) as E.
  { intros r. unfold runner_tasks, two_timers. simpl.
    destruct (decide (r = 7)) as [->|]; [done|]. by rewrite lookup_singleton_ne. }
  split.
  - intros r. rewrite E. case_decide; repeat constructor. simpl. lia.
  - intros r. rewrite E. case_decide; simpl; [|constructor].
    apply NoDup_cons. split; [set_solver|apply NoDup_singleton].
  - intros r id. rewrite E. case_decide; simpl; [|set_solver].
    rewrite !elem_of_cons, elem_of_nil. intros [->|[->|[]]]; subst; eexists; split; reflexivity.
  - intros id. unfold two_timers. simpl.
    destruct (decide (id = 1)) as [->|]; [lia|]. destruct (decide (id = 2)) as [->|]; [lia|].
    rewrite !lookup_insert_ne, lookup_empty by done. by intros [? ?].
Qed.


(** ** Linking a proxy to a runner *)

(** A clock that never goes back and stays far from the end of [int64_t]
    microseconds. *)
Record clock_ok (c : Clock) : Prop := {
  clock_mono : monotone c;
  clock_range : forall i, 0 <= readings c i < 2 ^ 62
}.

Definition deadline_ok (s : Storage) : Prop := 0 <= deadline_ s < 2 ^ 62.

(** The storage [s'] continues [s] with a pending runner task that is not due
    before the deadline of [s]. *)
Definition linked_as (t : Timers) (r : Z) (s s' : Storage) : Prop :=
  task_ s' = task_ s /\ deadline_ s' = deadline_ s /\
  exists id d, link_ s' = Some id /\ (d, id) ∈ runner_tasks t r /\ deadline_ s <= d.

Lemma NowMS_spec t :
  exists t', NowMS t = Ret (now_ms t) t' /\ store t' = store t /\ tasks_ t' = tasks_ t /\
    StaticTaskId t' = StaticTaskId t /\
    clock t' = {| readings := readings (clock t); ticks := S (ticks (clock t)) |}.
Proof. eexists. split; [reflexivity|]. by simpl. Qed.

Lemma NowMS_wf : preserves wf NowMS.
Proof. intros t a t' [H1 H2 H3 H4] [= <- <-]. split; assumption. Qed.

Lemma now_ms_range t : clock_ok (clock t) -> 0 <= now_ms t < 2 ^ 62.
Proof.
  intros [_ Hr]. specialize (Hr (ticks (clock t))). unfold now_ms.
  rewrite Z.quot_div_nonneg by lia. split; [apply Z.div_pos; lia|].
  apply Z.div_lt_upper_bound; lia.
Qed.

Lemma clock_ok_tick c :
  clock_ok c -> clock_ok {| readings := readings c; ticks := S (ticks c) |}.
Proof. intros [H1 H2]. split; [intros i j; apply H1|exact H2]. Qed.

(** The key [Link] computes is not before the deadline, whatever time passes
    between its two clock readings. *)
Lemma link_delay now now' deadline :
  0 <= now <= now' /\ now' < 2 ^ 62 -> 0 <= deadline < 2 ^ 62 ->
  deadline <= int64 (uint64 (now' + (if uint64 now >? deadline then 0
                                     else uint64 (deadline - now)))).
Proof.
  intros [Hn Hn'] Hd. rewrite (uint64_small now) by lia.
  destruct (now >? deadline) eqn:E; b2p.
  - rewrite uint64_small, int64_small; lia.
  - rewrite (uint64_small (deadline - now)), uint64_small, int64_small; lia.
Qed.

Lemma link_one_spec r c s t :
  clock_ok (clock t) -> deadline_ok s -> wf t -> runner_alive t r ->
  exists s' t', link_one r c s t = Ret s' t' /\ linked_as t' r s s' /\ wf t' /\
    runner_alive t' r /\ clock_ok (clock t') /\ (forall x, x ∈ runner_tasks t r -> x ∈ runner_tasks t' r).
Proof.
  intros Hck Hd Hwf Hal. unfold link_one.
  destruct (NowMS_spec t) as (t1 & H1 & Hst1 & Htk1 & Hid1 & Hc1).
  pose proof (NowMS_wf t _ t1 Hwf H1) as Hwf1.
  assert (clock_ok (clock t1)) as Hck1 by (rewrite Hc1; by apply clock_ok_tick).
  assert (now_ms t <= now_ms t1) as Hle.
  { destruct Hck as [Hm Hr]. unfold now_ms. rewrite Hc1. simpl.
    apply Z.quot_le_mono; [lia|]. apply Hm. lia. }
  pose proof (now_ms_range t Hck). pose proof (now_ms_range t1 Hck1).
  set (delay := if uint64 (now_ms t) >? deadline_ s then 0 else uint64 (deadline_ s - now_ms t)).
  assert (runner_alive t1 r) as Hal1 by (unfold runner_alive; by rewrite Htk1).
  destruct (Schedule_spec r (task_ s) delay c t1 Hal1)
    as (t2 & d & H2 & Hdd & _ & _ & Hr2 & _ & Hal2 & Hc2).
  pose proof (Schedule_wf r (task_ s) delay c t1 _ t2 Hwf1 H2) as Hwf2.
  eexists _, t2. unfold mbind, M_bind. rewrite H1. fold delay. rewrite H2.
  split; [reflexivity|]. fold (now_ms t1) in Hdd.
  assert (runner_tasks t1 r = runner_tasks t r) as Hrt by (unfold runner_tasks; by rewrite Htk1).
  split; [|split; [done|split; [by apply Hal2|split; [rewrite Hc2; by apply clock_ok_tick|]]]].
  - split; [done|]. split; [done|]. exists (StaticTaskId t1 + 1), d. split; [done|].
    split; [rewrite Hr2, insert_perm; by left|].
    subst d delay. apply link_delay; [lia|done].
  - intros x Hx. rewrite Hr2, insert_perm, Hrt. by right.
Qed.

Lemma link_all_spec r c l : forall t,
  clock_ok (clock t) -> wf t -> runner_alive t r -> NoDup l.*1 -> Forall (fun kv => deadline_ok kv.2) l ->
  exists m t', link_all r c l t = Ret m t' /\ wf t' /\ clock_ok (clock t') /\
    (forall x, x ∈ runner_tasks t r -> x ∈ runner_tasks t' r) /\
    (forall sid, is_Some (m !! sid) <-> sid ∈ l.*1) /\
    (forall sid s, (sid, s) ∈ l -> exists s', m !! sid = Some s' /\ linked_as t' r s s').
Proof.
  induction l as [|[sid s] l IH]; intros t Hck Hwf Hal Hn Hd.
  - exists ∅, t. repeat (split; [done|]). split; [|set_solver].
    intros sid. rewrite lookup_empty. split; [by intros []|set_solver].
  - simpl in Hn. apply NoDup_cons in Hn as [Hni Hn]. apply Forall_cons in Hd as [Hd1 Hd].
    destruct (link_one_spec r c s t Hck Hd1 Hwf Hal)
      as (s' & t1 & H1 & Hl1 & Hwf1 & Hal1 & Hck1 & Hk1).
    destruct (IH t1 Hck1 Hwf1 Hal1 Hn Hd) as (m & t2 & H2 & Hwf2 & Hck2 & Hk2 & Hdom & Hall).
    exists (<[sid := s']> m), t2. simpl. unfold mbind, M_bind. rewrite H1, H2.
    split; [done|]. split; [done|]. split; [done|]. split; [auto|]. split.
    + intros x. rewrite lookup_insert_is_Some', Hdom, elem_of_cons. naive_solver.
    + intros x sx [[= -> ->]|Hin]%elem_of_cons.
      * exists s'. rewrite lookup_insert_eq. split; [done|].
        destruct Hl1 as (? & ? & id & d & ? & ? & ?). repeat split; eauto 10.
      * rewrite lookup_insert_ne; [by apply Hall|]. intros ->. apply Hni.
        apply list_elem_of_fmap. by exists (x, sx).
Qed.

(** Linking a proxy to a runner schedules each of its pending tasks, none before its
    deadline, and keeps the runner well formed. *)
Theorem Link_schedules_every_task_never_early (r : Z) (p : Proxy) (t : Timers) :
  wf t -> clock_ok (clock t) -> runner_alive t r -> prunner_ p = None ->
  map_Forall (fun _ s => deadline_ok s) (storages_ p) ->
  exists p' t', Link r p t = Ret (true, p') t' /\ wf t' /\ prunner_ p' = Some r /\
    dom (storages_ p') = dom (storages_ p) /\
    forall sid s, storages_ p !! sid = Some s ->
      exists s', storages_ p' !! sid = Some s' /\ linked_as t' r s s'.
Proof.
  intros Hwf Hck Hal Hp Hd. unfold Link. rewrite Hp.
  destruct (link_all_spec r (connectionId_ p) (map_to_list (storages_ p)) t)
    as (m & t' & H & Hwf' & _ & _ & Hdom & Hall); [done|done|done|apply NoDup_fst_map_to_list|..].
  { apply Forall_forall. intros [sid s] Hin%elem_of_map_to_list. by apply (Hd sid). }
  eexists _, t'. unfold mbind, M_bind. rewrite H. split; [reflexivity|].
  split; [done|]. split; [done|]. simpl. split.
  - apply set_eq. intros sid. rewrite !elem_of_dom, Hdom, list_elem_of_fmap. split.
    + intros ([k s] & -> & ?%elem_of_map_to_list). by eexists.
    + intros [s Hs]. exists (sid, s). by rewrite elem_of_map_to_list.
  - intros sid s Hs. apply Hall. by apply elem_of_map_to_list.
Qed.

(** A proxy with one alarm set for 120 ms, joining an epoller at 103 ms. *)
Definition one_alarm : Proxy :=
  {| storages_ := {[ 1 := {| task_ := 10; deadline_ := 120; link_ := None |} ]};
     prunner_ := None; connectionId_ := 99 |}.

Lemma one_alarm_hyps :
  clock_ok (clock two_timers) /\ map_Forall (fun _ s => deadline_ok s) (storages_ one_alarm).
Proof.
  split; [split; [intros i j _; simpl; lia|intros i; simpl; lia]|].
  unfold one_alarm. simpl. apply map_Forall_singleton. unfold deadline_ok. simpl. lia.
Qed.

Lemma Link_schedules_every_task_never_early_witness :
  exists p' t', Link 7 one_alarm two_timers = Ret (true, p') t' /\
    exists s', storages_ p' !! 1 = Some s' /\
      linked_as t' 7 {| task_ := 10; deadline_ := 120; link_ := None |} s'.
Proof.
  destruct (Link_schedules_every_task_never_early 7 one_alarm two_timers two_timers_wf
              (proj1 one_alarm_hyps) (ex_intro _ _ eq_refl) eq_refl (proj2 one_alarm_hyps))
    as (p' & t' & H & _ & _ & _ & Hall).
  exists p', t'. split; [exact H|]. apply Hall. reflexivity.
Defined.
