(* ===== verification/TimerThreads.v ===== *)
(** The timer protocol under interleaving.  [RunOnce] runs in the thread of
    [QuicEpollWait], the session schedules and cancels in any thread, and
    the two sides meet only at the [invalid] and [callLock] flags of a
    [TaskStorage].  Every atomic action (one lock, one critical section) is a
    step; the theorems hold in every interleaving. *)

From S2P Require Import Prelude TaskRunner.
Import TaskRunner.

(** The state of runner [r] and of the threads around it. *)
Record Threads : Type := {
  tm : Timers;
  batch : list Z;            (* rest of the [triggers] vector of [RunOnce] *)
  running : option Z;        (* the storage whose task is running *)
  executed : list Z;         (* the tasks started so far, oldest first *)
  dying : gset Z;            (* [Cancel] holds [invalid], has not erased yet *)
  cancelled : gset Z         (* [Cancel] has returned in a thread other than the runner's *)
}.

Definition with_tm (t : Timers) (s : Threads) : Threads :=
  {| tm := t; batch := batch s; running := running s; executed := executed s;
     dying := dying s; cancelled := cancelled s |}.

Definition flag (f : TaskStorage -> bool) (s : Threads) (id : Z) : option bool :=
  f <$> store (tm s) !! id.

Section Steps.
Variable r : Z.   (* the runner *)

Inductive step : Threads -> Threads -> Prop :=
(* Schedule, under mtx_ *)
| st_schedule s tsk delay c id t' :
    Schedule r tsk delay c (tm s) = Ret id t' -> step s (with_tm t' s)
(* RunOnce: the walk over tasks_, under mtx_ *)
| st_collect s ids t' :
    batch s = [] -> running s = None ->
    CollectDue r (tm s) = Ret ids t' ->
    step s {| tm := t'; batch := ids; running := None; executed := executed s;
              dying := dying s; cancelled := cancelled s |}
(* RunOnce: callLock.try_lock() succeeds, the task starts *)
| st_begin s id b :
    batch s = id :: b -> running s = None -> flag callLock s id = Some false ->
    step s {| tm := set_store (alter (set_callLock true) id) (tm s); batch := b;
              running := Some id; executed := executed s ++ [id];
              dying := dying s; cancelled := cancelled s |}
(* RunOnce: callLock.try_lock() fails, the task is skipped *)
| st_skip s id b :
    batch s = id :: b -> running s = None -> flag callLock s id = Some true ->
    step s {| tm := tm s; batch := b; running := None; executed := executed s;
              dying := dying s; cancelled := cancelled s |}
(* RunOnce: the task returned, callLock is released *)
| st_end s id :
    running s = Some id ->
    step s {| tm := set_store (alter (set_callLock false) id) (tm s); batch := batch s;
              running := None; executed := executed s;
              dying := dying s; cancelled := cancelled s |}
(* ScheduledTask::Cancel: invalid.try_lock() succeeds ... *)
| st_cancel_lock s id :
    flag invalid s id = Some false ->
    step s {| tm := set_store (alter lock_invalid id) (tm s); batch := batch s;
              running := running s; executed := executed s;
              dying := {[id]} ∪ dying s; cancelled := cancelled s |}
(* ... and the task is erased from tasks_ *)
| st_cancel_erase s id t' :
    id ∈ dying s -> Cancel_itr r id (tm s) = Ret tt t' ->
    step s {| tm := t'; batch := batch s; running := running s; executed := executed s;
              dying := dying s ∖ {[id]}; cancelled := {[id]} ∪ cancelled s |}
(* ScheduledTask::Cancel: invalid is taken, callLock.lock() is acquired (a spin
   lock: the step waits for callLock to be free) and never released *)
| st_cancel_wait s id :
    flag invalid s id = Some true -> flag callLock s id = Some false ->
    step s {| tm := set_store (alter (set_callLock true) id) (tm s); batch := batch s;
              running := running s; executed := executed s;
              dying := dying s; cancelled := {[id]} ∪ cancelled s |}
(* ScheduledTask::Cancel in the runner's thread: invalid is taken, no effect *)
| st_cancel_in_runner s id :
    running s <> None -> flag invalid s id = Some true -> step s s.

(** No runner has been active yet. *)
Definition idle (s : Threads) : Prop :=
  wf (tm s) /\ batch s = [] /\ running s = None /\ executed s = [] /\
  dying s = ∅ /\ cancelled s = ∅ /\
  (forall id, id ∈ (runner_tasks (tm s) r).*2 -> flag invalid s id = Some false).

Inductive reachable : Threads -> Prop :=
| reach_init s : idle s -> reachable s
| reach_step s s' : reachable s -> step s s' -> reachable s'.

(** A storage in the batch, or already started, is locked and off the multimap. *)
Definition taken (s : Threads) (id : Z) : Prop :=
  flag invalid s id = Some true /\ id ∉ (runner_tasks (tm s) r).*2 /\ id ∉ dying s.

Record inv (s : Threads) : Prop := {
  inv_wf : wf (tm s);
  inv_batch : forall id, id ∈ batch s -> taken s id /\ id ∉ executed s;
  inv_batch_nodup : NoDup (batch s);
  inv_executed : forall id, id ∈ executed s -> taken s id;
  inv_executed_nodup : NoDup (executed s);
  inv_running : forall id, running s = Some id ->
    id ∈ executed s /\ flag callLock s id = Some true;
  inv_dying : forall id, id ∈ dying s -> flag invalid s id = Some true;
  inv_cancelled : forall id, id ∈ cancelled s ->
    flag invalid s id = Some true /\ (id ∈ batch s -> flag callLock s id = Some true) /\
    running s <> Some id
}.

Lemma flag_alter (f : TaskStorage -> bool) g id x t :
  f <$> store (set_store (alter g id) t) !! x =
  if decide (x = id) then (fun st => f (g st)) <$> store t !! id else f <$> store t !! x.
Proof.
  simpl. rewrite lookup_alter. destruct (decide (x = id)) as [->|Hne].
  - rewrite decide_True by done. destruct (store t !! id); reflexivity.
  - by rewrite decide_False by congruence.
Qed.

Lemma set_store_wf (g : TaskStorage -> TaskStorage) id t :
  (forall st, runner_ (g st) = runner_ st) -> wf t -> wf (set_store (alter g id) t).
Proof.
  intros Hg [H1 H2 H3 H4]. split; [exact H1|exact H2|..].
  - intros r' x (st & Hst & Hr)%H3. simpl. rewrite lookup_alter.
    case_decide; subst; rewrite Hst; [|eauto].
    eexists. split; [reflexivity|]. by rewrite Hg.
  - intros x. simpl. rewrite lookup_alter. case_decide; [|apply H4].
    subst. intros ?%fmap_is_Some. auto.
Qed.

Lemma inv_idle s : idle s -> inv s.
Proof.
  intros (Hwf & Hb & Hr & He & Hd & Hc & _).
  split; rewrite ?Hb, ?Hr, ?He, ?Hd, ?Hc; try done; try constructor; set_solver.
Qed.

(** What every step does to the timers: no [invalid] lock is released and no
    known storage is put back on the multimap. *)
Record grows (t t' : Timers) : Prop := {
  gr_wf : wf t';
  gr_invalid : forall x, invalid <$> store t !! x = Some true ->
    invalid <$> store t' !! x = Some true;
  gr_tasks : forall x, is_Some (store t !! x) ->
    x ∈ (runner_tasks t' r).*2 -> x ∈ (runner_tasks t r).*2
}.

Lemma grows_refl t : wf t -> grows t t.
Proof. by split. Qed.

Lemma grows_alter g id t :
  (forall st, runner_ (g st) = runner_ st) ->
  (forall st, invalid st = true -> invalid (g st) = true) ->
  wf t -> grows t (set_store (alter g id) t).
Proof.
  intros Hr Hi Hwf. split; [by apply set_store_wf| |done].
  intros x Hx. rewrite flag_alter. case_decide; [|done]. subst.
  destruct (store t !! id); [|done]. simpl in *. injection Hx as Hx. by rewrite Hi.
Qed.

Lemma grows_Schedule tsk delay c t id t' :
  wf t -> Schedule r tsk delay c t = Ret id t' ->
  grows t t' /\ (forall x b, callLock <$> store t !! x = Some b -> callLock <$> store t' !! x = Some b).
Proof.
  intros Hwf H. pose proof (Schedule_alive _ _ _ _ _ _ _ H) as Hal.
  destruct (Schedule_spec r tsk delay c t Hal) as (t1 & d & H1 & _ & _ & Hst & Hr & _).
  rewrite H in H1. injection H1 as -> <-.
  assert (forall x, is_Some (store t !! x) -> x <> StaticTaskId t + 1) as Hne.
  { intros x Hx%(wf_ids t Hwf) ->. lia. }
  split; [split|].
  - eapply Schedule_wf; eauto.
  - intros x Hx. rewrite Hst, lookup_insert_ne; [done|]. apply not_eq_sym, Hne.
    destruct (store t !! x); [eauto|done].
  - intros x Hx. rewrite Hr, insert_ids. intros [->|?]; [by destruct (Hne _ Hx)|done].
  - intros x b Hx. rewrite Hst, lookup_insert_ne; [done|]. apply not_eq_sym, Hne.
    destruct (store t !! x); [eauto|done].
Qed.

Lemma taken_grows s s' id :
  taken s id -> grows (tm s) (tm s') -> id ∉ dying s' -> taken s' id.
Proof.
  intros (Hi & Ht & _) [_ Hgi Hgt] Hd. split; [by apply Hgi|]. split; [|done].
  intros Hin. apply Ht, Hgt; [|done]. unfold flag in Hi. by destruct (store (tm s) !! id).
Qed.

Lemma Cancel_itr_grows id t t' :
  wf t -> Cancel_itr r id t = Ret tt t' ->
  grows t t' /\ store t' = store t /\ id ∉ (runner_tasks t' r).*2.
Proof.
  unfold Cancel_itr, get, deref, modify, crashed, mbind, M_bind. intros Hwf.
  destruct (tasks_ t !! r) as [l|]; [|done]. case_bool_decide; [|done].
  intros [= <-]. assert (runner_tasks (set_tasks <[r:=erase id (runner_tasks t r)]> t) r
                         = erase id (runner_tasks t r)) as E.
  { unfold runner_tasks at 1. simpl. by rewrite lookup_insert_eq. }
  split; [split|split]; [|done|..].
  - apply (store_keep_wf t (store t)); [done|apply erase_sublist|eauto|done].
  - intros x _. rewrite E, elem_of_erase. tauto.
  - done.
  - rewrite E, elem_of_erase. tauto.
Qed.

Lemma RunOnce_collected t ids t' :
  wf t -> CollectDue r t = Ret ids t' ->
  (forall id, id ∈ ids <->
     exists d, (d, id) ∈ runner_tasks t r /\ due (now_ms t) (store t) (d, id)) /\
  (forall id, id ∈ ids -> id ∉ (runner_tasks t' r).*2 /\ invalid <$> store t' !! id = Some true) /\
  NoDup ids.
Proof.
  intros Hwf H. destruct (collected_tasks t r Hwf) as (ids1 & t1 & H1 & _ & Hf & Ht & Hn & _).
  rewrite H in H1. injection H1 as -> ->. split; [done|]. split; [|done].
  intros id (? & st & Hst & Hi)%Ht. split; [done|]. rewrite Hst. simpl. by rewrite Hi.
Qed.

(** ** Preservation, one lemma per kind of step *)

(** Steps that touch only the timers. *)
Lemma inv_timers s s' :
  inv s -> grows (tm s) (tm s') ->
  batch s' = batch s -> running s' = running s -> executed s' = executed s ->
  (forall id, id ∈ dying s' -> flag invalid s' id = Some true) ->
  (forall id, id ∈ dying s' -> id ∈ dying s \/ flag invalid s id = Some false) ->
  (forall id, id ∈ cancelled s' -> id ∈ cancelled s \/
     flag invalid s id = Some true /\ (id ∈ batch s -> flag callLock s' id = Some true) /\
     running s <> Some id) ->
  (forall id, flag callLock s id = Some true -> flag callLock s' id = Some true) ->
  inv s'.
Proof.
  intros [Hwf Hb Hbn He Hen Hr Hd Hc] Hg Eb Er Ee Hdi Hdo Hca Hcl.
  assert (forall id, taken s id -> taken s' id) as Htk.
  { intros id Ht. eapply taken_grows; [done|done|].
    intros [?|Hf]%Hdo; destruct Ht as (Hi & _ & Hnd); [done|congruence]. }
  split; rewrite ?Eb, ?Er, ?Ee; try done.
  - apply Hg.
  - intros id Hin. destruct (Hb id Hin). auto.
  - intros id Hin. auto.
  - intros id Hin. destruct (Hr id Hin). auto.
  - intros id [Hin|(Hi & Hcb & Hru)]%Hca.
    + destruct (Hc id Hin) as (Hi & Hcb & Hru). split; [by apply Hg|]. auto.
    + split; [by apply Hg|done].
Qed.

Lemma inv_collect s ids t' :
  inv s -> batch s = [] -> running s = None -> CollectDue r (tm s) = Ret ids t' ->
  inv {| tm := t'; batch := ids; running := None; executed := executed s;
         dying := dying s; cancelled := cancelled s |}.
Proof.
  intros [Hwf Hb Hbn He Hen Hr Hd Hc] Eb Er H.
  destruct (CollectDue_spec (tm s) r Hwf) as (t1 & H1 & Hrest & Hl & Hwf' & _).
  set (f := (filter _ _).*2) in H1, Hl. rewrite H in H1. injection H1 as -> ->.
  destruct (RunOnce_collected (tm s) f t1 Hwf H) as (Hdue & Htaken & Hnd).
  assert (forall x b, invalid <$> store (tm s) !! x = Some b ->
            invalid <$> store t1 !! x = Some (b || bool_decide (x ∈ f))) as Hinv.
  { intros x b Hx. rewrite Hl. case_bool_decide.
    - rewrite decide_True by done. destruct (store (tm s) !! x); [|done]. simpl in *.
      by rewrite orb_true_r.
    - rewrite decide_False by done. by rewrite orb_false_r. }
  assert (grows (tm s) t1) as Hg.
  { split; [done|intros x Hx; by rewrite (Hinv x true)|].
    intros x _. rewrite Hrest. intros (p & -> & [_ Hp]%list_elem_of_filter)%list_elem_of_fmap.
    apply list_elem_of_fmap. by exists p. }
  assert (forall id, id ∈ f -> flag invalid s id = Some false) as Hff.
  { intros id (d & _ & [_ (st & Hst & Hi)])%Hdue. unfold flag. simpl in Hst.
    rewrite Hst. simpl. by rewrite Hi. }
  split; simpl; try done.
  - intros id Hin. split.
    + split; [by apply (proj2 (Htaken id Hin))|]. split; [by apply Htaken|].
      intros Hdy%Hd. rewrite Hff in Hdy by done. done.
    + intros (Hi & _)%He. rewrite Hff in Hi by done. done.
  - intros id Hin. eapply (taken_grows s); [by apply He|done|]. by apply He.
  - intros id Hin. unfold flag. simpl. rewrite (Hinv id true); [done|]. by apply Hd.
  - intros id Hin. destruct (Hc id Hin) as [Hi _].
    split; [unfold flag; simpl; by rewrite (Hinv id true)|]. split; [|done].
    intros Hf. rewrite Hff in Hi by done. done.
Qed.

(** Taking or releasing a [callLock] keeps what the timers guarantee. *)
Lemma grows_callLock b id s : inv s -> grows (tm s) (set_store (alter (set_callLock b) id) (tm s)).
Proof. intros Hi. by apply grows_alter; [..|apply Hi]. Qed.

Lemma flag_callLock b id s s' x :
  tm s' = set_store (alter (set_callLock b) id) (tm s) -> is_Some (store (tm s) !! id) ->
  flag callLock s' x = if decide (x = id) then Some b else flag callLock s x.
Proof.
  intros E [st Hst]. unfold flag. rewrite E, flag_alter. case_decide; [|done].
  rewrite Hst. reflexivity.
Qed.

Lemma flag_is_Some f s id b : flag f s id = Some b -> is_Some (store (tm s) !! id).
Proof. unfold flag. destruct (store (tm s) !! id); [eauto|done]. Qed.

Lemma inv_begin s id b :
  inv s -> batch s = id :: b -> running s = None -> flag callLock s id = Some false ->
  inv {| tm := set_store (alter (set_callLock true) id) (tm s); batch := b;
         running := Some id; executed := executed s ++ [id];
         dying := dying s; cancelled := cancelled s |}.
Proof.
  intros Hi Eb Er Hcl. pose proof (grows_callLock true id s Hi) as Hg.
  set (s' := {| tm := _ |}).
  pose proof (flag_callLock true id s s') as Hfl.
  destruct Hi as [Hwf Hb Hbn He Hen Hr Hd Hc]. rewrite Eb in Hb, Hbn, Hc.
  apply NoDup_cons in Hbn as [Hni Hbn].
  destruct (Hb id) as [Htk Hne]; [set_solver|].
  assert (forall x, taken s x -> taken s' x) as Ht.
  { intros x Hx. apply (taken_grows s); [done|done|apply Hx]. }
  assert (forall x, flag callLock s' x = if decide (x = id) then Some true else flag callLock s x)
    as Hfl' by (intros x; apply Hfl; [done|by eapply flag_is_Some]).
  split; simpl.
  - apply Hg.
  - intros x Hx. destruct (Hb x) as [? ?]; [set_solver|]. split; [by apply Ht|].
    rewrite elem_of_app, list_elem_of_singleton. intros [?| ->]; done.
  - done.
  - intros x. rewrite elem_of_app, list_elem_of_singleton. intros [?| ->]; auto.
  - apply NoDup_app. split; [done|]. split; [set_solver|apply NoDup_singleton].
  - intros x [= <-]. rewrite Hfl', decide_True by done. set_solver.
  - intros x Hx. apply Hg. by apply Hd.
  - intros x Hx. destruct (Hc x Hx) as (Hi1 & Hb1 & Hr1). split; [by apply Hg|]. split.
    + intros Hin. rewrite Hfl'. case_decide; [done|]. apply Hb1. set_solver.
    + intros [= <-]. rewrite Hb1 in Hcl; [done|set_solver].
Qed.

Lemma inv_skip s id b :
  inv s -> batch s = id :: b -> running s = None ->
  inv {| tm := tm s; batch := b; running := None; executed := executed s;
         dying := dying s; cancelled := cancelled s |}.
Proof.
  intros [Hwf Hb Hbn He Hen Hr Hd Hc] Eb Er. rewrite Eb in Hb, Hbn, Hc.
  apply NoDup_cons in Hbn as [_ Hbn]. split; simpl; try done.
  - intros x Hx. apply Hb. set_solver.
  - intros x Hx. destruct (Hc x Hx) as (? & Hb1 & _). split; [done|]. split; [|done].
    intros ?. apply Hb1. set_solver.
Qed.

Lemma inv_end s id :
  inv s -> running s = Some id ->
  inv {| tm := set_store (alter (set_callLock false) id) (tm s); batch := batch s;
         running := None; executed := executed s;
         dying := dying s; cancelled := cancelled s |}.
Proof.
  intros Hi Er. pose proof (grows_callLock false id s Hi) as Hg.
  set (s' := {| tm := _ |}). pose proof (flag_callLock false id s s') as Hfl.
  destruct Hi as [Hwf Hb Hbn He Hen Hr Hd Hc]. destruct (Hr id Er) as [Hin Hcl].
  assert (forall x, taken s x -> taken s' x) as Ht.
  { intros x Hx. apply (taken_grows s); [done|done|apply Hx]. }
  split; simpl; try done.
  - apply Hg.
  - intros x Hx. destruct (Hb x Hx). auto.
  - intros x Hx. auto.
  - intros x Hx. apply Hg. by apply Hd.
  - intros x Hx. destruct (Hc x Hx) as (Hi1 & Hb1 & Hr1). split; [by apply Hg|]. split; [|done].
    intros Hxb. rewrite Hfl; [|done|by eapply flag_is_Some].
    rewrite decide_False; [auto|]. intros ->. by destruct (Hb id Hxb).
Qed.

Lemma inv_step s s' : inv s -> step s s' -> inv s'.
Proof.
  intros Hi Hstep. pose proof Hi as [Hwf Hb Hbn He Hen Hr Hd Hc]. destruct Hstep as
    [s tsk delay c id t' H|s ids t' Eb Er H|s id b Eb Er Hf|s id b Eb Er Hf|s id Er
    |s id Hf|s id t' Hin H|s id Hf Hl|s id _ _].
  - destruct (grows_Schedule tsk delay c (tm s) id t' Hwf H) as [Hg Hcl].
    apply (inv_timers s); [done..|intros x ?; by apply Hg, Hd|auto|auto|].
    intros x. apply Hcl.
  - eapply inv_collect; eauto.
  - eapply inv_begin; eauto.
  - eapply inv_skip; eauto.
  - eapply inv_end; eauto.
  - assert (grows (tm s) (set_store (alter lock_invalid id) (tm s))) as Hg by by apply grows_alter.
    apply (inv_timers s); [done|done|done..| | |by left|].
    + simpl. intros x [->%elem_of_singleton|Hx%Hd]%elem_of_union; [|by apply Hg].
      unfold flag in *. simpl. rewrite lookup_alter, decide_True by done.
      by destruct (store (tm s) !! id).
    + simpl. intros x [->%elem_of_singleton|Hx]%elem_of_union; auto.
    + intros x Hx. unfold flag in *. cbn [tm]. rewrite flag_alter. case_decide; [by subst|done].
  - destruct (Cancel_itr_grows id (tm s) t' Hwf H) as (Hg & Est & _).
    apply (inv_timers s); [done|done|done..| | | |]; simpl.
    + intros x [Hx%Hd _]%elem_of_difference. by apply Hg.
    + intros x [Hx _]%elem_of_difference. by left.
    + intros x [->%elem_of_singleton|Hx]%elem_of_union; [right|by left].
      split; [by apply Hd|]. split.
      * intros Hx. by destruct (Hb id Hx) as [(_ & _ & []) _].
      * intros Ex%Hr. by destruct (He id (proj1 Ex)) as (_ & _ & []).
    + intros x. unfold flag. simpl. by rewrite Est.
  - assert (grows (tm s) (set_store (alter (set_callLock true) id) (tm s))) as Hg
      by by apply grows_callLock.
    set (s' := {| tm := _ |}).
    assert (forall x, flag callLock s' x = if decide (x = id) then Some true else flag callLock s x)
      as Hfl by (intros x; apply flag_callLock; [done|by eapply flag_is_Some]).
    apply (inv_timers s); [done|done|done..|by intros x ?; apply Hg, Hd|auto| |].
    + simpl. intros x [->%elem_of_singleton|Hx]%elem_of_union; [right|by left].
      split; [done|]. split; [intros _; by rewrite Hfl, decide_True|].
      intros [_ Ex]%Hr. congruence.
    + intros x Hx. rewrite Hfl. by case_decide.
  - done.
Qed.

Lemma inv_reachable s : reachable s -> inv s.
Proof. induction 1; [by apply inv_idle|by eapply inv_step]. Qed.

Lemma reachable_rtc s s' : reachable s -> rtc step s s' -> reachable s'.
Proof. intros Hr. induction 1; [done|]. apply IHrtc. by eapply reach_step. Qed.

(** Cancellation is never undone, and a cancelled storage is not started. *)
Lemma cancelled_step s s' id :
  inv s -> step s s' -> id ∈ cancelled s ->
  id ∈ cancelled s' /\ (id ∈ executed s' -> id ∈ executed s).
Proof.
  intros Hi Hs Hin. pose proof (inv_cancelled s Hi _ Hin) as (_ & Hb & _).
  destruct Hs as [| |s x b Eb _ Hf| | | | | |]; simpl; split; try done; try set_solver.
  rewrite elem_of_app, list_elem_of_singleton. intros [?| <-]; [done|].
  rewrite Hb in Hf; [done|]. rewrite Eb. set_solver.
Qed.

Lemma cancelled_rtc s s' id :
  reachable s -> rtc step s s' -> id ∈ cancelled s ->
  id ∈ cancelled s' /\ (id ∈ executed s' -> id ∈ executed s).
Proof.
  intros Hr Hs. revert Hr. induction Hs as [|s s1 s' H1 _ IH]; intros Hr Hin; [done|].
  destruct (cancelled_step s s1 id (inv_reachable s Hr) H1 Hin) as [Hin1 He].
  destruct (IH (reach_step s s1 Hr H1) Hin1). auto.
Qed.

End Steps.

(** C26: In every interleaving of the timer thread with scheduling and cancelling threads a
    task runs at most once. *)
Theorem a_task_runs_at_most_once (r : Z) (s : Threads) :
  reachable r s -> NoDup (executed s).
Proof. intros H%inv_reachable. by eapply inv_executed_nodup. Qed.

(** C25: Once a cancel from another thread has returned, no interleaving of the runner
    thread and other cancelling threads runs the task any more. *)
Theorem cancel_from_another_thread_is_final (r : Z) (s s' : Threads) (id : Z) :
  reachable r s -> id ∈ cancelled s -> rtc (step r) s s' ->
  running s' <> Some id /\ (id ∈ executed s' -> id ∈ executed s).
Proof.
  intros Hr Hin Hs. destruct (cancelled_rtc r s s' id Hr Hs Hin) as [Hin' He]. split; [|done].
  pose proof (inv_reachable r s' (reachable_rtc r s s' Hr Hs)) as Hi.
  by apply (inv_cancelled r s' Hi).
Qed.

(** A cancel from inside a running task has no effect on a task of the same round that
    was already collected: that task runs next. *)
Theorem cancel_in_the_runner_thread_misses_collected_tasks
    (r : Z) (s : Threads) (a id : Z) (b : list Z) :
  reachable r s -> running s = Some a -> batch s = id :: b -> flag callLock s id = Some false ->
  Cancel true id (tm s) = Ret tt (tm s) /\
  exists s1 s2, step r s s1 /\ step r s1 s2 /\ running s2 = Some id.
Proof.
  intros Hr Ha Hb Hcl. pose proof (inv_reachable r s Hr) as Hi.
  destruct (inv_batch r s Hi id) as [(Hinv & _) Hne]; [rewrite Hb; set_solver|]. split.
  - unfold Cancel, get, deref, mbind, M_bind, mret, M_ret. unfold flag in Hinv.
    destruct (store (tm s) !! id) as [st|]; [|done]. simpl in Hinv. by injection Hinv as ->.
  - eexists _, _. split; [by apply st_end|]. split; [eapply st_begin; [done|done|]|reflexivity].
    unfold flag. cbn [tm]. rewrite flag_alter, decide_False; [exact Hcl|].
    intros ->. apply Hne. by apply (inv_running r s Hi).
Qed.

(** ** Concrete runs *)

(** Two tasks, both due at the first collection. *)
Definition two_due : Timers :=
  {| store := store two_timers; tasks_ := tasks_ two_timers; StaticTaskId := 2;
     StaticStorageId := 0; clock := {| readings := fun _ => 110000; ticks := 0 |} |}.

Definition threads_on (t : Timers) : Threads :=
  {| tm := t; batch := []; running := None; executed := []; dying := ∅; cancelled := ∅ |}.

Definition collected : Timers :=
  match CollectDue 7 two_due with Ret _ t => t | Crash _ => two_due end.

Definition started : Threads :=
  {| tm := set_store (alter (set_callLock true) 2) collected; batch := [1]; running := Some 2;
     executed := [2]; dying := ∅; cancelled := ∅ |}.

Lemma two_due_idle : idle 7 (threads_on two_due).
Proof.
  split; [|repeat split].
  - destruct two_timers_wf as [H1 H2 H3 H4]. by split.
  - intros id. assert ((runner_tasks (tm (threads_on two_due)) 7).*2 = [2; 1]) as -> by reflexivity.
    rewrite !elem_of_cons, elem_of_nil. intros [->|[->|[]]]; reflexivity.
Qed.

Lemma started_reachable : reachable 7 started.
Proof.
  eapply reach_step; [eapply reach_step; [apply reach_init, two_due_idle|]|].
  - eapply (st_collect 7 _ [2; 1] collected); reflexivity.
  - exact (st_begin 7 {| tm := collected; batch := [2; 1]; running := None; executed := [];
                         dying := ∅; cancelled := ∅ |} 2 [1] eq_refl eq_refl eq_refl).
Qed.

Lemma a_task_runs_at_most_once_witness : executed started = [2] /\ NoDup (executed started).
Proof. split; [reflexivity|]. apply (a_task_runs_at_most_once 7 started started_reachable). Defined.

(** Task 1 is cancelled by another thread while task 2 runs. *)
Definition cancelled_one : Threads :=
  {| tm := set_store (alter (set_callLock true) 1) (tm started); batch := [1];
     running := Some 2; executed := [2]; dying := ∅; cancelled := {[1]} ∪ ∅ |}.

Lemma cancelled_one_reachable : reachable 7 cancelled_one.
Proof.
  eapply reach_step; [apply started_reachable|]. by apply (st_cancel_wait 7 started 1).
Qed.

Lemma cancel_from_another_thread_is_final_witness :
  running cancelled_one <> Some 1 /\ (1 ∈ executed cancelled_one -> 1 ∈ executed cancelled_one).
Proof.
  apply (cancel_from_another_thread_is_final 7 cancelled_one cancelled_one 1);
    [apply cancelled_one_reachable|set_solver|apply rtc_refl].
Defined.

Lemma cancel_in_the_runner_thread_misses_collected_tasks_witness :
  Cancel true 1 (tm started) = Ret tt (tm started) /\
  exists s1 s2, step 7 started s1 /\ step 7 s1 s2 /\ running s2 = Some 1.
Proof.
  apply (cancel_in_the_runner_thread_misses_collected_tasks 7 started 2 1 []);
    [apply started_reachable|reflexivity..].
Defined.
