(* ===== verification/Alarm.v ===== *)
(** Time and alarms: [QuicTime] (libquic/net/quic/core/quic_time.h), [QuicAlarm]
    (libquic/net/quic/core/quic_alarm.cc) with its implementation [QuartcAlarm]
    over the task runner (libquic/net/quic/quartc/quartc_factory.cc), and the
    ack-timeout watch of [QuicConnectionVisitor] (src/src/connection_visitor.cpp). *)

From S2P Require Import Prelude Options TaskRunner.
Import TaskRunner.

(** A [QuicTime] and a [QuicTime::Delta] are [int64_t] microseconds; time zero is
    the uninitialised one. *)
Module QuicTime.

Definition Zero : Z := 0.
Definition IsInitialized (t : Z) : bool := negb (t =? 0).
Definition FromSeconds (secs : Z) : Z := int64 (secs * 1000 * 1000).
Definition ToMilliseconds (d : Z) : Z := Z.quot d 1000.
Definition add (t d : Z) : Z := int64 (t + d).
Definition sub (t u : Z) : Z := int64 (t - u).

(** [QuicClockImpl::Now()] *)
Definition Now : M Timers Z := fun t =>
  Ret (add Zero (read_clock (clock t)).1)
      {| store := store t; tasks_ := tasks_ t; StaticTaskId := StaticTaskId t;
         StaticStorageId := StaticStorageId t; clock := (read_clock (clock t)).2 |}.
End QuicTime.

Module Alarm.

(** [QuicAlarm] and [QuartcAlarm]; [scheduled_task_] is the proxy storage of the
    [ProxyScheduledTask]. *)
Record Alarm : Type := { deadline_ : Z; scheduled_task_ : option Z }.

Definition init : Alarm := {| deadline_ := QuicTime.Zero; scheduled_task_ := None |}.

(** An alarm together with the task runner it was created with. *)
Record Ctx : Type := { alarm : Alarm; proxy : Proxy; timers : Timers }.

Definition timers_lens : Lens Ctx Timers :=
  {| view := timers;
     put t c := {| alarm := alarm c; proxy := proxy c; timers := t |} |}.

Definition set_deadline (d : Z) : M Ctx unit := modify (fun c =>
  {| alarm := {| deadline_ := d; scheduled_task_ := scheduled_task_ (alarm c) |};
     proxy := proxy c; timers := timers c |}).

Definition set_scheduled (st : option Z) : M Ctx unit := modify (fun c =>
  {| alarm := {| deadline_ := deadline_ (alarm c); scheduled_task_ := st |};
     proxy := proxy c; timers := timers c |}).

Definition set_proxy (p : Proxy) : M Ctx unit := modify (fun c =>
  {| alarm := alarm c; proxy := p; timers := timers c |}).

Section Alarm.
(* the Task* of the alarm, and whether the calling thread is the one in RunOnce *)
Variables (self : Z) (inrt : bool).

(** [void CancelImpl()] *)
Definition CancelImpl : M Ctx unit :=
  c ← get;
  match scheduled_task_ (alarm c) with
  | Some sid =>
      p ← zoom timers_lens (Proxy_Cancel inrt sid (proxy c));
      set_proxy p;;
      set_scheduled None
  | None => mret tt
  end.

(** [void SetImpl()] *)
Definition SetImpl : M Ctx unit :=
  CancelImpl;;
  now ← zoom timers_lens QuicTime.Now;
  c ← get;
  let delay := QuicTime.ToMilliseconds (QuicTime.sub (deadline_ (alarm c)) now) in
  let delay_ms := if delay <? 0 then 0 else delay in
  sp ← zoom timers_lens (Proxy_Schedule self delay_ms (proxy c));
  set_proxy sp.2;;
  set_scheduled (Some sp.1).

(** [void UpdateImpl()] *)
Definition UpdateImpl : M Ctx unit :=
  c ← get;
  let new_deadline := deadline_ (alarm c) in
  set_deadline QuicTime.Zero;;
  CancelImpl;;
  set_deadline new_deadline;;
  SetImpl.

(** [bool IsSet() const] *)
Definition IsSet (a : Alarm) : bool := QuicTime.IsInitialized (deadline_ a).

(** [void Set(QuicTime new_deadline)] *)
Definition Set_ (new_deadline : Z) : M Ctx unit :=
  set_deadline new_deadline;;
  SetImpl.

(** [void Cancel()] *)
Definition Cancel : M Ctx unit :=
  c ← get;
  if negb (IsSet (alarm c)) then mret tt
  else
    set_deadline QuicTime.Zero;;
    CancelImpl.

(** [void Update(QuicTime new_deadline, QuicTime::Delta granularity)] *)
Definition Update (new_deadline granularity : Z) : M Ctx unit :=
  if negb (QuicTime.IsInitialized new_deadline) then Cancel
  else
    c ← get;
    if Z.abs (QuicTime.sub new_deadline (deadline_ (alarm c))) <? granularity then mret tt
    else
      let was_set := IsSet (alarm c) in
      set_deadline new_deadline;;
      if was_set then UpdateImpl else SetImpl.

Section Run.
Context {S : Type} (ctx : Lens S Ctx) (OnAlarm : M S unit).

(** [void Fire()] *)
Definition Fire : M S unit :=
  s ← get;
  if negb (IsSet (alarm (view ctx s))) then mret tt
  else
    zoom ctx (set_deadline QuicTime.Zero);;
    OnAlarm.

(** [QuartcAlarm::Run()] *)
Definition Run : M S unit :=
  s ← get;
  if negb (QuicTime.IsInitialized (deadline_ (alarm (view ctx s)))) then mret tt
  else
    now ← zoom ctx (zoom timers_lens QuicTime.Now);
    if now <? deadline_ (alarm (view ctx s)) then zoom ctx SetImpl
    else Fire.
End Run.
End Alarm.
End Alarm.

(** ** The ack-timeout watch *)

Module Visitor.

(** [class QuicConnectionVisitor]; [packetTransport_] and [connection_] belong
    to the socket. *)
Record Visitor : Type := {
  lastAckTime_ : Z;
  lastSendTime_ : Z;
  noAckAlarm_ : Alarm.Alarm
}.

(** [QuicConnectionVisitor()] and [Bind] *)
Definition init : Visitor :=
  {| lastAckTime_ := QuicTime.Zero; lastSendTime_ := QuicTime.Zero; noAckAlarm_ := Alarm.init |}.

(** The visitor with what it points to. *)
Record Ctx : Type := {
  visitor : Visitor;
  opts_ : QuicSocketOptions;
  proxy : Proxy;
  timers : Timers
}.

Definition alarm_lens : Lens Ctx Alarm.Ctx :=
  {| view c := {| Alarm.alarm := noAckAlarm_ (visitor c); Alarm.proxy := proxy c;
                  Alarm.timers := timers c |};
     put a c := {| visitor := {| lastAckTime_ := lastAckTime_ (visitor c);
                                 lastSendTime_ := lastSendTime_ (visitor c);
                                 noAckAlarm_ := Alarm.alarm a |};
                   opts_ := opts_ c; proxy := Alarm.proxy a; timers := Alarm.timers a |} |}.

Definition timers_lens : Lens Ctx Timers :=
  {| view := timers;
     put t c := {| visitor := visitor c; opts_ := opts_ c; proxy := proxy c; timers := t |} |}.

Definition opts_lens : Lens Ctx QuicSocketOptions :=
  {| view := opts_;
     put o c := {| visitor := visitor c; opts_ := o; proxy := proxy c; timers := timers c |} |}.

Definition set_visitor (f : Visitor -> Visitor) (c : Ctx) : Ctx :=
  {| visitor := f (visitor c); opts_ := opts_ c; proxy := proxy c; timers := timers c |}.

Definition GetOption (t : eQuicSocketOptionType) : M Ctx Z :=
  zoom opts_lens (Options.GetOption sockopt_count (opt_type t)).

Section Visitor.
Variables (self : Z) (inrt : bool).

(** [void SetNoAckAlarm()] *)
Definition SetNoAckAlarm : M Ctx unit :=
  v ← GetOption sockopt_ack_timeout_secs;
  let secs := int32 v in
  let allow_duration := QuicTime.FromSeconds secs in
  if allow_duration =? 0 then mret tt
  else
    c ← get;
    timeOfLast ← (if lastSendTime_ (visitor c) >? lastAckTime_ (visitor c)
                  then mret (lastSendTime_ (visitor c))
                  else zoom timers_lens QuicTime.Now);
    let deadline := QuicTime.add timeOfLast allow_duration in
    zoom alarm_lens (Alarm.Update self inrt deadline 0).

(** [void CancelNoAckAlarm()] *)
Definition CancelNoAckAlarm : M Ctx unit := zoom alarm_lens (Alarm.Cancel inrt).

(** [TransmissionType::NOT_RETRANSMISSION] *)
Definition NOT_RETRANSMISSION : Z := 0.

(** [void OnPacketSent(...)] *)
Definition OnPacketSent (transmission_type : Z) : M Ctx unit :=
  if transmission_type =? NOT_RETRANSMISSION then
    c ← get;
    if lastSendTime_ (visitor c) <=? lastAckTime_ (visitor c) then
      now ← zoom timers_lens QuicTime.Now;
      modify (set_visitor (fun v => {| lastAckTime_ := lastAckTime_ v; lastSendTime_ := now;
                                       noAckAlarm_ := noAckAlarm_ v |}))
    else mret tt
  else mret tt.

(** [void OnAckFrame(const QuicAckFrame& frame)] *)
Definition OnAckFrame : M Ctx unit :=
  now ← zoom timers_lens QuicTime.Now;
  modify (set_visitor (fun v => {| lastAckTime_ := now; lastSendTime_ := lastSendTime_ v;
                                   noAckAlarm_ := noAckAlarm_ v |})).

Definition QUIC_NETWORK_ACK_TIMEOUT : Z := 101.

Section Check.
Context {S : Type} (ctx : Lens S Ctx) (CloseConnection : Z -> M S unit).

(** [void CheckForNoAckTimeout()]; [CloseConnection] is
    [connection_->CloseConnection]. *)
Definition CheckForNoAckTimeout : M S unit :=
  v ← zoom ctx (GetOption sockopt_ack_timeout_secs);
  let allow_duration := QuicTime.FromSeconds v in
  if allow_duration =? 0 then mret tt
  else
    s ← get;
    let vis := visitor (view ctx s) in
    timeout ← (if lastSendTime_ vis >? lastAckTime_ vis then
                 now ← zoom ctx (zoom timers_lens QuicTime.Now);
                 mret (QuicTime.sub now (lastSendTime_ vis) >? allow_duration)
               else mret false : M S bool);
    if (timeout : bool) then CloseConnection QUIC_NETWORK_ACK_TIMEOUT
    else zoom ctx SetNoAckAlarm.
End Check.
End Visitor.
End Visitor.
