(* ===== verification/AckWatch.v ===== *)
(** The ack-timeout watch: the two time stamps of [QuicConnectionVisitor] stand
    for the oldest packet without an acknowledgement, the connection is given up
    exactly when that packet is too old, and an alarm never owns two tasks. *)

From S2P Require Import Prelude Options TaskRunner Alarm.
Import TaskRunner.

(** The next [n] readings of the clock advance and stay within a range away from
    zero and from the ends of [int64_t]. *)
Definition ticking (n : nat) (c : Clock) : Prop :=
  forall i, (ticks c <= i < ticks c + n)%nat ->
    0 < readings c i < 2 ^ 62 /\
    forall j, (i < j < ticks c + n)%nat -> readings c i < readings c j.

(** What the engine reports to the visitor. *)
Inductive net_event : Type :=
| PacketSent (transmission_type : Z)
| AckFrame.

Definition observe (ev : net_event) : M Visitor.Ctx unit :=
  match ev with
  | PacketSent ty => Visitor.OnPacketSent ty
  | AckFrame => Visitor.OnAckFrame
  end.

Fixpoint observe_all (l : list net_event) : M Visitor.Ctx unit :=
  match l with
  | [] => mret tt
  | ev :: l' => observe ev;; observe_all l'
  end.

(** ** The specification: the time of the oldest unacknowledged packet *)

(** [t] is the time at which the event is looked at. *)
Definition watch (t : Z) (ev : net_event) (oldest : option Z) : option Z :=
  match ev, oldest with
  | AckFrame, _ => None
  | PacketSent ty, None => if ty =? Visitor.NOT_RETRANSMISSION then Some t else None
  | PacketSent _, Some t0 => Some t0
  end.

(** The clock is read by an acknowledgement and by the first packet after one. *)
Definition looks (ev : net_event) (oldest : option Z) : nat :=
  match ev, oldest with
  | AckFrame, _ => 1
  | PacketSent ty, None => if ty =? Visitor.NOT_RETRANSMISSION then 1 else 0
  | PacketSent _, Some _ => 0
  end.

Fixpoint watch_all (c : Clock) (l : list net_event) (oldest : option Z) : option Z * Clock :=
  match l with
  | [] => (oldest, c)
  | ev :: l' =>
      watch_all {| readings := readings c; ticks := looks ev oldest + ticks c |} l'
                (watch (readings c (ticks c)) ev oldest)
  end.

(** The time stamps stand for the specification's state. *)
Definition stands_for (v : Visitor.Visitor) (oldest : option Z) : Prop :=
  match oldest with
  | Some t => Visitor.lastSendTime_ v = t /\ Visitor.lastAckTime_ v < t
  | None => Visitor.lastSendTime_ v <= Visitor.lastAckTime_ v
  end.

(** Both stamps are earlier than the next [n] readings. *)
Definition in_the_past (n : nat) (v : Visitor.Visitor) (c : Clock) : Prop :=
  forall i, (ticks c <= i < ticks c + n)%nat ->
    Visitor.lastSendTime_ v < readings c i /\ Visitor.lastAckTime_ v < readings c i.

Record watching (n : nat) (c : Visitor.Ctx) (oldest : option Z) : Prop := {
  w_clock : ticking n (clock (Visitor.timers c));
  w_stamps : stands_for (Visitor.visitor c) oldest;
  w_past : in_the_past n (Visitor.visitor c) (clock (Visitor.timers c))
}.

Lemma now_value t : 0 < t < 2 ^ 62 -> QuicTime.add QuicTime.Zero t = t.
Proof. intros. apply int64_small. unfold QuicTime.Zero. lia. Qed.

Lemma watching_less n c o : watching (S n) c o -> watching n c o.
Proof.
  intros [Hk Hs Hp]. split; [|done|].
  - intros i Hi. destruct (Hk i ltac:(lia)) as [H1 H2]. split; [done|]. intros j Hj. apply H2. lia.
  - intros i Hi. apply Hp. lia.
Qed.

Lemma ticking_next n c :
  ticking (S n) c -> ticking n {| readings := readings c; ticks := S (ticks c) |}.
Proof.
  intros Hk i Hi. simpl in *. destruct (Hk i ltac:(lia)) as [H1 H2]. split; [done|].
  intros j Hj. apply H2. lia.
Qed.

Lemma observe_watch n ev c oldest :
  watching (S n) c oldest ->
  let k := clock (Visitor.timers c) in
  terminates_in (observe ev c) (fun _ c' =>
    clock (Visitor.timers c') = {| readings := readings k; ticks := looks ev oldest + ticks k |} /\
    watching n c' (watch (readings k (ticks k)) ev oldest)).
Proof.
  intros Hw k. pose proof (watching_less n c oldest Hw) as Hw'. pose proof Hw as [Hk Hs Hp].
  destruct (Hk (ticks k)) as [Hr Hlt]; [unfold k; lia|]. pose proof (now_value _ Hr) as Hnow.
  pose proof (ticking_next n k Hk) as Hk'.
  assert (clock (Visitor.timers c) = {| readings := readings k; ticks := 0 + ticks k |}) as Hid
    by (unfold k; by destruct (clock (Visitor.timers c))).
  destruct (Hp (ticks k)) as [Hp1 Hp2]; [unfold k; lia|].
  unfold k in *. clear k. destruct ev as [ty|].
  - simpl. unfold Visitor.OnPacketSent. destruct (ty =? _).
    2:{ destruct oldest; by split. }
    unfold mbind, M_bind, get. destruct oldest as [t0|]; simpl in Hs.
    + destruct (Z.leb_spec (Visitor.lastSendTime_ (Visitor.visitor c))
                           (Visitor.lastAckTime_ (Visitor.visitor c))); [lia|]. by split.
    + destruct (Z.leb_spec (Visitor.lastSendTime_ (Visitor.visitor c))
                           (Visitor.lastAckTime_ (Visitor.visitor c))); [|lia].
      split; [done|]. split; cbn -[QuicTime.add]; rewrite ?Hnow.
      * exact Hk'.
      * by split.
      * intros i Hi. cbn -[QuicTime.add] in *. split; [apply Hlt; lia|]. apply Hp. lia.
  - split; [done|]. split; cbn -[QuicTime.add]; rewrite ?Hnow.
    + exact Hk'.
    + lia.
    + intros i Hi. cbn -[QuicTime.add] in *. split; [|apply Hlt; lia]. apply Hp. lia.
Qed.

Lemma observe_all_watch l : forall c oldest,
  watching (length l) c oldest ->
  terminates_in (observe_all l c) (fun _ c' =>
    watching 0 c' (watch_all (clock (Visitor.timers c)) l oldest).1).
Proof.
  induction l as [|ev l IH]; intros c oldest Hw; [done|]. simpl. apply total_bind.
  eapply total_mono; [by apply (observe_watch (length l))|]. intros _ c1 [Ek Hw1]. rewrite <- Ek.
  by apply IH.
Qed.

(** After any sequence of sent packets and ack frames the two time stamps of the
    visitor stand for the send time of the oldest packet sent since the last ack frame, if
    there is one. *)
Theorem the_time_stamps_stand_for_the_oldest_unacked_packet l c :
  Visitor.visitor c = Visitor.init -> ticking (length l) (clock (Visitor.timers c)) ->
  terminates_in (observe_all l c) (fun _ c' =>
    let v := Visitor.visitor c' in
    (if Visitor.lastSendTime_ v >? Visitor.lastAckTime_ v then Some (Visitor.lastSendTime_ v) else None)
    = (watch_all (clock (Visitor.timers c)) l None).1).
Proof.
  intros Hv Hk. eapply total_mono; [apply (observe_all_watch l c None)|].
  - split; [done|by rewrite Hv|]. rewrite Hv. intros i Hi. simpl. unfold QuicTime.Zero.
    destruct (Hk i Hi). lia.
  - intros _ c' [_ Hs _]. simpl. destruct (watch_all _ _ _).1 as [t|]; simpl in Hs.
    + destruct Hs as [-> Hs]. destruct (Z.gtb_spec t (Visitor.lastAckTime_ (Visitor.visitor c'))); [done|lia].
    + destruct (Z.gtb_spec (Visitor.lastSendTime_ (Visitor.visitor c'))
                           (Visitor.lastAckTime_ (Visitor.visitor c'))); [lia|done].
Qed.

(** ** Giving up *)

Section GiveUp.
Context {S : Type} (ctx : Lens S Visitor.Ctx) (self : Z) (inrt : bool)
  (CloseConnection : Z -> M S unit).

Definition oldest (v : Visitor.Visitor) : option Z :=
  if Visitor.lastSendTime_ v >? Visitor.lastAckTime_ v then Some (Visitor.lastSendTime_ v) else None.

(** The state after one reading of the clock. *)
Definition looked (c : Visitor.Ctx) : Visitor.Ctx :=
  put Visitor.timers_lens
    {| store := store (Visitor.timers c); tasks_ := tasks_ (Visitor.timers c);
       StaticTaskId := StaticTaskId (Visitor.timers c);
       StaticStorageId := StaticStorageId (Visitor.timers c);
       clock := (read_clock (clock (Visitor.timers c))).2 |} c.

Lemma GetOption_eq t c :
  Z.of_nat (length (Options.values_ (Visitor.opts_ c))) = sockopt_count ->
  Visitor.GetOption t c = Ret (option_value (Visitor.opts_ c) t) c.
Proof.
  intros Hlen. unfold Visitor.GetOption, zoom. simpl. unfold Options.GetOption.
  pose proof (opt_type_range t). destruct (Z.geb_spec (opt_type t) sockopt_count); [lia|].
  rewrite Options.index_ok by lia. by destruct c.
Qed.

End GiveUp.

(** One packet sent at 2s and never acknowledged; at 20s a timeout of 12s is over. *)
Definition waiting_ctx : Visitor.Ctx :=
  {| Visitor.visitor := {| Visitor.lastAckTime_ := 1000000; Visitor.lastSendTime_ := 2000000;
                           Visitor.noAckAlarm_ := Alarm.init |};
     Visitor.opts_ := {| Options.values_ := [12; 0; 0; 0; 0] |};
     Visitor.proxy := proxy_init;
     Visitor.timers := {| store := ∅; tasks_ := ∅; StaticTaskId := 0; StaticStorageId := 0;
                          clock := {| readings := fun n => 20000000 + Z.of_nat n; ticks := 0 |} |} |}.

Definition whole : Lens Visitor.Ctx Visitor.Ctx := {| view c := c; put c _ := c |}.


(** A clock that ticks once per microsecond. *)
Definition fresh_ctx : Visitor.Ctx :=
  {| Visitor.visitor := Visitor.init; Visitor.opts_ := {| Options.values_ := [12; 0; 0; 0; 0] |};
     Visitor.proxy := proxy_init;
     Visitor.timers := {| store := ∅; tasks_ := ∅; StaticTaskId := 0; StaticStorageId := 0;
                          clock := {| readings := fun n => 5 + Z.of_nat n; ticks := 0 |} |} |}.

Lemma the_time_stamps_stand_for_the_oldest_unacked_packet_witness :
  terminates_in (observe_all [PacketSent 0; PacketSent 0; AckFrame; PacketSent 3; PacketSent 0;
                              PacketSent 0] fresh_ctx) (fun _ c' =>
    let v := Visitor.visitor c' in
    (if Visitor.lastSendTime_ v >? Visitor.lastAckTime_ v then Some (Visitor.lastSendTime_ v) else None)
    = Some 7).
Proof.
  apply (the_time_stamps_stand_for_the_oldest_unacked_packet
    [PacketSent 0; PacketSent 0; AckFrame; PacketSent 3; PacketSent 0; PacketSent 0] fresh_ctx).
  - reflexivity.
  - intros i Hi. simpl in *. split; [lia|]. intros j Hj. lia.
Defined.

(** ** An alarm owns one task at most *)

Section Ownership.
Variables (self : Z) (inrt : bool).

(** The operations of the alarm's user. *)
Inductive alarm_op : Type :=
| AlarmSet (deadline : Z)
| AlarmCancel
| AlarmUpdate (deadline granularity : Z).

Definition alarm_do (o : alarm_op) : M Alarm.Ctx unit :=
  match o with
  | AlarmSet d => Alarm.Set_ self inrt d
  | AlarmCancel => Alarm.Cancel inrt
  | AlarmUpdate d g => Alarm.Update self inrt d g
  end.

(** [others] are the tasks the proxy holds for somebody else. *)
Record owns (others : gmap Z Storage) (c : Alarm.Ctx) : Prop := {
  own_storages : match Alarm.scheduled_task_ (Alarm.alarm c) with
                 | Some sid => others !! sid = None /\
                     exists s, storages_ (Alarm.proxy c) = <[sid := s]> others
                 | None => storages_ (Alarm.proxy c) = others
                 end;
  own_fresh : forall sid, is_Some (storages_ (Alarm.proxy c) !! sid) ->
    sid <= StaticStorageId (Alarm.timers c)
}.

(** What leaves the numbering of the storages alone. *)
Definition at_number (n : Z) (t : Timers) : Prop := StaticStorageId t = n.

Ltac numbering :=
  repeat first
    [ apply preserves_ret | apply preserves_get | apply preserves_deref | apply preserves_crashed
    | apply preserves_modify; by intros ?
    | apply preserves_bind; [|intros ?]
    | case_match ].

Lemma Cancel_number n id : preserves (at_number n) (Cancel inrt id).
Proof. unfold Cancel, Cancel_itr. numbering. Qed.

Lemma NowMS_number n : preserves (at_number n) NowMS.
Proof. by intros t a t' Ht [= <- <-]. Qed.

Lemma Schedule_number n r tsk d c : preserves (at_number n) (Schedule r tsk d c).
Proof. unfold Schedule. apply preserves_bind; [apply NowMS_number|intros now]. numbering. Qed.

Lemma CancelImpl_owns others : forall c a c',
  owns others c -> Alarm.CancelImpl inrt c = Ret a c' ->
  owns others c' /\ Alarm.scheduled_task_ (Alarm.alarm c') = None /\
  Alarm.deadline_ (Alarm.alarm c') = Alarm.deadline_ (Alarm.alarm c).
Proof.
  intros c a c' [Hs Hf]. unfold Alarm.CancelImpl, mbind, M_bind, get. simpl.
  destruct (Alarm.scheduled_task_ (Alarm.alarm c)) as [sid|] eqn:E.
  2:{ intros [= <- <-]. split; [|done]. split; [by rewrite E|done]. }
  destruct Hs as [Hno [s Es]]. unfold zoom. simpl.
  destruct (Proxy_Cancel inrt sid (Alarm.proxy c) (Alarm.timers c)) as [p t|] eqn:Ec; [|done].
  intros [= <- <-]. unfold Proxy_Cancel in Ec. rewrite Es, lookup_insert_eq in Ec.
  apply bind_inv in Ec as ([] & t1 & Hc & [= <- <-]).
  assert (StaticStorageId t1 = StaticStorageId (Alarm.timers c)) as Hn.
  { destruct (link_ s); [|by injection Hc as <-].
    by eapply (Cancel_number (StaticStorageId (Alarm.timers c))). }
  split; [|done]. split; simpl.
  - by apply delete_insert_id.
  - intros x Hx. rewrite Hn. apply Hf. rewrite Es. rewrite delete_insert_id in Hx by done.
    apply lookup_insert_is_Some'. by right.
Qed.

Lemma Proxy_Schedule_owns tsk delay p t sid p' t' :
  Proxy_Schedule tsk delay p t = Ret (sid, p') t' ->
  sid = StaticStorageId t + 1 /\ StaticStorageId t' = sid /\
  exists s, storages_ p' = <[sid := s]> (storages_ p).
Proof.
  unfold Proxy_Schedule. intros (now & t1 & H1 & H2)%bind_inv. injection H1 as <- <-.
  apply bind_inv in H2 as (x & t2 & H2 & H3). injection H2 as <- <-.
  apply bind_inv in H3 as (l & t3 & H3 & H4). injection H4 as <- <- <-.
  split; [done|]. split; [|by eexists].
  destruct (prunner_ p); [|by injection H3 as <- <-].
  apply bind_inv in H3 as (id & t4 & H3 & [= <- <-]).
  by eapply (Schedule_number (StaticStorageId t + 1)) in H3.
Qed.

Lemma SetImpl_owns others c a c' :
  owns others c -> Alarm.SetImpl self inrt c = Ret a c' -> owns others c'.
Proof.
  intros Ho. unfold Alarm.SetImpl. intros ([] & c1 & H1 & H2)%bind_inv.
  apply (CancelImpl_owns others) in H1 as ([Hs Hf] & E & _); [|done]. rewrite E in Hs.
  apply bind_inv in H2 as (now & c2 & H2 & H3). injection H2 as <- <-.
  apply bind_inv in H3 as (c3 & c4 & H3 & H4). injection H3 as <- <-.
  apply bind_inv in H4 as ([sid p] & c5 & H4 & H5). apply zoom_inv in H4 as (t & H4 & ->).
  injection H5 as <- <-. apply Proxy_Schedule_owns in H4 as (Hsid & Hn & s & Es). simpl in *.
  split; simpl.
  - rewrite Es, Hs. split; [|by eexists]. destruct (others !! sid) as [x|] eqn:Ex; [|done].
    assert (sid <= StaticStorageId (Alarm.timers c1)) by (apply Hf; rewrite Hs, Ex; eauto). lia.
  - intros x. rewrite Es, lookup_insert_is_Some'. intros [<-|?%Hf]; lia.
Qed.

Lemma set_deadline_owns others d c a c' :
  owns others c -> Alarm.set_deadline d c = Ret a c' -> owns others c'.
Proof. intros [Hs Hf] [= <- <-]. by split. Qed.

Lemma UpdateImpl_owns others c a c' :
  owns others c -> Alarm.UpdateImpl self inrt c = Ret a c' -> owns others c'.
Proof.
  intros Ho. unfold Alarm.UpdateImpl. intros (c1 & c2 & H1 & H2)%bind_inv. injection H1 as <- <-.
  apply bind_inv in H2 as (? & c3 & H3%(set_deadline_owns others) & H4); [|done].
  apply bind_inv in H4 as (? & c5 & H5 & H6).
  apply (CancelImpl_owns others) in H5 as (H5 & _); [|done].
  apply bind_inv in H6 as (? & c6 & H7%(set_deadline_owns others) & H8); [|done].
  by apply (SetImpl_owns others) in H8.
Qed.

(** Whatever is done to the alarm, the proxy holds the other tasks and at most
    one of the alarm's; none once it was cancelled. *)
Lemma alarm_do_owns others o c a c' :
  owns others c -> alarm_do o c = Ret a c' ->
  owns others c' /\
  (o = AlarmCancel -> Alarm.IsSet (Alarm.alarm c) = true -> storages_ (Alarm.proxy c') = others).
Proof.
  intros Ho. destruct o as [d| |d g]; simpl.
  - intros (? & c1 & H1%(set_deadline_owns others) & H2)%bind_inv; [|done]. split; [|done].
    by eapply SetImpl_owns.
  - unfold Alarm.Cancel. intros (c1 & c2 & H1 & H2)%bind_inv. injection H1 as <- <-.
    destruct (Alarm.IsSet (Alarm.alarm c)); simpl in H2; [|by injection H2 as <- <-].
    apply bind_inv in H2 as (? & c3 & H3%(set_deadline_owns others) & H4); [|done].
    apply (CancelImpl_owns others) in H4 as (H4 & E & _); [|done]. split; [done|].
    intros _ _. destruct H4 as [Hs _]. by rewrite E in Hs.
  - unfold Alarm.Update. split; [|done]. revert H.
    destruct (QuicTime.IsInitialized d); simpl.
    + intros (c1 & c2 & H1 & H2)%bind_inv. injection H1 as <- <-.
      destruct (_ <? g); [by injection H2 as <- <-|].
      apply bind_inv in H2 as (? & c3 & H3%(set_deadline_owns others) & H4); [|done].
      destruct (Alarm.IsSet _); [by eapply UpdateImpl_owns|by eapply SetImpl_owns].
    + intros (c1 & c2 & H1 & H2)%bind_inv. injection H1 as <- <-.
      destruct (negb _); [by injection H2 as <- <-|].
      apply bind_inv in H2 as (? & c3 & H3%(set_deadline_owns others) & H4); [|done].
      by apply (CancelImpl_owns others) in H4 as (H4 & _).
Qed.

Fixpoint alarm_do_all (l : list alarm_op) : M Alarm.Ctx unit :=
  match l with
  | [] => mret tt
  | o :: l' => alarm_do o;; alarm_do_all l'
  end.

Lemma alarm_do_all_owns others l : forall c a c',
  owns others c -> alarm_do_all l c = Ret a c' -> owns others c'.
Proof.
  induction l as [|o l IH]; intros c a c' Ho; simpl; [by intros [= <- <-]|].
  intros (? & c1 & H1 & H2)%bind_inv. apply (alarm_do_owns others) in H1 as [H1 _]; [|done].
  by eapply IH.
Qed.
End Ownership.

(** Whatever is done to an alarm it owns at most one pending task of its runner, the
    one it remembers, and never touches the tasks of others. *)
Theorem an_alarm_owns_at_most_one_task self inrt l c a c' :
  Alarm.alarm c = Alarm.init ->
  (forall sid, is_Some (storages_ (Alarm.proxy c) !! sid) -> sid <= StaticStorageId (Alarm.timers c)) ->
  alarm_do_all self inrt l c = Ret a c' ->
  (forall sid s, storages_ (Alarm.proxy c) !! sid = Some s -> storages_ (Alarm.proxy c') !! sid = Some s) /\
  (forall sid, is_Some (storages_ (Alarm.proxy c') !! sid) -> storages_ (Alarm.proxy c) !! sid = None ->
     Alarm.scheduled_task_ (Alarm.alarm c') = Some sid).
Proof.
  intros Hc Hf Hrun. set (others := storages_ (Alarm.proxy c)) in *.
  assert (owns others c') as [Hs _].
  { eapply alarm_do_all_owns; [|exact Hrun]. split; [by rewrite Hc|done]. }
  destruct (Alarm.scheduled_task_ (Alarm.alarm c')) as [id|].
  - destruct Hs as [Hno [s Es]]. rewrite Es. split.
    + intros sid s0 H0. rewrite lookup_insert_ne; [done|]. congruence.
    + intros sid. rewrite lookup_insert_is_Some. intros [->|[_ [x Hx]]] Hn; [done|congruence].
  - rewrite Hs. split; [done|]. intros sid [x Hx] Hn. congruence.
Qed.

(** A proxy that already holds a task of the engine. *)
Definition shared_ctx : Alarm.Ctx :=
  {| Alarm.alarm := Alarm.init;
     Alarm.proxy := {| storages_ := {[ 1 := {| task_ := 9; deadline_ := 50; link_ := None |} ]};
                       prunner_ := None; connectionId_ := 7 |};
     Alarm.timers := {| store := ∅; tasks_ := ∅; StaticTaskId := 0; StaticStorageId := 1;
                        clock := {| readings := fun _ => 1000; ticks := 0 |} |} |}.

Definition shared_run : list alarm_op := [AlarmSet 5000; AlarmUpdate 9000000 0; AlarmUpdate 9500000 1].

Lemma an_alarm_owns_at_most_one_task_witness :
  match alarm_do_all 4 false shared_run shared_ctx with
  | Ret _ c' => storages_ (Alarm.proxy c') !! 1 = Some {| task_ := 9; deadline_ := 50; link_ := None |} /\
                Alarm.scheduled_task_ (Alarm.alarm c') = Some 4
  | Crash _ => False
  end.
Proof.
  destruct (alarm_do_all 4 false shared_run shared_ctx) as [a c'|] eqn:E; [|vm_compute in E; discriminate E].
  destruct (an_alarm_owns_at_most_one_task 4 false shared_run shared_ctx a c') as [H1 H2].
  - reflexivity.
  - intros sid [x Hx]. simpl in *. apply lookup_singleton_Some in Hx as [<- _]. lia.
  - exact E.
  - split; [apply H1; reflexivity|]. apply H2; vm_compute in E; injection E as <- <-; [|reflexivity].
    eexists. reflexivity.
Defined.
