(* ===== verification/World.v ===== *)
(** The state of the process: every object the library keeps, in one record, so
    that an operation that reaches another object through a pointer, a callback
    or a global table acts on the shared state.

    Objects live in maps from their identity: the entries (sockets and streams),
    the epollers and the [quic_epoll_event] cells.  A raw pointer is such an
    identity, dereferencing one whose object is gone is [UseAfterFree]; a
    [weak_ptr] is an identity whose [lock()] is the lookup. *)

From S2P Require Import Prelude FdTable ConnectionManager Options TaskRunner Alarm.

(** [enum class EntryCategory] *)
Inductive EntryCategory : Type := Category_Invalid | Category_Socket | Category_Stream.

Inductive Perspective : Type := IS_SERVER | IS_CLIENT.

#[export] Instance EntryCategory_dec : EqDecision EntryCategory.
Proof. solve_decision. Defined.
#[export] Instance Perspective_dec : EqDecision Perspective.
Proof. solve_decision. Defined.

(** [INVALID_QUIC_CONNECTION_ID] *)
Definition INVALID_QUIC_CONNECTION_ID : Z := uint64 (-1).

(** [class Event] with the descriptor of [FdBase].  A waiter is a pair of
    pointers into one [quic_epoll_event]; its trigger belongs to an epoller. *)
Record Event : Type := {
  fd_ : Z;
  readable : bool;
  writable : bool;
  closeByPeer : bool;
  quicErrorCode : Z;
  error : Z;
  waitings_ : gmap Z Z;        (* EventTrigger* (its epoller) -> quic_epoll_event *)
  closeTrigger_ : bool
}.

Definition Event_init : Event :=
  {| fd_ := 0; readable := false; writable := false; closeByPeer := false;
     quicErrorCode := 0; error := 0; waitings_ := ∅; closeTrigger_ := false |}.

(** What a [QuicSocketEntry] knows of its [QuartcSession]: the streams of
    [dynamic_stream_map_] in order, each with the delegate it was given. *)
Record Session : Type := {
  connection_id : Z;
  perspective : Perspective;
  connected_ : bool;
  next_outgoing_stream_id_ : Z;
  dynamic_stream_map_ : list (Z * Z)
}.

(** [enum QuicSocketState] *)
Inductive QuicSocketState : Type :=
| QuicSocketState_None
| QuicSocketState_Shared
| QuicSocketState_Inited
| QuicSocketState_Binded
| QuicSocketState_Connecting
| QuicSocketState_Connected
| QuicSocketState_Closed.

#[export] Instance QuicSocketState_dec : EqDecision QuicSocketState.
Proof. solve_decision. Defined.

(** [class PosixQuicPacketTransport]; an address is opaque, [None] is the
    uninitialised one. *)
Record PacketTransport : Type := { tudpSocket_ : option Z; address_ : option Z }.

(** [class QuicSocketEntry] *)
Record SocketEntry : Type := {
  impl_ : Session;
  udpSocket_ : option Z;
  socketState_ : QuicSocketState;
  acceptSockets_ : list Z;
  acceptStreams_ : list Z;
  packetTransport_ : PacketTransport;
  taskRunnerProxy_ : TaskRunner.Proxy;
  opts_ : QuicSocketOptions;
  connectionVisitor_ : Visitor.Visitor
}.

(** [class QuicStreamEntry]; bytes are numbers below 256. *)
Record StreamEntry : Type := {
  sudpSocket_ : option Z;
  socketEntry_ : Z;               (* QuicSocketEntryWeakPtr *)
  streamId_ : Z;
  finRead_ : bool;
  recvBuffer_ : list Z
}.

Inductive Body : Type :=
| Sock (s : SocketEntry)
| Strm (s : StreamEntry).

(** [class EntryBase] *)
Record Entry : Type := { event : Event; body : Body }.

(** [struct quic_epoll_event] *)
Record QEvent : Type := { events : Z; revents : Z; data : Z }.

(** [class QuicEpollerEntry]; its [taskRunner_] is the runner of the same number
    in [timers]. *)
Record Epoller : Type := {
  epfd_ : Z;
  fds_ : gmap Z (Z * Z);          (* fd -> (EntryWeakPtr, quic_epoll_event) *)
  udps_ : gmap Z Z;               (* UdpSocket -> reference count *)
  socketPair_0 : Z;
  notifyProtect_ : bool;
  triggered : bool
}.

(** The results of the system calls are outside the program: a sequence of
    (result, errno) consumed one by one. *)
Record Sys : Type := { results : nat -> Z * Z; calls : nat }.

Record World : Type := {
  fdFactory : FdFactory.FdFactory;             (* EntryBase::GetFdFactory() *)
  fdManager : gmap Z Z;                        (* EntryBase::GetFdManager() *)
  entries : gmap Z Entry;
  nextEntry : Z;
  connMgr : ConnectionManager.ConnectionManager;
  epManager : gmap Z Z;                        (* QuicEpollerEntry::GetFdManager() *)
  epollers : gmap Z Epoller;
  nextEpoller : Z;
  qevents : gmap Z QEvent;
  nextQEvent : Z;
  timers : TaskRunner.Timers;
  IsInTaskRunnerThread : bool;                 (* thread_local *)
  interest : gmap (Z * Z) Z;                   (* kernel: (epoll fd, fd) -> events *)
  sys : Sys;
  errno : Z
}.

(** ** Updates *)

Section Updates.
Variable w : World.

Definition set_fds ff fm : World :=
  {| fdFactory := ff; fdManager := fm; entries := entries w; nextEntry := nextEntry w;
     connMgr := connMgr w; epManager := epManager w; epollers := epollers w;
     nextEpoller := nextEpoller w; qevents := qevents w; nextQEvent := nextQEvent w;
     timers := timers w; IsInTaskRunnerThread := IsInTaskRunnerThread w;
     interest := interest w; sys := sys w; errno := errno w |}.

Definition set_entries es n : World :=
  {| fdFactory := fdFactory w; fdManager := fdManager w; entries := es; nextEntry := n;
     connMgr := connMgr w; epManager := epManager w; epollers := epollers w;
     nextEpoller := nextEpoller w; qevents := qevents w; nextQEvent := nextQEvent w;
     timers := timers w; IsInTaskRunnerThread := IsInTaskRunnerThread w;
     interest := interest w; sys := sys w; errno := errno w |}.

Definition set_connMgr c : World :=
  {| fdFactory := fdFactory w; fdManager := fdManager w; entries := entries w;
     nextEntry := nextEntry w; connMgr := c; epManager := epManager w; epollers := epollers w;
     nextEpoller := nextEpoller w; qevents := qevents w; nextQEvent := nextQEvent w;
     timers := timers w; IsInTaskRunnerThread := IsInTaskRunnerThread w;
     interest := interest w; sys := sys w; errno := errno w |}.

Definition set_epollers m es n : World :=
  {| fdFactory := fdFactory w; fdManager := fdManager w; entries := entries w;
     nextEntry := nextEntry w; connMgr := connMgr w; epManager := m; epollers := es;
     nextEpoller := n; qevents := qevents w; nextQEvent := nextQEvent w;
     timers := timers w; IsInTaskRunnerThread := IsInTaskRunnerThread w;
     interest := interest w; sys := sys w; errno := errno w |}.

Definition set_qevents q n : World :=
  {| fdFactory := fdFactory w; fdManager := fdManager w; entries := entries w;
     nextEntry := nextEntry w; connMgr := connMgr w; epManager := epManager w;
     epollers := epollers w; nextEpoller := nextEpoller w; qevents := q; nextQEvent := n;
     timers := timers w; IsInTaskRunnerThread := IsInTaskRunnerThread w;
     interest := interest w; sys := sys w; errno := errno w |}.

Definition set_timers t : World :=
  {| fdFactory := fdFactory w; fdManager := fdManager w; entries := entries w;
     nextEntry := nextEntry w; connMgr := connMgr w; epManager := epManager w;
     epollers := epollers w; nextEpoller := nextEpoller w; qevents := qevents w;
     nextQEvent := nextQEvent w; timers := t; IsInTaskRunnerThread := IsInTaskRunnerThread w;
     interest := interest w; sys := sys w; errno := errno w |}.

Definition set_in_runner b : World :=
  {| fdFactory := fdFactory w; fdManager := fdManager w; entries := entries w;
     nextEntry := nextEntry w; connMgr := connMgr w; epManager := epManager w;
     epollers := epollers w; nextEpoller := nextEpoller w; qevents := qevents w;
     nextQEvent := nextQEvent w; timers := timers w; IsInTaskRunnerThread := b;
     interest := interest w; sys := sys w; errno := errno w |}.

Definition set_kernel i s e : World :=
  {| fdFactory := fdFactory w; fdManager := fdManager w; entries := entries w;
     nextEntry := nextEntry w; connMgr := connMgr w; epManager := epManager w;
     epollers := epollers w; nextEpoller := nextEpoller w; qevents := qevents w;
     nextQEvent := nextQEvent w; timers := timers w;
     IsInTaskRunnerThread := IsInTaskRunnerThread w; interest := i; sys := s; errno := e |}.
End Updates.

Definition timers_lens : Lens World TaskRunner.Timers :=
  {| view := timers; put t w := set_timers w t |}.

(** ** Errors and system calls *)

(** [errno = e;] *)
Definition set_errno (e : Z) : M World unit :=
  modify (fun w => set_kernel w (interest w) (sys w) e).

(** [errno = e; return -1;] *)
Definition fail (e : Z) : M World Z := set_errno e;; mret (-1).

(** One system call: [errno] is set when it fails. *)
Definition syscall : M World Z := fun w =>
  let '(r, e) := results (sys w) (calls (sys w)) in
  Ret r (set_kernel w (interest w) {| results := results (sys w); calls := S (calls (sys w)) |}
           (if r =? -1 then e else errno w)).

(** [::epoll_ctl(epfd, op, fd, &ev)] *)
Definition epoll_ctl (epfd op fd ev : Z) : M World Z :=
  r ← syscall;
  when (r =? 0) (modify (fun w => set_kernel w
    (if op =? EPOLL_CTL_DEL then delete (epfd, fd) (interest w)
     else <[(epfd, fd) := ev]> (interest w)) (sys w) (errno w)));;
  mret r.

(** ** Access to the objects *)

Definition entry_of (e : Z) : M World Entry :=
  w ← get; deref (entries w !! e) UseAfterFree.

Definition epoller_of (ep : Z) : M World Epoller :=
  w ← get; deref (epollers w !! ep) UseAfterFree.

Definition qevent_of (q : Z) : M World QEvent :=
  w ← get; deref (qevents w !! q) UseAfterFree.

Definition update_entry (e : Z) (f : Entry -> Entry) : M World unit :=
  _ ← entry_of e;
  modify (fun w => set_entries w (alter f e (entries w)) (nextEntry w)).

Definition update_epoller (ep : Z) (f : Epoller -> Epoller) : M World unit :=
  _ ← epoller_of ep;
  modify (fun w => set_epollers w (epManager w) (alter f ep (epollers w)) (nextEpoller w)).

Definition update_qevent (q : Z) (f : QEvent -> QEvent) : M World unit :=
  _ ← qevent_of q;
  modify (fun w => set_qevents w (alter f q (qevents w)) (nextQEvent w)).

Definition on_event (f : Event -> Event) (x : Entry) : Entry :=
  {| event := f (event x); body := body x |}.

Definition update_event (e : Z) (f : Event -> Event) : M World unit :=
  update_entry e (on_event f).

(** [EntryCategory Category() const] *)
Definition Category (x : Entry) : EntryCategory :=
  match body x with Sock _ => Category_Socket | Strm _ => Category_Stream end.

(** [std::shared_ptr<int> NativeUdpFd() const] *)
Definition NativeUdpFd (x : Entry) : option Z :=
  match body x with Sock s => udpSocket_ s | Strm s => sudpSocket_ s end.

(** The C-style cast of an entry pointer to [QuicSocketEntry*]. *)
Definition socket_of (e : Z) : M World SocketEntry :=
  x ← entry_of e;
  match body x with Sock s => mret s | Strm _ => crashed BadCast end.

Definition stream_of (e : Z) : M World StreamEntry :=
  x ← entry_of e;
  match body x with Strm s => mret s | Sock _ => crashed BadCast end.

Definition update_socket (e : Z) (f : SocketEntry -> SocketEntry) : M World unit :=
  _ ← socket_of e;
  update_entry e (fun x => {| event := event x;
                              body := match body x with Sock s => Sock (f s) | b => b end |}).

Definition update_stream (e : Z) (f : StreamEntry -> StreamEntry) : M World unit :=
  _ ← stream_of e;
  update_entry e (fun x => {| event := event x;
                              body := match body x with Strm s => Strm (f s) | b => b end |}).

(** Updates of one member of a socket. *)
Section SocketUpdates.
Variable s : SocketEntry.

Definition with_impl i : SocketEntry :=
  {| impl_ := i; udpSocket_ := udpSocket_ s; socketState_ := socketState_ s;
     acceptSockets_ := acceptSockets_ s; acceptStreams_ := acceptStreams_ s;
     packetTransport_ := packetTransport_ s; taskRunnerProxy_ := taskRunnerProxy_ s;
     opts_ := opts_ s; connectionVisitor_ := connectionVisitor_ s |}.

Definition with_udp u : SocketEntry :=
  {| impl_ := impl_ s; udpSocket_ := u; socketState_ := socketState_ s;
     acceptSockets_ := acceptSockets_ s; acceptStreams_ := acceptStreams_ s;
     packetTransport_ := packetTransport_ s; taskRunnerProxy_ := taskRunnerProxy_ s;
     opts_ := opts_ s; connectionVisitor_ := connectionVisitor_ s |}.

Definition with_state st : SocketEntry :=
  {| impl_ := impl_ s; udpSocket_ := udpSocket_ s; socketState_ := st;
     acceptSockets_ := acceptSockets_ s; acceptStreams_ := acceptStreams_ s;
     packetTransport_ := packetTransport_ s; taskRunnerProxy_ := taskRunnerProxy_ s;
     opts_ := opts_ s; connectionVisitor_ := connectionVisitor_ s |}.

Definition with_accepts socks strms : SocketEntry :=
  {| impl_ := impl_ s; udpSocket_ := udpSocket_ s; socketState_ := socketState_ s;
     acceptSockets_ := socks; acceptStreams_ := strms;
     packetTransport_ := packetTransport_ s; taskRunnerProxy_ := taskRunnerProxy_ s;
     opts_ := opts_ s; connectionVisitor_ := connectionVisitor_ s |}.

Definition with_transport t : SocketEntry :=
  {| impl_ := impl_ s; udpSocket_ := udpSocket_ s; socketState_ := socketState_ s;
     acceptSockets_ := acceptSockets_ s; acceptStreams_ := acceptStreams_ s;
     packetTransport_ := t; taskRunnerProxy_ := taskRunnerProxy_ s;
     opts_ := opts_ s; connectionVisitor_ := connectionVisitor_ s |}.

Definition with_visitor v o p : SocketEntry :=
  {| impl_ := impl_ s; udpSocket_ := udpSocket_ s; socketState_ := socketState_ s;
     acceptSockets_ := acceptSockets_ s; acceptStreams_ := acceptStreams_ s;
     packetTransport_ := packetTransport_ s; taskRunnerProxy_ := p;
     opts_ := o; connectionVisitor_ := v |}.
End SocketUpdates.

(** An operation of the proxy of socket [e], run in place. *)
Definition on_proxy {A} (e : Z) (f : TaskRunner.Proxy -> M TaskRunner.Timers (A * TaskRunner.Proxy))
    : M World A :=
  s ← socket_of e;
  ap ← zoom timers_lens (f (taskRunnerProxy_ s));
  update_socket e (fun s => with_visitor s (connectionVisitor_ s) (opts_ s) ap.2);;
  mret ap.1.

(** The visitor of a socket with its options, its proxy and the timers. *)
Definition visitor_ctx (s : SocketEntry) (t : TaskRunner.Timers) : Visitor.Ctx :=
  {| Visitor.visitor := connectionVisitor_ s; Visitor.opts_ := opts_ s;
     Visitor.proxy := taskRunnerProxy_ s; Visitor.timers := t |}.

Definition set_visitor_ctx (c : Visitor.Ctx) (x : Entry) : Entry :=
  {| event := event x;
     body := match body x with
             | Sock s => Sock (with_visitor s (Visitor.visitor c) (Visitor.opts_ c) (Visitor.proxy c))
             | b => b
             end |}.

Definition visitor_lens (e : Z) : Lens World Visitor.Ctx :=
  {| view w :=
       match body <$> entries w !! e with
       | Some (Sock s) => visitor_ctx s (timers w)
       | _ => {| Visitor.visitor := Visitor.init; Visitor.opts_ := Options.init sockopt_count;
                 Visitor.proxy := TaskRunner.proxy_init; Visitor.timers := timers w |}
       end;
     put c w := set_timers (set_entries w (alter (set_visitor_ctx c) e (entries w)) (nextEntry w))
                           (Visitor.timers c) |}.

(** An operation of the visitor of socket [e], run in place. *)
Definition on_visitor {A} (e : Z) (m : M Visitor.Ctx A) : M World A :=
  _ ← socket_of e;
  zoom (visitor_lens e) m.
