(* ===== verification/Epoller.v ===== *)
(** Readiness: [Event] (src/src/event.h, event.cpp), which tells its waiters
    about state changes, and the registration side of [QuicEpollerEntry]
    (src/src/epoller_entry.cpp), which keeps one [quic_epoll_event] per
    descriptor, reference-counts the udp sockets it listens on, and reports what
    is ready. *)

From S2P Require Import Prelude FdTable TaskRunner World.

Section Epoller.
Context `{Iteration}.

(** ** Members of an event *)

Definition ev_readable b (v : Event) : Event :=
  {| fd_ := fd_ v; readable := b; writable := writable v; closeByPeer := closeByPeer v;
     quicErrorCode := quicErrorCode v; error := error v; waitings_ := waitings_ v;
     closeTrigger_ := closeTrigger_ v |}.
Definition ev_writable b (v : Event) : Event :=
  {| fd_ := fd_ v; readable := readable v; writable := b; closeByPeer := closeByPeer v;
     quicErrorCode := quicErrorCode v; error := error v; waitings_ := waitings_ v;
     closeTrigger_ := closeTrigger_ v |}.
Definition ev_error err quicErr (v : Event) : Event :=
  {| fd_ := fd_ v; readable := readable v; writable := writable v; closeByPeer := closeByPeer v;
     quicErrorCode := quicErr; error := err; waitings_ := waitings_ v;
     closeTrigger_ := closeTrigger_ v |}.
Definition ev_closeByPeer b (v : Event) : Event :=
  {| fd_ := fd_ v; readable := readable v; writable := writable v; closeByPeer := b;
     quicErrorCode := quicErrorCode v; error := error v; waitings_ := waitings_ v;
     closeTrigger_ := closeTrigger_ v |}.
Definition ev_waitings ws c (v : Event) : Event :=
  {| fd_ := fd_ v; readable := readable v; writable := writable v; closeByPeer := closeByPeer v;
     quicErrorCode := quicErrorCode v; error := error v; waitings_ := ws;
     closeTrigger_ := c |}.
Definition ev_fd fd (v : Event) : Event :=
  {| fd_ := fd; readable := readable v; writable := writable v; closeByPeer := closeByPeer v;
     quicErrorCode := quicErrorCode v; error := error v; waitings_ := waitings_ v;
     closeTrigger_ := closeTrigger_ v |}.

(** [int Fd() const] of the entry *)
Definition Fd (x : Entry) : Z := fd_ (event x).

(** [*revents |= m] *)
Definition or_revents (m : Z) (q : QEvent) : QEvent :=
  {| events := events q; revents := Z.lor (revents q) m; data := data q |}.

(** ** Notification of an epoller *)

(** [void QuicEpollerEntry::Notify()] *)
Definition Notify (ep : Z) : M World unit :=
  e ← epoller_of ep;
  if notifyProtect_ e then mret tt
  else
    update_epoller ep (fun e =>
      {| epfd_ := epfd_ e; fds_ := fds_ e; udps_ := udps_ e; socketPair_0 := socketPair_0 e;
         notifyProtect_ := true; triggered := triggered e |});;
    _ ← epoll_ctl (epfd_ e) EPOLL_CTL_MOD (socketPair_0 e) (Z.lor EPOLLOUT EPOLLET);
    mret tt.

(** [void EventTrigger::Trigger(short int event)] of an [EpollTrigger] *)
Definition EventTrigger_Trigger (ep : Z) : M World unit :=
  update_epoller ep (fun e =>
    {| epfd_ := epfd_ e; fds_ := fds_ e; udps_ := udps_ e; socketPair_0 := socketPair_0 e;
       notifyProtect_ := notifyProtect_ e; triggered := true |});;
  Notify ep.

(** ** Events *)

(** The body of the loop of [TriggerWithoutLock]. *)
Definition trigger_one (ev : Z) (kv : Z * Z) : M World unit :=
  let '(ep, q) := kv in
  if ev =? POLLIN then
    c ← qevent_of q;
    when (has (events c) POLLIN)
      (update_qevent q (or_revents POLLIN);; EventTrigger_Trigger ep)
  else if ev =? POLLOUT then
    c ← qevent_of q;
    when (has (events c) POLLOUT)
      (update_qevent q (or_revents POLLOUT);; EventTrigger_Trigger ep)
  else if ev =? POLLERR then
    update_qevent q (or_revents POLLERR);; EventTrigger_Trigger ep
  else mret tt.

(** [void Trigger(short int event)] and [TriggerWithoutLock] *)
Definition Trigger (e ev : Z) : M World unit :=
  x ← entry_of e;
  for_each (iterate (waitings_ (event x))) (trigger_one ev).

(** [bool StartWait(EventWaiter waiter, EventTrigger * trigger)] *)
Definition StartWait (e q ep : Z) : M World bool :=
  x ← entry_of e;
  let v := event x in
  if closeTrigger_ v then mret false
  else
    c ← qevent_of q;
    when (has (events c) POLLIN && readable v) (update_qevent q (or_revents POLLIN));;
    when (has (events c) POLLOUT && writable v) (update_qevent q (or_revents POLLOUT));;
    when (negb (error v =? 0)) (update_qevent q (or_revents POLLERR));;
    update_event e (fun v => ev_waitings (<[ep := q]> (waitings_ v)) (closeTrigger_ v) v);;
    mret true.

(** [void StopWait(EventTrigger * trigger)] *)
Definition StopWait (e ep : Z) : M World unit :=
  update_event e (fun v => ev_waitings (delete ep (waitings_ v)) (closeTrigger_ v) v).

(** [void SetReadable(bool b)] *)
Definition SetReadable (e : Z) (b : bool) : M World unit :=
  update_event e (ev_readable b);; Trigger e POLLIN.

(** [void SetWritable(bool b)] *)
Definition SetWritable (e : Z) (b : bool) : M World unit :=
  update_event e (ev_writable b);; Trigger e POLLOUT.

(** [void SetError(int err, int quicErr)]: the first error wins. *)
Definition SetError (e err quicErr : Z) : M World unit :=
  x ← entry_of e;
  if error (event x) =? 0 then
    update_event e (ev_error err quicErr);; Trigger e POLLERR
  else mret tt.

(** [void SetCloseByPeer(bool b)] *)
Definition SetCloseByPeer (e : Z) (b : bool) : M World unit :=
  update_event e (ev_closeByPeer b).

(** ** Registration *)

(** [short int Epoll2Poll(uint32_t event)] *)
Definition Epoll2Poll (event : Z) : Z :=
  let ev := 0 in
  let ev := if has event EPOLLIN then Z.lor ev POLLIN else ev in
  let ev := if has event EPOLLOUT then Z.lor ev POLLOUT else ev in
  let ev := if has event EPOLLERR then Z.lor ev POLLERR else ev in
  ev.

(** [uint32_t Poll2Epoll(short int event)] *)
Definition Poll2Epoll (event : Z) : Z :=
  let ev := 0 in
  let ev := if has event POLLIN then Z.lor ev EPOLLIN else ev in
  let ev := if has event POLLOUT then Z.lor ev EPOLLOUT else ev in
  let ev := if has event POLLERR then Z.lor ev EPOLLERR else ev in
  ev.

Definition with_fds m (e : Epoller) : Epoller :=
  {| epfd_ := epfd_ e; fds_ := m; udps_ := udps_ e; socketPair_0 := socketPair_0 e;
     notifyProtect_ := notifyProtect_ e; triggered := triggered e |}.
Definition with_udps m (e : Epoller) : Epoller :=
  {| epfd_ := epfd_ e; fds_ := fds_ e; udps_ := m; socketPair_0 := socketPair_0 e;
     notifyProtect_ := notifyProtect_ e; triggered := triggered e |}.

(** [fds_.erase(itr)]: [fds_] holds the only [shared_ptr] of the cell. *)
Definition erase_fd (ep fd : Z) : M World unit :=
  e ← epoller_of ep;
  match fds_ e !! fd with
  | Some (_, q) =>
      update_epoller ep (fun e => with_fds (delete fd (fds_ e)) e);;
      modify (fun w => set_qevents w (delete q (qevents w)) (nextQEvent w))
  | None => crashed EndIterator
  end.

(** [new quic_epoll_event] *)
Definition new_qevent (c : QEvent) : M World Z := fun w =>
  Ret (nextQEvent w) (set_qevents w (<[nextQEvent w := c]> (qevents w)) (nextQEvent w + 1)).

(** [weak_ptr::lock()], then the test [entry && entry->Fd() == fd] *)
Definition lock_with_fd (e fd : Z) : M World (option Entry) :=
  w ← get;
  mret (match entries w !! e with
        | Some x => if Fd x =? fd then Some x else None
        | None => None
        end).

(** The reference count of a udp socket, at the end of [AddInner]. *)
Definition ref_udp (ep udp : Z) : M World Z :=
  e ← epoller_of ep;
  match udps_ e !! udp with
  | None =>
      res ← epoll_ctl (epfd_ e) EPOLL_CTL_ADD udp EPOLLIN;
      if res <? 0 then mret (-1)
      else
        update_epoller ep (fun e => with_udps (<[udp := 1]> (udps_ e)) e);;
        mret 0
  | Some n =>
      update_epoller ep (fun e => with_udps (<[udp := n + 1]> (udps_ e)) e);;
      mret 0
  end.

(** The part of [AddInner] after the entry was found: [entry] is registered,
    its udp socket listened on and, for a socket, its timers linked. *)
Definition add_entry (ep e fd ev dt : Z) : M World Z :=
  q ← new_qevent {| events := Epoll2Poll ev; revents := 0; data := dt |};
  ok ← StartWait e q ep;
  if negb ok then
    modify (fun w => set_qevents w (delete q (qevents w)) (nextQEvent w));;
    fail EBADF
  else
    update_epoller ep (fun p => with_fds (<[fd := (e, q)]> (fds_ p)) p);;
    x ← entry_of e;
    match NativeUdpFd x with
    | None => StopWait e ep;; fail EINVAL
    | Some udp =>
        linked ← (if decide (Category x = Category_Socket)
                  then on_proxy e (TaskRunner.Link ep) else mret true);
        if negb linked then StopWait e ep;; fail EBUSY
        else ref_udp ep udp
    end.

(** [int AddInner(int fd, struct epoll_event *event)] *)
Definition Add (ep fd ev dt : Z) : M World Z :=
  p ← epoller_of ep;
  stale ← match fds_ p !! fd with
          | Some (e, _) =>
              x ← lock_with_fd e fd;
              match x with
              | Some _ => mret true
              | None => erase_fd ep fd;; mret false
              end
          | None => mret false
          end;
  if stale : bool then fail EEXIST
  else
    w ← get;
    match FdManager.Get fd (fdManager w) with
    | None => fail EBADF
    | Some e =>
        x ← entry_of e;
        if negb (Fd x =? fd) then fail EBADF
        else add_entry ep e fd ev dt
    end.

(** [int ModInner(int fd, struct epoll_event *event)] *)
Definition Mod (ep fd ev dt : Z) : M World Z :=
  p ← epoller_of ep;
  match fds_ p !! fd with
  | None => fail ENOENT
  | Some (_, q) =>
      let pollevent := Epoll2Poll ev in
      update_qevent q (fun c => {| events := pollevent; revents := revents c; data := dt |});;
      when (has pollevent POLLOUT) (update_qevent q (or_revents POLLOUT));;
      Notify ep;;
      mret 0
  end.

(** The udp part of [DelInner]: with assertions compiled out, a missing socket
    or count is undefined behaviour. *)
Definition unref_udp (ep : Z) (udpSocket : option Z) : M World unit :=
  udp ← deref udpSocket NullDeref;
  e ← epoller_of ep;
  n ← deref (udps_ e !! udp) EndIterator;
  if n - 1 =? 0 then
    _ ← epoll_ctl (epfd_ e) EPOLL_CTL_DEL udp 0;
    update_epoller ep (fun e => with_udps (delete udp (udps_ e)) e)
  else
    update_epoller ep (fun e => with_udps (<[udp := n - 1]> (udps_ e)) e).

(** [int DelInner(int fd)] *)
Definition Del (ep fd : Z) : M World Z :=
  p ← epoller_of ep;
  match fds_ p !! fd with
  | None => fail ENOENT
  | Some (e, _) =>
      x ← lock_with_fd e fd;
      match x with
      | None => erase_fd ep fd;; fail ENOENT
      | Some x =>
          unref_udp ep (NativeUdpFd x);;
          StopWait e ep;;
          erase_fd ep fd;;
          (if decide (Category x = Category_Socket) then
             w ← get;
             on_proxy e (fun p => p' ← TaskRunner.Unlink (IsInTaskRunnerThread w) p; mret (tt, p'))
           else mret tt);;
          mret 0
      end
  end.

(** [void ClearWaitingsByClose()]; [EpollTrigger::OnClose] is [Del(e->Fd())]. *)
Definition ClearWaitingsByClose (e : Z) : M World unit :=
  x ← entry_of e;
  if closeTrigger_ (event x) then mret tt
  else
    let closed := iterate (waitings_ (event x)) in
    update_event e (ev_waitings ∅ true);;
    for_each closed (fun kv =>
      x ← entry_of e;
      _ ← Del kv.1 (Fd x);
      mret tt).

(** ** Reporting *)

(** One round of the loop of [Poll]: what the cell has to report is taken out of
    it. *)
Definition poll_one (q : Z) : M World Z :=
  c ← qevent_of q;
  let event := Z.lor (events c) POLLERR in
  update_qevent q (fun c => {| events := events c; revents := Z.ldiff (revents c) event;
                               data := data c |});;
  mret (Z.land (revents c) event).

(** [struct epoll_event] *)
Record epoll_event : Type := { ee_events : Z; ee_data : Z }.

Fixpoint poll_loop (l : list (Z * (Z * Z))) (maxevents : nat) : M World (list epoll_event) :=
  match l, maxevents with
  | [], _ => mret []
  | _, O => mret []
  | (fd, (_, q)) :: l', S k =>
      r ← poll_one q;
      c ← qevent_of q;
      if r =? 0 then poll_loop l' maxevents
      else
        rest ← poll_loop l' k;
        mret ({| ee_events := Poll2Epoll r; ee_data := data c |} :: rest)
  end.

(** [int Poll(struct epoll_event *events, int maxevents)]: the events written. *)
Definition Poll (ep maxevents : Z) : M World (list epoll_event) :=
  p ← epoller_of ep;
  poll_loop (iterate (fds_ p)) (Z.to_nat maxevents).

(** ** Construction and destruction *)

(** A value a system call stores through a pointer. *)
Definition kernel_value : M World Z := fun w =>
  Ret (results (sys w) (calls (sys w))).1
      (set_kernel w (interest w)
         {| results := results (sys w); calls := S (calls (sys w)) |} (errno w)).

(** [QuicEpollerEntry()]: the timer thread it starts only calls [Notify]. *)
Definition QuicEpollerEntry : M World Z :=
  fd ← syscall;
  res ← syscall;
  sp ← (if res =? 0 then kernel_value else mret (-1));
  w ← get;
  let ep := nextEpoller w in
  modify (fun w => set_epollers w (epManager w)
    (<[ep := {| epfd_ := fd; fds_ := ∅; udps_ := ∅; socketPair_0 := sp;
                notifyProtect_ := false; triggered := false |}]> (epollers w)) (ep + 1));;
  zoom timers_lens (modify (TaskRunner.set_tasks <[ep := []]>));;
  (if res =? 0 then
     _ ← epoll_ctl fd EPOLL_CTL_ADD sp (Z.lor EPOLLOUT EPOLLET); mret tt
   else mret tt);;
  mret ep.

(** [~QuicEpollerEntry()]: closing the descriptor drops the interest list; the
    task runner dies with the object. *)
Definition destroy_epoller (ep : Z) : M World unit :=
  p ← epoller_of ep;
  _ ← syscall;
  modify (fun w => set_kernel w (filter (fun kv => kv.1.1 <> epfd_ p) (interest w))
                     (sys w) (errno w));;
  for_each (iterate (fds_ p)) (fun kv =>
    w ← get;
    match entries w !! kv.2.1 with
    | Some _ => StopWait kv.2.1 ep
    | None => mret tt
    end);;
  for_each (iterate (fds_ p)) (fun kv => erase_fd ep kv.1);;
  modify (fun w => set_epollers w (epManager w) (delete ep (epollers w)) (nextEpoller w));;
  zoom timers_lens (modify (TaskRunner.set_tasks (delete ep))).

(** [static QuicEpollerEntryPtr NewQuicEpollerEntry()] *)
Definition NewQuicEpollerEntry : M World (option Z) :=
  ep ← QuicEpollerEntry;
  p ← epoller_of ep;
  if epfd_ p >=? 0 then
    modify (fun w => set_epollers w (FdManager.Put (epfd_ p) ep (epManager w)) (epollers w)
                       (nextEpoller w));;
    mret (Some ep)
  else
    destroy_epoller ep;;
    mret None.

(** [static void DeleteQuicEpollerEntry(QuicEpollerEntryPtr ep)] *)
Definition DeleteQuicEpollerEntry (ep : Z) : M World unit :=
  p ← epoller_of ep;
  modify (fun w => set_epollers w (FdManager.Delete (epfd_ p) (epManager w)).2 (epollers w)
                     (nextEpoller w)).

End Epoller.
