(* ===== verification/Socket.v ===== *)
(** Sockets and streams: [QuicSocketEntry] (src/src/socket_entry.cpp),
    [QuicStreamEntry] (src/src/stream_entry.cpp), [PosixQuicPacketTransport]
    (src/src/packet_transport.cpp) and what they rely on of their
    [QuartcSession]: closing a stream or the connection calls back into the
    delegates.

    What the protocol engine does with a datagram or a call is outside this
    layer; it reaches the layer only through the delegate callbacks, so the
    engine is a script of [callback]s, over which the theorems quantify. *)

From S2P Require Import Prelude FdTable ConnectionManager Options TaskRunner Alarm World Epoller.

Section Socket.
Context `{Iteration}.

(** ** Packet transport *)

(** [void Set(udpSocket, address)] *)
Definition transport_Set (udp address : option Z) : PacketTransport :=
  {| tudpSocket_ := udp; address_ := address |}.

(** [void UpdatePeerAddress(address)] *)
Definition UpdatePeerAddress (address : Z) (t : PacketTransport) : PacketTransport :=
  {| tudpSocket_ := tudpSocket_ t; address_ := Some address |}.

(** The [retry_sendto] loop: [Some] result once a call does not fail with
    [EINTR], within [fuel] calls. *)
Fixpoint sendto (fuel : nat) : M World unit :=
  match fuel with
  | O => crashed OutOfFuel
  | S f =>
      res ← syscall;
      w ← get;
      if (res =? -1) && (errno w =? EINTR) then sendto f else mret tt
  end.

(** [int Write(const char* buffer, size_t buf_len)]: once there is somewhere to
    send to, the datagram counts as written whatever [sendto] says. *)
Definition Write (fuel : nat) (t : PacketTransport) (buf_len : Z) : M World Z :=
  match tudpSocket_ t, address_ t with
  | None, _ => mret (-1)
  | Some _, None => mret (-1)
  | Some _, Some _ => sendto fuel;; mret (int32 buf_len)
  end.

(** ** Descriptors of the entries *)

(** [new ...; SetFd(fd)] *)
Definition new_entry (fd : Z) (b : Body) : M World Z := fun w =>
  Ret (nextEntry w)
      (set_entries w (<[nextEntry w := {| event := ev_fd fd Event_init; body := b |}]> (entries w))
                   (nextEntry w + 1)).

(** [GetFdFactory().Alloc()]: [++acq_] past the last [int] is undefined. *)
Definition Alloc : M World Z := fun w =>
  match FdFactory.free_ (fdFactory w) with
  | [] => if FdFactory.acq_ (fdFactory w) <? 2147483647 then
            let '(fd, ff) := FdFactory.Alloc (fdFactory w) in Ret fd (set_fds w ff (fdManager w))
          else Crash IntOverflow
  | _ => let '(fd, ff) := FdFactory.Alloc (fdFactory w) in Ret fd (set_fds w ff (fdManager w))
  end.

(** [GetFdManager().Put(fd, ptr)] *)
Definition PutFd (fd e : Z) : M World unit :=
  modify (fun w => set_fds w (fdFactory w) (FdManager.Put fd e (fdManager w))).

(** [DeleteQuicSocketEntry(ptr)] and [DeleteQuicStream(ptr)] *)
Definition DeleteEntry (e : Z) : M World unit :=
  x ← entry_of e;
  if Fd x >=? 0 then
    modify (fun w => set_fds w (FdFactory.Free (Fd x) (fdFactory w))
                             (FdManager.Delete (Fd x) (fdManager w)).2);;
    update_event e (ev_fd (-1))
  else mret tt.

(** ** Streams *)

(** [static QuicStreamEntryPtr NewQuicStream(socketEntry, stream)] *)
Definition NewQuicStream (e sid : Z) : M World Z :=
  fd ← Alloc;
  x ← entry_of e;
  st ← new_entry fd (Strm {| sudpSocket_ := NativeUdpFd x; socketEntry_ := e; streamId_ := sid;
                             finRead_ := false; recvBuffer_ := [] |});
  PutFd fd st;;
  mret st.

(** [QuartcStreamPtr GetQuartcStream()]: the stream while its socket lives and
    its session has it open. *)
Definition GetQuartcStream (st : Z) : M World (option (Z * Z)) :=
  s ← stream_of st;
  w ← get;
  match entries w !! socketEntry_ s with
  | None => mret None
  | Some x =>
      match body x with
      | Strm _ => crashed BadCast
      | Sock so =>
          if bool_decide (streamId_ s ∈ (dynamic_stream_map_ (impl_ so)).*1)
          then mret (Some (socketEntry_ s, streamId_ s)) else mret None
      end
  end.

(** [void OnReceived(stream, data, size)] *)
Definition OnReceived (st : Z) (bytes : list Z) : M World unit :=
  s ← stream_of st;
  let trigger := bool_decide (recvBuffer_ s = []) in
  update_stream st (fun s =>
    {| sudpSocket_ := sudpSocket_ s; socketEntry_ := socketEntry_ s; streamId_ := streamId_ s;
       finRead_ := finRead_ s; recvBuffer_ := recvBuffer_ s ++ bytes |});;
  when trigger (SetReadable st true).

(** [void OnClose(stream)] *)
Definition OnClose (st : Z) : M World unit := SetError st EBADF 0.

(** [void OnCanWriteNewData(stream)] *)
Definition OnCanWriteNewData (st : Z) : M World unit := SetWritable st true.

(** [void OnFinRead(stream)] *)
Definition OnFinRead (st : Z) : M World unit :=
  s ← stream_of st;
  if finRead_ s then mret tt
  else update_stream st (fun s =>
    {| sudpSocket_ := sudpSocket_ s; socketEntry_ := socketEntry_ s; streamId_ := streamId_ s;
       finRead_ := true; recvBuffer_ := recvBuffer_ s |}).

(** [QuicByteCount GetBufferedDataThreshold(defaultThreshold) const] *)
Definition GetBufferedDataThreshold (st defaultThreshold : Z) : M World Z :=
  s ← stream_of st;
  w ← get;
  match entries w !! socketEntry_ s with
  | None => mret defaultThreshold
  | Some _ =>
      v ← on_visitor (socketEntry_ s) (Visitor.GetOption sockopt_stream_wmem);
      let threshold := uint64 v in
      if threshold =? 0 then mret defaultThreshold else mret threshold
  end.

(** The copy loop of [Readv] over the sizes of the buffers: the pieces copied. *)
Fixpoint copy_out (iov : list Z) (buf : list Z) (pos : nat) : list (list Z) * nat :=
  match iov with
  | [] => ([], pos)
  | len :: iov' =>
      if (pos <? length buf)%nat then
        let copyBytes := Nat.min (length buf - pos) (Z.to_nat len) in
        let '(pieces, pos') := copy_out iov' buf (pos + copyBytes) in
        (take copyBytes (drop pos buf) :: pieces, pos')
      else ([], pos)
  end.

(** [ssize_t Readv(const struct iovec* iov, size_t iov_count)] *)
Definition Readv (st : Z) (iov : list Z) : M World (Z * list (list Z)) :=
  x ← entry_of st;
  s ← stream_of st;
  if negb (error (event x) =? 0) then r ← fail (error (event x)); mret (r, [])
  else if finRead_ s then set_errno 0;; mret (0, [])
  else
    stream ← GetQuartcStream st;
    match stream with
    | None => r ← fail EBADF; mret (r, [])
    | Some _ =>
        let '(pieces, pos) := copy_out iov (recvBuffer_ s) 0 in
        update_stream st (fun s =>
          {| sudpSocket_ := sudpSocket_ s; socketEntry_ := socketEntry_ s;
             streamId_ := streamId_ s; finRead_ := finRead_ s;
             recvBuffer_ := if (pos =? length (recvBuffer_ s))%nat then []
                            else drop pos (recvBuffer_ s) |});;
        let res := int32 (Z.of_nat pos) in
        if res =? 0 then r ← fail EAGAIN; mret (r, [])
        else set_errno 0;; mret (res, pieces)
    end.

(** ** The session behind a socket *)

Definition with_streams (l : list (Z * Z)) (i : Session) : Session :=
  {| connection_id := connection_id i; perspective := perspective i; connected_ := connected_ i;
     next_outgoing_stream_id_ := next_outgoing_stream_id_ i; dynamic_stream_map_ := l |}.

(** [QuicSession::CloseStreamInner]: the stream leaves [dynamic_stream_map_] and
    its delegate is told. *)
Definition CloseStreamInner (e sid : Z) : M World unit :=
  s ← socket_of e;
  match list_find (fun kv => kv.1 = sid) (dynamic_stream_map_ (impl_ s)) with
  | None => mret tt
  | Some (_, (_, delegate)) =>
      update_socket e (fun s => with_impl s
        (with_streams (filter (fun kv => kv.1 <> sid) (dynamic_stream_map_ (impl_ s))) (impl_ s)));;
      OnClose delegate
  end.

(** [ActivateStream] *)
Definition ActivateStream (e sid delegate : Z) : M World unit :=
  update_socket e (fun s => with_impl s
    (with_streams (dynamic_stream_map_ (impl_ s) ++ [(sid, delegate)]) (impl_ s))).

Definition disconnect (i : Session) : Session :=
  {| connection_id := connection_id i; perspective := perspective i; connected_ := false;
     next_outgoing_stream_id_ := next_outgoing_stream_id_ i;
     dynamic_stream_map_ := dynamic_stream_map_ i |}.

Section Closing.
(* QuicSocketEntry::Close, one level down *)
Variable Close : Z -> M World Z.

(** [QuicSocketEntry::OnConnectionClosed(int error_code, bool from_remote)] *)
Definition OnConnectionClosed (e error_code : Z) (from_remote : bool) : M World unit :=
  SetCloseByPeer e from_remote;;
  SetError e ESHUTDOWN error_code;;
  s ← socket_of e;
  if negb (bool_decide (socketState_ s = QuicSocketState_Connected))
     && bool_decide (perspective (impl_ s) = IS_SERVER)
  then _ ← Close e; DeleteEntry e
  else mret tt.

(** [QuicConnection::TearDownLocalConnectionState], then
    [QuartcSession::OnConnectionClosed]: every open stream is closed, then the
    delegate is told. *)
Definition TearDown (e err : Z) (from_remote : bool) : M World unit :=
  s ← socket_of e;
  if connected_ (impl_ s) then
    update_socket e (fun s => with_impl s (disconnect (impl_ s)));;
    for_each (dynamic_stream_map_ (impl_ s)).*1 (CloseStreamInner e);;
    OnConnectionClosed e err from_remote
  else mret tt.

(** The loop of [ClearAcceptSocketByClose]; [n] bounds the length of the queue. *)
Fixpoint ClearAcceptSocketByClose (n : nat) (e : Z) : M World unit :=
  s ← socket_of e;
  match acceptSockets_ s with
  | [] => mret tt
  | a :: rest =>
      match n with
      | O => crashed OutOfFuel
      | S n' =>
          update_socket e (fun s => with_accepts s rest (acceptStreams_ s));;
          _ ← Close a;
          DeleteEntry a;;
          ClearAcceptSocketByClose n' e
      end
  end.
End Closing.

Definition QUIC_CONNECTION_CANCELLED : Z := 70.

(** [int QuicSocketEntry::Close()]; it calls itself on this socket through the
    session and on the sockets of the accept queue, [fuel] levels deep. *)
Fixpoint Close (fuel : nat) (e : Z) : M World Z :=
  match fuel with
  | O => crashed OutOfFuel
  | S f =>
      s ← socket_of e;
      if bool_decide (socketState_ s = QuicSocketState_Closed) then mret 0
      else
        update_socket e (fun s => with_state s QuicSocketState_Closed);;
        w ← get;
        on_visitor e (Visitor.CancelNoAckAlarm (IsInTaskRunnerThread w));;
        x ← entry_of e;
        (match udpSocket_ s with
         | Some udp => modify (fun w => set_connMgr w
             (ConnectionManager.Delete udp (connection_id (impl_ s)) (Fd x) (connMgr w)).2)
         | None => mret tt
         end);;
        TearDown (Close f) e QUIC_CONNECTION_CANCELLED false;;
        ClearWaitingsByClose e;;
        s' ← socket_of e;
        ClearAcceptSocketByClose (Close f) (length (acceptSockets_ s')) e;;
        mret 0
  end.

(** Enough levels: every nested call that does anything closes one more socket. *)
Definition close_fuel (w : World) : nat := S (S (size (entries w))).

Definition CloseSocket (e : Z) : M World Z := w ← get; Close (close_fuel w) e.

(** ** Creation and options *)

(** [static QuicSocketEntryPtr NewQuicSocketEntry(bool isServer, QuicConnectionId id)] *)
Definition NewQuicSocketEntry (isServer : bool) (id : Z) : M World Z :=
  id' ← (if id =? INVALID_QUIC_CONNECTION_ID then r ← kernel_value; mret (uint64 r) else mret id);
  fd ← Alloc;
  e ← new_entry fd (Sock
    {| impl_ := {| connection_id := id'; perspective := if isServer then IS_SERVER else IS_CLIENT;
                   connected_ := true; next_outgoing_stream_id_ := if isServer then 2 else 3;
                   dynamic_stream_map_ := [] |};
       udpSocket_ := None; socketState_ := QuicSocketState_None;
       acceptSockets_ := []; acceptStreams_ := [];
       packetTransport_ := transport_Set None None;
       taskRunnerProxy_ := TaskRunner.Proxy_Initialize id' TaskRunner.proxy_init;
       opts_ := Options.init sockopt_count; connectionVisitor_ := Visitor.init |});
  PutFd fd e;;
  mret e.

(** [long GetOpt(int type) const] *)
Definition GetOpt (e type : Z) : M World Z :=
  on_visitor e (zoom Visitor.opts_lens (Options.GetOption sockopt_count type)).

(** [setsockopt] on the udp socket, when there is one. *)
Definition set_udp_buffer (e : Z) : M World unit :=
  s ← socket_of e;
  match udpSocket_ s with
  | Some _ => _ ← syscall; mret tt
  | None => mret tt
  end.

(** [void SetOpt(int type, long value)]: the idle timeout is only handed on to
    the session's configuration. *)
Definition SetOpt (e type value : Z) : M World unit :=
  let value := if type =? opt_type sockopt_idle_timeout_secs
               then (if value <? kMinIdleTimeout then kMinIdleTimeout else value) else value in
  changed ← on_visitor e (zoom Visitor.opts_lens (Options.SetOption sockopt_count type value));
  if negb changed then mret tt
  else if type =? opt_type sockopt_ack_timeout_secs then
    w ← get; on_visitor e (Visitor.SetNoAckAlarm e (IsInTaskRunnerThread w))
  else if type =? opt_type sockopt_udp_rmem then set_udp_buffer e
  else if type =? opt_type sockopt_udp_wmem then set_udp_buffer e
  else mret tt.

(** ** The udp socket *)

(** A failed step of [SetUdpSocket]: [::close(fd); return -1;] *)
Definition close_and_fail : M World Z := _ ← syscall; mret (-1).

(** [int SetUdpSocket(int fd)] *)
Definition SetUdpSocket (e fd : Z) : M World Z :=
  s ← socket_of e;
  match udpSocket_ s with
  | Some _ => fail EINVAL
  | None =>
      val ← syscall;
      if val =? -1 then close_and_fail else
      res ← syscall;
      if res =? -1 then close_and_fail else
      rmem ← GetOpt e (opt_type sockopt_udp_rmem);
      let val := if int32 rmem =? 0 then kDefaultUdpRecvMem else int32 rmem in
      res ← syscall;
      if res =? -1 then close_and_fail else
      wmem ← GetOpt e (opt_type sockopt_udp_wmem);
      let val := if int32 wmem =? 0 then kDefaultUdpWriteMem else int32 wmem in
      res ← syscall;
      if res =? -1 then close_and_fail else
      update_socket e (fun s => with_state (with_udp s (Some fd)) QuicSocketState_Inited);;
      x ← entry_of e;
      modify (fun w => set_connMgr w
        (ConnectionManager.Put fd (connection_id (impl_ s)) (Fd x) true (connMgr w)));;
      mret 0
  end.

(** [int CreateNewUdpSocket()] *)
Definition CreateNewUdpSocket (e : Z) : M World Z :=
  s ← socket_of e;
  match udpSocket_ s with
  | Some _ => fail EINVAL
  | None =>
      fd ← syscall;
      if fd =? -1 then mret (-1) else SetUdpSocket e fd
  end.

Definition set_state (e : Z) (st : QuicSocketState) : M World unit :=
  update_socket e (fun s => with_state s st).

(** The [QuicSocketState_Inited] case of [Bind]. *)
Definition bind_inited (e : Z) : M World Z :=
  s ← socket_of e;
  _ ← deref (udpSocket_ s) NullDeref;
  res ← syscall;
  when (res =? 0) (set_state e QuicSocketState_Binded);;
  mret res.

(** [int Bind(const struct sockaddr* addr, socklen_t addrlen)]: the first case
    falls through to the second. *)
Definition Bind (e : Z) : M World Z :=
  s ← socket_of e;
  match socketState_ s with
  | QuicSocketState_None =>
      res ← CreateNewUdpSocket e;
      if res <? 0 then mret (-1) else bind_inited e
  | QuicSocketState_Inited => bind_inited e
  | _ => fail EINVAL
  end.

(** [int Bind(int udpFd)] *)
Definition BindUdp (e udpFd : Z) : M World Z :=
  s ← socket_of e;
  match socketState_ s with
  | QuicSocketState_None =>
      res ← SetUdpSocket e udpFd;
      when (res =? 0) (set_state e QuicSocketState_Binded);;
      mret res
  | _ => fail EINVAL
  end.

(** [int GetSockName(...)]: [getsockname] of the udp socket. *)
Definition GetSockName (e : Z) : M World Z :=
  s ← socket_of e;
  match udpSocket_ s with
  | None => fail EBADF
  | Some _ => syscall
  end.

Inductive AddressFamily : Type := FAMILY_UNSPECIFIED | FAMILY_IPV4 | FAMILY_IPV6.

Definition sizeof_sockaddr_in : Z := 16.
Definition sizeof_sockaddr_in6 : Z := 28.

(** [int GetPeerName(struct sockaddr* addr, socklen_t *addrlen)] for a peer
    address of the given family: the result and the new [*addrlen].  With room
    for it, [ToSockAddr] writes an IPv4 or IPv6 address and its size. *)
Definition GetPeerName (fam : AddressFamily) (addrlen : Z) : M World (Z * Z) :=
  match fam with
  | FAMILY_IPV4 =>
      if addrlen <? sizeof_sockaddr_in
      then r ← fail EINVAL; mret (r, sizeof_sockaddr_in)
      else mret (0, sizeof_sockaddr_in)
  | FAMILY_IPV6 =>
      if addrlen <? sizeof_sockaddr_in6
      then r ← fail EINVAL; mret (r, sizeof_sockaddr_in6)
      else mret (0, sizeof_sockaddr_in6)
  | FAMILY_UNSPECIFIED => r ← fail EINVAL; mret (r, sizeof_sockaddr_in6)
  end.

(** ** Accept queues *)

(** [void PushAcceptQueue(QuicSocketEntryPtr entry)] *)
Definition PushAcceptQueue (e new : Z) : M World unit :=
  update_socket e (fun s => with_accepts s (acceptSockets_ s ++ [new]) (acceptStreams_ s));;
  SetReadable e true.

(** [QuicSocketEntryPtr AcceptSocket()] *)
Definition AcceptSocket (e : Z) : M World (option Z) :=
  s ← socket_of e;
  if negb (bool_decide (socketState_ s = QuicSocketState_Binded))
  then set_errno EINVAL;; mret None
  else
    match acceptSockets_ s with
    | [] => set_errno EAGAIN;; mret None
    | a :: rest =>
        update_socket e (fun s => with_accepts s rest (acceptStreams_ s));;
        mret (Some a)
    end.

(** [bool IsConnected()] *)
Definition IsConnected (s : SocketEntry) : bool :=
  bool_decide (socketState_ s = QuicSocketState_Connected).

(** [QuicStreamEntryPtr AcceptStream()] *)
Definition AcceptStream (e : Z) : M World (option Z) :=
  s ← socket_of e;
  if negb (IsConnected s) then set_errno ENOTCONN;; mret None
  else
    match acceptStreams_ s with
    | [] => set_errno EAGAIN;; mret None
    | a :: rest =>
        update_socket e (fun s => with_accepts s (acceptSockets_ s) rest);;
        mret (Some a)
    end.

(** [CreateOutgoingDynamicStream()]: the encryption is established once the
    socket is connected, so a stream is always created. *)
Definition GetNextOutgoingStreamId (e : Z) : M World Z :=
  s ← socket_of e;
  let i := impl_ s in
  update_socket e (fun s => with_impl s
    {| connection_id := connection_id i; perspective := perspective i; connected_ := connected_ i;
       next_outgoing_stream_id_ := uint32 (next_outgoing_stream_id_ i + 2);
       dynamic_stream_map_ := dynamic_stream_map_ i |});;
  mret (next_outgoing_stream_id_ i).

(** [QuicStreamEntryPtr CreateStream()] *)
Definition CreateStream (e : Z) : M World (option Z) :=
  s ← socket_of e;
  if negb (IsConnected s) then set_errno ENOTCONN;; mret None
  else
    sid ← GetNextOutgoingStreamId e;
    st ← NewQuicStream e sid;
    ActivateStream e sid st;;
    mret (Some st).

(** ** Callbacks of the session *)

(** [void OnCryptoHandshakeComplete()] *)
Definition OnCryptoHandshakeComplete (e : Z) : M World unit :=
  set_state e QuicSocketState_Connected;;
  SetWritable e true;;
  s ← socket_of e;
  if bool_decide (perspective (impl_ s) = IS_SERVER) then
    udp ← deref (udpSocket_ s) NullDeref;
    w ← get;
    owner ← deref (FdManager.Get (ConnectionManager.GetOwner udp (connMgr w)) (fdManager w))
                  NullDeref;
    PushAcceptQueue owner e
  else mret tt.

(** [void OnIncomingStream(QuartcStreamInterface* stream)] *)
Definition OnIncomingStream (e sid : Z) : M World Z :=
  st ← NewQuicStream e sid;
  update_socket e (fun s => with_accepts s (acceptSockets_ s) (acceptStreams_ s ++ [st]));;
  SetReadable e true;;
  mret st.

(** What the engine can tell this layer. *)
Inductive callback : Type :=
| CbHandshakeComplete
| CbIncomingStream (sid : Z)
| CbReceived (sid : Z) (bytes : list Z)
| CbFinRead (sid : Z)
| CbCanWriteNewData (sid : Z)
| CbStreamClosed (sid : Z)
| CbPacketSent (transmission_type : Z)
| CbAckFrame
| CbStreamFrame (peer_address : Z)
| CbConnectionClosed (err : Z) (from_remote : bool).

(** A callback of an open stream. *)
Definition to_stream (s : SocketEntry) (sid : Z) (f : Z -> M World unit) : M World unit :=
  match list_find (fun kv => kv.1 = sid) (dynamic_stream_map_ (impl_ s)) with
  | None => mret tt
  | Some (_, (_, delegate)) => f delegate
  end.

(** One callback of the session of socket [e]: a closed connection makes none. *)
Definition deliver (e : Z) (cb : callback) : M World unit :=
  s ← socket_of e;
  if negb (connected_ (impl_ s)) then mret tt
  else
    match cb with
    | CbHandshakeComplete => OnCryptoHandshakeComplete e
    | CbIncomingStream sid =>
        if bool_decide (sid ∈ (dynamic_stream_map_ (impl_ s)).*1) then mret tt
        else st ← OnIncomingStream e sid; ActivateStream e sid st
    | CbReceived sid bytes => to_stream s sid (fun st => OnReceived st bytes)
    | CbFinRead sid => to_stream s sid (fun st => OnFinRead st;; OnReceived st [])
    | CbCanWriteNewData sid => to_stream s sid OnCanWriteNewData
    | CbStreamClosed sid => CloseStreamInner e sid
    | CbPacketSent ty => on_visitor e (Visitor.OnPacketSent ty)
    | CbAckFrame => on_visitor e Visitor.OnAckFrame
    | CbStreamFrame a =>
        update_socket e (fun s => with_transport s (UpdatePeerAddress a (packetTransport_ s)))
    | CbConnectionClosed err from_remote => TearDown CloseSocket e err from_remote
    end.

Definition engine (e : Z) (script : list callback) : M World unit := for_each script (deliver e).

(** ** Operations that drive the session *)

(** [sizeof(struct sockaddr_storage)] *)
Definition sizeof_sockaddr_storage : Z := 128.

(** [int Connect(const struct sockaddr* addr, socklen_t addrlen)] *)
Definition Connect (e address addrlen : Z) (script : list callback) : M World Z :=
  s ← socket_of e;
  go ← match socketState_ s with
       | QuicSocketState_None =>
           res ← CreateNewUdpSocket e;
           mret (if res <? 0 then Some (-1) else None)
       | QuicSocketState_Inited | QuicSocketState_Binded => mret None
       | QuicSocketState_Connecting => r ← fail EALREADY; mret (Some r)
       | _ => r ← fail EINVAL; mret (Some r)
       end;
  match go with
  | Some r => mret r
  | None =>
      set_state e QuicSocketState_Connecting;;
      (if addrlen >? sizeof_sockaddr_storage then crashed OutOfBounds else mret tt);;
      update_socket e (fun s =>
        with_transport s (transport_Set (udpSocket_ s) (Some address)));;
      ack ← GetOpt e (opt_type sockopt_ack_timeout_secs);
      when (ack =? 0) (SetOpt e (opt_type sockopt_ack_timeout_secs) kDefaultAckTimeout);;
      engine e script;;
      fail EINPROGRESS
  end.

(** [void OnSyn(QuicSocketEntryPtr owner, QuicSocketAddress address)] *)
Definition OnSyn (e owner address : Z) (script : list callback) : M World unit :=
  o ← socket_of owner;
  update_socket e (fun s => with_transport
    (with_udp (with_state s QuicSocketState_Shared) (udpSocket_ o))
    (transport_Set (udpSocket_ o) (Some address)));;
  udp ← deref (udpSocket_ o) NullDeref;
  x ← entry_of e;
  s ← socket_of e;
  modify (fun w => set_connMgr w
    (ConnectionManager.Put udp (connection_id (impl_ s)) (Fd x) false (connMgr w)));;
  ack ← GetOpt e (opt_type sockopt_ack_timeout_secs);
  when (ack =? 0) (SetOpt e (opt_type sockopt_ack_timeout_secs) kDefaultAckTimeout);;
  idle ← GetOpt e (opt_type sockopt_idle_timeout_secs);
  when (idle =? 0) (SetOpt e (opt_type sockopt_idle_timeout_secs) kDefaultIdleTimeout);;
  engine e script.

(** [void ProcessUdpPacket(...)] *)
Definition ProcessUdpPacket (e : Z) (script : list callback) : M World unit := engine e script.

(** [ssize_t Writev(iov, iov_count, fin)]: [consumed] is what the stream takes,
    [script] what the session does meanwhile. *)
Definition Writev (st consumed : Z) (script : list callback) : M World Z :=
  x ← entry_of st;
  if negb (error (event x) =? 0) then fail (error (event x))
  else
    stream ← GetQuartcStream st;
    match stream with
    | None => fail EBADF
    | Some (e, _) =>
        engine e script;;
        if consumed =? 0 then fail EAGAIN else set_errno 0;; mret consumed
    end.

(** [int Shutdown(int how)]: any other value of [how] does nothing. *)
Definition Shutdown (st how : Z) (script : list callback) : M World Z :=
  stream ← GetQuartcStream st;
  match stream with
  | None => fail EBADF
  | Some (e, _) =>
      when ((how =? SHUT_RD) || (how =? SHUT_WR) || (how =? SHUT_RDWR)) (engine e script);;
      mret 0
  end.

(** [int QuicStreamEntry::Close()] *)
Definition CloseStream (st : Z) : M World Z :=
  stream ← GetQuartcStream st;
  match stream with
  | Some (e, sid) => CloseStreamInner e sid
  | None => mret tt
  end;;
  ClearWaitingsByClose st;;
  mret 0.

(** [GetSockName] and [GetPeerName] of a stream go to its socket. *)
Definition stream_GetSockName (st : Z) : M World Z :=
  s ← stream_of st;
  w ← get;
  match entries w !! socketEntry_ s with
  | None => fail EBADF
  | Some _ => GetSockName (socketEntry_ s)
  end.

Definition stream_GetPeerName (st : Z) (fam : AddressFamily) (addrlen : Z) : M World (Z * Z) :=
  s ← stream_of st;
  w ← get;
  match entries w !! socketEntry_ s with
  | None => r ← fail EBADF; mret (r, addrlen)
  | Some _ => GetPeerName fam addrlen
  end.

End Socket.
