(* ===== verification/Api.v ===== *)
(** The POSIX-like interface (src/src/quic_socket.cpp), the receive loop of
    [QuicEpollerEntry::Wait] (src/src/epoller_entry.cpp) and the header parser
    that finds the connection of a datagram (src/src/header_parser.cpp). *)

From S2P Require Import Prelude FdTable ConnectionManager Options TaskRunner Alarm World.
From S2P Require Import Epoller Socket.

(** ** Header parser *)

(** What [QuicFramer::ProcessPacket] reports to its visitor before it stops: the
    connection id of the public header, an error, or neither. *)
Inductive framer_event : Type :=
| PublicHeader (connection_id : Z)
| FramerError
| FramerSilent.

Section HeaderParser.
(* the two framers of the parser, run on a datagram *)
Variables serverFramer_ clientFramer_ : list Z -> framer_event.

(** [QuicConnectionId ParseHeader(const char* data, size_t len)] with the
    callbacks [OnUnauthenticatedPublicHeader] and [OnError]. *)
Definition ParseHeader (packet : list Z) : Z :=
  match serverFramer_ packet with
  | PublicHeader id => id
  | FramerError =>
      match clientFramer_ packet with
      | PublicHeader id => id
      | FramerError | FramerSilent => INVALID_QUIC_CONNECTION_ID
      end
  | FramerSilent => INVALID_QUIC_CONNECTION_ID
  end.
End HeaderParser.

Section Api.
Context `{Iteration}.

(** ** Lifetime

    The last owner of an entry is [FdManager], an accept queue or a local
    variable of the call in progress; a call drops the entries nobody holds any
    more when it returns. *)

Definition queue_of (x : Entry) : list Z :=
  match body x with
  | Sock s => acceptSockets_ s ++ acceptStreams_ s
  | Strm _ => []
  end.

Definition queued (w : World) (e : Z) : bool :=
  bool_decide (e ∈ (map_to_list (entries w)).*2 ≫= queue_of).

Definition held (w : World) (e : Z) : bool :=
  bool_decide (e ∈ (map_to_list (fdManager w)).*2) || queued w e.

(** [~QuicSocketEntry()], [~QuicStreamEntry()]: the alarm of the visitor takes
    its task back. *)
Definition destroy_entry (e : Z) : M World unit :=
  x ← entry_of e;
  w ← get;
  (match body x with
   | Sock _ => on_visitor e (zoom Visitor.alarm_lens (Alarm.CancelImpl (IsInTaskRunnerThread w)))
   | Strm _ => mret tt
   end);;
  modify (fun w => set_entries w (delete e (entries w)) (nextEntry w)).

Definition release : M World unit :=
  w ← get;
  for_each (filter (fun kv => negb (held w kv.1) = true) (iterate (entries w)))
           (fun kv => destroy_entry kv.1).

(** The body of a call, then its local variables go. *)
Definition call {A} (m : M World A) : M World A := a ← m; release;; mret a.

(** ** Lookup of the argument *)

Definition Get (fd : Z) : M World (option Z) := w ← get; mret (FdManager.Get fd (fdManager w)).

(** [if (!entry || entry->Category() != cat) { errno = EBADF; return -1; }] *)
Definition with_category (cat : EntryCategory) (fd : Z) (k : Z -> M World Z) : M World Z :=
  e ← Get fd;
  match e with
  | None => fail EBADF
  | Some e =>
      x ← entry_of e;
      if decide (Category x = cat) then k e else fail EBADF
  end.

Definition fd_of (e : Z) : M World Z := x ← entry_of e; mret (Fd x).

(** ** Sockets *)

Definition QuicCreateSocket : M World Z :=
  call (e ← NewQuicSocketEntry false INVALID_QUIC_CONNECTION_ID; fd_of e).

Definition QuicCloseSocket (sock : Z) : M World Z := call
  (with_category Category_Socket sock (fun e =>
     _ ← CloseSocket e;
     DeleteEntry e;;
     mret 0)).

(** [int GetQuicError(fd, &sysError, &quicError, &bFromRemote)] *)
Definition GetQuicError (fd : Z) : M World (Z * option (Z * Z * Z)) :=
  e ← Get fd;
  match e with
  | None => r ← fail EBADF; mret (r, None)
  | Some e =>
      x ← entry_of e;
      let v := event x in
      mret (0, Some (error v, quicErrorCode v, if closeByPeer v then 1 else 0))
  end.

Definition QuicBind (sock : Z) : M World Z :=
  call (with_category Category_Socket sock Bind).

Definition QuicBindUdp (sock udpFd : Z) : M World Z :=
  call (with_category Category_Socket sock (fun e => BindUdp e udpFd)).

Definition QuicListen (sock backlog : Z) : M World Z := mret 0.

Definition QuicConnect (sock address addrlen : Z) (script : list callback) : M World Z :=
  call (with_category Category_Socket sock (fun e => Connect e address addrlen script)).

(** [bool IsConnected(QuicSocket sock)]: the error branch returns [-1] as a
    [bool]. *)
Definition api_IsConnected (sock : Z) : M World bool :=
  e ← Get sock;
  match e with
  | None => _ ← fail EBADF; mret true
  | Some e =>
      x ← entry_of e;
      match body x with
      | Sock s => mret (IsConnected s)
      | Strm _ => _ ← fail EBADF; mret true
      end
  end.

Definition GetCategory (fd : Z) : M World EntryCategory :=
  e ← Get fd;
  match e with
  | None => mret Category_Invalid
  | Some e => x ← entry_of e; mret (Category x)
  end.

(** A call that returns the descriptor of an entry, or [-1]. *)
Definition fd_or_error (m : M World (option Z)) : M World Z :=
  r ← m;
  match r with None => mret (-1) | Some e => fd_of e end.

Definition QuicSocketAccept (listenSock : Z) : M World Z :=
  call (with_category Category_Socket listenSock (fun e => fd_or_error (AcceptSocket e))).

Definition QuicStreamAccept (sock : Z) : M World Z :=
  call (with_category Category_Socket sock (fun e => fd_or_error (AcceptStream e))).

Definition QuicCreateStream (sock : Z) : M World Z :=
  call (with_category Category_Socket sock (fun e => fd_or_error (CreateStream e))).

(** [uint32_t QuicGetStreamId(QuicStream stream)] *)
Definition QuicGetStreamId (stream : Z) : M World Z :=
  r ← with_category Category_Stream stream (fun e => s ← stream_of e; mret (streamId_ s));
  mret (uint32 r).

(** ** Streams *)

Definition QuicCloseStream (stream : Z) : M World Z := call
  (with_category Category_Stream stream (fun st =>
     _ ← CloseStream st;
     DeleteEntry st;;
     mret 0)).

Definition QuicStreamShutdown (stream how : Z) (script : list callback) : M World Z :=
  call (with_category Category_Stream stream (fun st => Shutdown st how script)).

Definition QuicWritev (stream consumed : Z) (script : list callback) : M World Z :=
  call (with_category Category_Stream stream (fun st => Writev st consumed script)).

(** [ssize_t QuicReadv(stream, iov, iov_count)]: the pieces copied are the
    second component. *)
Definition QuicReadv (stream : Z) (iov : list Z) : M World (Z * list (list Z)) :=
  e ← Get stream;
  match e with
  | None => r ← fail EBADF; mret (r, [])
  | Some e =>
      x ← entry_of e;
      if decide (Category x = Category_Stream) then Readv e iov
      else r ← fail EBADF; mret (r, [])
  end.

Definition QuicRead (stream length : Z) : M World (Z * list (list Z)) :=
  QuicReadv stream [length].

(** ** Options and names *)

Definition SetQuicSocketOpt (sock type value : Z) : M World Z :=
  call (with_category Category_Socket sock (fun e =>
    SetOpt e type value;; set_errno 0;; mret 0)).

Definition GetQuicSocketOpt (sock type : Z) : M World (Z * option Z) :=
  e ← Get sock;
  match e with
  | None => r ← fail EBADF; mret (r, None)
  | Some e =>
      x ← entry_of e;
      if decide (Category x = Category_Socket) then
        v ← GetOpt e type; set_errno 0;; mret (0, Some v)
      else r ← fail EBADF; mret (r, None)
  end.

Definition QuicGetSockName (fd : Z) : M World Z :=
  e ← Get fd;
  match e with
  | None => fail EBADF
  | Some e =>
      x ← entry_of e;
      set_errno EBADF;;
      match body x with
      | Sock _ => GetSockName e
      | Strm _ => stream_GetSockName e
      end
  end.

Definition QuicGetPeerName (fd : Z) (fam : AddressFamily) (addrlen : Z) : M World (Z * Z) :=
  e ← Get fd;
  match e with
  | None => r ← fail EBADF; mret (r, addrlen)
  | Some e =>
      x ← entry_of e;
      set_errno EBADF;;
      match body x with
      | Sock _ => GetPeerName fam addrlen
      | Strm _ => stream_GetPeerName e fam addrlen
      end
  end.

Definition QuicNativeUdpSocket (sock : Z) : M World Z :=
  e ← Get sock;
  match e with
  | None => mret (-1)
  | Some e =>
      x ← entry_of e;
      match body x with
      | Sock s => mret (default (-1) (udpSocket_ s))
      | Strm _ => mret (-1)
      end
  end.

(** [uint64_t GetQuicConnectionId(QuicSocket sock)] *)
Definition GetQuicConnectionId (sock : Z) : M World Z :=
  e ← Get sock;
  match e with
  | None => mret (uint64 (-1))
  | Some e =>
      x ← entry_of e;
      match body x with
      | Sock s => mret (connection_id (impl_ s))
      | Strm _ => mret (uint64 (-1))
      end
  end.

(** ** Epollers *)

Definition QuicCreateEpoll : M World Z :=
  ep ← NewQuicEpollerEntry;
  ep ← deref ep NullDeref;
  p ← epoller_of ep;
  mret (epfd_ p).

Definition with_epoller (epfd : Z) (k : Z -> M World Z) : M World Z :=
  w ← get;
  match FdManager.Get epfd (epManager w) with
  | None => fail EBADF
  | Some ep => k ep
  end.

(** The manager held the last reference: the object goes with it. *)
Definition QuicCloseEpoller (epfd : Z) : M World Z :=
  with_epoller epfd (fun ep =>
    DeleteQuicEpollerEntry ep;;
    destroy_epoller ep;;
    mret 0).

Definition QuicEpollCtl (epfd op quicFd ev dt : Z) : M World Z :=
  with_epoller epfd (fun ep =>
    if op =? EPOLL_CTL_ADD then Add ep quicFd ev dt
    else if op =? EPOLL_CTL_MOD then Mod ep quicFd ev dt
    else if op =? EPOLL_CTL_DEL then Del ep quicFd
    else fail EINVAL).

(** ** Receiving *)

(** A datagram as [recvfrom] returned it, with the connection id the parser
    found and what the session will make of it. *)
Record Datagram : Type := {
  dg_connectionId : Z;
  dg_peer : Z;
  dg_handshake : list callback;    (* during OnSyn of a new connection *)
  dg_script : list callback        (* during ProcessUdpPacket *)
}.

(** [owner] of the loop over the datagrams of one udp socket. *)
Definition find_owner (owner : option Z) (udpFd : Z) : M World (option Z) :=
  match owner with
  | Some o => mret (Some o)
  | None =>
      w ← get;
      let ownerFd := ConnectionManager.GetOwner udpFd (connMgr w) in
      if ownerFd >=? 0 then
        e ← deref (FdManager.Get ownerFd (fdManager w)) NullDeref;
        x ← entry_of e;
        mret (match body x with Sock _ => Some e | Strm _ => None end)
      else mret None
  end.

(** One round of the [recvfrom] loop after a datagram was read. *)
Definition dispatch (udpFd : Z) (owner : option Z) (d : Datagram) : M World (option Z) :=
  if dg_connectionId d =? INVALID_QUIC_CONNECTION_ID then mret owner
  else
    w ← get;
    let quicSocket := ConnectionManager.Get udpFd (dg_connectionId d) (connMgr w) in
    if quicSocket =? -1 then
      owner ← find_owner owner udpFd;
      match owner with
      | None => mret None
      | Some o =>
          e ← NewQuicSocketEntry true (dg_connectionId d);
          OnSyn e o (dg_peer d) (dg_handshake d);;
          ProcessUdpPacket e (dg_script d);;
          mret (Some o)
      end
    else
      e ← deref (FdManager.Get quicSocket (fdManager w)) NullDeref;
      ProcessUdpPacket e (dg_script d);;
      mret owner.

Fixpoint dispatch_all (udpFd : Z) (owner : option Z) (ds : list Datagram) : M World unit :=
  match ds with
  | [] => mret tt
  | d :: ds' => owner ← dispatch udpFd owner d; dispatch_all udpFd owner ds'
  end.

(** What one [epoll_wait] returned: an error other than [EINTR], or the ready
    descriptors with their events and the datagrams that can be read from each. *)
Inductive ready : Type :=
| WaitError (err : Z)
| Ready (l : list (Z * Z * list Datagram)).

(** The loop over [udpEvents_].  [ev.events & EPOLLIN == 0] compares first, so
    the test is [ev.events & 0] and never skips; at most 10240 datagrams are read
    from one socket. *)
Definition receive (ep : Z) (l : list (Z * Z * list Datagram)) : M World unit :=
  p ← epoller_of ep;
  for_each l (fun r =>
    let '(udpFd, ev, ds) := r in
    if udpFd =? socketPair_0 p then mret tt
    else if negb (Z.land ev (if EPOLLIN =? 0 then 1 else 0) =? 0) then mret tt
    else dispatch_all udpFd None (take (Z.to_nat 10240) ds)).

(** [Task::Run()] of the ack-timeout alarm of socket [e]; its delegate is
    [NoAckAlarmDelegate]. *)
Definition run_alarm (e : Z) : M World unit :=
  w ← get;
  _ ← deref (entries w !! e) DeadTask;
  _ ← socket_of e;
  let inrt := IsInTaskRunnerThread w in
  Alarm.Run e inrt (lens_comp (visitor_lens e) Visitor.alarm_lens)
    (Visitor.CheckForNoAckTimeout e inrt (visitor_lens e)
       (fun err => TearDown CloseSocket e err false)).

(** [taskRunner_.RunOnce()] *)
Definition RunOnce (ep : Z) : M World unit :=
  modify (fun w => set_in_runner w true);;
  TaskRunner.RunOnce timers_lens run_alarm ep;;
  modify (fun w => set_in_runner w false).

(** The [for (;;)] loop of [Wait]: the ready list, or an error.  [inputs] is
    what the successive calls of [epoll_wait] return. *)
Fixpoint wait_loop (ep deadline : Z) (inputs : list ready)
    : M World (option (list (Z * Z * list Datagram))) :=
  RunOnce ep;;
  now ← zoom timers_lens TaskRunner.NowMS;
  let timeRemain := if deadline >? now then deadline - now else 0 in
  let onceTimeout := Z.min timeRemain 10 in
  match inputs with
  | [] => crashed NoInput
  | WaitError err :: _ => set_errno err;; mret None
  | Ready (r :: l) :: _ => mret (Some (r :: l))
  | Ready [] :: inputs' =>
      if (onceTimeout =? 0) || (timeRemain =? onceTimeout) then mret (Some [])
      else wait_loop ep deadline inputs'
  end.

(** [int Wait(struct epoll_event *events, int maxevents, int timeout)] *)
Definition Wait (ep maxevents timeout : Z) (inputs : list ready) : M World (Z * list epoll_event) :=
  evs ← Poll ep maxevents;
  match evs with
  | _ :: _ => mret (Z.of_nat (length evs), evs)
  | [] =>
      now ← zoom timers_lens TaskRunner.NowMS;
      r ← wait_loop ep (int64 (now + timeout)) inputs;
      match r with
      | None => mret (-1, [])
      | Some l =>
          update_epoller ep (fun e =>
            {| epfd_ := epfd_ e; fds_ := fds_ e; udps_ := udps_ e; socketPair_0 := socketPair_0 e;
               notifyProtect_ := false; triggered := triggered e |});;
          receive ep l;;
          evs ← Poll ep maxevents;
          mret (Z.of_nat (length evs), evs)
      end
  end.

(** [int QuicEpollWait(epfd, events, maxevents, timeout)] *)
Definition QuicEpollWait (epfd maxevents timeout : Z) (inputs : list ready)
    : M World (Z * list epoll_event) :=
  call (w ← get;
        match FdManager.Get epfd (epManager w) with
        | None => r ← fail EBADF; mret (r, [])
        | Some ep => set_errno 0;; Wait ep maxevents timeout inputs
        end).

End Api.
