(* ===== verification/Wakeup.v ===== *)
(** The wake-up protocol between the threads that raise events and the thread
    in [QuicEpollWait].  An event sets bits in a [quic_epoll_event] and calls
    [Notify] (src/src/epoller_entry.cpp), which coalesces calls with
    [notifyProtect_] and wakes the waiter by re-arming an edge-triggered
    descriptor; the waiter clears the flag after [epoll_wait] and then polls the
    bits.  Every atomic access is a step, so the theorem covers the windows
    between the flag, the [epoll_ctl] and the poll. *)

From S2P Require Import Prelude.

(** Where a notifying thread is: nothing to do, about to [test_and_set], about to
    call [epoll_ctl]. *)
Inductive notifier : Type := NIdle | NSet | NArm.

(** Where the waiting thread is inside [Wait]. *)
Inductive waiter : Type :=
| WOutside          (* not in Wait, or just entered *)
| WFirstPoll        (* about to Poll for the first time *)
| WBlocked          (* in epoll_wait *)
| WWoken            (* epoll_wait returned, the flag not cleared yet *)
| WCleared.         (* flag cleared: the datagrams, then the last Poll *)

(** One epoller: is there an unreported event, the coalescing flag, is the
    descriptor armed in the kernel, and the threads. *)
Record Wakeup : Type := {
  pending : bool;
  notifyProtect : bool;
  armed : bool;
  notifiers : gmap nat notifier;
  wait_pc : waiter
}.

Definition upd p np a ns pc : Wakeup :=
  {| pending := p; notifyProtect := np; armed := a; notifiers := ns; wait_pc := pc |}.

Definition pc_of (w : Wakeup) (i : nat) : notifier := default NIdle (notifiers w !! i).

Inductive wstep : Wakeup -> Wakeup -> Prop :=
(* Event::TriggerWithoutLock: the revents bit, then trigger->Trigger -> Notify *)
| ws_raise w i : pc_of w i = NIdle ->
    wstep w (upd true (notifyProtect w) (armed w) (<[i := NSet]> (notifiers w)) (wait_pc w))
(* the timer thread of the epoller calls Notify with no event *)
| ws_tick w i : pc_of w i = NIdle ->
    wstep w (upd (pending w) (notifyProtect w) (armed w) (<[i := NSet]> (notifiers w)) (wait_pc w))
(* Notify: test_and_set finds the flag set *)
| ws_fake w i : pc_of w i = NSet -> notifyProtect w = true ->
    wstep w (upd (pending w) true (armed w) (<[i := NIdle]> (notifiers w)) (wait_pc w))
(* Notify: test_and_set takes the flag *)
| ws_set w i : pc_of w i = NSet -> notifyProtect w = false ->
    wstep w (upd (pending w) true (armed w) (<[i := NArm]> (notifiers w)) (wait_pc w))
(* Notify: epoll_ctl(MOD) re-arms the descriptor *)
| ws_arm w i : pc_of w i = NArm ->
    wstep w (upd (pending w) (notifyProtect w) true (<[i := NIdle]> (notifiers w)) (wait_pc w))
(* Wait is called *)
| ws_enter w : wait_pc w = WOutside ->
    wstep w (upd (pending w) (notifyProtect w) (armed w) (notifiers w) WFirstPoll)
(* the first Poll reports and Wait returns without touching the flag; with more
   ready cells than [maxevents] some are left *)
| ws_poll_hit w left : wait_pc w = WFirstPoll -> pending w = true ->
    wstep w (upd left (notifyProtect w) (armed w) (notifiers w) WOutside)
| ws_poll_miss w : wait_pc w = WFirstPoll -> pending w = false ->
    wstep w (upd false (notifyProtect w) (armed w) (notifiers w) WBlocked)
(* epoll_wait returns the armed descriptor and consumes the edge *)
| ws_wake w : wait_pc w = WBlocked -> armed w = true ->
    wstep w (upd (pending w) (notifyProtect w) false (notifiers w) WWoken)
(* epoll_wait returns for a datagram, a timeout or an interruption *)
| ws_other w : wait_pc w = WBlocked ->
    wstep w (upd (pending w) (notifyProtect w) (armed w) (notifiers w) WWoken)
(* epoll_wait failed: Wait returns, the flag stays *)
| ws_error w : wait_pc w = WBlocked ->
    wstep w (upd (pending w) (notifyProtect w) (armed w) (notifiers w) WOutside)
(* notifyProtect_.clear() *)
| ws_clear w : wait_pc w = WWoken ->
    wstep w (upd (pending w) false (armed w) (notifiers w) WCleared)
(* the last Poll, which may leave some as well *)
| ws_poll w left : wait_pc w = WCleared -> (left = true -> pending w = true) ->
    wstep w (upd left (notifyProtect w) (armed w) (notifiers w) WOutside).

(** [epoll_ctl(ADD)] of the constructor has armed the descriptor once. *)
Definition wakeup_init : Wakeup := upd false false true ∅ WOutside.

Inductive wreachable : Wakeup -> Prop :=
| wr_init : wreachable wakeup_init
| wr_step w w' : wreachable w -> wstep w w' -> wreachable w'.

(** A thread is between taking the flag and arming the descriptor. *)
Definition arming (w : Wakeup) : Prop := exists i, pc_of w i = NArm.
(** A thread has raised its event and is about to take the flag. *)
Definition setting (w : Wakeup) : Prop := exists i, pc_of w i = NSet.

(** A set flag means that a wake-up is in the kernel or on its way, or that the
    waiter is already up and will poll after clearing it; an unreported event has
    a wake-up, a thread still on its way to [Notify], or a waiter that will poll
    before it sleeps. *)
Record winv (w : Wakeup) : Prop := {
  flag_covered : notifyProtect w = true -> armed w = true \/ arming w \/ wait_pc w = WWoken;
  pending_covered : pending w = true ->
    armed w = true \/ arming w \/ setting w \/ wait_pc w <> WBlocked
}.

Lemma pc_insert w i n p np a pc j :
  pc_of (upd p np a (<[i := n]> (notifiers w)) pc) j = if decide (i = j) then n else pc_of w j.
Proof. unfold pc_of. simpl. rewrite lookup_insert. by case_decide. Qed.

Lemma pc_keep w p np a pc j : pc_of (upd p np a (notifiers w) pc) j = pc_of w j.
Proof. reflexivity. Qed.

(** Setting thread [i] to [n] keeps the other threads where they are. *)
Lemma exists_pc w i n p np a pc m :
  pc_of w i <> m -> (exists j, pc_of w j = m) ->
  exists j, pc_of (upd p np a (<[i := n]> (notifiers w)) pc) j = m.
Proof.
  intros Hi [j Hj]. exists j. rewrite pc_insert. case_decide; [congruence|done].
Qed.

Lemma pc_now w i n p np a pc :
  exists j, pc_of (upd p np a (<[i := n]> (notifiers w)) pc) j = n.
Proof. exists i. by rewrite pc_insert, decide_True. Qed.

(** What covers a flag or an event after a step that moves one notifier, or
    none. *)
Lemma arming_move w i n p np a pc :
  pc_of w i <> NArm -> arming w -> arming (upd p np a (<[i := n]> (notifiers w)) pc).
Proof. apply exists_pc. Qed.

Lemma setting_move w i n p np a pc :
  pc_of w i <> NSet -> setting w -> setting (upd p np a (<[i := n]> (notifiers w)) pc).
Proof. apply exists_pc. Qed.

Lemma winv_notifier w i n p np a :
  winv w -> pc_of w i <> NArm -> pc_of w i <> NSet ->
  (np = true -> notifyProtect w = true) -> (p = true -> pending w = true \/ n = NSet) ->
  a = armed w -> winv (upd p np a (<[i := n]> (notifiers w)) (wait_pc w)).
Proof.
  intros [Hf Hp] Ha Hs Hnp Hpn ->. split; simpl.
  - intros [?|[?|?]]%Hnp%Hf; auto using arming_move.
  - intros [Hx| ->]%Hpn; [|right; right; left; apply pc_now].
    destruct (Hp Hx) as [?|[?|[?|?]]]; auto 10 using arming_move, setting_move.
Qed.

Lemma winv_step w w' : winv w -> wstep w w' -> winv w'.
Proof.
  intros Hi Hs. pose proof Hi as [Hf Hp].
  destruct Hs as [w i Hn|w i Hn|w i Hn Hx|w i Hn Hx|w i Hn|w Hw|w left Hw Hx|w Hw Hx|w Hw Hx|w Hw
                 |w Hw|w Hw|w left Hw Hx].
  - by apply winv_notifier; [..|auto|]; rewrite ?Hn.
  - by apply winv_notifier; [..|auto|]; rewrite ?Hn.
  - assert (armed w = true \/ arming (upd (pending w) true (armed w)
              (<[i:=NIdle]> (notifiers w)) (wait_pc w)) \/ wait_pc w = WWoken) as Hc.
    { destruct (Hf Hx) as [?|[?|?]]; auto. right; left.
      apply arming_move; [congruence|done]. }
    split; simpl; [done|]. intros _. destruct Hc as [?|[?|Hw]]; auto. rewrite Hw. auto.
  - split; simpl; intros _; right; left; apply pc_now.
  - split; simpl; auto.
  - split; simpl; [intros [?|[?|?]]%Hf; try congruence; auto|auto 10].
  - split; simpl; [intros [?|[?|?]]%Hf; try congruence; auto|auto 10].
  - split; simpl; [intros [?|[?|?]]%Hf; try congruence; auto|done].
  - split; simpl; auto 10.
  - split; simpl; auto 10.
  - split; simpl; [intros [?|[?|?]]%Hf; try congruence; auto|auto 10].
  - split; simpl; [done|]. auto 10.
  - split; simpl; [intros [?|[?|?]]%Hf; try congruence; auto|auto 10].
Qed.

Lemma winv_reachable w : wreachable w -> winv w.
Proof. induction 1; [split; by auto|by eapply winv_step]. Qed.

(** Until the waiter is up the wake-up stays. *)
Lemma stays_armed w w' : wstep w w' -> wait_pc w = WBlocked -> wait_pc w' = WBlocked ->
  armed w = true -> armed w' = true.
Proof. destruct 1; simpl; congruence. Qed.

(** C22: When an epoll_wait sleeps although an event is pending and every notifier has
    finished, its wake-up descriptor is armed and stays armed, whatever the notifiers do,
    until the waiter is up; three steps of the waiter then report the event. *)
Theorem no_lost_wakeup (w : Wakeup) :
  wreachable w -> pending w = true -> wait_pc w = WBlocked ->
  (forall i, pc_of w i = NIdle) ->
  (forall w', rtc (fun a b => wstep a b /\ wait_pc b = WBlocked) w w' -> armed w' = true) /\
  exists w1 w2 w3,
    wstep w w1 /\ wstep w1 w2 /\ wstep w2 w3 /\ pending w3 = false /\ wait_pc w3 = WOutside.
Proof.
  intros Hr Hp Hb Hi. assert (armed w = true) as Ha.
  { destruct (pending_covered w (winv_reachable w Hr) Hp) as [Ha|[[i E]|[[i E]|E]]];
      [done|rewrite Hi in E; discriminate..|done]. }
  split.
  - clear Hr Hp Hi. intros w' Hw. induction Hw as [|w x w' [Hs Hx] _ IH]; [done|].
    apply IH; [done|]. by apply (stays_armed w x).
  - eexists _, _, _.
    split; [by apply ws_wake|]. split; [by apply ws_clear|]. split; [by apply (ws_poll _ false)|]. done.
Qed.

(** An event raised while the waiter sleeps, its wake-up armed. *)
Definition asleep_with_event : Wakeup := upd true true true {[ 0%nat := NIdle ]} WBlocked.

Lemma asleep_with_event_reachable : wreachable asleep_with_event.
Proof.
  pose (w0 := wakeup_init).
  pose (w1 := upd false false true ∅ WFirstPoll).
  pose (w2 := upd false false true ∅ WBlocked).
  pose (w3 := upd true false true {[ 0%nat := NSet ]} WBlocked).
  pose (w4 := upd true true true {[ 0%nat := NArm ]} WBlocked).
  assert (wreachable w1) by (eapply wr_step; [apply wr_init|by apply ws_enter]).
  assert (wreachable w2) by (eapply wr_step; [eassumption|by apply (ws_poll_miss w1)]).
  assert (wreachable w3) by (eapply wr_step; [eassumption|by apply (ws_raise w2 0)]).
  assert (wreachable w4) by (eapply wr_step; [eassumption|by apply (ws_set w3 0)]).
  eapply wr_step; [eassumption|by apply (ws_arm w4 0)].
Qed.

Lemma no_lost_wakeup_witness :
  (forall w', rtc (fun a b => wstep a b /\ wait_pc b = WBlocked) asleep_with_event w' -> armed w' = true) /\
  exists w1 w2 w3,
    wstep asleep_with_event w1 /\ wstep w1 w2 /\ wstep w2 w3 /\
    pending w3 = false /\ wait_pc w3 = WOutside.
Proof.
  apply (no_lost_wakeup asleep_with_event);
    [apply asleep_with_event_reachable|reflexivity|reflexivity|].
  intros [|i]; [reflexivity|]. unfold pc_of. simpl. rewrite lookup_singleton_ne; [reflexivity|lia].
Defined.
