(* ===== verification/System.v ===== *)
(** The library as a whole: the calls of its interface as data, their runs from
    the initial state, and concrete runs that exercise the layers together. *)

From S2P Require Import Prelude FdTable ConnectionManager Options TaskRunner Alarm World.
From S2P Require Import Epoller Socket Api.

Section System.
Context `{Iteration}.

(** One call of the interface, with what the kernel and the engine do during it. *)
Inductive op : Type :=
| OpCreateSocket
| OpCloseSocket (sock : Z)
| OpBind (sock : Z)
| OpBindUdp (sock udpFd : Z)
| OpConnect (sock address addrlen : Z) (script : list callback)
| OpSocketAccept (sock : Z)
| OpStreamAccept (sock : Z)
| OpCreateStream (sock : Z)
| OpCloseStream (stream : Z)
| OpStreamShutdown (stream how : Z) (script : list callback)
| OpWritev (stream consumed : Z) (script : list callback)
| OpReadv (stream : Z) (iov : list Z)
| OpSetOpt (sock type value : Z)
| OpCreateEpoll
| OpCloseEpoller (epfd : Z)
| OpEpollCtl (epfd opcode fd ev dt : Z)
| OpEpollWait (epfd maxevents timeout : Z) (inputs : list ready).

Definition exec (o : op) : M World Z :=
  match o with
  | OpCreateSocket => QuicCreateSocket
  | OpCloseSocket s => QuicCloseSocket s
  | OpBind s => QuicBind s
  | OpBindUdp s u => QuicBindUdp s u
  | OpConnect s a l sc => QuicConnect s a l sc
  | OpSocketAccept s => QuicSocketAccept s
  | OpStreamAccept s => QuicStreamAccept s
  | OpCreateStream s => QuicCreateStream s
  | OpCloseStream s => QuicCloseStream s
  | OpStreamShutdown s h sc => QuicStreamShutdown s h sc
  | OpWritev s c sc => QuicWritev s c sc
  | OpReadv s iov => r ← QuicReadv s iov; mret r.1
  | OpSetOpt s t v => SetQuicSocketOpt s t v
  | OpCreateEpoll => QuicCreateEpoll
  | OpCloseEpoller ep => QuicCloseEpoller ep
  | OpEpollCtl ep o fd ev dt => QuicEpollCtl ep o fd ev dt
  | OpEpollWait ep n t i => r ← QuicEpollWait ep n t i; mret r.1
  end.

Fixpoint run_ops (ops : list op) : M World (list Z) :=
  match ops with
  | [] => mret []
  | o :: ops' => r ← exec o; rs ← run_ops ops'; mret (r :: rs)
  end.

End System.

(** The state before the first call. *)
Definition initial (s : Sys) (c : Clock) : World :=
  {| fdFactory := FdFactory.init; fdManager := ∅; entries := ∅; nextEntry := 0;
     connMgr := ConnectionManager.init; epManager := ∅; epollers := ∅; nextEpoller := 0;
     qevents := ∅; nextQEvent := 0;
     timers := {| TaskRunner.store := ∅; TaskRunner.tasks_ := ∅; TaskRunner.StaticTaskId := 0;
                  TaskRunner.StaticStorageId := 0; TaskRunner.clock := c |};
     IsInTaskRunnerThread := false; interest := ∅; sys := s; errno := 0 |}.

(** Every system call succeeds: 40 is the first udp socket, 60 the epoll
    descriptor, 50 its socket pair; a clock that ticks one millisecond per
    reading. *)
Definition quiet_sys : Sys :=
  {| results := fun n => (match n with 1%nat => 40 | 7%nat => 60 | 9%nat => 50 | _ => 0 end, 0);
     calls := 0 |}.
Definition ms_clock : Clock := {| readings := fun n => Z.of_nat (S n) * 1000; ticks := 0 |}.
Definition world0 : World := initial quiet_sys ms_clock.

(** A server: a listening socket in an epoller, one client that connects, opens
    a stream and sends three bytes; the server accepts both and reads. *)
Definition client_hello : Datagram :=
  {| dg_connectionId := 77; dg_peer := 5; dg_handshake := [];
     dg_script := [CbHandshakeComplete; CbIncomingStream 5; CbReceived 5 [10; 20; 30]] |}.

Definition server_run : list op :=
  [OpCreateSocket; OpBind 1; OpCreateEpoll; OpEpollCtl 60 EPOLL_CTL_ADD 1 EPOLLIN 1;
   OpEpollWait 60 10 100 [Ready [(40, EPOLLIN, [client_hello])]];
   OpSocketAccept 1; OpStreamAccept 2; OpReadv 3 [2; 2]].
