(* ===== verification/Safety.v ===== *)
(** Memory safety of the object graph.  [inv] says which pointers between
    entries, epollers and event cells are valid; [safe] is a total-correctness
    judgement on monadic code (the code returns with its postcondition, or faults
    in a way the judgement tolerates, never by using a destroyed object and never
    by exceeding the recursion bound). *)

From S2P Require Import Prelude FdTable ConnectionManager Options TaskRunner Alarm World.
From S2P Require Import Epoller Socket Api.

(** ** Faults *)

(** The two faults the theorems exclude. *)
Definition tolerated (c : crash) : Prop := c <> UseAfterFree /\ c <> OutOfFuel.

(** Code that never faults in an excluded way, whatever its state. *)
Definition mild {S A} (m : M S A) : Prop := forall s c, m s = Crash c -> tolerated c.

Lemma mild_ret {S A} (a : A) : mild (mret a : M S A).
Proof. by intros s c [=]. Qed.

Lemma mild_bind {S A B} (m : M S A) (f : A -> M S B) :
  mild m -> (forall a, mild (f a)) -> mild (m ≫= f).
Proof.
  intros Hm Hf s c. unfold mbind, M_bind. destruct (m s) as [a s'|c'] eqn:E.
  - apply Hf.
  - intros [= <-]. by eapply Hm.
Qed.

Lemma mild_get {S} : mild (@get S).
Proof. by intros s c [=]. Qed.

Lemma mild_modify {S} (f : S -> S) : mild (modify f).
Proof. by intros s c [=]. Qed.

Lemma mild_zoom {S T A} (l : Lens S T) (m : M T A) : mild m -> mild (zoom l m).
Proof.
  intros Hm s c. unfold zoom. destruct (m (view l s)) eqn:E; [done|].
  intros [= <-]. by eapply Hm.
Qed.

Lemma mild_crashed {S A} c : tolerated c -> mild (@crashed S A c).
Proof. by intros Hc s c' [= <-]. Qed.

Lemma mild_deref {S A} (p : option A) c : tolerated c -> mild (deref (S:=S) p c).
Proof. intros Hc s c'. destruct p; simpl; [done|]. by intros [= <-]. Qed.

Lemma mild_when {S} b (m : M S unit) : mild m -> mild (when b m).
Proof. destruct b; [done|]. intros _. apply mild_ret. Qed.

Lemma mild_for_each {S A} (l : list A) (f : A -> M S unit) :
  (forall x, mild (f x)) -> mild (for_each l f).
Proof.
  intros Hf. induction l; [apply mild_ret|]. by apply mild_bind.
Qed.

Create HintDb mild.
#[export] Hint Resolve mild_ret mild_bind mild_get mild_modify mild_zoom mild_crashed mild_deref
  mild_when mild_for_each : mild.
#[export] Hint Extern 1 (tolerated _) => (split; discriminate) : mild.

Ltac mild_tac :=
  repeat first
    [ progress intros
    | apply mild_bind
    | solve [eauto with mild]
    | match goal with
      | |- mild (match ?x with _ => _ end) => destruct x
      | |- mild (if ?x then _ else _) => destruct x
      | |- mild (let '(_, _) := ?x in _) => destruct x
      end
    | apply mild_zoom
    | apply mild_for_each
    | apply mild_when ].

(** The timers and the options fault only in tolerated ways. *)
Lemma mild_NowMS : mild TaskRunner.NowMS.
Proof. by intros t c [=]. Qed.
Lemma mild_Now : mild QuicTime.Now.
Proof. by intros t c [=]. Qed.
Lemma mild_next_storage_id : mild TaskRunner.next_storage_id.
Proof. by intros t c [=]. Qed.
#[export] Hint Resolve mild_NowMS mild_Now mild_next_storage_id : mild.

Lemma mild_Schedule r tsk d c : mild (TaskRunner.Schedule r tsk d c).
Proof. unfold TaskRunner.Schedule. mild_tac. Qed.
#[export] Hint Resolve mild_Schedule : mild.

Lemma mild_Cancel b id : mild (TaskRunner.Cancel b id).
Proof. unfold TaskRunner.Cancel, TaskRunner.Cancel_itr. mild_tac. Qed.
#[export] Hint Resolve mild_Cancel : mild.

Lemma mild_Proxy_Schedule tsk d p : mild (TaskRunner.Proxy_Schedule tsk d p).
Proof. unfold TaskRunner.Proxy_Schedule. mild_tac. Qed.

Lemma mild_Proxy_Cancel b sid p : mild (TaskRunner.Proxy_Cancel b sid p).
Proof. unfold TaskRunner.Proxy_Cancel. mild_tac. Qed.

Lemma mild_link_all r c l : mild (TaskRunner.link_all r c l).
Proof. induction l as [|[sid s] l IH]; simpl; unfold TaskRunner.link_one; mild_tac. Qed.
#[export] Hint Resolve mild_Proxy_Schedule mild_Proxy_Cancel mild_link_all : mild.

Lemma mild_Link r p : mild (TaskRunner.Link r p).
Proof. unfold TaskRunner.Link. mild_tac. Qed.

Lemma mild_Unlink b p : mild (TaskRunner.Unlink b p).
Proof. unfold TaskRunner.Unlink. mild_tac. Qed.

Lemma mild_CollectDue r : mild (TaskRunner.CollectDue r).
Proof. unfold TaskRunner.CollectDue. mild_tac. Qed.
#[export] Hint Resolve mild_Link mild_Unlink mild_CollectDue : mild.

Lemma mild_CancelImpl b : mild (Alarm.CancelImpl b).
Proof. unfold Alarm.CancelImpl, Alarm.set_proxy, Alarm.set_scheduled. mild_tac. Qed.
#[export] Hint Resolve mild_CancelImpl : mild.

Lemma mild_SetImpl e b : mild (Alarm.SetImpl e b).
Proof. unfold Alarm.SetImpl, Alarm.set_proxy, Alarm.set_scheduled. mild_tac. Qed.
#[export] Hint Resolve mild_SetImpl : mild.

Lemma mild_Alarm_Cancel b : mild (Alarm.Cancel b).
Proof. unfold Alarm.Cancel, Alarm.set_deadline. mild_tac. Qed.
#[export] Hint Resolve mild_Alarm_Cancel : mild.

Lemma mild_Update e b d g : mild (Alarm.Update e b d g).
Proof. unfold Alarm.Update, Alarm.UpdateImpl, Alarm.set_deadline. mild_tac. Qed.
#[export] Hint Resolve mild_Update : mild.

Lemma mild_index t : mild (Options.index t).
Proof.
  intros o c. unfold Options.index. destruct (t <? 0); [intros [= <-]; by split|].
  destruct (_ !! _); [done|]. intros [= <-]. by split.
Qed.
#[export] Hint Resolve mild_index : mild.

Lemma mild_GetOption n t : mild (Options.GetOption n t).
Proof. unfold Options.GetOption. mild_tac. Qed.

Lemma mild_SetOption n t v : mild (Options.SetOption n t v).
Proof. unfold Options.SetOption. mild_tac. Qed.
#[export] Hint Resolve mild_GetOption mild_SetOption : mild.

Lemma mild_SetNoAckAlarm e b : mild (Visitor.SetNoAckAlarm e b).
Proof. unfold Visitor.SetNoAckAlarm, Visitor.GetOption. mild_tac. Qed.

Lemma mild_CancelNoAckAlarm b : mild (Visitor.CancelNoAckAlarm b).
Proof. unfold Visitor.CancelNoAckAlarm. mild_tac. Qed.

Lemma mild_OnPacketSent t : mild (Visitor.OnPacketSent t).
Proof. unfold Visitor.OnPacketSent. mild_tac. Qed.

Lemma mild_OnAckFrame : mild Visitor.OnAckFrame.
Proof. unfold Visitor.OnAckFrame. mild_tac. Qed.
#[export] Hint Resolve mild_SetNoAckAlarm mild_CancelNoAckAlarm mild_OnPacketSent
  mild_OnAckFrame : mild.

(** ** The judgement *)

(** The code run from [w] returns with [Q], or faults in a tolerated way. *)
Definition wp {A} (m : M World A) (w : World) (Q : A -> World -> Prop) : Prop :=
  match m w with
  | Ret a w' => Q a w'
  | Crash c => tolerated c
  end.

Lemma wp_ret {A} (a : A) w (Q : A -> World -> Prop) : Q a w -> wp (mret a) w Q.
Proof. done. Qed.

Lemma wp_bind {A B} (m : M World A) (f : A -> M World B) w Q :
  wp m w (fun a w' => wp (f a) w' Q) -> wp (m ≫= f) w Q.
Proof. unfold wp, mbind, M_bind. by destruct (m w). Qed.

Lemma wp_mono {A} (m : M World A) w (Q Q' : A -> World -> Prop) :
  wp m w Q -> (forall a w', Q a w' -> Q' a w') -> wp m w Q'.
Proof. unfold wp. destruct (m w); auto. Qed.

Lemma wp_get w (Q : World -> World -> Prop) : Q w w -> wp get w Q.
Proof. done. Qed.

Lemma wp_modify f w (Q : unit -> World -> Prop) : Q tt (f w) -> wp (modify f) w Q.
Proof. done. Qed.

Lemma wp_crashed {A} c w (Q : A -> World -> Prop) : tolerated c -> wp (crashed c) w Q.
Proof. done. Qed.

Lemma wp_deref {A} (p : option A) c w (Q : A -> World -> Prop) :
  tolerated c -> (forall a, p = Some a -> Q a w) -> wp (deref p c) w Q.
Proof. intros Hc HQ. destruct p; [by apply HQ|done]. Qed.

Lemma wp_deref_some {A} (p : option A) a c w (Q : A -> World -> Prop) :
  p = Some a -> Q a w -> wp (deref p c) w Q.
Proof. by intros ->. Qed.

Lemma wp_when b (m : M World unit) w (Q : unit -> World -> Prop) :
  (b = true -> wp m w Q) -> (b = false -> Q tt w) -> wp (when b m) w Q.
Proof. intros Ht Hf. destruct b; simpl; [by apply Ht|exact (Hf eq_refl)]. Qed.

(** A loop with an invariant [J] over the elements still to come. *)
Lemma wp_for_each {A} (l : list A) (f : A -> M World unit) w (J : World -> Prop) :
  J w -> (forall x w', x ∈ l -> J w' -> wp (f x) w' (fun _ => J)) ->
  wp (for_each l f) w (fun _ => J).
Proof.
  revert w. induction l as [|x l IH]; intros w HJ Hf; [done|]. simpl. apply wp_bind.
  eapply wp_mono; [apply Hf; [by left|done]|]. intros ? w' HJ'. apply IH; [done|].
  intros y w'' Hy. apply Hf. by right.
Qed.

Lemma wp_mild {A} (m : M TaskRunner.Timers A) w (Q : A -> World -> Prop) :
  mild m -> (forall a t, Q a (set_timers w t)) -> wp (zoom timers_lens m) w Q.
Proof.
  intros Hm HQ. unfold wp, zoom. simpl. destruct (m (timers w)) eqn:E; [apply HQ|by eapply Hm].
Qed.


Lemma wp_and {A} (m : M World A) w (Q Q' : A -> World -> Prop) :
  wp m w Q -> wp m w Q' -> wp m w (fun a w' => Q a w' /\ Q' a w').
Proof. unfold wp. by destruct (m w). Qed.

(** A run that returns is safe as well. *)
Lemma total_wp {A} (m : M World A) w (Q Q' : A -> World -> Prop) :
  wp m w Q -> terminates_in (m w) Q' -> terminates_in (m w) (fun a w' => Q a w' /\ Q' a w').
Proof. unfold wp. by destruct (m w). Qed.

(** Excluded faults do not happen. *)
Lemma wp_excluded {A} (m : M World A) w Q c :
  wp m w Q -> m w = Crash c -> c <> UseAfterFree /\ c <> OutOfFuel.
Proof. unfold wp. intros Hw Hc. by rewrite Hc in Hw. Qed.

(** ** Valid pointers *)

Definition is_sock (x : Entry) : bool :=
  match body x with Sock _ => true | Strm _ => false end.

(** [d] is the delegate of an open stream of socket [e]. *)
Definition good_stream (w : World) (e sid d : Z) : Prop :=
  exists xd sd, entries w !! d = Some xd /\ body xd = Strm sd /\
    socketEntry_ sd = e /\ streamId_ sd = sid /\ Fd xd <> -1.

(** [X] is the set of sockets in the middle of closing: marked closed, waiters
    not cleared yet. *)
Record inv (X : gset Z) (w : World) : Prop := {
  (* descriptors *)
  i_factory : FdFactory.wf (fdFactory w) (dom (fdManager w));
  i_table : forall fd e, fdManager w !! fd = Some e ->
    exists x, entries w !! e = Some x /\ Fd x = fd;
  i_fd : forall e x, entries w !! e = Some x -> Fd x = -1 \/ fdManager w !! Fd x = Some e;
  i_next : forall e x, entries w !! e = Some x -> e < nextEntry w;
  (* waiters and cells *)
  i_wait : forall e x ep q, entries w !! e = Some x -> waitings_ (event x) !! ep = Some q ->
    exists p fd, epollers w !! ep = Some p /\ fds_ p !! fd = Some (e, q) /\ (Fd x = fd \/ e ∈ X);
  i_cell : forall ep p fd e q, epollers w !! ep = Some p -> fds_ p !! fd = Some (e, q) ->
    is_Some (qevents w !! q) /\ 1 <= fd;
  i_uniq : forall ep p fd e ep' p' fd' e' q,
    epollers w !! ep = Some p -> fds_ p !! fd = Some (e, q) ->
    epollers w !! ep' = Some p' -> fds_ p' !! fd' = Some (e', q) -> ep = ep' /\ fd = fd';
  i_cellnext : forall q, is_Some (qevents w !! q) -> q < nextQEvent w;
  i_epnext : forall ep, is_Some (epollers w !! ep) -> ep < nextEpoller w;
  i_epman : forall fd ep, epManager w !! fd = Some ep ->
    exists p, epollers w !! ep = Some p /\ epfd_ p = fd;
  (* closing *)
  i_closed : forall e x, entries w !! e = Some x -> closeTrigger_ (event x) = true ->
    waitings_ (event x) = ∅;
  i_state : forall e x s, entries w !! e = Some x -> body x = Sock s ->
    socketState_ s = QuicSocketState_Closed -> closeTrigger_ (event x) = true \/ e ∈ X;
  (* streams and queues *)
  i_streams : forall e x s sid d, entries w !! e = Some x -> body x = Sock s ->
    (sid, d) ∈ dynamic_stream_map_ (impl_ s) -> good_stream w e sid d;
  i_queue : forall e x a, entries w !! e = Some x -> a ∈ queue_of x -> is_Some (entries w !! a)
}.

(** What a call keeps: the entries that exist, their class and that their waiters
    are cleared; the epollers. *)
Definition ext (w w' : World) : Prop :=
  (forall e x, entries w !! e = Some x ->
    exists x', entries w' !! e = Some x' /\ is_sock x' = is_sock x /\
      (closeTrigger_ (event x) = true -> closeTrigger_ (event x') = true)) /\
  (forall ep, is_Some (epollers w !! ep) -> is_Some (epollers w' !! ep)).

#[export] Instance ext_preorder : PreOrder ext.
Proof.
  split; [intros w; split; [|done]; intros e x Hx; by exists x|].
  intros w1 w2 w3 [H1 G1] [H2 G2]. split; [|auto]. intros e x (x2 & Hx2 & E2 & C2)%H1.
  destruct (H2 e x2 Hx2) as (x3 & Hx3 & E3 & C3). exists x3. split; [done|].
  split; [congruence|auto].
Qed.

Lemma ext_alive w w' e : ext w w' -> is_Some (entries w !! e) -> is_Some (entries w' !! e).
Proof. intros [Hx _] [x Hx']. destruct (Hx e x Hx') as (x' & -> & _). eauto. Qed.

Definition ep_key (p : Epoller) : gmap Z (Z * Z) * Z := (fds_ p, epfd_ p).

(** What stays as it is when only event bits, flags and the kernel change. *)
Record quiet (w w' : World) : Prop := {
  q_fds : fdFactory w' = fdFactory w /\ fdManager w' = fdManager w;
  q_entries : entries w' = entries w /\ nextEntry w' = nextEntry w;
  q_epollers : forall ep, ep_key <$> epollers w' !! ep = ep_key <$> epollers w !! ep;
  q_epman : epManager w' = epManager w /\ nextEpoller w' = nextEpoller w;
  q_cells : (forall q, is_Some (qevents w' !! q) <-> is_Some (qevents w !! q)) /\
            nextQEvent w' = nextQEvent w
}.

#[export] Instance quiet_preorder : PreOrder quiet.
Proof.
  split; [by split|]. intros w1 w2 w3 [[? ?] [? ?] Ha [? ?] [Hb ?]] [[? ?] [? ?] Ga [? ?] [Gb ?]].
  split; try (split; congruence).
  - intros ep. by rewrite Ga, Ha.
  - split; [|congruence]. intros q. by rewrite Gb, Hb.
Qed.

Lemma quiet_epoller w w' ep p' :
  quiet w w' -> epollers w' !! ep = Some p' ->
  exists p, epollers w !! ep = Some p /\ fds_ p = fds_ p'.
Proof.
  intros [_ _ Hq _ _] Hp. specialize (Hq ep). rewrite Hp in Hq. simpl in Hq.
  destruct (epollers w !! ep) as [p|]; [|done]. injection Hq as Hq _. by exists p.
Qed.

Lemma quiet_sym_key w w' ep p :
  quiet w w' -> epollers w !! ep = Some p ->
  exists p', epollers w' !! ep = Some p' /\ fds_ p' = fds_ p /\ epfd_ p' = epfd_ p.
Proof.
  intros [_ _ Hq _ _] Hp. specialize (Hq ep). rewrite Hp in Hq. simpl in Hq.
  destruct (epollers w' !! ep) as [p'|]; [|done]. injection Hq as Hq Hq'. by exists p'.
Qed.

Lemma quiet_sym_epoller w w' ep p :
  quiet w w' -> epollers w !! ep = Some p ->
  exists p', epollers w' !! ep = Some p' /\ fds_ p' = fds_ p.
Proof. intros Hq Hp. destruct (quiet_sym_key w w' ep p Hq Hp) as (p' & ? & ? & _). eauto. Qed.

Lemma quiet_ext w w' : quiet w w' -> ext w w'.
Proof.
  intros Hq. pose proof Hq as [_ [E _] _ _ _]. split.
  - intros e x Hx. exists x. by rewrite E.
  - intros ep [p Hp]. destruct (quiet_sym_epoller w w' ep p Hq Hp) as (p' & -> & _). eauto.
Qed.

Lemma inv_quiet X w w' : inv X w -> quiet w w' -> inv X w'.
Proof.
  intros Hi Hq. pose proof Hq as [[E1 E2] [E3 E4] _ [E5 E6] [E7 E8]].
  split; rewrite ?E1, ?E2, ?E3, ?E4, ?E5, ?E6, ?E8; try apply Hi.
  - intros e x ep q Hx Hw. destruct (i_wait X w Hi e x ep q Hx Hw) as (p & fd & Hp & Hf & Hr).
    destruct (quiet_sym_epoller w w' ep p Hq Hp) as (p' & Hp' & Ef).
    exists p', fd. by rewrite Ef.
  - intros ep p' fd e q Hp' Hf. destruct (quiet_epoller w w' ep p' Hq Hp') as (p & Hp & Ef).
    rewrite <- Ef in Hf. rewrite E7. by eapply i_cell.
  - intros ep p fd e ep' p' fd' e' q Hp Hf Hp' Hf'.
    destruct (quiet_epoller w w' ep p Hq Hp) as (p1 & Hp1 & Ef1).
    destruct (quiet_epoller w w' ep' p' Hq Hp') as (p2 & Hp2 & Ef2).
    rewrite <- Ef1 in Hf. rewrite <- Ef2 in Hf'. by eapply i_uniq.
  - intros q. rewrite E7. apply Hi.
  - intros ep [p' Hp']. destruct (quiet_epoller w w' ep p' Hq Hp') as (p & Hp & _).
    apply Hi. eauto.
  - intros fd ep (p & Hp & Ef)%(i_epman X w Hi).
    destruct (quiet_sym_key w w' ep p Hq Hp) as (p' & -> & _ & Ek). exists p'. by rewrite Ek.
  - intros e x s sid d Hx Hs Hd. destruct (i_streams X w Hi e x s sid d Hx Hs Hd) as (xd & sd & ?).
    exists xd, sd. by rewrite E3.
Qed.

(** ** Updates of one entry *)

(** What closing keeps: no entry appears, no stream is opened, a closed socket
    stays closed and its accept queue does not grow. *)
Definition calm_body (b b' : Body) : Prop :=
  match b, b' with
  | Sock s, Sock s' =>
      (socketState_ s = QuicSocketState_Closed ->
       socketState_ s' = QuicSocketState_Closed /\
       (length (acceptSockets_ s') <= length (acceptSockets_ s))%nat) /\
      dynamic_stream_map_ (impl_ s') ⊆ dynamic_stream_map_ (impl_ s)
  | Strm s, Strm s' => socketEntry_ s' = socketEntry_ s /\ streamId_ s' = streamId_ s
  | _, _ => False
  end.

Definition calm_entry (x x' : Entry) : Prop :=
  ((closeTrigger_ (event x) = true -> closeTrigger_ (event x') = true) /\
   (Fd x' = Fd x \/ Fd x' = -1)) /\
  calm_body (body x) (body x').

Lemma calm_sock x x' : calm_entry x x' -> is_sock x' = is_sock x.
Proof. intros [_ Hb]. unfold is_sock, calm_body in *. by destruct (body x), (body x'). Qed.

Lemma calm_event x v :
  closeTrigger_ v = closeTrigger_ (event x) \/ closeTrigger_ v = true ->
  fd_ v = Fd x \/ fd_ v = -1 ->
  calm_entry x {| event := v; body := body x |}.
Proof.
  intros Hv Hf. split; [split; simpl; [destruct Hv; congruence|done]|].
  unfold calm_body. by destruct (body x).
Qed.

Definition calm (w w' : World) : Prop :=
  (forall e x, entries w !! e = Some x ->
     exists x', entries w' !! e = Some x' /\ calm_entry x x') /\
  (forall e, is_Some (entries w' !! e) -> is_Some (entries w !! e)) /\
  (forall ep, is_Some (epollers w !! ep) -> is_Some (epollers w' !! ep)).

#[export] Instance calm_entry_preorder : PreOrder calm_entry.
Proof.
  split.
  - intros x. split; [by split; [|left]|]. unfold calm_body. by destruct (body x).
  - intros x y z [[H1 H1'] H2] [[G1 G1'] G2]. split; [split; [auto|destruct G1' as [->|]; auto]|].
    unfold calm_body in *.
    destruct (body x), (body y), (body z); try done.
    + destruct H2 as [H2 H3], G2 as [G2 G3]. split; [|set_solver].
      intros Hc. destruct (H2 Hc) as [Hc' ?]. destruct (G2 Hc'). split; [done|lia].
    + destruct H2, G2. split; congruence.
Qed.

#[export] Instance calm_preorder : PreOrder calm.
Proof.
  split.
  - intros w. split; [|done]. intros e x Hx. exists x. by split.
  - intros w1 w2 w3 (H1 & H2 & H3) (G1 & G2 & G3). split; [|auto].
    intros e x (x2 & Hx2 & C2)%H1. destruct (G1 e x2 Hx2) as (x3 & Hx3 & C3).
    exists x3. split; [done|]. by transitivity x2.
Qed.

Lemma calm_ext w w' : calm w w' -> ext w w'.
Proof. intros (Hc & _ & He). split; [|done]. 
  intros e x (x' & Hx' & Hxc)%Hc. exists x'. split; [done|]. split; [by apply calm_sock|apply Hxc].
Qed.

Lemma quiet_calm w w' : quiet w w' -> calm w w'.
Proof.
  intros Hq. pose proof (quiet_ext w w' Hq) as [_ He]. pose proof Hq as [_ [E _] _ _ _].
  split; [|split; [by rewrite E|done]]. rewrite E. intros e x Hx. by exists x.
Qed.

#[export] Hint Resolve calm_ext quiet_calm quiet_ext : posix_quic.

Definition put_entry (w : World) (e : Z) (x : Entry) : World :=
  set_entries w (<[e := x]> (entries w)) (nextEntry w).

Lemma calm_put w e x x' :
  entries w !! e = Some x -> calm_entry x x' -> calm w (put_entry w e x').
Proof.
  intros Hx Hc. split; [|split; [|done]]; simpl.
  - intros e1 x1 H1. rewrite lookup_insert. case_decide; [subst|by exists x1].
    rewrite Hx in H1. injection H1 as <-. by exists x'.
  - intros e1. rewrite lookup_insert_is_Some. intros [->|[_ ?]]; [eauto|done].
Qed.

Lemma good_stream_put w e x x' e1 sid d :
  entries w !! e = Some x -> Fd x' = Fd x ->
  (forall s', body x' = Strm s' -> exists s, body x = Strm s /\
     socketEntry_ s' = socketEntry_ s /\ streamId_ s' = streamId_ s) ->
  is_sock x' = is_sock x ->
  good_stream w e1 sid d -> good_stream (put_entry w e x') e1 sid d.
Proof.
  intros Hx Hfd Hst Hk (xd & sd & Hd & Hb & He & Hs & Hf). unfold good_stream. simpl.
  destruct (decide (d = e)) as [->|].
  - rewrite Hx in Hd. injection Hd as <-. unfold is_sock in Hk. rewrite Hb in Hk.
    destruct (body x') as [|s'] eqn:Hb'; [done|].
    destruct (Hst s' eq_refl) as (s & Hs1 & E1 & E2). rewrite Hb in Hs1. injection Hs1 as <-.
    exists x', s'. rewrite lookup_insert_eq. repeat split; congruence.
  - exists xd, sd. by rewrite lookup_insert_ne.
Qed.

(** Replacing entry [e] keeps the pointers valid when the new one has the same
    descriptor and class, no new waiter, and only good streams and live queue
    elements; the closing set may change at [e]. *)
Lemma inv_put (X X' : gset Z) w e x x' :
  inv X w -> entries w !! e = Some x ->
  Fd x' = Fd x -> is_sock x' = is_sock x ->
  waitings_ (event x') ⊆ waitings_ (event x) ->
  (closeTrigger_ (event x') = true -> waitings_ (event x') = ∅) ->
  (forall s', body x' = Sock s' ->
     (socketState_ s' = QuicSocketState_Closed -> closeTrigger_ (event x') = true \/ e ∈ X') /\
     (forall sid d, (sid, d) ∈ dynamic_stream_map_ (impl_ s') -> good_stream w e sid d)) ->
  (forall s', body x' = Strm s' -> exists s, body x = Strm s /\
     socketEntry_ s' = socketEntry_ s /\ streamId_ s' = streamId_ s) ->
  (forall a, a ∈ queue_of x' -> is_Some (entries w !! a)) ->
  X ∖ {[e]} ⊆ X' -> (waitings_ (event x') = ∅ \/ X ⊆ X') ->
  inv X' (put_entry w e x').
Proof.
  intros Hi Hx Hfd Hk Hws Hct Hsock Hstrm Hq HX HX'.
  assert (forall e1 x1, e1 <> e -> <[e:=x']> (entries w) !! e1 = Some x1 ->
            entries w !! e1 = Some x1) as Hne.
  { intros e1 x1 Hn. by rewrite lookup_insert_ne by done. }
  assert (forall e1 x1, <[e:=x']> (entries w) !! e1 = Some x1 ->
            e1 = e /\ x1 = x' \/ e1 <> e /\ entries w !! e1 = Some x1) as Hcases.
  { intros e1 x1. rewrite lookup_insert. case_decide; [|auto]. intros [= <-]. auto. }
  assert (forall a, is_Some (entries w !! a) -> is_Some (<[e:=x']> (entries w) !! a)) as Hal.
  { intros a Ha. rewrite lookup_insert_is_Some'. auto. }
  split; simpl; try apply Hi.
  - intros fd e1 (x1 & H1 & F1)%(i_table X w Hi). destruct (decide (e1 = e)) as [->|].
    + exists x'. rewrite lookup_insert_eq. split; [done|]. congruence.
    + exists x1. by rewrite lookup_insert_ne.
  - intros e1 x1 [[-> ->]|[_ H1]]%Hcases; [rewrite Hfd|]; by apply (i_fd X w Hi).
  - intros e1 x1 [[-> _]|[_ H1]]%Hcases; by eapply i_next.
  - intros e1 x1 ep q [[-> ->]|[Hn H1]]%Hcases Hw.
    + destruct (i_wait X w Hi e x ep q Hx) as (p & fd & Hp & Hf & Hr);
        [by eapply lookup_weaken|]. exists p, fd. rewrite Hfd. split; [done|]. split; [done|].
      destruct Hr as [?|Hr]; [by left|right]. destruct HX' as [E|HX']; [|by apply HX'].
      rewrite E in Hw. by rewrite lookup_empty in Hw.
    + destruct (i_wait X w Hi e1 x1 ep q H1 Hw) as (p & fd & ? & ? & Hr).
      exists p, fd. split; [done|]. split; [done|]. destruct Hr; [by left|right].
      apply HX. set_solver.
  - intros e1 x1 [[-> ->]|[_ H1]]%Hcases; [done|]. by apply (i_closed X w Hi e1).
  - intros e1 x1 s1 [[-> ->]|[Hn H1]]%Hcases Hs Hc; [by apply (Hsock s1)|].
    destruct (i_state X w Hi e1 x1 s1 H1 Hs Hc); [by left|right]. apply HX. set_solver.
  - intros e1 x1 s1 sid d [[-> ->]|[Hn H1]]%Hcases Hs Hd.
    + eapply good_stream_put; [done..|]. by apply (Hsock s1).
    + eapply good_stream_put; [done..|]. by eapply i_streams.
  - intros e1 x1 a [[-> ->]|[Hn H1]]%Hcases Ha; apply Hal; [by apply Hq|].
    by eapply (i_queue X w Hi e1).
Qed.

Lemma submap_empty {A} (m : gmap Z A) : m ⊆ ∅ -> m = ∅.
Proof.
  intros Hm. apply map_empty. intros i. destruct (m !! i) as [a|] eqn:E; [|done].
  by apply (lookup_weaken _ ∅) in E.
Qed.

(** Changing only the readiness bits. *)
Lemma inv_event X w e x v :
  inv X w -> entries w !! e = Some x ->
  fd_ v = fd_ (event x) -> waitings_ v ⊆ waitings_ (event x) ->
  closeTrigger_ v = closeTrigger_ (event x) ->
  let x' := {| event := v; body := body x |} in
  inv X (put_entry w e x') /\ calm w (put_entry w e x').
Proof.
  intros Hi Hx Hfd Hw Hc x'. split.
  - apply (inv_put X X w e x); simpl; [done..| | | | |set_solver|by right].
    + rewrite Hc. intros Ht%(i_closed X w Hi e x Hx). rewrite Ht in Hw.
      by apply submap_empty.
    + intros s Hs. rewrite Hc. split; [by apply (i_state X w Hi e x s)|].
      intros sid d. by apply (i_streams X w Hi e x s).
    + intros s Hs. by exists s.
    + intros a. by apply (i_queue X w Hi e x).
  - apply (calm_put w e x); [done|]. apply calm_event; by left.
Qed.

(** Changing only the body of a socket. *)
Lemma inv_socket X w e x s s' :
  inv X w -> entries w !! e = Some x -> body x = Sock s ->
  (socketState_ s' = QuicSocketState_Closed -> socketState_ s = QuicSocketState_Closed) ->
  (forall sid d, (sid, d) ∈ dynamic_stream_map_ (impl_ s') -> good_stream w e sid d) ->
  (forall a, a ∈ acceptSockets_ s' ++ acceptStreams_ s' -> is_Some (entries w !! a)) ->
  inv X (put_entry w e {| event := event x; body := Sock s' |}).
Proof.
  intros Hi Hx Hs Hcl Hst Hq.
  apply (inv_put X X w e x); simpl; [done|done|done| |done| | |done|done|set_solver|by right].
  - unfold is_sock. by rewrite Hs.
  - by apply (i_closed X w Hi e).
  - intros s1 [= <-]. split; [|done]. intros Hc. apply (i_state X w Hi e x s); auto.
Qed.
