(* ===== verification/EventSafety.v ===== *)
(** Events and epollers keep the pointers valid: every operation of
    [Epoller.v] returns with the invariant of [Safety.v]. *)

From S2P Require Import Prelude FdTable ConnectionManager Options TaskRunner Alarm World.
From S2P Require Import Epoller Socket Api Safety.

Section EventSafety.
Context `{Iteration}.

(** ** Primitives *)

Lemma wp_entry_of e x w Q : entries w !! e = Some x -> Q x w -> wp (entry_of e) w Q.
Proof. intros Hx HQ. unfold wp, entry_of, get, deref, mbind, M_bind. by rewrite Hx. Qed.

Lemma wp_epoller_of ep p w Q : epollers w !! ep = Some p -> Q p w -> wp (epoller_of ep) w Q.
Proof. intros Hx HQ. unfold wp, epoller_of, get, deref, mbind, M_bind. by rewrite Hx. Qed.

Lemma wp_qevent_of q c w Q : qevents w !! q = Some c -> Q c w -> wp (qevent_of q) w Q.
Proof. intros Hx HQ. unfold wp, qevent_of, get, deref, mbind, M_bind. by rewrite Hx. Qed.

Lemma wp_update_entry e f x w (Q : unit -> World -> Prop) :
  entries w !! e = Some x -> Q tt (put_entry w e (f x)) -> wp (update_entry e f) w Q.
Proof.
  intros Hx HQ. unfold update_entry. apply wp_bind. eapply wp_entry_of; [done|].
  apply wp_modify. by rewrite (alter_as_insert _ _ _ x).
Qed.

Lemma wp_update_event e f x w (Q : unit -> World -> Prop) :
  entries w !! e = Some x ->
  Q tt (put_entry w e {| event := f (event x); body := body x |}) ->
  wp (update_event e f) w Q.
Proof. intros Hx HQ. eapply wp_update_entry; done. Qed.

Definition put_epoller (w : World) (ep : Z) (p : Epoller) : World :=
  set_epollers w (epManager w) (<[ep := p]> (epollers w)) (nextEpoller w).

Lemma wp_update_epoller ep f p w (Q : unit -> World -> Prop) :
  epollers w !! ep = Some p -> Q tt (put_epoller w ep (f p)) -> wp (update_epoller ep f) w Q.
Proof.
  intros Hx HQ. unfold update_epoller. apply wp_bind. eapply wp_epoller_of; [done|].
  apply wp_modify. by rewrite (alter_as_insert _ _ _ p).
Qed.

Lemma quiet_put_epoller w ep p p' :
  epollers w !! ep = Some p -> ep_key p' = ep_key p -> quiet w (put_epoller w ep p').
Proof.
  intros Hp Hf. split; try done. intros ep1. simpl. rewrite lookup_insert.
  case_decide; [subst; by rewrite Hp; simpl; rewrite Hf|done].
Qed.

Lemma quiet_update_epoller ep f p w :
  epollers w !! ep = Some p -> ep_key (f p) = ep_key p ->
  wp (update_epoller ep f) w (fun _ w' => quiet w w').
Proof. intros Hp Hf. eapply wp_update_epoller; [done|]. by eapply quiet_put_epoller. Qed.

Lemma quiet_update_qevent q f w :
  is_Some (qevents w !! q) -> wp (update_qevent q f) w (fun _ w' => quiet w w').
Proof.
  intros [c Hc]. unfold update_qevent. apply wp_bind. eapply wp_qevent_of; [done|].
  apply wp_modify. split; try done. split; [|done]. intros q1. simpl.
  rewrite lookup_alter. case_decide; [subst; by rewrite fmap_is_Some|done].
Qed.

Lemma quiet_kernel w i s e : quiet w (set_kernel w i s e).
Proof. by split. Qed.

Lemma quiet_timers w t : quiet w (set_timers w t).
Proof. by split. Qed.

Lemma quiet_syscall w : wp syscall w (fun _ w' => quiet w w').
Proof. unfold wp, syscall. destruct (results _ _). apply quiet_kernel. Qed.

Lemma quiet_kernel_value w : wp kernel_value w (fun _ w' => quiet w w').
Proof. apply quiet_kernel. Qed.

Lemma quiet_set_errno e w : wp (set_errno e) w (fun _ w' => quiet w w').
Proof. apply quiet_kernel. Qed.

Lemma quiet_fail e w : wp (fail e) w (fun r w' => quiet w w' /\ r = -1).
Proof. split; [apply quiet_kernel|done]. Qed.

Lemma quiet_epoll_ctl a b c d w : wp (epoll_ctl a b c d) w (fun _ w' => quiet w w').
Proof.
  unfold epoll_ctl. apply wp_bind. eapply wp_mono; [apply quiet_syscall|]. intros r w1 H1.
  apply wp_bind, wp_when; intros _; [apply wp_modify|]; apply wp_ret; [|exact H1].
  transitivity w1; [exact H1|apply quiet_kernel].
Qed.

(** ** Notification *)

Lemma quiet_alive w w' ep : quiet w w' -> is_Some (epollers w !! ep) -> is_Some (epollers w' !! ep).
Proof. intros Hq [p Hp]. destruct (quiet_sym_epoller w w' ep p Hq Hp) as (p' & -> & _). eauto. Qed.

Lemma quiet_cell w w' q : quiet w w' -> is_Some (qevents w !! q) -> is_Some (qevents w' !! q).
Proof. intros [_ _ _ _ [Hq _]]. apply Hq. Qed.

Lemma quiet_Notify ep w :
  is_Some (epollers w !! ep) -> wp (Notify ep) w (fun _ w' => quiet w w').
Proof.
  intros [p Hp]. unfold Notify. apply wp_bind. eapply wp_epoller_of; [done|].
  destruct (notifyProtect_ p); [by apply wp_ret|].
  apply wp_bind. eapply wp_mono; [by eapply quiet_update_epoller|]. intros ? w1 H1.
  apply wp_bind. eapply wp_mono; [apply quiet_epoll_ctl|]. intros ? w2 H2.
  apply wp_ret. by transitivity w1.
Qed.

Lemma quiet_EventTrigger ep w :
  is_Some (epollers w !! ep) -> wp (EventTrigger_Trigger ep) w (fun _ w' => quiet w w').
Proof.
  intros [p Hp]. unfold EventTrigger_Trigger. apply wp_bind.
  eapply wp_mono; [by eapply quiet_update_epoller|]. intros ? w1 H1.
  eapply wp_mono; [apply quiet_Notify, (quiet_alive w); eauto|]. intros ? w2 H2.
  by transitivity w1.
Qed.

Lemma quiet_raise q m ep w :
  is_Some (qevents w !! q) -> is_Some (epollers w !! ep) ->
  wp (update_qevent q (or_revents m);; EventTrigger_Trigger ep) w (fun _ w' => quiet w w').
Proof.
  intros Hq Hp. apply wp_bind. eapply wp_mono; [by apply quiet_update_qevent|]. intros ? w1 H1.
  eapply wp_mono; [apply quiet_EventTrigger, (quiet_alive w); eauto|]. intros ? w2 H2.
  by transitivity w1.
Qed.

Lemma quiet_trigger_one ev ep q w :
  is_Some (qevents w !! q) -> is_Some (epollers w !! ep) ->
  wp (trigger_one ev (ep, q)) w (fun _ w' => quiet w w').
Proof.
  intros [c Hc] Hp. unfold trigger_one.
  assert (forall m, wp (update_qevent q (or_revents m);; EventTrigger_Trigger ep) w
                      (fun _ w' => quiet w w')) as Hr by (intros m; apply quiet_raise; eauto).
  repeat case_match; [..|by apply wp_ret]; [apply wp_bind; eapply wp_qevent_of; [done|];
    by apply wp_when..|apply Hr].
Qed.

Lemma quiet_Trigger X e ev w :
  inv X w -> is_Some (entries w !! e) -> wp (Trigger e ev) w (fun _ w' => quiet w w').
Proof.
  intros Hi [x Hx]. unfold Trigger. apply wp_bind. eapply wp_entry_of; [done|].
  apply wp_for_each; [done|]. intros [ep q] w' Hin%elem_of_iterate Hq.
  destruct (i_wait X w Hi e x ep q Hx Hin) as (p & fd & Hp & Hf & _).
  destruct (i_cell X w Hi ep p fd e q Hp Hf) as [Hc _].
  eapply wp_mono; [apply quiet_trigger_one|].
  - by eapply quiet_cell.
  - eapply quiet_alive; eauto.
  - intros ? w2 H2. by transitivity w'.
Qed.

(** ** Readiness of an entry *)

(** The shape of the postconditions: the invariant, and the calm relation to the
    state before. *)
Definition kept (X : gset Z) (w w' : World) : Prop := inv X w' /\ calm w w'.

Lemma kept_trans X w1 w2 w3 : calm w1 w2 -> kept X w2 w3 -> kept X w1 w3.
Proof. intros Hc [Hi Hc']. split; [done|]. by transitivity w2. Qed.

Lemma kept_quiet X w w1 w2 : kept X w w1 -> quiet w1 w2 -> kept X w w2.
Proof.
  intros [Hi Hc] Hq. split; [by eapply inv_quiet|]. transitivity w1; [done|by apply quiet_calm].
Qed.

Lemma kept_alive X w w' e : kept X w w' -> is_Some (entries w !! e) -> is_Some (entries w' !! e).
Proof. intros [_ Hc]. by apply ext_alive, calm_ext. Qed.

Lemma wp_ready X e f ev w :
  inv X w -> is_Some (entries w !! e) ->
  (forall v, fd_ (f v) = fd_ v /\ waitings_ (f v) = waitings_ v /\
             closeTrigger_ (f v) = closeTrigger_ v) ->
  wp (update_event e f;; Trigger e ev) w (fun _ w' => kept X w w').
Proof.
  intros Hi [x Hx] Hf. destruct (Hf (event x)) as (F1 & F2 & F3).
  apply wp_bind. eapply wp_update_event; [done|].
  destruct (inv_event X w e x (f (event x))) as [Hi1 Hc1]; [done|done|done|by rewrite F2|done|].
  eapply wp_mono; [eapply quiet_Trigger; [exact Hi1|]|].
  - simpl. rewrite lookup_insert_eq. eauto.
  - intros ? w' Hq. eapply kept_quiet; [by split|done].
Qed.

Lemma wp_SetReadable X e b w :
  inv X w -> is_Some (entries w !! e) -> wp (SetReadable e b) w (fun _ w' => kept X w w').
Proof. intros. by apply wp_ready. Qed.

Lemma wp_SetWritable X e b w :
  inv X w -> is_Some (entries w !! e) -> wp (SetWritable e b) w (fun _ w' => kept X w w').
Proof. intros. by apply wp_ready. Qed.

Lemma kept_refl X w : inv X w -> kept X w w.
Proof. by split. Qed.

Lemma wp_SetError X e err qe w :
  inv X w -> is_Some (entries w !! e) -> wp (SetError e err qe) w (fun _ w' => kept X w w').
Proof.
  intros Hi [x Hx]. unfold SetError. apply wp_bind. eapply wp_entry_of; [done|].
  destruct (_ =? 0); [|by apply wp_ret, kept_refl]. apply wp_ready; eauto.
Qed.

Lemma wp_SetCloseByPeer X e b w :
  inv X w -> is_Some (entries w !! e) -> wp (SetCloseByPeer e b) w (fun _ w' => kept X w w').
Proof. intros Hi [x Hx]. eapply wp_update_event; [done|]. by apply inv_event. Qed.

Lemma wp_StopWait X e ep w :
  inv X w -> is_Some (entries w !! e) ->
  wp (StopWait e ep) w (fun _ w' => kept X w w' /\ epollers w' = epollers w /\
    forall x, entries w' !! e = Some x -> waitings_ (event x) !! ep = None).
Proof.
  intros Hi [x Hx]. eapply wp_update_event; [done|].
  destruct (inv_event X w e x (ev_waitings (delete ep (waitings_ (event x)))
    (closeTrigger_ (event x)) (event x))) as [Hi1 Hc1]; [done|done|done|apply delete_subseteq|done|].
  split; [by split|]. split; [done|]. simpl. rewrite lookup_insert_eq. intros x' [= <-].
  simpl. apply lookup_delete_eq.
Qed.

(** ** Sockets and their timers *)

Lemma wp_socket_of e w Q :
  is_Some (entries w !! e) ->
  (forall x s, entries w !! e = Some x -> body x = Sock s -> Q s w) -> wp (socket_of e) w Q.
Proof.
  intros [x Hx] HQ. unfold socket_of. apply wp_bind. eapply wp_entry_of; [done|].
  destruct (body x) eqn:E; [apply wp_ret; eauto|]. apply wp_crashed. by split.
Qed.

Lemma wp_update_socket e f x s w (Q : unit -> World -> Prop) :
  entries w !! e = Some x -> body x = Sock s ->
  Q tt (put_entry w e {| event := event x; body := Sock (f s) |}) ->
  wp (update_socket e f) w Q.
Proof.
  intros Hx Hs HQ. unfold update_socket. apply wp_bind, wp_socket_of; [eauto|]. intros _ _ _ _.
  eapply wp_update_entry; [done|]. by rewrite Hs.
Qed.

(** A change of a socket that keeps its state, streams and queues. *)
Lemma kept_socket X w e x s s' :
  inv X w -> entries w !! e = Some x -> body x = Sock s ->
  socketState_ s' = socketState_ s -> impl_ s' = impl_ s ->
  acceptSockets_ s' = acceptSockets_ s -> acceptStreams_ s' = acceptStreams_ s ->
  kept X w (put_entry w e {| event := event x; body := Sock s' |}).
Proof.
  intros Hi Hx Hs E1 E2 E3 E4. split.
  - apply (inv_socket X w e x s); [done|done|done|congruence|..].
    + rewrite E2. intros sid d. by apply (i_streams X w Hi e x s).
    + rewrite E3, E4. intros a Ha. apply (i_queue X w Hi e x); [done|].
      unfold queue_of. by rewrite Hs.
  - apply (calm_put w e x); [done|]. split; [by split; [|left]|]. simpl. rewrite Hs. simpl.
    split; [intros Hc; split; [congruence|by rewrite E3]|by rewrite E2].
Qed.

Lemma wp_on_proxy {A} X e (f : TaskRunner.Proxy -> M TaskRunner.Timers (A * TaskRunner.Proxy)) w :
  inv X w -> is_Some (entries w !! e) -> (forall p, mild (f p)) ->
  wp (on_proxy e f) w (fun _ w' => kept X w w').
Proof.
  intros Hi He Hm. unfold on_proxy. apply wp_bind, wp_socket_of; [done|]. intros x s Hx Hs.
  apply wp_bind, wp_mild; [done|]. intros ap t. apply wp_bind.
  eapply (wp_update_socket e _ x s); [done|done|]. apply wp_ret.
  apply (kept_trans X w (set_timers w t)); [apply quiet_calm, quiet_timers|].
  apply (kept_socket X (set_timers w t) e x s); try done.
  by eapply inv_quiet; [|apply quiet_timers].
Qed.

Lemma wp_on_visitor {A} X e (m : M Visitor.Ctx A) w :
  inv X w -> is_Some (entries w !! e) -> mild m ->
  wp (on_visitor e m) w (fun _ w' => kept X w w').
Proof.
  intros Hi He Hm. unfold on_visitor. apply wp_bind, wp_socket_of; [done|]. intros x s Hx Hs.
  unfold wp, zoom. destruct (m _) as [a c|c] eqn:E; [|by eapply Hm]. simpl.
  rewrite (alter_as_insert _ _ _ x) by done. unfold set_visitor_ctx. rewrite Hs.
  apply (kept_quiet X w (put_entry w e {| event := event x; body := Sock
     (with_visitor s (Visitor.visitor c) (Visitor.opts_ c) (Visitor.proxy c)) |}));
    [|apply (quiet_timers (put_entry w e _))].
  by apply (kept_socket X w e x s).
Qed.

(** ** Removing a registration *)

Definition erased (w : World) (ep : Z) (p : Epoller) (fd q : Z) : World :=
  set_qevents (put_epoller w ep (with_fds (delete fd (fds_ p)) p)) (delete q (qevents w))
              (nextQEvent w).

Lemma wp_erase_fd ep p fd e q w (Q : unit -> World -> Prop) :
  epollers w !! ep = Some p -> fds_ p !! fd = Some (e, q) -> Q tt (erased w ep p fd q) ->
  wp (erase_fd ep fd) w Q.
Proof.
  intros Hp Hf HQ. unfold erase_fd. apply wp_bind. eapply wp_epoller_of; [done|].
  rewrite Hf. apply wp_bind. eapply wp_update_epoller; [done|]. by apply wp_modify.
Qed.

Lemma inv_erase w ep p fd e q :
  inv ∅ w -> epollers w !! ep = Some p -> fds_ p !! fd = Some (e, q) ->
  (forall x, entries w !! e = Some x -> waitings_ (event x) !! ep <> Some q) ->
  inv ∅ (erased w ep p fd q).
Proof.
  intros Hi Hp Hf Hno.
  assert (forall ep1 p1 fd1 v, <[ep := with_fds (delete fd (fds_ p)) p]> (epollers w) !! ep1 = Some p1 ->
            fds_ p1 !! fd1 = Some v ->
            exists p1', epollers w !! ep1 = Some p1' /\ fds_ p1' !! fd1 = Some v /\
              (ep1, fd1) <> (ep, fd)) as Hsub.
  { intros ep1 p1 fd1 v. rewrite lookup_insert. case_decide; [subst|].
    - intros [= <-]. simpl. intros [? ?]%lookup_delete_Some. exists p. split; [done|].
      split; [done|]. congruence.
    - intros ? ?. exists p1. split; [done|]. split; [done|]. congruence. }
  split; simpl; try apply Hi.
  - intros e1 x1 ep1 q1 Hx1 Hw1.
    destruct (i_wait ∅ w Hi e1 x1 ep1 q1 Hx1 Hw1) as (p1 & fd1 & Hp1 & Hf1 & Hr).
    rewrite lookup_insert. case_decide as E; [subst|by exists p1, fd1].
    rewrite Hp in Hp1. injection Hp1 as <-. exists (with_fds (delete fd (fds_ p)) p), fd1.
    split; [done|]. split; [|done]. simpl. rewrite lookup_delete_ne; [done|]. intros <-.
    rewrite Hf in Hf1. injection Hf1 as <- <-. by destruct (Hno x1 Hx1).
  - intros ep1 p1 fd1 e1 q1 Hp1 Hf1. destruct (Hsub ep1 p1 fd1 _ Hp1 Hf1) as (p1' & H1 & H2 & Hne).
    destruct (i_cell ∅ w Hi ep1 p1' fd1 e1 q1 H1 H2) as [Hc ?]. split; [|done].
    rewrite lookup_delete_ne; [done|]. intros <-.
    destruct (i_uniq ∅ w Hi ep p fd e ep1 p1' fd1 e1 q Hp Hf H1 H2). congruence.
  - intros ep1 p1 fd1 e1 ep2 p2 fd2 e2 q1 Hp1 Hf1 Hp2 Hf2.
    destruct (Hsub ep1 p1 fd1 _ Hp1 Hf1) as (? & ? & ? & _).
    destruct (Hsub ep2 p2 fd2 _ Hp2 Hf2) as (? & ? & ? & _). by eapply (i_uniq ∅ w Hi).
  - intros q1 [c Hc]. apply lookup_delete_Some in Hc as [_ Hc]. apply Hi. eauto.
  - intros ep1. rewrite lookup_insert_is_Some'. intros [->|?]; apply Hi; eauto.
  - intros fd1 ep1 (p1 & H1 & Ek)%(i_epman ∅ w Hi). rewrite lookup_insert.
    case_decide; [subst|by exists p1]. eexists. split; [done|]. simpl. congruence.
Qed.

Lemma erased_calm w ep p fd q : calm w (erased w ep p fd q).
Proof.
  split; [|split]; simpl; [|done|].
  - intros e x Hx. by exists x.
  - intros ep1 Hp1. apply lookup_insert_is_Some'. by right.
Qed.

Lemma stale_no_waiter w ep p fd e q :
  inv ∅ w -> epollers w !! ep = Some p -> fds_ p !! fd = Some (e, q) ->
  (forall x, entries w !! e = Some x -> Fd x <> fd) ->
  forall x, entries w !! e = Some x -> waitings_ (event x) !! ep <> Some q.
Proof.
  intros Hi Hp Hf Hst x Hx Hw. destruct (i_wait ∅ w Hi e x ep q Hx Hw) as (p' & fd' & H1 & H2 & Hr).
  destruct (i_uniq ∅ w Hi ep p fd e ep p' fd' e q) as [_ <-]; [done..|].
  destruct Hr as [?|?]; [by apply (Hst x)|set_solver].
Qed.

Lemma wp_lock_with_fd e fd w (Q : option Entry -> World -> Prop) :
  (forall x, entries w !! e = Some x -> Fd x = fd -> Q (Some x) w) ->
  ((forall x, entries w !! e = Some x -> Fd x <> fd) -> Q None w) ->
  wp (lock_with_fd e fd) w Q.
Proof.
  intros H1 H2. unfold lock_with_fd. apply wp_bind, wp_get, wp_ret.
  destruct (entries w !! e) as [x|] eqn:E; [|by apply H2].
  destruct (Z.eqb_spec (Fd x) fd); [by apply H1|]. apply H2. by intros x' [= <-].
Qed.

Lemma quiet_unref_udp ep u w :
  is_Some (epollers w !! ep) -> wp (unref_udp ep u) w (fun _ w' => quiet w w').
Proof.
  intros [p Hp]. unfold unref_udp. apply wp_bind, wp_deref; [by split|]. intros udp _.
  apply wp_bind. eapply wp_epoller_of; [done|].
  apply wp_bind, wp_deref; [by split|]. intros n _. destruct (_ =? 0).
  - apply wp_bind. eapply wp_mono; [apply quiet_epoll_ctl|]. intros ? w1 H1.
    destruct (quiet_sym_epoller w w1 ep p H1 Hp) as (p1 & Hp1 & _).
    eapply wp_mono; [by eapply quiet_update_epoller|]. intros ? w2 H2. by transitivity w1.
  - by eapply quiet_update_epoller.
Qed.

Lemma wp_Del ep fd w :
  inv ∅ w -> is_Some (epollers w !! ep) -> wp (Del ep fd) w (fun _ w' => kept ∅ w w').
Proof.
  intros Hi [p Hp]. unfold Del. apply wp_bind. eapply wp_epoller_of; [done|].
  destruct (fds_ p !! fd) as [[e q]|] eqn:Hf.
  2:{ eapply wp_mono; [apply quiet_fail|]. intros ? w1 [Hq _].
      by apply (kept_quiet ∅ w w); [apply kept_refl|]. }
  apply wp_bind, wp_lock_with_fd.
  - intros x Hx Hfd. apply wp_bind. eapply wp_mono; [apply quiet_unref_udp; eauto|].
    intros ? w1 H1. pose proof (inv_quiet ∅ w w1 Hi H1) as Hi1.
    pose proof H1 as [_ [E1 _] _ _ _].
    apply wp_bind. eapply wp_mono; [apply (wp_StopWait ∅); [done|rewrite E1; eauto]|].
    intros ? w2 (Hk2 & E2 & Hno2). pose proof Hk2 as [Hi2 Hc2].
    destruct (quiet_sym_epoller w w1 ep p H1 Hp) as (p1 & Hp1 & Ef1).
    rewrite <- E2 in Hp1. rewrite <- Ef1 in Hf.
    apply wp_bind. eapply wp_erase_fd; [done|done|].
    assert (inv ∅ (erased w2 ep p1 fd q)) as Hi3.
    { eapply inv_erase; [done|done|done|]. intros x2 Hx2. by rewrite (Hno2 x2 Hx2). }
    set (w3 := erased w2 ep p1 fd q) in *.
    assert (calm w w3) as Hc3.
    { transitivity w1; [by apply quiet_calm|]. transitivity w2; [done|apply erased_calm]. }
    apply wp_bind. destruct (decide _).
    + apply wp_bind, wp_get. eapply wp_mono; [apply (wp_on_proxy ∅)|]; [done| |..].
      * apply (ext_alive w w3); [by apply calm_ext|eauto].
      * intros pr. mild_tac.
      * intros ? w4 Hk4. apply wp_ret. by eapply kept_trans.
    + apply wp_ret. by split.
  - intros Hst. apply wp_bind. eapply wp_erase_fd; [done|done|].
    eapply wp_mono; [apply quiet_fail|]. intros ? w2 [Hq _].
    apply (kept_quiet ∅ w (erased w ep p fd q)); [|done].
    split; [|apply erased_calm]. eapply inv_erase; [done|done|done|].
    by eapply stale_no_waiter.
Qed.

(** [ClearWaitingsByClose] ends the closing window of its entry. *)
Lemma wp_ClearWaitings X e w :
  inv X w -> is_Some (entries w !! e) -> X ⊆ {[e]} ->
  (forall x, entries w !! e = Some x -> closeTrigger_ (event x) = true -> X = ∅) ->
  wp (ClearWaitingsByClose e) w (fun _ w' => kept ∅ w w' /\
    forall x, entries w' !! e = Some x -> closeTrigger_ (event x) = true).
Proof.
  intros Hi [x Hx] HX Hct. unfold ClearWaitingsByClose. apply wp_bind.
  eapply wp_entry_of; [done|]. destruct (closeTrigger_ (event x)) eqn:Ec.
  { rewrite (Hct x Hx Ec) in Hi. apply wp_ret. split; [by apply kept_refl|]. congruence. }
  apply wp_bind. eapply wp_update_event; [done|].
  set (x' := {| event := _; body := _ |}). set (w1 := put_entry w e x').
  assert (inv ∅ w1) as Hi1.
  { apply (inv_put X ∅ w e x); simpl; [done|done|done|done| |done| | | |set_solver|by left].
    - apply map_empty_subseteq.
    - intros s Hs. split; [by left|]. intros sid d. by apply (i_streams X w Hi e x s).
    - intros s Hs. by exists s.
    - intros a. by apply (i_queue X w Hi e x). }
  assert (calm w w1) as Hc1.
  { apply (calm_put w e x); [done|]. apply calm_event; [by right|by left]. }
  assert (entries w1 !! e = Some x') as Hx' by (simpl; apply lookup_insert_eq).
  assert (forall ep, is_Some (waitings_ (event x) !! ep) -> is_Some (epollers w !! ep)) as Hep.
  { intros ep [q Hq]. destruct (i_wait X w Hi e x ep q Hx Hq) as (p & fd & -> & _). eauto. }
  eapply wp_mono; [apply (wp_for_each _ _ _ (kept ∅ w1))|].
  - by apply kept_refl.
  - intros [ep q] w2 Hin%elem_of_iterate Hk2.
    destruct (kept_alive ∅ w1 w2 e Hk2) as [x2 Hx2]; [eauto|].
    apply wp_bind. eapply wp_entry_of; [done|]. apply wp_bind.
    eapply wp_mono; [apply wp_Del|]; simpl.
    + apply Hk2.
    + apply Hk2, Hep. eauto.
    + intros ? w3 Hk3. apply wp_ret. eapply kept_trans; [|done]. apply Hk2.
  - intros ? w2 Hk2. split; [by eapply kept_trans|]. intros x2 Hx2.
    destruct Hk2 as [_ [Hc2 _]]. destruct (Hc2 e x' Hx') as (x3 & Hx3 & Hcl & _).
    rewrite Hx2 in Hx3. injection Hx3 as <-. by apply Hcl.
Qed.

(** ** Registering *)

Lemma inv_new_cell X w c :
  inv X w ->
  inv X (set_qevents w (<[nextQEvent w := c]> (qevents w)) (nextQEvent w + 1)).
Proof.
  intros Hi. split; simpl; try apply Hi.
  - intros ep p fd e q Hp Hf. destruct (i_cell X w Hi ep p fd e q Hp Hf). split; [|done].
    apply lookup_insert_is_Some'. by right.
  - intros q. rewrite lookup_insert_is_Some'. intros [<-|Hq%(i_cellnext X w Hi)]; lia.
Qed.

Lemma inv_drop_cell X w q :
  inv X w ->
  (forall ep p fd e, epollers w !! ep = Some p -> fds_ p !! fd <> Some (e, q)) ->
  inv X (set_qevents w (delete q (qevents w)) (nextQEvent w)).
Proof.
  intros Hi Hno. split; simpl; try apply Hi.
  - intros ep p fd e q1 Hp Hf. destruct (i_cell X w Hi ep p fd e q1 Hp Hf). split; [|done].
    rewrite lookup_delete_ne; [done|]. intros <-. by apply (Hno ep p fd e).
  - intros q1 [c Hc]. apply lookup_delete_Some in Hc as [_ Hc]. apply Hi. eauto.
Qed.

Lemma wp_StartWait e x q ep w (Q : bool -> World -> Prop) :
  entries w !! e = Some x -> is_Some (qevents w !! q) ->
  (closeTrigger_ (event x) = true -> Q false w) ->
  (closeTrigger_ (event x) = false -> forall w1, quiet w w1 ->
     Q true (put_entry w1 e {| event := ev_waitings (<[ep := q]> (waitings_ (event x)))
                                          (closeTrigger_ (event x)) (event x);
                               body := body x |})) ->
  wp (StartWait e q ep) w Q.
Proof.
  intros Hx [c Hc] Hf Ht. unfold StartWait. apply wp_bind. eapply wp_entry_of; [done|].
  destruct (closeTrigger_ (event x)) eqn:Ec; [by apply wp_ret, Hf|].
  apply wp_bind. eapply wp_qevent_of; [done|].
  assert (forall b m w1, quiet w w1 ->
            wp (when b (update_qevent q (or_revents m))) w1 (fun _ w2 => quiet w w2)) as Hw.
  { intros b m w1 H1. apply wp_when; [|done]. intros _.
    eapply wp_mono; [apply quiet_update_qevent, (quiet_cell w); eauto|].
    intros ? w2 H2. by transitivity w1. }
  apply wp_bind. eapply wp_mono; [by apply Hw|]. intros ? w1 H1.
  apply wp_bind. eapply wp_mono; [by apply Hw|]. intros ? w2 H2.
  apply wp_bind. eapply wp_mono; [by apply Hw|]. intros ? w3 H3.
  apply wp_bind. eapply (wp_update_event e _ x).
  { pose proof H3 as [_ [-> _] _ _ _]. done. }
  apply wp_ret. rewrite Ec. by apply Ht.
Qed.

(** The entry with its new waiter and the epoller with its new registration. *)
Lemma inv_register w e x ep p q fd :
  inv ∅ w -> entries w !! e = Some x -> epollers w !! ep = Some p ->
  Fd x = fd -> 1 <= fd -> fds_ p !! fd = None -> is_Some (qevents w !! q) ->
  (forall ep1 p1 fd1 e1, epollers w !! ep1 = Some p1 -> fds_ p1 !! fd1 <> Some (e1, q)) ->
  closeTrigger_ (event x) = false ->
  let x' := {| event := ev_waitings (<[ep := q]> (waitings_ (event x)))
                          (closeTrigger_ (event x)) (event x); body := body x |} in
  inv ∅ (put_epoller (put_entry w e x') ep (with_fds (<[fd := (e, q)]> (fds_ p)) p)).
Proof.
  intros Hi Hx Hp Hfd Hpos Hnone Hq Hnew Hct x'.
  assert (inv ∅ (put_entry w e {| event := ev_waitings (waitings_ (event x)) false (event x);
                                  body := body x |})) as Hi0.
  { by apply inv_event. }
  set (p' := with_fds (<[fd := (e, q)]> (fds_ p)) p).
  assert (forall ep1 p1 fd1 e1 q1, <[ep := p']> (epollers w) !! ep1 = Some p1 ->
            fds_ p1 !! fd1 = Some (e1, q1) ->
            ep1 = ep /\ fd1 = fd /\ e1 = e /\ q1 = q \/
            exists p0, epollers w !! ep1 = Some p0 /\ fds_ p0 !! fd1 = Some (e1, q1)) as Hcases.
  { intros ep1 p1 fd1 e1 q1. rewrite lookup_insert. case_decide; [subst|by right; exists p1].
    intros [= <-]. simpl. rewrite lookup_insert. case_decide; [subst; intros [= <- <-]; by left|].
    intros Hf1. right. by exists p. }
  assert (forall ep1 p1 fd1 e1 q1, epollers w !! ep1 = Some p1 -> fds_ p1 !! fd1 = Some (e1, q1) ->
            exists p2, <[ep := p']> (epollers w) !! ep1 = Some p2 /\ fds_ p2 !! fd1 = Some (e1, q1))
    as Hback.
  { intros ep1 p1 fd1 e1 q1 H1 Hf1. rewrite lookup_insert. case_decide; [subst|by exists p1].
    exists p'. split; [done|]. rewrite Hp in H1. injection H1 as <-. simpl.
    rewrite lookup_insert_ne; [done|]. intros Efd. rewrite Efd in Hnone. congruence. }
  destruct Hi0 as [A1 A2 A3 A4 A5 A6 A7 A8 A9 A10 A11 A12 A13 A14]. simpl in *.
  assert (forall e1 x1, <[e:=x']> (entries w) !! e1 = Some x1 ->
            e1 = e /\ x1 = x' \/ e1 <> e /\ entries w !! e1 = Some x1) as Hent.
  { intros e1 x1. rewrite lookup_insert. case_decide; [|auto]. intros [= <-]. auto. }
  split; simpl; try done.
  - intros fd1 e1 (x1 & H1 & F1)%(i_table ∅ w Hi). rewrite lookup_insert.
    case_decide; [subst|by exists x1]. exists x'. split; [done|]. rewrite Hx in H1.
    by injection H1 as <-.
  - intros e1 x1 [[-> ->]|[_ H1]]%Hent; [apply (i_fd ∅ w Hi e x Hx)|by apply (i_fd ∅ w Hi)].
  - intros e1 x1 [[-> ->]|[_ H1]]%Hent; by eapply (i_next ∅ w Hi).
  - intros e1 x1 ep1 q1 [[-> ->]|[Hne H1]]%Hent.
    + simpl. rewrite lookup_insert. case_decide as E; [subst ep1; intros [= <-]|].
      * exists p', fd. rewrite lookup_insert_eq. simpl. rewrite lookup_insert_eq. auto.
      * intros Hw1. destruct (i_wait ∅ w Hi e x ep1 q1 Hx Hw1) as (p1 & fd1 & Hp1 & Hf1 & Hr).
        destruct (Hback ep1 p1 fd1 e q1 Hp1 Hf1) as (p2 & ? & ?). by exists p2, fd1.
    + intros Hw1. destruct (i_wait ∅ w Hi e1 x1 ep1 q1 H1 Hw1) as (p1 & fd1 & Hp1 & Hf1 & Hr).
      destruct (Hback ep1 p1 fd1 e1 q1 Hp1 Hf1) as (p2 & ? & ?). by exists p2, fd1.
  - intros ep1 p1 fd1 e1 q1 Hp1 Hf1.
    destruct (Hcases ep1 p1 fd1 e1 q1 Hp1 Hf1) as [(-> & -> & -> & ->)|(p0 & ? & ?)]; [done|].
    by eapply (i_cell ∅ w Hi).
  - intros ep1 p1 fd1 e1 ep2 p2 fd2 e2 q1 Hp1 Hf1 Hp2 Hf2.
    destruct (Hcases _ _ _ _ _ Hp1 Hf1) as [(-> & -> & -> & ->)|(p3 & Hp3 & Hf3)];
      destruct (Hcases _ _ _ _ _ Hp2 Hf2) as [(-> & -> & -> & ?)|(p4 & Hp4 & Hf4)]; subst.
    + done.
    + by destruct (Hnew _ _ _ _ Hp4 Hf4).
    + by destruct (Hnew _ _ _ _ Hp3 Hf3).
    + by eapply (i_uniq ∅ w Hi).
  - intros ep1. rewrite lookup_insert_is_Some'. intros [->|?]; apply Hi; eauto.
  - intros fd1 ep1 (p1 & H1 & Ek)%(i_epman ∅ w Hi). rewrite lookup_insert.
    case_decide; [subst|by exists p1]. eexists. split; [done|]. simpl. congruence.
  - intros e1 x1 [[-> ->]|[_ H1]]%Hent; simpl; [congruence|by apply (i_closed ∅ w Hi e1)].
  - intros e1 x1 s1 [[-> ->]|[_ H1]]%Hent; [apply (i_state ∅ w Hi e x s1 Hx)|].
    by apply (i_state ∅ w Hi e1).
  - intros e1 x1 s1 sid d [[-> ->]|[_ H1]]%Hent Hs Hd;
      (eapply good_stream_put; [done|done|intros s' ?; by exists s'|done|]);
      [by eapply (i_streams ∅ w Hi e x)|by eapply (i_streams ∅ w Hi e1 x1)].
  - intros e1 x1 a [[-> ->]|[_ H1]]%Hent Ha; apply lookup_insert_is_Some'; right;
      [by eapply (i_queue ∅ w Hi e x)|by eapply (i_queue ∅ w Hi e1 x1)].
Qed.

Lemma quiet_ref_udp ep u w :
  is_Some (epollers w !! ep) -> wp (ref_udp ep u) w (fun _ w' => quiet w w').
Proof.
  intros [p Hp]. unfold ref_udp. apply wp_bind. eapply wp_epoller_of; [done|].
  destruct (udps_ p !! u).
  - apply wp_bind. eapply wp_mono; [by eapply quiet_update_epoller|]. by intros.
  - apply wp_bind. eapply wp_mono; [apply quiet_epoll_ctl|]. intros r w1 H1.
    destruct (r <? 0); [by apply wp_ret|]. apply wp_bind.
    destruct (quiet_sym_epoller w w1 ep p H1 Hp) as (p1 & Hp1 & _).
    eapply wp_mono; [by eapply quiet_update_epoller|]. intros ? w2 H2. apply wp_ret.
    by transitivity w1.
Qed.

Lemma fail_kept X w w' e (Q : Z -> World -> Prop) :
  kept X w w' -> (forall r w2, kept X w w2 -> Q r w2) -> wp (fail e) w' Q.
Proof.
  intros Hk HQ. eapply wp_mono; [apply quiet_fail|]. intros r w2 [Hq _]. apply HQ.
  by eapply kept_quiet.
Qed.

Lemma wp_add_entry ep p e x fd ev dt w :
  inv ∅ w -> entries w !! e = Some x -> epollers w !! ep = Some p ->
  Fd x = fd -> 1 <= fd -> fds_ p !! fd = None ->
  wp (add_entry ep e fd ev dt) w (fun _ w' => kept ∅ w w').
Proof.
  intros Hi Hx Hp Hfd Hpos Hnone. unfold add_entry. apply wp_bind. unfold wp at 1. simpl.
  set (c := {| events := Epoll2Poll ev |}). set (q := nextQEvent w).
  set (w1 := set_qevents w (<[q := c]> (qevents w)) (q + 1)).
  assert (inv ∅ w1) as Hi1 by by apply inv_new_cell.
  assert (calm w w1) as Hc1 by (split; [|done]; intros e1 x1 H1; by exists x1).
  assert (forall ep1 p1 fd1 e1, epollers w !! ep1 = Some p1 -> fds_ p1 !! fd1 <> Some (e1, q))
    as Hnew.
  { intros ep1 p1 fd1 e1 H1 Hf1. destruct (i_cell ∅ w Hi _ _ _ _ _ H1 Hf1) as [Hq _].
    apply (i_cellnext ∅ w Hi) in Hq. unfold q in Hq. lia. }
  apply wp_bind. apply (wp_StartWait e x); [done|simpl; rewrite lookup_insert_eq; eauto|..].
  - intros _. apply wp_bind, wp_modify.
    eapply fail_kept; [|by intros].
    split; [by apply (inv_drop_cell ∅ w1)|]. transitivity w1; [done|].
    split; [|done]. intros e1 x1 H1. by exists x1.
  - intros Hct w2 H2. pose proof H2 as [_ [E2 _] _ _ _].
    destruct (quiet_sym_epoller w1 w2 ep p H2 Hp) as (p2 & Hp2 & Ef2).
    apply wp_bind. eapply wp_update_epoller; [done|].
    assert (inv ∅ w2) as Hi2 by by eapply inv_quiet.
    pose proof (inv_register w2 e x ep p2 q fd Hi2) as Hreg.
    rewrite E2 in Hreg. specialize (Hreg Hx Hp2 Hfd Hpos). rewrite Ef2 in Hreg.
    specialize (Hreg Hnone).
    set (w3 := put_epoller _ _ _) in *. simpl in Hreg.
    assert (inv ∅ w3) as Hi3.
    { subst w3. rewrite Ef2. apply Hreg; [|intros ep1 p1 fd1 e1 H1|done].
      - eapply quiet_cell; [done|]. simpl. rewrite lookup_insert_eq. eauto.
      - destruct (quiet_epoller w1 w2 ep1 p1 H2 H1) as (p0 & Hp0 & <-). by apply (Hnew ep1). }
    assert (kept ∅ w w3) as Hk3.
    { split; [done|]. transitivity w1; [done|]. transitivity w2; [by apply quiet_calm|].
      transitivity (put_entry w2 e {| event := ev_waitings (<[ep := q]> (waitings_ (event x)))
                                 (closeTrigger_ (event x)) (event x); body := body x |}).
      - apply (calm_put w2 e x); [by rewrite E2|]. apply calm_event; by left.
      - split; [intros e1 x1 H1; by exists x1|]. split; [done|].
        intros ep1 H1. simpl. apply lookup_insert_is_Some'. by right. }
    clear Hreg. clearbody w3.
    destruct (kept_alive ∅ w w3 e Hk3) as [x3 Hx3]; [eauto|].
    assert (is_Some (epollers w3 !! ep)) as Hep3 by (apply Hk3; eauto).
    apply wp_bind. eapply wp_entry_of; [done|].
    assert (forall err, wp (StopWait e ep;; fail err) w3 (fun _ w' => kept ∅ w w')) as Hstop.
    { intros err. apply wp_bind. eapply wp_mono; [apply (wp_StopWait ∅); eauto|].
      intros ? w4 (Hk4 & _). eapply fail_kept; [|by intros]. eapply kept_trans; [|done]. apply Hk3. }
    destruct (NativeUdpFd x3) as [udp|]; [|apply Hstop].
    apply wp_bind.
    eapply (wp_mono _ _ (fun _ w' => kept ∅ w w')).
    { destruct (decide _); [|by apply wp_ret].
      eapply wp_mono; [apply (wp_on_proxy ∅); [done|eauto|intros; apply mild_Link]|].
      intros ? w4 Hk4. eapply kept_trans; [apply Hk3|exact Hk4]. }
    intros linked w4 Hk4. destruct (kept_alive ∅ w w4 e Hk4) as [x4 Hx4]; [eauto|].
    assert (is_Some (epollers w4 !! ep)) as Hep4 by (apply Hk4; eauto).
    destruct (negb linked).
    + apply wp_bind. eapply wp_mono; [apply (wp_StopWait ∅); [apply Hk4|eauto]|].
      intros ? w5 (Hk5 & _). eapply fail_kept; [|by intros]. eapply kept_trans; [|done]. apply Hk4.
    + eapply wp_mono; [by apply quiet_ref_udp|]. intros ? w5 H5. by eapply kept_quiet.
Qed.

Lemma wp_Add ep fd ev dt w :
  inv ∅ w -> is_Some (epollers w !! ep) -> wp (Add ep fd ev dt) w (fun _ w' => kept ∅ w w').
Proof.
  intros Hi [p Hp]. unfold Add. apply wp_bind. eapply wp_epoller_of; [done|].
  apply wp_bind.
  eapply (wp_mono _ _ (fun stale w' => kept ∅ w w' /\
    (stale = false -> exists p', epollers w' !! ep = Some p' /\ fds_ p' !! fd = None))).
  { destruct (fds_ p !! fd) as [[e q]|] eqn:Hf.
    2:{ apply wp_ret. split; [by apply kept_refl|eauto]. }
    apply wp_bind, wp_lock_with_fd.
    - intros x Hx Hfd. apply wp_ret. split; [by apply kept_refl|done].
    - intros Hst. apply wp_bind. eapply wp_erase_fd; [done|done|]. apply wp_ret. split.
      + split; [|apply erased_calm]. eapply inv_erase; [done|done|done|].
        by eapply stale_no_waiter.
      + intros _. simpl. rewrite lookup_insert_eq. eexists. split; [done|]. simpl.
        apply lookup_delete_eq. }
  intros [] w1 [Hk1 Hst]; [eapply fail_kept; [done|by intros]|].
  destruct (Hst eq_refl) as (p1 & Hp1 & Hnone). apply wp_bind, wp_get.
  unfold FdManager.Get. destruct (fdManager w1 !! fd) as [e|] eqn:Hm;
    [|eapply fail_kept; [done|by intros]].
  destruct (i_table ∅ w1 (proj1 Hk1) fd e Hm) as (x & Hx & Hfd).
  apply wp_bind. eapply wp_entry_of; [done|].
  rewrite Hfd, Z.eqb_refl. simpl.
  eapply wp_mono; [eapply wp_add_entry; [apply Hk1|done|done|done| |done]|].
  - apply (FdFactory.wf_live _ _ (i_factory ∅ w1 (proj1 Hk1))). by eapply elem_of_dom_2.
  - intros ? w2 Hk2. eapply kept_trans; [apply Hk1|exact Hk2].
Qed.

Lemma wp_Mod ep fd ev dt w :
  inv ∅ w -> is_Some (epollers w !! ep) -> wp (Mod ep fd ev dt) w (fun _ w' => kept ∅ w w').
Proof.
  intros Hi [p Hp]. unfold Mod. apply wp_bind. eapply wp_epoller_of; [done|].
  destruct (fds_ p !! fd) as [[e q]|] eqn:Hf.
  2:{ eapply fail_kept; [by apply kept_refl|by intros]. }
  destruct (i_cell ∅ w Hi ep p fd e q Hp Hf) as [Hq _].
  apply wp_bind. eapply wp_mono; [by apply quiet_update_qevent|]. intros ? w1 H1.
  apply wp_bind. eapply (wp_mono _ _ (fun _ w2 => quiet w w2)).
  { apply wp_when; [|done]. intros _.
    eapply wp_mono; [apply quiet_update_qevent, (quiet_cell w); done|]. intros. by transitivity w1. }
  intros ? w2 H2. apply wp_bind.
  eapply wp_mono; [apply quiet_Notify, (quiet_alive w); eauto|]. intros ? w3 H3. apply wp_ret.
  apply (kept_quiet ∅ w w); [by apply kept_refl|]. by transitivity w2.
Qed.

(** ** Reporting *)

Lemma quiet_poll_loop l : forall n w,
  (forall fd e q, (fd, (e, q)) ∈ l -> is_Some (qevents w !! q)) ->
  wp (poll_loop l n) w (fun _ w' => quiet w w').
Proof.
  induction l as [|[fd [e q]] l IH]; intros n w Hl; [by destruct n|].
  destruct n as [|n]; [by apply wp_ret|]. simpl.
  destruct (Hl fd e q) as [c Hc]; [by left|].
  apply wp_bind. unfold poll_one. apply wp_bind. eapply wp_qevent_of; [done|].
  apply wp_bind. eapply wp_mono; [apply quiet_update_qevent; eauto|]. intros ? w1 H1.
  apply wp_ret. destruct (quiet_cell w w1 q H1) as [c1 Hc1]; [eauto|].
  assert (forall fd e q, (fd, (e, q)) ∈ l -> is_Some (qevents w1 !! q)) as Hl1.
  { intros fd1 e1 q1 Hin. apply (quiet_cell w w1 q1 H1). apply (Hl fd1 e1). by right. }
  apply wp_bind. eapply wp_qevent_of; [done|]. destruct (_ =? 0).
  - eapply wp_mono; [by apply IH|]. intros ? w2 H2. by transitivity w1.
  - apply wp_bind. eapply wp_mono; [by apply IH|]. intros ? w2 H2. apply wp_ret. by transitivity w1.
Qed.

Lemma quiet_Poll X ep n w :
  inv X w -> is_Some (epollers w !! ep) -> wp (Poll ep n) w (fun _ w' => quiet w w').
Proof.
  intros Hi [p Hp]. unfold Poll. apply wp_bind. eapply wp_epoller_of; [done|].
  apply quiet_poll_loop. intros fd e q Hin%elem_of_iterate. by eapply (i_cell X w Hi).
Qed.

End EventSafety.
