(* ===== verification/CallSafety.v ===== *)
(** Sockets, streams and the calls of the interface keep the pointers valid, and
    closing terminates within its recursion bound. *)

From S2P Require Import Prelude FdTable ConnectionManager Options TaskRunner Alarm World.
From S2P Require Import Epoller Socket Api Safety EventSafety System.

Section CallSafety.
Context `{Iteration}.

(** ** Removing a descriptor *)

(** An entry that may lose its descriptor: its waiters are cleared or it is in
    its closing window, and no session has it as a delegate. *)
Definition deletable (X : gset Z) (w : World) (e : Z) (x : Entry) : Prop :=
  (closeTrigger_ (event x) = true \/ e ∈ X) /\
  (forall e1 x1 s1 sid, entries w !! e1 = Some x1 -> body x1 = Sock s1 ->
     (sid, e) ∉ dynamic_stream_map_ (impl_ s1)).

Lemma deletable_sock X w e x :
  inv X w -> entries w !! e = Some x -> is_sock x = true ->
  closeTrigger_ (event x) = true \/ e ∈ X -> deletable X w e x.
Proof.
  intros Hi Hx Hs Hc. split; [done|]. intros e1 x1 s1 sid H1 Hs1 Hin.
  destruct (i_streams X w Hi e1 x1 s1 sid e H1 Hs1 Hin) as (xd & sd & Hd & Hb & _).
  rewrite Hx in Hd. injection Hd as <-. unfold is_sock in Hs. by rewrite Hb in Hs.
Qed.

Lemma calm_fds w ff fm : calm w (set_fds w ff fm).
Proof. split; [|done]. intros e x Hx. by exists x. Qed.

Lemma wp_DeleteEntry X e x w :
  inv X w -> entries w !! e = Some x -> deletable X w e x ->
  wp (DeleteEntry e) w (fun _ w' => kept X w w').
Proof.
  intros Hi Hx [Hct Hno]. unfold DeleteEntry. apply wp_bind. eapply wp_entry_of; [done|].
  destruct (Z.geb_spec (Fd x) 0) as [Hfd|Hfd]; [|by apply wp_ret, kept_refl].
  apply wp_bind, wp_modify. eapply wp_update_event; [done|].
  set (x' := {| event := ev_fd (-1) (event x); body := body x |}).
  set (w1 := set_fds _ _ _).
  destruct (i_fd X w Hi e x Hx) as [?|Hm]; [lia|].
  assert (forall fd1, (FdManager.Delete (Fd x) (fdManager w)).2 !! fd1 =
            if decide (fd1 = Fd x) then None else fdManager w !! fd1) as Hdel.
  { intros fd1. unfold FdManager.Delete. rewrite Hm. simpl. rewrite lookup_delete.
    by repeat case_decide. }
  assert (forall e1 x1, <[e:=x']> (entries w) !! e1 = Some x1 ->
            e1 = e /\ x1 = x' \/ e1 <> e /\ entries w !! e1 = Some x1) as Hent.
  { intros e1 x1. rewrite lookup_insert. case_decide; [|auto]. intros [= <-]. auto. }
  assert (forall e1 sid d, d <> e -> good_stream w e1 sid d ->
            good_stream (put_entry w1 e x') e1 sid d) as Hgs.
  { intros e1 sid d Hne (xd & sd & Hd & ?). exists xd, sd. simpl. by rewrite lookup_insert_ne. }
  split.
  2:{ transitivity w1; [apply calm_fds|]. apply (calm_put w1 e x); [done|].
      apply calm_event; [by left|by right]. }
  split; simpl; try apply Hi.
  - replace (dom _) with (dom (fdManager w) ∖ {[Fd x]}).
    + apply FdFactory.Free_wf; [apply Hi|]. by eapply elem_of_dom_2.
    + apply set_eq. intros fd1. rewrite elem_of_difference, !elem_of_dom, Hdel, not_elem_of_singleton.
      case_decide; [|tauto]. split; [tauto|by intros [? ?]].
  - intros fd1 e1. rewrite Hdel. case_decide; [done|].
    intros (x1 & H1 & F1)%(i_table X w Hi). exists x1. rewrite lookup_insert_ne; [done|].
    intros <-. rewrite Hx in H1. injection H1 as <-. done.
  - intros e1 x1 [[-> ->]|[Hne H1]]%Hent; [by left|].
    destruct (i_fd X w Hi e1 x1 H1) as [?|Hm1]; [by left|right]. rewrite Hdel.
    rewrite decide_False; [done|]. intros E. rewrite E, Hm in Hm1. congruence.
  - intros e1 x1 [[-> _]|[_ H1]]%Hent; by eapply (i_next X w Hi).
  - intros e1 x1 ep q [[-> ->]|[Hne H1]]%Hent; simpl; [|by apply (i_wait X w Hi)].
    intros Hw. destruct Hct as [Hct|HX].
    + rewrite (i_closed X w Hi e x Hx Hct) in Hw. by rewrite lookup_empty in Hw.
    + destruct (i_wait X w Hi e x ep q Hx Hw) as (p & fd & ? & ? & _). exists p, fd. auto.
  - intros e1 x1 [[-> ->]|[_ H1]]%Hent; [by apply (i_closed X w Hi e x)|].
    by apply (i_closed X w Hi e1).
  - intros e1 x1 s1 [[-> ->]|[_ H1]]%Hent; [by apply (i_state X w Hi e x)|].
    by apply (i_state X w Hi e1).
  - intros e1 x1 s1 sid d [[-> ->]|[_ H1]]%Hent Hs Hd.
    + apply Hgs; [|by apply (i_streams X w Hi e x s1)]. intros ->. by apply (Hno e x s1 sid).
    + apply Hgs; [|by apply (i_streams X w Hi e1 x1 s1)]. intros ->. by apply (Hno e1 x1 s1 sid).
  - intros e1 x1 a [[-> ->]|[_ H1]]%Hent Ha; apply lookup_insert_is_Some'; right;
      [by eapply (i_queue X w Hi e x)|by eapply (i_queue X w Hi e1 x1)].
Qed.

(** ** Closing streams and connections *)

Lemma wp_CloseStreamInner X e sid w :
  inv X w -> is_Some (entries w !! e) ->
  wp (CloseStreamInner e sid) w (fun _ w' => kept X w w' /\
    forall x s d, entries w' !! e = Some x -> body x = Sock s ->
      (sid, d) ∉ dynamic_stream_map_ (impl_ s)).
Proof.
  intros Hi He. unfold CloseStreamInner. apply wp_bind, wp_socket_of; [done|]. intros x s Hx Hs.
  destruct (list_find _ _) as [[i [sid' d]]|] eqn:Hf.
  - apply list_find_Some in Hf as (Hl & Hk & _). simpl in Hk. subst sid'.
    apply list_elem_of_lookup_2 in Hl.
    destruct (i_streams X w Hi e x s sid d Hx Hs Hl) as (xd & sd & Hd & _).
    apply wp_bind. eapply (wp_update_socket e _ x s); [done|done|].
    set (s' := with_impl s _). set (w1 := put_entry w e _).
    assert (kept X w w1) as Hk1.
    { split.
      - apply (inv_socket X w e x s); try done.
        + intros sid1 d1. simpl. intros [_ Hin]%list_elem_of_filter.
          by apply (i_streams X w Hi e x s).
        + intros a Ha. apply (i_queue X w Hi e x); [done|]. unfold queue_of. by rewrite Hs.
      - apply (calm_put w e x); [done|]. split; [by split; [|left]|]. simpl. rewrite Hs. simpl.
        split; [done|]. intros kv [_ ?]%list_elem_of_filter. done. }
    eapply wp_mono; [apply (wp_SetError X); [apply Hk1|]|].
    + apply (kept_alive X w); [done|eauto].
    + intros ? w2 Hk2. split; [eapply kept_trans; [apply Hk1|exact Hk2]|].
      destruct Hk2 as [_ [Hc2 _]].
      destruct (Hc2 e {| event := event x; body := Sock s' |}) as (x2 & Hx2 & _ & Hb2);
        [apply lookup_insert_eq|].
      intros x3 s3 d3 Hx3 Hs3 Hin. rewrite Hx2 in Hx3. injection Hx3 as <-.
      simpl in Hb2. rewrite Hs3 in Hb2. simpl in Hb2. destruct Hb2 as [_ Hsub].
      apply Hsub, list_elem_of_filter in Hin as [[] _]. done.
  - apply wp_ret. split; [by apply kept_refl|]. intros x3 s3 d3 Hx3 Hs3 Hin.
    rewrite Hx in Hx3. injection Hx3 as <-. rewrite Hs in Hs3. injection Hs3 as <-.
    rewrite list_find_None, Forall_forall in Hf. by apply (Hf _ Hin).
Qed.

(** The nested [Close] as the session calls it. *)
Definition closes (X : gset Z) (w : World) (Close : Z -> M World Z) (e : Z) : Prop :=
  forall w', inv X w' -> calm w w' ->
    wp (Close e) w' (fun _ w2 => kept X w' w2 /\
      exists x, entries w2 !! e = Some x /\ deletable X w2 e x).

Lemma closes_calm X w w' Cl e : closes X w Cl e -> calm w w' -> closes X w' Cl e.
Proof. intros Hc Hw w2 Hi Hc2. apply Hc; [done|]. by transitivity w'. Qed.

Lemma wp_OnConnectionClosed X Cl e err b w :
  inv X w -> is_Some (entries w !! e) -> closes X w Cl e ->
  wp (OnConnectionClosed Cl e err b) w (fun _ w' => kept X w w').
Proof.
  intros Hi He Hcl. unfold OnConnectionClosed.
  apply wp_bind. eapply wp_mono; [by apply (wp_SetCloseByPeer X)|]. intros ? w1 Hk1.
  apply wp_bind. eapply wp_mono; [apply (wp_SetError X); [apply Hk1|exact (kept_alive X w w1 e Hk1 He)]|].
  intros ? w2 Hk2. assert (kept X w w2) as Hk by (eapply kept_trans; [apply Hk1|exact Hk2]).
  apply wp_bind, wp_socket_of; [exact (kept_alive X w w2 e Hk He)|]. intros x s Hx Hs.
  destruct (_ && _); [|by apply wp_ret].
  apply wp_bind. eapply wp_mono; [apply Hcl; [apply Hk|apply Hk]|].
  intros ? w3 [Hk3 (x3 & Hx3 & Hd3)].
  eapply wp_mono; [apply (wp_DeleteEntry X e x3); [apply Hk3|done|done]|].
  intros ? w4 Hk4. eapply kept_trans; [apply Hk|]. eapply kept_trans; [apply Hk3|exact Hk4].
Qed.

Lemma wp_TearDown X Cl e err b w :
  inv X w -> is_Some (entries w !! e) -> closes X w Cl e ->
  wp (TearDown Cl e err b) w (fun _ w' => kept X w w').
Proof.
  intros Hi He Hcl. unfold TearDown. apply wp_bind, wp_socket_of; [done|]. intros x s Hx Hs.
  destruct (connected_ (impl_ s)); [|by apply wp_ret, kept_refl].
  apply wp_bind. eapply (wp_update_socket e _ x s); [done|done|]. set (w1 := put_entry w e _).
  assert (kept X w w1) as Hk1.
  { split.
    - apply (inv_socket X w e x s); try done.
      + intros sid d. by apply (i_streams X w Hi e x s).
      + intros a Ha. apply (i_queue X w Hi e x); [done|]. unfold queue_of. by rewrite Hs.
    - apply (calm_put w e x); [done|]. split; [by split; [|left]|]. simpl. by rewrite Hs. }
  apply wp_bind. eapply wp_mono; [apply (wp_for_each _ _ _ (kept X w)); [done|]|].
  - intros sid w2 _ Hk2.
    eapply wp_mono; [apply (wp_CloseStreamInner X); [apply Hk2|exact (kept_alive X w w2 e Hk2 He)]|].
    intros ? w3 [Hk3 _]. eapply kept_trans; [apply Hk2|exact Hk3].
  - intros ? w2 Hk2. eapply wp_mono; [apply (wp_OnConnectionClosed X)|].
    + apply Hk2.
    + exact (kept_alive X w w2 e Hk2 He).
    + eapply closes_calm; [done|apply Hk2].
    + intros ? w3 Hk3. eapply kept_trans; [apply Hk2|exact Hk3].
Qed.

(** ** Sockets still open *)

Definition is_open (x : Entry) : bool :=
  match body x with
  | Sock s => negb (bool_decide (socketState_ s = QuicSocketState_Closed))
  | Strm _ => false
  end.

Definition opens (w : World) : gset Z := dom (filter (fun kv => is_open kv.2 = true) (entries w)).

Lemma elem_of_opens w e : e ∈ opens w <-> exists x, entries w !! e = Some x /\ is_open x = true.
Proof.
  unfold opens. rewrite elem_of_dom. split.
  - intros [x [? ?]%map_lookup_filter_Some]. eauto.
  - intros (x & ? & ?). exists x. by apply map_lookup_filter_Some.
Qed.

Lemma calm_open x x' : calm_entry x x' -> is_open x' = true -> is_open x = true.
Proof.
  intros [_ Hb]. unfold is_open, calm_body in *. destruct (body x), (body x'); try done.
  rewrite !negb_true_iff, !bool_decide_eq_false. destruct Hb as [Hb _]. intros Hn Hc.
  by apply Hn, Hb.
Qed.

Lemma calm_opens w w' : calm w w' -> opens w' ⊆ opens w.
Proof.
  intros (Hc & Hb & _) e. rewrite !elem_of_opens. intros (x' & Hx' & Ho).
  destruct (Hb e) as [x Hx]; [eauto|]. exists x. split; [done|].
  destruct (Hc e x Hx) as (x2 & Hx2 & Hc2). rewrite Hx' in Hx2. injection Hx2 as <-.
  by eapply calm_open.
Qed.

Lemma calm_opens_size w w' : calm w w' -> (size (opens w') <= size (opens w))%nat.
Proof. intros Hc. by apply subseteq_size, calm_opens. Qed.

Lemma opens_fuel w : (size (opens w) < close_fuel w)%nat.
Proof.
  unfold close_fuel. assert (opens w ⊆ dom (entries w)) as Hs.
  { intros e (x & Hx & _)%elem_of_opens. apply elem_of_dom. eauto. }
  apply subseteq_size in Hs. rewrite size_dom in Hs. lia.
Qed.

Lemma closing_state w e x s :
  entries w !! e = Some x -> body x = Sock s -> socketState_ s <> QuicSocketState_Closed ->
  inv ∅ w ->
  let w1 := put_entry w e {| event := event x; body := Sock (with_state s QuicSocketState_Closed) |} in
  inv {[e]} w1 /\ calm w w1 /\ (size (opens w1) < size (opens w))%nat.
Proof.
  intros Hx Hs Hn Hi w1. assert (calm w w1) as Hc.
  { apply (calm_put w e x); [done|]. split; [by split; [|left]|]. simpl. rewrite Hs. simpl. by split. }
  split; [|split; [done|]].
  - apply (inv_put ∅ {[e]} w e x); simpl; [done|done|done| |done| | |done| |set_solver|right; set_solver].
    + unfold is_sock. by rewrite Hs.
    + by apply (i_closed ∅ w Hi e).
    + intros s' [= <-]. split; [right; set_solver|]. intros sid d. by apply (i_streams ∅ w Hi e x s).
    + intros a Ha. apply (i_queue ∅ w Hi e x); [done|]. unfold queue_of. by rewrite Hs.
  - apply subset_size. split; [by apply calm_opens|]. intros Hsub.
    assert (e ∈ opens w) as Hin.
    { apply elem_of_opens. exists x. split; [done|]. unfold is_open. rewrite Hs.
      by rewrite bool_decide_eq_false_2. }
    apply Hsub, elem_of_opens in Hin as (x1 & Hx1 & Ho). simpl in Hx1.
    rewrite lookup_insert_eq in Hx1. injection Hx1 as <-. done.
Qed.

(** What [Close] guarantees at recursion depth [f]. *)
Definition closer (Cl : Z -> M World Z) (f : nat) : Prop :=
  forall e w, inv ∅ w -> is_Some (entries w !! e) -> (size (opens w) < f)%nat ->
    wp (Cl e) w (fun _ w' => kept ∅ w w' /\
      exists x, entries w' !! e = Some x /\ deletable ∅ w' e x).

Lemma wp_ClearAccept Cl f e n : closer Cl f -> forall w,
  inv ∅ w -> (size (opens w) < f)%nat ->
  (exists x s, entries w !! e = Some x /\ body x = Sock s /\
     socketState_ s = QuicSocketState_Closed /\ (length (acceptSockets_ s) <= n)%nat) ->
  wp (ClearAcceptSocketByClose Cl n e) w (fun _ w' => kept ∅ w w').
Proof.
  intros Hcl. induction n as [|n IH]; intros w Hi Hf (x & s & Hx & Hs & Hc & Hl); simpl;
    (apply wp_bind, wp_socket_of; [eauto|]); intros x0 s0 Hx0 Hs0;
    (assert (x = x0) as -> by congruence); (assert (s = s0) as -> by congruence);
    destruct (acceptSockets_ s0) as [|a rest] eqn:Hq; try by apply wp_ret, kept_refl.
  - exfalso. simpl in Hl. lia.
  - apply wp_bind. eapply (wp_update_socket e _ x0 s0); [done|done|].
    set (s1 := with_accepts s0 rest (acceptStreams_ s0)). set (w1 := put_entry w e _).
    assert (kept ∅ w w1) as Hk1.
    { split.
      - apply (inv_socket ∅ w e x0 s0); try done.
        + intros sid d. by apply (i_streams ∅ w Hi e x0 s0).
        + intros b Hb. apply (i_queue ∅ w Hi e x0); [done|]. unfold queue_of. rewrite Hs0, Hq.
          by right.
      - apply (calm_put w e x0); [done|]. split; [by split; [|left]|]. simpl. rewrite Hs0. simpl. split; [|done].
        intros _. split; [done|]. rewrite Hq. simpl. lia. }
    assert (is_Some (entries w !! a)) as Ha.
    { apply (i_queue ∅ w Hi e x0); [done|]. unfold queue_of. rewrite Hs0, Hq. by left. }
    pose proof (calm_opens_size w w1 (proj2 Hk1)).
    apply wp_bind. eapply wp_mono; [apply Hcl; [apply Hk1|exact (kept_alive ∅ w w1 a Hk1 Ha)|lia]|].
    intros ? w2 [Hk2 (x2 & Hx2 & Hd2)].
    apply wp_bind. eapply wp_mono; [apply (wp_DeleteEntry ∅ a x2); [apply Hk2|done|done]|].
    intros ? w3 Hk3.
    assert (kept ∅ w1 w3) as Hk13 by (eapply kept_trans; [apply Hk2|exact Hk3]).
    pose proof (calm_opens_size w1 w3 (proj2 Hk13)).
    eapply wp_mono; [apply IH; [apply Hk13|lia|]|].
    + destruct Hk13 as [_ [Hc13 _]].
      destruct (Hc13 e {| event := event x0; body := Sock s1 |}) as (x3 & Hx3 & _ & Hb3);
        [apply lookup_insert_eq|]. simpl in Hb3. destruct (body x3) as [s3|] eqn:Hs3; [|done].
      destruct Hb3 as [Hb3 _]. destruct (Hb3 Hc) as [? Hlen]. exists x3, s3.
      repeat split; try done. simpl in Hlen, Hl. lia.
    + intros ? w4 Hk4. eapply kept_trans; [apply Hk1|]. eapply kept_trans; [apply Hk13|exact Hk4].
Qed.

(** A closed socket is not closed again. *)
Lemma Close_again f e x s w :
  entries w !! e = Some x -> body x = Sock s -> socketState_ s = QuicSocketState_Closed ->
  Close (S f) e w = Ret 0 w.
Proof.
  intros Hx Hs Hc. simpl. unfold socket_of, entry_of, get, deref, mbind, M_bind.
  rewrite Hx, Hs. simpl. by rewrite bool_decide_eq_true_2.
Qed.

Lemma inv_window e x w :
  inv {[e]} w -> entries w !! e = Some x -> closeTrigger_ (event x) = true -> inv ∅ w.
Proof.
  intros Hi Hx Hc. split; try apply Hi.
  - intros e1 x1 ep q H1 Hw. destruct (i_wait _ w Hi e1 x1 ep q H1 Hw) as (p & fd & ? & ? & Hr).
    exists p, fd. split; [done|]. split; [done|]. destruct Hr as [?| ->%elem_of_singleton]; [by left|].
    rewrite Hx in H1. injection H1 as <-. rewrite (i_closed _ w Hi e x Hx Hc) in Hw.
    by rewrite lookup_empty in Hw.
  - intros e1 x1 s1 H1 Hs Hcl. left. destruct (i_state _ w Hi e1 x1 s1 H1 Hs Hcl) as [?|He]; [done|].
    apply elem_of_singleton in He as ->. rewrite Hx in H1. by injection H1 as <-.
Qed.

(** The window ends with [ClearWaitingsByClose]. *)
Lemma wp_ClearWaitings_window e w :
  inv {[e]} w -> is_Some (entries w !! e) ->
  wp (ClearWaitingsByClose e) w (fun _ w' => kept ∅ w w' /\
    forall x, entries w' !! e = Some x -> closeTrigger_ (event x) = true).
Proof.
  intros Hi [x Hx]. destruct (closeTrigger_ (event x)) eqn:Ec.
  - apply (wp_ClearWaitings ∅); [by eapply inv_window|eauto|set_solver|done].
  - apply (wp_ClearWaitings {[e]}); [done|eauto|done|]. intros x' Hx' Hc'. congruence.
Qed.

Lemma wp_Close f : closer (Close f) f.
Proof.
  induction f as [|f IH]; intros e w Hi He Hf; [lia|]. simpl.
  apply wp_bind, wp_socket_of; [done|]. intros x s Hx Hs. case_bool_decide as Hc.
  { apply wp_ret. split; [by apply kept_refl|]. exists x. split; [done|].
    apply deletable_sock; [done|done|unfold is_sock; by rewrite Hs|].
    by apply (i_state ∅ w Hi e x s). }
  apply wp_bind. eapply (wp_update_socket e _ x s); [done|done|].
  destruct (closing_state w e x s Hx Hs Hc Hi) as (Hi1 & Hc1 & Hsz).
  set (w1 := put_entry w e _) in *.
  assert (forall w', calm w1 w' -> exists x' s', entries w' !! e = Some x' /\ body x' = Sock s' /\
            socketState_ s' = QuicSocketState_Closed) as Hstill.
  { intros w' [Hc' _]. destruct (Hc' e {| event := event x; body := Sock (with_state s QuicSocketState_Closed) |})
      as (x' & Hx' & _ & Hb'); [apply lookup_insert_eq|]. simpl in Hb'.
    destruct (body x') as [s'|] eqn:Hs'; [|done]. exists x', s'. split; [done|]. split; [done|].
    by apply Hb'. }
  assert (forall w', calm w1 w' -> is_Some (entries w' !! e)) as Hal.
  { intros w' (x' & ? & ? & _)%Hstill. eauto. }
  apply wp_bind, wp_get, wp_bind.
  eapply wp_mono; [apply (wp_on_visitor {[e]}); [done|by apply Hal|apply mild_CancelNoAckAlarm]|].
  intros ? w2 Hk2. destruct (Hal w2 (proj2 Hk2)) as [x2 Hx2].
  apply wp_bind. eapply wp_entry_of; [done|]. apply wp_bind.
  eapply (wp_mono _ _ (fun _ w' => kept {[e]} w1 w')).
  { destruct (udpSocket_ s); [apply wp_modify|by apply wp_ret].
    eapply kept_quiet; [exact Hk2|by split]. }
  intros ? w3 Hk3. apply wp_bind.
  eapply wp_mono; [apply (wp_TearDown {[e]}); [apply Hk3|apply Hal, Hk3|]|].
  { intros w' Hi' Hc'. destruct (Hstill w') as (x' & s' & Hx' & Hs' & Hcl').
    { transitivity w3; [apply Hk3|done]. }
    destruct f as [|f]; [lia|]. unfold wp. rewrite (Close_again f e x' s') by done.
    split; [by apply kept_refl|]. exists x'. split; [done|].
    apply deletable_sock; [done|done|unfold is_sock; by rewrite Hs'|right; set_solver]. }
  intros ? w4 Hk4'. assert (kept {[e]} w1 w4) as Hk4 by (eapply kept_trans; [apply Hk3|exact Hk4']).
  apply wp_bind. eapply wp_mono; [apply wp_ClearWaitings_window; [apply Hk4|apply Hal, Hk4]|].
  intros ? w5 [Hk5 Hct5].
  assert (kept ∅ w1 w5) as Hk15 by (eapply kept_trans; [apply Hk4|exact Hk5]).
  apply wp_bind, wp_socket_of; [apply Hal, Hk15|]. intros x5 s5 Hx5 Hs5.
  pose proof (calm_opens_size w1 w5 (proj2 Hk15)).
  apply wp_bind. eapply wp_mono; [apply (wp_ClearAccept (Close f) f); [done|apply Hk15|lia|]|].
  { destruct (Hstill w5 (proj2 Hk15)) as (x' & s' & Hx' & Hs' & Hcl').
    exists x', s'. assert (x' = x5) as -> by congruence. assert (s' = s5) as -> by congruence. auto. }
  intros ? w6 Hk6. apply wp_ret.
  assert (kept ∅ w5 w6) as Hk56 by exact Hk6.
  split; [eapply kept_trans; [exact Hc1|]; eapply kept_trans; [apply Hk15|done]|].
  destruct Hk56 as [Hi6 [Hc6 _]]. destruct (Hc6 e x5 Hx5) as (x6 & Hx6 & Hce).
  exists x6. split; [done|]. apply deletable_sock; [done|done| |].
  - rewrite (calm_sock x5 x6 Hce). unfold is_sock. by rewrite Hs5.
  - left. apply Hce. by apply Hct5.
Qed.

Lemma wp_CloseSocket e w :
  inv ∅ w -> is_Some (entries w !! e) ->
  wp (CloseSocket e) w (fun _ w' => kept ∅ w w' /\
    exists x, entries w' !! e = Some x /\ deletable ∅ w' e x).
Proof.
  intros Hi He. unfold CloseSocket. apply wp_bind, wp_get. apply wp_Close; [done|done|].
  apply opens_fuel.
Qed.

(** ** Calls that create objects *)

(** The postcondition of a whole call. *)
Definition good (w w' : World) : Prop := inv ∅ w' /\ ext w w'.

Lemma good_refl w : inv ∅ w -> good w w.
Proof. by split. Qed.

Lemma kept_good w w' : kept ∅ w w' -> good w w'.
Proof. intros [? ?]. split; [done|by apply calm_ext]. Qed.

Lemma good_trans w1 w2 w3 : good w1 w2 -> good w2 w3 -> good w1 w3.
Proof. intros [_ E1] [Hi E2]. split; [done|by transitivity w2]. Qed.

Lemma good_quiet w w' : inv ∅ w -> quiet w w' -> good w w'.
Proof. intros Hi Hq. split; [by eapply inv_quiet|by apply quiet_ext]. Qed.

Lemma good_alive w w' e : good w w' -> is_Some (entries w !! e) -> is_Some (entries w' !! e).
Proof. intros [_ He]. by apply ext_alive. Qed.

Lemma good_epoller w w' ep :
  good w w' -> is_Some (epollers w !! ep) -> is_Some (epollers w' !! ep).
Proof. intros [_ [_ He]]. apply He. Qed.

(** Sequencing with [good]. *)
Lemma wp_seq {A B} (m : M World A) (f : A -> M World B) w (Q : A -> World -> Prop)
    (R : B -> World -> Prop) :
  wp m w (fun a w' => good w w' /\ Q a w') ->
  (forall a w', good w w' -> Q a w' -> wp (f a) w' (fun b w2 => good w' w2 /\ R b w2)) ->
  wp (m ≫= f) w (fun b w2 => good w w2 /\ R b w2).
Proof.
  intros Hm Hf. apply wp_bind. eapply wp_mono; [exact Hm|]. intros a w' [Hg HQ].
  eapply wp_mono; [by apply Hf|]. intros b w2 [Hg2 HR]. split; [by eapply good_trans|done].
Qed.

Lemma wp_good {A} (m : M World A) w (R : World -> World -> Prop) :
  (forall w', R w w' -> good w w') -> wp m w (fun _ => R w) ->
  wp m w (fun _ w' => good w w' /\ True).
Proof. intros HR Hm. eapply wp_mono; [exact Hm|]. intros a w' Hw. split; [by apply HR|done]. Qed.

Definition safe_in {A} (m : M World A) (w : World) : Prop :=
  wp m w (fun _ w' => good w w' /\ True).

Lemma safe_seq {A B} (m : M World A) (f : A -> M World B) w :
  safe_in m w -> (forall a w', good w w' -> safe_in (f a) w') -> safe_in (m ≫= f) w.
Proof. intros Hm Hf. eapply wp_seq; [exact Hm|]. intros a w' Hg _. by apply Hf. Qed.

Lemma safe_ret {A} (a : A) w : inv ∅ w -> safe_in (mret a) w.
Proof. intros Hi. split; [by apply good_refl|done]. Qed.

Lemma safe_get {A} (f : World -> M World A) w : safe_in (f w) w -> safe_in (get ≫= f) w.
Proof. done. Qed.

Lemma safe_crashed {A} c w : tolerated c -> safe_in (@crashed World A c) w.
Proof. done. Qed.

Lemma safe_deref {A B} (p : option A) c (f : A -> M World B) w :
  tolerated c -> (forall a, p = Some a -> safe_in (f a) w) -> safe_in (deref p c ≫= f) w.
Proof. intros Hc Hf. apply wp_bind, wp_deref; [done|]. intros a Ha. by apply Hf. Qed.

Lemma safe_when b m w : inv ∅ w -> safe_in m w -> safe_in (when b m) w.
Proof. intros. destruct b; [done|by apply safe_ret]. Qed.

Lemma safe_quiet {A} (m : M World A) w :
  inv ∅ w -> wp m w (fun _ w' => quiet w w') -> safe_in m w.
Proof. intros Hi. apply (wp_good m w quiet). intros w' Hq. by apply good_quiet. Qed.

Lemma safe_kept {A} (m : M World A) w : wp m w (fun _ w' => kept ∅ w w') -> safe_in m w.
Proof. apply (wp_good m w (kept ∅)). intros w'. apply kept_good. Qed.

Lemma safe_fail e w : inv ∅ w -> safe_in (fail e) w.
Proof. intros Hi. apply safe_quiet; [done|]. eapply wp_mono; [apply quiet_fail|]. by intros ? ? []. Qed.

Lemma safe_errno e w : inv ∅ w -> safe_in (set_errno e) w.
Proof. intros Hi. apply safe_quiet; [done|apply quiet_set_errno]. Qed.

Lemma safe_syscall w : inv ∅ w -> safe_in syscall w.
Proof. intros Hi. apply safe_quiet; [done|apply quiet_syscall]. Qed.

Lemma safe_modify f w : inv ∅ w -> quiet w (f w) -> safe_in (modify f) w.
Proof. intros Hi Hq. apply safe_quiet; [done|by apply wp_modify]. Qed.

Lemma safe_on_visitor {A} e (m : M Visitor.Ctx A) w :
  inv ∅ w -> is_Some (entries w !! e) -> mild m -> safe_in (on_visitor e m) w.
Proof. intros. apply safe_kept. by apply wp_on_visitor. Qed.

Lemma safe_timers {A} (m : M TaskRunner.Timers A) w :
  inv ∅ w -> mild m -> safe_in (zoom timers_lens m) w.
Proof. intros Hi Hm. apply safe_quiet; [done|]. apply wp_mild; [done|]. intros. apply quiet_timers. Qed.

Lemma safe_for_each {A} (l : list A) (f : A -> M World unit) w :
  inv ∅ w -> (forall x w', good w w' -> x ∈ l -> safe_in (f x) w') -> safe_in (for_each l f) w.
Proof.
  revert w. induction l as [|x l IH]; intros w Hi Hf; [by apply safe_ret|].
  simpl. apply safe_seq; [apply Hf; [by apply good_refl|by left]|]. intros _ w' Hg.
  apply IH; [apply Hg|]. intros y w2 Hg2 Hy. apply Hf; [by eapply good_trans|by right].
Qed.

Lemma safe_entry_of {A} e (f : Entry -> M World A) w :
  is_Some (entries w !! e) -> (forall x, entries w !! e = Some x -> safe_in (f x) w) ->
  safe_in (entry_of e ≫= f) w.
Proof. intros [x Hx] Hf. apply wp_bind. eapply wp_entry_of; [done|by apply Hf]. Qed.

Lemma safe_socket_of {A} e (f : SocketEntry -> M World A) w :
  is_Some (entries w !! e) ->
  (forall x s, entries w !! e = Some x -> body x = Sock s -> safe_in (f s) w) ->
  safe_in (socket_of e ≫= f) w.
Proof. intros He Hf. apply wp_bind, wp_socket_of; [done|]. intros x s Hx Hs. by apply (Hf x s). Qed.

Lemma safe_stream_of {A} e (f : StreamEntry -> M World A) w :
  is_Some (entries w !! e) ->
  (forall x s, entries w !! e = Some x -> body x = Strm s -> safe_in (f s) w) ->
  safe_in (stream_of e ≫= f) w.
Proof.
  intros [x Hx] Hf. apply wp_bind. unfold stream_of. apply wp_bind. eapply wp_entry_of; [done|].
  destruct (body x) eqn:E; [apply wp_crashed; by split|]. apply wp_ret. by apply (Hf x).
Qed.

(** Updates of a socket that open no stream, close nothing and queue only live
    entries. *)
Lemma safe_update_socket e f w :
  inv ∅ w -> is_Some (entries w !! e) ->
  (forall x s, entries w !! e = Some x -> body x = Sock s ->
     (socketState_ (f s) = QuicSocketState_Closed -> socketState_ s = QuicSocketState_Closed) /\
     (forall sid d, (sid, d) ∈ dynamic_stream_map_ (impl_ (f s)) -> good_stream w e sid d) /\
     (forall a, a ∈ acceptSockets_ (f s) ++ acceptStreams_ (f s) -> is_Some (entries w !! a))) ->
  safe_in (update_socket e f) w.
Proof.
  intros Hi He Hf. unfold safe_in, update_socket. apply wp_bind, wp_socket_of; [done|].
  intros x s Hx Hs. eapply wp_update_entry; [done|]. rewrite Hs.
  destruct (Hf x s Hx Hs) as (H1 & H2 & H3). split; [|done]. split.
  - by apply (inv_socket ∅ w e x s).
  - split; [|done]. intros e1 x1 Hx1. simpl. rewrite lookup_insert. case_decide; [subst|by exists x1].
    rewrite Hx in Hx1. injection Hx1 as <-. eexists. split; [done|]. simpl. split; [|done].
    unfold is_sock. by rewrite Hs.
Qed.

(** Updates that keep state, session and queues. *)
Lemma safe_update_same e f w :
  inv ∅ w -> is_Some (entries w !! e) ->
  (forall s, (socketState_ (f s) = QuicSocketState_Closed -> socketState_ s = QuicSocketState_Closed) /\
     dynamic_stream_map_ (impl_ (f s)) = dynamic_stream_map_ (impl_ s) /\
     (forall a, a ∈ acceptSockets_ (f s) ++ acceptStreams_ (f s) ->
                a ∈ acceptSockets_ s ++ acceptStreams_ s)) ->
  safe_in (update_socket e f) w.
Proof.
  intros Hi He Hf. apply safe_update_socket; [done|done|]. intros x s Hx Hs.
  destruct (Hf s) as (H1 & H2 & H3). split; [done|]. split.
  - rewrite H2. intros sid d. by apply (i_streams ∅ w Hi e x s).
  - intros a Ha%H3. apply (i_queue ∅ w Hi e x); [done|]. unfold queue_of. by rewrite Hs.
Qed.

Lemma safe_set_state e st w :
  inv ∅ w -> is_Some (entries w !! e) -> st <> QuicSocketState_Closed -> safe_in (set_state e st) w.
Proof. intros Hi He Hst. apply safe_update_same; [done|done|]. by intros s. Qed.

Lemma kept_stream w e x s s' :
  inv ∅ w -> entries w !! e = Some x -> body x = Strm s ->
  socketEntry_ s' = socketEntry_ s -> streamId_ s' = streamId_ s ->
  kept ∅ w (put_entry w e {| event := event x; body := Strm s' |}).
Proof.
  intros Hi Hx Hs H1 H2. split.
  - apply (inv_put ∅ ∅ w e x); simpl; [done|done|done| |done| |done| | |set_solver|by right].
    + unfold is_sock. by rewrite Hs.
    + by apply (i_closed ∅ w Hi e).
    + intros s1 [= <-]. by exists s.
    + intros a. unfold queue_of. simpl. set_solver.
  - apply (calm_put w e x); [done|]. split; [by split; [|left]|]. simpl. by rewrite Hs.
Qed.

Lemma safe_update_stream e f w :
  inv ∅ w -> is_Some (entries w !! e) ->
  (forall s, socketEntry_ (f s) = socketEntry_ s /\ streamId_ (f s) = streamId_ s) ->
  safe_in (update_stream e f) w.
Proof.
  intros Hi He Hf. unfold update_stream. apply safe_stream_of; [done|]. intros x s Hx Hs.
  apply safe_kept. eapply wp_update_entry; [done|]. rewrite Hs. destruct (Hf s) as [H1 H2].
  by eapply kept_stream.
Qed.

(** ** New entries *)

Lemma Alloc_spec w :
  inv ∅ w ->
  match Alloc w with
  | Ret fd w' => exists ff, w' = set_fds w ff (fdManager w) /\ 1 <= fd /\
      fdManager w !! fd = None /\ FdFactory.wf ff ({[fd]} ∪ dom (fdManager w))
  | Crash c => tolerated c
  end.
Proof.
  intros Hi. pose proof (FdFactory.Alloc_wf (fdFactory w) (dom (fdManager w)) (i_factory ∅ w Hi)) as Hwf.
  assert ((FdFactory.free_ (fdFactory w) = [] -> FdFactory.room (fdFactory w)) ->
    let '(fd, ff) := FdFactory.Alloc (fdFactory w) in
    exists ff', set_fds w ff (fdManager w) = set_fds w ff' (fdManager w) /\ 1 <= fd /\
      fdManager w !! fd = None /\ FdFactory.wf ff' ({[fd]} ∪ dom (fdManager w))) as Hall.
  { intros Hr. specialize (Hwf Hr). destruct (FdFactory.Alloc _) as [fd ff].
    destruct Hwf as (? & ?%not_elem_of_dom & ?). by exists ff. }
  unfold Alloc. destruct (FdFactory.free_ (fdFactory w)) as [|a r] eqn:Ef.
  - destruct (Z.ltb_spec (FdFactory.acq_ (fdFactory w)) 2147483647); [|by split].
    specialize (Hall (fun _ => ltac:(done))). by destruct (FdFactory.Alloc _).
  - specialize (Hall ltac:(done)). by destruct (FdFactory.Alloc _).
Qed.

End CallSafety.
