(* ===== verification/ApiSafety.v ===== *)
(** Every call of the interface keeps the pointers valid: the theorem about
    whole runs of the library. *)

From S2P Require Import Prelude FdTable ConnectionManager Options TaskRunner Alarm World.
From S2P Require Import Epoller Socket Api Safety EventSafety CallSafety System.

Section ApiSafety.
Context `{Iteration}.

(** ** New entries *)

(** The state after [fd = Alloc(); new ...; SetFd(fd); Put(fd, ...)]. *)
Definition spawned (w : World) (ff : FdFactory.FdFactory) (fd : Z) (b : Body) : World :=
  set_fds (set_entries w (<[nextEntry w := {| event := ev_fd fd Event_init; body := b |}]> (entries w))
                       (nextEntry w + 1))
          ff (FdManager.Put fd (nextEntry w) (fdManager w)).

Definition fresh_body (b : Body) : Prop :=
  match b with
  | Sock s => socketState_ s <> QuicSocketState_Closed /\ dynamic_stream_map_ (impl_ s) = [] /\
              acceptSockets_ s = [] /\ acceptStreams_ s = []
  | Strm _ => True
  end.

Lemma fresh_entry w : inv ∅ w -> entries w !! nextEntry w = None.
Proof.
  intros Hi. destruct (entries w !! nextEntry w) as [x|] eqn:E; [|done].
  apply (i_next ∅ w Hi) in E. lia.
Qed.

Lemma spawned_good w ff fd b :
  inv ∅ w -> 1 <= fd -> fdManager w !! fd = None ->
  FdFactory.wf ff ({[fd]} ∪ dom (fdManager w)) -> fresh_body b ->
  good w (spawned w ff fd b).
Proof.
  intros Hi Hpos Hnone Hwf Hb. pose proof (fresh_entry w Hi) as Hfr.
  set (x0 := {| event := ev_fd fd Event_init; body := b |}).
  assert (forall e x, <[nextEntry w := x0]> (entries w) !! e = Some x ->
            e = nextEntry w /\ x = x0 \/ e <> nextEntry w /\ entries w !! e = Some x) as Hent.
  { intros e x. rewrite lookup_insert. case_decide; [subst; intros [= <-]; auto|auto]. }
  assert (forall e, is_Some (entries w !! e) -> is_Some (<[nextEntry w := x0]> (entries w) !! e))
    as Hal by (intros e ?; apply lookup_insert_is_Some'; by right).
  assert (forall e sid d, good_stream w e sid d -> good_stream (spawned w ff fd b) e sid d) as Hgs.
  { intros e sid d (xd & sd & Hd & ?). exists xd, sd. simpl. rewrite lookup_insert_ne; [done|].
    intros <-. congruence. }
  split; [split; simpl; try apply Hi|].
  - unfold FdManager.Put. by rewrite dom_insert_L.
  - intros fd1 e1. unfold FdManager.Put. rewrite lookup_insert. case_decide; [subst|].
    + intros [= <-]. exists x0. by rewrite lookup_insert_eq.
    + intros (x1 & H1 & F1)%(i_table ∅ w Hi). exists x1. rewrite lookup_insert_ne; [done|].
      intros <-. congruence.
  - intros e x. unfold FdManager.Put. intros [[-> ->]|[Hne H1]]%Hent.
    + right. by rewrite lookup_insert_eq.
    + destruct (i_fd ∅ w Hi e x H1) as [?|Hm]; [by left|right]. rewrite lookup_insert_ne; [done|].
      congruence.
  - intros e x [[-> _]|[_ H1]]%Hent; [lia|]. apply (i_next ∅ w Hi) in H1. lia.
  - intros e x ep q [[-> ->]|[_ H1]]%Hent; simpl; [by rewrite lookup_empty|].
    by apply (i_wait ∅ w Hi).
  - intros e x [[-> ->]|[_ H1]]%Hent; [done|]. by apply (i_closed ∅ w Hi e).
  - intros e x s [[-> ->]|[_ H1]]%Hent; simpl; [|by apply (i_state ∅ w Hi e)].
    intros ->. by destruct Hb as [? _].
  - intros e x s sid d [[-> ->]|[_ H1]]%Hent; simpl; [|intros; by eapply Hgs, (i_streams ∅ w Hi e)].
    intros ->. destruct Hb as (_ & -> & _). set_solver.
  - intros e x a [[-> ->]|[_ H1]]%Hent; unfold queue_of; simpl.
    + destruct b; [destruct Hb as (_ & _ & -> & ->)|]; set_solver.
    + intros Ha. apply Hal. by eapply (i_queue ∅ w Hi e x).
  - split; [|done]. intros e x Hx. exists x. simpl. rewrite lookup_insert_ne; [done|].
    intros <-. congruence.
Qed.

Lemma wp_NewQuicStream e sid w :
  inv ∅ w -> is_Some (entries w !! e) ->
  wp (NewQuicStream e sid) w (fun st w' => good w w' /\ good_stream w' e sid st).
Proof.
  intros Hi [x Hx]. unfold NewQuicStream. apply wp_bind. pose proof (Alloc_spec w Hi) as Ha.
  unfold wp at 1. destruct (Alloc w) as [fd w1|c]; [|done].
  destruct Ha as (ff & -> & Hpos & Hnone & Hwf).
  apply wp_bind. eapply (wp_entry_of e x); [done|]. apply wp_bind. unfold wp at 1. simpl.
  apply wp_bind, wp_modify, wp_ret. simpl.
  set (b := Strm _). split.
  - exact (spawned_good w ff fd b Hi Hpos Hnone Hwf I).
  - exists {| event := ev_fd fd Event_init; body := b |}. eexists. simpl.
    rewrite lookup_insert_eq. repeat split. unfold Fd. simpl. lia.
Qed.

Lemma wp_NewQuicSocketEntry b id w :
  inv ∅ w ->
  wp (NewQuicSocketEntry b id) w (fun e w' => good w w' /\ is_Some (entries w' !! e)).
Proof.
  intros Hi. unfold NewQuicSocketEntry. eapply (wp_seq _ _ _ (fun _ _ => True)).
  { destruct (_ =? _); [|by apply safe_ret]. apply safe_seq; [|intros; by apply safe_ret; apply H0].
    apply safe_quiet; [done|apply quiet_kernel_value]. }
  intros id' w0 [Hi0 _] _. apply wp_bind. pose proof (Alloc_spec w0 Hi0) as Ha.
  unfold wp at 1. destruct (Alloc w0) as [fd w1|c]; [|done].
  destruct Ha as (ff & -> & Hpos & Hnone & Hwf).
  apply wp_bind. unfold wp at 1. simpl. apply wp_bind, wp_modify, wp_ret. simpl. split.
  - apply (spawned_good w0 ff fd (Sock _) Hi0 Hpos Hnone Hwf). by simpl.
  - rewrite lookup_insert_eq. eauto.
Qed.

(** ** Callbacks *)

(** Delegates survive what happens between their creation and their activation. *)
Lemma good_stream_ready e f ev w e1 sid d :
  inv ∅ w -> is_Some (entries w !! e) ->
  (forall v, fd_ (f v) = fd_ v /\ waitings_ (f v) = waitings_ v /\
             closeTrigger_ (f v) = closeTrigger_ v) ->
  good_stream w e1 sid d ->
  wp (update_event e f;; Trigger e ev) w (fun _ w' => good_stream w' e1 sid d).
Proof.
  intros Hi [x Hx] Hf Hg. destruct (Hf (event x)) as (F1 & F2 & F3).
  apply wp_bind. eapply wp_update_event; [done|].
  destruct (inv_event ∅ w e x (f (event x))) as [Hi1 Hc1]; [done|done|done|by rewrite F2|done|].
  set (x1 := {| event := f (event x); body := body x |}) in *.
  assert (good_stream (put_entry w e x1) e1 sid d) as Hg1.
  { eapply good_stream_put; [done|done| |done|done]. intros s Hs. by exists s. }
  eapply wp_mono; [eapply quiet_Trigger; [exact Hi1|]|].
  - simpl. rewrite lookup_insert_eq. eauto.
  - intros ? w' [_ [E _] _ _ _]. destruct Hg1 as (xd & sd & ?). exists xd, sd. by rewrite E.
Qed.

Lemma wp_OnIncomingStream e sid w :
  inv ∅ w -> is_Some (entries w !! e) ->
  wp (OnIncomingStream e sid) w (fun st w' => good w w' /\ good_stream w' e sid st).
Proof.
  intros Hi He. unfold OnIncomingStream. eapply wp_seq; [by apply wp_NewQuicStream|].
  intros st w1 Hg1 Hst. assert (is_Some (entries w1 !! e)) as He1 by by eapply good_alive.
  assert (is_Some (entries w1 !! st)) as Hal by (destruct Hst as (? & ? & ? & _); eauto).
  destruct He1 as [x1 Hx1]. apply wp_bind.
  unfold update_socket. apply wp_bind, wp_socket_of; [eauto|]. intros x s Hx Hs.
  assert (x1 = x) as -> by congruence. eapply wp_update_entry; [done|]. rewrite Hs.
  set (s' := with_accepts _ _ _). set (w2 := put_entry w1 e _).
  assert (good w1 w2) as Hg2.
  { split.
    - apply (inv_socket ∅ w1 e x s); [apply Hg1|done|done|done|..].
      + intros sid1 d1. apply (i_streams ∅ w1 (proj1 Hg1) e x s); done.
      + simpl. intros a. rewrite elem_of_app, elem_of_app, list_elem_of_singleton.
        intros Ha. destruct (decide (a = st)) as [->|]; [done|].
        apply (i_queue ∅ w1 (proj1 Hg1) e x); [done|]. unfold queue_of. rewrite Hs. set_solver.
    - split; [|done]. intros e1 y Hy. simpl. rewrite lookup_insert. case_decide; [subst|by exists y].
      assert (x = y) as <- by congruence. eexists. split; [done|]. split; [|done].
      unfold is_sock. simpl. by rewrite Hs. }
  assert (good_stream w2 e sid st) as Hst2.
  { eapply good_stream_put; [done|done|done| |done]. unfold is_sock. simpl. by rewrite Hs. }
  apply wp_bind. eapply wp_mono.
  { apply wp_and; [apply (wp_SetReadable ∅)|apply good_stream_ready]; try done; try apply Hg2;
      by eapply good_alive; eauto. }
  intros ? w3 [Hk3 Hst3]. apply wp_ret. split; [|done].
  eapply good_trans; [exact Hg2|]. by apply kept_good.
Qed.

Lemma safe_ActivateStream e sid st w :
  inv ∅ w -> is_Some (entries w !! e) -> good_stream w e sid st ->
  safe_in (ActivateStream e sid st) w.
Proof.
  intros Hi He Hst. apply safe_update_socket; [done|done|]. intros x s Hx Hs. simpl.
  split; [done|]. split.
  - intros sid1 d1. rewrite elem_of_app, list_elem_of_singleton. intros [Hin|[= -> ->]]; [|done].
    by apply (i_streams ∅ w Hi e x s).
  - intros a Ha. apply (i_queue ∅ w Hi e x); [done|]. unfold queue_of. by rewrite Hs.
Qed.

Lemma safe_SetReadable e b w :
  inv ∅ w -> is_Some (entries w !! e) -> safe_in (SetReadable e b) w.
Proof. intros. by apply safe_kept, wp_SetReadable. Qed.

Lemma safe_SetWritable e b w :
  inv ∅ w -> is_Some (entries w !! e) -> safe_in (SetWritable e b) w.
Proof. intros. by apply safe_kept, wp_SetWritable. Qed.

Lemma safe_PushAcceptQueue e a w :
  inv ∅ w -> is_Some (entries w !! e) -> is_Some (entries w !! a) ->
  safe_in (PushAcceptQueue e a) w.
Proof.
  intros Hi He Ha. unfold PushAcceptQueue. apply safe_seq.
  - apply safe_update_socket; [done|done|]. intros x s Hx Hs. simpl. split; [done|]. split.
    + intros sid d. by apply (i_streams ∅ w Hi e x s).
    + intros b. rewrite !elem_of_app, list_elem_of_singleton. intros Hb.
      destruct (decide (b = a)) as [->|]; [done|].
      apply (i_queue ∅ w Hi e x); [done|]. unfold queue_of. rewrite Hs. set_solver.
  - intros _ w1 Hg1. apply safe_SetReadable; [apply Hg1|by eapply good_alive].
Qed.

Lemma fd_alive w fd e : inv ∅ w -> FdManager.Get fd (fdManager w) = Some e -> is_Some (entries w !! e).
Proof.
  intros Hi. unfold FdManager.Get. destruct (fdManager w !! fd) eqn:E; [|done]. intros [= <-].
  destruct (i_table ∅ w Hi fd _ E) as (x & ? & _). eauto.
Qed.

Lemma safe_OnCryptoHandshakeComplete e w :
  inv ∅ w -> is_Some (entries w !! e) -> safe_in (OnCryptoHandshakeComplete e) w.
Proof.
  intros Hi He. unfold OnCryptoHandshakeComplete.
  apply safe_seq; [by apply safe_set_state|]. intros _ w1 Hg1.
  apply safe_seq; [apply safe_SetWritable; [apply Hg1|by eapply good_alive]|]. intros _ w2 Hg2'.
  assert (good w w2) as Hg2 by by eapply good_trans.
  apply safe_socket_of; [by eapply good_alive|]. intros x s Hx Hs.
  case_bool_decide; [|apply safe_ret, Hg2].
  apply safe_deref; [by split|]. intros udp _. apply safe_get.
  apply safe_deref; [by split|]. intros o Ho.
  apply safe_PushAcceptQueue; [apply Hg2|by eapply fd_alive; [apply Hg2|]|by eapply good_alive].
Qed.

Lemma safe_to_stream e x s sid f w :
  inv ∅ w -> entries w !! e = Some x -> body x = Sock s ->
  (forall d, is_Some (entries w !! d) -> safe_in (f d) w) -> safe_in (to_stream s sid f) w.
Proof.
  intros Hi Hx Hs Hf. unfold to_stream.
  destruct (list_find _ _) as [[i [sid' d]]|] eqn:E; [|by apply safe_ret].
  apply list_find_Some in E as (Hl & _). apply list_elem_of_lookup_2 in Hl.
  destruct (i_streams ∅ w Hi e x s _ _ Hx Hs Hl) as (xd & sd & Hd & _). apply Hf. eauto.
Qed.

Lemma safe_OnReceived st bs w :
  inv ∅ w -> is_Some (entries w !! st) -> safe_in (OnReceived st bs) w.
Proof.
  intros Hi Hst. unfold OnReceived. apply safe_stream_of; [done|]. intros x s Hx Hs.
  apply safe_seq; [by apply safe_update_stream|]. intros _ w1 Hg1.
  apply safe_when; [apply Hg1|]. apply safe_SetReadable; [apply Hg1|by eapply good_alive].
Qed.

Lemma safe_OnFinRead st w :
  inv ∅ w -> is_Some (entries w !! st) -> safe_in (OnFinRead st) w.
Proof.
  intros Hi Hst. unfold OnFinRead. apply safe_stream_of; [done|]. intros x s Hx Hs.
  destruct (finRead_ s); [by apply safe_ret|by apply safe_update_stream].
Qed.

Lemma closes_CloseSocket e w : is_Some (entries w !! e) -> closes ∅ w CloseSocket e.
Proof.
  intros He w' Hi Hc. apply wp_CloseSocket; [done|]. eapply ext_alive; [by apply calm_ext|done].
Qed.

Lemma safe_deliver e cb w :
  inv ∅ w -> is_Some (entries w !! e) -> safe_in (deliver e cb) w.
Proof.
  intros Hi He. unfold deliver. apply safe_socket_of; [done|]. intros x s Hx Hs.
  destruct (negb _); [by apply safe_ret|]. destruct cb as [|sid|sid bs|sid|sid|sid|ty| |a|err b].
  - by apply safe_OnCryptoHandshakeComplete.
  - case_bool_decide; [by apply safe_ret|]. apply wp_seq with (Q := fun st w' => good_stream w' e sid st).
    + by apply wp_OnIncomingStream.
    + intros st w1 Hg1 Hst. apply safe_ActivateStream; [apply Hg1|by eapply good_alive|done].
  - eapply safe_to_stream; [done..|]. intros d Hd. by apply safe_OnReceived.
  - eapply safe_to_stream; [done..|]. intros d Hd. apply safe_seq; [by apply safe_OnFinRead|].
    intros _ w1 Hg1. apply safe_OnReceived; [apply Hg1|by eapply good_alive].
  - eapply safe_to_stream; [done..|]. intros d Hd. by apply safe_SetWritable.
  - apply safe_kept. eapply wp_mono; [by apply (wp_CloseStreamInner ∅)|]. by intros ? ? [].
  - apply safe_on_visitor; [done|done|apply mild_OnPacketSent].
  - apply safe_on_visitor; [done|done|apply mild_OnAckFrame].
  - by apply safe_update_same.
  - apply safe_kept, wp_TearDown; [done|done|]. by apply closes_CloseSocket.
Qed.

Lemma safe_engine e script w :
  inv ∅ w -> is_Some (entries w !! e) -> safe_in (engine e script) w.
Proof.
  intros Hi He. apply safe_for_each; [done|]. intros cb w' Hg _.
  apply safe_deliver; [apply Hg|by eapply good_alive].
Qed.

(** ** Operations on sockets and streams *)

Ltac ok := first [assumption | apply good_refl; assumption | (eapply good_alive; eassumption)
                 | (eapply good_epoller; eassumption) | (match goal with Hg : good _ ?w |- inv ∅ ?w => exact (proj1 Hg) end)
                 | eauto].

Lemma safe_GetOpt e t w : inv ∅ w -> is_Some (entries w !! e) -> safe_in (GetOpt e t) w.
Proof. intros Hi He. apply safe_on_visitor; [done|done|]. apply mild_zoom, mild_GetOption. Qed.

Lemma safe_set_udp_buffer e w : inv ∅ w -> is_Some (entries w !! e) -> safe_in (set_udp_buffer e) w.
Proof.
  intros Hi He. unfold set_udp_buffer. apply safe_socket_of; [done|]. intros x s Hx Hs.
  destruct (udpSocket_ s); [|by apply safe_ret].
  apply safe_seq; [by apply safe_syscall|]. intros _ w1 Hg. apply safe_ret. ok.
Qed.

Lemma safe_SetOpt e t v w : inv ∅ w -> is_Some (entries w !! e) -> safe_in (SetOpt e t v) w.
Proof.
  intros Hi He. unfold SetOpt. apply safe_seq.
  { apply safe_on_visitor; [done|done|]. apply mild_zoom, mild_SetOption. }
  intros ch w1 Hg. assert (inv ∅ w1) by ok. assert (is_Some (entries w1 !! e)) by ok.
  destruct (negb ch); [by apply safe_ret|].
  repeat case_match; try by apply safe_ret.
  - apply safe_get, safe_on_visitor; [done|done|apply mild_SetNoAckAlarm].
  - by apply safe_set_udp_buffer.
  - by apply safe_set_udp_buffer.
Qed.

Lemma safe_close_and_fail w : inv ∅ w -> safe_in close_and_fail w.
Proof.
  intros Hi. apply safe_seq; [by apply safe_syscall|]. intros _ w1 Hg. apply safe_ret. ok.
Qed.

(** One checked system call of [SetUdpSocket]. *)
Lemma safe_checked_call {A} (k : M World A) (f : M World A) w :
  inv ∅ w -> (forall w', good w w' -> safe_in k w') -> (forall w', good w w' -> safe_in f w') ->
  safe_in (r ← syscall; if r =? -1 then f else k) w.
Proof.
  intros Hi Hk Hf. apply safe_seq; [by apply safe_syscall|]. intros r w1 Hg.
  destruct (r =? -1); [by apply Hf|by apply Hk].
Qed.

Lemma safe_SetUdpSocket e fd w :
  inv ∅ w -> is_Some (entries w !! e) -> safe_in (SetUdpSocket e fd) w.
Proof.
  intros Hi He. unfold SetUdpSocket. apply safe_socket_of; [done|]. intros x s Hx Hs.
  destruct (udpSocket_ s); [by apply safe_fail|].
  assert (forall w', good w w' -> safe_in close_and_fail w') as Hc.
  { intros w' Hg. apply safe_close_and_fail. ok. }
  apply safe_checked_call; [done| |exact Hc]. intros w1 Hg1.
  apply safe_checked_call; [ok| |intros w' Hg; apply Hc; by eapply good_trans]. intros w2 Hg2.
  assert (good w w2) as Hw2 by by eapply good_trans.
  apply safe_seq; [apply safe_GetOpt; ok|]. intros rm w3 Hg3.
  assert (good w w3) as Hw3 by by eapply good_trans.
  apply safe_checked_call; [ok| |intros w' Hg; apply Hc; by eapply good_trans]. intros w4 Hg4.
  assert (good w w4) as Hw4 by by eapply good_trans.
  apply safe_seq; [apply safe_GetOpt; ok|]. intros wm w5 Hg5.
  assert (good w w5) as Hw5 by by eapply good_trans.
  apply safe_checked_call; [ok| |intros w' Hg; apply Hc; by eapply good_trans]. intros w6 Hg6.
  assert (good w w6) as Hw6 by by eapply good_trans.
  apply safe_seq; [apply safe_update_same; [ok|ok|by intros]|]. intros _ w7 Hg7.
  assert (good w w7) as Hw7 by by eapply good_trans.
  apply safe_entry_of; [ok|]. intros x7 Hx7.
  apply safe_seq; [apply safe_modify; [ok|by split]|]. intros _ w8 Hg8. apply safe_ret. ok.
Qed.

Lemma safe_CreateNewUdpSocket e w :
  inv ∅ w -> is_Some (entries w !! e) -> safe_in (CreateNewUdpSocket e) w.
Proof.
  intros Hi He. unfold CreateNewUdpSocket. apply safe_socket_of; [done|]. intros x s Hx Hs.
  destruct (udpSocket_ s); [by apply safe_fail|].
  apply safe_seq; [by apply safe_syscall|]. intros r w1 Hg.
  destruct (r =? -1); [apply safe_ret; ok|]. apply safe_SetUdpSocket; ok.
Qed.

Lemma safe_bind_inited e w : inv ∅ w -> is_Some (entries w !! e) -> safe_in (bind_inited e) w.
Proof.
  intros Hi He. unfold bind_inited. apply safe_socket_of; [done|]. intros x s Hx Hs.
  apply safe_deref; [by split|]. intros u _. apply safe_seq; [by apply safe_syscall|].
  intros r w1 Hg1. apply safe_seq; [apply safe_when; [ok|apply safe_set_state; [ok|ok|done]]|].
  intros _ w2 Hg2. apply safe_ret. ok.
Qed.

Lemma safe_Bind e w : inv ∅ w -> is_Some (entries w !! e) -> safe_in (Bind e) w.
Proof.
  intros Hi He. unfold Bind. apply safe_socket_of; [done|]. intros x s Hx Hs.
  destruct (socketState_ s); try by apply safe_fail.
  - apply safe_seq; [by apply safe_CreateNewUdpSocket|]. intros r w1 Hg1.
    destruct (r <? 0); [apply safe_ret; ok|]. apply safe_bind_inited; ok.
  - by apply safe_bind_inited.
Qed.

Lemma safe_BindUdp e u w : inv ∅ w -> is_Some (entries w !! e) -> safe_in (BindUdp e u) w.
Proof.
  intros Hi He. unfold BindUdp. apply safe_socket_of; [done|]. intros x s Hx Hs.
  destruct (socketState_ s); try by apply safe_fail.
  apply safe_seq; [by apply safe_SetUdpSocket|]. intros r w1 Hg1.
  apply safe_seq; [apply safe_when; [ok|apply safe_set_state; [ok|ok|done]]|].
  intros _ w2 Hg2. apply safe_ret. ok.
Qed.

(** The result of an accept, if any, is live. *)
Definition live_result (r : option Z) (w : World) : Prop :=
  match r with Some a => is_Some (entries w !! a) | None => True end.

Lemma wp_no_entry e w :
  inv ∅ w ->
  wp (set_errno e;; mret None) w (fun r w' => good w w' /\ live_result r w').
Proof.
  intros Hi. eapply (wp_seq _ _ _ (fun _ _ => True)); [by apply safe_errno|]. intros _ w1 Hg _.
  apply wp_ret. split; [apply good_refl; ok|done].
Qed.

Lemma wp_pop e f a w :
  inv ∅ w -> is_Some (entries w !! e) -> is_Some (entries w !! a) ->
  (forall s, socketState_ (f s) = socketState_ s /\ impl_ (f s) = impl_ s) ->
  (forall x s b, entries w !! e = Some x -> body x = Sock s ->
     b ∈ acceptSockets_ (f s) ++ acceptStreams_ (f s) -> b ∈ acceptSockets_ s ++ acceptStreams_ s) ->
  wp (update_socket e f;; mret (Some a)) w (fun r w' => good w w' /\ live_result r w').
Proof.
  intros Hi He Ha Hf Hq. eapply (wp_seq _ _ _ (fun _ _ => True)).
  - apply safe_update_socket; [done|done|]. intros x s Hx Hs. destruct (Hf s) as [E1 E2].
    rewrite E1, E2. split; [done|]. split.
    + intros sid d. by apply (i_streams ∅ w Hi e x s).
    + intros b Hb. apply (i_queue ∅ w Hi e x); [done|]. unfold queue_of. rewrite Hs.
      by apply (Hq x s).
  - intros _ w1 Hg _. apply wp_ret. split; [apply good_refl; ok|]. simpl. ok.
Qed.

Lemma wp_AcceptSocket e w :
  inv ∅ w -> is_Some (entries w !! e) ->
  wp (AcceptSocket e) w (fun r w' => good w w' /\ live_result r w').
Proof.
  intros Hi He. unfold AcceptSocket. apply wp_bind, wp_socket_of; [done|]. intros x s Hx Hs.
  destruct (negb _); [by apply wp_no_entry|].
  destruct (acceptSockets_ s) as [|a rest] eqn:Hq; [by apply wp_no_entry|].
  apply wp_pop; [done|done| |done|].
  - apply (i_queue ∅ w Hi e x); [done|]. unfold queue_of. rewrite Hs, Hq. by left.
  - intros x1 s1 b Hx1 Hs1. simpl. assert (s1 = s) as -> by congruence. rewrite Hq. set_solver.
Qed.

Lemma wp_AcceptStream e w :
  inv ∅ w -> is_Some (entries w !! e) ->
  wp (AcceptStream e) w (fun r w' => good w w' /\ live_result r w').
Proof.
  intros Hi He. unfold AcceptStream. apply wp_bind, wp_socket_of; [done|]. intros x s Hx Hs.
  destruct (negb _); [by apply wp_no_entry|].
  destruct (acceptStreams_ s) as [|a rest] eqn:Hq; [by apply wp_no_entry|].
  apply wp_pop; [done|done| |done|].
  - apply (i_queue ∅ w Hi e x); [done|]. unfold queue_of. rewrite Hs, Hq. set_solver.
  - intros x1 s1 b Hx1 Hs1. simpl. assert (s1 = s) as -> by congruence. rewrite Hq. set_solver.
Qed.

Lemma wp_CreateStream e w :
  inv ∅ w -> is_Some (entries w !! e) ->
  wp (CreateStream e) w (fun r w' => good w w' /\ live_result r w').
Proof.
  intros Hi He. unfold CreateStream. apply wp_bind, wp_socket_of; [done|]. intros x s Hx Hs.
  destruct (negb _); [by apply wp_no_entry|].
  eapply (wp_seq _ _ _ (fun _ _ => True)).
  { unfold GetNextOutgoingStreamId. apply safe_socket_of; [done|]. intros x1 s1 Hx1 Hs1.
    apply safe_seq; [|intros _ w1 Hg; apply safe_ret; ok].
    apply safe_update_socket; [done|done|]. intros x2 s2 Hx2 Hs2. simpl.
    assert (s2 = s1) as -> by congruence. split; [done|]. split.
    - intros sid d. by apply (i_streams ∅ w Hi e x1 s1).
    - intros b Hb. apply (i_queue ∅ w Hi e x1); [done|]. unfold queue_of. by rewrite Hs1. }
  intros sid w1 Hg1 _. eapply (wp_seq _ _ _ (fun st w' => good_stream w' e sid st)).
  { apply wp_NewQuicStream; ok. }
  intros st w2 Hg2 Hst. assert (is_Some (entries w2 !! st)) as Hal by (destruct Hst as (? & ? & ? & _); eauto).
  assert (good w w2) as Hw2 by by eapply good_trans.
  eapply (wp_seq _ _ _ (fun _ _ => True)); [apply safe_ActivateStream; ok|].
  intros _ w3 Hg3 _. apply wp_ret. split; [apply good_refl; ok|]. simpl. ok.
Qed.

(** [GetQuartcStream] finds the live socket of an open stream. *)
Lemma wp_GetQuartcStream st w (Q : option (Z * Z) -> World -> Prop) :
  is_Some (entries w !! st) ->
  (forall x s e, entries w !! st = Some x -> body x = Strm s -> e = socketEntry_ s ->
     is_Some (entries w !! e) -> Q (Some (e, streamId_ s)) w) ->
  (forall x s, entries w !! st = Some x -> body x = Strm s ->
     (forall xe se d, entries w !! socketEntry_ s = Some xe -> body xe = Sock se ->
        (streamId_ s, d) ∉ dynamic_stream_map_ (impl_ se)) -> Q None w) ->
  wp (GetQuartcStream st) w Q.
Proof.
  intros [x Hx] H1 H2. unfold GetQuartcStream, stream_of. apply wp_bind, wp_bind.
  eapply wp_entry_of; [done|]. destruct (body x) as [|s] eqn:Hb; [apply wp_crashed; by split|].
  apply wp_ret, wp_bind, wp_get. destruct (entries w !! socketEntry_ s) as [xe|] eqn:He.
  - destruct (body xe) as [se|] eqn:Hbe; [|apply wp_crashed; by split]. case_bool_decide as Hin.
    + apply wp_ret. by eapply H1; [..|eauto].
    + apply wp_ret. apply (H2 x s); [done|done|]. intros xe' se' d Hxe' Hse' Hd.
      rewrite He in Hxe'. injection Hxe' as <-. rewrite Hbe in Hse'. injection Hse' as <-.
      apply Hin, list_elem_of_fmap. by exists (streamId_ s, d).
  - apply wp_ret. apply (H2 x s); [done|done|]. intros xe se d Hxe. congruence.
Qed.

Lemma safe_Readv_update st n w :
  inv ∅ w -> is_Some (entries w !! st) ->
  safe_in (update_stream st (fun s =>
    {| sudpSocket_ := sudpSocket_ s; socketEntry_ := socketEntry_ s;
       streamId_ := streamId_ s; finRead_ := finRead_ s;
       recvBuffer_ := if (n =? length (recvBuffer_ s))%nat then []
                      else drop n (recvBuffer_ s) |})) w.
Proof. intros. by apply safe_update_stream. Qed.

Lemma safe_fail_pair {A} (a : A) e w : inv ∅ w -> safe_in (r ← fail e; mret (r, a)) w.
Proof.
  intros Hi. apply safe_seq; [by apply safe_fail|]. intros r w1 Hg. apply safe_ret. ok.
Qed.

Lemma safe_Readv st iov w : inv ∅ w -> is_Some (entries w !! st) -> safe_in (Readv st iov) w.
Proof.
  intros Hi He. unfold Readv. apply safe_entry_of; [done|]. intros x Hx.
  apply safe_stream_of; [done|]. intros x' s Hx' Hs.
  destruct (negb _); [by apply safe_fail_pair|]. destruct (finRead_ s).
  { apply safe_seq; [by apply safe_errno|]. intros _ w1 Hg. apply safe_ret. ok. }
  unfold safe_in. apply wp_bind, wp_GetQuartcStream; [done| |].
  - intros ? ? e _ _ _ _. destruct (copy_out _ _ _) as [pieces pos].
    apply safe_seq; [by apply safe_Readv_update|]. intros _ w1 Hg1.
    destruct (_ =? 0); [apply safe_fail_pair; ok|].
    apply safe_seq; [apply safe_errno; ok|]. intros _ w2 Hg2. apply safe_ret. ok.
  - intros ? ? _ _ _. by apply safe_fail_pair.
Qed.

Lemma safe_Writev st n sc w : inv ∅ w -> is_Some (entries w !! st) -> safe_in (Writev st n sc) w.
Proof.
  intros Hi He. unfold Writev. apply safe_entry_of; [done|]. intros x Hx.
  destruct (negb _); [by apply safe_fail|].
  unfold safe_in. apply wp_bind, wp_GetQuartcStream; [done| |].
  - intros ? ? e _ _ _ Hal. apply safe_seq; [by apply safe_engine|]. intros _ w1 Hg1.
    destruct (n =? 0); [apply safe_fail; ok|].
    apply safe_seq; [apply safe_errno; ok|]. intros _ w2 Hg2. apply safe_ret. ok.
  - intros ? ? _ _ _. by apply safe_fail.
Qed.

Lemma safe_Shutdown st how sc w :
  inv ∅ w -> is_Some (entries w !! st) -> safe_in (Shutdown st how sc) w.
Proof.
  intros Hi He. unfold Shutdown, safe_in. apply wp_bind, wp_GetQuartcStream; [done| |].
  - intros ? ? e _ _ _ Hal.
    apply safe_seq; [apply safe_when; [done|by apply safe_engine]|]. intros _ w1 Hg1.
    apply safe_ret. ok.
  - intros ? ? _ _ _. by apply safe_fail.
Qed.


(** [Close] of a stream detaches it from its session. *)
Lemma wp_CloseStream st w :
  inv ∅ w -> is_Some (entries w !! st) ->
  wp (CloseStream st) w (fun _ w' => good w w' /\
    exists x, entries w' !! st = Some x /\ deletable ∅ w' st x).
Proof.
  intros Hi He. unfold CloseStream.
  set (detached := fun s w1 => forall xe se d, entries w1 !! socketEntry_ s = Some xe ->
         body xe = Sock se -> (streamId_ s, d) ∉ dynamic_stream_map_ (impl_ se)).
  assert (forall w1 x s, kept ∅ w w1 -> entries w !! st = Some x -> body x = Strm s ->
            detached s w1 ->
            wp (ClearWaitingsByClose st;; mret 0) w1 (fun _ w' => good w w' /\
              exists x, entries w' !! st = Some x /\ deletable ∅ w' st x)) as Hend.
  { intros w1 x s Hk1 Hx Hs Hdet. assert (is_Some (entries w1 !! st)) as [x1 Hx1] by by eapply kept_alive.
    apply wp_bind. eapply wp_mono; [apply (wp_ClearWaitings ∅); [apply Hk1|eauto|set_solver|done]|].
    intros ? w2 [Hk2 Hct]. apply wp_ret.
    assert (kept ∅ w w2) as Hk by (eapply kept_trans; [apply Hk1|exact Hk2]).
    split; [by apply kept_good|].
    destruct (kept_alive ∅ w w2 st Hk) as [x2 Hx2]; [eauto|]. exists x2. split; [done|].
    split; [left; by apply Hct|]. intros e1 y1 s1 sid Hy1 Hs1 Hin.
    destruct (i_streams ∅ w2 (proj1 Hk) e1 y1 s1 sid st Hy1 Hs1 Hin)
      as (xd & sd & Hd & Hb & E1 & E2 & _).
    destruct Hk as [_ [Hc _]]. destruct (Hc st x Hx) as (x3 & Hx3 & _ & Hb3).
    assert (x3 = xd) as -> by congruence. rewrite Hs, Hb in Hb3. destruct Hb3 as [F1 F2].
    destruct Hk2 as [_ (Hc2 & Hd2 & _)]. destruct (Hd2 e1) as [z1 Hz1]; [eauto|].
    destruct (Hc2 e1 z1 Hz1) as (y2 & Hy2 & _ & Hbody). assert (y2 = y1) as -> by congruence.
    rewrite Hs1 in Hbody. destruct (body z1) as [t1|] eqn:Ht1; [|done].
    destruct Hbody as [_ Hsub]. apply Hsub in Hin.
    apply (Hdet z1 t1 st); [congruence|done|]. congruence. }
  apply wp_bind, wp_GetQuartcStream; [done| |].
  - intros x s e Hx Hs -> Hal. apply wp_bind.
    eapply wp_mono; [by apply (wp_CloseStreamInner ∅)|]. intros ? w1 [Hk1 Hno].
    apply (Hend w1 x s); [done|done|done|]. intros xe se d. by apply Hno.
  - intros x s Hx Hs Hno. apply wp_bind, wp_ret.
    apply (Hend w x s); [by apply kept_refl|done|done|]. exact Hno.
Qed.

Lemma safe_set_ack e w :
  inv ∅ w -> is_Some (entries w !! e) ->
  forall t d, safe_in (v ← GetOpt e t; when (v =? 0) (SetOpt e t d)) w.
Proof.
  intros Hi He t d. apply safe_seq; [by apply safe_GetOpt|]. intros v w1 Hg.
  apply safe_when; [ok|]. apply safe_SetOpt; ok.
Qed.

Lemma safe_Connect e a l sc w :
  inv ∅ w -> is_Some (entries w !! e) -> safe_in (Connect e a l sc) w.
Proof.
  intros Hi He. unfold Connect. apply safe_socket_of; [done|]. intros x s Hx Hs.
  assert (forall err, safe_in (r ← fail err; mret (Some r)) w) as Hf.
  { intros err. apply safe_seq; [by apply safe_fail|]. intros r w1 Hg. apply safe_ret. ok. }
  apply safe_seq.
  { destruct (socketState_ s); try apply Hf; try by apply safe_ret.
    apply safe_seq; [by apply safe_CreateNewUdpSocket|]. intros r w1 Hg. apply safe_ret. ok. }
  intros [r|] w1 Hg1; [apply safe_ret; ok|].
  apply safe_seq; [apply safe_set_state; [ok|ok|done]|]. intros _ w2 Hg2.
  assert (good w w2) as Hw2 by by eapply good_trans.
  apply safe_seq; [destruct (_ >? _); [by apply safe_crashed|apply safe_ret; ok]|]. intros _ w3 Hg3.
  assert (good w w3) as Hw3 by by eapply good_trans.
  apply safe_seq; [apply safe_update_same; [ok|ok|by intros]|]. intros _ w4 Hg4.
  assert (good w w4) as Hw4 by by eapply good_trans.
  apply safe_seq; [apply safe_GetOpt; ok|]. intros v w5 Hg5.
  assert (good w w5) as Hw5 by by eapply good_trans.
  apply safe_seq; [apply safe_when; [ok|apply safe_SetOpt; ok]|]. intros _ w6 Hg6.
  assert (good w w6) as Hw6 by by eapply good_trans.
  apply safe_seq; [apply safe_engine; ok|]. intros _ w7 Hg7. apply safe_fail. ok.
Qed.

Lemma safe_OnSyn e o a sc w :
  inv ∅ w -> is_Some (entries w !! e) -> is_Some (entries w !! o) -> safe_in (OnSyn e o a sc) w.
Proof.
  intros Hi He Ho. unfold OnSyn. apply safe_socket_of; [done|]. intros xo so Hxo Hso.
  apply safe_seq; [apply safe_update_same; [ok|ok|by intros]|]. intros _ w1 Hg1.
  apply safe_deref; [by split|]. intros udp _.
  apply safe_entry_of; [ok|]. intros x1 Hx1. apply safe_socket_of; [ok|]. intros x2 s2 _ _.
  apply safe_seq; [apply safe_modify; [ok|by split]|]. intros _ w2 Hg2.
  assert (good w w2) as Hw2 by by eapply good_trans.
  apply safe_seq; [apply safe_GetOpt; ok|]. intros v w3 Hg3.
  assert (good w w3) as Hw3 by by eapply good_trans.
  apply safe_seq; [apply safe_when; [ok|apply safe_SetOpt; ok]|]. intros _ w4 Hg4.
  assert (good w w4) as Hw4 by by eapply good_trans.
  apply safe_seq; [apply safe_GetOpt; ok|]. intros v' w5 Hg5.
  assert (good w w5) as Hw5 by by eapply good_trans.
  apply safe_seq; [apply safe_when; [ok|apply safe_SetOpt; ok]|]. intros _ w6 Hg6.
  assert (good w w6) as Hw6 by by eapply good_trans.
  apply safe_engine; ok.
Qed.

(** ** The receive loop *)

Lemma wp_find_owner o u w :
  inv ∅ w -> live_result o w ->
  wp (find_owner o u) w (fun r w' => good w w' /\ live_result r w').
Proof.
  intros Hi Ho. unfold find_owner. destruct o as [o|]; [apply wp_ret; split; [by apply good_refl|done]|].
  apply wp_bind, wp_get. destruct (_ >=? 0); [|apply wp_ret; split; [by apply good_refl|done]].
  apply wp_bind, wp_deref; [by split|]. intros e He.
  destruct (fd_alive w _ e Hi He) as [x Hx]. apply wp_bind. eapply wp_entry_of; [done|].
  apply wp_ret. split; [by apply good_refl|]. destruct (body x); simpl; eauto.
Qed.

Lemma wp_dispatch u o d w :
  inv ∅ w -> live_result o w ->
  wp (dispatch u o d) w (fun r w' => good w w' /\ live_result r w').
Proof.
  intros Hi Ho. unfold dispatch.
  destruct (_ =? _); [apply wp_ret; split; [by apply good_refl|done]|].
  apply wp_bind, wp_get. destruct (_ =? -1).
  - eapply wp_seq; [by apply wp_find_owner|]. intros [o'|] w1 Hg1 Ho'.
    2:{ apply wp_ret. split; [apply good_refl; ok|done]. }
    simpl in Ho'. eapply wp_seq; [apply wp_NewQuicSocketEntry; ok|]. intros e w2 Hg2 He.
    eapply (wp_seq _ _ _ (fun _ _ => True)); [apply safe_OnSyn; ok|]. intros _ w3 Hg3 _.
    eapply (wp_seq _ _ _ (fun _ _ => True)); [apply safe_engine; ok|]. intros _ w4 Hg4 _.
    apply wp_ret. split; [apply good_refl; ok|]. simpl.
    eapply good_alive; [exact Hg4|]. eapply good_alive; [exact Hg3|]. ok.
  - apply wp_bind, wp_deref; [by split|]. intros e He%fd_alive; [|done].
    eapply (wp_seq _ _ _ (fun _ _ => True)); [by apply safe_engine|]. intros _ w1 Hg1 _.
    apply wp_ret. split; [apply good_refl; ok|]. destruct o; simpl in *; [|done]. ok.
Qed.

Lemma safe_dispatch_all u ds : forall o w,
  inv ∅ w -> live_result o w -> safe_in (dispatch_all u o ds) w.
Proof.
  induction ds as [|d ds IH]; intros o w Hi Ho; [by apply safe_ret|]. simpl.
  eapply wp_seq; [by apply wp_dispatch|]. intros o' w1 Hg1 Ho'. apply IH; ok.
Qed.

Lemma safe_receive ep l w :
  inv ∅ w -> is_Some (epollers w !! ep) -> safe_in (receive ep l) w.
Proof.
  intros Hi [p Hp]. unfold receive, safe_in. apply wp_bind. eapply wp_epoller_of; [done|].
  apply safe_for_each; [done|]. intros [[u ev] ds] w' Hg _.
  destruct (_ =? _); [apply safe_ret; ok|]. destruct (negb _); [apply safe_ret; ok|].
  apply safe_dispatch_all; [ok|done].
Qed.

(** ** Timers *)

Lemma safe_visitor_zoom {A} e (m : M Visitor.Ctx A) w :
  inv ∅ w -> is_Some (entries w !! e) -> mild m ->
  (exists x s, entries w !! e = Some x /\ body x = Sock s) -> safe_in (zoom (visitor_lens e) m) w.
Proof.
  intros Hi He Hm (x & s & Hx & Hs).
  pose proof (safe_on_visitor e m w Hi He Hm) as Hv. unfold safe_in, on_visitor in Hv.
  unfold wp, mbind, M_bind in Hv. unfold safe_in, wp.
  unfold socket_of, entry_of, get, deref, mbind, M_bind in Hv. rewrite Hx, Hs in Hv. exact Hv.
Qed.

Lemma zoom_comp {S T U A} (l : Lens S T) (k : Lens T U) (m : M U A) s :
  zoom (lens_comp l k) m s = zoom l (zoom k m) s.
Proof. unfold zoom. simpl. by destruct (m (view k (view l s))). Qed.

Definition sock_at (w : World) (e : Z) : Prop :=
  exists x s, entries w !! e = Some x /\ body x = Sock s.

Lemma sock_at_good w w' e : good w w' -> sock_at w e -> sock_at w' e.
Proof.
  intros [_ [He _]] (x & s & Hx & Hs). destruct (He e x Hx) as (x' & Hx' & Hk & _).
  unfold is_sock in Hk. rewrite Hs in Hk. destruct (body x') as [s'|] eqn:E; [|done].
  by exists x', s'.
Qed.

Lemma sock_at_alive w e : sock_at w e -> is_Some (entries w !! e).
Proof. intros (x & s & -> & _). eauto. Qed.

Lemma safe_Check e b w :
  inv ∅ w -> sock_at w e ->
  safe_in (Visitor.CheckForNoAckTimeout e b (visitor_lens e)
             (fun err => TearDown CloseSocket e err false)) w.
Proof.
  intros Hi Hs. pose proof (sock_at_alive w e Hs) as He. unfold Visitor.CheckForNoAckTimeout.
  assert (forall A (m : M Visitor.Ctx A) w', good w w' -> mild m ->
            safe_in (zoom (visitor_lens e) m) w') as Hz.
  { intros A m w' Hg Hm. pose proof (sock_at_good w w' e Hg Hs).
    apply safe_visitor_zoom; [ok|ok|done|done]. }
  apply safe_seq; [apply Hz; [by apply good_refl|apply mild_zoom, mild_GetOption]|]. intros v w1 Hg1.
  destruct (_ =? 0); [apply safe_ret; ok|]. apply safe_get. apply safe_seq.
  { destruct (_ >? _); [|apply safe_ret; ok].
    apply safe_seq; [apply Hz; [done|apply mild_zoom, mild_Now]|]. intros now w2 Hg2.
    apply safe_ret. ok. }
  intros [] w2 Hg2'; (assert (good w w2) as Hg2 by by eapply good_trans).
  - apply safe_kept, wp_TearDown; [ok|ok|]. apply closes_CloseSocket. ok.
  - apply Hz; [done|apply mild_SetNoAckAlarm].
Qed.

Lemma safe_run_alarm e w : inv ∅ w -> safe_in (run_alarm e) w.
Proof.
  intros Hi. unfold run_alarm. apply safe_get, safe_deref; [by split|]. intros x0 Hx0.
  apply safe_socket_of; [eauto|]. intros x s Hx Hs.
  assert (sock_at w e) as Hsock by by exists x, s.
  unfold Alarm.Run. apply safe_get. destruct (negb _); [by apply safe_ret|].
  apply safe_seq.
  { unfold safe_in, wp. rewrite zoom_comp. apply safe_visitor_zoom; [done|eauto| |done].
    apply mild_zoom, mild_zoom, mild_Now. }
  intros now w1 Hg1. pose proof (sock_at_good w w1 e Hg1 Hsock) as Hs1.
  pose proof (sock_at_alive w1 e Hs1). destruct (_ <? _).
  - unfold safe_in, wp. rewrite zoom_comp. apply safe_visitor_zoom; [ok|ok| |done].
    apply mild_zoom, mild_SetImpl.
  - unfold Alarm.Fire. apply safe_get. destruct (negb _); [apply safe_ret; ok|].
    apply safe_seq.
    { unfold safe_in, wp. rewrite zoom_comp. apply safe_visitor_zoom; [ok|ok| |done].
      apply mild_zoom, mild_modify. }
    intros _ w2 Hg2. apply safe_Check; [ok|by eapply sock_at_good].
Qed.

Lemma safe_RunOnce ep w : inv ∅ w -> safe_in (RunOnce ep) w.
Proof.
  intros Hi. unfold RunOnce. apply safe_seq; [apply safe_modify; [done|by split]|]. intros _ w1 Hg1.
  apply safe_seq; [|intros _ w2 Hg2; apply safe_modify; [ok|by split]].
  unfold TaskRunner.RunOnce. apply safe_seq; [apply safe_timers; [ok|apply mild_CollectDue]|].
  intros ids w2 Hg2. apply safe_for_each; [ok|]. intros id w3 Hg3 _. unfold TaskRunner.Trigger.
  apply safe_get, safe_deref; [by split|]. intros st _.
  destruct (TaskRunner.callLock st); [apply safe_ret; ok|].
  apply safe_seq; [apply safe_timers; [ok|apply mild_modify]|]. intros _ w4 Hg4.
  apply safe_seq; [apply safe_run_alarm; ok|]. intros _ w5 Hg5.
  apply safe_timers; [ok|apply mild_modify].
Qed.

Lemma safe_wait_loop ep dl ins : forall w, inv ∅ w -> safe_in (wait_loop ep dl ins) w.
Proof.
  induction ins as [|r ins IH]; intros w Hi; simpl;
    (apply safe_seq; [by apply safe_RunOnce|]); intros _ w1 Hg1;
    (apply safe_seq; [apply safe_timers; [ok|apply mild_NowMS]|]); intros now w2 Hg2;
    [by apply safe_crashed|].
  destruct r as [err|[|r l]].
  - apply safe_seq; [apply safe_errno; ok|]. intros _ w3 Hg3. apply safe_ret. ok.
  - destruct (_ || _); [apply safe_ret; ok|]. apply IH. ok.
  - apply safe_ret. ok.
Qed.

Lemma safe_Wait ep n t ins w :
  inv ∅ w -> is_Some (epollers w !! ep) -> safe_in (Wait ep n t ins) w.
Proof.
  intros Hi Hep. unfold Wait. apply safe_seq; [apply safe_quiet; [done|by apply (quiet_Poll ∅)]|].
  intros evs w1 Hg1. destruct evs as [|ev evs]; [|apply safe_ret; ok].
  apply safe_seq; [apply safe_timers; [ok|apply mild_NowMS]|]. intros now w2 Hg2.
  apply safe_seq; [apply safe_wait_loop; ok|]. intros r w3 Hg3.
  assert (good w w3) as Hw3 by (eapply good_trans; [|done]; by eapply good_trans).
  destruct r as [l|]; [|apply safe_ret; ok].
  destruct (good_epoller w w3 ep Hw3 Hep) as [p Hp].
  apply safe_seq; [apply safe_quiet; [ok|by eapply quiet_update_epoller]|]. intros _ w4 Hg4.
  assert (good w w4) as Hw4 by by eapply good_trans.
  apply safe_seq; [apply safe_receive; ok|]. intros _ w5 Hg5.
  assert (good w w5) as Hw5 by by eapply good_trans.
  apply safe_seq; [apply safe_quiet; [ok|apply (quiet_Poll ∅); ok]|]. intros evs' w6 Hg6.
  apply safe_ret. ok.
Qed.

End ApiSafety.
