(* ===== verification/RunSafety.v ===== *)
(** Lifetimes and whole runs: what creates and destroys epollers and entries
    keeps the invariant, so no run of the library from its initial state uses a
    destroyed object. *)

From S2P Require Import Prelude FdTable ConnectionManager Options TaskRunner Alarm World.
From S2P Require Import Epoller Socket Api Safety EventSafety CallSafety ApiSafety System.

Section RunSafety.
Context `{Iteration}.

(** A loop with an invariant that depends on the elements still to come. *)
Lemma wp_for_each_rem {A} (f : A -> M World unit) (J : list A -> World -> Prop) : forall l w,
  J l w -> (forall x l' w', J (x :: l') w' -> wp (f x) w' (fun _ w2 => J l' w2)) ->
  wp (for_each l f) w (fun _ w' => J [] w').
Proof.
  induction l as [|x l IH]; intros w HJ Hf; [done|]. simpl. apply wp_bind.
  eapply wp_mono; [by apply Hf|]. intros ? w' HJ'. by apply IH.
Qed.

(** ** Epollers *)

Lemma inv_new_epoller w p m :
  inv ∅ w -> fds_ p = ∅ ->
  (forall fd ep, m !! fd = Some ep -> epManager w !! fd = Some ep \/
     ep = nextEpoller w /\ epfd_ p = fd) ->
  inv ∅ (set_epollers w m (<[nextEpoller w := p]> (epollers w)) (nextEpoller w + 1)).
Proof.
  intros Hi Hf Hm.
  assert (forall ep p1, <[nextEpoller w := p]> (epollers w) !! ep = Some p1 ->
            p1 = p \/ epollers w !! ep = Some p1) as Hc.
  { intros ep p1. rewrite lookup_insert. case_decide; [intros [= <-]; auto|auto]. }
  assert (forall ep p1, epollers w !! ep = Some p1 ->
            <[nextEpoller w := p]> (epollers w) !! ep = Some p1) as Hold.
  { intros ep p1 H1. rewrite lookup_insert_ne; [done|]. intros <-.
    assert (nextEpoller w < nextEpoller w) by (apply (i_epnext ∅ w Hi); eauto). lia. }
  split; simpl; try apply Hi.
  - intros e x ep q Hx Hw. destruct (i_wait ∅ w Hi e x ep q Hx Hw) as (p1 & fd & H1 & ?).
    exists p1, fd. split; [by apply Hold|done].
  - intros ep p1 fd e q [->|H1]%Hc Hf1; [by rewrite Hf, lookup_empty in Hf1|].
    by eapply (i_cell ∅ w Hi).
  - intros ep p1 fd e ep' p2 fd' e' q [->|H1]%Hc Hf1 [->|H2]%Hc Hf2;
      try by rewrite Hf, lookup_empty in *.
    by eapply (i_uniq ∅ w Hi).
  - intros ep. rewrite lookup_insert_is_Some'. intros [<-|?%(i_epnext ∅ w Hi)]; lia.
  - intros fd ep [(p1 & H1 & ?)%(i_epman ∅ w Hi)|[-> ?]]%Hm.
    + exists p1. split; [by apply Hold|done].
    + exists p. by rewrite lookup_insert_eq.
Qed.

(** Nobody waits on epoller [ep] and the manager does not have it. *)
Definition unwatched (w : World) (ep : Z) : Prop :=
  forall e x, entries w !! e = Some x -> waitings_ (event x) !! ep = None.

Lemma inv_del_epoller w ep t :
  inv ∅ w -> unwatched w ep -> (forall fd, epManager w !! fd <> Some ep) ->
  inv ∅ (set_timers (set_epollers w (epManager w) (delete ep (epollers w)) (nextEpoller w)) t).
Proof.
  intros Hi Hno Hm. split; simpl; try apply Hi.
  - intros e x ep1 q Hx Hw. destruct (i_wait ∅ w Hi e x ep1 q Hx Hw) as (p1 & fd & H1 & ?).
    exists p1, fd. split; [|done]. rewrite lookup_delete_ne; [done|]. intros <-.
    by rewrite (Hno e x Hx) in Hw.
  - intros ep1 p1 fd e q [_ H1]%lookup_delete_Some. by eapply (i_cell ∅ w Hi).
  - intros ep1 p1 fd e ep2 p2 fd' e' q [_ H1]%lookup_delete_Some ? [_ H2]%lookup_delete_Some.
    by apply (i_uniq ∅ w Hi ep1 p1 fd e ep2 p2).
  - intros ep1 [p1 [_ H1]%lookup_delete_Some]. apply (i_epnext ∅ w Hi). eauto.
  - intros fd ep1 Hf. pose proof (i_epman ∅ w Hi fd ep1 Hf) as (p1 & H1 & ?).
    exists p1. split; [|done]. rewrite lookup_delete_ne; [done|]. intros <-. by apply (Hm fd).
Qed.

(** The first loop of the destructor leaves nobody waiting. *)
Lemma wp_stop_all ep p w :
  inv ∅ w -> epollers w !! ep = Some p ->
  wp (for_each (iterate (fds_ p)) (fun kv =>
        w ← get;
        match entries w !! kv.2.1 with
        | Some _ => StopWait kv.2.1 ep
        | None => mret tt
        end)) w
     (fun _ w' => inv ∅ w' /\ epollers w' = epollers w /\ epManager w' = epManager w /\
                  unwatched w' ep).
Proof.
  intros Hi Hp.
  eapply wp_mono; [apply (wp_for_each_rem _ (fun l w' => inv ∅ w' /\ epollers w' = epollers w /\
    epManager w' = epManager w /\
    forall e x q, entries w' !! e = Some x -> waitings_ (event x) !! ep = Some q ->
      exists fd, (fd, (e, q)) ∈ l))|].
  - split; [done|]. split; [done|]. split; [done|]. intros e x q Hx Hw.
    destruct (i_wait ∅ w Hi e x ep q Hx Hw) as (p1 & fd & H1 & Hf & _).
    exists fd. apply elem_of_iterate. congruence.
  - intros [fd [e q]] l w' (Hi' & E1 & E2 & Hrem). apply wp_bind, wp_get. simpl.
    destruct (entries w' !! e) as [x|] eqn:Hx.
    + eapply wp_update_event; [done|].
      destruct (inv_event ∅ w' e x (ev_waitings (delete ep (waitings_ (event x)))
        (closeTrigger_ (event x)) (event x))) as [Hi1 _]; [done|done|done|apply delete_subseteq|done|].
      split; [done|]. split; [done|]. split; [done|]. simpl. intros e1 x1 q1.
      rewrite lookup_insert. case_decide as E; [subst|].
      * intros [= <-]. simpl. by rewrite lookup_delete_eq.
      * intros H1 Hw. destruct (Hrem e1 x1 q1 H1 Hw) as (fd1 & Hin). exists fd1. set_solver.
    + apply wp_ret. split; [done|]. split; [done|]. split; [done|]. intros e1 x1 q1 H1 Hw.
      destruct (Hrem e1 x1 q1 H1 Hw) as (fd1 & Hin). exists fd1. set_solver.
  - simpl. intros ? w' (Hi' & E1 & E2 & Hrem). split; [done|]. split; [done|]. split; [done|].
    intros e x Hx. destruct (waitings_ (event x) !! ep) as [q|] eqn:Hw; [|done].
    destruct (Hrem e x q Hx Hw) as (? & []%elem_of_nil).
Qed.

(** The second loop frees the cells. *)
Lemma wp_erase_all ep p w :
  inv ∅ w -> epollers w !! ep = Some p -> unwatched w ep ->
  wp (for_each (iterate (fds_ p)) (fun kv => erase_fd ep kv.1)) w
     (fun _ w' => inv ∅ w' /\ epManager w' = epManager w /\ unwatched w' ep).
Proof.
  intros Hi Hp Hno.
  eapply wp_mono; [apply (wp_for_each_rem _ (fun l w' => inv ∅ w' /\ epManager w' = epManager w /\
    unwatched w' ep /\ NoDup l.*1 /\ exists p', epollers w' !! ep = Some p' /\
    forall fd v, (fd, v) ∈ l -> fds_ p' !! fd = Some v))|].
  - split; [done|]. split; [done|]. split; [done|]. split.
    + rewrite iterate_perm. apply NoDup_fst_map_to_list.
    + exists p. split; [done|]. intros fd v. by rewrite elem_of_iterate.
  - intros [fd [e q]] l w' (Hi' & E & Hno' & Hnd & p' & Hp' & Hl). simpl.
    apply NoDup_cons in Hnd as [Hni Hnd].
    eapply wp_erase_fd; [done|apply Hl; by left|]. split; [|split; [done|split; [done|split; [done|]]]].
    + eapply inv_erase; [done|done|apply Hl; by left|]. intros x Hx. by rewrite (Hno' e x Hx).
    + simpl. rewrite lookup_insert_eq. eexists. split; [done|]. simpl. intros fd1 v1 Hin.
      rewrite lookup_delete_ne; [apply Hl; by right|]. intros <-. apply Hni.
      apply list_elem_of_fmap. by exists (fd, v1).
  - simpl. intros ? w' (? & ? & ? & _). done.
Qed.

Lemma wp_destroy_epoller ep w :
  inv ∅ w -> is_Some (epollers w !! ep) -> (forall fd, epManager w !! fd <> Some ep) ->
  wp (destroy_epoller ep) w (fun _ w' => inv ∅ w').
Proof.
  intros Hi [p Hp] Hm. unfold destroy_epoller. apply wp_bind. eapply wp_epoller_of; [done|].
  apply wp_bind. eapply wp_mono; [apply quiet_syscall|]. intros ? w1 Hq1.
  apply wp_bind, wp_modify. set (w2 := set_kernel _ _ _ _).
  assert (quiet w w2) as Hq2 by (transitivity w1; [exact Hq1|apply quiet_kernel]).
  destruct (quiet_sym_epoller w w2 ep p Hq2 Hp) as (p2 & Hp2 & Ef). rewrite <- Ef.
  pose proof Hq2 as [_ _ _ [Em _] _]. pose proof (inv_quiet ∅ w w2 Hi Hq2) as Hi2.
  clearbody w2. apply wp_bind. eapply wp_mono; [by apply wp_stop_all|].
  intros ? w3 (Hi3 & E3 & Em3 & Hno3).
  apply wp_bind. eapply wp_mono; [apply wp_erase_all; [done|by rewrite E3|done]|].
  intros ? w4 (Hi4 & Em4 & Hno4). apply wp_bind, wp_modify, wp_mild; [apply mild_modify|].
  intros ? t. apply inv_del_epoller; [done|done|]. intros fd. rewrite Em4, Em3, Em. apply Hm.
Qed.

Lemma wp_NewQuicEpollerEntry w :
  inv ∅ w -> wp NewQuicEpollerEntry w (fun r w' => inv ∅ w' /\
    forall ep, r = Some ep -> is_Some (epollers w' !! ep)).
Proof.
  intros Hi. unfold NewQuicEpollerEntry, QuicEpollerEntry. apply wp_bind, wp_bind.
  eapply wp_mono; [apply quiet_syscall|]. intros fd w1 H1. apply wp_bind.
  eapply wp_mono; [apply quiet_syscall|]. intros res w2 H2. apply wp_bind.
  eapply (wp_mono _ _ (fun _ w' => quiet w w')).
  { destruct (_ =? 0); [|apply wp_ret; by transitivity w1].
    eapply wp_mono; [apply quiet_kernel_value|]. intros ? w3 H3.
    transitivity w1; [done|]. by transitivity w2. }
  intros sp w3 H3. pose proof (inv_quiet ∅ w w3 Hi H3) as Hi3. apply wp_bind, wp_get.
  set (ep := nextEpoller w3). set (p := {| epfd_ := fd |}).
  apply wp_bind, wp_modify.
  assert (inv ∅ (set_epollers w3 (epManager w3) (<[ep := p]> (epollers w3)) (ep + 1))) as Hi4.
  { apply inv_new_epoller; [done|done|]. auto. }
  set (w4 := set_epollers _ _ _ _) in *.
  assert (epollers w4 !! ep = Some p) as Hp4 by apply lookup_insert_eq.
  assert (forall fd, epManager w4 !! fd <> Some ep) as Hm4.
  { simpl. intros fd1 Hf. apply (i_epman ∅ w3 Hi3) in Hf as (p1 & Hp1 & _).
    assert (ep < ep) by (apply (i_epnext ∅ w3 Hi3); eauto). lia. }
  clearbody w4. apply wp_bind, wp_mild; [apply mild_modify|]. intros ? t. apply wp_bind.
  eapply (wp_mono _ _ (fun _ w' => quiet w4 w')).
  { destruct (res =? 0); [|apply wp_ret, quiet_timers]. apply wp_bind.
    eapply wp_mono; [apply quiet_epoll_ctl|]. intros ? w5 H5. apply wp_ret.
    transitivity (set_timers w4 t); [apply quiet_timers|done]. }
  intros ? w5 H5. apply wp_ret.
  destruct (quiet_sym_key w4 w5 ep p H5 Hp4) as (p5 & Hp5 & Ef5 & Ek5).
  pose proof (inv_quiet ∅ w4 w5 Hi4 H5) as Hi5. pose proof H5 as [_ _ _ [Em5 _] _].
  apply wp_bind. eapply wp_epoller_of; [done|]. destruct (_ >=? 0).
  - apply wp_bind, wp_modify, wp_ret. split; [|intros ep' [= <-]; simpl; eauto].
    destruct Hi5 as [A1 A2 A3 A4 A5 A6 A7 A8 A9 A10 A11 A12 A13 A14]. split; try done.
    simpl. intros fd1 ep1. unfold FdManager.Put. rewrite lookup_insert.
    case_decide; [intros [= <-]; exists p5; by split|apply A10].
  - apply wp_bind. eapply wp_mono; [apply wp_destroy_epoller; [done|eauto|]|].
    + intros fd1. rewrite Em5. apply Hm4.
    + intros ? w6 H6. apply wp_ret. by split.
Qed.

(** ** Entries nobody holds *)

(** Entry [e] may be destroyed. *)
Definition unheld (w : World) (e : Z) : Prop :=
  (forall fd, fdManager w !! fd <> Some e) /\
  (forall e1 x1, entries w !! e1 = Some x1 -> e ∉ queue_of x1).

Lemma inv_del_entry w e x :
  inv ∅ w -> entries w !! e = Some x -> unheld w e ->
  inv ∅ (set_entries w (delete e (entries w)) (nextEntry w)).
Proof.
  intros Hi Hx [Hm Hq].
  assert (Fd x = -1) as Hfd by (destruct (i_fd ∅ w Hi e x Hx) as [?|?]; [done|by destruct (Hm (Fd x))]).
  assert (forall e1 x1, delete e (entries w) !! e1 = Some x1 ->
            e1 <> e /\ entries w !! e1 = Some x1) as Hd.
  { intros e1 x1 [? ?]%lookup_delete_Some. split; [congruence|done]. }
  split; simpl; try apply Hi.
  - intros fd e1 Hf. destruct (i_table ∅ w Hi fd e1 Hf) as (x1 & H1 & ?). exists x1.
    rewrite lookup_delete_ne; [done|]. intros <-. by apply (Hm fd).
  - intros e1 x1 [_ H1]%Hd. by apply (i_fd ∅ w Hi).
  - intros e1 x1 [_ H1]%Hd. by apply (i_next ∅ w Hi e1 x1).
  - intros e1 x1 ep q [_ H1]%Hd. by apply (i_wait ∅ w Hi).
  - intros e1 x1 [_ H1]%Hd. by apply (i_closed ∅ w Hi e1).
  - intros e1 x1 s [_ H1]%Hd. by apply (i_state ∅ w Hi e1).
  - intros e1 x1 s sid d [_ H1]%Hd Hs Hin.
    destruct (i_streams ∅ w Hi e1 x1 s sid d H1 Hs Hin) as (xd & sd & Hxd & ? & ? & ? & Hf).
    exists xd, sd. simpl. rewrite lookup_delete_ne; [done|]. intros <-. congruence.
  - intros e1 x1 a [_ H1]%Hd Ha. rewrite lookup_delete_ne; [by eapply (i_queue ∅ w Hi e1)|].
    intros <-. by apply (Hq e1 x1).
Qed.

Lemma wp_destroy_entry e x w :
  inv ∅ w -> entries w !! e = Some x -> unheld w e ->
  wp (destroy_entry e) w (fun _ w' => inv ∅ w' /\ fdManager w' = fdManager w /\
    (forall e1, e1 <> e -> entries w' !! e1 = entries w !! e1) /\ entries w' !! e = None).
Proof.
  intros Hi Hx Hu. unfold destroy_entry. apply wp_bind. eapply wp_entry_of; [done|].
  apply wp_bind, wp_get, wp_bind.
  eapply (wp_mono _ _ (fun _ w' => inv ∅ w' /\ fdManager w' = fdManager w /\
    exists x', entries w' = <[e := x']> (entries w) /\ queue_of x' = queue_of x)).
  { destruct (body x) as [s|] eqn:Hb.
    2:{ apply wp_ret. split; [done|]. split; [done|]. exists x. by rewrite insert_id. }
    set (m := zoom _ _).
    assert (mild m) as Hm by (apply mild_zoom, mild_CancelImpl).
    pose proof (wp_on_visitor ∅ e m w Hi ltac:(eauto) Hm) as Hv.
    unfold on_visitor, socket_of, entry_of, get, deref, wp, mbind, M_bind in *.
    rewrite Hx, Hb in *. simpl in *. unfold zoom in *.
    destruct (m _) as [a c|c] eqn:E; [|done]. destruct Hv as [Hv _]. split; [done|].
    split; [done|]. simpl. rewrite (alter_as_insert _ _ _ x) by done. eexists. split; [done|].
    unfold queue_of, set_visitor_ctx. by rewrite Hb. }
  intros ? w1 (Hi1 & Ef & x1 & Ee & Eq). apply wp_modify. simpl. split.
  - apply (inv_del_entry w1 e x1); [done|rewrite Ee; apply lookup_insert_eq|].
    destruct Hu as [Hm Hq]. split; [by rewrite Ef|]. intros e1 y1. rewrite Ee, lookup_insert.
    case_decide; [subst; intros [= <-]; rewrite Eq; by eapply Hq|by apply Hq].
  - rewrite Ee. split; [done|]. split; [|apply lookup_delete_eq]. intros e1 Hne.
    by rewrite lookup_delete_ne, lookup_insert_ne.
Qed.

Lemma unheld_spec w e : held w e = false -> unheld w e.
Proof.
  unfold held, queued. intros [H1 H2]%orb_false_iff. rewrite bool_decide_eq_false in H1, H2. split.
  - intros fd Hf. apply H1, list_elem_of_fmap. exists (fd, e). by rewrite elem_of_map_to_list.
  - intros e1 x1 Hx Hin. apply H2, list_elem_of_bind. exists x1. split; [done|].
    apply list_elem_of_fmap. exists (e1, x1). by rewrite elem_of_map_to_list.
Qed.

Lemma wp_release w :
  inv ∅ w -> wp release w (fun _ w' => inv ∅ w' /\ fdManager w' = fdManager w).
Proof.
  intros Hi. unfold release. apply wp_bind, wp_get.
  eapply wp_mono; [apply (wp_for_each_rem _ (fun l w' => (inv ∅ w' /\ fdManager w' = fdManager w) /\ NoDup l.*1 /\
    forall e y, (e, y) ∈ l -> unheld w' e /\ is_Some (entries w' !! e)))|].
  - split; [done|]. split.
    + eapply sublist_NoDup; [|apply fmap_sublist, sublist_filter].
      rewrite iterate_perm. apply NoDup_fst_map_to_list.
    + intros e y [Hh Hin%elem_of_iterate]%list_elem_of_filter. simpl in Hh.
      apply negb_true_iff in Hh. split; [by apply unheld_spec|eauto].
  - intros [e y] l w' ([Hi' Ef'] & Hnd & Hl). simpl in *. apply NoDup_cons in Hnd as [Hni Hnd].
    destruct (Hl e y) as [Hu [x Hx]]; [by left|].
    eapply wp_mono; [by apply (wp_destroy_entry e x)|].
    intros ? w2 (Hi2 & Ef & Ee & En). split; [split; [done|congruence]|]. split; [done|].
    intros e1 y1 Hin.
    assert (e1 <> e) as Hne.
    { intros ->. apply Hni, list_elem_of_fmap. by exists (e, y1). }
    destruct (Hl e1 y1) as [[Hm Hq] Ha]; [by right|]. rewrite Ee by done. split; [|done].
    split; [by rewrite Ef|]. intros e2 x2 H2. apply (Hq e2). rewrite <- Ee; [done|]. congruence.
  - by intros ? w' (? & _).
Qed.

Lemma wp_call {A} (m : M World A) w :
  inv ∅ w -> safe_in m w -> wp (call m) w (fun _ w' => inv ∅ w').
Proof.
  intros Hi Hm. unfold call. apply wp_bind. eapply wp_mono; [exact Hm|]. intros a w1 [[Hi1 _] _].
  apply wp_bind. eapply wp_mono; [by apply wp_release|]. intros ? w2 [Hi2 _]. by apply wp_ret.
Qed.

Lemma wp_safe {A} (m : M World A) w : safe_in m w -> wp m w (fun _ w' => inv ∅ w').
Proof. intros Hm. eapply wp_mono; [exact Hm|]. by intros a w' [[? _] _]. Qed.

(** ** The calls *)

Lemma safe_with_category c fd k w :
  inv ∅ w -> (forall e, is_Some (entries w !! e) -> safe_in (k e) w) ->
  safe_in (with_category c fd k) w.
Proof.
  intros Hi Hk. unfold with_category, Get. apply safe_get.
  destruct (FdManager.Get _ _) as [e|] eqn:E;
    [|by apply safe_fail].
  pose proof (fd_alive w fd e Hi E) as He. apply safe_entry_of; [done|]. intros x Hx.
  destruct (decide _); [by apply Hk|by apply safe_fail].
Qed.

Lemma call_with_category c fd e x k w (Q : Z -> World -> Prop) :
  fdManager w !! fd = Some e -> entries w !! e = Some x -> Category x = c ->
  wp (call (with_category c fd k)) w Q = wp (call (k e)) w Q.
Proof.
  intros Hf Hx Hc. unfold wp, call, with_category, Get, entry_of, deref, get, mbind, M_bind, mret, M_ret.
  unfold FdManager.Get. rewrite Hf, Hx. by rewrite decide_True.
Qed.

Lemma safe_fd_of e w : inv ∅ w -> is_Some (entries w !! e) -> safe_in (fd_of e) w.
Proof. intros Hi He. apply safe_entry_of; [done|]. intros x Hx. by apply safe_ret. Qed.

Lemma safe_fd_or_error m w :
  wp m w (fun r w' => good w w' /\ live_result r w') -> safe_in (fd_or_error m) w.
Proof.
  intros Hm. unfold fd_or_error. eapply wp_seq; [exact Hm|]. intros [e|] w1 Hg Hr.
  - apply safe_fd_of; [apply Hg|done].
  - apply safe_ret, Hg.
Qed.

(** Closing and deleting entry [e] takes its descriptor away and creates none. *)
Definition gone (e : Z) (w w' : World) : Prop :=
  fdManager w' ⊆ fdManager w /\ forall fd, fdManager w' !! fd <> Some e.

Lemma calm_fds_subseteq w w' : inv ∅ w -> inv ∅ w' -> calm w w' -> fdManager w' ⊆ fdManager w.
Proof.
  intros Hi Hi' (Hc & Hold & _). apply map_subseteq_spec. intros fd e Hf.
  destruct (i_table ∅ w' Hi' fd e Hf) as (x' & Hx' & Efd). destruct (Hold e) as [x Hx]; [eauto|].
  destruct (Hc e x Hx) as (y & Hy & [[_ Hfd] _]). assert (y = x') as -> by congruence.
  assert (1 <= fd) by (eapply FdFactory.wf_live; [apply Hi'|by eapply elem_of_dom_2]).
  destruct (i_fd ∅ w Hi e x Hx) as [?|?]; [lia|]. destruct Hfd as [Hfd|?]; [|lia]. congruence.
Qed.

Lemma wp_DeleteEntry_gone e x w :
  inv ∅ w -> entries w !! e = Some x -> deletable ∅ w e x ->
  wp (DeleteEntry e) w (fun _ w' => kept ∅ w w' /\ gone e w w').
Proof.
  intros Hi Hx Hd. eapply wp_mono; [apply wp_and; [by apply (wp_DeleteEntry ∅ e x)|]|].
  - instantiate (1 := fun _ w' => exists x', entries w' !! e = Some x' /\ Fd x' < 0).
    unfold DeleteEntry. apply wp_bind. eapply wp_entry_of; [done|].
    destruct (Z.geb_spec (Fd x) 0) as [Hfd|Hfd]; [|apply wp_ret; eauto].
    apply wp_bind, wp_modify. eapply wp_update_event; [done|]. simpl.
    rewrite lookup_insert_eq. eexists. split; [done|]. by simpl.
  - intros ? w' [[Hi' Hc] (x' & Hx' & Hneg)]. split; [by split|].
    split; [by apply calm_fds_subseteq|]. intros fd Hf.
    destruct (i_table ∅ w' Hi' fd e Hf) as (y & Hy & Efd). assert (y = x') as -> by congruence.
    assert (1 <= fd) by (eapply FdFactory.wf_live; [apply Hi'|by eapply elem_of_dom_2]). lia.
Qed.

Lemma wp_CloseSocket_gone e w :
  inv ∅ w -> is_Some (entries w !! e) ->
  wp (call (_ ← CloseSocket e; DeleteEntry e;; mret 0)) w (fun r w' => r = 0 /\ gone e w w').
Proof.
  intros Hi He. apply wp_bind, wp_bind. eapply wp_mono; [by apply wp_CloseSocket|].
  intros r w1 [[Hi1 Hc1] (x & Hx & Hd)]. apply wp_bind.
  eapply wp_mono; [by apply (wp_DeleteEntry_gone e x)|]. intros ? w2 [[Hi2 Hc2] [Hs2 Hg2]].
  apply wp_ret, wp_bind. eapply wp_mono; [by apply wp_release|]. intros ? w3 [Hi3 Ef].
  apply wp_ret. unfold gone. rewrite Ef. split; [done|]. split; [|done].
  transitivity (fdManager w1); [done|by apply calm_fds_subseteq].
Qed.

Lemma safe_CloseSocket_delete e w :
  inv ∅ w -> is_Some (entries w !! e) -> safe_in (_ ← CloseSocket e; DeleteEntry e;; mret 0) w.
Proof.
  intros Hi He. eapply (wp_seq _ _ _ (fun _ w' => exists x, entries w' !! e = Some x /\ deletable ∅ w' e x)).
  - eapply wp_mono; [by apply wp_CloseSocket|]. intros r w1 [Hk Hd]. split; [by apply kept_good|done].
  - intros r w1 Hg (x & Hx & Hd). apply safe_seq; [apply safe_kept, (wp_DeleteEntry ∅ e x); [apply Hg|done|done]|].
    intros _ w2 Hg2. apply safe_ret, Hg2.
Qed.

Lemma safe_CloseStream_delete st w :
  inv ∅ w -> is_Some (entries w !! st) -> safe_in (_ ← CloseStream st; DeleteEntry st;; mret 0) w.
Proof.
  intros Hi He. eapply wp_seq; [by apply wp_CloseStream|].
  intros r w1 Hg (x & Hx & Hd). apply safe_seq; [apply safe_kept, (wp_DeleteEntry ∅ st x); [apply Hg|done|done]|].
  intros _ w2 Hg2. apply safe_ret, Hg2.
Qed.

Lemma wp_with_epoller epfd k w :
  inv ∅ w ->
  (forall ep, epManager w !! epfd = Some ep -> is_Some (epollers w !! ep) ->
     wp (k ep) w (fun _ w' => inv ∅ w')) ->
  wp (with_epoller epfd k) w (fun _ w' => inv ∅ w').
Proof.
  intros Hi Hk. unfold with_epoller, FdManager.Get. apply wp_bind, wp_get.
  destruct (epManager w !! epfd) as [ep|] eqn:E; [|by apply wp_safe, safe_fail].
  apply Hk; [done|]. destruct (i_epman ∅ w Hi epfd ep E) as (p & ? & _). eauto.
Qed.

Lemma wp_CloseEpoller epfd w :
  inv ∅ w -> wp (QuicCloseEpoller epfd) w (fun _ w' => inv ∅ w').
Proof.
  intros Hi. apply wp_with_epoller; [done|]. intros ep Hm [p Hp].
  unfold DeleteQuicEpollerEntry. apply wp_bind, wp_bind. eapply wp_epoller_of; [done|].
  apply wp_modify. set (w1 := set_epollers _ _ _ _).
  destruct (i_epman ∅ w Hi epfd ep Hm) as (p' & Hp' & Ek). assert (p' = p) as -> by congruence.
  assert (forall fd, epManager w1 !! fd = if decide (fd = epfd) then None else epManager w !! fd) as Em.
  { intros fd. simpl. unfold FdManager.Delete. rewrite Ek, Hm. simpl. rewrite lookup_delete.
    repeat case_decide; congruence. }
  assert (inv ∅ w1) as Hi1.
  { destruct Hi as [A1 A2 A3 A4 A5 A6 A7 A8 A9 A10 A11 A12 A13 A14]. split; try done.
    intros fd ep1. rewrite Em. case_decide; [done|apply A10]. }
  apply wp_bind. eapply wp_mono; [apply wp_destroy_epoller; [done|simpl; eauto|]|].
  - intros fd. rewrite Em. case_decide as E; [done|]. intros Hf.
    destruct (i_epman ∅ w Hi fd ep Hf) as (p2 & Hp2 & Ek2). congruence.
  - intros ? w2 Hi2. by apply wp_ret.
Qed.

Lemma exec_inv o w : inv ∅ w -> wp (exec o) w (fun _ w' => inv ∅ w').
Proof.
  intros Hi. destruct o; simpl.
  - apply wp_call; [done|]. eapply wp_seq; [by apply wp_NewQuicSocketEntry|].
    intros e w1 Hg He. apply safe_fd_of; [apply Hg|done].
  - apply wp_call; [done|]. apply safe_with_category; [done|]. intros e He.
    by apply safe_CloseSocket_delete.
  - apply wp_call; [done|]. apply safe_with_category; [done|]. intros e He. by apply safe_Bind.
  - apply wp_call; [done|]. apply safe_with_category; [done|]. intros e He. by apply safe_BindUdp.
  - apply wp_call; [done|]. apply safe_with_category; [done|]. intros e He. by apply safe_Connect.
  - apply wp_call; [done|]. apply safe_with_category; [done|]. intros e He.
    by apply safe_fd_or_error, wp_AcceptSocket.
  - apply wp_call; [done|]. apply safe_with_category; [done|]. intros e He.
    by apply safe_fd_or_error, wp_AcceptStream.
  - apply wp_call; [done|]. apply safe_with_category; [done|]. intros e He.
    by apply safe_fd_or_error, wp_CreateStream.
  - apply wp_call; [done|]. apply safe_with_category; [done|]. intros e He.
    by apply safe_CloseStream_delete.
  - apply wp_call; [done|]. apply safe_with_category; [done|]. intros e He. by apply safe_Shutdown.
  - apply wp_call; [done|]. apply safe_with_category; [done|]. intros e He. by apply safe_Writev.
  - apply wp_safe. apply safe_seq; [|intros r w1 Hg; apply safe_ret, Hg].
    unfold QuicReadv, Get. unfold safe_in. apply wp_bind, wp_bind, wp_get, wp_ret.
    destruct (FdManager.Get _ _) as [e|] eqn:E; [|by apply safe_fail_pair].
    pose proof (fd_alive w _ e Hi E) as He. apply safe_entry_of; [done|]. intros x Hx.
    destruct (decide _); [by apply safe_Readv|by apply safe_fail_pair].
  - apply wp_call; [done|]. apply safe_with_category; [done|]. intros e He.
    apply safe_seq; [by apply safe_SetOpt|]. intros _ w1 Hg1.
    apply safe_seq; [apply safe_errno, Hg1|]. intros _ w2 Hg2. apply safe_ret, Hg2.
  - unfold QuicCreateEpoll. apply wp_bind. eapply wp_mono; [by apply wp_NewQuicEpollerEntry|].
    intros [ep|] w1 [Hi1 Hal]; [|by split].
    apply wp_bind. eapply wp_deref_some; [done|]. destruct (Hal ep eq_refl) as [p Hp].
    apply wp_bind. eapply wp_epoller_of; [done|]. by apply wp_ret.
  - by apply wp_CloseEpoller.
  - apply wp_with_epoller; [done|]. intros ep _ Hep. apply wp_safe. repeat case_match.
    + by apply safe_kept, wp_Add.
    + by apply safe_kept, wp_Mod.
    + by apply safe_kept, wp_Del.
    + by apply safe_fail.
  - apply wp_bind. eapply wp_mono; [apply wp_call; [done|]|].
    + apply safe_get. unfold FdManager.Get. destruct (epManager w !! epfd) as [ep|] eqn:E;
        [|by apply safe_fail_pair].
      destruct (i_epman ∅ w Hi epfd ep E) as (p & Hp & _).
      apply safe_seq; [by apply safe_errno|]. intros _ w1 Hg1.
      apply safe_Wait; [apply Hg1|]. eapply good_epoller; eauto.
    + intros r w1 Hi1. by apply wp_ret.
Qed.

Lemma run_ops_inv ops : forall w, inv ∅ w -> wp (run_ops ops) w (fun _ w' => inv ∅ w').
Proof.
  induction ops as [|o ops IH]; intros w Hi; [done|]. simpl. apply wp_bind.
  eapply wp_mono; [by apply exec_inv|]. intros r w1 Hi1. apply wp_bind.
  eapply wp_mono; [by apply IH|]. intros rs w2 Hi2. by apply wp_ret.
Qed.

End RunSafety.

Lemma initial_inv s c : inv ∅ (initial s c).
Proof.
  split; simpl; try (intros *; by rewrite ?lookup_empty).
  - rewrite dom_empty_L. apply FdFactory.init_wf.
Qed.

(** ** Runs *)

Section Runs.
Context `{Iteration}.

(** The worlds a sequence of calls leads to. *)
Definition reachable (w : World) : Prop :=
  exists ops s c rs, run_ops ops (initial s c) = Ret rs w.

Lemma reachable_inv w : reachable w -> inv ∅ w.
Proof.
  intros (ops & s & c & rs & E). pose proof (run_ops_inv ops _ (initial_inv s c)) as Hw.
  unfold wp in Hw. by rewrite E in Hw.
Qed.


(** C23: The mutual recursion of closing a listening socket through its accept queue ends in
    every run within the bound the model computes from the state. *)
Theorem no_run_exhausts_the_fuel_of_close ops s c :
  run_ops ops (initial s c) <> Crash OutOfFuel.
Proof.
  intros E. by destruct (wp_excluded _ _ _ _ (run_ops_inv ops _ (initial_inv s c)) E).
Qed.

(** C27: In every reachable state an entry whose descriptor is still set is found in the
    descriptor table under exactly that descriptor, which is positive and not in the free
    queue. *)
Theorem descriptors_name_one_live_entry w fd e x :
  reachable w -> entries w !! e = Some x -> Fd x <> -1 ->
  (fdManager w !! fd = Some e <-> fd = Fd x) /\ 1 <= Fd x /\ Fd x ∉ FdFactory.free_ (fdFactory w).
Proof.
  intros Hi%reachable_inv Hx Hn. destruct (i_fd ∅ w Hi e x Hx) as [?|Hm]; [done|].
  split; [split|].
  - intros (x' & Hx' & ?)%(i_table ∅ w Hi). congruence.
  - by intros ->.
  - apply elem_of_dom_2 in Hm. pose proof (i_factory ∅ w Hi) as Hf.
    split; [by apply (FdFactory.wf_live _ _ Hf)|]. by intros [_ ?]%(FdFactory.wf_free _ _ Hf).
Qed.

(** C28: In every reachable state what an entry notifies is a live cell of a live epoller,
    registered under the descriptor of that entry and nowhere else. *)
Theorem waiters_are_registered_cells w e x ep q :
  reachable w -> entries w !! e = Some x -> waitings_ (event x) !! ep = Some q ->
  is_Some (qevents w !! q) /\
  exists p, epollers w !! ep = Some p /\ fds_ p !! Fd x = Some (e, q) /\
    forall ep' p' fd' e', epollers w !! ep' = Some p' -> fds_ p' !! fd' = Some (e', q) ->
      ep' = ep /\ fd' = Fd x.
Proof.
  intros Hi%reachable_inv Hx Hw.
  destruct (i_wait ∅ w Hi e x ep q Hx Hw) as (p & fd & Hp & Hf & [<-|?%elem_of_empty]); [|done].
  split; [by destruct (i_cell ∅ w Hi ep p _ e q Hp Hf)|]. exists p. split; [done|]. split; [done|].
  intros ep' p' fd' e' Hp' Hf'. by destruct (i_uniq ∅ w Hi ep p _ e ep' p' fd' e' q Hp Hf Hp' Hf').
Qed.

(** C32: Closing an open socket returns 0 and takes its descriptor out of the table, and
    adds no other; the only faults left are those of objects outside the entry table. *)
Theorem QuicCloseSocket_releases_the_descriptor w fd e x s :
  reachable w -> fdManager w !! fd = Some e -> entries w !! e = Some x -> body x = Sock s ->
  match QuicCloseSocket fd w with
  | Ret r w' => r = 0 /\ fdManager w' ⊆ delete fd (fdManager w)
  | Crash k => k <> UseAfterFree /\ k <> OutOfFuel
  end.
Proof.
  intros Hi%reachable_inv Hf Hx Hs.
  pose proof (wp_CloseSocket_gone e w Hi ltac:(eauto)) as Hw.
  rewrite <- (call_with_category Category_Socket fd e x (fun e => _ ← CloseSocket e; DeleteEntry e;; mret 0))
    in Hw by (done || by unfold Category; rewrite Hs).
  unfold wp in Hw. fold (QuicCloseSocket fd) in Hw. destruct (QuicCloseSocket fd w) as [r w'|k]; [|done].
  destruct Hw as (-> & Hsub & Hno). split; [done|]. apply map_subseteq_spec. intros fd' e' H'.
  pose proof (lookup_weaken _ _ _ _ H' Hsub) as Hold. rewrite lookup_delete_ne; [done|].
  intros <-. apply (Hno fd). congruence.
Qed.

(** C33: In every reachable state each stream of a session has a delegate that is alive,
    points back to that socket and stream, and is in the descriptor table. *)
Theorem session_streams_have_live_delegates w e x s sid d :
  reachable w -> entries w !! e = Some x -> body x = Sock s ->
  (sid, d) ∈ dynamic_stream_map_ (impl_ s) ->
  exists xd sd, entries w !! d = Some xd /\ body xd = Strm sd /\ socketEntry_ sd = e /\
    streamId_ sd = sid /\ fdManager w !! Fd xd = Some d.
Proof.
  intros Hi%reachable_inv Hx Hs Hin.
  destruct (i_streams ∅ w Hi e x s sid d Hx Hs Hin) as (xd & sd & Hxd & Hb & He & Hsid & Hn).
  exists xd, sd. destruct (i_fd ∅ w Hi d xd Hxd); naive_solver.
Qed.

End Runs.

(** ** A concrete run *)

Definition server_world : World :=
  match run_ops server_run world0 with Ret _ w => w | Crash _ => world0 end.

Lemma server_world_reachable : reachable server_world.
Proof.
  exists server_run, quiet_sys, ms_clock, [1; 0; 60; 0; 1; 2; 3; 3].
  vm_compute. reflexivity.
Qed.

Definition is_ret {S A} (r : outcome S A) : bool :=
  match r with Ret _ _ => true | Crash _ => false end.

(** Entry [e] of that world. *)
Definition server_entry (e : Z) : option Entry := entries server_world !! e.

Lemma descriptors_name_one_live_entry_witness :
  match server_entry 2 with
  | Some x => fdManager server_world !! 3 = Some 2 <-> 3 = Fd x
  | None => False
  end.
Proof.
  unfold server_entry. destruct (entries server_world !! 2) as [x|] eqn:E.
  - apply (descriptors_name_one_live_entry server_world 3 2 x server_world_reachable E).
    assert (Fd <$> entries server_world !! 2 = Some 3) as H3 by (vm_compute; reflexivity).
    rewrite E in H3. injection H3 as H3. rewrite H3. discriminate.
  - vm_compute in E; discriminate E.
Defined.

Lemma waiters_are_registered_cells_witness :
  is_Some (qevents server_world !! 0).
Proof.
  destruct (entries server_world !! 0) as [x|] eqn:E.
  - apply (waiters_are_registered_cells server_world 0 x 0 0 server_world_reachable E).
    assert ((x ← entries server_world !! 0; waitings_ (event x) !! 0) = Some 0) as Hw
      by (vm_compute; reflexivity).
    by rewrite E in Hw.
  - vm_compute in E; discriminate E.
Defined.

Lemma QuicCloseSocket_releases_the_descriptor_witness :
  match QuicCloseSocket 2 server_world with
  | Ret r w' => r = 0 /\ fdManager w' ⊆ delete 2 (fdManager server_world)
  | Crash _ => False
  end.
Proof.
  assert (is_ret (QuicCloseSocket 2 server_world) = true) as Hret by (vm_compute; reflexivity).
  destruct (entries server_world !! 1) as [x|] eqn:E; [|vm_compute in E; discriminate E].
  assert (is_sock <$> entries server_world !! 1 = Some true) as Hs by (vm_compute; reflexivity).
  rewrite E in Hs. injection Hs as Hs. unfold is_sock in Hs.
  destruct (body x) as [s|] eqn:Hb; [|discriminate Hs].
  assert (fdManager server_world !! 2 = Some 1) as Hf by (vm_compute; reflexivity).
  pose proof (QuicCloseSocket_releases_the_descriptor server_world 2 1 x s
    server_world_reachable Hf E Hb) as Hc.
  destruct (QuicCloseSocket 2 server_world); [exact Hc|discriminate Hret].
Defined.

Lemma session_streams_have_live_delegates_witness :
  exists xd sd, entries server_world !! 2 = Some xd /\ body xd = Strm sd /\
    socketEntry_ sd = 1 /\ streamId_ sd = 5 /\ fdManager server_world !! Fd xd = Some 2.
Proof.
  destruct (entries server_world !! 1) as [x|] eqn:E; [|vm_compute in E; discriminate E].
  assert ((fun x => match body x with Sock s => dynamic_stream_map_ (impl_ s) | _ => [] end)
            <$> entries server_world !! 1 = Some [(5, 2)]) as Hs by (vm_compute; reflexivity).
  rewrite E in Hs. injection Hs as Hs. destruct (body x) as [s|] eqn:Hb; [|discriminate Hs].
  apply (session_streams_have_live_delegates server_world 1 x s 5 2 server_world_reachable E Hb).
  rewrite Hs. by left.
Defined.
