(* ===== verification/Readiness.v ===== *)
(** What the readiness layer promises its callers: [Poll] reports every ready
    descriptor once and takes back exactly what it reported, a state change
    reaches every interested waiter, a new waiter sees the state it missed, and
    the first error stays. *)

From S2P Require Import Prelude FdTable TaskRunner World Epoller Safety EventSafety RunSafety System.

(** ** The conversions between the two event masks *)

(** One bit of a mask. *)
Lemma land_bit m k : 0 <= k -> Z.land m (2 ^ k) = if has m (2 ^ k) then 2 ^ k else 0.
Proof.
  intros Hk. unfold has. destruct (Z.eqb_spec (Z.land m (2 ^ k)) 0) as [->|Hn]; [done|]. simpl.
  apply Z.bits_inj'. intros i Hi. rewrite Z.land_spec, Z.pow2_bits_eqb by done.
  destruct (Z.eqb_spec k i) as [->|]; [|apply andb_false_r]. rewrite andb_true_r.
  destruct (Z.testbit m i) eqn:E; [done|]. destruct Hn. apply Z.bits_inj'. intros j Hj.
  rewrite Z.land_spec, Z.bits_0, Z.pow2_bits_eqb by done.
  destruct (Z.eqb_spec i j) as [<-|]; [by rewrite E|apply andb_false_r].
Qed.

Lemma Epoll2Poll_land m : Epoll2Poll m = Z.land m 13.
Proof.
  change 13 with (Z.lor (Z.lor (2 ^ 0) (2 ^ 2)) (2 ^ 3)). rewrite !Z.land_lor_distr_r, !land_bit by lia.
  unfold Epoll2Poll. change EPOLLIN with (2 ^ 0). change EPOLLOUT with (2 ^ 2).
  change EPOLLERR with (2 ^ 3). by destruct (has m (2 ^ 0)), (has m (2 ^ 2)), (has m (2 ^ 3)).
Qed.

(** The two mask translations keep exactly the three bits the library knows and are
    inverse on them. *)
Theorem poll_and_epoll_masks_agree m :
  Epoll2Poll m = Z.land m (Z.lor POLLIN (Z.lor POLLOUT POLLERR)) /\
  Poll2Epoll m = Epoll2Poll m /\ Poll2Epoll (Epoll2Poll m) = Epoll2Poll m.
Proof.
  change (Poll2Epoll m) with (Epoll2Poll m).
  change (Poll2Epoll (Epoll2Poll m)) with (Epoll2Poll (Epoll2Poll m)). rewrite !Epoll2Poll_land.
  split; [done|]. split; [done|]. by rewrite <- Z.land_assoc.
Qed.

(** ** Reporting *)

Section Reporting.
Context `{Iteration}.

(** The bits a cell has to report: what was asked for, and errors always. *)
Definition pending (c : QEvent) : Z := Z.land (revents c) (Z.lor (events c) POLLERR).

Definition cell_ready (w : World) (kv : Z * (Z * Z)) : Prop :=
  match qevents w !! kv.2.2 with Some c => pending c <> 0 | None => False end.

#[export] Instance cell_ready_dec w kv : Decision (cell_ready w kv).
Proof. unfold cell_ready. destruct (qevents w !! kv.2.2); apply _. Defined.

Definition report (w : World) (kv : Z * (Z * Z)) : option epoll_event :=
  c ← qevents w !! kv.2.2; Some {| ee_events := Poll2Epoll (pending c); ee_data := data c |}.

(** A cell whose pending bits have been taken. *)
Definition taken (c : QEvent) : QEvent :=
  {| events := events c; revents := Z.ldiff (revents c) (Z.lor (events c) POLLERR); data := data c |}.

Lemma ldiff_disjoint a b : Z.land a b = 0 -> Z.ldiff a b = a.
Proof.
  intros E. apply Z.bits_inj'. intros i Hi. rewrite Z.ldiff_spec.
  apply (f_equal (fun z => Z.testbit z i)) in E. rewrite Z.land_spec, Z.bits_0 in E.
  by destruct (Z.testbit a i), (Z.testbit b i).
Qed.

Lemma taken_id c : pending c = 0 -> taken c = c.
Proof. destruct c. unfold pending, taken. simpl. intros E. by rewrite ldiff_disjoint. Qed.

Lemma taken_clear c : pending (taken c) = 0.
Proof.
  unfold pending, taken. simpl. apply Z.bits_inj'. intros i Hi.
  rewrite Z.land_spec, Z.ldiff_spec, Z.bits_0. by destruct (Z.testbit (Z.lor _ _) i), (Z.testbit (revents c) i).
Qed.

Definition cell_of (kv : Z * (Z * Z)) : Z := kv.2.2.

Lemma poll_loop_cons fd e q c l n w :
  qevents w !! q = Some c ->
  poll_loop ((fd, (e, q)) :: l) (S n) w =
  let w1 := set_qevents w (<[q := taken c]> (qevents w)) (nextQEvent w) in
  if pending c =? 0 then poll_loop l (S n) w1
  else match poll_loop l n w1 with
       | Ret rest w2 => Ret ({| ee_events := Poll2Epoll (pending c); ee_data := data c |} :: rest) w2
       | Crash k => Crash k
       end.
Proof.
  intros Hc. simpl. unfold poll_one, qevent_of, update_qevent, deref, get, modify.
  unfold mbind, M_bind, mret, M_ret, qevent_of, mbind, M_bind, get, deref.
  rewrite Hc. simpl. rewrite Hc. simpl. rewrite (alter_as_insert _ _ _ c), lookup_insert_eq by done.
  fold (pending c) (taken c). by destruct (pending c =? 0).
Qed.

Lemma set_qevents_id w : set_qevents w (qevents w) (nextQEvent w) = w.
Proof. by destruct w. Qed.

(** Cells that agree report alike. *)
Lemma filter_ready_ext w w1 (l : list (Z * (Z * Z))) :
  (forall kv, kv ∈ l -> qevents w1 !! cell_of kv = qevents w !! cell_of kv) ->
  filter (cell_ready w1) l = filter (cell_ready w) l.
Proof.
  intros Hw. apply filter_ext_in. intros kv Hin. unfold cell_ready. fold (cell_of kv).
  by rewrite Hw.
Qed.

Lemma omap_report_ext w w1 (l : list (Z * (Z * Z))) :
  (forall kv, kv ∈ l -> qevents w1 !! cell_of kv = qevents w !! cell_of kv) ->
  omap (report w1) l = omap (report w) l.
Proof.
  intros Hw. apply list_omap_ext, Forall_Forall2_diag, Forall_forall. intros kv Hin.
  unfold report. fold (cell_of kv). by rewrite Hw.
Qed.

Lemma elem_of_take_filter (P : Z * (Z * Z) -> Prop) `{!forall x, Decision (P x)} n (l : list (Z * (Z * Z))) kv :
  kv ∈ take n (filter P l) -> kv ∈ l.
Proof. intros Hin%subseteq_take. by apply list_elem_of_filter in Hin as [_ ?]. Qed.

Lemma poll_loop_spec (l : list (Z * (Z * Z))) : forall n w,
  (forall kv, kv ∈ l -> is_Some (qevents w !! cell_of kv)) -> NoDup (cell_of <$> l) ->
  terminates_in (poll_loop l n w) (fun out w' =>
    let t := take n (filter (cell_ready w) l) in
    out = omap (report w) t /\
    exists m, w' = set_qevents w m (nextQEvent w) /\
      forall q, m !! q = if bool_decide (q ∈ cell_of <$> t) then taken <$> qevents w !! q
                         else qevents w !! q).
Proof.
  induction l as [|[fd [e q]] l IH]; intros n w Hl Hnd.
  { rewrite filter_nil, take_nil. destruct n; (split; [done|]); exists (qevents w);
      by rewrite set_qevents_id. }
  destruct n as [|n].
  { split; [done|]. exists (qevents w). by rewrite set_qevents_id. }
  destruct (Hl (fd, (e, q))) as [c Hc]; [by left|]. change (qevents w !! q = Some c) in Hc.
  rewrite (poll_loop_cons fd e q c) by done. apply NoDup_cons in Hnd as [Hni Hnd]. change (q ∉ cell_of <$> l) in Hni.
  rewrite filter_cons. destruct (Z.eqb_spec (pending c) 0) as [E|E]; simpl.
  - rewrite taken_id, insert_id, set_qevents_id by done.
    rewrite decide_False by (unfold cell_ready; simpl; rewrite Hc; tauto).
    apply IH; [set_solver|done].
  - rewrite decide_True by (unfold cell_ready; simpl; by rewrite Hc). rewrite firstn_cons.
    set (w1 := set_qevents w _ _).
    assert (forall kv, kv ∈ l -> qevents w1 !! cell_of kv = qevents w !! cell_of kv) as Hsame.
    { intros kv Hin. apply lookup_insert_ne. intros E1. apply Hni. rewrite E1.
      by apply list_elem_of_fmap_2. }
    assert (terminates_in (poll_loop l n w1) (fun out w' =>
      out = omap (report w) (take n (filter (cell_ready w) l)) /\
      exists m, w' = set_qevents w1 m (nextQEvent w1) /\
      forall q', m !! q' = if bool_decide (q' ∈ cell_of <$> take n (filter (cell_ready w) l))
                           then taken <$> qevents w1 !! q' else qevents w1 !! q')) as HIH.
    { rewrite <- (filter_ready_ext w w1), <- (omap_report_ext w w1);
        [|intros kv Hin; apply Hsame; by eapply elem_of_take_filter|done].
      apply IH; [|done]. intros kv Hin. rewrite Hsame; set_solver. }
    destruct (poll_loop l n w1) as [out w2|]; [|done]. destruct HIH as (-> & m & -> & Hm).
    split; [unfold report at 2; simpl; by rewrite Hc|]. exists m. split; [done|].
    intros q'. rewrite Hm. rewrite fmap_cons. unfold w1. simpl. rewrite lookup_insert.
    destruct (decide (q = q')) as [<-|Hne].
    + rewrite (bool_decide_eq_true_2 (q ∈ q :: _)) by by left. rewrite Hc.
      rewrite bool_decide_eq_false_2; [done|]. intros (kv & -> & Hin)%list_elem_of_fmap.
      apply Hni, list_elem_of_fmap_2. by eapply elem_of_take_filter.
    + set (t := take n _). fold (cell_of <$> t).
      rewrite (bool_decide_ext (q' ∈ q :: _) (q' ∈ cell_of <$> t)); [done|].
      rewrite elem_of_cons. naive_solver.
Qed.

Lemma cells_nodup X w ep p :
  inv X w -> epollers w !! ep = Some p -> NoDup (cell_of <$> iterate (fds_ p)).
Proof.
  intros Hi Hp. apply NoDup_fmap_2_strong; [|rewrite iterate_perm; apply NoDup_map_to_list].
  intros [fd [e q]] [fd' [e' q']] H1%elem_of_iterate H2%elem_of_iterate. unfold cell_of. simpl.
  intros ->. destruct (i_uniq X w Hi ep p fd e ep p fd' e' q' Hp H1 Hp H2) as [_ ->]. congruence.
Qed.

Lemma Poll_loop w ep p n :
  epollers w !! ep = Some p ->
  (forall kv, kv ∈ iterate (fds_ p) -> is_Some (qevents w !! cell_of kv)) ->
  NoDup (cell_of <$> iterate (fds_ p)) ->
  terminates_in (Poll ep n w) (fun out w' =>
    let t := take (Z.to_nat n) (filter (cell_ready w) (iterate (fds_ p))) in
    out = omap (report w) t /\
    exists m, w' = set_qevents w m (nextQEvent w) /\
      forall q, m !! q = if bool_decide (q ∈ cell_of <$> t) then taken <$> qevents w !! q
                         else qevents w !! q).
Proof.
  intros Hp Hc Hn. unfold Poll. apply total_bind. unfold epoller_of, get, deref, mbind, M_bind.
  rewrite Hp. simpl. by apply poll_loop_spec.
Qed.

Lemma Poll_spec X ep p n w :
  inv X w -> epollers w !! ep = Some p ->
  terminates_in (Poll ep n w) (fun out w' =>
    let t := take (Z.to_nat n) (filter (cell_ready w) (iterate (fds_ p))) in
    out = omap (report w) t /\
    exists m, w' = set_qevents w m (nextQEvent w) /\
      forall q, m !! q = if bool_decide (q ∈ cell_of <$> t) then taken <$> qevents w !! q
                         else qevents w !! q).
Proof.
  intros Hi Hp. apply Poll_loop; [done| |by eapply cells_nodup].
  intros [fd [e q]] Hf%elem_of_iterate. by eapply (i_cell X w Hi).
Qed.

(** C31: Poll reports the first maxevents ready descriptors with their events and user data,
    once each, and clears exactly the bits it reported. *)
Theorem Poll_reports_the_ready_cells_once w ep p maxevents :
  reachable w -> epollers w !! ep = Some p ->
  terminates_in (Poll ep maxevents w) (fun out w' =>
    let reported := take (Z.to_nat maxevents) (filter (cell_ready w) (iterate (fds_ p))) in
    out = omap (report w) reported /\ length out = length reported /\
    NoDup (cell_of <$> reported) /\
    exists m, w' = set_qevents w m (nextQEvent w) /\
      forall q, m !! q = if bool_decide (q ∈ cell_of <$> reported) then taken <$> qevents w !! q
                         else qevents w !! q).
Proof.
  intros Hi%reachable_inv Hp. eapply total_mono; [by eapply Poll_spec|].
  intros out w' (-> & m & -> & Hm). set (t := take _ _) in *. split; [done|].
  assert (forall kv, kv ∈ t -> cell_ready w kv) as Ht.
  { intros kv Hin%subseteq_take. by apply list_elem_of_filter in Hin as [? _]. }
  split; [|split; [|by exists m]].
  - clear Hm. induction t as [|kv t IH]; [done|]. simpl. unfold report at 1.
    pose proof (Ht kv ltac:(by left)) as Hc. unfold cell_ready in Hc.
    destruct (qevents w !! kv.2.2); [|done]. simpl. f_equal. apply IH. set_solver.
  - eapply sublist_NoDup; [eapply cells_nodup; [exact Hi|exact Hp]|].
    apply fmap_sublist. etransitivity; [apply sublist_take|apply sublist_filter].
Qed.

(** A second Poll right after one with enough room reports nothing. *)
Theorem Poll_is_edge_triggered w ep p maxevents :
  reachable w -> epollers w !! ep = Some p -> Z.of_nat (size (fds_ p)) <= maxevents ->
  terminates_in ((Poll ep maxevents ≫= fun _ => Poll ep maxevents) w) (fun out _ => out = []).
Proof.
  intros Hi%reachable_inv Hp Hn. apply total_bind. eapply total_mono; [by eapply Poll_spec|].
  intros out w' (-> & m & -> & Hm).
  assert (length (filter (cell_ready w) (iterate (fds_ p))) <= Z.to_nat maxevents)%nat as Hlen.
  { etransitivity; [apply length_filter|]. rewrite iterate_perm, length_map_to_list. lia. }
  rewrite take_ge in Hm by done. set (w' := set_qevents w m (nextQEvent w)).
  assert (forall kv, kv ∈ iterate (fds_ p) -> ~ cell_ready w' kv) as Hno.
  { intros kv Hin. unfold cell_ready, w'. simpl. fold (cell_of kv). rewrite Hm. case_bool_decide as Hb.
    - destruct (qevents w !! cell_of kv); simpl; [rewrite taken_clear|]; tauto.
    - intros Hr. apply Hb, list_elem_of_fmap_2, list_elem_of_filter. split; [|done].
      by unfold cell_ready. }
  eapply total_mono; [apply (Poll_loop w' ep p); [done|..]|].
  - intros kv Hin. unfold w'. simpl. rewrite Hm. destruct kv as [fd [e q]]. apply elem_of_iterate in Hin.
    destruct (i_cell ∅ w Hi ep p fd e q Hp Hin) as [Hc _]. unfold cell_of. simpl.
    case_bool_decide; [by apply fmap_is_Some|done].
  - by eapply cells_nodup.
  - intros out ? (-> & _). rewrite filter_Forall_nil by by apply Forall_forall. by rewrite take_nil.
Qed.

End Reporting.

(** ** Notification *)

Section Notification.
Context `{Iteration}.

(** Whether a waiter is told about [ev]; errors are always told. *)
Definition interested (ev : Z) (c : QEvent) : bool := (ev =? POLLERR) || has (events c) ev.

Definition told (ev : Z) (c : QEvent) : QEvent := if interested ev c then or_revents ev c else c.

Definition is_event (ev : Z) : Prop := ev = POLLIN \/ ev = POLLOUT \/ ev = POLLERR.

(** The epoller has been woken: the flag its [Wait] looks at is set and the
    kernel has been told. *)
Definition awake (w : World) (ep : Z) : Prop :=
  exists p, epollers w !! ep = Some p /\ triggered p = true /\ notifyProtect_ p = true.

(** What notification may change. *)
Record woken (w w' : World) : Prop := {
  wk_entries : entries w' = entries w;
  wk_alive : forall ep, is_Some (epollers w !! ep) -> is_Some (epollers w' !! ep);
  wk_awake : forall ep, awake w ep -> awake w' ep
}.

Lemma total_epoll_ctl epfd opc fd ev w (Q : Z -> World -> Prop) :
  (forall r w', entries w' = entries w -> epollers w' = epollers w -> qevents w' = qevents w -> Q r w') ->
  terminates_in (epoll_ctl epfd opc fd ev w) Q.
Proof.
  intros HQ. unfold epoll_ctl, syscall, when, mbind, M_bind, mret, M_ret, modify.
  simpl. repeat case_match; simplify_eq; by apply HQ.
Qed.

Lemma total_EventTrigger ep p w :
  epollers w !! ep = Some p ->
  terminates_in (EventTrigger_Trigger ep w) (fun _ w' =>
    woken w w' /\ qevents w' = qevents w /\ awake w' ep).
Proof.
  intros Hp. unfold EventTrigger_Trigger, Notify, update_epoller, epoller_of, get, deref, modify.
  unfold mbind, M_bind. rewrite Hp. simpl. rewrite lookup_alter_eq, Hp. simpl.
  rewrite (alter_as_insert _ _ _ p) by done.
  match goal with |- context [<[ep := ?x]> (epollers w)] => set (p1 := x) end.
  destruct (notifyProtect_ p) eqn:Ep; simpl.
  - split; [|split; [done|]].
    + split; [done|..]; simpl.
      * intros ep' ?. apply lookup_insert_is_Some'. by right.
      * intros ep' (p' & Hp' & ? & ?). unfold awake. simpl. rewrite lookup_insert.
        case_decide; [exists p1; by subst|by exists p'].
    + exists p1. simpl. by rewrite lookup_insert_eq.
  - rewrite lookup_insert_eq. simpl. rewrite (alter_as_insert _ _ _ p1) by apply lookup_insert_eq.
    rewrite insert_insert_eq. 
    set (w2 := set_epollers _ _ _ _).
    match goal with |- terminates_in (match ?o with _ => _ end) _ => set (r := o) end.
    assert (terminates_in r (fun _ w' => entries w' = entries w2 /\ epollers w' = epollers w2 /\
              qevents w' = qevents w2)) as Hr by by apply total_epoll_ctl.
    destruct r as [a w'|]; [|done]. destruct Hr as (E1 & E2 & E3). simpl.
    split; [|split; [done|]].
    + split; [done|..]; rewrite ?E2; simpl.
      * intros ep' ?. apply lookup_insert_is_Some'. by right.
      * intros ep' (p' & Hp' & ? & ?). unfold awake. rewrite E2. simpl. rewrite lookup_insert.
        case_decide; [eexists; by split|by exists p'].
    + unfold awake. rewrite E2. simpl. rewrite lookup_insert_eq. by eexists.
Qed.

#[export] Instance woken_preorder : PreOrder woken.
Proof.
  split; [by split|]. intros w1 w2 w3 [E1 A1 B1] [E2 A2 B2]. split; [congruence|auto|auto].
Qed.

Lemma total_trigger_one ev ep q c w :
  is_event ev -> is_Some (epollers w !! ep) -> qevents w !! q = Some c ->
  terminates_in (trigger_one ev (ep, q) w) (fun _ w' =>
    woken w w' /\ qevents w' = <[q := told ev c]> (qevents w) /\
    (interested ev c = true -> awake w' ep)).
Proof.
  intros Hev [p Hp] Hc.
  set (w1 := set_qevents w (<[q := or_revents ev c]> (qevents w)) (nextQEvent w)).
  assert (interested ev c = true -> terminates_in ((update_qevent q (or_revents ev);; EventTrigger_Trigger ep) w)
    (fun _ w' => woken w w' /\ qevents w' = <[q := told ev c]> (qevents w) /\
      (interested ev c = true -> awake w' ep))) as Hyes.
  { intros Hin. apply total_bind. unfold update_qevent, qevent_of, get, deref, modify, mbind, M_bind.
    rewrite Hc. simpl. rewrite (alter_as_insert _ _ _ c) by done. fold w1.
    eapply total_mono; [by apply (total_EventTrigger ep p)|]. intros ? w' ([E1 A1 B1] & E2 & Ha).
    split; [split; [done|exact A1|exact B1]|]. unfold told. by rewrite Hin. }
  assert (interested ev c = false -> woken w w /\ qevents w = <[q := told ev c]> (qevents w) /\
      (interested ev c = true -> awake w ep)) as Hno.
  { intros Hin. split; [done|]. unfold told. rewrite Hin. by rewrite insert_id. }
  unfold trigger_one, when.
  assert (forall m : M World unit, (c0 ← qevent_of q; if has (events c0) ev then m else mret tt) w =
            (if has (events c) ev then m else mret tt) w) as Hq.
  { intros m. unfold qevent_of, get, deref, mbind, M_bind. by rewrite Hc. }
  destruct Hev as [ -> | [ -> | -> ]]; simpl; rewrite ?Hq.
  - destruct (has (events c) POLLIN) eqn:E; [by apply Hyes|by apply Hno].
  - destruct (has (events c) POLLOUT) eqn:E; [by apply Hyes|by apply Hno].
  - by apply Hyes.
Qed.

Lemma waiters_nodup X w e x :
  inv X w -> entries w !! e = Some x -> NoDup (iterate (waitings_ (event x))).*2.
Proof.
  intros Hi Hx. apply NoDup_fmap_2_strong; [|rewrite iterate_perm; apply NoDup_map_to_list].
  intros [ep q] [ep' q'] H1%elem_of_iterate H2%elem_of_iterate. simpl. intros ->.
  destruct (i_wait X w Hi e x ep q' Hx H1) as (p & fd & Hp & Hf & _).
  destruct (i_wait X w Hi e x ep' q' Hx H2) as (p' & fd' & Hp' & Hf' & _).
  by destruct (i_uniq X w Hi ep p fd e ep' p' fd' e q' Hp Hf Hp' Hf') as [-> _].
Qed.

(** Every waiter's cell is told, and every interested one's epoller is woken. *)
Lemma Trigger_spec X ev e x w :
  inv X w -> is_event ev -> entries w !! e = Some x ->
  terminates_in (Trigger e ev w) (fun _ w' => woken w w' /\
    (forall q, qevents w' !! q = if bool_decide (q ∈ (iterate (waitings_ (event x))).*2)
                                 then told ev <$> qevents w !! q else qevents w !! q) /\
    (forall ep q c, waitings_ (event x) !! ep = Some q -> qevents w !! q = Some c ->
       interested ev c = true -> awake w' ep)).
Proof.
  intros Hi Hev Hx. unfold Trigger. apply total_bind. unfold entry_of, get, deref, mbind, M_bind.
  rewrite Hx. simpl. pose proof (waiters_nodup X w e x Hi Hx) as Hnd.
  assert (forall ep q, (ep, q) ∈ iterate (waitings_ (event x)) ->
            is_Some (epollers w !! ep) /\ is_Some (qevents w !! q)) as Halive.
  { intros ep q Hw%elem_of_iterate. destruct (i_wait X w Hi e x ep q Hx Hw) as (p & fd & Hp & Hf & _).
    split; [eauto|]. by eapply (i_cell X w Hi). }
  set (ws := iterate (waitings_ (event x))) in *.
  eapply total_mono; [apply (total_for_each _ (fun l w' => woken w w' /\ NoDup l.*2 /\ l ⊆ ws /\
    (forall q, qevents w' !! q = if bool_decide (q ∈ ws.*2 /\ q ∉ l.*2)
                                 then told ev <$> qevents w !! q else qevents w !! q) /\
    (forall ep q c, (ep, q) ∈ ws -> (ep, q) ∉ l -> qevents w !! q = Some c ->
       interested ev c = true -> awake w' ep)))|].
  - split; [done|]. split; [done|]. split; [done|]. split; [|done].
    intros q. rewrite bool_decide_eq_false_2; tauto.
  - intros [ep q] l w' (Hwk & Hn & Hsub & Hq & Haw). apply NoDup_cons in Hn as [Hni Hn].
    destruct (Halive ep q) as [Hep [c Hc]]; [set_solver|].
    assert (qevents w' !! q = Some c) as Hc'.
    { rewrite Hq, bool_decide_eq_false_2; [done|]. set_solver. }
    eapply total_mono; [apply (total_trigger_one ev ep q c); [done|by apply (wk_alive w)|done]|].
    intros ? w2 (Hwk2 & Eq2 & Ha2). split; [by transitivity w'|]. split; [done|].
    split; [set_solver|]. split.
    + intros q'. rewrite Eq2, lookup_insert. case_decide as E; [subst q'|].
      * rewrite bool_decide_eq_true_2; [by rewrite Hc|]. split; [|done].
        apply list_elem_of_fmap. exists (ep, q). set_solver.
      * rewrite Hq. erewrite bool_decide_ext; [done|]. simpl. set_solver.
    + intros ep' q' c' Hin Hnin Hc1 Hint. destruct (decide ((ep', q') = (ep, q))) as [[= -> ->]|].
      * apply Ha2. congruence.
      * apply (wk_awake _ _ Hwk2). apply (Haw ep' q' c'); set_solver.
  - intros ? w' (Hwk & _ & _ & Hq & Haw). split; [done|]. split.
    + intros q. rewrite Hq. erewrite bool_decide_ext; [done|]. set_solver.
    + intros ep q c Hw Hc Hint. eapply Haw; [by apply elem_of_iterate|set_solver|done|done].
Qed.

(** The cells after the waiters of [x] were told about [ev], and their epollers. *)
Definition waiters_told (ev : Z) (x : Entry) (w w' : World) : Prop :=
  (forall q, qevents w' !! q = if bool_decide (q ∈ (iterate (waitings_ (event x))).*2)
                               then told ev <$> qevents w !! q else qevents w !! q) /\
  (forall ep q c, waitings_ (event x) !! ep = Some q -> qevents w !! q = Some c ->
     interested ev c = true -> awake w' ep).

Lemma total_change f ev e x w :
  inv ∅ w -> is_event ev -> entries w !! e = Some x ->
  fd_ (f (event x)) = fd_ (event x) -> waitings_ (f (event x)) = waitings_ (event x) ->
  closeTrigger_ (f (event x)) = closeTrigger_ (event x) ->
  terminates_in ((update_event e f;; Trigger e ev) w) (fun _ w' =>
    entries w' = <[e := on_event f x]> (entries w) /\ waiters_told ev x w w').
Proof.
  intros Hi Hev Hx Ef Ew Ec. apply total_bind.
  unfold update_event, update_entry, entry_of, get, deref, modify, mbind, M_bind.
  rewrite Hx. simpl. rewrite (alter_as_insert _ _ _ x) by done.
  set (w1 := set_entries w _ _).
  assert (inv ∅ w1) as Hi1.
  { apply (inv_event ∅ w e x (f (event x))); try done. by rewrite Ew. }
  eapply total_mono; [apply (Trigger_spec ∅ ev e (on_event f x) w1); [done|done|apply lookup_insert_eq]|].
  simpl. rewrite Ew. intros ? w' ([E _ _] & Hq & Ha). split; [done|]. split; [exact Hq|exact Ha].
Qed.


(** The first error of an entry is stored, marks the cell of every waiter and wakes its
    epoller; later ones change nothing. *)
Theorem the_first_error_stays_and_reaches_every_waiter w e x err quicErr :
  reachable w -> entries w !! e = Some x ->
  terminates_in (SetError e err quicErr w) (fun _ w' =>
    if error (event x) =? 0 then
      entries w' = <[e := on_event (ev_error err quicErr) x]> (entries w) /\
      waiters_told POLLERR x w w' /\
      forall ep q c, waitings_ (event x) !! ep = Some q -> qevents w !! q = Some c -> awake w' ep
    else w' = w).
Proof.
  intros Hi%reachable_inv Hx. unfold SetError. apply total_bind.
  unfold entry_of, get, deref, mbind, M_bind. rewrite Hx. simpl.
  destruct (error (event x) =? 0); [|done].
  eapply total_mono; [apply (total_change (ev_error err quicErr)); try done; by right; right|].
  intros ? w' [E [Hq Ha]]. split; [done|]. split; [done|]. intros ep q c Hw Hc. by apply (Ha ep q c).
Qed.

End Notification.

(** ** A run in which a stream is ready *)

(** As [server_run], but the stream is put into the epoller instead of read. *)
Definition ready_run : list op :=
  take 7 server_run ++ [OpEpollCtl 60 EPOLL_CTL_ADD 3 (Z.lor EPOLLIN EPOLLOUT) 9].
Definition ready_world : World :=
  match run_ops ready_run world0 with Ret _ w => w | Crash _ => world0 end.

Lemma ready_world_reachable : reachable ready_world.
Proof.
  exists ready_run, quiet_sys, ms_clock, [1; 0; 60; 0; 1; 2; 3; 0]. vm_compute. reflexivity.
Qed.

Lemma ready_epoller : { p | epollers ready_world !! 0 = Some p }.
Proof.
  destruct (epollers ready_world !! 0) as [p|] eqn:E; [by exists p|vm_compute in E; discriminate E].
Defined.

Lemma ready_stream : { x | entries ready_world !! 2 = Some x }.
Proof.
  destruct (entries ready_world !! 2) as [x|] eqn:E; [by exists x|vm_compute in E; discriminate E].
Defined.

Lemma Poll_reports_the_ready_cells_once_witness :
  terminates_in (Poll 0 1 ready_world) (fun out w' => length out = 1%nat).
Proof.
  destruct ready_epoller as [p Hp].
  pose proof (Poll_reports_the_ready_cells_once ready_world 0 p 1 ready_world_reachable Hp) as Hw.
  eapply total_mono; [exact Hw|]. intros out w' (_ & -> & _).
  assert ((fun p => length (take 1 (filter (cell_ready ready_world) (iterate (fds_ p))))) <$>
            epollers ready_world !! 0 = Some 1%nat) as Hl by (vm_compute; reflexivity).
  rewrite Hp in Hl. injection Hl as Hl. exact Hl.
Defined.

Lemma Poll_is_edge_triggered_witness :
  terminates_in ((Poll 0 10 ≫= fun _ => Poll 0 10) ready_world) (fun out _ => out = []).
Proof.
  destruct ready_epoller as [p Hp].
  apply (Poll_is_edge_triggered ready_world 0 p 10 ready_world_reachable Hp).
  assert ((fun p => Z.of_nat (size (fds_ p)) <=? 10) <$> epollers ready_world !! 0 = Some true) as Hl
    by (vm_compute; reflexivity).
  rewrite Hp in Hl. injection Hl as Hl. by apply Z.leb_le.
Defined.


Lemma the_first_error_stays_and_reaches_every_waiter_witness :
  terminates_in (SetError 2 EBADF 0 ready_world) (fun _ w' => awake w' 0).
Proof.
  destruct ready_stream as [x Hx].
  pose proof (the_first_error_stays_and_reaches_every_waiter ready_world 2 x EBADF 0
    ready_world_reachable Hx) as Hw.
  assert ((x ← entries ready_world !! 2; waitings_ (event x) !! 0) = Some 1) as H1
    by (vm_compute; reflexivity).
  assert ((fun x => error (event x)) <$> entries ready_world !! 2 = Some 0) as H0
    by (vm_compute; reflexivity).
  assert (qevents ready_world !! 1 = Some {| events := 5; revents := 1; data := 9 |}) as H2
    by (vm_compute; reflexivity).
  rewrite Hx in H0, H1. injection H0 as H0. rewrite H0 in Hw.
  eapply total_mono; [exact Hw|]. intros _ w' (_ & _ & Ha). by apply (Ha 0 1 _ H1 H2).
Defined.
