(* ===== verification/Streams.v ===== *)
(** Stream data: [Readv] and [OnReceived] of src/src/stream_entry.cpp implement a
    byte queue, until the end of the stream arrives. *)

From S2P Require Import Prelude FdTable TaskRunner World Epoller Socket Api Safety EventSafety.
From S2P Require Import CallSafety ApiSafety RunSafety Readiness System.

(** ** The copy loop *)

(** The room in the caller's buffers. *)
Definition capacity (iov : list Z) : nat := list_sum (Z.to_nat <$> iov).

Lemma capacity_cons len iov : capacity (len :: iov) = (Z.to_nat len + capacity iov)%nat.
Proof. done. Qed.

Lemma copy_out_spec buf : forall iov pos,
  (pos <= length buf)%nat ->
  let '(pieces, pos') := copy_out iov buf pos in
  pos' = (pos + Nat.min (length buf - pos) (capacity iov))%nat /\
  concat pieces = take (pos' - pos) (drop pos buf) /\
  Forall2 (fun piece len => (length piece <= Z.to_nat len)%nat) pieces (take (length pieces) iov).
Proof.
  induction iov as [|len iov IH]; intros pos Hpos.
  { simpl. rewrite Nat.sub_diag. split; [unfold capacity; simpl; lia|done]. }
  simpl copy_out. destruct (Nat.ltb_spec pos (length buf)) as [Hlt|Hge].
  2:{ rewrite Nat.sub_diag. split; [lia|done]. }
  set (n := Nat.min (length buf - pos) (Z.to_nat len)).
  specialize (IH (pos + n)%nat ltac:(lia)). destruct (copy_out iov buf (pos + n)) as [ps pos'].
  destruct IH as (E & Hc & Hf). rewrite capacity_cons. split; [lia|]. simpl. split.
  - rewrite Hc. rewrite <- (take_drop n (drop pos buf)) at 2. rewrite drop_drop, take_app.
    rewrite length_take, length_drop. rewrite (take_ge (take n _)) by (rewrite length_take; lia).
    f_equal. f_equal. lia.
  - constructor; [|done]. rewrite length_take. lia.
Qed.

(** ** One read *)

Section Streams.
Context `{Iteration}.

(** [st] is a stream without error whose session still has it. *)
Record open_stream (w : World) (st : Z) (x : Entry) (s : StreamEntry) : Prop := {
  o_entry : entries w !! st = Some x;
  o_body : body x = Strm s;
  o_error : error (event x) = 0;
  o_socket : exists xe so, entries w !! socketEntry_ s = Some xe /\ body xe = Sock so /\
    streamId_ s ∈ (dynamic_stream_map_ (impl_ so)).*1
}.

Definition with_buffer (b : list Z) (s : StreamEntry) : StreamEntry :=
  {| sudpSocket_ := sudpSocket_ s; socketEntry_ := socketEntry_ s; streamId_ := streamId_ s;
     finRead_ := finRead_ s; recvBuffer_ := b |}.

Definition put_buffer (w : World) (st : Z) (x : Entry) (s : StreamEntry) (b : list Z) : World :=
  put_entry w st {| event := event x; body := Strm (with_buffer b s) |}.

Definition with_errno (w : World) (e : Z) : World := set_kernel w (interest w) (sys w) e.

Lemma run_stream_of {A} st x s (f : StreamEntry -> M World A) w :
  entries w !! st = Some x -> body x = Strm s -> (stream_of st ≫= f) w = f s w.
Proof.
  intros Hx Hb. unfold stream_of, entry_of, get, deref, mbind, M_bind. by rewrite Hx, Hb.
Qed.

Lemma run_entry_of {A} e x (f : Entry -> M World A) w :
  entries w !! e = Some x -> (entry_of e ≫= f) w = f x w.
Proof. intros Hx. unfold entry_of, get, deref, mbind, M_bind. by rewrite Hx. Qed.

Lemma run_GetQuartcStream {A} st x s (f : option (Z * Z) -> M World A) w :
  open_stream w st x s -> (GetQuartcStream st ≫= f) w = f (Some (socketEntry_ s, streamId_ s)) w.
Proof.
  intros [Hx Hb _ (xe & so & He & Hso & Hin)]. unfold GetQuartcStream.
  unfold mbind at 1, M_bind at 1. rewrite (run_stream_of st x s) by done.
  unfold get, mbind, M_bind. rewrite He, Hso. by rewrite bool_decide_eq_true_2.
Qed.

Lemma run_update_stream {A} st x s g (f : unit -> M World A) w :
  entries w !! st = Some x -> body x = Strm s ->
  (update_stream st g ≫= f) w = f tt (put_entry w st {| event := event x; body := Strm (g s) |}).
Proof.
  intros Hx Hb. unfold update_stream. unfold mbind at 1, M_bind at 1.
  rewrite (run_stream_of st x s) by done. unfold update_entry. unfold mbind at 1, M_bind at 1.
  unfold entry_of, get, deref, mbind, M_bind, modify. rewrite Hx. simpl.
  rewrite (alter_as_insert _ _ _ x) by done. by rewrite Hb.
Qed.

Lemma total_update_stream st x s g w :
  entries w !! st = Some x -> body x = Strm s ->
  terminates_in (update_stream st g w)
    (fun _ w' => w' = put_entry w st {| event := event x; body := Strm (g s) |}).
Proof.
  intros Hx Hb. pose proof (run_update_stream st x s g (fun _ => mret tt) w Hx Hb) as E.
  unfold mbind, M_bind in E. destruct (update_stream st g w) as [[] w'|]; [|done].
  by injection E as ->.
Qed.

(** What a read of [n] bytes leaves. *)
Definition read_result (w : World) (st : Z) (x : Entry) (s : StreamEntry) (n : nat)
    (pieces : list (list Z)) : outcome World (Z * list (list Z)) :=
  let w' := put_buffer w st x s (drop n (recvBuffer_ s)) in
  if (n =? 0)%nat then Ret (-1, []) (with_errno w' EAGAIN)
  else Ret (Z.of_nat n, pieces) (with_errno w' 0).

Lemma Readv_eq st x s iov w :
  open_stream w st x s -> finRead_ s = false -> Z.of_nat (length (recvBuffer_ s)) < 2 ^ 31 ->
  Readv st iov w =
  read_result w st x s (copy_out iov (recvBuffer_ s) 0).2 (copy_out iov (recvBuffer_ s) 0).1.
Proof.
  intros Ho Hf Hlen. pose proof Ho as [Hx Hb He _]. unfold Readv.
  rewrite (run_entry_of st x), (run_stream_of st x s) by done. rewrite He, Hf. simpl.
  rewrite (run_GetQuartcStream st x s) by done.
  pose proof (copy_out_spec (recvBuffer_ s) iov 0 ltac:(lia)) as Hc.
  destruct (copy_out iov (recvBuffer_ s) 0) as [pieces pos]. destruct Hc as (Hpos & _ & _).
  rewrite (run_update_stream st x s) by done. unfold read_result, put_buffer. simpl.
  assert (int32 (Z.of_nat pos) = Z.of_nat pos) as -> by (apply int32_small; lia).
  assert ((if (pos =? length (recvBuffer_ s))%nat then [] else drop pos (recvBuffer_ s)) =
            drop pos (recvBuffer_ s)) as ->.
  { destruct (Nat.eqb_spec pos (length (recvBuffer_ s))); [|done]. by rewrite drop_ge by lia. }
  destruct (Nat.eqb_spec pos 0) as [->|Hn]; [done|]. by destruct (Z.eqb_spec (Z.of_nat pos) 0); [lia|].
Qed.

(** Readv of an open stream fills the buffers in order with the longest prefix that
    fits, keeps the rest, and returns its length or -1 with EAGAIN when nothing was moved. *)
Theorem Readv_moves_a_prefix_of_the_buffer st x s iov w :
  open_stream w st x s -> finRead_ s = false -> Z.of_nat (length (recvBuffer_ s)) < 2 ^ 31 ->
  let n := Nat.min (length (recvBuffer_ s)) (capacity iov) in
  terminates_in (Readv st iov w) (fun r w' =>
    concat r.2 = take n (recvBuffer_ s) /\
    Forall2 (fun piece len => (length piece <= Z.to_nat len)%nat) r.2 (take (length r.2) iov) /\
    (r.1, errno w') = (if (n =? 0)%nat then (-1, EAGAIN) else (Z.of_nat n, 0)) /\
    entries w' = <[st := {| event := event x; body := Strm (with_buffer (drop n (recvBuffer_ s)) s) |}]>
                   (entries w)).
Proof.
  intros Ho Hf Hlen n. rewrite (Readv_eq st x s) by done. unfold read_result.
  pose proof (copy_out_spec (recvBuffer_ s) iov 0 ltac:(lia)) as Hc.
  destruct (copy_out iov (recvBuffer_ s) 0) as [pieces pos]. destruct Hc as (Hpos & Hcat & Hfit).
  simpl. replace pos with n in * by lia. rewrite Nat.sub_0_r, drop_0 in Hcat.
  destruct (Nat.eqb_spec n 0) as [E|E]; simpl; [|done]. rewrite E in *. simpl. done.
Qed.

(** ** A whole exchange *)

(** Data arrives from the engine, or the application reads. *)
Inductive stream_step : Type :=
| Arrive (bytes : list Z)
| Take (iov : list Z).

Definition arrived (l : list stream_step) : list Z :=
  concat ((fun a => match a with Arrive b => b | Take _ => [] end) <$> l).

(** The bytes the application gets. *)
Fixpoint exchange (st : Z) (l : list stream_step) : M World (list Z) :=
  match l with
  | [] => mret []
  | Arrive b :: l' => OnReceived st b;; exchange st l'
  | Take iov :: l' => r ← Readv st iov; out ← exchange st l'; mret (concat r.2 ++ out)
  end.

Lemma open_put w w' st x x' s s' :
  open_stream w st x s -> body x' = Strm s' -> error (event x') = 0 ->
  socketEntry_ s' = socketEntry_ s -> streamId_ s' = streamId_ s ->
  entries w' = <[st := x']> (entries w) -> open_stream w' st x' s'.
Proof.
  intros [Hx Hb _ (xe & so & He & Hso & Hin)] Hb' Herr E1 E2 Ee. split; [|done|done|].
  - by rewrite Ee, lookup_insert_eq.
  - exists xe, so. rewrite E1, E2, Ee. split; [|done]. rewrite lookup_insert_ne; [done|]. congruence.
Qed.

Lemma OnReceived_spec st x s bytes w :
  inv ∅ w -> open_stream w st x s ->
  terminates_in (OnReceived st bytes w) (fun _ w' => inv ∅ w' /\
    exists x', open_stream w' st x' (with_buffer (recvBuffer_ s ++ bytes) s)).
Proof.
  intros Hi Ho. pose proof Ho as [Hx Hb Herr _].
  unfold OnReceived. rewrite (run_stream_of st x s), (run_update_stream st x s) by done.
  set (w1 := put_entry w st _).
  assert (inv ∅ w1) as Hi1 by by apply (kept_stream w st x s).
  set (x1 := {| event := event x; body := Strm (with_buffer (recvBuffer_ s ++ bytes) s) |}).
  assert (open_stream w1 st x1 (with_buffer (recvBuffer_ s ++ bytes) s)) as Ho1
    by by apply (open_put w w1 st x x1 s).
  unfold when. case_bool_decide; [|split; [done|by exists x1]].
  apply (total_wp (SetReadable st true)).
  - eapply wp_mono; [apply (wp_SetReadable ∅); [done|by rewrite (o_entry _ _ _ _ Ho1)]|]. by intros ? w' [? _].
  - eapply total_mono; [apply (total_change (ev_readable true) POLLIN st x1); try done; [by left|apply Ho1]|].
    intros ? w' [E _]. exists (on_event (ev_readable true) x1).
    apply (open_put w1 w' st x1 _ (with_buffer (recvBuffer_ s ++ bytes) s)); try done.
Qed.

Lemma Readv_keeps st x s iov w :
  inv ∅ w -> open_stream w st x s -> finRead_ s = false -> Z.of_nat (length (recvBuffer_ s)) < 2 ^ 31 ->
  terminates_in (Readv st iov w) (fun r w' => inv ∅ w' /\
    exists x' b, open_stream w' st x' (with_buffer b s) /\ concat r.2 ++ b = recvBuffer_ s).
Proof.
  intros Hi Ho Hf Hlen. pose proof Ho as [Hx Hb Herr _]. apply (total_wp (Readv st iov)).
  { eapply wp_safe, safe_Readv; eauto. }
  rewrite (Readv_eq st x s) by done. unfold read_result.
  pose proof (copy_out_spec (recvBuffer_ s) iov 0 ltac:(lia)) as Hc.
  destruct (copy_out iov (recvBuffer_ s) 0) as [pieces pos]. destruct Hc as (Hpos & Hcat & _).
  rewrite Nat.sub_0_r, drop_0 in Hcat. simpl.
  assert (forall e, open_stream (with_errno (put_buffer w st x s (drop pos (recvBuffer_ s))) e) st
            {| event := event x; body := Strm (with_buffer (drop pos (recvBuffer_ s)) s) |}
            (with_buffer (drop pos (recvBuffer_ s)) s)) as Hop.
  { intros e. by eapply (open_put w). }
  destruct (Nat.eqb_spec pos 0) as [->|]; simpl; eexists; eexists; (split; [apply Hop|]); [done|].
  by rewrite Hcat, take_drop.
Qed.

Lemma exchange_spec st l : forall w x s,
  inv ∅ w -> open_stream w st x s -> finRead_ s = false ->
  Z.of_nat (length (recvBuffer_ s) + length (arrived l)) < 2 ^ 31 ->
  terminates_in (exchange st l w) (fun out w' =>
    exists x' b, open_stream w' st x' (with_buffer b s) /\ out ++ b = recvBuffer_ s ++ arrived l).
Proof.
  induction l as [|[bytes|iov] l IH]; intros w x s Hi Ho Hf Hlen.
  - exists x, (recvBuffer_ s). split; [by destruct s|]. by rewrite app_nil_r.
  - assert (arrived (Arrive bytes :: l) = bytes ++ arrived l) as Ea by done.
    rewrite Ea, length_app in Hlen. apply total_bind.
    eapply total_mono; [by eapply OnReceived_spec|]. intros ? w1 (Hi1 & x1 & Ho1).
    eapply total_mono; [apply (IH w1 x1 _ Hi1 Ho1); [done|simpl; rewrite length_app; lia]|].
    intros out w2 (x2 & b & Ho2 & E). exists x2, b. split; [done|]. rewrite E, Ea. simpl.
    by rewrite app_assoc.
  - change (arrived (Take iov :: l)) with (arrived l) in *. apply total_bind.
    eapply total_mono; [apply (Readv_keeps st x s iov); [done|done|done|lia]|].
    intros r w1 (Hi1 & x1 & b1 & Ho1 & E1). apply total_bind.
    apply (f_equal length) in E1 as El. rewrite length_app in El.
    eapply total_mono; [apply (IH w1 x1 _ Hi1 Ho1); [done|simpl; lia]|].
    intros out w2 (x2 & b & Ho2 & E). apply total_ret. exists x2, b. split; [done|].
    rewrite <- app_assoc, E. simpl. by rewrite app_assoc, E1.
Qed.

(** C2: In every reachable state, over any interleaving of received chunks and reads of an
    open stream, the bytes handed to the application followed by the bytes still buffered
    are exactly the bytes that arrived, in order. *)
Theorem a_stream_delivers_its_bytes_in_order st l w x s :
  reachable w -> open_stream w st x s -> finRead_ s = false ->
  Z.of_nat (length (recvBuffer_ s) + length (arrived l)) < 2 ^ 31 ->
  terminates_in (exchange st l w) (fun out w' =>
    exists x' b, open_stream w' st x' (with_buffer b s) /\ out ++ b = recvBuffer_ s ++ arrived l).
Proof. intros Hi%reachable_inv. by apply exchange_spec. Qed.

(** ** The end of a stream *)

(** Reads after the end was seen: nothing comes out and the buffer stays. *)
Lemma Readv_after_fin st x s iov w :
  entries w !! st = Some x -> body x = Strm s -> error (event x) = 0 -> finRead_ s = true ->
  Readv st iov w = Ret (0, []) (with_errno w 0).
Proof.
  intros Hx Hb He Hf. unfold Readv. rewrite (run_entry_of st x), (run_stream_of st x s) by done.
  by rewrite He, Hf.
Qed.

Lemma reads_after_fin st iovs : forall w x s,
  entries w !! st = Some x -> body x = Strm s -> error (event x) = 0 -> finRead_ s = true ->
  terminates_in (exchange st (Take <$> iovs) w) (fun out w' => out = [] /\ entries w' = entries w).
Proof.
  induction iovs as [|iov iovs IH]; intros w x s Hx Hb He Hf; [done|]. simpl. apply total_bind.
  rewrite (Readv_after_fin st x s) by done. simpl. apply total_bind.
  eapply total_mono; [by apply (IH (with_errno w 0) x s)|]. by intros out w' [-> E].
Qed.

Lemma OnFinRead_spec st x s w :
  entries w !! st = Some x -> body x = Strm s ->
  terminates_in (OnFinRead st w) (fun _ w1 => exists s1,
    entries w1 !! st = Some {| event := event x; body := Strm s1 |} /\
    recvBuffer_ s1 = recvBuffer_ s /\ finRead_ s1 = true).
Proof.
  intros Hx Hb. unfold OnFinRead. rewrite (run_stream_of st x s) by done.
  destruct (finRead_ s) eqn:Hf.
  - exists s. rewrite Hx, <- Hb. by destruct x.
  - eapply total_mono; [apply total_update_stream; [exact Hx|exact Hb]|]. intros ? w1 ->. simpl.
    rewrite lookup_insert_eq. by eexists.
Qed.

(** C34: After the end of a stream was seen no read returns the bytes that are still
    buffered. *)
Theorem bytes_left_at_the_end_are_never_read st x s iovs w :
  entries w !! st = Some x -> body x = Strm s -> error (event x) = 0 ->
  terminates_in ((OnFinRead st;; exchange st (Take <$> iovs)) w) (fun out w' =>
    out = [] /\ exists x' s', entries w' !! st = Some x' /\ body x' = Strm s' /\
      recvBuffer_ s' = recvBuffer_ s /\ finRead_ s' = true).
Proof.
  intros Hx Hb He. apply total_bind. eapply total_mono; [by apply (OnFinRead_spec st x s)|].
  intros ? w1 (s1 & Hx1 & Eb & Ef). eapply total_mono; [by eapply reads_after_fin|].
  intros out w' [-> E]. split; [done|]. rewrite E. eexists _, s1. by split.
Qed.

End Streams.

(** ** The stream of [ready_run], with three bytes waiting *)

Definition as_stream (x : Entry) : option StreamEntry :=
  match body x with Strm s => Some s | Sock _ => None end.
Definition stream_ids (x : Entry) : list Z :=
  match body x with Sock s => (dynamic_stream_map_ (impl_ s)).*1 | Strm _ => [] end.

Lemma ready_socket : { x | entries ready_world !! 1 = Some x }.
Proof.
  destruct (entries ready_world !! 1) as [x|] eqn:E; [by exists x|vm_compute in E; discriminate E].
Defined.

Lemma ready_open : { xs : Entry * StreamEntry |
  open_stream ready_world 2 xs.1 xs.2 /\ finRead_ xs.2 = false /\ recvBuffer_ xs.2 = [10; 20; 30] }.
Proof.
  assert ((x ← entries ready_world !! 2; s ← as_stream x;
           Some (error (event x), (finRead_ s, (recvBuffer_ s, (socketEntry_ s, streamId_ s))))) =
          Some (0, (false, ([10; 20; 30], (1, 5))))) as Hs by (vm_compute; reflexivity).
  assert (stream_ids <$> entries ready_world !! 1 = Some [5]) as Hid by (vm_compute; reflexivity).
  destruct ready_stream as [x Hx]. rewrite Hx in Hs. simpl in Hs.
  unfold as_stream in Hs. destruct (body x) as [|s] eqn:Hb; [discriminate Hs|].
  injection Hs as H1 H2 H3 H4 H5. exists (x, s). simpl. split; [|split; [exact H2|exact H3]].
  split; [exact Hx|exact Hb|exact H1|]. rewrite H4, H5.
  destruct ready_socket as [xe Hxe]. rewrite Hxe in Hid.
  injection Hid as Hid. unfold stream_ids in Hid.
  destruct (body xe) as [so|] eqn:Hso; [|discriminate Hid].
  exists xe, so. split; [exact Hxe|]. split; [exact Hso|]. rewrite Hid. apply list_elem_of_here.
Defined.

Lemma Readv_moves_a_prefix_of_the_buffer_witness :
  terminates_in (Readv 2 [1; 1] ready_world) (fun r w' => concat r.2 = [10; 20] /\ r.1 = 2).
Proof.
  destruct ready_open as [[x s] (Ho & Hf & Hb)]. cbn [fst snd] in Ho, Hf, Hb.
  pose proof (Readv_moves_a_prefix_of_the_buffer 2 x s [1; 1] ready_world Ho Hf
    ltac:(rewrite Hb; reflexivity)) as Hr. cbv zeta in Hr. rewrite Hb in Hr.
  eapply total_mono; [exact Hr|]. intros r w' (E1 & _ & E2 & _). split; [exact E1|].
  injection E2 as E2 _. exact E2.
Defined.

Lemma a_stream_delivers_its_bytes_in_order_witness :
  terminates_in (exchange 2 [Take [2]; Arrive [40]; Take [5]] ready_world)
    (fun out _ => exists b, out ++ b = [10; 20; 30; 40]).
Proof.
  destruct ready_open as [[x s] (Ho & Hf & Hb)]. cbn [fst snd] in Ho, Hf, Hb.
  pose proof (a_stream_delivers_its_bytes_in_order 2 [Take [2]; Arrive [40]; Take [5]] ready_world
    x s ready_world_reachable Ho Hf ltac:(rewrite Hb; reflexivity)) as Hr. cbv zeta in Hr. rewrite Hb in Hr.
  eapply total_mono; [exact Hr|]. intros out w' (x' & b & _ & E). exists b. exact E.
Defined.

Lemma bytes_left_at_the_end_are_never_read_witness :
  terminates_in ((OnFinRead 2;; exchange 2 (Take <$> [[3]; [3]])) ready_world) (fun out _ => out = []).
Proof.
  destruct ready_open as [[x s] ([Hx Hb He _] & _ & _)]. cbn [fst snd] in Hx, Hb, He.
  eapply total_mono;
    [exact (bytes_left_at_the_end_are_never_read 2 x s [[3]; [3]] ready_world Hx Hb He)|].
  intros out w' [E _]. exact E.
Defined.
