(* ===== verification/QuicData.v ===== *)
(** Wire encoding: [QuicDataReader] and [QuicDataWriter] of
    libquic/net/quic/core/quic_data_reader.cc and quic_data_writer.cc, on a
    little-endian host.  Bytes are numbers below 256. *)

From S2P Require Import Prelude.

(** ** Integers in memory *)

(** The value a little-endian host loads from [l]. *)
Fixpoint load (l : list Z) : Z :=
  match l with
  | [] => 0
  | b :: l' => b + 256 * load l'
  end.

(** The [n] bytes it stores for [v]. *)
Fixpoint store (n : nat) (v : Z) : list Z :=
  match n with
  | O => []
  | S k => v mod 256 :: store k (v / 256)
  end.

(** [QuicEndian::HostToNet16/32/64] and [NetToHost16/32/64] of an [n]-byte value *)
Definition swap (n : nat) (v : Z) : Z := load (rev (store n v)).

Inductive Endianness : Type := NETWORK_BYTE_ORDER | HOST_BYTE_ORDER.

#[export] Instance Endianness_dec : EqDecision Endianness.
Proof. solve_decision. Defined.

Definition kUFloat16MantissaBits : Z := 16 - 5.
Definition kUFloat16MantissaEffectiveBits : Z := kUFloat16MantissaBits + 1.
Definition kUFloat16MaxExponent : Z := Z.shiftl 1 5 - 2.
Definition kUFloat16MaxValue : Z :=
  Z.shiftl (Z.shiftl 1 kUFloat16MantissaEffectiveBits - 1) kUFloat16MaxExponent.

Definition kMaxQuicStreamId : Z := 4294967295.

(** ** Reading *)

Module Reader.

(** [class QuicDataReader]; [len_] is the length of [data_]. *)
Record Reader : Type := { data_ : list Z; pos_ : nat; endianness_ : Endianness }.

Definition len_ (r : Reader) : nat := length (data_ r).

Definition set_pos (p : nat) (r : Reader) : Reader :=
  {| data_ := data_ r; pos_ := p; endianness_ := endianness_ r |}.

(** [QuicDataReader(data, len, endianness)] *)
Definition init (data : list Z) (e : Endianness) : Reader :=
  {| data_ := data; pos_ := 0; endianness_ := e |}.

Definition IsDoneReading (r : Reader) : bool := (len_ r =? pos_ r)%nat.
Definition BytesRemaining (r : Reader) : nat := len_ r - pos_ r.
Definition CanRead (bytes : nat) (r : Reader) : bool := (bytes <=? len_ r - pos_ r)%nat.

Definition OnFailure : M Reader unit := modify (fun r => set_pos (len_ r) r).

(** [bool ReadBytes(void* result, size_t size)]: the bytes copied; also
    [ReadStringPiece], which refers to them. *)
Definition ReadBytes (size : nat) : M Reader (option (list Z)) :=
  r ← get;
  if negb (CanRead size r) then OnFailure;; mret None
  else
    modify (fun r => set_pos (pos_ r + size) r);;
    mret (Some (take size (drop (pos_ r) (data_ r)))).

Definition ReadStringPiece (size : nat) : M Reader (option (list Z)) :=
  r ← get;
  if negb (CanRead size r) then OnFailure;; mret None
  else
    let result := take size (drop (pos_ r) (data_ r)) in
    modify (fun r => set_pos (pos_ r + size) r);;
    mret (Some result).

(** An [n]-byte integer in the reader's byte order. *)
Definition ReadUInt (n : nat) : M Reader (option Z) :=
  b ← ReadBytes n;
  match b with
  | None => mret None
  | Some b =>
      r ← get;
      if decide (endianness_ r = NETWORK_BYTE_ORDER) then mret (Some (swap n (load b)))
      else mret (Some (load b))
  end.

Definition ReadUInt8 : M Reader (option Z) :=
  b ← ReadBytes 1; mret (load <$> b).
Definition ReadUInt16 : M Reader (option Z) := ReadUInt 2.
Definition ReadUInt32 : M Reader (option Z) := ReadUInt 4.
Definition ReadUInt64 : M Reader (option Z) := ReadUInt 8.

(** [bool ReadBytesToUInt64(size_t num_bytes, uint64_t* result)]: in network
    order the bytes go to the end of the zeroed [*result]. *)
Definition ReadBytesToUInt64 (num_bytes : nat) : M Reader (option Z) :=
  if (8 <? num_bytes)%nat then mret None
  else
    r ← get;
    if decide (endianness_ r = HOST_BYTE_ORDER) then
      b ← ReadBytes num_bytes; mret ((fun b => load (b ++ replicate (8 - num_bytes) 0)) <$> b)
    else
      b ← ReadBytes num_bytes;
      mret ((fun b => swap 8 (load (replicate (8 - num_bytes) 0 ++ b))) <$> b).

(** [bool ReadUFloat16(uint64_t* result)] *)
Definition decode_ufloat16 (value : Z) : Z :=
  if value <? Z.shiftl 1 kUFloat16MantissaEffectiveBits then value
  else
    let exponent := uint16 (Z.shiftr value kUFloat16MantissaBits - 1) in
    let result := uint64 (value - Z.shiftl exponent kUFloat16MantissaBits) in
    uint64 (Z.shiftl result exponent).

Definition ReadUFloat16 : M Reader (option Z) :=
  v ← ReadUInt16; mret (decode_ufloat16 <$> v).

(** [bool ReadStringPiece16(QuicStringPiece* result)] *)
Definition ReadStringPiece16 : M Reader (option (list Z)) :=
  n ← ReadUInt16;
  match n with
  | None => mret None
  | Some n => ReadStringPiece (Z.to_nat n)
  end.

Definition ReadConnectionId : M Reader (option Z) :=
  b ← ReadBytes 8; mret ((fun b => swap 8 (load b)) <$> b).

Definition ReadTag : M Reader (option Z) :=
  b ← ReadBytes 4; mret (load <$> b).

Definition PeekRemainingPayload (r : Reader) : list Z := drop (pos_ r) (data_ r).

Definition ReadRemainingPayload : M Reader (list Z) :=
  r ← get;
  modify (fun r => set_pos (len_ r) r);;
  mret (PeekRemainingPayload r).

Definition PeekByte (r : Reader) : Z :=
  if (len_ r <=? pos_ r)%nat then 0 else default 0 (data_ r !! pos_ r).

(** [bool ReadVarInt62(uint64_t* result)] *)
Definition ReadVarInt62 : M Reader (option Z) :=
  r ← get;
  let remaining := BytesRemaining r in
  let next i := default 0 (data_ r !! (pos_ r + i)%nat) in
  if negb (remaining =? 0)%nat then
    let tag := Z.land (next 0%nat) 192 in
    if tag =? 192 then
      if (8 <=? remaining)%nat then
        modify (fun r => set_pos (pos_ r + 8) r);;
        mret (Some (Z.shiftl (Z.land (next 0%nat) 63) 56 + Z.shiftl (next 1%nat) 48 +
                    Z.shiftl (next 2%nat) 40 + Z.shiftl (next 3%nat) 32 + Z.shiftl (next 4%nat) 24 +
                    Z.shiftl (next 5%nat) 16 + Z.shiftl (next 6%nat) 8 + Z.shiftl (next 7%nat) 0))
      else mret None
    else if tag =? 128 then
      if (4 <=? remaining)%nat then
        modify (fun r => set_pos (pos_ r + 4) r);;
        mret (Some (Z.shiftl (Z.land (next 0%nat) 63) 24 + Z.shiftl (next 1%nat) 16 +
                    Z.shiftl (next 2%nat) 8 + Z.shiftl (next 3%nat) 0))
      else mret None
    else if tag =? 64 then
      if (2 <=? remaining)%nat then
        modify (fun r => set_pos (pos_ r + 2) r);;
        mret (Some (Z.shiftl (Z.land (next 0%nat) 63) 8 + next 1%nat))
      else mret None
    else
      modify (fun r => set_pos (pos_ r + 1) r);;
      mret (Some (Z.land (next 0%nat) 63))
  else mret None.

(** [bool ReadVarIntStreamId(QuicStreamId* result)] *)
Definition ReadVarIntStreamId : M Reader (option Z) :=
  v ← ReadVarInt62;
  match v with
  | None => mret None
  | Some v => if v >? kMaxQuicStreamId then mret None else mret (Some (uint32 v))
  end.

End Reader.

(** ** Writing *)

Module Writer.

(** [class QuicDataWriter]; [capacity_] is the length of [buffer_]. *)
Record Writer : Type := { buffer_ : list Z; length_ : nat; endianness_ : Endianness }.

Definition capacity_ (w : Writer) : nat := length (buffer_ w).

(** [QuicDataWriter(size, buffer, endianness)] *)
Definition init (buffer : list Z) (e : Endianness) : Writer :=
  {| buffer_ := buffer; length_ := 0; endianness_ := e |}.

Definition set_length (n : nat) (w : Writer) : Writer :=
  {| buffer_ := buffer_ w; length_ := n; endianness_ := endianness_ w |}.

(** [memcpy(buffer_ + at, data, data.size())] *)
Definition copy_at (at_ : nat) (data : list Z) (w : Writer) : Writer :=
  {| buffer_ := take at_ (buffer_ w) ++ data ++ drop (at_ + length data) (buffer_ w);
     length_ := length_ w; endianness_ := endianness_ w |}.

(** [char* BeginWrite(size_t length)]: the offset of the place to write to. *)
Definition BeginWrite (length : nat) (w : Writer) : option nat :=
  if (capacity_ w <? length_ w)%nat then None
  else if (capacity_ w - length_ w <? length)%nat then None
  else Some (length_ w).

(** [bool WriteBytes(const void* data, size_t data_len)] *)
Definition WriteBytes (data : list Z) : M Writer bool :=
  w ← get;
  match BeginWrite (length data) w with
  | None => mret false
  | Some dest =>
      modify (copy_at dest data);;
      modify (fun w => set_length (length_ w + length data) w);;
      mret true
  end.

(** An [n]-byte integer in the writer's byte order. *)
Definition WriteUInt (n : nat) (value : Z) : M Writer bool :=
  w ← get;
  let value := if decide (endianness_ w = NETWORK_BYTE_ORDER) then swap n value else value in
  WriteBytes (store n value).

Definition WriteUInt8 (value : Z) : M Writer bool := WriteBytes (store 1 value).
Definition WriteUInt16 (value : Z) : M Writer bool := WriteUInt 2 value.
Definition WriteUInt32 (value : Z) : M Writer bool := WriteUInt 4 value.
Definition WriteUInt64 (value : Z) : M Writer bool := WriteUInt 8 value.

(** [bool WriteUInt8AtOffset(uint8_t value, size_t offset)] *)
Definition WriteUInt8AtOffset (value : Z) (offset : nat) : M Writer bool :=
  w ← get;
  if (length_ w <? offset)%nat then mret false
  else
    let old_length := length_ w in
    modify (set_length offset);;
    result ← WriteBytes (store 1 value);
    modify (set_length old_length);;
    mret result.

(** [bool WriteBytesToUInt64(size_t num_bytes, uint64_t value)] *)
Definition WriteBytesToUInt64 (num_bytes : nat) (value : Z) : M Writer bool :=
  if (8 <? num_bytes)%nat then mret false
  else
    w ← get;
    if decide (endianness_ w = HOST_BYTE_ORDER) then WriteBytes (take num_bytes (store 8 value))
    else WriteBytes (drop (8 - num_bytes) (store 8 (swap 8 value))).

(** One round of the search loop of [WriteUFloat16]. *)
Definition shift_down (ev : Z * Z) (offset : Z) : Z * Z :=
  let '(exponent, value) := ev in
  if value >=? Z.shiftl 1 (kUFloat16MantissaBits + offset)
  then (uint16 (exponent + offset), Z.shiftr value offset)
  else (exponent, value).

(** [for (uint16_t offset = 16; offset > 0; offset /= 2)] *)
Definition normalize (value : Z) : Z * Z := fold_left shift_down [16; 8; 4; 2; 1] (0, value).

Definition encode_ufloat16 (value : Z) : Z :=
  if value <? Z.shiftl 1 kUFloat16MantissaEffectiveBits then uint16 value
  else if value >=? kUFloat16MaxValue then 65535
  else
    let '(exponent, value) := normalize value in
    uint16 (value + Z.shiftl exponent kUFloat16MantissaBits).

(** [bool WriteUFloat16(uint64_t value)] *)
Definition WriteUFloat16 (value : Z) : M Writer bool :=
  w ← get;
  let result := encode_ufloat16 value in
  let result := if decide (endianness_ w = NETWORK_BYTE_ORDER) then swap 2 result else result in
  WriteBytes (store 2 result).

(** [bool WriteStringPiece16(QuicStringPiece val)] *)
Definition WriteStringPiece16 (val : list Z) : M Writer bool :=
  if (Z.of_nat (length val) >? 65535) then mret false
  else
    ok ← WriteUInt16 (uint16 (Z.of_nat (length val)));
    if negb ok then mret false else WriteBytes val.

(** [bool WriteRepeatedByte(uint8_t byte, size_t count)] *)
Definition WriteRepeatedByte (byte : Z) (count : nat) : M Writer bool :=
  w ← get;
  match BeginWrite count w with
  | None => mret false
  | Some dest =>
      modify (copy_at dest (replicate count byte));;
      modify (fun w => set_length (length_ w + count) w);;
      mret true
  end.

(** [void WritePadding()] *)
Definition WritePadding : M Writer unit :=
  w ← get;
  if (capacity_ w <? length_ w)%nat then mret tt
  else
    modify (copy_at (length_ w) (replicate (capacity_ w - length_ w) 0));;
    modify (fun w => set_length (capacity_ w) w).

Definition WritePaddingBytes (count : nat) : M Writer bool := WriteRepeatedByte 0 count.

Definition WriteConnectionId (connection_id : Z) : M Writer bool :=
  WriteBytes (store 8 (swap 8 connection_id)).

Definition WriteTag (tag : Z) : M Writer bool := WriteBytes (store 4 tag).

(** The bytes [WriteVarInt62] stores one by one. *)
Definition put_bytes (bytes : list Z) : M Writer bool :=
  w ← get;
  if (length bytes <=? capacity_ w - length_ w)%nat then
    modify (copy_at (length_ w) bytes);;
    modify (fun w => set_length (length_ w + length bytes) w);;
    mret true
  else mret false.

(** [bool WriteVarInt62(uint64_t value)] *)
Definition WriteVarInt62 (value : Z) : M Writer bool :=
  let byte k := Z.land (Z.shiftr value k) 255 in
  if Z.land value 13835058055282163712 =? 0 then
    if negb (Z.land value 4611686017353646080 =? 0) then
      put_bytes [Z.land (Z.shiftr value 56) 63 + 192; byte 48; byte 40; byte 32; byte 24;
                 byte 16; byte 8; Z.land value 255]
    else if negb (Z.land value 1073725440 =? 0) then
      put_bytes [Z.land (Z.shiftr value 24) 63 + 128; byte 16; byte 8; Z.land value 255]
    else if negb (Z.land value 16320 =? 0) then
      put_bytes [Z.land (Z.shiftr value 8) 63 + 64; Z.land value 255]
    else put_bytes [Z.land value 63]
  else mret false.

End Writer.
