(* ===== verification/Wire.v ===== *)
(** What is written is read back: the encodings of quic_data_writer.cc and their
    decodings in quic_data_reader.cc are inverse, field by field and for any
    sequence of fields; 16-bit floats lose less than one part in 2^11. *)

From S2P Require Import Prelude QuicData.

(** ** Bytes *)

Definition byte (b : Z) : Prop := 0 <= b < 256.

Lemma store_length n : forall v, length (store n v) = n.
Proof. induction n; intros v; simpl; auto. Qed.

Lemma store_bytes n : forall v, Forall byte (store n v).
Proof.
  induction n as [|n IH]; intros v; simpl; constructor; [|done]. apply Z.mod_pos_bound. lia.
Qed.

Lemma pow256_S n : 256 ^ Z.of_nat (S n) = 256 * 256 ^ Z.of_nat n.
Proof. rewrite Nat2Z.inj_succ, Z.pow_succ_r by lia. done. Qed.

Lemma load_store n : forall v, load (store n v) = v mod 256 ^ Z.of_nat n.
Proof.
  induction n as [|n IH]; intros v; [by rewrite Z.mod_1_r|]. simpl store. simpl load.
  rewrite IH, pow256_S. pose proof (Z.pow_pos_nonneg 256 (Z.of_nat n)).
  rewrite (Z.rem_mul_r v 256) by lia. lia.
Qed.

Lemma load_range l : Forall byte l -> 0 <= load l < 256 ^ Z.of_nat (length l).
Proof.
  induction 1 as [|b l Hb _ IH]; [done|]. simpl load. simpl length. rewrite pow256_S.
  unfold byte in Hb. lia.
Qed.

Lemma store_load l : Forall byte l -> store (length l) (load l) = l.
Proof.
  induction 1 as [|b l Hb _ IH]; [done|]. simpl. unfold byte in Hb.
  rewrite (Z.mul_comm 256), Z.mod_add, Z.div_add, (Z.mod_small b), (Z.div_small b) by lia.
  by rewrite Z.add_0_l, IH.
Qed.

Lemma load_app a b : load (a ++ b) = load a + 256 ^ Z.of_nat (length a) * load b.
Proof.
  induction a as [|x a IH]; simpl length; [change (load b = 0 + 1 * load b); lia|].
  rewrite pow256_S. simpl. lia.
Qed.

Lemma load_zeros n : load (replicate n 0) = 0.
Proof. induction n; simpl; lia. Qed.

Lemma rev_zeros n : rev (replicate n 0) = replicate n 0.
Proof. rewrite rev_alt. exact (reverse_replicate n 0). Qed.

Lemma store_add n m : forall v, store (n + m) v = store n v ++ store m (v / 256 ^ Z.of_nat n).
Proof.
  induction n as [|n IH]; intros v; [by rewrite Z.div_1_r|]. simpl. f_equal. rewrite IH. f_equal.
  f_equal. rewrite pow256_S. by rewrite Z.div_div by lia.
Qed.

Lemma store_take n m v : (n <= m)%nat -> take n (store m v) = store n v.
Proof.
  intros Hn. replace m with (n + (m - n))%nat by lia. rewrite store_add.
  rewrite take_app_le by (rewrite store_length; lia). apply take_ge. by rewrite store_length.
Qed.

(** The bytes of a swapped value are the reversed bytes. *)
Lemma store_swap n v : store n (swap n v) = rev (store n v).
Proof.
  unfold swap. pose proof (store_load (rev (store n v))) as Hs.
  rewrite length_rev, store_length in Hs. apply Hs, Forall_rev, store_bytes.
Qed.

Lemma swap_range n v : 0 <= swap n v < 256 ^ Z.of_nat n.
Proof.
  unfold swap. pose proof (load_range (rev (store n v))) as Hr.
  rewrite length_rev, store_length in Hr. apply Hr, Forall_rev, store_bytes.
Qed.

Lemma swap_swap n v : 0 <= v < 256 ^ Z.of_nat n -> swap n (swap n v) = v.
Proof.
  intros Hv. unfold swap at 1. rewrite store_swap, rev_involutive, load_store. by apply Z.mod_small.
Qed.

(** ** Fields *)

Inductive field : Type :=
| FUInt8 (v : Z)
| FUInt16 (v : Z)
| FUInt32 (v : Z)
| FUInt64 (v : Z)
| FBytesToUInt64 (n : nat) (v : Z)
| FStringPiece16 (s : list Z)
| FConnectionId (v : Z)
| FTag (v : Z)
| FVarInt62 (v : Z).

(** A value of the field's C++ type, and one the encoding can express. *)
Definition encodable (f : field) : Prop :=
  match f with
  | FUInt8 v => 0 <= v < 2 ^ 8
  | FUInt16 v => 0 <= v < 2 ^ 16
  | FUInt32 v | FTag v => 0 <= v < 2 ^ 32
  | FUInt64 v | FConnectionId v => 0 <= v < 2 ^ 64
  | FBytesToUInt64 n v => (n <= 8)%nat /\ 0 <= v < 256 ^ Z.of_nat n
  | FStringPiece16 s => Z.of_nat (length s) < 2 ^ 16
  | FVarInt62 v => 0 <= v < 2 ^ 62
  end.

Definition write_field (f : field) : M Writer.Writer bool :=
  match f with
  | FUInt8 v => Writer.WriteUInt8 v
  | FUInt16 v => Writer.WriteUInt16 v
  | FUInt32 v => Writer.WriteUInt32 v
  | FUInt64 v => Writer.WriteUInt64 v
  | FBytesToUInt64 n v => Writer.WriteBytesToUInt64 n v
  | FStringPiece16 s => Writer.WriteStringPiece16 s
  | FConnectionId v => Writer.WriteConnectionId v
  | FTag v => Writer.WriteTag v
  | FVarInt62 v => Writer.WriteVarInt62 v
  end.

(** Reads a field of the same kind as [f]. *)
Definition read_field (f : field) : M Reader.Reader (option field) :=
  match f with
  | FUInt8 _ => v ← Reader.ReadUInt8; mret (FUInt8 <$> v)
  | FUInt16 _ => v ← Reader.ReadUInt16; mret (FUInt16 <$> v)
  | FUInt32 _ => v ← Reader.ReadUInt32; mret (FUInt32 <$> v)
  | FUInt64 _ => v ← Reader.ReadUInt64; mret (FUInt64 <$> v)
  | FBytesToUInt64 n _ => v ← Reader.ReadBytesToUInt64 n; mret (FBytesToUInt64 n <$> v)
  | FStringPiece16 _ => v ← Reader.ReadStringPiece16; mret (FStringPiece16 <$> v)
  | FConnectionId _ => v ← Reader.ReadConnectionId; mret (FConnectionId <$> v)
  | FTag _ => v ← Reader.ReadTag; mret (FTag <$> v)
  | FVarInt62 _ => v ← Reader.ReadVarInt62; mret (FVarInt62 <$> v)
  end.

(** The bytes on the wire. *)
Definition enc_uint (e : Endianness) (n : nat) (v : Z) : list Z :=
  if decide (e = NETWORK_BYTE_ORDER) then rev (store n v) else store n v.

Definition enc_varint (v : Z) : list Z :=
  let tagged n t := match rev (store n v) with b :: l => b + t :: l | [] => [] end in
  if v <? 2 ^ 6 then tagged 1%nat 0
  else if v <? 2 ^ 14 then tagged 2%nat 64
  else if v <? 2 ^ 30 then tagged 4%nat 128
  else tagged 8%nat 192.

Definition enc (e : Endianness) (f : field) : list Z :=
  match f with
  | FUInt8 v => store 1 v
  | FUInt16 v => enc_uint e 2 v
  | FUInt32 v => enc_uint e 4 v
  | FUInt64 v => enc_uint e 8 v
  | FBytesToUInt64 n v => enc_uint e n v
  | FStringPiece16 s => enc_uint e 2 (Z.of_nat (length s)) ++ s
  | FConnectionId v => rev (store 8 v)
  | FTag v => store 4 v
  | FVarInt62 v => enc_varint v
  end.

(** ** Writing *)

(** [w] with [bs] appended. *)
Definition append (w : Writer.Writer) (bs : list Z) : Writer.Writer :=
  Writer.set_length (Writer.length_ w + length bs) (Writer.copy_at (Writer.length_ w) bs w).

Definition fits (w : Writer.Writer) (n : nat) : Prop :=
  (Writer.length_ w + n <= Writer.capacity_ w)%nat.

(** What has been written so far. *)
Definition payload (w : Writer.Writer) : list Z := take (Writer.length_ w) (Writer.buffer_ w).

Lemma append_payload w bs : fits w (length bs) -> payload (append w bs) = payload w ++ bs.
Proof.
  unfold fits, payload, append, Writer.capacity_. simpl. intros Hf. rewrite app_assoc.
  rewrite take_app_le by (rewrite length_app, length_take; lia).
  apply take_ge. rewrite length_app, length_take. lia.
Qed.

Lemma append_capacity w bs : fits w (length bs) -> Writer.capacity_ (append w bs) = Writer.capacity_ w.
Proof.
  unfold fits, append, Writer.capacity_. simpl. intros Hf.
  rewrite !length_app, length_take, length_drop. lia.
Qed.

Lemma append_fits w bs n : fits w (length bs + n) -> fits (append w bs) n.
Proof.
  intros Hf. unfold fits in *. rewrite append_capacity by (unfold fits; lia). simpl. lia.
Qed.

Lemma append_app w a b : fits w (length a + length b) -> append (append w a) b = append w (a ++ b).
Proof.
  intros Hf. unfold fits, Writer.capacity_ in Hf. unfold append, Writer.set_length, Writer.copy_at.
  simpl. rewrite length_app. f_equal; [|lia].
  set (n := Writer.length_ w) in *. set (l := Writer.buffer_ w) in *.
  rewrite (app_assoc (take n l) a). rewrite take_app_le by (rewrite length_app, length_take; lia).
  rewrite (take_ge (take n l ++ a)) by (rewrite length_app, length_take; lia).
  rewrite drop_app_ge by (rewrite length_app, length_take; lia).
  rewrite drop_drop, length_app, length_take, <- !app_assoc. do 4 f_equal. lia.
Qed.

Lemma WriteBytes_ok w bs : fits w (length bs) -> Writer.WriteBytes bs w = Ret true (append w bs).
Proof.
  unfold fits. intros Hf. unfold Writer.WriteBytes, Writer.BeginWrite, mbind, M_bind, get.
  destruct (Nat.ltb_spec (Writer.capacity_ w) (Writer.length_ w)); [lia|].
  destruct (Nat.ltb_spec (Writer.capacity_ w - Writer.length_ w) (length bs)); [lia|]. done.
Qed.

Lemma put_bytes_ok w bs : fits w (length bs) -> Writer.put_bytes bs w = Ret true (append w bs).
Proof.
  unfold fits. intros Hf. unfold Writer.put_bytes, mbind, M_bind, get.
  by destruct (Nat.leb_spec (length bs) (Writer.capacity_ w - Writer.length_ w)); [|lia].
Qed.

Lemma enc_uint_length e n v : length (enc_uint e n v) = n.
Proof. unfold enc_uint. case_decide; [rewrite length_rev|]; apply store_length. Qed.

Lemma WriteUInt_ok n v w :
  fits w n ->
  Writer.WriteUInt n v w = Ret true (append w (enc_uint (Writer.endianness_ w) n v)).
Proof.
  intros Hf. unfold Writer.WriteUInt, mbind, M_bind, get, enc_uint. case_decide.
  - rewrite store_swap. apply WriteBytes_ok. by rewrite length_rev, store_length.
  - apply WriteBytes_ok. by rewrite store_length.
Qed.

Lemma WriteBytesToUInt64_ok n v w :
  (n <= 8)%nat -> fits w n ->
  Writer.WriteBytesToUInt64 n v w = Ret true (append w (enc_uint (Writer.endianness_ w) n v)).
Proof.
  intros Hn Hf. unfold Writer.WriteBytesToUInt64, mbind, M_bind, get, enc_uint.
  destruct (Nat.ltb_spec 8 n); [lia|].
  assert (drop (8 - n) (rev (store 8 v)) = rev (store n v)) as Hd.
  { rewrite skipn_rev, store_length. replace (8 - (8 - n))%nat with n by lia. by rewrite store_take. }
  rewrite store_swap, Hd, store_take by done.
  destruct (Writer.endianness_ w); simpl; apply WriteBytes_ok;
    by rewrite ?length_rev, store_length.
Qed.

Lemma WriteStringPiece16_ok s w :
  Z.of_nat (length s) < 2 ^ 16 -> fits w (2 + length s) ->
  Writer.WriteStringPiece16 s w =
  Ret true (append w (enc_uint (Writer.endianness_ w) 2 (Z.of_nat (length s)) ++ s)).
Proof.
  intros Hs Hf. unfold Writer.WriteStringPiece16.
  destruct (Z.gtb_spec (Z.of_nat (length s)) 65535); [lia|].
  unfold mbind, M_bind, Writer.WriteUInt16, uint16. rewrite wrap_u_small by lia.
  rewrite WriteUInt_ok by (unfold fits in *; lia). simpl.
  rewrite WriteBytes_ok by (apply append_fits; by rewrite enc_uint_length).
  by rewrite append_app by by rewrite enc_uint_length.
Qed.

(** ** Variable-length integers *)

Lemma mask_zero v k j :
  0 <= k -> 0 <= j -> 0 <= v < 2 ^ (k + j) ->
  (Z.land v (Z.shiftl (Z.ones j) k) =? 0) = (v <? 2 ^ k).
Proof.
  intros Hk Hj Hv.
  assert (Z.land v (Z.shiftl (Z.ones j) k) = Z.shiftl (v / 2 ^ k) k) as ->.
  { assert (0 <= v / 2 ^ k < 2 ^ j).
    { rewrite Z.pow_add_r in Hv by done. pose proof (Z.pow_pos_nonneg 2 k).
      split; [apply Z.div_pos|apply Z.div_lt_upper_bound]; lia. }
    rewrite <- (Z.mod_small (v / 2 ^ k) (2 ^ j)), <- Z.land_ones, <- Z.shiftr_div_pow2 by done.
    apply Z.bits_inj'. intros i Hi. rewrite Z.land_spec, !Z.shiftl_spec by done.
    destruct (Z.ltb_spec i k).
    - rewrite !(Z.testbit_neg_r _ (i - k)) by lia. apply andb_false_r.
    - rewrite Z.land_spec, Z.shiftr_spec by lia. do 2 f_equal. lia. }
  rewrite Z.shiftl_mul_pow2 by done. pose proof (Z.pow_pos_nonneg 2 k).
  destruct (Z.ltb_spec v (2 ^ k)).
  - rewrite Z.div_small by lia. done.
  - apply Z.eqb_neq. assert (1 <= v / 2 ^ k) by (apply Z.div_le_lower_bound; lia). nia.
Qed.

Lemma byte_at v k : 0 <= k -> Z.land (Z.shiftr v k) 255 = (v / 2 ^ k) mod 256.
Proof. intros Hk. rewrite Z.shiftr_div_pow2 by done. by apply (Z.land_ones _ 8). Qed.

Lemma top_bits v k : 0 <= k -> 0 <= v < 2 ^ (k + 6) -> Z.land (Z.shiftr v k) 63 = (v / 2 ^ k) mod 256.
Proof.
  intros Hk Hv. rewrite Z.shiftr_div_pow2 by done.
  assert (0 <= v / 2 ^ k < 64).
  { rewrite Z.pow_add_r in Hv by lia. split; [apply Z.div_pos|apply Z.div_lt_upper_bound]; lia. }
  change 63 with (Z.ones 6). rewrite Z.land_ones, !Z.mod_small by lia. done.
Qed.

Lemma low_byte v : Z.land v 255 = v mod 256.
Proof. by apply (Z.land_ones _ 8). Qed.

Lemma store_nested v : v / 256 = v / 2 ^ 8 /\ v / 256 / 256 = v / 2 ^ 16 /\
  v / 256 / 256 / 256 = v / 2 ^ 24 /\ v / 256 / 256 / 256 / 256 = v / 2 ^ 32 /\
  v / 256 / 256 / 256 / 256 / 256 = v / 2 ^ 40 /\
  v / 256 / 256 / 256 / 256 / 256 / 256 = v / 2 ^ 48 /\
  v / 256 / 256 / 256 / 256 / 256 / 256 / 256 = v / 2 ^ 56.
Proof. rewrite !Z.div_div by lia. done. Qed.

Lemma WriteVarInt62_ok v w :
  0 <= v < 2 ^ 62 -> fits w (length (enc_varint v)) ->
  Writer.WriteVarInt62 v w = Ret true (append w (enc_varint v)).
Proof.
  intros Hv. destruct (store_nested v) as (E1 & E2 & E3 & E4 & E5 & E6 & E7).
  unfold Writer.WriteVarInt62.
  change 13835058055282163712 with (Z.shiftl (Z.ones 2) 62).
  change 4611686017353646080 with (Z.shiftl (Z.ones 32) 30).
  change 1073725440 with (Z.shiftl (Z.ones 16) 14). change 16320 with (Z.shiftl (Z.ones 8) 6).
  rewrite (mask_zero v 62 2), (mask_zero v 30 32) by lia.
  destruct (Z.ltb_spec v (2 ^ 62)); [|lia]. unfold enc_varint.
  destruct (Z.ltb_spec v (2 ^ 30)) as [H30|H30]; cbv beta iota delta [negb].
  2:{ destruct (Z.ltb_spec v (2 ^ 6)); [lia|]. destruct (Z.ltb_spec v (2 ^ 14)); [lia|].
      simpl store. rewrite E7, E6, E5, E4, E3, E2, E1. simpl rev. cbv iota.
      rewrite !byte_at, top_bits, low_byte by lia. apply put_bytes_ok. }
  rewrite (mask_zero v 14 16) by lia.
  destruct (Z.ltb_spec v (2 ^ 14)) as [H14|H14]; cbv beta iota delta [negb].
  2:{ destruct (Z.ltb_spec v (2 ^ 6)); [lia|]. 
      simpl store. rewrite E3, E2, E1. simpl rev. cbv iota.
      rewrite !byte_at, top_bits, low_byte by lia. apply put_bytes_ok. }
  rewrite (mask_zero v 6 8) by lia.
  destruct (Z.ltb_spec v (2 ^ 6)) as [H6|H6]; cbv beta iota delta [negb].
  - simpl store. simpl rev. cbv iota. rewrite Z.add_0_r. change 63 with (Z.ones 6).
    rewrite Z.land_ones, !Z.mod_small by lia. apply put_bytes_ok.
  - simpl store. rewrite E1. simpl rev. cbv iota. rewrite top_bits, low_byte by lia. apply put_bytes_ok.
Qed.

Lemma write_field_ok f w :
  encodable f -> fits w (length (enc (Writer.endianness_ w) f)) ->
  write_field f w = Ret true (append w (enc (Writer.endianness_ w) f)).
Proof.
  destruct f; simpl; rewrite ?enc_uint_length; intros Hv Hf.
  - by apply WriteBytes_ok.
  - by apply WriteUInt_ok.
  - by apply WriteUInt_ok.
  - by apply WriteUInt_ok.
  - apply WriteBytesToUInt64_ok; tauto.
  - apply WriteStringPiece16_ok; [done|]. by rewrite length_app, enc_uint_length in Hf.
  - unfold Writer.WriteConnectionId. rewrite store_swap. by apply WriteBytes_ok.
  - by apply WriteBytes_ok.
  - by apply WriteVarInt62_ok.
Qed.

(** ** Reading *)

(** A reader that has consumed [pre] and has [rest] before it. *)
Definition reader_at (e : Endianness) (pre rest : list Z) : Reader.Reader :=
  {| Reader.data_ := pre ++ rest; Reader.pos_ := length pre; Reader.endianness_ := e |}.

Lemma reader_moved e pre bs rest :
  Reader.set_pos (length pre + length bs) (reader_at e pre (bs ++ rest)) =
  reader_at e (pre ++ bs) rest.
Proof. unfold reader_at, Reader.set_pos. simpl. by rewrite length_app, app_assoc. Qed.

Lemma remaining_at e pre bs rest :
  (length bs <= Reader.BytesRemaining (reader_at e pre (bs ++ rest)))%nat.
Proof. unfold Reader.BytesRemaining, Reader.len_. simpl. rewrite !length_app. lia. Qed.

Lemma next_at e pre rest i :
  Reader.data_ (reader_at e pre rest) !! (Reader.pos_ (reader_at e pre rest) + i)%nat = rest !! i.
Proof. simpl. rewrite lookup_app_r by lia. f_equal. lia. Qed.

Lemma can_read_at e pre bs rest : Reader.CanRead (length bs) (reader_at e pre (bs ++ rest)) = true.
Proof. apply Nat.leb_le, remaining_at. Qed.

Lemma ReadBytes_ok e pre bs rest n :
  n = length bs ->
  Reader.ReadBytes n (reader_at e pre (bs ++ rest)) = Ret (Some bs) (reader_at e (pre ++ bs) rest).
Proof.
  intros ->. unfold Reader.ReadBytes, mbind, M_bind, get. rewrite can_read_at. simpl.
  rewrite reader_moved, drop_app_length, take_app_length. done.
Qed.

Lemma ReadStringPiece_ok e pre bs rest n :
  n = length bs ->
  Reader.ReadStringPiece n (reader_at e pre (bs ++ rest)) = Ret (Some bs) (reader_at e (pre ++ bs) rest).
Proof.
  intros ->. unfold Reader.ReadStringPiece, mbind, M_bind, get. rewrite can_read_at. simpl.
  rewrite reader_moved, drop_app_length, take_app_length. done.
Qed.

Lemma ReadUInt_ok n v e pre rest :
  0 <= v < 256 ^ Z.of_nat n ->
  Reader.ReadUInt n (reader_at e pre (enc_uint e n v ++ rest)) =
  Ret (Some v) (reader_at e (pre ++ enc_uint e n v) rest).
Proof.
  intros Hv. unfold Reader.ReadUInt. unfold mbind at 1, M_bind at 1.
  rewrite ReadBytes_ok by by rewrite enc_uint_length. unfold mbind, M_bind, get. simpl.
  unfold enc_uint. case_decide; simpl.
  - rewrite <- store_swap, load_store, Z.mod_small, swap_swap by (done || apply swap_range). done.
  - by rewrite load_store, Z.mod_small.
Qed.

Lemma ReadBytesToUInt64_ok n v e pre rest :
  (n <= 8)%nat -> 0 <= v < 256 ^ Z.of_nat n ->
  Reader.ReadBytesToUInt64 n (reader_at e pre (enc_uint e n v ++ rest)) =
  Ret (Some v) (reader_at e (pre ++ enc_uint e n v) rest).
Proof.
  intros Hn Hv. unfold Reader.ReadBytesToUInt64. destruct (Nat.ltb_spec 8 n); [lia|].
  unfold mbind at 1, M_bind at 1, get. simpl. unfold mbind, M_bind.
  assert (load (store n v ++ replicate (8 - n) 0) = v) as Hload.
  { rewrite load_app, load_zeros, load_store, Z.mod_small by done. lia. }
  destruct e; simpl; rewrite ReadBytes_ok by (by rewrite enc_uint_length); unfold enc_uint; simpl.
  - set (X := replicate (8 - n) 0 ++ rev (store n v)).
    assert (store 8 (load X) = X) as HX.
    { assert (length X = 8%nat) as <-
        by (unfold X; rewrite length_app, length_replicate, length_rev, store_length; lia).
      apply store_load. apply Forall_app. split; [|apply Forall_rev, store_bytes].
      apply Forall_replicate. unfold byte. lia. }
    unfold swap. rewrite HX. unfold X. by rewrite rev_app_distr, rev_involutive, rev_zeros, Hload.
  - by rewrite Hload.
Qed.

(** The two tag bits above six bits of value. *)
Lemma tag_bits x t :
  0 <= x < 64 -> t ∈ [0; 64; 128; 192] -> Z.land (x + t) 192 = t /\ Z.land (x + t) 63 = x.
Proof.
  intros Hx Ht.
  assert (forallb (fun x => forallb (fun t => (Z.land (x + t) 192 =? t) && (Z.land (x + t) 63 =? x))
            [0; 64; 128; 192]) (seqZ 0 64) = true) as Hall by (vm_compute; reflexivity).
  rewrite forallb_forall in Hall. specialize (Hall x). rewrite forallb_forall in Hall.
  specialize (Hall ltac:(apply list_elem_of_In, elem_of_seqZ; lia) t ltac:(by apply list_elem_of_In)).
  b2p. done.
Qed.

Lemma quotient_small v k : 0 <= k -> 0 <= v < 2 ^ (k + 6) -> 0 <= v / 2 ^ k < 64.
Proof.
  intros Hk Hv. rewrite Z.pow_add_r in Hv by lia. pose proof (Z.pow_pos_nonneg 2 k).
  split; [apply Z.div_pos|apply Z.div_lt_upper_bound]; lia.
Qed.

(** The bytes of [v] add up to it again. *)
Lemma recompose v k k' :
  0 <= k -> k' = k + 8 -> v / 2 ^ k = 256 * (v / 2 ^ k') + (v / 2 ^ k) mod 256.
Proof.
  intros Hk ->. rewrite (Z.div_mod (v / 2 ^ k) 256) at 1 by lia. do 2 f_equal.
  rewrite Z.div_div, Z.pow_add_r by lia. done.
Qed.

(** The four branches of [ReadVarInt62]. *)
Ltac read_branch pre bs :=
  let Hrem := fresh "Hrem" in
  match goal with |- Reader.ReadVarInt62 (reader_at ?e pre (bs ++ ?rest)) = _ =>
    pose proof (remaining_at e pre bs rest) as Hrem;
    unfold Reader.ReadVarInt62; unfold mbind at 1, M_bind at 1, get; cbv zeta; rewrite !next_at;
    simpl length in Hrem;
    destruct (Nat.eqb_spec (Reader.BytesRemaining (reader_at e pre (bs ++ rest))) 0); [lia|];
    cbv beta match delta [negb];
    cbn [app lookup list_lookup default from_option id] in Hrem |- *
  end.

Lemma read_one e pre rest b0 :
  Z.land b0 192 = 0 ->
  Reader.ReadVarInt62 (reader_at e pre ([b0] ++ rest)) =
  Ret (Some (Z.land b0 63)) (reader_at e (pre ++ [b0]) rest).
Proof.
  intros Ht. read_branch pre [b0]. rewrite Ht. simpl. unfold mbind, M_bind, modify.
  f_equal. apply (reader_moved e pre [b0]).
Qed.

Lemma read_two e pre rest b0 b1 :
  Z.land b0 192 = 64 ->
  Reader.ReadVarInt62 (reader_at e pre ([b0; b1] ++ rest)) =
  Ret (Some (Z.shiftl (Z.land b0 63) 8 + b1)) (reader_at e (pre ++ [b0; b1]) rest).
Proof.
  intros Ht. read_branch pre [b0; b1]. rewrite Ht. cbv [Z.eqb Pos.eqb].
  destruct (Nat.leb_spec 2 (Reader.BytesRemaining (reader_at e pre (b0 :: b1 :: rest)))); [|lia]. unfold mbind, M_bind, modify.
  f_equal. apply (reader_moved e pre [b0; b1]).
Qed.

Lemma read_four e pre rest b0 b1 b2 b3 :
  Z.land b0 192 = 128 ->
  Reader.ReadVarInt62 (reader_at e pre ([b0; b1; b2; b3] ++ rest)) =
  Ret (Some (Z.shiftl (Z.land b0 63) 24 + Z.shiftl b1 16 + Z.shiftl b2 8 + Z.shiftl b3 0))
      (reader_at e (pre ++ [b0; b1; b2; b3]) rest).
Proof.
  intros Ht. read_branch pre [b0; b1; b2; b3]. rewrite Ht. cbv [Z.eqb Pos.eqb].
  destruct (Nat.leb_spec 4 (Reader.BytesRemaining (reader_at e pre (b0 :: b1 :: b2 :: b3 :: rest)))); [|lia]. unfold mbind, M_bind, modify.
  f_equal. apply (reader_moved e pre [b0; b1; b2; b3]).
Qed.

Lemma read_eight e pre rest b0 b1 b2 b3 b4 b5 b6 b7 :
  Z.land b0 192 = 192 ->
  Reader.ReadVarInt62 (reader_at e pre ([b0; b1; b2; b3; b4; b5; b6; b7] ++ rest)) =
  Ret (Some (Z.shiftl (Z.land b0 63) 56 + Z.shiftl b1 48 + Z.shiftl b2 40 + Z.shiftl b3 32 +
             Z.shiftl b4 24 + Z.shiftl b5 16 + Z.shiftl b6 8 + Z.shiftl b7 0))
      (reader_at e (pre ++ [b0; b1; b2; b3; b4; b5; b6; b7]) rest).
Proof.
  intros Ht. read_branch pre [b0; b1; b2; b3; b4; b5; b6; b7]. rewrite Ht. cbv [Z.eqb Pos.eqb].
  destruct (Nat.leb_spec 8 (Reader.BytesRemaining (reader_at e pre (b0 :: b1 :: b2 :: b3 :: b4 :: b5 :: b6 :: b7 :: rest)))); [|lia]. unfold mbind, M_bind, modify.
  f_equal. apply (reader_moved e pre [b0; b1; b2; b3; b4; b5; b6; b7]).
Qed.

Lemma ReadVarInt62_ok v e pre rest :
  0 <= v < 2 ^ 62 ->
  Reader.ReadVarInt62 (reader_at e pre (enc_varint v ++ rest)) =
  Ret (Some v) (reader_at e (pre ++ enc_varint v) rest).
Proof.
  intros Hv. destruct (store_nested v) as (E1 & E2 & E3 & E4 & E5 & E6 & E7).
  pose proof (recompose v 0 8 ltac:(lia) eq_refl) as R0. pose proof (recompose v 8 16 ltac:(lia) eq_refl) as R1.
  pose proof (recompose v 16 24 ltac:(lia) eq_refl) as R2. pose proof (recompose v 24 32 ltac:(lia) eq_refl) as R3.
  pose proof (recompose v 32 40 ltac:(lia) eq_refl) as R4. pose proof (recompose v 40 48 ltac:(lia) eq_refl) as R5.
  pose proof (recompose v 48 56 ltac:(lia) eq_refl) as R6. rewrite Z.div_1_r in R0. unfold enc_varint.
  destruct (Z.ltb_spec v (2 ^ 6)); [|destruct (Z.ltb_spec v (2 ^ 14)); [|destruct (Z.ltb_spec v (2 ^ 30))]];
    simpl store; rewrite ?E7, ?E6, ?E5, ?E4, ?E3, ?E2, ?E1; simpl rev; cbv iota; clear E1 E2 E3 E4 E5 E6 E7.
  - rewrite (Z.mod_small v) by lia. destruct (tag_bits v 0) as [T1 T2]; [lia|set_solver|].
    rewrite read_one by done. by rewrite T2.
  - pose proof (quotient_small v 8 ltac:(lia) ltac:(lia)) as Hq. rewrite (Z.mod_small (v / 2 ^ 8)) by lia.
    destruct (tag_bits (v / 2 ^ 8) 64) as [T1 T2]; [lia|set_solver|].
    rewrite read_two by done. rewrite T2, Z.shiftl_mul_pow2 by lia. do 2 f_equal. lia.
  - pose proof (quotient_small v 24 ltac:(lia) ltac:(lia)) as Hq. rewrite (Z.mod_small (v / 2 ^ 24)) by lia.
    destruct (tag_bits (v / 2 ^ 24) 128) as [T1 T2]; [lia|set_solver|].
    rewrite read_four by done. rewrite T2, !Z.shiftl_mul_pow2 by lia. do 2 f_equal. lia.
  - pose proof (quotient_small v 56 ltac:(lia) ltac:(lia)) as Hq. rewrite (Z.mod_small (v / 2 ^ 56)) by lia.
    destruct (tag_bits (v / 2 ^ 56) 192) as [T1 T2]; [lia|set_solver|].
    rewrite read_eight by done. rewrite T2, !Z.shiftl_mul_pow2 by lia. do 2 f_equal. lia.
Qed.

Lemma read_field_ok f e pre rest :
  encodable f ->
  read_field f (reader_at e pre (enc e f ++ rest)) = Ret (Some f) (reader_at e (pre ++ enc e f) rest).
Proof.
  destruct f as [v|v|v|v|n v|s|v|v|v]; cbn [read_field enc encodable]; intros Hv;
    unfold mbind, M_bind.
  - unfold Reader.ReadUInt8, mbind, M_bind. rewrite ReadBytes_ok by done. unfold fmap, option_fmap, option_map, mret, M_ret.
    by rewrite load_store, Z.mod_small.
  - unfold Reader.ReadUInt16. by rewrite ReadUInt_ok.
  - unfold Reader.ReadUInt32. by rewrite ReadUInt_ok.
  - unfold Reader.ReadUInt64. by rewrite ReadUInt_ok.
  - by rewrite ReadBytesToUInt64_ok by tauto.
  - unfold Reader.ReadStringPiece16. unfold mbind at 1, M_bind at 1, Reader.ReadUInt16.
    rewrite <- app_assoc, ReadUInt_ok by (split; [lia|exact Hv]). simpl.
    rewrite ReadStringPiece_ok by lia. by rewrite <- app_assoc.
  - unfold Reader.ReadConnectionId, mbind, M_bind.
    rewrite ReadBytes_ok by by rewrite length_rev, store_length.
    unfold fmap, option_fmap, option_map, mret, M_ret.
    rewrite <- store_swap, load_store, Z.mod_small, swap_swap by (done || apply swap_range). done.
  - unfold Reader.ReadTag, mbind, M_bind. rewrite ReadBytes_ok by by rewrite store_length. unfold fmap, option_fmap, option_map, mret, M_ret.
    by rewrite load_store, Z.mod_small.
  - by rewrite ReadVarInt62_ok.
Qed.

(** ** Sequences of fields *)

Fixpoint write_all (l : list field) : M Writer.Writer bool :=
  match l with
  | [] => mret true
  | f :: l' => ok ← write_field f; if (ok : bool) then write_all l' else mret false
  end.

Fixpoint read_all (l : list field) : M Reader.Reader (option (list field)) :=
  match l with
  | [] => mret (Some [])
  | f :: l' =>
      x ← read_field f;
      match x with
      | None => mret None
      | Some x => xs ← read_all l'; mret (cons x <$> xs)
      end
  end.

Definition enc_all (e : Endianness) (l : list field) : list Z := concat (enc e <$> l).

Lemma append_nil w : fits w 0 -> append w [] = w.
Proof.
  intros Hf. unfold append, Writer.set_length, Writer.copy_at. simpl. rewrite !Nat.add_0_r, take_drop.
  by destruct w.
Qed.

Lemma write_all_ok l : forall w,
  Forall encodable l -> fits w (length (enc_all (Writer.endianness_ w) l)) ->
  write_all l w = Ret true (append w (enc_all (Writer.endianness_ w) l)).
Proof.
  induction l as [|f l IH]; intros w Hl Hf; simpl; [by rewrite append_nil|].
  apply Forall_cons in Hl as [Hf1 Hl]. change (enc_all (Writer.endianness_ w) (f :: l)) with
    (enc (Writer.endianness_ w) f ++ enc_all (Writer.endianness_ w) l) in *.
  rewrite length_app in Hf. unfold mbind, M_bind.
  rewrite write_field_ok by (done || unfold fits in *; lia).
  rewrite IH; [|done|by apply append_fits]. f_equal. by apply append_app.
Qed.

Lemma read_all_ok l e : forall pre rest,
  Forall encodable l ->
  read_all l (reader_at e pre (enc_all e l ++ rest)) =
  Ret (Some l) (reader_at e (pre ++ enc_all e l) rest).
Proof.
  induction l as [|f l IH]; intros pre rest Hl; simpl; [by rewrite app_nil_r|].
  apply Forall_cons in Hl as [Hf1 Hl]. change (enc_all e (f :: l)) with (enc e f ++ enc_all e l).
  rewrite <- app_assoc. unfold mbind at 1, M_bind at 1. rewrite read_field_ok by done.
  unfold mbind, M_bind. rewrite IH by done. by rewrite <- app_assoc.
Qed.



(** ** 16-bit floats *)

(** The search has found the highest bit of [v] within [o] places. *)
Definition narrowed (v o : Z) (ev : Z * Z) : Prop :=
  0 <= ev.1 /\ ev.2 = v / 2 ^ ev.1 /\ 2 ^ 11 <= ev.2 < 2 ^ (11 + o).

Lemma shift_down_narrows v o ev :
  0 < o -> 0 <= ev.1 -> ev.1 + o < 2 ^ 16 -> narrowed v (2 * o) ev ->
  narrowed v o (Writer.shift_down ev o) /\ (Writer.shift_down ev o).1 <= ev.1 + o.
Proof.
  destruct ev as [e x]. unfold narrowed, Writer.shift_down. simpl. intros Ho He Hlt (_ & Hx & Hlo & Hhi).
  change kUFloat16MantissaBits with 11.
  rewrite Z.shiftl_mul_pow2, Z.mul_1_l by lia.
  assert (2 ^ (11 + 2 * o) = 2 ^ (11 + o) * 2 ^ o) as Hp.
  { rewrite <- Z.pow_add_r by lia. f_equal. lia. }
  pose proof (Z.pow_pos_nonneg 2 o ltac:(lia) ltac:(lia)) as Hpos.
  pose proof (Z.pow_pos_nonneg 2 e ltac:(lia) ltac:(lia)) as Hpos'.
  destruct (Z.geb_spec x (2 ^ (11 + o))) as [Hge|Hlt']; simpl.
  - unfold uint16. rewrite wrap_u_small by lia. rewrite Z.shiftr_div_pow2 by lia.
    split; [|lia]. split; [lia|]. split.
    + rewrite Hx, Z.div_div by lia. by rewrite Z.pow_add_r by lia.
    + split; [|apply Z.div_lt_upper_bound; lia]. apply Z.div_le_lower_bound; [lia|].
      rewrite Z.pow_add_r in Hge by lia. lia.
  - split; [|lia]. split; [lia|]. split; [done|]. lia.
Qed.

Lemma normalize_spec v :
  2 ^ 11 <= v < 2 ^ 43 ->
  let '(e, x) := Writer.normalize v in 0 <= e <= 31 /\ x = v / 2 ^ e /\ 2 ^ 11 <= x < 2 ^ 12.
Proof.
  intros Hv. unfold Writer.normalize. cbn [fold_left].
  assert (narrowed v (2 * 16) (0, v)) as H0.
  { split; [simpl; lia|]. simpl. split; [by rewrite Z.div_1_r|]. lia. }
  set (s0 := (0, v)) in *. assert (s0.1 = 0) as E0 by done. clearbody s0.
  destruct (shift_down_narrows v 16 s0) as [H1 L1]; [lia|lia|lia|done|].
  set (s1 := Writer.shift_down s0 16) in *. clearbody s1. pose proof (proj1 H1) as P1.
  destruct (shift_down_narrows v 8 s1) as [H2 L2]; [lia|lia|lia|done|].
  set (s2 := Writer.shift_down s1 8) in *. clearbody s2. pose proof (proj1 H2) as P2.
  destruct (shift_down_narrows v 4 s2) as [H3 L3]; [lia|lia|lia|done|].
  set (s3 := Writer.shift_down s2 4) in *. clearbody s3. pose proof (proj1 H3) as P3.
  destruct (shift_down_narrows v 2 s3) as [H4 L4]; [lia|lia|lia|done|].
  set (s4 := Writer.shift_down s3 2) in *. clearbody s4. pose proof (proj1 H4) as P4.
  destruct (shift_down_narrows v 1 s4) as [H5 L5]; [lia|lia|lia|done|].
  set (s5 := Writer.shift_down s4 1) in *. clearbody s5. destruct s5 as [e x].
  destruct H5 as (He & Hx & Hr). simpl in *. split; [lia|]. split; [done|]. lia.
Qed.

(** A normalised value is decoded to itself, shifted back. *)
Lemma decode_normal e x :
  0 <= e <= 30 -> 2 ^ 11 <= x < 2 ^ 12 ->
  Reader.decode_ufloat16 (x + Z.shiftl e 11) = x * 2 ^ e.
Proof.
  intros He Hx. rewrite (Z.shiftl_mul_pow2 e 11) by lia. unfold Reader.decode_ufloat16.
  change (Z.shiftl 1 kUFloat16MantissaEffectiveBits) with (2 ^ 12).
  destruct (Z.ltb_spec (x + e * 2 ^ 11) (2 ^ 12)) as [Hlt|Hge].
  - assert (e = 0) as -> by lia. simpl. lia.
  - change kUFloat16MantissaBits with 11.
    rewrite (Z.shiftr_div_pow2 _ 11) by lia.
    assert ((x + e * 2 ^ 11) / 2 ^ 11 = 1 + e) as ->.
    { rewrite Z.div_add by lia. f_equal. symmetry. apply Z.div_unique with (r := x - 2 ^ 11); lia. }
    replace (1 + e - 1) with e by lia. unfold uint16. rewrite (wrap_u_small 16) by lia.
    rewrite (Z.shiftl_mul_pow2 e 11) by lia. replace (x + e * 2 ^ 11 - e * 2 ^ 11) with x by lia.
    rewrite (uint64_small x) by lia. rewrite Z.shiftl_mul_pow2 by lia.
    apply uint64_small. assert (2 ^ e <= 2 ^ 30) by (apply Z.pow_le_mono_r; lia). nia.
Qed.

(** The 16-bit float of a 64-bit value fits sixteen bits and decodes to at most the
    value, short of it by less than one part in 2048, or to the largest representable one. *)
Theorem a_float_keeps_eleven_bits v :
  0 <= v < 2 ^ 64 ->
  let d := Reader.decode_ufloat16 (Writer.encode_ufloat16 v) in
  0 <= Writer.encode_ufloat16 v < 2 ^ 16 /\
  (if v <? kUFloat16MaxValue then d <= v /\ (v - d) * 2 ^ 11 <= v else d = kUFloat16MaxValue).
Proof.
  intros Hv. unfold Writer.encode_ufloat16.
  change (Z.shiftl 1 kUFloat16MantissaEffectiveBits) with (2 ^ 12).
  change kUFloat16MaxValue with ((2 ^ 12 - 1) * 2 ^ 30).
  destruct (Z.ltb_spec v (2 ^ 12)) as [Hs|Hs].
  { destruct (Z.ltb_spec v ((2 ^ 12 - 1) * 2 ^ 30)); [|lia]. unfold uint16.
    rewrite wrap_u_small by lia. unfold Reader.decode_ufloat16.
    change (Z.shiftl 1 kUFloat16MantissaEffectiveBits) with (2 ^ 12).
    destruct (Z.ltb_spec v (2 ^ 12)); lia. }
  destruct (Z.geb_spec v ((2 ^ 12 - 1) * 2 ^ 30)) as [Hb|Hb].
  { destruct (Z.ltb_spec v ((2 ^ 12 - 1) * 2 ^ 30)); [lia|]. split; [lia|]. reflexivity. }
  destruct (Z.ltb_spec v ((2 ^ 12 - 1) * 2 ^ 30)); [|lia].
  pose proof (normalize_spec v ltac:(lia)) as Hn. destruct (Writer.normalize v) as [e x].
  destruct Hn as (He & Hx & Hr). pose proof (Z.pow_pos_nonneg 2 e ltac:(lia) ltac:(lia)) as Hp.
  pose proof (Z.div_mod v (2 ^ e) ltac:(lia)) as Hdm. rewrite <- Hx in Hdm.
  pose proof (Z.mod_pos_bound v (2 ^ e) Hp) as Hm.
  assert (e <= 30) as He30.
  { destruct (decide (e = 31)) as [->|]; [|lia]. change (2 ^ 31) with (2 * 2 ^ 30) in *. nia. }
  change kUFloat16MantissaBits with 11. rewrite (Z.shiftl_mul_pow2 e 11) by lia.
  unfold uint16. rewrite wrap_u_small by lia.
  rewrite <- (Z.shiftl_mul_pow2 e 11), decode_normal by lia. rewrite Z.shiftl_mul_pow2 by lia.
  split; [lia|]. split; [lia|]. nia.
Qed.

Lemma a_float_keeps_eleven_bits_witness :
  Reader.decode_ufloat16 (Writer.encode_ufloat16 123456789) = 123437056 /\
  (123456789 - Reader.decode_ufloat16 (Writer.encode_ufloat16 123456789)) * 2 ^ 11 <= 123456789.
Proof.
  split; [reflexivity|]. apply (a_float_keeps_eleven_bits 123456789). lia.
Defined.
