(* ===== verification/FlowController.v ===== *)
(** Flow control: [QuicFlowController]
    (libquic/net/quic/core/quic_flow_controller.cc), one per stream and one per
    session.  Offsets and counts are [uint64_t]. *)

From S2P Require Import Prelude.

Module FlowController.

(** [class QuicFlowController] *)
Record FlowController : Type := {
  id_ : Z;
  bytes_sent_ : Z;
  send_window_offset_ : Z;
  bytes_consumed_ : Z;
  highest_received_byte_offset_ : Z;
  receive_window_offset_ : Z;
  receive_window_size_ : Z;
  receive_window_size_limit_ : Z;
  auto_tune_receive_window_ : bool;
  session_flow_controller_ : option Z;        (* QuicFlowControllerInterface* *)
  last_blocked_send_window_offset_ : Z;
  prev_window_update_time_ : Z
}.

Definition kStreamReceiveWindowLimit : Z := 16 * 1024 * 1024.
Definition kSessionReceiveWindowLimit : Z := 24 * 1024 * 1024.
Definition kConnectionLevelId : Z := 0.
Definition QUIC_FLOW_CONTROL_SENT_TOO_MUCH_DATA : Z := 63.

(** What the controllers ask the session and the connection to send. *)
Inductive frame : Type :=
| WindowUpdate (id offset : Z)
| Blocked (id : Z)
| CloseConnection (error : Z).

(** The controllers of a connection, its clock and its smoothed round-trip time
    (microseconds), and what was sent, latest first. *)
Record Flow : Type := {
  controllers : gmap Z FlowController;
  clock : Clock;
  smoothed_rtt : Z;
  sent : list frame
}.

Definition set_controllers m (f : Flow) : Flow :=
  {| controllers := m; clock := clock f; smoothed_rtt := smoothed_rtt f; sent := sent f |}.

Definition send (x : frame) : M Flow unit := modify (fun f =>
  {| controllers := controllers f; clock := clock f; smoothed_rtt := smoothed_rtt f;
     sent := x :: sent f |}).

(** [*this] *)
Definition self (i : Z) : M Flow FlowController :=
  f ← get; deref (controllers f !! i) NullDeref.

Definition update (i : Z) (g : FlowController -> FlowController) : M Flow unit :=
  _ ← self i;
  modify (fun f => set_controllers (alter g i (controllers f)) f).

(** [connection_->clock()->ApproximateNow()] *)
Definition ApproximateNow : M Flow Z := fun f =>
  Ret (read_clock (clock f)).1
      {| controllers := controllers f; clock := (read_clock (clock f)).2;
         smoothed_rtt := smoothed_rtt f; sent := sent f |}.

(** The constructor *)
Definition init (id send_window_offset receive_window_offset : Z) (auto : bool) (session : option Z)
    : FlowController :=
  {| id_ := id; bytes_sent_ := 0; send_window_offset_ := send_window_offset; bytes_consumed_ := 0;
     highest_received_byte_offset_ := 0; receive_window_offset_ := receive_window_offset;
     receive_window_size_ := receive_window_offset;
     receive_window_size_limit_ := if id =? kConnectionLevelId then kSessionReceiveWindowLimit
                                   else kStreamReceiveWindowLimit;
     auto_tune_receive_window_ := auto; session_flow_controller_ := session;
     last_blocked_send_window_offset_ := 0; prev_window_update_time_ := 0 |}.

Section Members.
Variable c : FlowController.

Definition with_send sent_ off blocked : FlowController :=
  {| id_ := id_ c; bytes_sent_ := sent_; send_window_offset_ := off;
     bytes_consumed_ := bytes_consumed_ c;
     highest_received_byte_offset_ := highest_received_byte_offset_ c;
     receive_window_offset_ := receive_window_offset_ c;
     receive_window_size_ := receive_window_size_ c;
     receive_window_size_limit_ := receive_window_size_limit_ c;
     auto_tune_receive_window_ := auto_tune_receive_window_ c;
     session_flow_controller_ := session_flow_controller_ c;
     last_blocked_send_window_offset_ := blocked;
     prev_window_update_time_ := prev_window_update_time_ c |}.

Definition with_receive consumed highest off size prev : FlowController :=
  {| id_ := id_ c; bytes_sent_ := bytes_sent_ c; send_window_offset_ := send_window_offset_ c;
     bytes_consumed_ := consumed; highest_received_byte_offset_ := highest;
     receive_window_offset_ := off; receive_window_size_ := size;
     receive_window_size_limit_ := receive_window_size_limit_ c;
     auto_tune_receive_window_ := auto_tune_receive_window_ c;
     session_flow_controller_ := session_flow_controller_ c;
     last_blocked_send_window_offset_ := last_blocked_send_window_offset_ c;
     prev_window_update_time_ := prev |}.

Definition set_consumed x := with_receive x (highest_received_byte_offset_ c)
  (receive_window_offset_ c) (receive_window_size_ c) (prev_window_update_time_ c).
Definition set_highest x := with_receive (bytes_consumed_ c) x
  (receive_window_offset_ c) (receive_window_size_ c) (prev_window_update_time_ c).
Definition set_window off size := with_receive (bytes_consumed_ c) (highest_received_byte_offset_ c)
  off size (prev_window_update_time_ c).
Definition set_prev t := with_receive (bytes_consumed_ c) (highest_received_byte_offset_ c)
  (receive_window_offset_ c) (receive_window_size_ c) t.

(** [QuicByteCount SendWindowSize() const] *)
Definition SendWindowSize : Z :=
  if bytes_sent_ c >? send_window_offset_ c then 0
  else uint64 (send_window_offset_ c - bytes_sent_ c).

Definition IsBlocked : bool := SendWindowSize =? 0.

Definition FlowControlViolation : bool :=
  highest_received_byte_offset_ c >? receive_window_offset_ c.

Definition WindowUpdateThreshold : Z := receive_window_size_ c / 2.

(** [void IncreaseWindowSize()] *)
Definition IncreaseWindowSize : FlowController :=
  set_window (receive_window_offset_ c)
    (Z.min (uint64 (receive_window_size_ c * 2)) (receive_window_size_limit_ c)).
End Members.

(** [bool UpdateHighestReceivedOffset(QuicStreamOffset new_offset)] *)
Definition UpdateHighestReceivedOffset (i new_offset : Z) : M Flow bool :=
  c ← self i;
  if new_offset <=? highest_received_byte_offset_ c then mret false
  else update i (fun c => set_highest c new_offset);; mret true.

(** [void AddBytesSent(QuicByteCount bytes_sent)] *)
Definition AddBytesSent (i bytes_sent : Z) : M Flow unit :=
  c ← self i;
  if uint64 (bytes_sent_ c + bytes_sent) >? send_window_offset_ c then
    update i (fun c => with_send c (send_window_offset_ c) (send_window_offset_ c)
                                 (last_blocked_send_window_offset_ c));;
    send (CloseConnection QUIC_FLOW_CONTROL_SENT_TOO_MUCH_DATA)
  else
    update i (fun c => with_send c (uint64 (bytes_sent_ c + bytes_sent)) (send_window_offset_ c)
                                 (last_blocked_send_window_offset_ c)).

(** [void MaybeSendBlocked()] *)
Definition MaybeSendBlocked (i : Z) : M Flow unit :=
  c ← self i;
  if (SendWindowSize c =? 0) && (last_blocked_send_window_offset_ c <? send_window_offset_ c) then
    send (Blocked (id_ c));;
    update i (fun c => with_send c (bytes_sent_ c) (send_window_offset_ c) (send_window_offset_ c))
  else mret tt.

(** [bool UpdateSendWindowOffset(QuicStreamOffset new_send_window_offset)] *)
Definition UpdateSendWindowOffset (i new_send_window_offset : Z) : M Flow bool :=
  c ← self i;
  if new_send_window_offset <=? send_window_offset_ c then mret false
  else
    let was_previously_blocked := IsBlocked c in
    update i (fun c => with_send c (bytes_sent_ c) new_send_window_offset
                                 (last_blocked_send_window_offset_ c));;
    mret was_previously_blocked.

(** [void UpdateReceiveWindowOffsetAndSendWindowUpdate(QuicStreamOffset available_window)] *)
Definition UpdateReceiveWindowOffsetAndSendWindowUpdate (i available_window : Z) : M Flow unit :=
  update i (fun c => set_window c
    (uint64 (receive_window_offset_ c + uint64 (receive_window_size_ c - available_window)))
    (receive_window_size_ c));;
  c ← self i;
  send (WindowUpdate (id_ c) (receive_window_offset_ c)).

(** [void EnsureWindowAtLeast(QuicByteCount window_size)] *)
Definition EnsureWindowAtLeast (i window_size : Z) : M Flow unit :=
  c ← self i;
  if receive_window_size_limit_ c >=? window_size then mret tt
  else
    let available_window := uint64 (receive_window_offset_ c - bytes_consumed_ c) in
    update i IncreaseWindowSize;;
    UpdateReceiveWindowOffsetAndSendWindowUpdate i available_window.

Section Tuning.
(** [static_cast<QuicByteCount>(kSessionFlowControlMultiplier * x)], a [float]
    product. *)
Variable multiplied : Z -> Z.

(** [void MaybeIncreaseMaxWindowSize()] *)
Definition MaybeIncreaseMaxWindowSize (i : Z) : M Flow unit :=
  now ← ApproximateNow;
  c ← self i;
  let prev := prev_window_update_time_ c in
  update i (fun c => set_prev c now);;
  if prev =? 0 then mret tt
  else if negb (auto_tune_receive_window_ c) then mret tt
  else
    f ← get;
    let rtt := smoothed_rtt f in
    if rtt =? 0 then mret tt
    else
      let since_last := int64 (now - prev) in
      let two_rtt := int64 (2 * rtt) in
      if since_last >=? two_rtt then mret tt
      else
        let old_window := receive_window_size_ c in
        update i IncreaseWindowSize;;
        c' ← self i;
        if receive_window_size_ c' >? old_window then
          match session_flow_controller_ c' with
          | Some s => EnsureWindowAtLeast s (multiplied (receive_window_size_ c'))
          | None => mret tt
          end
        else mret tt.

(** [void MaybeSendWindowUpdate()] *)
Definition MaybeSendWindowUpdate (i : Z) : M Flow unit :=
  c ← self i;
  let available_window := uint64 (receive_window_offset_ c - bytes_consumed_ c) in
  let threshold := WindowUpdateThreshold c in
  (if prev_window_update_time_ c =? 0
   then now ← ApproximateNow; update i (fun c => set_prev c now) else mret tt);;
  if available_window >=? threshold then mret tt
  else
    MaybeIncreaseMaxWindowSize i;;
    UpdateReceiveWindowOffsetAndSendWindowUpdate i available_window.

(** [void AddBytesConsumed(QuicByteCount bytes_consumed)] *)
Definition AddBytesConsumed (i bytes_consumed : Z) : M Flow unit :=
  update i (fun c => set_consumed c (uint64 (bytes_consumed_ c + bytes_consumed)));;
  MaybeSendWindowUpdate i.
End Tuning.

(** [void UpdateReceiveWindowSize(QuicStreamOffset size)] *)
Definition UpdateReceiveWindowSize (i size : Z) : M Flow unit :=
  c ← self i;
  if negb (receive_window_size_ c =? receive_window_offset_ c) then mret tt
  else update i (fun c => set_window c size size).

End FlowController.
