(* ===== verification/FlowControl.v ===== *)
(** What flow control guarantees: a sender never exceeds its peer's window, and a
    receiver that consumes what it was sent keeps at least half a window open and
    never takes an advertised window back. *)

From S2P Require Import Prelude FlowController.
Import FlowController.

Lemma run_self {A} i c (k : FlowController -> M Flow A) f :
  controllers f !! i = Some c -> (self i ≫= k) f = k c f.
Proof. intros Hc. unfold self, get, deref, mbind, M_bind. by rewrite Hc. Qed.

Lemma run_update {A} i c g (k : unit -> M Flow A) f :
  controllers f !! i = Some c ->
  (update i g ≫= k) f = k tt (set_controllers (<[i := g c]> (controllers f)) f).
Proof.
  intros Hc. unfold update. unfold mbind at 1, M_bind at 1.
  unfold self, get, deref, mbind, M_bind, modify. rewrite Hc. simpl.
  by rewrite (alter_as_insert _ _ _ c).
Qed.

Lemma update_eq i c g f :
  controllers f !! i = Some c ->
  update i g f = Ret tt (set_controllers (<[i := g c]> (controllers f)) f).
Proof.
  intros Hc. unfold update, self, get, deref, mbind, M_bind, modify. rewrite Hc. simpl.
  by rewrite (alter_as_insert _ _ _ c).
Qed.

(** ** Sending *)

Inductive send_op : Type :=
| Sent (bytes : Z)
| WindowFromPeer (offset : Z)
| AskBlocked.

Definition do_send (i : Z) (o : send_op) : M Flow unit :=
  match o with
  | Sent n => AddBytesSent i n
  | WindowFromPeer off => _ ← UpdateSendWindowOffset i off; mret tt
  | AskBlocked => MaybeSendBlocked i
  end.

Fixpoint do_sends (i : Z) (l : list send_op) : M Flow unit :=
  match l with
  | [] => mret tt
  | o :: l' => do_send i o;; do_sends i l'
  end.

Definition op_ok (o : send_op) : Prop :=
  match o with
  | Sent n => 0 <= n < 2 ^ 62
  | WindowFromPeer off => 0 <= off < 2 ^ 62
  | AskBlocked => True
  end.

(** The bytes handed to the controller, and the largest window granted. *)
Definition total (l : list send_op) : Z :=
  foldr (fun o a => match o with Sent n => n + a | _ => a end) 0 l.
Definition granted (off : Z) (l : list send_op) : Z :=
  fold_left (fun a o => match o with WindowFromPeer off => Z.max a off | _ => a end) l off.

Definition overrun (f : Flow) : Prop := CloseConnection QUIC_FLOW_CONTROL_SENT_TOO_MUCH_DATA ∈ sent f.

(** [c] has sent [n] bytes in a window of [off], or has been closed. *)
Record sender (i n off : Z) (f : Flow) (c : FlowController) : Prop := {
  s_at : controllers f !! i = Some c;
  s_range : 0 <= bytes_sent_ c <= send_window_offset_ c;
  s_off : send_window_offset_ c = off /\ 0 <= off < 2 ^ 62;
  s_count : overrun f \/ bytes_sent_ c = n
}.

Definition step_off (off : Z) (o : send_op) : Z :=
  match o with WindowFromPeer x => Z.max off x | _ => off end.
Definition step_count (n : Z) (o : send_op) : Z := match o with Sent k => n + k | _ => n end.

Lemma do_send_spec i n off o f c :
  op_ok o -> sender i n off f c ->
  terminates_in (do_send i o f) (fun _ f' => exists c', sender i (step_count n o) (step_off off o) f' c').
Proof.
  intros Ho [Hc Hr [Eo Hoff] Hn]. destruct o as [k|x|]; simpl in *.
  - unfold AddBytesSent. rewrite (run_self i c) by done. rewrite uint64_small by lia.
    destruct (Z.gtb_spec (bytes_sent_ c + k) (send_window_offset_ c)).
    + rewrite (run_update i c) by done. simpl. eexists. split; simpl;
        [apply lookup_insert_eq|simpl; lia|simpl; lia|left; by left].
    + rewrite (update_eq i c) by done. eexists. split; simpl; [apply lookup_insert_eq|simpl|simpl|].
      * rewrite uint64_small; lia.
      * lia.
      * destruct Hn as [?|Hn]; [by left|right]. simpl. rewrite uint64_small; lia.
  - unfold UpdateSendWindowOffset. apply total_bind. rewrite (run_self i c) by done.
    destruct (Z.leb_spec x (send_window_offset_ c)).
    + exists c. split; [done|done|lia|done].
    + rewrite (run_update i c) by done. simpl. eexists. split; simpl;
        [apply lookup_insert_eq|simpl; lia|simpl; lia|done].
  - unfold MaybeSendBlocked. rewrite (run_self i c) by done.
    destruct (_ && _).
    + unfold mbind, M_bind. simpl. rewrite (update_eq i c) by done. eexists. split; simpl;
        [apply lookup_insert_eq|simpl; lia|simpl; lia|]. destruct Hn as [?|?]; [left; by right|by right].
    + by exists c.
Qed.

Lemma do_sends_spec i l : forall n off f c,
  Forall op_ok l -> sender i n off f c ->
  terminates_in (do_sends i l f) (fun _ f' => exists c', sender i (n + total l) (granted off l) f' c').
Proof.
  induction l as [|o l IH]; intros n off f c Hl Hs; cbn [do_sends].
  { exists c. unfold total, granted. simpl. by rewrite Z.add_0_r. }
  apply Forall_cons in Hl as [Ho Hl]. apply total_bind.
  eapply total_mono; [by eapply do_send_spec|]. intros _ f1 [c1 Hs1].
  eapply total_mono; [by apply (IH _ _ _ _ Hl Hs1)|]. intros _ f2 [c2 Hs2]. exists c2.
  replace (n + total (o :: l)) with (step_count n o + total l); [exact Hs2|].
  unfold total. simpl. destruct o; simpl; lia.
Qed.

(** C40: Over any sequence of sends and window updates a sender never sends beyond the
    largest offset granted, and has sent all it was asked to unless the connection was
    closed for overrunning. *)
Theorem a_sender_stays_within_the_granted_window i c l f :
  controllers f !! i = Some c -> bytes_sent_ c = 0 -> 0 <= send_window_offset_ c < 2 ^ 62 ->
  Forall op_ok l ->
  terminates_in (do_sends i l f) (fun _ f' => exists c', controllers f' !! i = Some c' /\
    send_window_offset_ c' = granted (send_window_offset_ c) l /\
    0 <= bytes_sent_ c' <= send_window_offset_ c' /\
    (overrun f' \/ bytes_sent_ c' = total l)).
Proof.
  intros Hc H0 Hoff Hl. eapply total_mono; [apply (do_sends_spec i l 0 (send_window_offset_ c) f c Hl)|].
  - split; [done|lia|done|by right].
  - intros _ f' [c' [H1 H2 [H3 _] H4]]. exists c'. done.
Qed.

Definition flow0 : Flow :=
  {| controllers := {[ 5 := init 5 100 64 true (Some 0); 0 := init 0 100 64 true None ]};
     clock := {| readings := fun n => 1000 + Z.of_nat n; ticks := 0 |}; smoothed_rtt := 5000;
     sent := [] |}.

Lemma a_sender_stays_within_the_granted_window_witness :
  terminates_in (do_sends 5 [Sent 100; AskBlocked; WindowFromPeer 150; Sent 30] flow0)
    (fun _ f' => exists c', controllers f' !! 5 = Some c' /\ send_window_offset_ c' = 150).
Proof.
  eapply total_mono; [apply (a_sender_stays_within_the_granted_window 5 (init 5 100 64 true (Some 0)))|].
  - reflexivity.
  - reflexivity.
  - simpl. lia.
  - repeat constructor; simpl; lia.
  - intros _ f' (c' & Hc & Ho & _). exists c'. split; [exact Hc|exact Ho].
Defined.

(** ** Receiving *)

(** The window of a receiver: what was consumed was allowed, the rest of the
    window is at most its size, and the size respects its limit. *)
Record receiver (c : FlowController) : Prop := {
  r_consumed : 0 <= bytes_consumed_ c <= receive_window_offset_ c;
  r_offset : bytes_consumed_ c + receive_window_size_limit_ c < 2 ^ 62;
  r_open : receive_window_offset_ c - bytes_consumed_ c <= receive_window_size_ c;
  r_size : 0 < receive_window_size_ c <= receive_window_size_limit_ c;
  r_limit : receive_window_size_limit_ c <= 2 ^ 32
}.

Lemma IncreaseWindowSize_size c :
  receiver c ->
  receive_window_size_ (IncreaseWindowSize c) =
    Z.min (2 * receive_window_size_ c) (receive_window_size_limit_ c) /\
  receive_window_size_ c <= receive_window_size_ (IncreaseWindowSize c) <= receive_window_size_limit_ c.
Proof. intros []. unfold IncreaseWindowSize. simpl. rewrite uint64_small by lia. lia. Qed.

(** The whole window is open again. *)
Definition reopened (c : FlowController) : FlowController :=
  set_window c (bytes_consumed_ c + receive_window_size_ c) (receive_window_size_ c).

Lemma reopen_offset c :
  receiver c ->
  uint64 (receive_window_offset_ c +
          uint64 (receive_window_size_ c - uint64 (receive_window_offset_ c - bytes_consumed_ c))) =
  bytes_consumed_ c + receive_window_size_ c.
Proof.
  intros []. rewrite (uint64_small (receive_window_offset_ c - _)) by lia.
  rewrite (uint64_small (receive_window_size_ c - _)) by lia. rewrite uint64_small; lia.
Qed.

Lemma reopen_spec i c f :
  controllers f !! i = Some c -> receiver c ->
  UpdateReceiveWindowOffsetAndSendWindowUpdate i (uint64 (receive_window_offset_ c - bytes_consumed_ c)) f =
  Ret tt {| controllers := <[i := reopened c]> (controllers f); clock := clock f;
            smoothed_rtt := smoothed_rtt f;
            sent := WindowUpdate (id_ c) (bytes_consumed_ c + receive_window_size_ c) :: sent f |}.
Proof.
  intros Hc Hr. unfold UpdateReceiveWindowOffsetAndSendWindowUpdate.
  rewrite (run_update i c) by done. rewrite reopen_offset by done. fold (reopened c).
  rewrite (run_self i (reopened c)) by apply lookup_insert_eq. done.
Qed.

Lemma reopened_receiver c : receiver c -> receiver (reopened c).
Proof. intros []. split; simpl; lia. Qed.

Lemma increased_receiver c : receiver c -> receiver (IncreaseWindowSize c).
Proof.
  intros Hr. destruct (IncreaseWindowSize_size c Hr) as [_ H]. destruct Hr. split; simpl in *; lia.
Qed.

(** All controllers are well-formed, and the session's controllers exist. *)
Record flow_ok (f : Flow) : Prop := {
  f_receiver : forall j c, controllers f !! j = Some c -> receiver c;
  f_session : forall j c s, controllers f !! j = Some c -> session_flow_controller_ c = Some s ->
    s <> j /\ is_Some (controllers f !! s)
}.

(** No window is taken back. *)
Record wider (c c' : FlowController) : Prop := {
  d_offset : receive_window_offset_ c <= receive_window_offset_ c';
  d_size : receive_window_size_ c <= receive_window_size_ c';
  d_same : bytes_consumed_ c' = bytes_consumed_ c /\
    session_flow_controller_ c' = session_flow_controller_ c /\
    receive_window_size_limit_ c' = receive_window_size_limit_ c /\
    highest_received_byte_offset_ c' = highest_received_byte_offset_ c
}.

Definition widened (f f' : Flow) : Prop :=
  forall j c, controllers f !! j = Some c -> exists c', controllers f' !! j = Some c' /\ wider c c'.

#[export] Instance wider_preorder : PreOrder wider.
Proof.
  split; [by intros c; split; [lia|lia|]|]. intros a b c [? ? (?&?&?&?)] [? ? (?&?&?&?)].
  split; [lia|lia|]. split_and!; congruence.
Qed.

#[export] Instance widened_preorder : PreOrder widened.
Proof.
  split; [by intros f j c Hc; exists c|]. intros f1 f2 f3 H1 H2 j c (c1 & Hc1 & W1)%H1.
  destruct (H2 j c1 Hc1) as (c2 & Hc2 & W2). exists c2. split; [done|]. by transitivity c1.
Qed.

Lemma replace_ok i c c' f f' :
  flow_ok f -> controllers f !! i = Some c -> receiver c' ->
  session_flow_controller_ c' = session_flow_controller_ c ->
  controllers f' = <[i := c']> (controllers f) -> flow_ok f'.
Proof.
  intros [Hr Hs] Hc Hr' Es E. split.
  - intros j cj. rewrite E, lookup_insert. case_decide; [by intros [= <-]|apply Hr].
  - intros j cj s. rewrite E, lookup_insert, lookup_insert_is_Some'.
    case_decide as Ej; [subst j; intros [= <-] Hsj|intros Hj Hsj].
    + rewrite Es in Hsj. destruct (Hs i c s Hc Hsj). auto.
    + destruct (Hs j cj s); auto.
Qed.

(** Replacing one controller by a wider one. *)
Lemma put_ok i c c' f f' :
  flow_ok f -> controllers f !! i = Some c -> wider c c' -> receiver c' ->
  controllers f' = <[i := c']> (controllers f) -> flow_ok f' /\ widened f f'.
Proof.
  intros Hf Hc Hw Hr' E. split.
  - eapply replace_ok; [done|done|done| |done]. apply Hw.
  - intros j cj Hj. rewrite E, lookup_insert. case_decide; [subst|by exists cj].
    rewrite Hc in Hj. injection Hj as <-. by exists c'.
Qed.

Lemma wider_reopened c : receiver c -> wider c (reopened c).
Proof. intros []. split; simpl; [lia|lia|done]. Qed.

Lemma wider_increased c : receiver c -> wider c (IncreaseWindowSize c).
Proof.
  intros Hr. destruct (IncreaseWindowSize_size c Hr) as [_ H]. destruct Hr.
  split; simpl in *; [lia|lia|done].
Qed.

Lemma EnsureWindowAtLeast_spec i c n f :
  flow_ok f -> controllers f !! i = Some c ->
  terminates_in (EnsureWindowAtLeast i n f) (fun _ f' => flow_ok f' /\ widened f f' /\
    forall j, j <> i -> controllers f' !! j = controllers f !! j).
Proof.
  intros Hf Hc. pose proof (f_receiver f Hf i c Hc) as Hr. unfold EnsureWindowAtLeast.
  rewrite (run_self i c) by done. destruct (_ >=? n); [by split|].
  rewrite (run_update i c) by done. set (f1 := set_controllers _ _).
  assert (controllers f1 !! i = Some (IncreaseWindowSize c)) as Hc1 by apply lookup_insert_eq.
  destruct (put_ok i c (IncreaseWindowSize c) f f1) as [Hf1 Hw1];
    [done|done|by apply wider_increased|by apply increased_receiver|done|].
  pose proof (f_receiver f1 Hf1 i _ Hc1) as Hr1.
  pose proof (reopen_spec i (IncreaseWindowSize c) f1 Hc1 Hr1) as E. simpl in E.
  match goal with |- terminates_in (UpdateReceiveWindowOffsetAndSendWindowUpdate i ?a f1) _ =>
    change a with (uint64 (receive_window_offset_ c - bytes_consumed_ c)) end.
  rewrite E. simpl. split; [|split].
  - eapply (put_ok i (IncreaseWindowSize c) (reopened (IncreaseWindowSize c)) f1);
      [done|done|by apply wider_reopened|by apply reopened_receiver|done].
  - transitivity f1; [done|].
    eapply (put_ok i (IncreaseWindowSize c) (reopened (IncreaseWindowSize c)) f1);
      [done|done|by apply wider_reopened|by apply reopened_receiver|done].
  - intros j Hj. simpl. by rewrite !lookup_insert_ne.
Qed.

Lemma set_prev_ok i c t f f' :
  flow_ok f -> controllers f !! i = Some c -> controllers f' = <[i := set_prev c t]> (controllers f) ->
  flow_ok f' /\ widened f f'.
Proof.
  intros Hf Hc. pose proof (f_receiver f Hf i c Hc) as [].
  apply (put_ok i c (set_prev c t)); [done|done|split; simpl; [lia|lia|done]|by split].
Qed.

Section Tuning.
Variable multiplied : Z -> Z.

(** Tuning may widen windows but does not move the offset of [i]. *)
Definition tuned (i : Z) (f f' : Flow) : Prop :=
  flow_ok f' /\ widened f f' /\
  forall c, controllers f !! i = Some c -> exists c', controllers f' !! i = Some c' /\
    receive_window_offset_ c' = receive_window_offset_ c /\ id_ c' = id_ c.

Lemma tuned_refl i f : flow_ok f -> tuned i f f.
Proof. intros Hf. split; [done|]. split; [done|]. intros c Hc. by exists c. Qed.

Lemma tuned_trans i f1 f2 f3 : tuned i f1 f2 -> tuned i f2 f3 -> tuned i f1 f3.
Proof.
  intros (_ & W1 & T1) (H2 & W2 & T2). split; [done|]. split; [by transitivity f2|].
  intros c (c2 & Hc2 & E1 & E2)%T1. destruct (T2 c2 Hc2) as (c3 & Hc3 & E3 & E4).
  exists c3. split; [done|]. split; congruence.
Qed.

Lemma tuned_prev i c t f f' :
  flow_ok f -> controllers f !! i = Some c -> controllers f' = <[i := set_prev c t]> (controllers f) ->
  tuned i f f'.
Proof.
  intros Hf Hc E. destruct (set_prev_ok i c t f f') as [H1 H2]; [done|done|done|].
  split; [done|]. split; [done|]. intros c1 Hc1. rewrite Hc in Hc1. injection Hc1 as <-.
  rewrite E, lookup_insert_eq. by eexists.
Qed.

Lemma MaybeIncreaseMaxWindowSize_spec i c f :
  flow_ok f -> controllers f !! i = Some c ->
  terminates_in (MaybeIncreaseMaxWindowSize multiplied i f) (fun _ f' => tuned i f f').
Proof.
  intros Hf Hc. unfold MaybeIncreaseMaxWindowSize. apply total_bind. simpl.
  set (now := readings (clock f) (ticks (clock f))).
  match goal with |- terminates_in (_ ?x) _ => set (f0 := x) end.
  assert (controllers f0 !! i = Some c) as Hc0 by exact Hc.
  rewrite (run_self i c) by done. rewrite (run_update i c) by done.
  set (f1 := set_controllers _ f0). set (c1 := set_prev c now).
  assert (controllers f1 !! i = Some c1) as Hc1 by apply lookup_insert_eq.
  assert (tuned i f f1) as Ht1 by by apply (tuned_prev i c now).
  destruct (_ =? 0); [done|]. destruct (negb _); [done|]. unfold mbind at 1, M_bind at 1, get.
  destruct (_ =? 0); [done|]. destruct (_ >=? _); [done|].
  pose proof (proj1 Ht1) as Hf1. pose proof (f_receiver f1 Hf1 i c1 Hc1) as Hr1.
  rewrite (run_update i c1) by done. set (f2 := set_controllers _ f1).
  assert (controllers f2 !! i = Some (IncreaseWindowSize c1)) as Hc2 by apply lookup_insert_eq.
  assert (tuned i f f2) as Ht2.
  { apply (tuned_trans i f f1); [done|].
    destruct (put_ok i c1 (IncreaseWindowSize c1) f1 f2) as [H1 H2];
      [done|done|by apply wider_increased|by apply increased_receiver|done|].
    split; [done|]. split; [done|]. intros x Hx. rewrite Hc1 in Hx. injection Hx as <-.
    exists (IncreaseWindowSize c1). done. }
  rewrite (run_self i (IncreaseWindowSize c1)) by done. destruct (_ >? _); [|done].
  destruct (session_flow_controller_ (IncreaseWindowSize c1)) as [s|] eqn:Es; [|done].
  destruct (f_session f2 (proj1 Ht2) i _ s Hc2 Es) as [Hne [cs Hcs]].
  eapply total_mono; [apply (EnsureWindowAtLeast_spec s cs); [apply Ht2|done]|].
  intros _ f3 (Hf3 & Hw3 & Hsame). apply (tuned_trans i f f2); [done|]. split; [done|]. split; [done|].
  intros x Hx. exists x. rewrite Hsame by done. done.
Qed.

Lemma MaybeSendWindowUpdate_spec i c f :
  flow_ok f -> controllers f !! i = Some c ->
  terminates_in (MaybeSendWindowUpdate multiplied i f) (fun _ f' =>
    flow_ok f' /\ widened f f' /\
    exists c', controllers f' !! i = Some c' /\ bytes_consumed_ c' = bytes_consumed_ c /\
      WindowUpdateThreshold c' <= receive_window_offset_ c' - bytes_consumed_ c').
Proof.
  intros Hf Hc. pose proof (f_receiver f Hf i c Hc) as Hr. unfold MaybeSendWindowUpdate.
  rewrite (run_self i c) by done. apply total_bind.
  eapply (total_mono _ (fun _ f' => tuned i f f' /\ forall c', controllers f' !! i = Some c' ->
    WindowUpdateThreshold c' = WindowUpdateThreshold c)).
  { destruct (_ =? 0); [|split; [by apply tuned_refl|]; intros c' Hc'; congruence].
    apply total_bind. simpl. match goal with |- terminates_in (_ ?x) _ => set (f0 := x) end.
    rewrite (update_eq i c) by done. split; [by eapply (tuned_prev i c)|]. simpl.
    intros c'. rewrite lookup_insert_eq. by intros [= <-]. }
  intros _ f1 [(Hf1 & Hw1 & Ht1) Hth]. destruct (Ht1 c Hc) as (c1 & Hc1 & Eo1 & _).
  destruct (Hw1 i c Hc) as (c1' & Hc1' & [_ Hs1 (Ec1 & _ & _)]).
  assert (c1' = c1) as -> by congruence.
  assert (uint64 (receive_window_offset_ c - bytes_consumed_ c) =
          receive_window_offset_ c - bytes_consumed_ c) as Eav by (apply uint64_small; destruct Hr; lia).
  destruct (Z.geb_spec (uint64 (receive_window_offset_ c - bytes_consumed_ c)) (WindowUpdateThreshold c))
    as [Hge|Hlt].
  { split; [done|]. split; [done|]. exists c1. rewrite Hth, Eo1, Ec1 by done. split; [done|].
    split; [done|]. lia. }
  apply total_bind. eapply total_mono; [by apply (MaybeIncreaseMaxWindowSize_spec i c1)|].
  intros _ f2 (Hf2 & Hw2 & Ht2). destruct (Ht2 c1 Hc1) as (c2 & Hc2 & Eo2 & _).
  destruct (Hw2 i c1 Hc1) as (c2' & Hc2' & [_ Hs2 (Ec2 & _ & _)]).
  assert (c2' = c2) as -> by congruence. pose proof (f_receiver f2 Hf2 i c2 Hc2) as Hr2.
  replace (receive_window_offset_ c - bytes_consumed_ c) with
    (receive_window_offset_ c2 - bytes_consumed_ c2) by congruence.
  rewrite (reopen_spec i c2) by done. simpl.
  match goal with |- flow_ok ?x /\ _ => set (f3 := x) end.
  destruct (put_ok i c2 (reopened c2) f2 f3) as [H3 W3];
    [done|done|by apply wider_reopened|by apply reopened_receiver|done|].
  split; [done|]. split; [transitivity f1; [done|]; by transitivity f2|].
  exists (reopened c2). rewrite lookup_insert_eq. split; [done|]. simpl. split; [congruence|].
  unfold WindowUpdateThreshold. simpl. destruct Hr2.
  assert (receive_window_size_ c2 / 2 <= receive_window_size_ c2) by (apply Z.div_le_upper_bound; lia).
  lia.
Qed.

Lemma AddBytesConsumed_spec i n c f :
  flow_ok f -> controllers f !! i = Some c ->
  0 <= n -> bytes_consumed_ c + n <= receive_window_offset_ c ->
  bytes_consumed_ c + n + receive_window_size_limit_ c < 2 ^ 62 ->
  terminates_in (AddBytesConsumed multiplied i n f) (fun _ f' =>
    flow_ok f' /\
    (exists c', controllers f' !! i = Some c' /\ wider (set_consumed c (bytes_consumed_ c + n)) c' /\
       WindowUpdateThreshold c' <= receive_window_offset_ c' - bytes_consumed_ c') /\
    (forall j cj, j <> i -> controllers f !! j = Some cj ->
       exists cj', controllers f' !! j = Some cj' /\ wider cj cj')).
Proof.
  intros Hf Hc Hn Hin Hlim. pose proof (f_receiver f Hf i c Hc) as Hr.
  unfold AddBytesConsumed. rewrite (run_update i c) by done. rewrite uint64_small by (destruct Hr; lia).
  set (c1 := set_consumed c (bytes_consumed_ c + n)). set (f1 := set_controllers _ f).
  assert (controllers f1 !! i = Some c1) as Hc1 by apply lookup_insert_eq.
  assert (receiver c1) as Hr1 by (destruct Hr; split; simpl; lia).
  assert (flow_ok f1) as Hf1 by by apply (replace_ok i c c1 f).
  eapply total_mono; [by apply (MaybeSendWindowUpdate_spec i c1)|].
  intros _ f2 (Hf2 & Hw2 & c2 & Hc2 & E2 & Ht2). split; [done|]. split.
  - destruct (Hw2 i c1 Hc1) as (c' & Hc' & Hw). assert (c' = c2) as -> by congruence. by exists c2.
  - intros j cj Hne Hj. apply Hw2. rewrite <- Hj. by apply lookup_insert_ne.
Qed.

(** After any consumption of received bytes the receiver has announced at least half of
    its window, windows only grow, and the flow-control invariant of every controller holds. *)
Theorem consuming_keeps_half_a_window_open i n c f :
  flow_ok f -> controllers f !! i = Some c ->
  0 <= n -> bytes_consumed_ c + n <= receive_window_offset_ c ->
  bytes_consumed_ c + n + receive_window_size_limit_ c < 2 ^ 62 ->
  terminates_in (AddBytesConsumed multiplied i n f) (fun _ f' =>
    flow_ok f' /\
    (forall j cj, controllers f !! j = Some cj -> exists cj', controllers f' !! j = Some cj' /\
       receive_window_offset_ cj <= receive_window_offset_ cj' /\
       receive_window_size_ cj <= receive_window_size_ cj') /\
    exists c', controllers f' !! i = Some c' /\ bytes_consumed_ c' = bytes_consumed_ c + n /\
      WindowUpdateThreshold c' <= receive_window_offset_ c' - bytes_consumed_ c').
Proof.
  intros Hf Hc Hn Hin Hlim. eapply total_mono; [by apply (AddBytesConsumed_spec i n c)|].
  intros _ f' (Hf' & (c' & Hc' & [Ho Hs (Eb & _)] & Ht) & Hothers). split; [done|].
  split; [|by exists c']. intros j cj Hj. destruct (decide (j = i)) as [->|Hne].
  - rewrite Hc in Hj. injection Hj as <-. by exists c'.
  - destruct (Hothers j cj Hne Hj) as (cj' & Hj' & [? ? _]). by exists cj'.
Qed.
End Tuning.

Lemma flow0_ok : flow_ok flow0.
Proof.
  assert (forall j c, controllers flow0 !! j = Some c ->
    (j = 5 /\ c = init 5 100 64 true (Some 0)) \/ (j = 0 /\ c = init 0 100 64 true None)) as Hall.
  { intros j c. unfold flow0. simpl. rewrite lookup_insert. case_decide; [intros [= <-]; auto|].
    intros [<- <-]%lookup_singleton_Some. auto. }
  split.
  - intros j c [[-> ->]|[-> ->]]%Hall; split; simpl; unfold kStreamReceiveWindowLimit,
      kSessionReceiveWindowLimit; lia.
  - intros j c s [[-> ->]|[-> ->]]%Hall; simpl; [|done]. intros [= <-]. split; [done|]. by eexists.
Qed.

Lemma consuming_keeps_half_a_window_open_witness :
  terminates_in (AddBytesConsumed (fun x => x * 3 / 2) 5 40 flow0) (fun _ f' =>
    exists c', controllers f' !! 5 = Some c' /\ bytes_consumed_ c' = 40 /\
      WindowUpdateThreshold c' <= receive_window_offset_ c' - bytes_consumed_ c').
Proof.
  eapply total_mono; [apply (consuming_keeps_half_a_window_open (fun x => x * 3 / 2) 5 40
    (init 5 100 64 true (Some 0)) flow0 flow0_ok)|].
  - reflexivity.
  - lia.
  - simpl. lia.
  - simpl. unfold kStreamReceiveWindowLimit. lia.
  - intros _ f' (_ & _ & H). exact H.
Defined.

(** ** A window that is not ensured *)

(** Asked for more than the present window EnsureWindowAtLeast leaves the window
    smaller than asked, and does nothing at all while the limit allows the request. *)
Theorem EnsureWindowAtLeast_never_reaches_the_window_asked_for i c n f :
  controllers f !! i = Some c -> receiver c -> receive_window_size_ c < n ->
  terminates_in (EnsureWindowAtLeast i n f) (fun _ f' => exists c',
    controllers f' !! i = Some c' /\ receive_window_size_ c' < n /\
    (n <= receive_window_size_limit_ c -> f' = f)).
Proof.
  intros Hc Hr Hn. unfold EnsureWindowAtLeast. rewrite (run_self i c) by done.
  destruct (Z.geb_spec (receive_window_size_limit_ c) n) as [Hge|Hlt]; [by exists c|].
  rewrite (run_update i c) by done. set (f1 := set_controllers _ _).
  assert (controllers f1 !! i = Some (IncreaseWindowSize c)) as Hc1 by apply lookup_insert_eq.
  pose proof (reopen_spec i _ f1 Hc1 (increased_receiver c Hr)) as E.
  match goal with |- terminates_in (UpdateReceiveWindowOffsetAndSendWindowUpdate i ?a f1) _ =>
    change a with (uint64 (receive_window_offset_ (IncreaseWindowSize c) -
                           bytes_consumed_ (IncreaseWindowSize c))) end.
  rewrite E. simpl. eexists. rewrite lookup_insert_eq. split; [done|].
  destruct (IncreaseWindowSize_size c Hr) as [_ Hs]. simpl in *. split; [lia|]. lia.
Qed.

Lemma EnsureWindowAtLeast_never_reaches_the_window_asked_for_witness :
  terminates_in (EnsureWindowAtLeast 0 1000 flow0) (fun _ f' => exists c',
    controllers f' !! 0 = Some c' /\ receive_window_size_ c' < 1000).
Proof.
  eapply total_mono; [apply (EnsureWindowAtLeast_never_reaches_the_window_asked_for 0
    (init 0 100 64 true None) 1000 flow0)|].
  - reflexivity.
  - split; simpl; unfold kSessionReceiveWindowLimit; lia.
  - simpl. lia.
  - intros _ f' (c' & H1 & H2 & _). exists c'. split; [exact H1|exact H2].
Defined.
