(* ===== verification/IntervalSet.v ===== *)
(** Sets of half-open intervals: [Interval] and [IntervalSet]
    (libquic/net/base/interval.h, interval_set.h), which the stream buffers use
    to remember what has arrived and what was acknowledged.  The [std::set] is
    the list of its elements in the order of the comparator; an iterator is a
    split of that list. *)

From S2P Require Import Prelude.

Module Interval.

Record Interval : Type := { imin : Z; imax : Z }.

Definition empty : Interval := {| imin := 0; imax := 0 |}.
Definition mk (a b : Z) : Interval := {| imin := a; imax := b |}.

Section Interval.
Variables i j : Interval.

Definition Empty : bool := imin i >=? imax i.
Definition ContainsValue (t : Z) : bool := (imin i <=? t) && (imax i >? t).
End Interval.

Section Pairs.
Variables i j : Interval.

Definition Contains : bool :=
  negb (Empty i) && negb (Empty j) && (imin i <=? imin j) && (imax i >=? imax j).

Definition Intersects : bool :=
  negb (Empty i) && negb (Empty j) && (imin i <? imax j) && (imax i >? imin j).

(** [bool Intersects(const Interval& i, Interval* out) const] *)
Definition Intersection : option Interval :=
  if negb Intersects then None
  else Some (mk (Z.max (imin i) (imin j)) (Z.min (imax i) (imax j))).

(** [bool Difference(const Interval& i, Interval* lo, Interval* hi) const] *)
Definition Difference : bool * Interval * Interval :=
  if Empty i then (false, empty, empty)
  else if Empty j then (false, i, empty)
  else if (imin i <? imax j) && (imin i >=? imin j) && (imax i >? imax j)
  then (true, empty, mk (imax j) (imax i))
  else if (imax i >? imin j) && (imax i <=? imax j) && (imin i <? imin j)
  then (true, mk (imin i) (imin j), empty)
  else if (imin i <? imin j) && (imax i >? imax j)
  then (true, mk (imin i) (imin j), mk (imax j) (imax i))
  else if (imin i >=? imin j) && (imax i <=? imax j)
  then (true, empty, empty)
  else (false, i, empty).

(** [IntervalComparator] *)
Definition less : bool :=
  (imin i <? imin j) || ((imin i =? imin j) && (imax i >? imax j)).
End Pairs.
End Interval.

Import Interval.

Module IntervalSet.

(** [Set intervals_] *)
Definition t : Type := list Interval.

(** [std::set::insert]: the list, and the position if it was not there. *)
Fixpoint insert (x : Interval) (l : t) : t * option nat :=
  match l with
  | [] => ([x], Some 0%nat)
  | y :: l' =>
      if less x y then (x :: l, Some 0%nat)
      else if less y x then let '(r, p) := insert x l' in (y :: r, S <$> p)
      else (l, None)
  end.

(** [std::set::upper_bound]: how many elements are not greater than [x]. *)
Fixpoint upper_bound (x : Interval) (l : t) : nat :=
  match l with
  | [] => 0
  | y :: l' => if less x y then 0%nat else S (upper_bound x l')
  end.

(** [SpanningInterval()] *)
Definition SpanningInterval (l : t) : Interval :=
  match l, last l with
  | x :: _, Some y => mk (imin x) (imax y)
  | _, _ => empty
  end.

(** The loop of [Compact]: a merged interval takes the place of the two it
    replaces, since it starts where the first of them does. *)
Fixpoint compact (prev : Interval) (l : list Interval) : list Interval :=
  match l with
  | [] => [prev]
  | x :: l' =>
      if imax prev >=? imin x
      then compact (mk (imin prev) (Z.max (imax prev) (imax x))) l'
      else prev :: compact x l'
  end.

(** [Compact(begin, end)] on the positions from [b] to [e] *)
Definition Compact (b e : nat) (l : t) : t :=
  match drop b (take e l) with
  | [] => l
  | x :: m => take b l ++ compact x m ++ drop e l
  end.

(** [void Add(const Interval<T>& interval)] *)
Definition Add (x : Interval) (l : t) : t :=
  if Empty x then l
  else
    match insert x l with
    | (_, None) => l
    | (l', Some p) => Compact (Nat.pred p) (upper_bound (mk (imax x) (imax x)) l') l'
    end.

Definition AddRange (a b : Z) (l : t) : t := Add (mk a b) l.

(** [void Add(const IntervalSet& other)] *)
Definition AddSet (other l : t) : t := fold_left (fun l x => Add x l) other l.

(** [bool Equals(const IntervalSet& other) const] *)
Fixpoint Equals (l other : t) : bool :=
  match l, other with
  | [], [] => true
  | x :: l', y :: other' =>
      if negb (imin x =? imin y) || negb (imax x =? imax y) then false else Equals l' other'
  | _, _ => false
  end.

(** The element before [upper_bound], if any. *)
Definition candidate (x : Interval) (l : t) : option Interval :=
  match upper_bound x l with
  | O => None
  | S k => l !! k
  end.

(** [bool Contains(const T& value) const], [Contains(const Interval<T>&)] *)
Definition ContainsValue (v : Z) (l : t) : bool :=
  match candidate (mk v v) l with
  | None => false
  | Some x => Interval.ContainsValue x v
  end.

Definition ContainsInterval (i : Interval) (l : t) : bool :=
  match candidate i l with
  | None => false
  | Some x => Interval.Contains x i
  end.

(** [bool Contains(const IntervalSet<T>& other) const] *)
Definition ContainsSet (other l : t) : bool :=
  if negb (Interval.Contains (SpanningInterval l) (SpanningInterval other)) then false
  else forallb (fun i => ContainsInterval i l) other.

(** [const_iterator Find(const T& value) const]: [None] is [end()]. *)
Definition Find (v : Z) (l : t) : option Interval :=
  match candidate (mk v v) l with
  | None => None
  | Some x => if Interval.ContainsValue x v then Some x else None
  end.

Definition FindInterval (probe : Interval) (l : t) : option Interval :=
  match candidate probe l with
  | None => None
  | Some x => if Interval.Contains x probe then Some x else None
  end.

(** [bool IsDisjoint(const Interval<T>& interval) const] *)
Definition IsDisjoint (i : Interval) (l : t) : bool :=
  let k := upper_bound (mk (imin i) (imin i)) l in
  if (match l !! k with Some x => imax i >? imin x | None => false end) then false
  else match k with
       | O => true
       | S k' => match l !! k' with Some x => imax x <=? imin i | None => true end
       end.

(** [void Union(const IntervalSet& other)] *)
Definition Union (other l : t) : t :=
  let l' := fold_left (fun l x => (insert x l).1) other l in
  Compact 0 (length l') l'.

(** [FindIntersectionCandidate(const Interval<T>& interval) const]: a position *)
Definition FindIntersectionCandidate (i : Interval) (l : t) : nat := Nat.pred (upper_bound i l).

(** ** Two sets walked in step *)

(** [mine] is split at the iterator; [theirs] is what is still to come. *)
Record walk : Type := { done : list Interval; mine : list Interval; theirs : list Interval }.

Fixpoint skip_mine (y : Interval) (d m : list Interval) : list Interval * list Interval :=
  match m with
  | [] => (d, [])
  | x :: m' => if imax x <=? imin y then skip_mine y (d ++ [x]) m' else (d, m)
  end.

Fixpoint skip_theirs (x : Interval) (l : list Interval) : list Interval :=
  match l with
  | [] => []
  | y :: l' => if imax y <=? imin x then skip_theirs x l' else l
  end.

(** [FindNextIntersectingPairImpl]; [erase] is what [on_hole] does with the
    intervals of mine that are passed.  [None]: the fuel ran out. *)
Fixpoint find_next (erase : bool) (fuel : nat) (w : walk) : option (bool * walk) :=
  match mine w, theirs w with
  | x :: _, y :: _ =>
      if Interval.Intersects x y then Some (true, w)
      else
        match fuel with
        | O => None
        | S fuel' =>
            let '(d, m) := skip_mine y (done w) (mine w) in
            let d := if erase then done w else d in
            match m with
            | [] => Some (false, {| done := d; mine := []; theirs := theirs w |})
            | x' :: _ =>
                match skip_theirs x' (theirs w) with
                | [] => Some (false, {| done := d; mine := if erase then [] else m; theirs := [] |})
                | y' :: t' => find_next erase fuel' {| done := d; mine := m; theirs := y' :: t' |}
                end
            end
        end
  | _, _ => Some (false, w)
  end.

(** [bool Intersects(const IntervalSet& other) const] *)
Definition Intersects (other l : t) : option bool :=
  if negb (Interval.Intersects (SpanningInterval l) (SpanningInterval other)) then Some false
  else
    match other with
    | [] => Some false
    | o :: _ =>
        let k := FindIntersectionCandidate o l in
        match drop k l with
        | [] => Some false
        | (x :: _) as m =>
            let th := drop (FindIntersectionCandidate x other) other in
            fst <$> find_next false (length l + length other)
                      {| done := take k l; mine := m; theirs := th |}
        end
    end.

(** The loop of [Difference]. *)
Fixpoint difference_loop (fuel : nat) (w : walk) : option t :=
  match fuel with
  | O => None
  | S fuel' =>
      match find_next false (length (mine w) + length (theirs w)) w with
      | None => None
      | Some (false, w') => Some (done w' ++ mine w')
      | Some (true, w') =>
          match mine w', theirs w' with
          | x :: m, y :: _ =>
              let '(_, lo, hi) := Interval.Difference x y in
              difference_loop fuel'
                {| done := done w' ++ (if Empty lo then [] else [lo]);
                   mine := (if Empty hi then [] else [hi]) ++ m;
                   theirs := theirs w' |}
          | _, _ => Some (done w' ++ mine w')
          end
      end
  end.

(** [void Difference(const IntervalSet& other)] *)
Definition Difference (other l : t) : option t :=
  if negb (Interval.Intersects (SpanningInterval l) (SpanningInterval other)) then Some l
  else
    match other, l with
    | o :: _, x :: _ =>
        let k := FindIntersectionCandidate o l in
        match drop k l with
        | [] => Some l
        | m => difference_loop (2 + 2 * (length l + length other))
                 {| done := take k l; mine := m;
                    theirs := drop (FindIntersectionCandidate x other) other |}
        end
    | _, _ => Some l
    end.

(** [void Difference(const Interval<T>& interval)] *)
Definition DifferenceInterval (i : Interval) (l : t) : option t :=
  if negb (Interval.Intersects (SpanningInterval l) i) then Some l else Difference (Add i []) l.

(** The inner loop of [Intersection]: what [i] has in common with the intervals
    from [theirs] on, and [theirs] at the last of them. *)
Fixpoint common (i : Interval) (l : list Interval) : list Interval * list Interval :=
  match l with
  | [] => ([], [])
  | y :: l' =>
      match Interval.Intersection i y with
      | None => ([], l)
      | Some z =>
          let '(zs, r) := common i l' in
          (z :: zs, match zs with [] => l | _ => r end)
      end
  end.

Fixpoint intersection_loop (fuel : nat) (w : walk) : option t :=
  match fuel with
  | O => None
  | S fuel' =>
      match find_next true (length (mine w) + length (theirs w)) w with
      | None => None
      | Some (false, w') => Some (done w' ++ mine w')
      | Some (true, w') =>
          match mine w' with
          | x :: m =>
              let '(zs, th) := common x (theirs w') in
              intersection_loop fuel' {| done := done w' ++ zs; mine := m; theirs := th |}
          | [] => Some (done w')
          end
      end
  end.

(** [void Intersection(const IntervalSet& other)] *)
Definition Intersection (other l : t) : option t :=
  if negb (Interval.Intersects (SpanningInterval l) (SpanningInterval other)) then Some []
  else
    match other with
    | [] => Some []
    | o :: _ =>
        let m := drop (FindIntersectionCandidate o l) l in
        match m with
        | [] => Some []
        | x :: _ =>
            intersection_loop (2 + length l)
              {| done := []; mine := m; theirs := drop (FindIntersectionCandidate x other) other |}
        end
    end.

(** [void Complement(const T& min, const T& max)] *)
Definition Complement (a b : Z) (l : t) : option t := Difference l (AddRange a b []).

(** [bool Valid() const] *)
Fixpoint Valid_from (prev : option Interval) (l : t) : bool :=
  match l with
  | [] => true
  | x :: l' =>
      if imin x >=? imax x then false
      else if match prev with Some p => imax p >=? imin x | None => false end then false
      else Valid_from (Some x) l'
  end.

Definition Valid (l : t) : bool := Valid_from None l.

End IntervalSet.
