(* ===== verification/Intervals.v ===== *)
(** Interval sets are sets: [Add] is union, [Difference] is set difference,
    [Contains] and [IsDisjoint] are membership and disjointness, and every
    operation keeps the intervals sorted, disjoint and not adjacent. *)

From S2P Require Import Prelude IntervalSet.
Import Interval.

(** ** The abstract set and the invariant *)

Definition within (v : Z) (x : Interval) : Prop := imin x <= v < imax x.

(** [v] is in the set. *)
Definition member (v : Z) (l : IntervalSet.t) : Prop := exists x, x ∈ l /\ within v x.

Definition nonempty (x : Interval) : Prop := imin x < imax x.
Definition before (x y : Interval) : Prop := imax x < imin y.

Record valid (l : IntervalSet.t) : Prop := {
  v_sorted : StronglySorted before l;
  v_nonempty : Forall nonempty l
}.

Lemma valid_nil : valid [].
Proof. split; constructor. Qed.

Lemma valid_cons x l : valid (x :: l) <-> nonempty x /\ Forall (before x) l /\ valid l.
Proof.
  split.
  - intros [[Hs Hx]%StronglySorted_inv [Hn Hl]%Forall_cons]. split; [done|]. split; [done|by split].
  - intros (Hn & Hx & [Hs Hl]). split; by constructor.
Qed.

Lemma valid_app a b :
  valid (a ++ b) <-> valid a /\ valid b /\ forall x y, x ∈ a -> y ∈ b -> before x y.
Proof.
  induction a as [|z a IH]; simpl.
  - split; [|tauto]. intros H. split; [apply valid_nil|]. split; [done|set_solver].
  - rewrite !valid_cons, IH, Forall_app, !Forall_forall. set_solver.
Qed.

Lemma member_nil v : ~ member v [].
Proof. intros (x & ?%elem_of_nil & _). done. Qed.

Lemma member_nil_False v : member v [] <-> False.
Proof. split; [apply member_nil|done]. Qed.

Lemma member_cons v x l : member v (x :: l) <-> within v x \/ member v l.
Proof. unfold member. set_solver. Qed.

Lemma member_app v a b : member v (a ++ b) <-> member v a \/ member v b.
Proof. unfold member. set_solver. Qed.

Ltac member_simpl :=
  repeat match goal with
         | |- context [member ?v []] => rewrite (member_nil_False v)
         | _ => rewrite member_app || rewrite member_cons
         end.

Lemma Valid_from_spec l : forall prev,
  IntervalSet.Valid_from prev l = true <->
  valid l /\ match prev with Some p => Forall (before p) (take 1 l) | None => True end.
Proof.
  induction l as [|x l IH]; intros prev; simpl.
  { split; [|done]. intros _. split; [apply valid_nil|]. by destruct prev. }
  rewrite valid_cons.
  destruct (Z.geb_spec (imin x) (imax x)); [split; [done|unfold nonempty; lia]|].
  assert (Forall (before x) (take 1 l) /\ valid l <-> Forall (before x) l /\ valid l) as Hchain.
  { split; [|by intros [Hl ?]; split; [apply Forall_take|]].
    intros [Hf Hv]. split; [|done]. destruct l as [|y l']; [done|].
    apply Forall_cons in Hf as [Hf _]. apply valid_cons in Hv as (Hy & Hl & _).
    constructor; [done|]. eapply Forall_impl; [exact Hl|].
    unfold before, nonempty in *. simpl. lia. }
  assert (nonempty x) by (unfold nonempty; lia).
  destruct prev as [p|].
  - destruct (Z.geb_spec (imax p) (imin x)) as [Hge|Hlt].
    + split; [done|]. rewrite Forall_cons. unfold before. lia.
    + assert (before p x) by (unfold before; lia). rewrite IH, Forall_cons, Forall_nil. tauto.
  - rewrite IH. tauto.
Qed.

(** The run-time check is the invariant. *)
Lemma Valid_spec l : IntervalSet.Valid l = true <-> valid l.
Proof. unfold IntervalSet.Valid. rewrite Valid_from_spec. tauto. Qed.

(** ** The order of the set *)

Definition lt (x y : Interval) : Prop := less x y = true.

Ltac interval_arith :=
  unfold lt, less, before, nonempty, within, Empty, Interval.ContainsValue, Interval.Contains,
    Interval.Intersects, mk in *; simpl in *;
  repeat match goal with
         | x : Interval |- _ => destruct x
         end; simpl in *;
  rewrite ?Z.gtb_ltb, ?Z.geb_leb in *; simpl in *.

Lemma less_spec x y :
  less x y = true <-> imin x < imin y \/ imin x = imin y /\ imax y < imax x.
Proof. unfold less. lia. Qed.

Lemma less_false x y :
  less x y = false <-> imin y < imin x \/ imin x = imin y /\ imax x <= imax y.
Proof. unfold less. lia. Qed.

Lemma less_neither x y : less x y = false -> less y x = false -> x = y.
Proof. rewrite !less_false. destruct x, y; simpl. intros. f_equal; lia. Qed.

Lemma lt_trans x y z : lt x y -> lt y z -> lt x z.
Proof. unfold lt. rewrite !less_spec. lia. Qed.

Lemma valid_lt l : valid l -> StronglySorted lt l.
Proof.
  induction l as [|x l IH]; [constructor|]. intros (Hn & Hx & Hv)%valid_cons.
  constructor; [by apply IH|]. eapply Forall_impl; [exact Hx|].
  intros y. unfold before, lt, nonempty in *. rewrite less_spec. lia.
Qed.

Lemma insert_spec x l : StronglySorted lt l ->
  match IntervalSet.insert x l with
  | (_, None) => x ∈ l
  | (l', Some p) =>
      exists a b, l = a ++ b /\ l' = a ++ x :: b /\ p = length a /\
        Forall (fun y => lt y x) a /\ Forall (lt x) b
  end.
Proof.
  induction l as [|y l IH]; simpl; intros Hs.
  { by exists [], []. }
  apply StronglySorted_inv in Hs as [Hs Hy].
  destruct (less x y) eqn:Hxy.
  { exists [], (y :: l). split; [done|]. split; [done|]. split; [done|]. split; [done|].
    constructor; [done|]. eapply Forall_impl; [exact Hy|]. intros z. by apply lt_trans. }
  destruct (less y x) eqn:Hyx.
  - specialize (IH Hs). destruct (IntervalSet.insert x l) as [r [p|]]; simpl.
    + destruct IH as (a & b & -> & -> & -> & Ha & Hb). exists (y :: a), b.
      repeat split; [|done]. by constructor.
    + by apply list_elem_of_further.
  - rewrite (less_neither x y Hxy Hyx). apply list_elem_of_here.
Qed.

Lemma upper_bound_spec x l : StronglySorted lt l ->
  exists a b, l = a ++ b /\ IntervalSet.upper_bound x l = length a /\
    Forall (fun y => less x y = false) a /\ Forall (lt x) b.
Proof.
  induction l as [|y l IH]; simpl; intros Hs.
  { by exists [], []. }
  apply StronglySorted_inv in Hs as [Hs Hy].
  destruct (less x y) eqn:Hxy.
  - exists [], (y :: l). split; [done|]. split; [done|]. split; [done|].
    constructor; [done|]. eapply Forall_impl; [exact Hy|]. intros z. by apply lt_trans.
  - destruct (IH Hs) as (a & b & -> & -> & Ha & Hb). exists (y :: a), b.
    split; [done|]. split; [done|]. split; [by constructor|done].
Qed.

Lemma lt_sorted_imin l : StronglySorted lt l -> StronglySorted (fun x y => imin x <= imin y) l.
Proof.
  induction 1; constructor; [done|]. eapply Forall_impl; [eassumption|].
  intros y. unfold lt. rewrite less_spec. lia.
Qed.

(** ** Compacting *)

Record compacted (prev : Interval) (l r : list Interval) : Prop := {
  cp_valid : valid r;
  cp_member : forall v, member v r <-> member v (prev :: l);
  cp_from : Forall (fun y => imin prev <= imin y) r;
  cp_below : forall B, Forall (fun y => imax y < B) (prev :: l) -> Forall (fun y => imax y < B) r
}.

Lemma compact_spec l : forall prev,
  StronglySorted (fun x y => imin x <= imin y) (prev :: l) -> Forall nonempty (prev :: l) ->
  compacted prev l (IntervalSet.compact prev l).
Proof.
  induction l as [|x l IH]; intros prev Hs Hn; simpl.
  { split; [| done | | by intros B].
    - apply valid_cons. split; [by apply Forall_cons in Hn as [? _]|]. split; [done|apply valid_nil].
    - constructor; [lia|done]. }
  apply StronglySorted_inv in Hs as [Hs [Hpx Hpl]%Forall_cons].
  apply Forall_cons in Hn as [Hp [Hx Hl]%Forall_cons].
  pose proof (StronglySorted_inv Hs) as [Hsl Hxl]. unfold nonempty in Hp, Hx.
  destruct (Z.geb_spec (imax prev) (imin x)) as [Hge|Hlt].
  - destruct (IH (mk (imin prev) (Z.max (imax prev) (imax x)))) as [Hv Hm Hf Hb].
    { by constructor. }
    { constructor; [unfold nonempty; simpl; lia|done]. }
    split; [done| | done |].
    + intros v. rewrite Hm, !member_cons. unfold within. simpl.
      assert (imin prev <= v < Z.max (imax prev) (imax x) <->
              imin prev <= v < imax prev \/ imin x <= v < imax x) by lia. tauto.
    + intros B. rewrite !Forall_cons. intros (HB1 & HB2 & HB3). apply Hb.
      constructor; [simpl; lia|done].
  - destruct (IH x Hs) as [Hv Hm Hf Hb]; [by constructor|]. split.
    + apply valid_cons. split; [done|]. split; [|done]. eapply Forall_impl; [exact Hf|].
      unfold before. simpl. lia.
    + intros v. rewrite member_cons, Hm, !member_cons. tauto.
    + constructor; [lia|]. eapply Forall_impl; [exact Hf|]. simpl. lia.
    + intros B. rewrite Forall_cons. intros [HB1 HB2]. constructor; [done|by apply Hb].
Qed.

Lemma Compact_at a x m b :
  IntervalSet.Compact (length a) (length a + S (length m)) (a ++ x :: m ++ b)
  = a ++ IntervalSet.compact x m ++ b.
Proof.
  unfold IntervalSet.Compact.
  assert (a ++ x :: m ++ b = (a ++ x :: m) ++ b) as E by (by rewrite <- app_assoc).
  replace (length a + S (length m))%nat with (length (a ++ x :: m)) by (rewrite length_app; simpl; lia).
  rewrite E, take_app_length, drop_app_length, drop_app_length. rewrite <- E, take_app_length.
  done.
Qed.

(** ** Adding *)

(** A split of a valid list around the place of [x]: what starts later than [x]
    ends, and the rest. *)
Lemma Add_split x a b u :
  nonempty x -> valid (a ++ b) -> Forall (fun y => lt y x) a -> Forall (lt x) b ->
  u = IntervalSet.upper_bound (mk (imax x) (imax x)) (a ++ x :: b) ->
  exists b1 b2, b = b1 ++ b2 /\ u = (length a + S (length b1))%nat /\
    Forall (fun y => imin y <= imax x) b1 /\ Forall (fun y => imax x < imin y) b2.
Proof.
  intros Hn Hv Ha Hb ->.
  apply valid_app in Hv as (Hva & Hvb & _).
  destruct (upper_bound_spec (mk (imax x) (imax x)) b (valid_lt b Hvb)) as (b1 & b2 & -> & Hu & H1 & H2).
  exists b1, b2. split; [done|].
  assert (forall y, less (mk (imax x) (imax x)) y = false -> imin y <= imax x) as Hle
    by (intros y; rewrite less_false; simpl; lia).
  split; [|split].
  - clear Hva Hvb. induction a as [|y a IH]; simpl.
    + assert (less (mk (imax x) (imax x)) x = false) as ->
        by (rewrite less_false; unfold nonempty in Hn; simpl; lia). by rewrite Hu.
    + apply Forall_cons in Ha as [Hy Ha]. unfold lt in Hy. rewrite less_spec in Hy.
      assert (less (mk (imax x) (imax x)) y = false) as ->
        by (rewrite less_false; unfold nonempty in Hn; simpl; lia). by rewrite IH.
  - eapply Forall_impl; [exact H1|]. exact Hle.
  - apply valid_app in Hvb as (_ & [_ Hnb] & _). rewrite Forall_forall in *. intros y Hy.
    specialize (H2 y Hy). specialize (Hnb y Hy). unfold lt, nonempty in *.
    rewrite less_spec in H2. simpl in H2. lia.
Qed.

(** Compacting from [p] on: [x] and what it reaches follow [p]. *)
Lemma compact_in_place a p m b :
  valid a -> valid b -> (forall y, y ∈ a -> before y p) ->
  StronglySorted (fun x y => imin x <= imin y) (p :: m) -> Forall nonempty (p :: m) ->
  (forall y, y ∈ b -> Forall (fun z => imax z < imin y) (p :: m)) ->
  valid (a ++ IntervalSet.compact p m ++ b) /\
  forall v, member v (a ++ IntervalSet.compact p m ++ b) <-> member v (a ++ p :: m ++ b).
Proof.
  intros Ha Hb Hap Hs Hn Hmb. destruct (compact_spec m p Hs Hn) as [Hv Hm Hf Hbel].
  split.
  - apply valid_app. split; [done|]. split.
    + apply valid_app. split; [done|]. split; [done|]. intros x y Hx Hy.
      specialize (Hbel _ (Hmb y Hy)). rewrite Forall_forall in Hbel. by apply Hbel.
    + intros x y Hx [Hy|Hy]%elem_of_app.
      * rewrite Forall_forall in Hf. specialize (Hf y Hy). specialize (Hap x Hx).
        unfold before in *. simpl in *. lia.
      * specialize (Hmb y Hy). apply Forall_cons in Hmb as [Hpy _]. specialize (Hap x Hx).
        apply Forall_cons in Hn as [Hp _]. unfold before, nonempty in *. lia.
  - intros v. rewrite !member_app, Hm, !member_cons, member_app. tauto.
Qed.

Lemma Forall_nonempty l : valid l -> forall y, y ∈ l -> nonempty y.
Proof. intros [_ H] y Hy. rewrite Forall_forall in H. by apply H. Qed.

Lemma lt_chain a x b :
  StronglySorted lt (a ++ b) -> Forall (fun y => lt y x) a -> Forall (lt x) b ->
  StronglySorted lt (a ++ x :: b).
Proof.
  induction a as [|y a IH]; simpl; intros Hs Ha Hb; [by constructor|].
  apply StronglySorted_inv in Hs as [Hs Hy]. apply Forall_cons in Ha as [Hyx Ha].
  constructor; [by apply IH|]. apply Forall_app in Hy as [Hy1 Hy2].
  apply Forall_app. split; [done|]. by constructor.
Qed.

Lemma StronglySorted_middle {A} (R : A -> A -> Prop) a m b :
  StronglySorted R (a ++ m ++ b) -> StronglySorted R m.
Proof.
  induction a as [|y a IH]; simpl.
  - induction m as [|y m IHm]; simpl; [constructor|].
    intros [Hs [Hy _]%Forall_app]%StronglySorted_inv. constructor; auto.
  - intros [Hs _]%StronglySorted_inv. auto.
Qed.

Lemma Add_spec x l : valid l ->
  valid (IntervalSet.Add x l) /\
  forall v, member v (IntervalSet.Add x l) <-> within v x \/ member v l.
Proof.
  intros Hv. unfold IntervalSet.Add, Empty.
  destruct (Z.geb_spec (imin x) (imax x)) as [Hge|Hlt].
  { split; [done|]. intros v. unfold within. assert (~ imin x <= v < imax x) by lia. tauto. }
  pose proof (insert_spec x l (valid_lt l Hv)) as Hi.
  destruct (IntervalSet.insert x l) as [l' [p|]].
  2:{ split; [done|]. intros v. split; [tauto|]. intros [H|H]; [|done]. by exists x. }
  destruct Hi as (a & b & -> & -> & -> & Ha & Hb).
  assert (StronglySorted (fun x y => imin x <= imin y) (a ++ x :: b)) as Hs
    by (apply lt_sorted_imin, lt_chain; [by apply valid_lt|done|done]).
  destruct (Add_split x a b _ Hlt Hv Ha Hb eq_refl) as (b1 & b2 & -> & -> & H1 & H2).
  pose proof (Forall_nonempty _ Hv) as Hne.
  apply valid_app in Hv as (Hva & (Hv1 & Hv2 & H12)%valid_app & Hab).
  assert (forall y, y ∈ b2 -> Forall (fun z => imax z < imin y) (x :: b1)) as Hb2.
  { intros y Hy. rewrite Forall_forall in H2. constructor; [by apply H2|].
    apply Forall_forall. intros z Hz. by apply H12. }
  destruct a as [|q a0 _] using rev_ind.
  - pose proof (Compact_at [] x b1 b2) as E. simpl in *. rewrite E. clear E.
    destruct (compact_in_place [] x b1 b2) as [HV HM]; try done.
    + set_solver.
    + apply (StronglySorted_middle _ [] (x :: b1) b2 Hs).
    + constructor; [done|]. apply Forall_forall. set_solver.
    + simpl in HM. split; [done|]. intros v. rewrite HM, member_cons. tauto.
  - rewrite length_app. simpl length. replace (Nat.pred (length a0 + 1)) with (length a0) by lia.
    replace (length a0 + 1 + S (length b1))%nat with (length a0 + S (length (x :: b1)))%nat by (simpl; lia).
    rewrite <- app_assoc in *. pose proof (Compact_at a0 q (x :: b1) b2) as E. simpl in *.
    rewrite E. clear E.
    apply valid_app in Hva as (Hva0 & Hvq & Haq).
    destruct (compact_in_place a0 q (x :: b1) b2) as [HV HM]; try done.
    + set_solver.
    + apply (StronglySorted_middle _ a0 (q :: x :: b1) b2 Hs).
    + constructor; [apply Hne; set_solver|]. constructor; [done|]. apply Forall_forall. set_solver.
    + intros y Hy. constructor; [|by apply Hb2]. apply Hab; set_solver.
    + simpl in HM. split; [done|]. intros v. rewrite HM. member_simpl. tauto.
Qed.

Lemma AddSet_spec other : forall l, valid l ->
  valid (IntervalSet.AddSet other l) /\
  forall v, member v (IntervalSet.AddSet other l) <-> member v other \/ member v l.
Proof.
  induction other as [|x other IH]; intros l Hv; simpl.
  { split; [done|]. intros v. member_simpl. tauto. }
  destruct (Add_spec x l Hv) as [Hv' Hm']. destruct (IH _ Hv') as [HV HM].
  split; [done|]. intros v. rewrite HM, Hm'. member_simpl. tauto.
Qed.

(** ** Union *)

Lemma std_insert_sorted x l : StronglySorted lt l -> Forall nonempty l -> nonempty x ->
  StronglySorted lt (IntervalSet.insert x l).1 /\ Forall nonempty (IntervalSet.insert x l).1 /\
  forall v, member v (IntervalSet.insert x l).1 <-> within v x \/ member v l.
Proof.
  intros Hs Hn Hx. pose proof (insert_spec x l Hs) as Hi.
  assert (snd (IntervalSet.insert x l) = None -> (IntervalSet.insert x l).1 = l) as Hsame.
  { clear. induction l as [|y l IH]; simpl; [done|].
    destruct (less x y); [done|]. destruct (less y x); [|done].
    destruct (IntervalSet.insert x l) as [r [p|]]; simpl in *; [done|]. intros _. by rewrite IH. }
  destruct (IntervalSet.insert x l) as [l' [p|]]; simpl in *.
  - destruct Hi as (a & b & -> & -> & _ & Ha & Hb). apply Forall_app in Hn as [Hna Hnb].
    split; [by apply lt_chain|]. split; [apply Forall_app; split; [done|by constructor]|].
    intros v. member_simpl. tauto.
  - rewrite (Hsame eq_refl). split; [done|]. split; [done|]. intros v. split; [tauto|].
    intros [H|H]; [by exists x|done].
Qed.

Lemma insert_all other : forall l, StronglySorted lt l -> Forall nonempty l -> Forall nonempty other ->
  let l' := fold_left (fun l x => (IntervalSet.insert x l).1) other l in
  StronglySorted lt l' /\ Forall nonempty l' /\ forall v, member v l' <-> member v other \/ member v l.
Proof.
  induction other as [|x other IH]; intros l Hs Hn Ho; simpl.
  { split; [done|]. split; [done|]. intros v. member_simpl. tauto. }
  apply Forall_cons in Ho as [Hx Ho].
  destruct (std_insert_sorted x l Hs Hn Hx) as (Hs' & Hn' & Hm').
  destruct (IH _ Hs' Hn' Ho) as (HS & HN & HM). simpl in *.
  split; [done|]. split; [done|]. intros v. rewrite HM, Hm'. member_simpl. tauto.
Qed.

Lemma Union_spec other l : valid l -> valid other ->
  valid (IntervalSet.Union other l) /\
  forall v, member v (IntervalSet.Union other l) <-> member v other \/ member v l.
Proof.
  intros Hl Ho. unfold IntervalSet.Union.
  destruct (insert_all other l (valid_lt l Hl) (v_nonempty l Hl) (v_nonempty other Ho))
    as (Hs & Hn & Hm); simpl in *.
  destruct (fold_left _ other l) as [|p m]; [split; [apply valid_nil|exact Hm]|].
  pose proof (Compact_at [] p m []) as E. simpl in E. rewrite !app_nil_r in E. simpl. rewrite E.
  destruct (compact_spec m p (lt_sorted_imin _ Hs) Hn) as [HV HM _ _].
  split; [done|]. intros v. by rewrite HM, Hm.
Qed.

(** ** Queries *)

(** Where a point, or an interval that starts there, is looked for. *)
Lemma upper_bound_valid i l : valid l -> imax i >= imin i ->
  exists a b, l = a ++ b /\ IntervalSet.upper_bound i l = length a /\
    Forall (fun y => less i y = false) a /\ Forall (fun y => imin y <= imin i) a /\
    Forall (lt i) b /\ Forall (fun y => imin i <= imin y) b.
Proof.
  intros Hv Hi. destruct (upper_bound_spec i l (valid_lt l Hv)) as (a & b & -> & Hu & Ha & Hb).
  exists a, b. split; [done|]. split; [done|]. split; [done|]. split; [|split; [done|]].
  - eapply Forall_impl; [exact Ha|]. intros y. rewrite less_false. lia.
  - eapply Forall_impl; [exact Hb|]. intros y. unfold lt. rewrite less_spec. lia.
Qed.

Lemma candidate_spec i l : valid l -> imax i >= imin i ->
  exists a b, l = a ++ b /\ IntervalSet.candidate i l = last a /\
    Forall (fun y => imin y <= imin i) a /\ Forall (lt i) b.
Proof.
  intros Hv Hi. destruct (upper_bound_valid i l Hv Hi) as (a & b & -> & Hu & _ & Ha & Hb & _).
  exists a, b. split; [done|]. split; [|done]. unfold IntervalSet.candidate. rewrite Hu.
  destruct a as [|q a0 _] using rev_ind; [done|].
  rewrite length_app, Nat.add_1_r, last_snoc, <- app_assoc. by apply list_lookup_middle.
Qed.

Lemma last_covers a b v : valid (a ++ b) -> Forall (fun y => v < imin y) b ->
  Forall (fun y => imin y <= v) a ->
  (member v (a ++ b) <-> match last a with Some x => within v x | None => False end).
Proof.
  intros Hv Hb Ha. assert (~ member v b) as Hnb.
  { intros (y & Hy & Hw). rewrite Forall_forall in Hb. specialize (Hb y Hy).
    unfold within in Hw. simpl in Hb. lia. }
  destruct a as [|q a0 _] using rev_ind; [simpl; by split|].
  rewrite last_snoc. member_simpl. split; [|tauto].
  intros [[(y & Hy & Hw)|[?|[]]]|?]; [|done|done].
  rewrite <- app_assoc in Hv. apply valid_app in Hv as (_ & _ & Hyq).
  assert (before y q) by (apply Hyq; set_solver).
  apply Forall_app in Ha as [_ [Hq _]%Forall_cons]. unfold before, within in *. lia.
Qed.

Lemma ContainsValue_spec v l : valid l -> (IntervalSet.ContainsValue v l = true <-> member v l).
Proof.
  intros Hv. destruct (candidate_spec (mk v v) l Hv) as (a & b & -> & Hc & Ha & Hb); [simpl; lia|].
  unfold IntervalSet.ContainsValue. rewrite Hc, (last_covers a b v Hv).
  - destruct (last a); [|done]. unfold Interval.ContainsValue, within. lia.
  - pose proof (Forall_nonempty _ Hv) as Hn. rewrite Forall_forall in *. intros y Hy.
    specialize (Hb y Hy). specialize (Hn y). unfold lt, nonempty in *. rewrite less_spec in Hb.
    simpl in *. assert (y ∈ a ++ b) by set_solver. specialize (Hn H). lia.
  - exact Ha.
Qed.

(** Nothing starts where an interval of the set ends. *)
Lemma end_not_member x l : valid l -> x ∈ l -> ~ member (imax x) l.
Proof.
  intros Hv [a [b ->]]%list_elem_of_split (z & Hz & Hw).
  apply valid_app in Hv as (_ & (Hx & Hxb & _)%valid_cons & Hax).
  rewrite Forall_forall in Hxb. unfold within, nonempty in *.
  apply elem_of_app in Hz as [Hz|[->|Hz]%elem_of_cons]; [| lia |].
  - assert (before z x) by (apply Hax; set_solver). unfold before in *. lia.
  - specialize (Hxb z Hz). unfold before in *. lia.
Qed.

Lemma ContainsInterval_spec i l : valid l -> nonempty i ->
  (IntervalSet.ContainsInterval i l = true <-> forall v, within v i -> member v l).
Proof.
  intros Hv Hi. unfold nonempty in Hi.
  destruct (candidate_spec i l Hv) as (a & b & -> & Hc & Ha & Hb); [lia|].
  unfold IntervalSet.ContainsInterval. rewrite Hc. split.
  - destruct (last a) as [x|] eqn:El; [|done]. apply last_Some in El as [a0 ->].
    unfold Interval.Contains, Empty. intros H v Hw. exists x.
    split; [set_solver|]. unfold within in *. lia.
  - intros H.
    destruct (H (imin i)) as (x & Hx & Hw); [unfold within; lia|].
    assert (imax i <= imax x) as Hle.
    { destruct (Z.le_gt_cases (imax i) (imax x)); [done|]. exfalso.
      apply (end_not_member x _ Hv Hx), H. unfold within in *. lia. }
    unfold within in Hw. apply elem_of_app in Hx as [Hx|Hx].
    2:{ rewrite Forall_forall in Hb. specialize (Hb x Hx). unfold lt in Hb.
        rewrite less_spec in Hb. lia. }
    apply list_elem_of_split in Hx as (a1 & a2 & ->).
    destruct a2 as [|q a2 _] using rev_ind.
    + rewrite last_snoc. unfold Interval.Contains, Empty. lia.
    + exfalso. apply valid_app in Hv as ((_ & (_ & Hq & _)%valid_cons & _)%valid_app & _).
      apply Forall_app in Ha as [_ [_ [_ [Hqi _]%Forall_cons]%Forall_app]%Forall_cons].
      apply Forall_app in Hq as [_ [Hq _]%Forall_cons]. unfold before in Hq. lia.
Qed.

Lemma IsDisjoint_spec i l : valid l -> nonempty i ->
  (IntervalSet.IsDisjoint i l = true <-> forall v, within v i -> ~ member v l).
Proof.
  intros Hv Hi. unfold nonempty in Hi.
  destruct (upper_bound_valid (mk (imin i) (imin i)) l Hv)
    as (a & b & -> & Hu & _ & Ha & Hlt & _); [simpl; lia|].
  pose proof (Forall_nonempty _ Hv) as Hn.
  assert (forall y, y ∈ b -> imin i < imin y /\ imin y < imax y) as Hb.
  { intros y Hy. rewrite Forall_forall in Hlt. specialize (Hlt y Hy). unfold lt in Hlt.
    rewrite less_spec in Hlt. simpl in Hlt. specialize (Hn y). unfold nonempty in Hn.
    assert (y ∈ a ++ b) as Hy' by set_solver. specialize (Hn Hy'). lia. }
  unfold IntervalSet.IsDisjoint. rewrite Hu. cbv zeta.
  replace ((a ++ b) !! length a) with (b !! 0%nat)
    by (rewrite lookup_app_r, Nat.sub_diag; [done|lia]).
  assert (match b !! 0%nat with Some x => imax i >? imin x | None => false end = false <->
          forall v, within v i -> ~ member v b) as Hright.
  { destruct b as [|y b]; simpl; [split; [|done]; intros _ v _; apply member_nil|].
    rewrite Z.gtb_ltb, Z.ltb_ge. split.
    - intros Hle v Hw (z & Hz & Hwz). apply valid_app in Hv as (_ & (_ & Hy & _)%valid_cons & _).
      rewrite Forall_forall in Hy. specialize (Hy z). unfold before, within in *.
      specialize (Hb y (list_elem_of_here _ _)).
      apply elem_of_cons in Hz as [->|Hz]; [lia|]. specialize (Hy Hz). lia.
    - intros H. destruct (Z.le_gt_cases (imax i) (imin y)); [done|]. exfalso.
      specialize (Hb y (list_elem_of_here _ _)).
      apply (H (imin y)); [unfold within; lia|]. exists y. unfold within. split; [left|lia]. }
  assert (match length a with
          | O => true
          | S k' => match (a ++ b) !! k' with Some x => imax x <=? imin i | None => true end
          end = true <-> forall v, within v i -> ~ member v a) as Hleft.
  { destruct a as [|q a0 _] using rev_ind; [split; [|done]; intros _ v _; apply member_nil|].
    rewrite length_app, Nat.add_1_r, <- app_assoc.
    assert ((a0 ++ [q] ++ b) !! length a0 = Some q) as -> by (by apply list_lookup_middle).
    rewrite Z.leb_le. rewrite <- app_assoc in Hv. apply valid_app in Hv as (_ & _ & Hbef).
    apply Forall_app in Ha as [_ [Hq _]%Forall_cons]. simpl in Hq.
    assert (nonempty q) as Hnq by (apply Hn; set_solver). unfold nonempty in Hnq. split.
    - intros Hle v Hw (z & Hz & Hwz). unfold within in *.
      apply elem_of_app in Hz as [Hz|Hz%list_elem_of_singleton]; [|subst; lia].
      assert (before z q) by (apply Hbef; set_solver). unfold before in *. lia.
    - intros H. destruct (Z.le_gt_cases (imax q) (imin i)); [done|]. exfalso.
      apply (H (imin i)); [unfold within; lia|]. exists q. unfold within. split; [set_solver|lia]. }
  destruct (match b !! 0%nat with Some x => _ | None => false end).
  - split; [done|]. intros H. exfalso.
    assert (true = false) as HF; [|done]. apply Hright. intros v Hw Hm. apply (H v Hw). member_simpl. tauto.
  - rewrite Hleft. assert (forall v, within v i -> ~ member v b) as Hr by (by apply Hright).
    split; intros H v Hw; [member_simpl; intros [?|?]; [by apply (H v Hw)|by apply (Hr v Hw)]|].
    intros Hm. apply (H v Hw). member_simpl. tauto.
Qed.

(** ** Two sets in step *)

Import IntervalSet.

Definition disjoint (l m : list Interval) : Prop := forall v, member v l -> ~ member v m.

Lemma disjoint_apart l m :
  (forall x y, x ∈ l -> y ∈ m -> imax x <= imin y \/ imax y <= imin x) -> disjoint l m.
Proof.
  intros H v (x & Hx & Hwx) (y & Hy & Hwy). specialize (H x y Hx Hy). unfold within in *. lia.
Qed.

Lemma disjoint_app_l a b m : disjoint (a ++ b) m <-> disjoint a m /\ disjoint b m.
Proof.
  unfold disjoint. split.
  - intros H. split; intros v Hv; apply H; member_simpl; tauto.
  - intros [Ha Hb] v. member_simpl. intros [?|?]; auto.
Qed.

Lemma disjoint_app_r l a b : disjoint l (a ++ b) <-> disjoint l a /\ disjoint l b.
Proof.
  unfold disjoint. split.
  - intros H. split; intros v Hv Hm; apply (H v Hv); member_simpl; tauto.
  - intros [Ha Hb] v Hv. member_simpl. intros [?|?]; [by apply (Ha v)|by apply (Hb v)].
Qed.

Definition size (w : walk) : nat := (length (mine w) + length (theirs w))%nat.

Record walking (w : walk) : Prop := {
  k_mine : valid (done w ++ mine w);
  k_theirs : valid (theirs w)
}.

Definition heads_meet (w : walk) : bool :=
  match mine w, theirs w with x :: _, y :: _ => Interval.Intersects x y | _, _ => false end.

Lemma skip_mine_spec y m : forall d, exists s m',
  skip_mine y d m = (d ++ s, m') /\ m = s ++ m' /\ Forall (fun x => imax x <= imin y) s /\
  match m' with x :: _ => imin y < imax x | [] => True end.
Proof.
  induction m as [|x m IH]; intros d; simpl; [exists [], []; by rewrite app_nil_r|].
  destruct (Z.leb_spec (imax x) (imin y)).
  - destruct (IH (d ++ [x])) as (s & m' & -> & -> & Hs & Hm). exists (x :: s), m'.
    rewrite <- app_assoc. split; [done|]. split; [done|]. split; [by constructor|done].
  - exists [], (x :: m). by rewrite app_nil_r.
Qed.

Lemma skip_theirs_spec x l : exists p,
  l = p ++ skip_theirs x l /\ Forall (fun y => imax y <= imin x) p /\
  match skip_theirs x l with y :: _ => imin x < imax y | [] => True end.
Proof.
  induction l as [|y l IH]; simpl; [by exists []|].
  destruct (Z.leb_spec (imax y) (imin x)).
  - destruct IH as (p & E & Hp & Hh). exists (y :: p). split; [simpl; by f_equal|].
    split; [by constructor|done].
  - by exists [].
Qed.

(** What passing over intervals that do not meet does. *)
Record passes (erase : bool) (w : walk) (found : bool) (w' : walk) (s p : list Interval) : Prop := {
  p_mine : mine w = s ++ mine w';
  p_theirs : theirs w = p ++ theirs w';
  p_done : done w' = if erase then done w else done w ++ s;
  p_skipped : disjoint s (theirs w);
  p_passed : disjoint p (mine w');
  p_found : if found then heads_meet w' = true else mine w' = [] \/ theirs w' = [];
  p_erased : erase = true -> found = false -> theirs w <> [] -> mine w' = [];
  p_progress : found = true -> w' = w \/ (size w' < size w)%nat /\ heads_meet w = false
}.

Lemma head_first x m z : valid (x :: m) -> z ∈ x :: m -> imin x <= imin z.
Proof.
  intros (Hn & Hx & _)%valid_cons [->|Hz]%elem_of_cons; [lia|].
  rewrite Forall_forall in Hx. specialize (Hx z Hz). unfold before, nonempty in *. lia.
Qed.

Lemma passes_stay erase w (found : bool) :
  (if found then heads_meet w = true else mine w = [] \/ theirs w = []) ->
  passes erase w found w [] [].
Proof.
  intros H. split; simpl; auto; [by destruct erase; rewrite ?app_nil_r|..];
    try intros v []%member_nil.
  intros _ -> Hne. by destruct H.
Qed.

Lemma passes_trans (erase : bool) w w1 (found : bool) w2 s1 p1 s2 p2 :
  mine w = s1 ++ mine w1 -> theirs w = p1 ++ theirs w1 ->
  done w1 = (if erase then done w else done w ++ s1) ->
  disjoint s1 (theirs w) -> disjoint p1 (mine w1) -> heads_meet w = false ->
  (size w1 < size w)%nat -> theirs w1 <> [] ->
  passes erase w1 found w2 s2 p2 -> passes erase w found w2 (s1 ++ s2) (p1 ++ p2).
Proof.
  intros Em Et Ed Hs1 Hp1 Hh Hsz Hne [Em2 Et2 Ed2 Hs2 Hp2 Hf He Hpr]. split.
  - by rewrite Em, Em2, app_assoc.
  - by rewrite Et, Et2, app_assoc.
  - rewrite Ed2, Ed. destruct erase; [done|by rewrite app_assoc].
  - rewrite disjoint_app_l. split; [done|]. rewrite Et, disjoint_app_r. split; [|done].
    intros v Hv Hp. apply (Hp1 v Hp). rewrite Em2. member_simpl. tauto.
  - rewrite disjoint_app_l. split; [|done]. rewrite Em2 in Hp1. by apply disjoint_app_r in Hp1 as [_ ?].
  - done.
  - auto.
  - intros Hfound. right. split; [|done]. destruct (Hpr Hfound) as [-> | [? _]]; lia.
Qed.

(** One turn of the loop: it passes over at least one interval. *)
Lemma turn_spec x m y t d :
  walking {| done := d; mine := x :: m; theirs := y :: t |} -> Interval.Intersects x y = false ->
  exists s m', skip_mine y d (x :: m) = (d ++ s, m') /\ x :: m = s ++ m' /\
    disjoint s (y :: t) /\
    match m' with
    | [] => True
    | x' :: _ =>
        exists p, y :: t = p ++ skip_theirs x' (y :: t) /\ disjoint p m' /\
          (length m' + length (skip_theirs x' (y :: t)) < S (length m) + S (length t))%nat
    end.
Proof.
  intros [Hm Ht] Hxy; cbn [done mine theirs] in *. apply valid_app in Hm as (_ & Hm & _).
  destruct (skip_mine_spec y (x :: m) d) as (s & m' & Es & Em & Hs & Hh).
  exists s, m'. split; [done|]. split; [done|]. split.
  { apply disjoint_apart. intros a b Ha Hb. left. rewrite Forall_forall in Hs.
    specialize (Hs a Ha). pose proof (head_first y t b Ht Hb). simpl in Hs. lia. }
  destruct m' as [|x' m']; [done|].
  destruct (skip_theirs_spec x' (y :: t)) as (p & Ep & Hp & Hh'). exists p.
  split; [done|]. split.
  { assert (valid (x' :: m')) as Hv' by (rewrite Em in Hm; apply valid_app in Hm; tauto).
    apply disjoint_apart. intros a b Ha Hb. left. rewrite Forall_forall in Hp.
    specialize (Hp a Ha). pose proof (head_first x' m' b Hv' Hb). simpl in Hp. lia. }
  pose proof (f_equal length Em) as Lm. pose proof (f_equal length Ep) as Lp.
  rewrite length_app in Lm, Lp. cbn [length] in *.
  destruct s as [|x0 s]; [|cbn [length] in Lm; lia]. destruct p as [|y0 p]; [|cbn [length] in Lp; lia].
  exfalso. cbn [app] in Em, Ep. injection Em as <- <-. rewrite <- Ep in Hh'.
  apply valid_cons in Hm as [Hx _]. apply valid_cons in Ht as [Hy _].
  unfold nonempty, Interval.Intersects, Empty in *. lia.
Qed.

Lemma walking_mid (erase : bool) d s m p t :
  walking {| done := d; mine := s ++ m; theirs := p ++ t |} ->
  walking {| done := if erase then d else d ++ s; mine := m; theirs := t |}.
Proof.
  intros [Hm Ht]; simpl in *. apply valid_app in Ht as (_ & Ht & _). split; [|done]; simpl.
  destruct erase; [|by rewrite <- app_assoc].
  apply valid_app in Hm as (Hd & (_ & Hm & _)%valid_app & Hdm). apply valid_app.
  split; [done|]. split; [done|]. intros a b Ha Hb. apply Hdm; set_solver.
Qed.

Lemma find_next_spec erase fuel : forall w, walking w -> (size w <= fuel)%nat ->
  exists found w' s p, find_next erase fuel w = Some (found, w') /\ passes erase w found w' s p.
Proof.
  induction fuel as [|fuel IH]; intros w Hw Hf; destruct w as [d m t];
    unfold size in Hf; cbn [mine theirs] in *.
  { destruct m, t; simpl in Hf; try lia. eexists _, _, [], []. split; [done|].
    apply passes_stay. by left. }
  destruct m as [|x m].
  { eexists _, _, [], []. split; [done|]. apply passes_stay. by left. }
  destruct t as [|y t].
  { eexists _, _, [], []. split; [done|]. apply passes_stay. by right. }
  cbn [find_next mine theirs done length] in *. destruct (Interval.Intersects x y) eqn:Hxy.
  { eexists _, _, [], []. split; [done|]. by apply passes_stay. }
  destruct (turn_spec x m y t d Hw Hxy) as (s & m' & E & Em & Hs & Hrest).
  rewrite E. clear E.
  destruct m' as [|x' m'].
  { rewrite app_nil_r in Em. eexists _, _, (x :: m), []. split; [done|]. subst s.
    split; simpl; rewrite ?app_nil_r; auto; [intros v []%member_nil | discriminate]. }
  destruct Hrest as (p & Ep & Hp & Hlt).
  destruct (skip_theirs x' (y :: t)) as [|y' t'] eqn:Ey.
  { rewrite app_nil_r in Ep. subst p.
    assert (disjoint (x' :: m') (y :: t)) as Hd by (intros v Hv Hv'; by apply (Hp v)).
    destruct erase.
    - eexists _, _, (x :: m), (y :: t). split; [done|].
      split; simpl; rewrite ?app_nil_r; auto; [|intros v ?; apply member_nil | discriminate].
      rewrite Em. by apply disjoint_app_l.
    - eexists _, _, s, (y :: t). split; [done|].
      split; simpl; rewrite ?app_nil_r; auto; discriminate. }
  destruct (IH {| done := if erase then d else d ++ s; mine := x' :: m'; theirs := y' :: t' |})
    as (found & w' & s2 & p2 & E & Hpass).
  { rewrite Em, Ep in Hw. by eapply walking_mid. }
  { unfold size. simpl in *. lia. }
  eexists found, w', _, _. split; [exact E|].
  eapply passes_trans; [..|exact Hpass]; simpl; done.
Qed.

(** ** Difference *)

Definition left_over (w : walk) (v : Z) : Prop :=
  member v (done w) \/ (member v (mine w) /\ ~ member v (theirs w)).

Definition mu (w : walk) : nat := (2 * size w + if heads_meet w then 1 else 0)%nat.

Definition opt (x : Interval) : list Interval := if Empty x then [] else [x].

Lemma opt_elem x z : z ∈ opt x -> z = x /\ nonempty z.
Proof.
  unfold opt, Empty, nonempty. destruct (Z.geb_spec (imin x) (imax x)); [by intros ?%elem_of_nil|].
  intros ->%list_elem_of_singleton. split; [done|lia].
Qed.

Lemma opt_member x v : member v (opt x) <-> within v x.
Proof.
  unfold opt, Empty, within. destruct (Z.geb_spec (imin x) (imax x)); member_simpl;
    unfold within; lia.
Qed.

Lemma opt_valid x : valid (opt x).
Proof.
  unfold opt, Empty. destruct (Z.geb_spec (imin x) (imax x)); [apply valid_nil|].
  apply valid_cons. split; [unfold nonempty; lia|]. split; [done|apply valid_nil].
Qed.

Lemma opt_length x : (length (opt x) <= 1)%nat.
Proof. unfold opt. destruct (Empty x); simpl; lia. Qed.

(** Two intervals that meet: what is left below and above. *)
Lemma Difference_meets x y : Interval.Intersects x y = true ->
  exists lo hi b, Interval.Difference x y = (b, lo, hi) /\
    (nonempty lo -> imin lo = imin x /\ imax lo = imin y) /\
    (nonempty hi -> imin hi = imax y /\ imax hi = imax x) /\
    forall v, within v x /\ ~ within v y <-> within v lo \/ within v hi.
Proof.
  unfold Interval.Intersects, Interval.Difference, Empty, nonempty, within. intros H.
  replace (imin x >=? imax x) with false in * by lia.
  replace (imin y >=? imax y) with false in * by lia. cbn [negb andb] in H.
  repeat case_match; eexists _, _, _; (split; [done|]); simpl;
    (split; [lia|split; [lia|intros v; lia]]).
Qed.

Lemma left_over_passes w found w' s p v :
  passes false w found w' s p -> (left_over w v <-> left_over w' v).
Proof.
  intros [Em Et Ed Hs Hp _ _ _]. unfold left_over. rewrite Em, Ed, Et in *.
  specialize (Hs v). specialize (Hp v). revert Hs. member_simpl. tauto.
Qed.

Lemma left_over_cut d x m y t lo hi v :
  valid (y :: t) -> Interval.Intersects x y = true ->
  (nonempty lo -> imin lo = imin x /\ imax lo = imin y) ->
  (forall v, within v x /\ ~ within v y <-> within v lo \/ within v hi) ->
  left_over {| done := d; mine := x :: m; theirs := y :: t |} v <->
  left_over {| done := d ++ opt lo; mine := opt hi ++ m; theirs := y :: t |} v.
Proof.
  intros Ht Hxy Hlo Hv. unfold left_over; simpl. member_simpl. rewrite !opt_member.
  specialize (Hv v). pose proof (head_first y t) as Hh.
  assert (within v lo -> ~ member v t) as Hlt.
  { intros Hw (z & Hz & Hwz). assert (nonempty lo) as Hn by (unfold nonempty, within in *; lia).
    destruct (Hlo Hn) as [_ E].
    assert (imin y <= imin z) by (apply (Hh z Ht); set_solver).
    unfold within in *. lia. }
  tauto.
Qed.

Lemma walking_cut d x m y t lo hi :
  walking {| done := d; mine := x :: m; theirs := y :: t |} -> Interval.Intersects x y = true ->
  (nonempty lo -> imin lo = imin x /\ imax lo = imin y) ->
  (nonempty hi -> imin hi = imax y /\ imax hi = imax x) ->
  walking {| done := d ++ opt lo; mine := opt hi ++ m; theirs := y :: t |}.
Proof.
  intros [Hm Ht] Hxy Hlo Hhi; simpl in *. split; [|done]; simpl.
  apply valid_app in Hm as (Hd & (Hx & Hxm & Hm)%valid_cons & Hdm).
  rewrite Forall_forall in Hxm. unfold Interval.Intersects, Empty in Hxy.
  assert (forall a, a ∈ opt lo -> imin x = imin a /\ imax a = imin y) as Hl.
  { intros a [-> Ha]%opt_elem. destruct (Hlo Ha). lia. }
  assert (forall a, a ∈ opt hi -> imin a = imax y /\ imax a = imax x) as Hh.
  { intros a [-> Ha]%opt_elem. destruct (Hhi Ha). lia. }
  unfold before in *. rewrite <- app_assoc.
  apply valid_app. split; [done|]. split.
  - apply valid_app. split; [apply opt_valid|]. split.
    + apply valid_app. split; [apply opt_valid|]. split; [done|].
      intros a b Ha Hb. specialize (Hh a Ha). specialize (Hxm b Hb). unfold before. lia.
    + intros a b Ha [Hb|Hb]%elem_of_app; specialize (Hl a Ha); unfold before;
        [specialize (Hh b Hb)|specialize (Hxm b Hb)]; lia.
  - intros a b Ha Hb. assert (imax a < imin x) by (apply (Hdm a x Ha); set_solver).
    apply elem_of_app in Hb as [Hb|[Hb|Hb]%elem_of_app]; unfold before.
    + specialize (Hl b Hb). lia.
    + specialize (Hh b Hb). lia.
    + specialize (Hxm b Hb). unfold nonempty in Hx. lia.
Qed.

Lemma mu_cut d x m y t lo hi :
  Interval.Intersects x y = true -> (nonempty hi -> imin hi = imax y /\ imax hi = imax x) ->
  (mu {| done := d ++ opt lo; mine := opt hi ++ m; theirs := y :: t |} <
   mu {| done := d; mine := x :: m; theirs := y :: t |})%nat.
Proof.
  intros Hxy Hhi. unfold mu, size, heads_meet; simpl. rewrite Hxy.
  unfold opt, Empty. destruct (Z.geb_spec (imin hi) (imax hi)) as [|Hn]; simpl.
  - case_match; simpl; repeat case_match; lia.
  - destruct (Hhi Hn) as [E _].
    assert (Interval.Intersects hi y = false) as -> by (unfold Interval.Intersects; lia). lia.
Qed.

Lemma passes_walking (erase : bool) w found w' s p :
  walking w -> passes erase w found w' s p -> walking w'.
Proof.
  intros Hw [Em Et Ed _ _ _ _ _]. destruct w as [d m t], w' as [d' m' t']; simpl in *. subst.
  by eapply walking_mid.
Qed.

Lemma difference_loop_spec fuel : forall w, walking w -> (mu w < fuel)%nat ->
  exists r, difference_loop fuel w = Some r /\ valid r /\ forall v, member v r <-> left_over w v.
Proof.
  induction fuel as [|fuel IH]; intros w Hw Hf; [lia|].
  destruct (find_next_spec false (length (mine w) + length (theirs w)) w Hw (le_n _))
    as (found & w' & s & p & E & Hp).
  cbn [difference_loop]. rewrite E.
  pose proof (passes_walking _ _ _ _ _ _ Hw Hp) as Hw'.
  pose proof (fun v => left_over_passes _ _ _ _ _ v Hp) as Hl.
  destruct Hp as [_ _ _ _ _ Hfound _ Hprog]. destruct found; cycle 1.
  { eexists. split; [done|]. split; [apply Hw'|]. intros v. rewrite Hl. unfold left_over.
    destruct Hfound as [-> | ->]; member_simpl; tauto. }
  assert (mu w' <= mu w)%nat as Hmu.
  { destruct (Hprog eq_refl) as [-> | [Hs Hh]]; [done|]. unfold mu. rewrite Hh, Hfound. lia. }
  destruct w' as [d' m' t']; unfold heads_meet in Hfound; simpl in *.
  destruct m' as [|x m']; [done|]. destruct t' as [|y t']; [done|].
  destruct (Difference_meets x y Hfound) as (lo & hi & b & Ed & Hlo & Hhi & Hv). rewrite Ed.
  destruct (IH _ (walking_cut _ _ _ _ _ _ _ Hw' Hfound Hlo Hhi)) as (r & Er & Hr & Hm).
  { pose proof (mu_cut d' x m' y t' lo hi Hfound Hhi). lia. }
  exists r. split; [exact Er|]. split; [done|]. intros v. rewrite Hm, Hl. symmetry.
  apply left_over_cut; [apply Hw'|done|done|done].
Qed.

(** Where two sets are walked from: nothing before can meet. *)
Lemma candidate_skips i l : valid l -> nonempty i ->
  Forall (fun y => imax y < imin i) (take (FindIntersectionCandidate i l) l).
Proof.
  intros Hv Hi. unfold nonempty in Hi. unfold FindIntersectionCandidate.
  destruct (upper_bound_valid i l Hv) as (a & b & -> & -> & _ & Ha & _); [lia|].
  destruct a as [|q a _] using rev_ind; [constructor|].
  rewrite length_app, Nat.add_1_r. cbn [Nat.pred]. rewrite <- app_assoc, take_app_length.
  rewrite <- app_assoc in Hv. apply valid_app in Hv as (_ & _ & Hq).
  apply Forall_app in Ha as [_ [Hqi _]%Forall_cons]. apply Forall_forall. intros y Hy.
  assert (before y q) by (apply Hq; set_solver). unfold before in *. lia.
Qed.

Lemma candidate_in i l : l <> [] -> (FindIntersectionCandidate i l < length l)%nat.
Proof.
  intros Hl. unfold FindIntersectionCandidate.
  assert (forall l, (upper_bound i l <= length l)%nat) as H.
  { clear. induction l as [|y l IH]; simpl; [lia|]. destruct (less i y); lia. }
  specialize (H l). destruct l; [done|]. simpl length in *. lia.
Qed.

Lemma SpanningInterval_spec x l : valid (x :: l) ->
  imin (SpanningInterval (x :: l)) = imin x /\ nonempty (SpanningInterval (x :: l)) /\
  Forall (fun y => imax y <= imax (SpanningInterval (x :: l))) (x :: l).
Proof.
  intros Hv. unfold SpanningInterval.
  destruct (last (x :: l)) as [y|] eqn:El; [|by apply last_None in El].
  simpl. split; [done|]. pose proof El as Hy. apply last_Some in Hy as [a Ea].
  pose proof (head_first x l y Hv) as Hxy. rewrite Ea in *.
  assert (nonempty y) as Hn by (apply (Forall_nonempty _ Hv); set_solver).
  apply valid_app in Hv as (_ & _ & Hq). unfold nonempty in *. simpl.
  split; [assert (imin x <= imin y) by (apply Hxy; set_solver); lia|].
  apply Forall_app. split; [|constructor; [lia|done]]. apply Forall_forall. intros z Hz.
  assert (before z y) by (apply Hq; set_solver). unfold before in *. lia.
Qed.

Lemma spans_apart l m : valid l -> valid m ->
  Interval.Intersects (SpanningInterval l) (SpanningInterval m) = false -> disjoint l m.
Proof.
  intros Hl Hm H. destruct l as [|x l]; [intros v []%member_nil|].
  destruct m as [|y m]; [intros v _; apply member_nil|].
  destruct (SpanningInterval_spec x l Hl) as (Ex & Nx & Fx).
  destruct (SpanningInterval_spec y m Hm) as (Ey & Ny & Fy).
  apply disjoint_apart. intros a b Ha Hb. rewrite Forall_forall in Fx, Fy.
  specialize (Fx a Ha). specialize (Fy b Hb). cbv beta in Fx, Fy.
  pose proof (head_first x l a Hl Ha). pose proof (head_first y m b Hm Hb).
  unfold Interval.Intersects, Empty, nonempty in *. lia.
Qed.

Lemma take_drop_valid k l : valid l ->
  valid (take k l) /\ valid (drop k l) /\ forall x y, x ∈ take k l -> y ∈ drop k l -> before x y.
Proof. intros Hv. rewrite <- (take_drop k l) in Hv. by apply valid_app. Qed.

Lemma member_split k v l : member v l <-> member v (take k l) \/ member v (drop k l).
Proof. by rewrite <- member_app, take_drop. Qed.

(** The start of the walk over [l] and [other]. *)
Lemma walk_start l other x o : valid l -> valid other ->
  head l = Some x -> head other = Some o ->
  let k := FindIntersectionCandidate o l in let k' := FindIntersectionCandidate x other in
  disjoint (take k l) other /\ disjoint (take k' other) l.
Proof.
  intros Hl Ho Ex Eo k k'. destruct l as [|? l]; [done|]. destruct other as [|? other]; [done|].
  simpl in Ex, Eo. simplify_eq.
  assert (nonempty x) by (apply (Forall_nonempty _ Hl); left).
  assert (nonempty o) by (apply (Forall_nonempty _ Ho); left).
  pose proof (candidate_skips o (x :: l) Hl ltac:(done)) as Hk.
  pose proof (candidate_skips x (o :: other) Ho ltac:(done)) as Hk'.
  rewrite Forall_forall in Hk, Hk'.
  split; apply disjoint_apart; intros a b Ha Hb; left.
  - specialize (Hk a Ha). pose proof (head_first o other b Ho Hb). simpl in Hk. lia.
  - specialize (Hk' a Ha). pose proof (head_first x l b Hl Hb). simpl in Hk'. lia.
Qed.

Lemma Difference_spec other l : valid l -> valid other ->
  exists r, IntervalSet.Difference other l = Some r /\ valid r /\
    forall v, member v r <-> member v l /\ ~ member v other.
Proof.
  intros Hl Ho. unfold IntervalSet.Difference.
  destruct (Interval.Intersects (SpanningInterval l) (SpanningInterval other)) eqn:Hsp; cbn [negb]; cycle 1.
  { exists l. split; [done|]. split; [done|]. intros v.
    pose proof (spans_apart l other Hl Ho Hsp v). tauto. }
  destruct other as [|o other].
  { exists l. split; [done|]. split; [done|]. intros v. member_simpl. tauto. }
  destruct l as [|x l]; [done|].
  destruct (walk_start (x :: l) (o :: other) x o Hl Ho eq_refl eq_refl) as [Hdone Hskip].
  set (k := FindIntersectionCandidate o (x :: l)) in *.
  set (k' := FindIntersectionCandidate x (o :: other)) in *.
  pose proof (candidate_in o (x :: l) ltac:(done)) as Hk. fold k in Hk.
  destruct (drop k (x :: l)) as [|z m] eqn:Em.
  { apply (f_equal length) in Em. rewrite length_drop in Em. simpl in *. lia. }
  destruct (difference_loop_spec (2 + 2 * (length (x :: l) + length (o :: other)))
    {| done := take k (x :: l); mine := z :: m; theirs := drop k' (o :: other) |}) as (r & E & Hr & Hm).
  { split; simpl; [by rewrite <- Em, take_drop|by apply take_drop_valid]. }
  { unfold mu, size. cbn [mine theirs]. rewrite <- Em, !length_drop. destruct (heads_meet _); lia. }
  exists r. split; [exact E|]. split; [done|]. intros v. rewrite Hm. unfold left_over.
  cbn [done mine theirs]. rewrite <- Em. specialize (Hdone v). specialize (Hskip v).
  rewrite (member_split k v (x :: l)) in Hskip. rewrite (member_split k' v (o :: other)) in Hdone.
  rewrite (member_split k v (x :: l)), (member_split k' v (o :: other)). tauto.
Qed.

(** ** Intersection *)

Definition shared (w : walk) (v : Z) : Prop :=
  member v (done w) \/ (member v (mine w) /\ member v (theirs w)).

Lemma shared_passes w found w' s p v :
  passes true w found w' s p -> (shared w v <-> shared w' v).
Proof.
  intros [Em Et Ed Hs Hp _ _ _]. unfold shared. rewrite Em, Ed, Et in *.
  specialize (Hs v). specialize (Hp v). revert Hs. member_simpl. tauto.
Qed.

Lemma Intersection_spec_pair x y :
  match Interval.Intersection x y with
  | None => Interval.Intersects x y = false
  | Some z => Interval.Intersects x y = true /\ nonempty z /\
      imin z = Z.max (imin x) (imin y) /\ imax z = Z.min (imax x) (imax y)
  end.
Proof.
  unfold Interval.Intersection. destruct (Interval.Intersects x y) eqn:E; [|done]; simpl.
  unfold Interval.Intersects, Empty, nonempty in *. simpl. lia.
Qed.

(** What [common] returns. *)
Record in_common (x : Interval) (l zs r : list Interval) : Prop := {
  ic_valid : valid zs;
  ic_member : forall v, member v zs <-> within v x /\ member v l;
  ic_inside : Forall (fun z => imin x <= imin z /\ imax z <= imax x) zs;
  ic_after : forall B, Forall (fun y => B < imin y) l -> Forall (fun y => B < imin y) zs;
  ic_rest : exists q, l = q ++ r /\ Forall (fun y => imax y < imax x) q;
  ic_some : l <> [] -> r <> []
}.

Lemma common_spec x l : nonempty x -> valid l -> Forall (fun y => imin x < imax y) l ->
  in_common x l (common x l).1 (common x l).2.
Proof.
  intros Hx. induction l as [|y l IH]; intros Hv Hl; simpl.
  { split; try done; [intros v; member_simpl; tauto|by exists []]. }
  pose proof (Intersection_spec_pair x y) as Hz. pose proof Hv as (Hy & Hyl & Hv')%valid_cons.
  apply Forall_cons in Hl as [Hxy Hl]. unfold nonempty in *.
  destruct (Interval.Intersection x y) as [z|]; simpl.
  2:{ split; try done; [apply valid_nil| |by exists []]; intros v; split; [by intros ?%member_nil|].
      intros [Hw (b & Hb & Hwb)]. pose proof (head_first y l b Hv Hb).
      unfold Interval.Intersects, Empty, within in *. lia. }
  destruct Hz as (Hi & Hn & Ez1 & Ez2). destruct (IH Hv' Hl) as [IV IM II IA (q & Eq & Iq) IS].
  destruct (common x l) as [zs r]; simpl in *.
  split.
  - apply valid_cons. split; [done|]. split; [|done]. eapply Forall_impl; [by apply IA|].
    unfold before. simpl. lia.
  - intros v. member_simpl. rewrite IM. unfold within. rewrite Ez1, Ez2. split; [|].
    + intros [H|H]; [|tauto]. split; [lia|left; lia].
    + intros [H [H'|H']]; [left; lia|tauto].
  - constructor; [lia|done].
  - intros B. rewrite !Forall_cons. intros [HB HB']. split; [lia|by apply IA].
  - destruct zs as [|z' zs]; [by exists []|]. exists (y :: q). simpl. split; [by f_equal|].
    constructor; [|done]. apply Forall_cons in II as [_ _].
    assert (member (imin z') (z' :: zs)) as (Hw & b & Hb & Hwb)%IM.
    { exists z'. split; [left|]. apply valid_cons in IV as [Hz' _]. unfold within, nonempty in *. lia. }
    rewrite Forall_forall in Hyl. specialize (Hyl b Hb). unfold within, before in *. lia.
  - intros _. destruct zs as [|z' zs]; [done|]. apply IS. intros ->.
    assert (member (imin z') (z' :: zs)) as (_ & []%member_nil)%IM.
    exists z'. split; [left|]. apply valid_cons in IV as [Hz' _]. unfold within, nonempty in *. lia.
Qed.

Lemma meet_reaches x y t : Interval.Intersects x y = true -> valid (y :: t) ->
  Forall (fun z => imin x < imax z) (y :: t).
Proof.
  intros Hxy Hv. apply Forall_forall. intros z Hz. pose proof (head_first y t z Hv Hz).
  pose proof (Forall_nonempty _ Hv z Hz) as Hn.
  apply valid_cons in Hv as (_ & Hy & _). rewrite Forall_forall in Hy. specialize (Hy z).
  unfold Interval.Intersects, Empty, before, nonempty in *.
  apply elem_of_cons in Hz as [-> | Hz]; [lia|]. specialize (Hy Hz). lia.
Qed.

Lemma walking_common d x m y t zs r :
  walking {| done := d; mine := x :: m; theirs := y :: t |} -> in_common x (y :: t) zs r ->
  walking {| done := d ++ zs; mine := m; theirs := r |} /\
  forall v, shared {| done := d; mine := x :: m; theirs := y :: t |} v <->
            shared {| done := d ++ zs; mine := m; theirs := r |} v.
Proof.
  intros [Hm Ht] [IV IM II _ (q & Eq & Iq) _]; cbn [done mine theirs] in *.
  apply valid_app in Hm as (Hd & (Hx & Hxm & Hm)%valid_cons & Hdm).
  rewrite Forall_forall in *. split.
  - split; cbn [done mine theirs]; [|rewrite Eq in Ht; by apply valid_app in Ht as (_ & ? & _)].
    rewrite <- app_assoc. apply valid_app. split; [done|]. split.
    + apply valid_app. split; [done|]. split; [done|]. intros a b Ha Hb.
      specialize (II a Ha). specialize (Hxm b Hb). unfold before in *. lia.
    + intros a b Ha [Hb|Hb]%elem_of_app; [|apply Hdm; set_solver].
      assert (before a x) by (apply Hdm; set_solver). specialize (II b Hb). unfold before in *. lia.
  - intros v. assert (member v q -> ~ member v m) as Hqm.
    { apply disjoint_apart. intros a b Ha Hb. left. specialize (Iq a Ha). specialize (Hxm b Hb).
      unfold before in *. lia. }
    unfold shared. cbn [done mine theirs]. rewrite member_app, member_cons, IM, Eq, member_app. tauto.
Qed.

Lemma intersection_loop_spec fuel : forall w, walking w -> theirs w <> [] ->
  (length (mine w) < fuel)%nat ->
  exists r, intersection_loop fuel w = Some r /\ valid r /\ forall v, member v r <-> shared w v.
Proof.
  induction fuel as [|fuel IH]; intros w Hw Hne Hf; [lia|].
  destruct (find_next_spec true (length (mine w) + length (theirs w)) w Hw (le_n _))
    as (found & w' & s & p & E & Hp).
  cbn [intersection_loop]. rewrite E.
  pose proof (passes_walking _ _ _ _ _ _ Hw Hp) as Hw'.
  pose proof (fun v => shared_passes _ _ _ _ _ v Hp) as Hl.
  destruct Hp as [Em _ _ _ _ Hfound He _]. destruct found; cycle 1.
  { eexists. split; [done|]. split; [apply Hw'|]. intros v. rewrite Hl. unfold shared.
    rewrite (He eq_refl eq_refl Hne). member_simpl. tauto. }
  apply (f_equal length) in Em. rewrite length_app in Em.
  destruct w' as [d' m' t']; unfold heads_meet in Hfound; cbn [mine theirs done] in *.
  destruct m' as [|x m']; [done|]. destruct t' as [|y t']; [done|].
  assert (nonempty x) as Hx by (unfold nonempty, Interval.Intersects, Empty in *; lia).
  pose proof (common_spec x (y :: t') Hx (k_theirs _ Hw')
    (meet_reaches x y t' Hfound (k_theirs _ Hw'))) as Hc.
  destruct (common x (y :: t')) as [zs r'].
  destruct (walking_common _ _ _ _ _ _ _ Hw' Hc) as [Hw2 Hs2].
  destruct (IH _ Hw2) as (r & Er & Hr & Hm); [by apply Hc|simpl in *; lia|].
  exists r. split; [exact Er|]. split; [done|]. intros v. by rewrite Hm, Hl, Hs2.
Qed.

Lemma Intersection_spec other l : valid l -> valid other ->
  exists r, IntervalSet.Intersection other l = Some r /\ valid r /\
    forall v, member v r <-> member v l /\ member v other.
Proof.
  intros Hl Ho. unfold IntervalSet.Intersection.
  destruct (Interval.Intersects (SpanningInterval l) (SpanningInterval other)) eqn:Hsp; cbn [negb]; cycle 1.
  { exists []. split; [done|]. split; [apply valid_nil|]. intros v. rewrite member_nil_False.
    pose proof (spans_apart l other Hl Ho Hsp v). tauto. }
  destruct other as [|o other].
  { exists []. split; [done|]. split; [done|]. intros v. member_simpl. tauto. }
  set (k := FindIntersectionCandidate o l). destruct l as [|x0 l]; [done|].
  pose proof (candidate_in o (x0 :: l) ltac:(done)) as Hk. fold k in Hk.
  destruct (drop k (x0 :: l)) as [|x m] eqn:Em.
  { apply (f_equal length) in Em. rewrite length_drop in Em. simpl in *. lia. }
  pose proof (take_drop_valid k _ Hl) as (Hvt & Hvm & _).
  destruct (walk_start (x0 :: l) (o :: other) x0 o Hl Ho eq_refl eq_refl) as [Hdone _].
  fold k in Hdone. rewrite Em in Hvm.
  destruct (walk_start (x :: m) (o :: other) x o Hvm Ho eq_refl eq_refl) as [_ Hskip].
  set (k' := FindIntersectionCandidate x (o :: other)) in *.
  pose proof (candidate_in x (o :: other) ltac:(done)) as Hk'. fold k' in Hk'.
  destruct (intersection_loop_spec (2 + length (x0 :: l))
    {| done := []; mine := x :: m; theirs := drop k' (o :: other) |}) as (r & E & Hr & Hm).
  { split; [done|by apply take_drop_valid]. }
  { intros Hd. apply (f_equal length) in Hd. cbn [theirs] in Hd. rewrite length_drop in Hd. simpl in *. lia. }
  { cbn [mine]. rewrite <- Em, length_drop. lia. }
  exists r. split; [exact E|]. split; [done|]. intros v. rewrite Hm. unfold shared.
  cbn [done mine theirs]. specialize (Hdone v). specialize (Hskip v).
  rewrite (member_split k' v (o :: other)) in *. rewrite (member_split k v (x0 :: l)), Em.
  rewrite member_nil_False. tauto.
Qed.

Lemma heads_meet_member w : heads_meet w = true ->
  exists v, member v (mine w) /\ member v (theirs w).
Proof.
  unfold heads_meet. destruct w as [d [|x m] [|y t]]; simpl; try done. intros H.
  exists (Z.max (imin x) (imin y)). unfold Interval.Intersects, Empty in H.
  split; apply member_cons; left; unfold within; lia.
Qed.

Lemma Intersects_spec other l : valid l -> valid other ->
  exists b, IntervalSet.Intersects other l = Some b /\
    (b = true <-> exists v, member v l /\ member v other).
Proof.
  intros Hl Ho. unfold IntervalSet.Intersects.
  destruct (Interval.Intersects (SpanningInterval l) (SpanningInterval other)) eqn:Hsp; cbn [negb]; cycle 1.
  { exists false. split; [done|]. split; [done|]. intros (v & H1 & H2).
    by destruct (spans_apart l other Hl Ho Hsp v). }
  destruct other as [|o other].
  { exists false. split; [done|]. split; [done|]. by intros (v & _ & ?%member_nil). }
  set (k := FindIntersectionCandidate o l). destruct l as [|x0 l]; [done|].
  pose proof (candidate_in o (x0 :: l) ltac:(done)) as Hk. fold k in Hk.
  destruct (drop k (x0 :: l)) as [|x m] eqn:Em.
  { apply (f_equal length) in Em. rewrite length_drop in Em. simpl in *. lia. }
  pose proof (take_drop_valid k _ Hl) as (_ & Hvm & _). rewrite Em in Hvm.
  destruct (walk_start (x0 :: l) (o :: other) x0 o Hl Ho eq_refl eq_refl) as [Hdone _]. fold k in Hdone.
  destruct (walk_start (x :: m) (o :: other) x o Hvm Ho eq_refl eq_refl) as [_ Hskip].
  set (k' := FindIntersectionCandidate x (o :: other)) in *.
  destruct (find_next_spec false (length (x0 :: l) + length (o :: other))
    {| done := take k (x0 :: l); mine := x :: m; theirs := drop k' (o :: other) |})
    as (found & w' & s & p & E & [Pm Pt _ Ps Pp Pf _ _]).
  { split; [cbn [done mine]; by rewrite <- Em, take_drop|by apply take_drop_valid]. }
  { unfold size. cbn [mine theirs]. rewrite <- Em, !length_drop. lia. }
  exists found. cbv zeta. rewrite E. split; [done|]. cbn [mine theirs] in *. split.
  - intros ->. destruct (heads_meet_member w' Pf) as (v & H1 & H2). exists v.
    rewrite (member_split k v (x0 :: l)), (member_split k' v (o :: other)), Em, Pm, Pt.
    member_simpl. tauto.
  - intros (v & H1 & H2). destruct found; [done|exfalso].
    specialize (Hdone v). specialize (Hskip v). specialize (Ps v). specialize (Pp v).
    rewrite (member_split k' v (o :: other)) in *. rewrite (member_split k v (x0 :: l)), Em, Pm in H1.
    rewrite Pm in Hskip. rewrite Pt in *. rewrite !member_app in *.
    destruct Pf as [Z | Z]; rewrite Z in *; rewrite !member_nil_False in *; tauto.
Qed.

(** ** One list per set *)

Lemma valid_head_least x l v : valid (x :: l) -> member v (x :: l) -> imin x <= v.
Proof.
  intros Hv (y & Hy & Hw). pose proof (head_first x l y Hv Hy). unfold within in Hw. lia.
Qed.

Lemma member_min x l : nonempty x -> member (imin x) (x :: l).
Proof. intros H. apply member_cons. left. unfold within, nonempty in *. lia. Qed.

Lemma tail_member x l v : valid (x :: l) -> (member v l <-> member v (x :: l) /\ imax x <= v).
Proof.
  intros Hv. pose proof Hv as (Hn & Hx & Hl)%valid_cons. rewrite member_cons. split.
  - intros Hm. split; [tauto|]. destruct Hm as (y & Hy & Hw). rewrite Forall_forall in Hx.
    specialize (Hx y Hy). unfold before, within in *. lia.
  - intros [[Hw|?] Hle]; [unfold within in Hw; lia|done].
Qed.

(** In a valid list the first interval ends at the first value missing. *)
Lemma head_max_le x y l m : valid (x :: l) -> valid (y :: m) -> imin x = imin y ->
  (forall v, member v (x :: l) -> member v (y :: m)) -> imax x <= imax y.
Proof.
  intros Hx Hy E H. destruct (Z.le_gt_cases (imax x) (imax y)); [done|exfalso].
  apply (end_not_member y (y :: m) Hy); [left|]. apply H, member_cons. left.
  apply valid_cons in Hx as [Hnx _]. apply valid_cons in Hy as [Hny _].
  unfold within, nonempty in *. lia.
Qed.

Lemma valid_canonical l : forall m, valid l -> valid m ->
  (forall v, member v l <-> member v m) -> l = m.
Proof.
  induction l as [|x l IH]; intros m Hl Hm H.
  - destruct m as [|y m]; [done|]. exfalso. apply (member_nil (imin y)), H, member_min.
    by apply valid_cons in Hm as [? _].
  - pose proof Hl as (Hnx & _ & Hl')%valid_cons.
    destruct m as [|y m]; [exfalso; by apply (member_nil (imin x)), H, member_min|].
    pose proof Hm as (Hny & _ & Hm')%valid_cons.
    assert (imin x = imin y) as E1.
    { pose proof (valid_head_least x l (imin y) Hl (proj2 (H _) (member_min y m Hny))).
      pose proof (valid_head_least y m (imin x) Hm (proj1 (H _) (member_min x l Hnx))). lia. }
    assert (imax x = imax y) as E2.
    { pose proof (head_max_le x y l m Hl Hm E1 (fun v => proj1 (H v))).
      pose proof (head_max_le y x m l Hm Hl (eq_sym E1) (fun v => proj2 (H v))). lia. }
    assert (x = y) as -> by (destruct x, y; simpl in *; by subst).
    f_equal. apply IH; [done|done|]. intros v. by rewrite (tail_member y l), (tail_member y m), H.
Qed.

Lemma Equals_eq l : forall m, Equals l m = true <-> l = m.
Proof.
  induction l as [|x l IH]; intros [|y m]; simpl; try done. destruct x as [a b], y as [c d]; simpl.
  destruct (Z.eqb_spec a c); simpl; [|split; [done|congruence]].
  destruct (Z.eqb_spec b d); simpl; [|split; [done|congruence]].
  rewrite IH. split; congruence.
Qed.

Lemma DifferenceInterval_spec i l : valid l ->
  exists r, IntervalSet.DifferenceInterval i l = Some r /\ valid r /\
    forall v, member v r <-> member v l /\ ~ within v i.
Proof.
  intros Hl. destruct (Add_spec i [] valid_nil) as [Hi Hm]. unfold IntervalSet.DifferenceInterval.
  destruct (Interval.Intersects _ i) eqn:E; simpl.
  - destruct (Difference_spec (IntervalSet.Add i []) l Hl Hi) as (r & -> & Hr & Hd).
    exists r. split; [done|]. split; [done|]. intros v. rewrite Hd, Hm. member_simpl. tauto.
  - exists l. split; [done|]. split; [done|]. intros v. split; [|tauto]. intros Hv. split; [done|].
    intros Hw. destruct l as [|x l]; [by apply member_nil in Hv|].
    destruct (SpanningInterval_spec x l Hl) as (E1 & _ & E2).
    pose proof (valid_head_least x l v Hl Hv). destruct Hv as (y & Hy & Hwy).
    rewrite Forall_forall in E2. specialize (E2 y Hy).
    unfold Interval.Intersects, Empty, within, nonempty in *. lia.
Qed.

(** ** Set sizes *)

(** The offsets of a set, one by one. *)
Definition offsets (l : IntervalSet.t) : list Z :=
  concat ((fun x => seqZ (imin x) (imax x - imin x)) <$> l).

Lemma elem_of_offsets v l : v ∈ offsets l <-> member v l.
Proof.
  unfold offsets, member. rewrite list_elem_of_In, in_concat. split.
  - intros (y & Hy & Hv). apply list_elem_of_In in Hy, Hv.
    apply list_elem_of_fmap in Hy as (x & -> & Hx). apply elem_of_seqZ in Hv.
    exists x. unfold within. split; [done|lia].
  - intros (x & Hx & Hw). exists (seqZ (imin x) (imax x - imin x)). rewrite <- !list_elem_of_In.
    split; [apply list_elem_of_fmap; by exists x|]. apply elem_of_seqZ. unfold within in Hw. lia.
Qed.

Lemma NoDup_offsets l : valid l -> NoDup (offsets l).
Proof.
  unfold offsets. induction l as [|x l IH]; simpl; [constructor|].
  intros Hv. pose proof Hv as (Hn & Hx & Hl)%valid_cons. apply NoDup_app.
  split; [apply NoDup_seqZ|]. split; [|by apply IH].
  intros v Hvx Hvl. apply elem_of_seqZ in Hvx. apply elem_of_offsets in Hvl.
  apply (tail_member x l v Hv) in Hvl as [_ Hle]. lia.
Qed.

Definition count (l : IntervalSet.t) : Z := Z.of_nat (length (offsets l)).

(** The size of a set that is the disjoint union of two. *)
Lemma count_union l m r : valid l -> valid m -> valid r ->
  disjoint m l -> (forall v, member v r <-> member v m \/ member v l) -> count r = count m + count l.
Proof.
  intros Hl Hm Hr Hd H. unfold count. rewrite <- Nat2Z.inj_add, <- length_app. f_equal.
  apply Permutation_length, NoDup_Permutation.
  - by apply NoDup_offsets.
  - apply NoDup_app. split; [by apply NoDup_offsets|]. split; [|by apply NoDup_offsets].
    intros v Hvm Hvl. rewrite elem_of_offsets in Hvm, Hvl. by apply (Hd v).
  - intros v. rewrite elem_of_app, !elem_of_offsets. apply H.
Qed.

Lemma count_cons x l : nonempty x -> count (x :: l) = imax x - imin x + count l.
Proof.
  intros Hn. unfold count.
  assert (offsets (x :: l) = seqZ (imin x) (imax x - imin x) ++ offsets l) as -> by done.
  rewrite length_app, length_seqZ. unfold nonempty in Hn. lia.
Qed.

Lemma count_nil : count [] = 0.
Proof. done. Qed.

Lemma count_nonneg l : 0 <= count l.
Proof. unfold count. lia. Qed.

Lemma count_ge l n : (forall v, 0 <= v < n -> member v l) -> n <= count l.
Proof.
  intros H. assert (length (seqZ 0 n) <= length (offsets l))%nat as Hle.
  { apply submseteq_length, NoDup_submseteq; [apply NoDup_seqZ|].
    intros v Hm%elem_of_seqZ. apply elem_of_offsets, H. lia. }
  rewrite length_seqZ in Hle. unfold count. lia.
Qed.

Lemma count_less l r v : valid l -> (forall u, member u l -> member u r) -> member v r -> ~ member v l ->
  count l < count r.
Proof.
  intros Hl Hs Hr Hn. assert (length (v :: offsets l) <= length (offsets r))%nat as Hle.
  { apply submseteq_length, NoDup_submseteq.
    - apply NoDup_cons. split; [by rewrite elem_of_offsets|by apply NoDup_offsets].
    - intros u [-> |Hu]%elem_of_cons; apply elem_of_offsets; [done|]. by apply Hs, elem_of_offsets. }
  simpl in Hle. unfold count. lia.
Qed.

Lemma count_bound l n : valid l -> (forall v, member v l -> 0 <= v < n) -> count l <= Z.max 0 n.
Proof.
  intros Hv H. unfold count.
  assert (length (offsets l) <= length (seqZ 0 n))%nat as Hle.
  { apply submseteq_length, NoDup_submseteq; [by apply NoDup_offsets|].
    intros v Hm%elem_of_offsets. apply elem_of_seqZ. specialize (H v Hm). lia. }
  rewrite length_seqZ in Hle. lia.
Qed.

(** ** Theorems *)

(** Add and Union keep an interval set well formed and are union of the integers it
    stands for, and adding a set interval by interval gives the same list as Union. *)
Theorem adding_to_an_interval_set_is_union x other l :
  Valid l = true -> Valid other = true ->
  (Valid (Add x l) = true /\ forall v, member v (Add x l) <-> within v x \/ member v l) /\
  (Valid (Union other l) = true /\ forall v, member v (Union other l) <-> member v other \/ member v l) /\
  AddSet other l = Union other l.
Proof.
  rewrite !Valid_spec. intros Hl Ho.
  destruct (Union_spec other l Hl Ho) as [HU HU']. destruct (AddSet_spec other l Hl) as [HA HA'].
  split; [by apply Add_spec|]. split; [done|].
  apply valid_canonical; [done|done|]. intros v. by rewrite HA', HU'.
Qed.

Definition set_a : t := [mk 0 5; mk 10 20; mk 50 60].
Definition set_b : t := [mk 3 12; mk 30 40; mk 55 70].

Lemma adding_to_an_interval_set_is_union_witness :
  Add (mk 5 10) set_a = [mk 0 20; mk 50 60] /\
  Union set_b set_a = [mk 0 20; mk 30 40; mk 50 70] /\ AddSet set_b set_a = Union set_b set_a.
Proof.
  split; [reflexivity|]. split; [reflexivity|].
  apply (adding_to_an_interval_set_is_union (mk 5 10) set_b set_a eq_refl eq_refl).
Defined.

(** C17: On well-formed interval sets Difference and Intersection end, keep the set sorted,
    disjoint and non-adjacent, and compute set difference and intersection of the integers
    they stand for; Intersects decides whether the two share one. *)
Theorem difference_and_intersection_are_exact other l :
  Valid l = true -> Valid other = true ->
  (exists r, Difference other l = Some r /\ Valid r = true /\
     forall v, member v r <-> member v l /\ ~ member v other) /\
  (exists r, Intersection other l = Some r /\ Valid r = true /\
     forall v, member v r <-> member v l /\ member v other) /\
  (exists b, Intersects other l = Some b /\
     (b = true <-> exists v, member v l /\ member v other)).
Proof.
  rewrite !Valid_spec. intros Hl Ho. split; [|split].
  - destruct (Difference_spec other l Hl Ho) as (r & ? & ? & ?). exists r. by rewrite Valid_spec.
  - destruct (Intersection_spec other l Hl Ho) as (r & ? & ? & ?). exists r. by rewrite Valid_spec.
  - by apply Intersects_spec.
Qed.

Lemma difference_and_intersection_are_exact_witness :
  Difference set_b set_a = Some [mk 0 3; mk 12 20; mk 50 55] /\
  Intersection set_b set_a = Some [mk 3 5; mk 10 12; mk 55 60] /\
  Intersects [mk 5 10; mk 20 50] set_a = Some false /\
  exists r, Difference set_b set_a = Some r /\ Valid r = true.
Proof.
  split; [reflexivity|]. split; [reflexivity|]. split; [reflexivity|].
  destruct (difference_and_intersection_are_exact set_b set_a eq_refl eq_refl)
    as [(r & E & V & _) _]. by exists r.
Defined.

(** Contains, Find and IsDisjoint answer membership, inclusion and disjointness of the
    integers a well-formed set stands for, and Equals holds exactly for the same integers. *)
Theorem queries_of_an_interval_set i v other l :
  Valid l = true -> Valid other = true -> imin i < imax i ->
  (ContainsValue v l = true <-> member v l) /\
  (Find v l <> None <-> member v l) /\
  (ContainsInterval i l = true <-> forall v, within v i -> member v l) /\
  (IsDisjoint i l = true <-> forall v, within v i -> ~ member v l) /\
  (Equals l other = true <-> forall v, member v l <-> member v other).
Proof.
  rewrite !Valid_spec. intros Hl Ho Hi.
  pose proof (ContainsValue_spec v l Hl) as Hc.
  split; [done|]. split; [|split; [by apply ContainsInterval_spec|split; [by apply IsDisjoint_spec|]]].
  - rewrite <- Hc. unfold Find, ContainsValue. destruct (candidate (mk v v) l) as [x|]; [|done].
    by destruct (Interval.ContainsValue x v).
  - rewrite Equals_eq. split; [by intros ->|]. by apply valid_canonical.
Qed.

Lemma queries_of_an_interval_set_witness :
  ContainsValue 10 set_a = true /\ ContainsValue 20 set_a = false /\
  IsDisjoint (mk 20 50) set_a = true /\ ContainsInterval (mk 12 21) set_a = false /\
  ~ member 20 set_a.
Proof.
  split; [reflexivity|]. split; [reflexivity|]. split; [reflexivity|]. split; [reflexivity|].
  intros Hm.
  destruct (queries_of_an_interval_set (mk 12 21) 20 set_b set_a eq_refl eq_refl eq_refl) as [H _].
  apply H in Hm. discriminate Hm.
Defined.
