(* ===== verification/SequencerBuffer.v ===== *)
(** The reassembly buffer of a receiving stream: [QuicStreamSequencerBuffer]
    (libquic/net/quic/core/quic_stream_sequencer_buffer.cc).  Received bytes are
    kept in a ring of blocks that are allocated when they are first written and
    given back when they hold nothing unread; an interval set remembers which
    offsets have arrived. *)

From S2P Require Import Prelude IntervalSet.
Import Interval.

Definition QUIC_NO_ERROR : Z := 0.
Definition QUIC_INTERNAL_ERROR : Z := 1.
Definition QUIC_EMPTY_STREAM_FRAME_NO_FIN : Z := 50.
Definition QUIC_TOO_MANY_STREAM_DATA_INTERVALS : Z := 93.
Definition QUIC_STREAM_SEQUENCER_INVALID_STATE : Z := 95.

Definition kMaxPacketGap : Z := 5000.

Module SequencerBuffer.

(** [static const size_t kBlockSizeBytes] *)
Definition kBlockSizeBytes : Z := 8 * 1024.

Definition kMaxNumDataIntervalsAllowed : Z := 2 * kMaxPacketGap.

(** [struct BufferBlock]: what has been written of [char buffer[kBlockSizeBytes]]. *)
Notation BufferBlock := (gmap Z Z).

(** [struct FrameInfo] *)
Record FrameInfo : Type := { flength : Z; timestamp : Z }.

(** The members; [blocks_] is null or the non-null pointers of the array, and
    [frame_arrival_time_map_] is in the order of its keys. *)
Record Buffer : Type := {
  max_buffer_capacity_bytes_ : Z;
  total_bytes_read_ : Z;
  blocks_ : option (gmap Z BufferBlock);
  num_bytes_buffered_ : Z;
  frame_arrival_time_map_ : list (Z * FrameInfo);
  bytes_received_ : IntervalSet.t
}.

Section Updates.
Variable b : Buffer.

Definition with_blocks m : Buffer :=
  {| max_buffer_capacity_bytes_ := max_buffer_capacity_bytes_ b;
     total_bytes_read_ := total_bytes_read_ b; blocks_ := m;
     num_bytes_buffered_ := num_bytes_buffered_ b;
     frame_arrival_time_map_ := frame_arrival_time_map_ b; bytes_received_ := bytes_received_ b |}.

Definition with_received r : Buffer :=
  {| max_buffer_capacity_bytes_ := max_buffer_capacity_bytes_ b;
     total_bytes_read_ := total_bytes_read_ b; blocks_ := blocks_ b;
     num_bytes_buffered_ := num_bytes_buffered_ b;
     frame_arrival_time_map_ := frame_arrival_time_map_ b; bytes_received_ := r |}.

Definition with_counts total buffered : Buffer :=
  {| max_buffer_capacity_bytes_ := max_buffer_capacity_bytes_ b;
     total_bytes_read_ := total; blocks_ := blocks_ b; num_bytes_buffered_ := buffered;
     frame_arrival_time_map_ := frame_arrival_time_map_ b; bytes_received_ := bytes_received_ b |}.

Definition with_frames m : Buffer :=
  {| max_buffer_capacity_bytes_ := max_buffer_capacity_bytes_ b;
     total_bytes_read_ := total_bytes_read_ b; blocks_ := blocks_ b;
     num_bytes_buffered_ := num_bytes_buffered_ b; frame_arrival_time_map_ := m;
     bytes_received_ := bytes_received_ b |}.
End Updates.

(** [CalculateBlockCount(max_capacity_bytes)] *)
Definition CalculateBlockCount (max_capacity_bytes : Z) : Z :=
  (max_capacity_bytes + kBlockSizeBytes - 1) / kBlockSizeBytes.

Section Queries.
Variable b : Buffer.

(** [const size_t blocks_count_] *)
Definition blocks_count_ : Z := CalculateBlockCount (max_buffer_capacity_bytes_ b).

Definition FirstMissingByte : Z :=
  match bytes_received_ b with
  | [] => 0
  | x :: _ => if imin x >? 0 then 0 else imax x
  end.

Definition NextExpectedByte : Z :=
  match last (bytes_received_ b) with
  | None => 0
  | Some x => imax x
  end.

Definition ReadableBytes : Z := uint64 (FirstMissingByte - total_bytes_read_ b).
Definition HasBytesToRead : bool := ReadableBytes >? 0.
Definition BytesConsumed : Z := total_bytes_read_ b.
Definition BytesBuffered : Z := num_bytes_buffered_ b.

Definition GetBlockIndex (offset : Z) : Z :=
  (offset mod max_buffer_capacity_bytes_ b) / kBlockSizeBytes.

Definition GetInBlockOffset (offset : Z) : Z :=
  (offset mod max_buffer_capacity_bytes_ b) mod kBlockSizeBytes.

Definition ReadOffset : Z := GetInBlockOffset (total_bytes_read_ b).
Definition NextBlockToRead : Z := GetBlockIndex (total_bytes_read_ b).

Definition Empty : bool :=
  match bytes_received_ b with
  | [] => true
  | [x] => (total_bytes_read_ b >? 0) && (imax x =? total_bytes_read_ b)
  | _ => false
  end.

Definition GetBlockCapacity (block_index : Z) : Z :=
  if block_index + 1 =? blocks_count_ then
    let result := max_buffer_capacity_bytes_ b mod kBlockSizeBytes in
    if result =? 0 then kBlockSizeBytes else result
  else kBlockSizeBytes.
End Queries.

(** ** Blocks *)

(** [blocks_[i]]: null is [None]. *)
Definition block_at (i : Z) : M Buffer (option BufferBlock) :=
  b ← get;
  m ← deref (blocks_ b) NullDeref;
  if (0 <=? i) && (i <? blocks_count_ b) then mret (m !! i) else crashed OutOfBounds.

Definition set_block (i : Z) (p : option BufferBlock) : M Buffer unit :=
  b ← get;
  m ← deref (blocks_ b) NullDeref;
  if (0 <=? i) && (i <? blocks_count_ b)
  then modify (fun b => with_blocks b (Some (partial_alter (fun _ => p) i m)))
  else crashed OutOfBounds.

(** [memcpy] into and out of a block *)
Fixpoint put_bytes (pos : Z) (l : list Z) (k : BufferBlock) : BufferBlock :=
  match l with
  | [] => k
  | c :: l' => put_bytes (pos + 1) l' (<[pos := c]> k)
  end.

Definition in_block (pos n : Z) : bool := (0 <=? pos) && (pos + n <=? kBlockSizeBytes).

Definition copy_in (i pos : Z) (l : list Z) : M Buffer unit :=
  k ← block_at i;
  k ← deref k NullDeref;
  if in_block pos (Z.of_nat (length l)) then set_block i (Some (put_bytes pos l k))
  else crashed OutOfBounds.

Definition copy_out (i pos n : Z) : M Buffer (list Z) :=
  k ← block_at i;
  k ← deref k NullDeref;
  if in_block pos n then deref (mapM (fun j => k !! j) (seqZ pos n)) Uninit
  else crashed OutOfBounds.

(** [bool RetireBlock(size_t idx)] *)
Definition RetireBlock (idx : Z) : M Buffer bool :=
  k ← block_at idx;
  match k with
  | None => mret false
  | Some _ => set_block idx None;; mret true
  end.

(** [bool RetireBlockIfEmpty(size_t block_index)] *)
Definition RetireBlockIfEmpty (block_index : Z) : M Buffer bool :=
  b ← get;
  if Empty b then RetireBlock block_index
  else if GetBlockIndex b (uint64 (NextExpectedByte b - 1)) =? block_index then mret true
  else if NextBlockToRead b =? block_index then
    match bytes_received_ b with
    | _ :: x :: _ =>
        if GetBlockIndex b (imin x) =? block_index then mret true else RetireBlock block_index
    | _ => mret false
    end
  else RetireBlock block_index.

(** [void Clear()] *)
Definition Clear : M Buffer unit :=
  b ← get;
  (match blocks_ b with
   | Some _ =>
       for_each (seqZ 0 (blocks_count_ b)) (fun i =>
         k ← block_at i;
         match k with
         | Some _ => _ ← RetireBlock i; mret tt
         | None => mret tt
         end)
   | None => mret tt
   end);;
  modify (fun b => with_frames (with_received (with_counts b (total_bytes_read_ b) 0)
                                  (IntervalSet.AddRange 0 (total_bytes_read_ b) [])) []).

(** The constructor, without its [CHECK_GT(blocks_count_, 1u)] *)
Definition init (max_capacity_bytes : Z) : Buffer :=
  {| max_buffer_capacity_bytes_ := max_capacity_bytes; total_bytes_read_ := 0; blocks_ := None;
     num_bytes_buffered_ := 0; frame_arrival_time_map_ := []; bytes_received_ := [] |}.

(** ** Receiving *)

(** [bool CopyStreamData(offset, data, bytes_copy, error_details)]: whether it
    succeeded and [*bytes_copy]; each turn copies at least one byte. *)
Fixpoint copy_loop (fuel : nat) (offset : Z) (source : list Z) (bytes_copy : Z) : M Buffer (bool * Z) :=
  match source, fuel with
  | [], _ => mret (true, bytes_copy)
  | _, O => crashed OutOfFuel
  | _, S fuel' =>
      b ← get;
      let write_block_num := GetBlockIndex b offset in
      let write_block_offset := GetInBlockOffset b offset in
      let block_capacity := GetBlockCapacity b write_block_num in
      let bytes_avail := uint64 (block_capacity - write_block_offset) in
      let limit := uint64 (total_bytes_read_ b + max_buffer_capacity_bytes_ b) in
      let bytes_avail := if uint64 (offset + bytes_avail) >? limit
                         then uint64 (limit - offset) else bytes_avail in
      when (match blocks_ b with None => true | Some _ => false end)
        (modify (fun b => with_blocks b (Some ∅)));;
      if write_block_num >=? blocks_count_ b then mret (false, bytes_copy)
      else
        k ← block_at write_block_num;
        when (match k with None => true | Some _ => false end) (set_block write_block_num (Some ∅));;
        let bytes_to_copy := Z.min bytes_avail (Z.of_nat (length source)) in
        copy_in write_block_num write_block_offset (take (Z.to_nat bytes_to_copy) source);;
        copy_loop fuel' (uint64 (offset + bytes_to_copy)) (drop (Z.to_nat bytes_to_copy) source)
          (bytes_copy + bytes_to_copy)
  end.

Definition CopyStreamData (offset : Z) (data : list Z) : M Buffer (bool * Z) :=
  copy_loop (length data) offset data 0.

(** [frame_arrival_time_map_.insert]: a key that is there stays. *)
Fixpoint insert_frame (o : Z) (i : FrameInfo) (l : list (Z * FrameInfo)) : list (Z * FrameInfo) :=
  match l with
  | [] => [(o, i)]
  | (o', i') :: l' =>
      if o <? o' then (o, i) :: l
      else if o' <? o then (o', i') :: insert_frame o i l'
      else l
  end.

Definition add_frame (o len t : Z) : M Buffer unit :=
  modify (fun b => with_frames b (insert_frame o {| flength := len; timestamp := t |}
                                    (frame_arrival_time_map_ b))).

(** [const_cast<...>( *bytes_received_.rbegin() )->SetMax(max)] *)
Definition set_last_max (mx : Z) (l : IntervalSet.t) : IntervalSet.t :=
  match last l with
  | Some x => removelast l ++ [mk (imin x) mx]
  | None => l
  end.

Section OnStreamData.
(* FLAGS_quic_reloadable_flag_quic_fast_path_on_stream_data *)
Variable quic_fast_path_on_stream_data : bool.

(** The loop over [newly_received]: [None] when a copy failed. *)
Fixpoint copy_new (starting_offset : Z) (data : list Z) (t : Z) (l : list Interval) (bytes : Z)
    : M Buffer (bool * Z) :=
  match l with
  | [] => mret (true, bytes)
  | x :: l' =>
      let copy_offset := imin x in
      let copy_length := imax x - imin x in
      r ← CopyStreamData copy_offset
            (take (Z.to_nat copy_length) (drop (Z.to_nat (copy_offset - starting_offset)) data));
      if negb r.1 then mret (false, bytes)
      else
        add_frame copy_offset copy_length t;;
        copy_new starting_offset data t l' (bytes + r.2)
  end.

(** [QuicErrorCode OnStreamData(starting_offset, data, timestamp, bytes_buffered,
    error_details)]: the code and [*bytes_buffered] *)
Definition OnStreamData (starting_offset : Z) (data : list Z) (t : Z) : M Buffer (Z * Z) :=
  let size := Z.of_nat (length data) in
  if size =? 0 then mret (QUIC_EMPTY_STREAM_FRAME_NO_FIN, 0)
  else
    b ← get;
    let end_ := uint64 (starting_offset + size) in
    if (end_ >? uint64 (total_bytes_read_ b + max_buffer_capacity_bytes_ b))
       || (end_ <? starting_offset)
    then mret (QUIC_INTERNAL_ERROR, 0)
    else
      let r := bytes_received_ b in
      if quic_fast_path_on_stream_data &&
         ((match last r with None => true | Some x => starting_offset >=? imax x end)
          || IntervalSet.IsDisjoint (mk starting_offset end_) r)
      then
        ok ← (if (match last r with None => false | Some x => starting_offset =? imax x end)
              then modify (fun b => with_received b (set_last_max end_ r));; mret true
              else
                let r' := IntervalSet.AddRange starting_offset end_ r in
                modify (fun b => with_received b r');;
                mret (negb (Z.of_nat (length r') >=? kMaxNumDataIntervalsAllowed)));
        if negb ok then mret (QUIC_TOO_MANY_STREAM_DATA_INTERVALS, 0)
        else
          c ← CopyStreamData starting_offset data;
          if negb c.1 then mret (QUIC_STREAM_SEQUENCER_INVALID_STATE, 0)
          else
            add_frame starting_offset size t;;
            modify (fun b => with_counts b (total_bytes_read_ b) (uint64 (num_bytes_buffered_ b + c.2)));;
            mret (QUIC_NO_ERROR, c.2)
      else
        newly_received ← deref (IntervalSet.Difference r (IntervalSet.AddRange starting_offset end_ []))
                           OutOfFuel;
        match newly_received with
        | [] => mret (QUIC_NO_ERROR, 0)
        | _ =>
            let r' := IntervalSet.AddRange starting_offset end_ r in
            modify (fun b => with_received b r');;
            if Z.of_nat (length r') >=? kMaxNumDataIntervalsAllowed
            then mret (QUIC_TOO_MANY_STREAM_DATA_INTERVALS, 0)
            else
              c ← copy_new starting_offset data t newly_received 0;
              if negb c.1 then mret (QUIC_STREAM_SEQUENCER_INVALID_STATE, c.2)
              else
                modify (fun b => with_counts b (total_bytes_read_ b)
                                   (uint64 (num_bytes_buffered_ b + c.2)));;
                mret (QUIC_NO_ERROR, c.2)
        end.
End OnStreamData.

(** ** Reading *)

(** The loop of [UpdateFrameArrivalMap] on the frames before [next_frame] and
    the rest.  A frame put back goes to the end of those still to visit, or, once
    none is left, before [next_frame] where it is not visited. *)
Fixpoint update_frames (fuel : nat) (offset : Z) (pre post : list (Z * FrameInfo))
    : list (Z * FrameInfo) :=
  match pre, fuel with
  | [], _ => post
  | _, O => pre ++ post
  | (o, i) :: pre', S fuel' =>
      let e := uint64 (o + flength i) in
      let rest := {| flength := uint64 (e - offset); timestamp := timestamp i |} in
      match pre' with
      | [] => if e >? offset then insert_frame offset rest post else post
      | _ => update_frames fuel' offset (if e >? offset then insert_frame offset rest pre' else pre') post
      end
  end.

(** [frame_arrival_time_map_.upper_bound(offset)] *)
Fixpoint split_frames (offset : Z) (l : list (Z * FrameInfo))
    : list (Z * FrameInfo) * list (Z * FrameInfo) :=
  match l with
  | [] => ([], [])
  | (o, i) :: l' =>
      if offset <? o then ([], l) else let '(pre, post) := split_frames offset l' in ((o, i) :: pre, post)
  end.

(** [void UpdateFrameArrivalMap(QuicStreamOffset offset)] *)
Definition UpdateFrameArrivalMap (offset : Z) : M Buffer unit :=
  modify (fun b =>
    let '(pre, post) := split_frames offset (frame_arrival_time_map_ b) in
    with_frames b (update_frames (2 + length pre) offset pre post)).

(** The inner loop of [Readv]: the code and the bytes copied to [dest]. *)
Fixpoint readv_loop (fuel : nat) (dest_remaining : Z) : M Buffer (Z * list Z) :=
  b ← get;
  if (dest_remaining >? 0) && (ReadableBytes b >? 0) then
    match fuel with
    | O => crashed OutOfFuel
    | S fuel' =>
        let block_idx := NextBlockToRead b in
        let start_offset_in_block := ReadOffset b in
        let block_capacity := GetBlockCapacity b block_idx in
        let bytes_available_in_block :=
          Z.min (ReadableBytes b) (uint64 (block_capacity - start_offset_in_block)) in
        let bytes_to_copy := Z.min bytes_available_in_block dest_remaining in
        k ← block_at block_idx;
        match k with
        | None => mret (QUIC_STREAM_SEQUENCER_INVALID_STATE, [])
        | Some _ =>
            bytes ← copy_out block_idx start_offset_in_block bytes_to_copy;
            modify (fun b => with_counts b (uint64 (total_bytes_read_ b + bytes_to_copy))
                                           (uint64 (num_bytes_buffered_ b - bytes_to_copy)));;
            ok ← (if bytes_to_copy =? bytes_available_in_block
                  then RetireBlockIfEmpty block_idx else mret true);
            if negb ok then mret (QUIC_STREAM_SEQUENCER_INVALID_STATE, bytes)
            else
              r ← readv_loop fuel' (dest_remaining - bytes_to_copy);
              mret (r.1, bytes ++ r.2)
        end
    end
  else mret (QUIC_NO_ERROR, []).

(** The outer loop, on the lengths of the buffers that are left. *)
Fixpoint readv_all (iov : list Z) : M Buffer (Z * list (list Z)) :=
  match iov with
  | [] => mret (QUIC_NO_ERROR, [])
  | len :: iov' =>
      b ← get;
      if ReadableBytes b >? 0 then
        r ← readv_loop (Z.to_nat (Z.min len (ReadableBytes b))) len;
        if negb (r.1 =? QUIC_NO_ERROR) then mret (r.1, [r.2])
        else
          s ← readv_all iov';
          mret (s.1, r.2 :: s.2)
      else mret (QUIC_NO_ERROR, [])
  end.

(** [QuicErrorCode Readv(dest_iov, dest_count, bytes_read, error_details)]: the
    code and what each buffer received *)
Definition Readv (iov : list Z) : M Buffer (Z * list (list Z)) :=
  r ← readv_all iov;
  if negb (r.1 =? QUIC_NO_ERROR) then mret r
  else
    (match concat r.2 with
     | [] => mret tt
     | _ => b ← get; UpdateFrameArrivalMap (total_bytes_read_ b)
     end);;
    mret r.

(** [bool MarkConsumed(size_t bytes_used)] *)
Fixpoint consume_loop (fuel : nat) (bytes_to_consume : Z) : M Buffer unit :=
  if bytes_to_consume >? 0 then
    match fuel with
    | O => crashed OutOfFuel
    | S fuel' =>
        b ← get;
        let block_idx := NextBlockToRead b in
        let offset_in_block := ReadOffset b in
        let bytes_available :=
          Z.min (ReadableBytes b) (uint64 (GetBlockCapacity b block_idx - offset_in_block)) in
        let bytes_read := Z.min bytes_to_consume bytes_available in
        modify (fun b => with_counts b (uint64 (total_bytes_read_ b + bytes_read))
                                       (uint64 (num_bytes_buffered_ b - bytes_read)));;
        (if bytes_available =? bytes_read then _ ← RetireBlockIfEmpty block_idx; mret tt else mret tt);;
        consume_loop fuel' (bytes_to_consume - bytes_read)
    end
  else mret tt.

Definition MarkConsumed (bytes_used : Z) : M Buffer bool :=
  b ← get;
  if bytes_used >? ReadableBytes b then mret false
  else
    consume_loop (Z.to_nat bytes_used) bytes_used;;
    (if bytes_used >? 0 then b ← get; UpdateFrameArrivalMap (total_bytes_read_ b) else mret tt);;
    mret true.

(** A region of a block as an [iovec] refers to it. *)
Definition region (i pos n : Z) : M Buffer (list Z) := copy_out i pos n.

(** The loop of [GetReadableRegions] over whole blocks, from the [used]-th on. *)
Fixpoint whole_regions (fuel : nat) (start_block_idx end_block_idx iov_count used : Z)
    : M Buffer (Z * list (list Z)) :=
  b ← get;
  let block_idx := (start_block_idx + used) mod blocks_count_ b in
  if negb (block_idx =? end_block_idx) && (used <? iov_count) then
    match fuel with
    | O => crashed OutOfFuel
    | S fuel' =>
        x ← region block_idx 0 (GetBlockCapacity b block_idx);
        r ← whole_regions fuel' start_block_idx end_block_idx iov_count (used + 1);
        mret (r.1, x :: r.2)
    end
  else mret (used, []).

(** [int GetReadableRegions(struct iovec* iov, int iov_count) const]: the regions
    filled in, one for each entry used *)
Definition GetReadableRegions (iov_count : Z) : M Buffer (list (list Z)) :=
  b ← get;
  if ReadableBytes b =? 0 then mret []
  else
    let start_block_idx := NextBlockToRead b in
    let readable_offset_end := uint64 (FirstMissingByte b - 1) in
    let end_block_offset := GetInBlockOffset b readable_offset_end in
    let end_block_idx := GetBlockIndex b readable_offset_end in
    if (start_block_idx =? end_block_idx) && (ReadOffset b <=? end_block_offset) then
      x ← region start_block_idx (ReadOffset b) (ReadableBytes b);
      mret [x]
    else
      x ← region start_block_idx (ReadOffset b) (GetBlockCapacity b start_block_idx - ReadOffset b);
      r ← whole_regions (Z.to_nat (blocks_count_ b)) start_block_idx end_block_idx iov_count 1;
      if r.1 <? iov_count then
        y ← region end_block_idx 0 (end_block_offset + 1);
        mret (x :: r.2 ++ [y])
      else mret (x :: r.2).

(** The loop of [GetReadableRegion] over the frames: the bytes of the region, and
    whether a frame of another time ended it. *)
Fixpoint region_frames (t readable region_len : Z) (l : list (Z * FrameInfo)) : Z :=
  match l with
  | [] => readable
  | (_, i) :: l' =>
      if region_len + flength i <=? readable then
        if negb (timestamp i =? t) then region_len
        else region_frames t readable (region_len + flength i) l'
      else if timestamp i =? t then readable else region_len
  end.

(** [bool GetReadableRegion(iovec* iov, QuicTime* timestamp) const] *)
Definition GetReadableRegion : M Buffer (option (list Z * Z)) :=
  b ← get;
  if ReadableBytes b =? 0 then mret None
  else
    let start_block_idx := NextBlockToRead b in
    let readable_bytes_in_block :=
      Z.min (GetBlockCapacity b start_block_idx - ReadOffset b) (ReadableBytes b) in
    f ← deref (head (frame_arrival_time_map_ b)) EndIterator;
    let t := timestamp f.2 in
    x ← region start_block_idx (ReadOffset b)
          (region_frames t readable_bytes_in_block 0 (frame_arrival_time_map_ b));
    mret (Some (x, t)).

(** [size_t FlushBufferedFrames()] *)
Definition FlushBufferedFrames : M Buffer Z :=
  b ← get;
  let prev_total_bytes_read := total_bytes_read_ b in
  modify (fun b => with_counts b (NextExpectedByte b) (num_bytes_buffered_ b));;
  Clear;;
  mret (uint64 (NextExpectedByte b - prev_total_bytes_read)).

(** [void ReleaseWholeBuffer()] *)
Definition ReleaseWholeBuffer : M Buffer unit :=
  Clear;;
  modify (fun b => with_blocks b None).

End SequencerBuffer.

Example sequencer_demo :
  let b := SequencerBuffer.init 10000 in
  match (SequencerBuffer.OnStreamData false 3 [4; 5; 6] 1;;
         SequencerBuffer.OnStreamData false 0 [1; 2; 3; 4] 2;;
         SequencerBuffer.Readv [2; 3; 9]) b with
  | Ret r b' => r = (0, [[1; 2]; [3; 4; 5]; [6]]) /\ SequencerBuffer.blocks_ b' = Some ∅
  | Crash _ => False
  end.
Proof. vm_compute. done. Qed.
