(* ===== verification/Reassembly.v ===== *)
(** The reassembly buffer is correct: whatever order frames arrive in, however
    they overlap and however they are read, the bytes read are those of the
    stream, in order and once each, and no block is read, written or released
    wrongly. *)

From S2P Require Import Prelude IntervalSet Intervals SequencerBuffer.
Import Interval.
Import SequencerBuffer.

Notation cap b := (max_buffer_capacity_bytes_ b).
Notation total b := (total_bytes_read_ b).
Notation received b := (bytes_received_ b).

(** ** The ring *)

Section Ring.
Context (b : Buffer) (Hcap : kBlockSizeBytes < cap b).

Definition block_start (v : Z) : Z := v - GetInBlockOffset b v.
Definition block_end (v : Z) : Z := block_start v + GetBlockCapacity b (GetBlockIndex b v).

Lemma kBlock_pos : 0 < kBlockSizeBytes.
Proof. done. Qed.

Lemma count_spec : 2 <= blocks_count_ b /\
  kBlockSizeBytes * (blocks_count_ b - 1) < cap b <= kBlockSizeBytes * blocks_count_ b.
Proof.
  unfold blocks_count_, CalculateBlockCount. pose proof kBlock_pos. set (K := kBlockSizeBytes) in *.
  pose proof (Z.div_mod (cap b + K - 1) K). pose proof (Z.mod_pos_bound (cap b + K - 1) K).
  set (q := (cap b + K - 1) / K) in *. nia.
Qed.

Lemma slot_spec v : 0 <= GetInBlockOffset b v < kBlockSizeBytes /\ 0 <= GetBlockIndex b v /\
  v mod cap b = kBlockSizeBytes * GetBlockIndex b v + GetInBlockOffset b v.
Proof.
  unfold GetInBlockOffset, GetBlockIndex. pose proof kBlock_pos.
  pose proof (Z.mod_pos_bound v (cap b)).
  pose proof (Z.mod_pos_bound (v mod cap b) kBlockSizeBytes).
  pose proof (Z.div_mod (v mod cap b) kBlockSizeBytes).
  pose proof (Z.div_pos (v mod cap b) kBlockSizeBytes). lia.
Qed.

Lemma index_range v : 0 <= GetBlockIndex b v < blocks_count_ b.
Proof.
  pose proof (slot_spec v) as (? & ? & ?). pose proof count_spec as (? & ? & ?).
  pose proof (Z.mod_pos_bound v (cap b)). pose proof kBlock_pos. nia.
Qed.

(** A block ends at the next one, or at the end of the ring. *)
Lemma capacity_spec i : 0 <= i < blocks_count_ b ->
  0 < GetBlockCapacity b i <= kBlockSizeBytes /\
  (i + 1 < blocks_count_ b -> GetBlockCapacity b i = kBlockSizeBytes) /\
  (i + 1 = blocks_count_ b -> kBlockSizeBytes * i + GetBlockCapacity b i = cap b).
Proof.
  intros Hi. unfold GetBlockCapacity. pose proof count_spec as (? & ? & ?). pose proof kBlock_pos.
  destruct (Z.eqb_spec (i + 1) (blocks_count_ b)) as [E|E]; [|lia].
  set (K := kBlockSizeBytes) in *.
  pose proof (Z.div_mod (cap b) K). pose proof (Z.mod_pos_bound (cap b) K).
  set (q := cap b / K) in *. set (r := cap b mod K) in *.
  assert (i = blocks_count_ b - 1) as -> by lia.
  destruct (Z.eqb_spec r 0).
  - assert (q = blocks_count_ b) by nia. split_and!; try lia; intros; nia.
  - assert (q = blocks_count_ b - 1) by nia. split_and!; try lia; intros; nia.
Qed.

Lemma in_block_offset v : GetInBlockOffset b v < GetBlockCapacity b (GetBlockIndex b v).
Proof.
  pose proof (slot_spec v) as (Ho & Hi & E). pose proof (index_range v) as Hr.
  pose proof (capacity_spec _ Hr) as (Hc & Hmid & Hlast). pose proof (Z.mod_pos_bound v (cap b)).
  pose proof kBlock_pos.
  destruct (Z.eq_dec (GetBlockIndex b v + 1) (blocks_count_ b)) as [El|]; [specialize (Hlast El)|]; lia.
Qed.

Lemma block_bounds v : block_start v <= v < block_end v /\ block_end v <= block_start v + kBlockSizeBytes.
Proof.
  unfold block_end, block_start. pose proof (slot_spec v). pose proof (in_block_offset v).
  pose proof (capacity_spec _ (index_range v)). lia.
Qed.

(** The offsets kept in the block of [v]: its own segment, shifted by whole
    turns of the ring. *)
Lemma same_block v w : GetBlockIndex b w = GetBlockIndex b v <->
  exists j, block_start v + j * cap b <= w < block_end v + j * cap b.
Proof.
  pose proof kBlock_pos. pose proof (slot_spec v) as (Hov & Hiv & Ev).
  pose proof (slot_spec w) as (How & Hiw & Ew). pose proof (in_block_offset w) as Hw.
  pose proof (index_range v) as Hr. pose proof (capacity_spec _ Hr) as (Hc & Hmid & Hlast).
  pose proof (Z.div_mod v (cap b)) as Dv. pose proof (Z.div_mod w (cap b)) as Dw.
  unfold block_end, block_start. split.
  - intros E. rewrite E in *. exists (w / cap b - v / cap b). nia.
  - intros [j Hj].
    assert (kBlockSizeBytes * GetBlockIndex b v + GetBlockCapacity b (GetBlockIndex b v) <= cap b) as Hend.
    { destruct (Z.eq_dec (GetBlockIndex b v + 1) (blocks_count_ b)) as [El|]; [by rewrite Hlast|].
      rewrite Hmid by lia. pose proof count_spec. nia. }
    assert (w mod cap b = w - cap b * (v / cap b + j)) as Em.
    { symmetry. apply (Zmod_unique w (cap b) (v / cap b + j)); nia. }
    rewrite Ew in Em. nia.
Qed.

Lemma slot_within v w : block_start v <= w < block_end v ->
  GetBlockIndex b w = GetBlockIndex b v /\ GetInBlockOffset b w = w - block_start v.
Proof.
  intros Hw. assert (GetBlockIndex b w = GetBlockIndex b v) as Ei by (apply same_block; exists 0; lia).
  split; [done|]. pose proof (slot_spec v) as (Hov & Hiv & Ev).
  pose proof (slot_spec w) as (How & Hiw & Ew). rewrite Ei in Ew. unfold block_start in *.
  pose proof (Z.div_mod v (cap b)) as Dv. pose proof (Z.div_mod w (cap b)) as Dw.
  pose proof kBlock_pos. pose proof (block_bounds v) as [_ Hb]. unfold block_start in Hb.
  assert (w / cap b = v / cap b) by nia. nia.
Qed.

Lemma slot_offset v w j : block_start v + j * cap b <= w < block_end v + j * cap b ->
  GetInBlockOffset b w = w - block_start v - j * cap b.
Proof.
  intros Hw. assert (GetBlockIndex b w = GetBlockIndex b v) as Ei by (apply same_block; by exists j).
  pose proof (slot_spec v) as (Hov & Hiv & Ev). pose proof (slot_spec w) as (How & Hiw & Ew).
  rewrite Ei in Ew. pose proof (block_bounds v) as [Hb1 Hb2]. unfold block_start in *.
  pose proof (Z.div_mod v (cap b)) as Dv. pose proof (Z.div_mod w (cap b)) as Dw.
  pose proof kBlock_pos. assert (w / cap b = v / cap b + j) by nia. nia.
Qed.

(** Where a block ends the next one starts. *)
Lemma next_block v : GetInBlockOffset b (block_end v) = 0 /\
  GetBlockIndex b (block_end v) = (GetBlockIndex b v + 1) mod blocks_count_ b.
Proof.
  pose proof (slot_spec v) as (Hov & Hiv & Ev). pose proof (index_range v) as Hr.
  pose proof (capacity_spec _ Hr) as (Hc & Hmid & Hlast). pose proof count_spec as (Hn & Hlo & Hhi).
  pose proof (Z.div_mod v (cap b)) as Dv. pose proof kBlock_pos.
  assert (block_end v mod cap b = kBlockSizeBytes * ((GetBlockIndex b v + 1) mod blocks_count_ b)) as Em.
  { unfold block_end, block_start.
    destruct (Z.eq_dec (GetBlockIndex b v + 1) (blocks_count_ b)) as [El|Hne].
    - specialize (Hlast El). rewrite El, Z.mod_same, Z.mul_0_r by lia.
      symmetry. apply (Zmod_unique _ (cap b) (v / cap b + 1)); nia.
    - rewrite (Hmid ltac:(lia)), (Z.mod_small (GetBlockIndex b v + 1)) by lia.
      symmetry. apply (Zmod_unique _ (cap b) (v / cap b)); nia. }
  unfold GetInBlockOffset at 1, GetBlockIndex at 1. rewrite Em, Z.mul_comm.
  by rewrite Z.mod_mul, Z.div_mul by lia.
Qed.

(** In a window of the size of the ring a slot belongs to one offset. *)
Lemma slot_inj a v w : a <= v < a + cap b -> a <= w < a + cap b ->
  GetBlockIndex b v = GetBlockIndex b w -> GetInBlockOffset b v = GetInBlockOffset b w -> v = w.
Proof.
  intros Hv Hw Ei Eo. pose proof (slot_spec v) as (_ & _ & Ev). pose proof (slot_spec w) as (_ & _ & Ew).
  rewrite <- Ei, <- Eo in Ew. assert (v mod cap b = w mod cap b) as E by lia.
  pose proof (Z.div_mod v (cap b)). pose proof (Z.div_mod w (cap b)). pose proof kBlock_pos.
  assert (v / cap b = w / cap b) by nia. lia.
Qed.
End Ring.

(** ** What is stored *)

(** The byte [c] is kept in the slot of offset [v]. *)
Definition stored (b : Buffer) (v c : Z) : Prop :=
  exists m k, blocks_ b = Some m /\ m !! GetBlockIndex b v = Some k /\
    k !! GetInBlockOffset b v = Some c.

Lemma put_bytes_lookup l : forall pos k i,
  put_bytes pos l k !! i =
  if decide (pos <= i < pos + Z.of_nat (length l)) then l !! Z.to_nat (i - pos) else k !! i.
Proof.
  induction l as [|c l IH]; intros pos k i; simpl; [case_decide; [lia|done]|].
  rewrite IH, lookup_insert.
  destruct (decide (pos = i)) as [->|Hne].
  - rewrite (decide_False (P := i + 1 <= i < _)) by lia.
    rewrite decide_True by lia. by rewrite Z.sub_diag.
  - destruct (decide (pos + 1 <= i < pos + 1 + Z.of_nat (length l))).
    + rewrite decide_True by lia. replace (Z.to_nat (i - pos)) with (S (Z.to_nat (i - (pos + 1)))) by lia.
      done.
    + rewrite decide_False by lia. done.
Qed.

Lemma one_range n : (length (IntervalSet.AddRange 0 n []) <= 1)%nat.
Proof.
  unfold IntervalSet.AddRange, IntervalSet.Add. destruct (Interval.Empty _); simpl; [lia|].
  unfold IntervalSet.Compact. destruct (drop _ (take _ _)) as [|x m] eqn:E; simpl; [lia|].
  destruct (less _ _); [done|]. injection E as <- <-. simpl. lia.
Qed.

Lemma member_one_range n v : member v (IntervalSet.AddRange 0 n []) <-> 0 <= v < n.
Proof.
  unfold IntervalSet.AddRange. destruct (Add_spec (mk 0 n) [] valid_nil) as [_ ->].
  rewrite member_nil_False. unfold within. simpl. tauto.
Qed.

(** ** The invariant *)

Section Stream.
(* the bytes of the stream, and an offset no frame goes beyond *)
Context (sent : Z -> Z) (limit : Z).

Definition in_range (b : Buffer) : Prop := limit + cap b + kBlockSizeBytes <= 2 ^ 64.

Record holds (b : Buffer) : Prop := {
  h_cap : kBlockSizeBytes < cap b;
  h_range : in_range b;
  h_total : 0 <= total b;
  h_valid : valid (received b);
  h_read : forall v, 0 <= v < total b -> member v (received b);
  h_member : forall v, member v (received b) -> 0 <= v < limit /\ v < total b + cap b;
  h_data : forall v, member v (received b) -> total b <= v -> stored b v (sent v);
  h_count : num_bytes_buffered_ b = count (received b) - total b;
  h_few : Z.of_nat (length (received b)) < kMaxNumDataIntervalsAllowed
}.

Lemma first_missing b : holds b ->
  total b <= FirstMissingByte b /\ (forall v, 0 <= v < FirstMissingByte b -> member v (received b)) /\
  ~ member (FirstMissingByte b) (received b) /\ FirstMissingByte b <= Z.max 0 limit.
Proof.
  intros [Hc Hl Ht Hv Hr Hm _ _ _]. unfold FirstMissingByte.
  destruct (received b) as [|x l].
  - split_and!; [|lia|apply member_nil|lia].
    destruct (Z.le_gt_cases (total b) 0); [done|]. by destruct (member_nil 0 (Hr 0 ltac:(lia))).
  - pose proof Hv as (Hn & Hx & _)%valid_cons. unfold nonempty in Hn.
    pose proof (Hm (imin x) (member_min x l Hn)) as H0. rewrite Z.gtb_ltb.
    destruct (Z.ltb_spec 0 (imin x)).
    + assert (~ member 0 (x :: l)) as Hn0 by (intros H1%(valid_head_least x l 0 Hv); lia).
      split_and!; [|lia|done|lia].
      destruct (Z.le_gt_cases (total b) 0); [done|]. by destruct (Hn0 (Hr 0 ltac:(lia))).
    + assert (~ member (imax x) (x :: l)) as Hne by (apply end_not_member; [done|left]).
      split_and!; [|intros v ?; apply member_cons; left; unfold within; lia|done|].
      * destruct (Z.le_gt_cases (total b) (imax x)); [done|]. destruct (Hne (Hr (imax x) ltac:(lia))).
      * assert (member (imax x - 1) (x :: l)) as H1 by (apply member_cons; left; unfold within; lia).
        apply Hm in H1. lia.
Qed.

Lemma total_small b : holds b -> 0 <= total b <= Z.max 0 limit.
Proof. intros Hh. pose proof (first_missing b Hh). pose proof (h_total b Hh). lia. Qed.

Lemma readable b : holds b -> ReadableBytes b = FirstMissingByte b - total b.
Proof.
  intros Hh. pose proof (first_missing b Hh) as (? & _ & _ & ?). pose proof (h_range b Hh) as Hr.
  pose proof (h_cap b Hh). pose proof kBlock_pos. pose proof (h_total b Hh). unfold in_range in Hr.
  apply uint64_small. lia.
Qed.

(** ** Copying into the ring *)

(** [b'] is [b] with the bytes [l] written from offset [o] on. *)
Record copied (b b' : Buffer) (o : Z) (l : list Z) : Prop := {
  cp_blocks : exists m, b' = with_blocks b m;
  cp_new : forall i c, l !! i = Some c -> stored b' (o + Z.of_nat i) c;
  cp_old : forall v c, total b <= v < total b + cap b ->
    ~ (o <= v < o + Z.of_nat (length l)) -> stored b v c -> stored b' v c
}.

Lemma copied_nil b o : copied b b o [].
Proof. split; [exists (blocks_ b); by destruct b|done|done]. Qed.

Lemma copied_app b b1 b2 o l1 l2 :
  total b <= o -> o + Z.of_nat (length (l1 ++ l2)) <= total b + cap b ->
  copied b b1 o l1 -> copied b1 b2 (o + Z.of_nat (length l1)) l2 -> copied b b2 o (l1 ++ l2).
Proof.
  intros Hlo Hhi [[m1 ->] N1 O1] [[m2 ->] N2 O2]. rewrite length_app in Hhi. split.
  - by exists m2.
  - intros i c [Hi|[Hge Hi]]%lookup_app_Some.
    + pose proof (lookup_lt_Some _ _ _ Hi). apply O2; [simpl; lia|lia|]. by apply N1.
    + specialize (N2 _ _ Hi).
      replace (o + Z.of_nat (length l1) + Z.of_nat (i - length l1)) with (o + Z.of_nat i) in N2 by lia. done.
  - intros v c Hv Hout Hs. rewrite length_app in Hout. apply O2; [done|lia|]. apply O1; [done|lia|done].
Qed.

Definition old_blocks (b : Buffer) : gmap Z BufferBlock := default ∅ (blocks_ b).
Definition old_block (b : Buffer) (i : Z) : BufferBlock := default ∅ (old_blocks b !! i).

(** A chunk that stays in one block. *)
Lemma copied_chunk b o l :
  kBlockSizeBytes < cap b -> total b <= o -> o + Z.of_nat (length l) <= total b + cap b ->
  o + Z.of_nat (length l) <= block_end b o ->
  copied b (with_blocks b (Some (<[GetBlockIndex b o :=
              put_bytes (GetInBlockOffset b o) l (old_block b (GetBlockIndex b o))]> (old_blocks b)))) o l.
Proof.
  intros Hcap Hlo Hhi Hend. pose proof (block_bounds b Hcap o) as [Hst _].
  assert (block_start b o = o - GetInBlockOffset b o) as Es by done. split.
  - by eexists.
  - intros i c Hi. pose proof (lookup_lt_Some _ _ _ Hi).
    destruct (slot_within b Hcap o (o + Z.of_nat i)) as [Ei Eo]; [lia|].
    eexists _, _. split; [done|].
    change (GetBlockIndex (with_blocks b _) ?v) with (GetBlockIndex b v).
    change (GetInBlockOffset (with_blocks b _) ?v) with (GetInBlockOffset b v).
    rewrite Ei, Eo, lookup_insert_eq. split; [done|]. rewrite put_bytes_lookup.
    rewrite decide_True by lia. rewrite <- Hi. f_equal. lia.
  - intros v c Hv Hout (m & k & Em & Ek & Ec). unfold stored.
    change (GetBlockIndex (with_blocks b _) ?v) with (GetBlockIndex b v).
    change (GetInBlockOffset (with_blocks b _) ?v) with (GetInBlockOffset b v).
    unfold old_block, old_blocks. rewrite Em. simpl.
    destruct (decide (GetBlockIndex b v = GetBlockIndex b o)) as [E|E].
    + rewrite <- E, Ek. eexists _, _. split; [done|]. rewrite lookup_insert_eq. split; [done|].
      rewrite put_bytes_lookup. rewrite decide_False; [done|]. intros Hin.
      set (w := o + (GetInBlockOffset b v - GetInBlockOffset b o)).
      destruct (slot_within b Hcap o w) as [Ei Eo]; [unfold w; lia|].
      assert (v = w); [|unfold w in *; lia].
      apply (slot_inj b Hcap (total b)); [done|unfold w; lia|congruence|]. rewrite Eo. unfold w. lia.
    + eexists _, k. split; [done|]. by rewrite lookup_insert_ne.
Qed.

Lemma block_at_run b m i :
  blocks_ b = Some m -> 0 <= i < blocks_count_ b -> block_at i b = Ret (m !! i) b.
Proof.
  intros E Hi. unfold block_at, mbind, M_bind, get, deref. rewrite E.
  destruct (Z.leb_spec 0 i), (Z.ltb_spec i (blocks_count_ b)); try lia. done.
Qed.

Lemma set_block_run b m i p :
  blocks_ b = Some m -> 0 <= i < blocks_count_ b ->
  set_block i p b = Ret tt (with_blocks b (Some (partial_alter (fun _ => p) i m))).
Proof.
  intros E Hi. unfold set_block, mbind, M_bind, get, deref. rewrite E.
  destruct (Z.leb_spec 0 i), (Z.ltb_spec i (blocks_count_ b)); try lia. done.
Qed.

Lemma copy_in_run b m k i pos l :
  blocks_ b = Some m -> 0 <= i < blocks_count_ b -> m !! i = Some k ->
  0 <= pos -> pos + Z.of_nat (length l) <= kBlockSizeBytes ->
  copy_in i pos l b = Ret tt (with_blocks b (Some (<[i := put_bytes pos l k]> m))).
Proof.
  intros E Hi Hk Hp Hl. unfold copy_in, mbind at 1, M_bind. rewrite (block_at_run b m i E Hi), Hk.
  unfold mbind, M_bind, deref, in_block.
  destruct (Z.leb_spec 0 pos), (Z.leb_spec (pos + Z.of_nat (length l)) kBlockSizeBytes); try lia.
  apply set_block_run; done.
Qed.

(** How much one turn of the loop copies. *)
Definition chunk (b : Buffer) (o : Z) (l : list Z) : Z :=
  Z.min (Z.min (block_end b o - o) (total b + cap b - o)) (Z.of_nat (length l)).

Lemma chunk_available b o :
  kBlockSizeBytes < cap b -> 0 <= total b -> total b <= o < total b + cap b ->
  total b + cap b + kBlockSizeBytes <= 2 ^ 64 ->
  let avail := uint64 (GetBlockCapacity b (GetBlockIndex b o) - GetInBlockOffset b o) in
  let lim := uint64 (total b + cap b) in
  (if uint64 (o + avail) >? lim then uint64 (lim - o) else avail)
  = Z.min (block_end b o - o) (total b + cap b - o).
Proof.
  intros Hcap Ht Ho Hr. cbv zeta. pose proof (block_bounds b Hcap o) as [H1 H2].
  pose proof (slot_spec b Hcap o) as (H3 & _ & _). unfold block_end, block_start in *.
  pose proof kBlock_pos. change (2 ^ 64) with 18446744073709551616 in Hr.
  rewrite (uint64_small (GetBlockCapacity b _ - _)) by lia.
  rewrite (uint64_small (total b + cap b)) by lia. rewrite (uint64_small (o + _)) by lia.
  rewrite (uint64_small (total b + cap b - o)) by lia. rewrite Z.gtb_ltb.
  destruct (Z.ltb_spec (total b + cap b) (o + (GetBlockCapacity b (GetBlockIndex b o) - GetInBlockOffset b o)));
    lia.
Qed.

Lemma copy_turn fuel b o l c :
  kBlockSizeBytes < cap b -> 0 <= total b -> total b <= o < total b + cap b ->
  total b + cap b + kBlockSizeBytes <= 2 ^ 64 -> l <> [] ->
  let n := chunk b o l in let i := GetBlockIndex b o in
  copy_loop (S fuel) o l c b
  = copy_loop fuel (uint64 (o + n)) (drop (Z.to_nat n) l) (c + n)
      (with_blocks b (Some (<[i := put_bytes (GetInBlockOffset b o) (take (Z.to_nat n) l) (old_block b i)]>
                              (old_blocks b)))).
Proof.
  intros Hcap Ht Ho Hr Hl n i. destruct l as [|x l]; [done|]. clear Hl.
  pose proof (index_range b Hcap o) as Hi. fold i in Hi.
  pose proof (block_bounds b Hcap o) as [Hb1 Hb2]. pose proof (slot_spec b Hcap o) as (Hs & _ & _).
  assert (1 <= n) as Hn by (unfold n, chunk; simpl length; lia).
  cbn [copy_loop]. unfold mbind at 1, M_bind at 1, get. cbv beta.
  rewrite (chunk_available b o Hcap Ht Ho Hr). fold i.
  set (b0 := with_blocks b (Some (old_blocks b))).
  assert (forall A (f : M Buffer A),
    (when (match blocks_ b with None => true | Some _ => false end)
       (modify (fun b => with_blocks b (Some ∅)));; f) b = f b0) as Halloc.
  { intros A f. unfold b0, old_blocks, mbind, M_bind, when, modify. destruct b as [? ? [m|] ? ? ?]; done. }
  rewrite Halloc. clear Halloc.
  destruct (Z.geb_spec i (blocks_count_ b)); [lia|].
  unfold mbind at 1, M_bind at 1. rewrite (block_at_run b0 (old_blocks b) i eq_refl Hi).
  set (b1 := with_blocks b (Some (<[i := old_block b i]> (old_blocks b)))).
  assert (forall A (f : M Buffer A),
    (when (match old_blocks b !! i with None => true | Some _ => false end) (set_block i (Some ∅));; f) b0
    = f b1) as Hnew.
  { intros A f. unfold b1, old_block. destruct (old_blocks b !! i) as [k|] eqn:Ek; simpl.
    - unfold mbind, M_bind. simpl. by rewrite insert_id.
    - unfold mbind, M_bind, when. by rewrite (set_block_run b0 (old_blocks b) i (Some ∅) eq_refl Hi). }
  rewrite Hnew. clear Hnew.
  change (Z.min (Z.min (block_end b o - o) (total b + cap b - o)) (Z.of_nat (length (x :: l)))) with n.
  unfold mbind at 1, M_bind at 1.
  rewrite (copy_in_run b1 (<[i := old_block b i]> (old_blocks b)) (old_block b i) i _ _ eq_refl Hi);
    [| by rewrite lookup_insert_eq | lia |].
  2:{ rewrite length_take. unfold n, chunk, block_end, block_start in *.
      pose proof (capacity_spec b Hcap i Hi). fold i. lia. }
  unfold b1. cbn [with_blocks]. by rewrite insert_insert_eq.
Qed.

Lemma copy_loop_spec fuel : forall o l c b,
  (length l <= fuel)%nat -> kBlockSizeBytes < cap b -> 0 <= total b -> total b <= o ->
  o + Z.of_nat (length l) <= total b + cap b -> total b + cap b + kBlockSizeBytes <= 2 ^ 64 ->
  terminates_in (copy_loop fuel o l c b) (fun r b' =>
    r = (true, c + Z.of_nat (length l)) /\ copied b b' o l).
Proof.
  induction fuel as [|fuel IH]; intros o l c b Hf Hcap Ht Ho Hhi Hr.
  { destruct l; simpl in *; [|lia]. split; [f_equal; lia|apply copied_nil]. }
  destruct (decide (l = [])) as [-> | Hl].
  { simpl. split; [f_equal; lia|apply copied_nil]. }
  assert (1 <= Z.of_nat (length l)) as Hlen by (destruct l; simpl; [done|lia]).
  pose proof (block_bounds b Hcap o) as [Hb1 Hb2].
  pose proof kBlock_pos. change (2 ^ 64) with 18446744073709551616 in *.
  rewrite copy_turn by (done || lia). set (n := chunk b o l).
  assert (1 <= n <= Z.of_nat (length l)) as Hn by (unfold n, chunk; lia).
  rewrite uint64_small by lia.
  assert (Z.of_nat (length (take (Z.to_nat n) l)) = n) as Etake by (rewrite length_take; lia).
  assert (Z.of_nat (length (drop (Z.to_nat n) l)) = Z.of_nat (length l) - n) as Edrop
    by (rewrite length_drop; lia).
  eapply total_mono.
  { apply IH; cbn [with_blocks max_buffer_capacity_bytes_ total_bytes_read_]; lia. }
  intros r b' [-> Hc]. split; [f_equal; lia|]. rewrite <- (take_drop (Z.to_nat n) l).
  eapply copied_app; [lia| rewrite take_drop; lia | |rewrite Etake; exact Hc].
  apply copied_chunk; [done|done|lia|]. rewrite Etake. unfold n, chunk. lia.
Qed.

(** ** Receiving *)

(** [b'] is [b] with the offsets of [l] written, and perhaps other frame times. *)
Record filled (b b' : Buffer) (l : IntervalSet.t) : Prop := {
  fl_same : exists m f, b' = with_frames (with_blocks b m) f;
  fl_new : forall v, member v l -> stored b' v (sent v);
  fl_old : forall v c, total b <= v < total b + cap b -> ~ member v l -> stored b v c -> stored b' v c
}.

Definition carries (o : Z) (data : list Z) : Prop :=
  forall i c, data !! i = Some c -> c = sent (o + Z.of_nat i).

Lemma copied_filled b b' x data f :
  carries (imin x) data -> Z.of_nat (length data) = imax x - imin x -> nonempty x ->
  copied b b' (imin x) data -> filled b (with_frames b' f) [x].
Proof.
  intros Hd Hlen Hn [[m ->] N O]. split.
  - by exists m, f.
  - intros v [Hw|[]%member_nil]%member_cons. unfold within in Hw.
    destruct (lookup_lt_is_Some_2 data (Z.to_nat (v - imin x))) as [c Hc]; [lia|].
    pose proof (Hd _ _ Hc) as E. pose proof (N _ _ Hc) as Hs.
    replace (imin x + Z.of_nat (Z.to_nat (v - imin x))) with v in * by lia. by subst c.
  - intros v c Hv Hm Hs. apply O; [done| |done]. intros Hin. apply Hm, member_cons. left.
    unfold within. lia.
Qed.

Lemma filled_nil b : filled b b [].
Proof.
  split; [exists (blocks_ b), (frame_arrival_time_map_ b); by destruct b|by intros v ?%member_nil|done].
Qed.

Lemma filled_trans b b1 b2 x l :
  (forall v, within v x -> total b <= v < total b + cap b) -> (forall v, within v x -> ~ member v l) ->
  filled b b1 [x] -> filled b1 b2 l -> filled b b2 (x :: l).
Proof.
  intros Hx Hd [(m1 & f1 & ->) N1 O1] [(m2 & f2 & ->) N2 O2]. split.
  - by exists m2, f2.
  - intros v [Hw|Hm]%member_cons; [|by apply N2]. apply O2; [by apply Hx|by apply Hd|].
    apply N1, member_cons. by left.
  - intros v c Hv Hm Hs. rewrite member_cons in Hm. apply O2; [done|tauto|]. apply O1; [done| |done].
    rewrite member_cons, member_nil_False. tauto.
Qed.

(** Room for [l] in the window, with no wrap-around. *)
Record fits (b : Buffer) : Prop := {
  ft_cap : kBlockSizeBytes < cap b;
  ft_total : 0 <= total b;
  ft_range : total b + cap b + kBlockSizeBytes <= 2 ^ 64
}.

Lemma holds_fits b : holds b -> 0 <= limit -> fits b.
Proof.
  intros Hh Hl. pose proof (total_small b Hh). pose proof (h_range b Hh) as Hr. unfold in_range in Hr.
  split; [apply Hh|lia|lia].
Qed.

Lemma carries_piece o data x :
  carries o data -> o <= imin x -> imax x <= o + Z.of_nat (length data) -> nonempty x ->
  let piece := take (Z.to_nat (imax x - imin x)) (drop (Z.to_nat (imin x - o)) data) in
  carries (imin x) piece /\ Z.of_nat (length piece) = imax x - imin x.
Proof.
  intros Hd Hlo Hhi Hn piece. unfold nonempty in Hn. split.
  - intros i c [Hc Hi]%lookup_take_Some. rewrite lookup_drop in Hc. rewrite (Hd _ _ Hc). f_equal. lia.
  - unfold piece. rewrite length_take, length_drop. lia.
Qed.

Lemma copy_new_spec o data t l : forall n b,
  fits b -> carries o data -> valid l ->
  (forall x, x ∈ l -> o <= imin x /\ imax x <= o + Z.of_nat (length data) /\
             total b <= imin x /\ imax x <= total b + cap b) ->
  terminates_in (copy_new o data t l n b) (fun r b' => r = (true, n + count l) /\ filled b b' l).
Proof.
  induction l as [|x l IH]; intros n b [Hcap Ht Hr] Hd Hv Hin; simpl.
  { rewrite count_nil. split; [f_equal; lia|apply filled_nil]. }
  pose proof Hv as (Hn & Hx & Hl)%valid_cons.
  destruct (Hin x) as (H1 & H2 & H3 & H4); [left|].
  destruct (carries_piece o data x Hd H1 H2 Hn) as [Hp Hlen].
  set (piece := take _ (drop _ data)) in *. apply total_bind.
  eapply total_mono; [apply copy_loop_spec; [done|done|done|done|lia|done]|].
  intros r b1 [-> Hc]. cbn [fst snd negb]. apply total_bind.
  pose proof (copied_filled b b1 x piece (insert_frame (imin x)
    {| flength := imax x - imin x; timestamp := t |} (frame_arrival_time_map_ b1)) Hp Hlen Hn Hc) as Hf.
  simpl. set (b2 := with_frames b1 _) in *.
  assert (cap b2 = cap b /\ total b2 = total b) as [Ec Et]
    by (destruct Hf as [(m & f & ->) _ _]; done).
  eapply total_mono.
  { apply IH; [split; rewrite ?Ec, ?Et; done|done|done|]. intros y Hy. rewrite Ec, Et. apply Hin. by right. }
  intros r' b' [-> Hf']. rewrite count_cons by done. split; [f_equal; lia|].
  eapply filled_trans; [| |exact Hf|exact Hf'].
  - intros v Hw. unfold within in Hw. lia.
  - intros v Hw Hm. apply (tail_member x l v Hv) in Hm as [_ Hle]. unfold within in Hw. lia.
Qed.

(** What receiving the offsets of [l] leaves behind. *)
Lemma holds_filled b b' l r' :
  holds b -> 0 <= limit -> valid l -> valid r' ->
  (forall v, member v r' <-> member v l \/ member v (received b)) -> disjoint l (received b) ->
  (forall v, member v l -> 0 <= v < limit /\ v < total b + cap b) ->
  Z.of_nat (length r') < kMaxNumDataIntervalsAllowed ->
  filled (with_received b r') b' l ->
  let b2 := with_counts b' (total b') (uint64 (num_bytes_buffered_ b' + count l)) in
  holds b2 /\ cap b2 = cap b /\ total b2 = total b /\ received b2 = r'.
Proof.
  intros Hh Hlim Hvl Hvr Hr' Hd Hin Hfew [(m & f & ->) N O] b2.
  pose proof (count_union (received b) l r' (h_valid b Hh) Hvl Hvr Hd Hr') as Ecount.
  assert (forall v, member v r' -> 0 <= v < limit /\ v < total b + cap b) as Hmem.
  { intros v [Hm|Hm]%Hr'; [by apply Hin|by apply (h_member b Hh)]. }
  assert (count r' <= limit) as Hcle.
  { pose proof (count_bound r' limit Hvr (fun v Hm => proj1 (Hmem v Hm))). lia. }
  pose proof (h_count b Hh) as Hc. pose proof (total_small b Hh). pose proof (h_range b Hh) as Hrg.
  pose proof (h_cap b Hh). pose proof kBlock_pos. pose proof (count_nonneg l).
  unfold in_range in Hrg. change (2 ^ 64) with 18446744073709551616 in Hrg.
  pose proof (count_ge (received b) (total b) (h_read b Hh)) as Hpos.
  split; [|done]. split; simpl; try apply Hh; try done.
  - intros v Hv. apply Hr'. right. by apply (h_read b Hh).
  - intros v Hm Hv. destruct (decide (v ∈ offsets l)) as [Hl|Hl]; rewrite elem_of_offsets in Hl.
    + by apply N.
    + apply Hr' in Hm as Hm'. destruct Hm' as [|Hm']; [done|].
      apply O; [simpl; specialize (Hmem v Hm); lia|done|]. by apply (h_data b Hh).
  - rewrite uint64_small by lia. lia.
Qed.

Lemma set_last_max_add l x e : valid l -> last l = Some x -> imax x < e ->
  set_last_max e l = IntervalSet.AddRange (imax x) e l.
Proof.
  intros Hv Hx He. unfold set_last_max. rewrite Hx. apply last_Some in Hx as [a ->].
  rewrite removelast_last.
  destruct (Add_spec (mk (imax x) e) (a ++ [x]) Hv) as [HV HM].
  pose proof Hv as (Ha & (Hn & _)%valid_cons & Hax)%valid_app. unfold nonempty in Hn.
  apply valid_canonical; [|exact HV|].
  - apply valid_app. split; [done|]. split.
    + apply valid_cons. split; [unfold nonempty; simpl; lia|]. split; [done|apply valid_nil].
    + intros y z Hy ->%list_elem_of_singleton. specialize (Hax y x Hy ltac:(left)).
      unfold before in *. simpl. lia.
  - intros v. unfold IntervalSet.AddRange. rewrite HM. member_simpl. unfold within. simpl.
    assert (imin x <= v < e <-> imax x <= v < e \/ imin x <= v < imax x) by lia. tauto.
Qed.

(** A frame as one interval. *)
Section Frame.
Context (b : Buffer) (o : Z) (data : list Z) (t : Z).
Context (Hh : holds b) (Ho : 0 <= o) (Hlim : o + Z.of_nat (length data) <= limit)
        (Hd : carries o data) (Hne : data <> [])
        (Hroom : o + Z.of_nat (length data) <= total b + cap b).

Notation stop := (o + Z.of_nat (length data)).
Notation r' := (IntervalSet.AddRange o stop (received b)).

Lemma frame_nonempty : nonempty (mk o stop).
Proof using Hne. clear -Hne. unfold nonempty. simpl. destruct data; [done|]. simpl. lia. Qed.

Lemma frame_added : valid r' /\ forall v, member v r' <-> within v (mk o stop) \/ member v (received b).
Proof using Hh. apply Add_spec, Hh. Qed.

Lemma frame_fits : fits b.
Proof using Hh Ho Hlim Hne. apply holds_fits; [done|]. pose proof frame_nonempty as Hn. unfold nonempty in Hn. simpl in Hn. lia. Qed.

(** Offsets that have not arrived are not read yet. *)
Lemma new_unread v : 0 <= v -> ~ member v (received b) -> total b <= v.
Proof using Hh.
  clear -Hh. intros Hv Hm. destruct (Z.le_gt_cases (total b) v); [done|]. destruct Hm. apply (h_read b Hh). lia.
Qed.

Lemma fast_fill f :
  disjoint [mk o stop] (received b) ->
  terminates_in (CopyStreamData o data (with_received b r')) (fun c b1 =>
    c = (true, Z.of_nat (length data)) /\ filled (with_received b r') (with_frames b1 (f b1)) [mk o stop]).
Proof using Hd Hh Hlim Hne Ho Hroom.
  intros Hdis. pose proof frame_fits as [F1 F2 F3]. pose proof frame_nonempty as Hn.
  assert (total b <= o) as Hto.
  { apply new_unread; [done|]. intros Hm. apply (Hdis o); [|done]. apply member_cons. left.
    unfold within, nonempty in *. simpl in *. lia. }
  eapply total_mono; [apply copy_loop_spec; [done|done|done|done|done|done]|].
  intros c b1 [-> Hc]. split; [done|].
  apply (copied_filled (with_received b r') b1 (mk o stop) data); [done|simpl; lia|done|done].
Qed.

Lemma slow_fill l :
  valid l -> (forall v, member v l <-> within v (mk o stop) /\ ~ member v (received b)) ->
  terminates_in (copy_new o data t l 0 (with_received b r')) (fun c b1 =>
    c = (true, count l) /\ filled (with_received b r') b1 l).
Proof using Hd Hh Hlim Hne Ho Hroom.
  intros Hv Hm. pose proof frame_fits as [F1 F2 F3].
  eapply total_mono; [apply copy_new_spec; [done|done|done|]|].
  - intros x Hx. pose proof (Forall_nonempty _ Hv x Hx) as Hn. unfold nonempty in Hn. simpl.
    assert (forall v, within v x -> within v (mk o stop) /\ total b <= v) as Hin.
    { intros v Hw. assert (member v l) as Hml by (by exists x). apply Hm in Hml as [H1 H2].
      split; [done|]. apply new_unread; [unfold within in H1; simpl in H1; lia|done]. }
    pose proof (Hin (imin x)) as [H1 H2]; [unfold within; lia|].
    pose proof (Hin (imax x - 1)) as [H3 H4]; [unfold within; lia|]. unfold within in *. simpl in *. lia.
  - intros c b1 [-> Hf]. done.
Qed.
End Frame.

(** What a frame does, on every branch. *)
Definition frame_effect (b : Buffer) (o : Z) (data : list Z) (r : Z * Z) (b' : Buffer) : Prop :=
  let stop := o + Z.of_nat (length data) in
  let r' := IntervalSet.AddRange o stop (received b) in
  if decide (data = []) then r = (QUIC_EMPTY_STREAM_FRAME_NO_FIN, 0) /\ b' = b
  else if stop >? total b + cap b then r = (QUIC_INTERNAL_ERROR, 0) /\ b' = b
  else if Z.of_nat (length r') >=? kMaxNumDataIntervalsAllowed
  then r = (QUIC_TOO_MANY_STREAM_DATA_INTERVALS, 0) /\ cap b' = cap b /\ total b' = total b
  else r = (QUIC_NO_ERROR, count r' - count (received b)) /\ holds b' /\
       cap b' = cap b /\ total b' = total b /\ received b' = r'.

Lemma frame_effect_room b o data r b' :
  data <> [] -> o + Z.of_nat (length data) <= total b + cap b ->
  (let r' := IntervalSet.AddRange o (o + Z.of_nat (length data)) (received b) in
   if Z.of_nat (length r') >=? kMaxNumDataIntervalsAllowed
   then r = (QUIC_TOO_MANY_STREAM_DATA_INTERVALS, 0) /\ cap b' = cap b /\ total b' = total b
   else r = (QUIC_NO_ERROR, count r' - count (received b)) /\ holds b' /\
        cap b' = cap b /\ total b' = total b /\ received b' = r') ->
  frame_effect b o data r b'.
Proof.
  intros Hne Hroom H. unfold frame_effect. rewrite decide_False by done. rewrite Z.gtb_ltb.
  destruct (Z.ltb_spec (total b + cap b) (o + Z.of_nat (length data))); [lia|done].
Qed.

Lemma length_set_last_max e l : length (set_last_max e l) = length l.
Proof.
  unfold set_last_max. destruct (last l) as [x|] eqn:E; [|done]. apply last_Some in E as [a ->].
  by rewrite removelast_last, !length_app.
Qed.

(** The test of the fast path: nothing of the frame has arrived. *)
Lemma fast_test l i : valid l -> nonempty i ->
  (match last l with None => true | Some x => imin i >=? imax x end) || IntervalSet.IsDisjoint i l = true ->
  disjoint [i] l.
Proof.
  intros Hv Hn H v Hi Hm. apply member_cons in Hi as [Hw|[]%member_nil].
  apply orb_true_iff in H as [H|H]; [|by apply (IsDisjoint_spec i l Hv Hn) with v in H].
  destruct Hm as (y & Hy & Hwy). destruct (last l) as [x|] eqn:El.
  - apply last_Some in El as [a ->]. unfold within, nonempty in *.
    apply elem_of_app in Hy as [Hy|Hy%list_elem_of_singleton]; [|subst; lia].
    apply valid_app in Hv as (_ & (Hx & _)%valid_cons & Hax).
    specialize (Hax y x Hy ltac:(left)). unfold before, nonempty in *. lia.
  - apply last_None in El as ->. by apply elem_of_nil in Hy.
Qed.

Lemma fast_path_spec b o data t :
  holds b -> 0 <= o -> o + Z.of_nat (length data) <= limit -> carries o data -> data <> [] ->
  o + Z.of_nat (length data) <= total b + cap b ->
  let stop := o + Z.of_nat (length data) in
  let r := received b in
  disjoint [mk o stop] r ->
  terminates_in
    ((ok ← (if (match last r with None => false | Some x => o =? imax x end)
            then modify (fun b => with_received b (set_last_max stop r));; mret true
            else
              let r' := IntervalSet.AddRange o stop r in
              modify (fun b => with_received b r');;
              mret (negb (Z.of_nat (length r') >=? kMaxNumDataIntervalsAllowed)));
      if negb ok then mret (QUIC_TOO_MANY_STREAM_DATA_INTERVALS, 0)
      else
        c ← CopyStreamData o data;
        if negb c.1 then mret (QUIC_STREAM_SEQUENCER_INVALID_STATE, 0)
        else
          add_frame o (Z.of_nat (length data)) t;;
          modify (fun b => with_counts b (total_bytes_read_ b) (uint64 (num_bytes_buffered_ b + c.2)));;
          mret (QUIC_NO_ERROR, c.2)) b) (frame_effect b o data).
Proof.
  intros Hh Ho Hlim Hd Hne Hroom stop r Hdis.
  pose proof (frame_nonempty o data Hne) as Hn. pose proof (frame_added b o data Hh) as [Hvr Hmr].
  fold stop in Hn, Hvr, Hmr. fold r in Hvr, Hmr. set (r' := IntervalSet.AddRange o stop r) in *.
  (* the interval set after the frame, and the test on its size *)
  assert (forall A (f : bool -> M Buffer A),
    ((ok ← (if (match last r with None => false | Some x => o =? imax x end)
            then modify (fun b => with_received b (set_last_max stop r));; mret true
            else modify (fun b => with_received b r');;
                 mret (negb (Z.of_nat (length r') >=? kMaxNumDataIntervalsAllowed))); f ok) b)
    = f (negb (Z.of_nat (length r') >=? kMaxNumDataIntervalsAllowed)) (with_received b r')) as Hset.
  { intros A f. destruct (last r) as [x|] eqn:El; [|done].
    destruct (Z.eqb_spec o (imax x)) as [E|E]; [|done].
    assert (set_last_max stop r = r') as Es.
    { unfold r'. rewrite E. apply set_last_max_add; [apply Hh|done|].
      unfold nonempty in Hn. simpl in Hn. lia. }
    pose proof (length_set_last_max stop r) as Hlen. rewrite Es in *. rewrite Hlen.
    pose proof (h_few b Hh) as Hfew. fold r in Hfew.
    destruct (Z.geb_spec (Z.of_nat (length r)) kMaxNumDataIntervalsAllowed); [lia|done]. }
  cbv zeta. rewrite Hset. clear Hset.
  eapply total_mono; [|intros x b'; apply (frame_effect_room b o data x b' Hne Hroom)].
  cbv zeta. fold stop r r'.
  destruct (Z.geb_spec (Z.of_nat (length r')) kMaxNumDataIntervalsAllowed) as [|Hfew]; [done|]. cbn [negb].
  apply total_bind. eapply total_mono.
  { apply (fast_fill b o data Hh Ho Hlim Hd Hne Hroom (fun b1 => insert_frame o
      {| flength := Z.of_nat (length data); timestamp := t |} (frame_arrival_time_map_ b1))). exact Hdis. }
  intros c b1 [-> Hf]. cbn [fst snd negb].
  assert (count [mk o stop] = Z.of_nat (length data)) as Ec.
  { rewrite count_cons, count_nil by done. unfold stop. simpl. lia. }
  assert (valid [mk o stop]) as Hv1 by (apply valid_cons; split; [done|split; [done|apply valid_nil]]).
  assert (forall v, member v r' <-> member v [mk o stop] \/ member v (received b)) as Hmr'.
  { intros v. rewrite Hmr. member_simpl. tauto. }
  destruct (holds_filled b _ [mk o stop] r' Hh ltac:(unfold nonempty in Hn; simpl in Hn; unfold stop in *; lia)
    Hv1 Hvr Hmr' Hdis ltac:(intros v [Hw|[]%member_nil]%member_cons; unfold within in Hw; simpl in Hw; unfold stop in *; lia)
    Hfew Hf) as (HH & E1 & E2 & E3).
  cbv zeta in HH, E1, E2, E3. rewrite Ec in HH, E1, E2, E3.
  unfold mbind, M_bind, add_frame, modify, mret, M_ret. cbn [terminates_in].
  split; [|done]. f_equal. rewrite <- Ec.
  rewrite (count_union (received b) [mk o stop] r' (h_valid b Hh) Hv1 Hvr Hdis Hmr'). unfold r. lia.
Qed.

Lemma slow_path_spec b o data t :
  holds b -> 0 <= o -> o + Z.of_nat (length data) <= limit -> carries o data -> data <> [] ->
  o + Z.of_nat (length data) <= total b + cap b ->
  let stop := o + Z.of_nat (length data) in
  let r := received b in
  terminates_in
    ((newly_received ← deref (IntervalSet.Difference r (IntervalSet.AddRange o stop [])) OutOfFuel;
      match newly_received with
      | [] => mret (QUIC_NO_ERROR, 0)
      | _ =>
          let r' := IntervalSet.AddRange o stop r in
          modify (fun b => with_received b r');;
          if Z.of_nat (length r') >=? kMaxNumDataIntervalsAllowed
          then mret (QUIC_TOO_MANY_STREAM_DATA_INTERVALS, 0)
          else
            c ← copy_new o data t newly_received 0;
            if negb c.1 then mret (QUIC_STREAM_SEQUENCER_INVALID_STATE, c.2)
            else
              modify (fun b => with_counts b (total_bytes_read_ b) (uint64 (num_bytes_buffered_ b + c.2)));;
              mret (QUIC_NO_ERROR, c.2)
      end) b) (frame_effect b o data).
Proof.
  intros Hh Ho Hlim Hd Hne Hroom stop r.
  pose proof (frame_nonempty o data Hne) as Hn. pose proof (frame_added b o data Hh) as [Hvr Hmr].
  destruct (Add_spec (mk o stop) [] valid_nil) as [Hv0 Hm0].
  destruct (Difference_spec r (IntervalSet.AddRange o stop []) Hv0 (h_valid b Hh)) as (l & El & Hvl & Hml).
  assert (forall v, member v l <-> within v (mk o stop) /\ ~ member v (received b)) as Hl.
  { intros v. rewrite Hml. unfold IntervalSet.AddRange. rewrite Hm0, member_nil_False. unfold r. tauto. }
  assert (disjoint l (received b)) as Hdis by (intros v Hv%Hl Hm; tauto).
  assert (forall v, member v (IntervalSet.AddRange o stop r) <-> member v l \/ member v (received b)) as Hr'.
  { intros v. unfold r, stop. rewrite Hmr, Hl. fold stop.
    destruct (decide (v ∈ offsets (received b))) as [H|H]; rewrite elem_of_offsets in H; tauto. }
  rewrite El.
  eapply total_mono; [|intros x b'; apply (frame_effect_room b o data x b' Hne Hroom)].
  cbv zeta. fold stop r. fold stop r in Hvr, Hmr. set (r' := IntervalSet.AddRange o stop r) in *.
  unfold mbind at 1, M_bind at 1, deref. destruct l as [|x l'].
  { assert (r' = r) as ->.
    { apply valid_canonical; [done|apply Hh|]. intros v. rewrite Hr', member_nil_False. unfold r. tauto. }
    destruct (Z.geb_spec (Z.of_nat (length r)) kMaxNumDataIntervalsAllowed) as [Hge|_].
    { pose proof (h_few b Hh). unfold r in Hge. lia. }
    split; [f_equal; lia|done]. }
  set (l := x :: l') in *. unfold mbind at 1, M_bind at 1, modify at 1.
  destruct (Z.geb_spec (Z.of_nat (length r')) kMaxNumDataIntervalsAllowed) as [|Hfew]; [done|].
  apply total_bind. eapply total_mono.
  { apply (slow_fill b o data t Hh Ho Hlim Hd Hne Hroom l Hvl Hl). }
  intros c b1 [-> Hf]. cbn [fst snd negb].
  destruct (holds_filled b b1 l r' Hh ltac:(unfold nonempty in Hn; simpl in Hn; unfold stop in *; lia)
    Hvl Hvr Hr' Hdis ltac:(intros v [Hw _]%Hl; unfold within in Hw; simpl in Hw; unfold stop in *; lia)
    Hfew Hf) as (HH & E1 & E2 & E3).
  unfold mbind, M_bind, modify, mret, M_ret. cbn [terminates_in].
  split; [|done]. f_equal.
  rewrite (count_union (received b) l r' (h_valid b Hh) Hvl Hvr Hdis Hr'). unfold r. lia.
Qed.

Lemma OnStreamData_spec fast b o data t :
  holds b -> 0 <= o -> o + Z.of_nat (length data) <= limit -> carries o data ->
  terminates_in (OnStreamData fast o data t b) (frame_effect b o data).
Proof.
  intros Hh Ho Hlim Hd. unfold OnStreamData.
  destruct (decide (data = [])) as [-> | Hne]; [done|].
  assert (1 <= Z.of_nat (length data)) as Hlen by (destruct data; [done|simpl; lia]).
  pose proof (h_range b Hh) as Hr. pose proof (h_cap b Hh). pose proof kBlock_pos.
  pose proof (total_small b Hh). unfold in_range in Hr. change (2 ^ 64) with 18446744073709551616 in Hr.
  destruct (Z.eqb_spec (Z.of_nat (length data)) 0); [lia|].
  unfold mbind at 1, M_bind at 1, get. cbv beta.
  rewrite (uint64_small (o + _)) by lia. rewrite (uint64_small (total b + cap b)) by lia.
  destruct (Z.ltb_spec (o + Z.of_nat (length data)) o); [lia|]. rewrite orb_false_r.
  destruct (o + Z.of_nat (length data) >? total b + cap b) eqn:Hroom.
  { unfold frame_effect. cbn [terminates_in mret M_ret]. rewrite decide_False by done. by rewrite Hroom. }
  rewrite Z.gtb_ltb in Hroom. apply Z.ltb_ge in Hroom.
  destruct (fast && _) eqn:Hfast.
  - apply andb_true_iff in Hfast as [_ Htest].
    apply (fast_path_spec b o data t Hh Ho Hlim Hd Hne Hroom).
    apply fast_test; [apply Hh|by apply frame_nonempty|done].
  - by apply (slow_path_spec b o data t).
Qed.

(** ** Reading *)

Lemma holds_frames b f : holds b -> holds (with_frames b f).
Proof. intros [? ? ? ? ? ? ? ? ?]. by split. Qed.

Lemma holds_advance b n : holds b -> 0 <= n <= FirstMissingByte b - total b ->
  holds (with_counts b (total b + n) (num_bytes_buffered_ b - n)).
Proof.
  intros Hh Hn. pose proof (first_missing b Hh) as (_ & Hread & _ & _).
  split; simpl.
  - apply Hh.
  - apply Hh.
  - pose proof (h_total b Hh). lia.
  - apply Hh.
  - intros v Hv. apply Hread. lia.
  - intros v Hm. pose proof (h_member b Hh v Hm). lia.
  - intros v Hm Hv. apply (h_data b Hh v Hm). lia.
  - pose proof (h_count b Hh). lia.
  - apply Hh.
Qed.

Lemma RetireBlock_keeps b i m k :
  holds b -> blocks_ b = Some m -> m !! i = Some k -> 0 <= i < blocks_count_ b ->
  (forall v, member v (received b) -> total b <= v -> GetBlockIndex b v <> i) ->
  terminates_in (RetireBlock i b) (fun r b' => r = true /\ holds b' /\ exists m', b' = with_blocks b m').
Proof.
  intros Hh Em Ek Hi Hfree. unfold RetireBlock, mbind at 1, M_bind at 1.
  rewrite (block_at_run b m i Em Hi), Ek. unfold mbind, M_bind.
  rewrite (set_block_run b m i None Em Hi). cbn [terminates_in mret M_ret]. split; [done|].
  split; [|by eexists]. destruct Hh as [? ? ? ? ? ? Hdata ? ?]. split; simpl; try done.
  intros v Hm Hv. destruct (Hdata v Hm Hv) as (m0 & k0 & E0 & Ek0 & Ec). simplify_eq.
  eexists _, k0. split; [done|]. split; [|done].
  change (delete i m !! GetBlockIndex b v = Some k0). rewrite lookup_delete_ne; [done|].
  intros Hf. by apply (Hfree v Hm Hv).
Qed.

Lemma last_member b : holds b -> received b <> [] ->
  member (NextExpectedByte b - 1) (received b) /\
  forall v, member v (received b) -> v <= NextExpectedByte b - 1.
Proof.
  intros Hh Hne. unfold NextExpectedByte. pose proof (h_valid b Hh) as Hv.
  destruct (last (received b)) as [x|] eqn:El; [|by apply last_None in El].
  apply last_Some in El as [a Ea]. rewrite Ea in *.
  pose proof Hv as (_ & (Hn & _)%valid_cons & Hax)%valid_app. unfold nonempty in Hn. split.
  - exists x. split; [set_solver|]. unfold within. lia.
  - intros v (y & Hy & Hw). unfold within in Hw.
    apply elem_of_app in Hy as [Hy|Hy%list_elem_of_singleton]; [|subst; lia].
    specialize (Hax y x Hy ltac:(left)). unfold before in Hax. lia.
Qed.

(** After the bytes from [t0] to [total b], all in one block, were taken. *)
Section Retire.
Context (b : Buffer) (t0 : Z) (Hh : holds b) (H0 : 0 <= t0 < total b)
        (Hend : total b <= block_end b t0)
        (Hwin : forall v, member v (received b) -> v < t0 + cap b)
        (Hstop : FirstMissingByte b = total b \/ total b = block_end b t0).

Lemma index_total_end : total b = block_end b t0 -> GetBlockIndex b (total b) <> GetBlockIndex b t0.
Proof using Hh.
  clear -Hh. intros E [j Hj]%same_block; [|apply Hh]. rewrite E in Hj.
  pose proof (block_bounds b (h_cap b Hh) t0). pose proof (h_cap b Hh). pose proof kBlock_pos.
  assert (0 < j) by nia. nia.
Qed.

(** Unread bytes of the block are ahead in it, or at the far end of the ring. *)
Lemma unread_in_block v : member v (received b) -> total b <= v ->
  GetBlockIndex b v = GetBlockIndex b t0 ->
  v < block_end b t0 \/ GetBlockIndex b (NextExpectedByte b - 1) = GetBlockIndex b t0.
Proof using Hh H0 Hwin.
  clear Hend Hstop. intros Hm Hv Ei. pose proof (h_cap b Hh) as Hcap.
  pose proof (block_bounds b Hcap t0). pose proof (Hwin v Hm).
  apply (same_block b Hcap) in Ei as [j Hj].
  assert (0 <= j) by nia. assert (j <= 1) by nia.
  destruct (Z.eq_dec j 0) as [->|]; [left; lia|right]. assert (j = 1) as -> by lia.
  destruct (last_member b Hh) as [Hlast Hmax].
  { intros E. rewrite E in Hm. by apply member_nil in Hm. }
  specialize (Hmax v Hm). specialize (Hwin _ Hlast). apply (same_block b Hcap). exists 1. lia.
Qed.

Lemma gap_head x l : FirstMissingByte b = total b -> received b = x :: l -> imax x = total b /\ imin x <= 0.
Proof using H0. clear -H0. unfold FirstMissingByte. intros E El. rewrite El in E. case_match; lia. Qed.

Lemma RetireBlockIfEmpty_keeps m k :
  blocks_ b = Some m -> m !! GetBlockIndex b t0 = Some k ->
  terminates_in (RetireBlockIfEmpty (GetBlockIndex b t0) b) (fun r b' =>
    r = true /\ holds b' /\ exists m', b' = with_blocks b m').
Proof using H0 Hend Hh Hstop Hwin.
  intros Em Ek. pose proof (h_cap b Hh) as Hcap. pose proof (index_range b Hcap t0) as Hi.
  assert (terminates_in ((mret true : M Buffer bool) b) (fun r b' =>
    r = true /\ holds b' /\ exists m', b' = with_blocks b m')) as Hkeep.
  { split; [done|]. split; [done|]. exists (blocks_ b). by destruct b. }
  pose proof unread_in_block as Hun. pose proof index_total_end as Hidx. pose proof gap_head as Hgh.
  pose proof (h_valid b Hh) as Hval. clear Hwin.
  pose proof (fun H => RetireBlock_keeps b (GetBlockIndex b t0) m k Hh Em Ek Hi H) as Hretire.
  unfold RetireBlockIfEmpty, mbind at 1, M_bind at 1, get. cbv beta.
  assert (received b <> []) as Hne.
  { intros E. pose proof (h_read b Hh 0 ltac:(lia)) as Hm. rewrite E in Hm. by apply member_nil in Hm. }
  destruct (last_member b Hh Hne) as [Hlast Hmax].
  assert (uint64 (NextExpectedByte b - 1) = NextExpectedByte b - 1) as Eu.
  { pose proof (h_member b Hh _ Hlast). pose proof (h_range b Hh) as Hr. unfold in_range in Hr.
    change (2 ^ 64) with 18446744073709551616 in Hr. pose proof kBlock_pos. apply uint64_small. lia. }
  rewrite Eu. destruct (SequencerBuffer.Empty b) eqn:Eempty.
  - apply Hretire. intros v Hm Hv _. unfold SequencerBuffer.Empty in Eempty.
    destruct (received b) as [|x [|y l]]; [done| |done].
    apply member_cons in Hm as [Hw|[]%member_nil]. unfold within in Hw. lia.
  - destruct (Z.eqb_spec (GetBlockIndex b (NextExpectedByte b - 1)) (GetBlockIndex b t0)) as [|Hnl]; [done|].
    destruct (Z.eqb_spec (NextBlockToRead b) (GetBlockIndex b t0)) as [En|En].
    + assert (FirstMissingByte b = total b) as Hgap.
      { destruct Hstop as [|E]; [done|]. by destruct (Hidx E). }
      destruct (received b) as [|x l] eqn:El; [done|]. destruct (Hgh x l Hgap eq_refl) as [Ex _].
      destruct l as [|y l].
      { exfalso. unfold SequencerBuffer.Empty in Eempty. rewrite El in Eempty. lia. }
      destruct (Z.eqb_spec (GetBlockIndex b (imin y)) (GetBlockIndex b t0)) as [|Hy]; [done|].
      apply Hretire. intros v Hm Hv Ei.
      destruct (Hun v Hm Hv Ei) as [Hlt|]; [|done].
      apply Hy, (same_block b Hcap). exists 0.
      assert (member v (y :: l)) as Hmy by (apply (tail_member x (y :: l) v Hval); split; [done|lia]).
      pose proof Hval as (_ & Hxy & Hv')%valid_cons. apply Forall_cons in Hxy as [Hxy _].
      pose proof (valid_head_least y l v Hv' Hmy). unfold before in Hxy.
      pose proof (block_bounds b Hcap t0). lia.
    + apply Hretire. intros v Hm Hv Ei. destruct (Hun v Hm Hv Ei) as [Hlt|]; [|done].
      apply En. unfold NextBlockToRead. apply (same_block b Hcap). exists 0.
      pose proof (block_bounds b Hcap t0). lia.
Qed.
End Retire.

(** The bytes of the stream from [v] on. *)
Definition bytes_from (v n : Z) : list Z := sent <$> seqZ v n.

Lemma bytes_from_app v n n' : 0 <= n -> 0 <= n' -> bytes_from v (n + n') = bytes_from v n ++ bytes_from (v + n) n'.
Proof. intros Hn Hn'. unfold bytes_from. by rewrite seqZ_app, fmap_app by done. Qed.

Lemma bytes_from_0 v : bytes_from v 0 = [].
Proof. done. Qed.

(** What can be taken from the block that is read next. *)
Definition avail (b : Buffer) : Z :=
  Z.min (FirstMissingByte b - total b) (block_end b (total b) - total b).

Lemma available b : holds b ->
  Z.min (ReadableBytes b) (uint64 (GetBlockCapacity b (NextBlockToRead b) - ReadOffset b)) = avail b.
Proof.
  intros Hh. rewrite (readable b Hh). unfold avail, NextBlockToRead, ReadOffset.
  pose proof (block_bounds b (h_cap b Hh) (total b)) as [H1 H2].
  pose proof (slot_spec b (h_cap b Hh) (total b)) as (H3 & _ & _). unfold block_end, block_start in *.
  rewrite uint64_small; [f_equal; lia|]. change kBlockSizeBytes with 8192 in *. lia.
Qed.

Lemma segment_spec b v n : holds b -> total b <= v -> 0 < n ->
  v + n <= FirstMissingByte b -> v + n <= block_end b v ->
  exists m k, blocks_ b = Some m /\ m !! GetBlockIndex b v = Some k /\
    copy_out (GetBlockIndex b v) (GetInBlockOffset b v) n b = Ret (bytes_from v n) b.
Proof.
  intros Hh Hlo Hn Hfm Hend. pose proof (h_cap b Hh) as Hcap. pose proof (h_total b Hh).
  pose proof (first_missing b Hh) as (_ & Hread & _ & _).
  pose proof (block_bounds b Hcap v) as [Hb1 Hb2].
  assert (forall w, v <= w < v + n -> stored b w (sent w) /\
    GetBlockIndex b w = GetBlockIndex b v /\
    GetInBlockOffset b w = GetInBlockOffset b v + (w - v)) as Hst.
  { intros w Hw. split; [apply (h_data b Hh); [apply Hread|]; lia|].
    destruct (slot_within b Hcap v w) as [E1 E2]; [lia|]. split; [done|]. rewrite E2.
    unfold block_start. lia. }
  destruct (Hst v) as [(m & k & Em & Ek & _) _]; [lia|].
  exists m, k. split; [done|]. split; [done|]. unfold copy_out, mbind at 1, M_bind at 1.
  rewrite (block_at_run b m _ Em (index_range b Hcap v)), Ek.
  unfold mbind, M_bind. cbn [deref]. pose proof (slot_spec b Hcap v) as (Hs & _ & _).
  assert (in_block (GetInBlockOffset b v) n = true) as ->.
  { unfold in_block. unfold block_end, block_start in *.
    pose proof (capacity_spec b Hcap _ (index_range b Hcap v)). lia. }
  assert (mapM (fun j => k !! j) (seqZ (GetInBlockOffset b v) n) = Some (bytes_from v n)) as ->; [|done].
  apply mapM_Some_2. unfold bytes_from.
  replace (seqZ (GetInBlockOffset b v) n) with (Z.add (GetInBlockOffset b v - v) <$> seqZ v n)
    by (rewrite fmap_add_seqZ; f_equal; lia).
  apply Forall2_fmap, Forall_Forall2_diag, Forall_forall. intros w Hw%elem_of_seqZ.
  destruct (Hst w) as [(m' & k' & Em' & Ek' & Ec) [Ei' Eo']]; [lia|].
  rewrite Ei' in Ek'. simplify_eq. rewrite Eo' in Ec. rewrite <- Ec. f_equal. lia.
Qed.

Lemma copied_out b n : holds b -> 0 < n <= avail b ->
  exists m k, blocks_ b = Some m /\ m !! NextBlockToRead b = Some k /\
    copy_out (NextBlockToRead b) (ReadOffset b) n b = Ret (bytes_from (total b) n) b.
Proof. intros Hh Hn. unfold avail in Hn. apply segment_spec; [done|lia|lia|lia|lia]. Qed.

(** Taking [n] bytes from the next block, which is released when it holds
    nothing more. *)
Lemma take_step b n : holds b -> 0 < n <= avail b ->
  terminates_in
    ((if n =? avail b then RetireBlockIfEmpty (NextBlockToRead b) else mret true)
       (with_counts b (uint64 (total b + n)) (uint64 (num_bytes_buffered_ b - n)))) (fun r b' =>
    r = true /\ holds b' /\ total b' = total b + n /\ received b' = received b /\ cap b' = cap b).
Proof.
  intros Hh Hn. pose proof (first_missing b Hh) as (Hf1 & Hf2 & Hf3 & Hf4).
  pose proof (h_total b Hh). pose proof (h_range b Hh) as Hr. unfold in_range in Hr.
  pose proof (h_count b Hh). pose proof (count_ge _ _ Hf2).
  assert (count (received b) <= Z.max 0 limit) as Hcb
    by (apply count_bound; [apply Hh|intros v Hm; by apply (h_member b Hh)]).
  pose proof (h_cap b Hh) as Hcap. pose proof kBlock_pos.
  change (2 ^ 64) with 18446744073709551616 in Hr. unfold avail in *.
  rewrite !uint64_small by lia.
  assert (holds (with_counts b (total b + n) (num_bytes_buffered_ b - n))) as Hh1
    by (apply holds_advance; [done|lia]).
  destruct (copied_out b n Hh) as (m & k & Em & Ek & _); [unfold avail; lia|].
  destruct (Z.eqb_spec n (Z.min (FirstMissingByte b - total b) (block_end b (total b) - total b))) as [E|E].
  - eapply total_mono.
    + eapply (RetireBlockIfEmpty_keeps (with_counts b (total b + n) (num_bytes_buffered_ b - n)) (total b) Hh1);
        [simpl; lia| | | |exact Em|exact Ek].
      * change (block_end (with_counts b _ _) ?v) with (block_end b v). simpl. lia.
      * intros v Hm. apply (h_member b Hh v Hm).
      * change (block_end (with_counts b _ _) ?v) with (block_end b v).
        change (FirstMissingByte (with_counts b _ _)) with (FirstMissingByte b). simpl. lia.
    + intros r b' (-> & Hh' & m' & ->). done.
  - done.
Qed.

Record took (b b' : Buffer) (n : Z) : Prop := {
  tk_holds : holds b';
  tk_total : total b' = total b + n;
  tk_received : received b' = received b;
  tk_cap : cap b' = cap b
}.

Lemma took_0 b : holds b -> took b b 0.
Proof. intros Hh. split; [done|lia|done|done]. Qed.

Lemma took_trans b b1 b2 n1 n2 : took b b1 n1 -> took b1 b2 n2 -> took b b2 (n1 + n2).
Proof. intros [_ T1 R1 C1] [H T2 R2 C2]. split; [done|lia|congruence|congruence]. Qed.

Lemma took_frames b b' n f : took b b' n -> took b (with_frames b' f) n.
Proof. intros [H T R C]. split; [by apply holds_frames|done|done|done]. Qed.

(** How many bytes can be read now. *)
Definition unread (b : Buffer) : Z := FirstMissingByte b - total b.

Lemma unread_nonneg b : holds b -> 0 <= unread b.
Proof. intros Hh. pose proof (first_missing b Hh). unfold unread. lia. Qed.

Lemma unread_took b b' n : took b b' n -> unread b' = unread b - n.
Proof. intros [_ T R _]. unfold unread, FirstMissingByte. rewrite T, R. lia. Qed.

Lemma avail_unread b : holds b -> 0 < unread b -> 0 < avail b <= unread b.
Proof.
  intros Hh Hu. pose proof (block_bounds b (h_cap b Hh) (total b)) as [H1 _]. unfold avail, unread in *. lia.
Qed.

Lemma readv_loop_spec fuel : forall rem b, holds b -> Z.min rem (unread b) <= Z.of_nat fuel ->
  terminates_in (readv_loop fuel rem b) (fun r b' =>
    let n := Z.max 0 (Z.min rem (unread b)) in
    r = (QUIC_NO_ERROR, bytes_from (total b) n) /\ took b b' n).
Proof.
  induction fuel as [|fuel IH]; intros rem b Hh Hf; pose proof (unread_nonneg b Hh) as Hu;
    cbn [readv_loop]; unfold mbind at 1, M_bind at 1, get; cbv beta;
    rewrite ?(available b Hh), (readable b Hh), !Z.gtb_ltb; fold (unread b).
  { destruct (Z.ltb_spec 0 rem), (Z.ltb_spec 0 (unread b)); try lia;
      (replace (Z.max 0 (Z.min rem (unread b))) with 0 by lia; split; [done|by apply took_0]). }
  destruct (Z.ltb_spec 0 rem) as [Hrem|]; cbn [andb]; cycle 1.
  { replace (Z.max 0 (Z.min rem (unread b))) with 0 by lia. split; [done|by apply took_0]. }
  destruct (Z.ltb_spec 0 (unread b)) as [Hunread|]; cycle 1.
  { replace (Z.max 0 (Z.min rem (unread b))) with 0 by lia. split; [done|by apply took_0]. }
  pose proof (avail_unread b Hh Hunread) as Ha. set (n := Z.min (avail b) rem).
  assert (0 < n <= avail b) as Hn by (unfold n; lia).
  destruct (copied_out b n Hh Hn) as (m & k & Em & Ek & Eout).
  unfold mbind at 1, M_bind at 1.
  rewrite (block_at_run b m (NextBlockToRead b) Em (index_range b (h_cap b Hh) (total b))), Ek.
  unfold mbind at 1, M_bind at 1. rewrite Eout. unfold mbind at 1, M_bind at 1, modify.
  apply total_bind. eapply total_mono; [apply (take_step b n Hh Hn)|].
  intros ok b1 (-> & Hh1 & Et & Er & Ec). cbn [negb].
  assert (took b b1 n) as Htook by (by split). pose proof (unread_took b b1 n Htook) as Eu.
  apply total_bind. eapply total_mono; [apply IH; [done|lia]|].
  intros r b' [-> Htook']. cbn [fst snd terminates_in mret M_ret].
  replace (Z.max 0 (Z.min rem (unread b))) with (n + Z.max 0 (Z.min (rem - n) (unread b1))) by lia.
  split; [|by eapply took_trans]. rewrite bytes_from_app by lia. by rewrite Et.
Qed.

(** What a scattered read hands out: the bytes [l] in pieces. *)
Definition room (iov : list Z) : Z := foldr (fun len s => Z.max 0 len + s) 0 iov.

Lemma room_nonneg iov : 0 <= room iov.
Proof. induction iov; simpl; lia. Qed.

Lemma readv_all_spec iov : forall b, holds b ->
  terminates_in (readv_all iov b) (fun r b' =>
    let n := Z.min (room iov) (unread b) in
    r.1 = QUIC_NO_ERROR /\ concat r.2 = bytes_from (total b) n /\
    Forall2 (fun piece len => Z.of_nat (length piece) <= Z.max 0 len) r.2 (take (length r.2) iov) /\
    took b b' n).
Proof.
  induction iov as [|len iov IH]; intros b Hh; pose proof (unread_nonneg b Hh) as Hu; simpl.
  { rewrite Z.min_l by lia. split; [done|]. split; [done|]. split; [constructor|by apply took_0]. }
  unfold mbind at 1, M_bind at 1, get. cbv beta. rewrite (readable b Hh), Z.gtb_ltb. fold (unread b).
  destruct (Z.ltb_spec 0 (unread b)) as [Hpos|]; cycle 1.
  { pose proof (room_nonneg iov). replace (Z.min (Z.max 0 len + room iov) (unread b)) with 0 by lia.
    split; [done|]. split; [done|]. split; [constructor|by apply took_0]. }
  apply total_bind. eapply total_mono; [apply readv_loop_spec; [done|lia]|].
  intros r b1 [-> Htook]. cbn [fst snd]. cbn [Z.eqb QUIC_NO_ERROR negb].
  set (n1 := Z.max 0 (Z.min len (unread b))) in *.
  apply total_bind. eapply total_mono; [apply IH, Htook|].
  intros [c ps] b2 (E1 & E2 & E3 & Htook2). cbn [fst snd] in *. subst c. cbn.
  rewrite (unread_took b b1 n1 Htook) in E2, Htook2. pose proof (room_nonneg iov).
  replace (Z.min (Z.max 0 len + room iov) (unread b)) with (n1 + Z.min (room iov) (unread b - n1)) by lia.
  split; [done|]. split; [|split].
  - rewrite bytes_from_app by lia. rewrite E2. destruct Htook as [_ -> _ _]. done.
  - constructor; [|exact E3]. unfold bytes_from. rewrite length_fmap, length_seqZ. lia.
  - by eapply took_trans.
Qed.

Lemma Readv_spec iov b : holds b ->
  terminates_in (Readv iov b) (fun r b' =>
    let n := Z.min (room iov) (unread b) in
    r.1 = QUIC_NO_ERROR /\ concat r.2 = bytes_from (total b) n /\
    Forall2 (fun piece len => Z.of_nat (length piece) <= Z.max 0 len) r.2 (take (length r.2) iov) /\
    took b b' n).
Proof.
  intros Hh. unfold Readv. apply total_bind. eapply total_mono; [by apply readv_all_spec|].
  intros r b' (E1 & E2 & E3 & Ht). rewrite E1. cbn [Z.eqb QUIC_NO_ERROR negb].
  apply total_bind. destruct (concat r.2) eqn:El.
  - cbn. rewrite El. done.
  - unfold mbind, M_bind, get, UpdateFrameArrivalMap, modify. cbn. rewrite El.
    destruct (split_frames _ _) as [pre post]. split; [done|]. split; [done|]. split; [done|].
    by apply took_frames.
Qed.

Lemma consume_loop_spec fuel : forall n b, holds b -> 0 <= n <= unread b -> n <= Z.of_nat fuel ->
  terminates_in (consume_loop fuel n b) (fun _ b' => took b b' n).
Proof.
  induction fuel as [|fuel IH]; intros n b Hh Hn Hf; cbn [consume_loop]; rewrite Z.gtb_ltb.
  { destruct (Z.ltb_spec 0 n); [lia|]. replace n with 0 by lia. by apply took_0. }
  destruct (Z.ltb_spec 0 n); cycle 1.
  { replace n with 0 by lia. by apply took_0. }
  unfold mbind at 1, M_bind at 1, get. cbv beta. rewrite (available b Hh).
  pose proof (avail_unread b Hh ltac:(lia)) as Ha. set (k := Z.min n (avail b)).
  assert (0 < k <= avail b) as Hk by (unfold k; lia).
  unfold mbind at 1, M_bind at 1, modify. pose proof (take_step b k Hh Hk) as Hstep.
  apply total_bind. eapply (total_mono _ (fun _ b1 => took b b1 k)).
  { rewrite Z.eqb_sym. destruct (k =? avail b).
    - apply total_bind. eapply total_mono; [exact Hstep|]. intros r b' (_ & ? & ? & ? & ?). by split.
    - destruct Hstep as (_ & ? & ? & ? & ?). by split. }
  intros _ b1 Ht. eapply total_mono.
  { apply IH; [apply Ht|rewrite (unread_took b b1 k Ht); lia|lia]. }
  intros ? b' Ht'. pose proof (took_trans _ _ _ _ _ Ht Ht') as H'.
  by replace (k + (n - k)) with n in H' by lia.
Qed.

Lemma MarkConsumed_spec n b : holds b -> 0 <= n ->
  terminates_in (MarkConsumed n b) (fun r b' =>
    if n <=? unread b then r = true /\ took b b' n else r = false /\ b' = b).
Proof.
  intros Hh Hn. unfold MarkConsumed, mbind at 1, M_bind at 1, get. cbv beta.
  rewrite (readable b Hh), Z.gtb_ltb. fold (unread b).
  destruct (Z.ltb_spec (unread b) n), (Z.leb_spec n (unread b)); try lia; [done|].
  apply total_bind. eapply total_mono; [apply consume_loop_spec; [done|lia|lia]|].
  intros ? b' Ht. apply total_bind. destruct (n >? 0); [|done].
  unfold mbind, M_bind, UpdateFrameArrivalMap, modify. cbn.
  destruct (split_frames _ _) as [pre post]. split; [done|]. by apply took_frames.
Qed.

(** ** Regions *)

Lemma whole_regions_spec b s e iov_count fuel : holds b -> e = FirstMissingByte b - 1 ->
  forall p u, total b <= p <= e -> GetInBlockOffset b p = 0 ->
  GetBlockIndex b p = (s + u) mod blocks_count_ b -> u <= iov_count ->
  (GetBlockIndex b e - (s + u)) mod blocks_count_ b <= Z.of_nat fuel ->
  exists rs u' p', whole_regions fuel s (GetBlockIndex b e) iov_count u b = Ret (u', rs) b /\
    concat rs = bytes_from p (p' - p) /\ u' = u + Z.of_nat (length rs) /\ p <= p' <= e /\
    GetInBlockOffset b p' = 0 /\ u' <= iov_count /\
    (u' < iov_count -> GetBlockIndex b p' = GetBlockIndex b e).
Proof.
  intros Hh He. pose proof (h_cap b Hh) as Hcap. pose proof (count_spec b Hcap) as (Hc & _ & _).
  induction fuel as [|fuel IH]; intros p u Hp Ho Hi Hu Hf; cbn [whole_regions];
    unfold mbind at 1, M_bind at 1, get; cbv beta; rewrite <- Hi;
    pose proof (index_range b Hcap e) as Hie; pose proof (index_range b Hcap p) as Hip.
  all: assert (forall u' rs, u' = u -> rs = [] -> (u' < iov_count -> GetBlockIndex b p = GetBlockIndex b e) ->
    exists rs0 u0 p', (Ret (u', rs) b : outcome Buffer (Z * list (list Z))) = Ret (u0, rs0) b /\
      concat rs0 = bytes_from p (p' - p) /\ u0 = u + Z.of_nat (length rs0) /\ p <= p' <= e /\
      GetInBlockOffset b p' = 0 /\ u0 <= iov_count /\
      (u0 < iov_count -> GetBlockIndex b p' = GetBlockIndex b e)) as Hdone
    by (intros u' rs -> -> Hx; exists [], u, p; rewrite Z.sub_diag; simpl; split_and!; [done|done|lia|lia|lia|done|lia|done]).
  - destruct (Z.eqb_spec (GetBlockIndex b p) (GetBlockIndex b e)) as [E|E]; [by apply Hdone|].
    destruct (Z.ltb_spec u iov_count); [|apply Hdone; [done|done|lia]]. exfalso. apply E.
    rewrite Hi. pose proof (Z.mod_pos_bound (GetBlockIndex b e - (s + u)) (blocks_count_ b)).
    assert ((GetBlockIndex b e - (s + u)) mod blocks_count_ b = 0) as Hz by lia.
    apply Z.mod_divide in Hz as [q Hq]; [|lia].
    replace (s + u) with (GetBlockIndex b e + (- q) * blocks_count_ b) by lia.
    rewrite Z.mod_add by lia. by apply Z.mod_small.
  - destruct (Z.eqb_spec (GetBlockIndex b p) (GetBlockIndex b e)) as [E|E]; [by apply Hdone|].
    destruct (Z.ltb_spec u iov_count) as [Hlt|]; [|apply Hdone; [done|done|lia]]. cbn [negb andb].
    pose proof (block_bounds b Hcap p) as [Hb1 Hb2].
    assert (block_end b p <= e) as Hend.
    { destruct (Z.le_gt_cases (block_end b p) e); [done|]. destruct E. symmetry.
      apply (same_block b Hcap). exists 0. lia. }
    assert (GetBlockCapacity b (GetBlockIndex b p) = block_end b p - p) as Ecap
      by (unfold block_end, block_start; lia).
    destruct (segment_spec b p (block_end b p - p) Hh) as (m & k & _ & _ & Eseg); [lia|lia|lia|lia|].
    rewrite Ho in Eseg. unfold region, mbind at 1, M_bind at 1. rewrite Ecap, Eseg.
    destruct (next_block b Hcap p) as [Hno Hni].
    destruct (IH (block_end b p) (u + 1)) as (rs & u' & p' & Er & Ec & Eu & Hp' & Ho' & Hu' & Hend').
    + lia.
    + done.
    + rewrite Hni, Hi, Z.add_mod_idemp_l by lia. f_equal. lia.
    + lia.
    + assert ((GetBlockIndex b e - (s + (u + 1))) mod blocks_count_ b
              = (GetBlockIndex b e - (s + u)) mod blocks_count_ b - 1) as ->; [|lia].
      pose proof (Z.mod_pos_bound (GetBlockIndex b e - (s + u)) (blocks_count_ b)).
      pose proof (Z.div_mod (GetBlockIndex b e - (s + u)) (blocks_count_ b)) as D.
      assert ((GetBlockIndex b e - (s + u)) mod blocks_count_ b <> 0) as Hnz.
      { intros Hz. apply E. rewrite Hi.
        replace (s + u) with (GetBlockIndex b e + (- ((GetBlockIndex b e - (s + u)) / blocks_count_ b)) * blocks_count_ b) by lia.
        rewrite Z.mod_add by lia. by apply Z.mod_small. }
      symmetry. apply (Zmod_unique _ _ ((GetBlockIndex b e - (s + u)) / blocks_count_ b)); lia.
    + unfold mbind, M_bind. rewrite Er. cbn [mret M_ret fst snd].
      exists (bytes_from p (block_end b p - p) :: rs), u', p'. split; [done|]. simpl concat. split_and!;
        [|simpl length; lia|lia|lia|done|done|done].
      rewrite Ec. replace (p' - p) with ((block_end b p - p) + (p' - block_end b p)) by lia.
      rewrite bytes_from_app by lia. do 2 f_equal; lia.
Qed.

(** The readable bytes end in the block that is read next. *)
Lemma one_region b : holds b -> 0 < unread b ->
  let e := FirstMissingByte b - 1 in
  (GetBlockIndex b (total b) =? GetBlockIndex b e) && (ReadOffset b <=? GetInBlockOffset b e) = true <->
  e < block_end b (total b).
Proof.
  intros Hh Hu e. unfold unread in Hu. pose proof (h_cap b Hh) as Hcap.
  pose proof (block_bounds b Hcap (total b)) as [Hb1 Hb2].
  rewrite andb_true_iff, Z.eqb_eq, Z.leb_le. split.
  - intros [E Ho]. symmetry in E. apply (same_block b Hcap) in E as [j Hj]. pose proof (slot_offset b Hcap _ _ j Hj) as Eo.
    pose proof (first_missing b Hh) as (_ & Hread & _ & _).
    assert (e < total b + cap b) by (apply (h_member b Hh), Hread; pose proof (h_total b Hh); unfold e; lia).
    rewrite Eo in Ho. unfold ReadOffset, block_start in *.
    assert (j < 1) by nia. assert (0 <= j) by nia. assert (j = 0) as -> by lia. lia.
  - intros He. destruct (slot_within b Hcap (total b) e) as [E1 E2]; [unfold e in *; lia|].
    split; [done|]. rewrite E2. unfold ReadOffset, block_start, e in *. lia.
Qed.

(** The regions [rs] show the next [n] bytes. *)
Record shows (b : Buffer) (iov_count : Z) (rs : list (list Z)) (n : Z) : Prop := {
  sh_bytes : concat rs = bytes_from (total b) n;
  sh_number : Z.of_nat (length rs) <= iov_count;
  sh_some : 0 < unread b -> rs <> [] /\ 0 < n;
  sh_unread : 0 <= n <= unread b;
  sh_all : Z.of_nat (length rs) < iov_count -> n = unread b
}.

(** The readable bytes reach into further blocks. *)
Lemma more_regions b iov_count : holds b -> 1 <= iov_count ->
  let e := FirstMissingByte b - 1 in
  total b <= e -> block_end b (total b) <= e ->
  exists rs n, shows b iov_count rs n /\
    (x ← region (GetBlockIndex b (total b)) (GetInBlockOffset b (total b))
           (block_end b (total b) - total b);
     r ← whole_regions (Z.to_nat (blocks_count_ b)) (GetBlockIndex b (total b)) (GetBlockIndex b e) iov_count 1;
     if r.1 <? iov_count then
       y ← region (GetBlockIndex b e) 0 (GetInBlockOffset b e + 1);
       mret (x :: r.2 ++ [y])
     else mret (x :: r.2)) b = Ret rs b.
Proof.
  intros Hh Hiov e Hte He. pose proof (h_cap b Hh) as Hcap. pose proof (count_spec b Hcap) as (Hc & _ & _).
  pose proof (block_bounds b Hcap (total b)) as [Hb1 Hb2].
  destruct (segment_spec b (total b) (block_end b (total b) - total b) Hh) as (m & k & _ & _ & Eseg);
    [lia|lia|unfold e in *; lia|lia|].
  unfold region. unfold mbind at 1, M_bind at 1. rewrite Eseg. clear Eseg.
  destruct (next_block b Hcap (total b)) as [Hno Hni].
  destruct (whole_regions_spec b (GetBlockIndex b (total b)) e iov_count (Z.to_nat (blocks_count_ b)) Hh eq_refl
    (block_end b (total b)) 1) as (rs & u & p & Er & Ec & Eu & Hp & Ho & Hui & Hend); [lia|done|done|lia| |].
  { pose proof (Z.mod_pos_bound (GetBlockIndex b e - (GetBlockIndex b (total b) + 1)) (blocks_count_ b)). lia. }
  unfold mbind at 1, M_bind at 1. rewrite Er. cbn [fst snd].
  assert (bytes_from (total b) (block_end b (total b) - total b) ++ concat rs = bytes_from (total b) (p - total b)) as Ecat.
  { replace (p - total b) with ((block_end b (total b) - total b) + (p - block_end b (total b))) by lia.
    rewrite bytes_from_app, Ec by lia. do 2 f_equal. lia. }
  destruct (Z.ltb_spec u iov_count) as [Hlt|Hge].
  - specialize (Hend Hlt). pose proof (block_bounds b Hcap p) as [Hp1 Hp2].
    assert (block_start b p = p) as Eps by (unfold block_start; lia).
    pose proof (first_missing b Hh) as (_ & Hread & _ & _).
    assert (e < total b + cap b) by (apply (h_member b Hh), Hread; pose proof (h_total b Hh); unfold e in *; lia).
    assert (e < block_end b p) as Hep.
    { symmetry in Hend. apply (same_block b Hcap) in Hend as [j Hj].
      assert (j < 1) by nia. assert (0 <= j) by nia. assert (j = 0) as -> by lia. lia. }
    destruct (slot_within b Hcap p e) as [_ Eo]; [lia|].
    destruct (segment_spec b p (e - p + 1) Hh) as (m' & k' & _ & _ & Eseg);
      [lia|lia|unfold e in *; lia|lia|].
    rewrite Eo, Eps. rewrite Ho, Hend in Eseg. unfold mbind, M_bind. rewrite Eseg.
    exists ((bytes_from (total b) (block_end b (total b) - total b) :: rs) ++ [bytes_from p (e - p + 1)]), (unread b).
    split; [|done]. split; rewrite ?length_app; cbn [length concat]; unfold unread, e in *; try lia.
    + rewrite concat_app. cbn [concat]. rewrite app_nil_r, Ecat.
      replace (FirstMissingByte b - total b) with ((p - total b) + (FirstMissingByte b - 1 - p + 1)) by lia.
      rewrite (bytes_from_app (total b) (p - total b)) by lia.
      by replace (total b + (p - total b)) with p by lia.
    + intros _. split; [done|lia].
  - exists (bytes_from (total b) (block_end b (total b) - total b) :: rs), (p - total b).
    split; [|done]. split; cbn [length concat]; unfold unread, e in *; try lia; [done|].
    intros _. split; [done|lia].
Qed.

Lemma GetReadableRegions_spec b iov_count : holds b -> 1 <= iov_count ->
  exists rs n, GetReadableRegions iov_count b = Ret rs b /\ shows b iov_count rs n.
Proof.
  intros Hh Hiov. pose proof (unread_nonneg b Hh) as Hu0.
  unfold GetReadableRegions, mbind at 1, M_bind at 1, get. cbv beta.
  rewrite (readable b Hh). fold (unread b). destruct (Z.eqb_spec (unread b) 0) as [E|Hne].
  { exists [], 0. split; [done|]. split; [done|simpl; lia|lia|lia|lia]. }
  assert (0 < unread b) as Hu by lia.
  pose proof (first_missing b Hh) as (Hf1 & Hread & _ & Hf4). pose proof (h_total b Hh).
  pose proof (h_range b Hh) as Hr. unfold in_range in Hr. pose proof kBlock_pos. pose proof (h_cap b Hh).
  change (2 ^ 64) with 18446744073709551616 in Hr.
  rewrite (uint64_small (FirstMissingByte b - 1)) by (unfold unread in *; lia).
  pose proof (one_region b Hh Hu) as Hone. cbv zeta in Hone.
  change (NextBlockToRead b) with (GetBlockIndex b (total b)). unfold ReadOffset in *.
  destruct ((GetBlockIndex b (total b) =? GetBlockIndex b (FirstMissingByte b - 1)) && _) eqn:Et.
  - assert (FirstMissingByte b - 1 < block_end b (total b)) as He by (by apply Hone).
    destruct (segment_spec b (total b) (unread b) Hh) as (m & k & _ & _ & Eseg); [lia|lia|unfold unread; lia|unfold unread; lia|].
    unfold region, mbind, M_bind. rewrite Eseg.
    exists [bytes_from (total b) (unread b)], (unread b). split; [done|].
    split; cbn [length concat]; [by rewrite app_nil_r|lia|done|lia|done].
  - assert (block_end b (total b) <= FirstMissingByte b - 1) as He.
    { destruct (Z.le_gt_cases (block_end b (total b)) (FirstMissingByte b - 1)); [done|].
      destruct Hone as [_ Hone]. discriminate Hone. lia. }
    replace (GetBlockCapacity b (GetBlockIndex b (total b)) - GetInBlockOffset b (total b))
      with (block_end b (total b) - total b) by (unfold block_end, block_start; lia).
    destruct (more_regions b iov_count Hh Hiov) as (rs & n & Hs & E); [unfold unread in *; lia|done|].
    by exists rs, n.
Qed.

(** ** Clearing *)

Lemma cleared b : kBlockSizeBytes < cap b -> in_range b -> 0 <= total b <= Z.max 0 limit ->
  holds (with_frames (with_received (with_counts b (total b) 0) (IntervalSet.AddRange 0 (total b) [])) []).
Proof.
  intros Hcap Hr Ht. destruct (Add_spec (mk 0 (total b)) [] valid_nil) as [HV _].
  pose proof (member_one_range (total b)) as Hm.
  assert (count (IntervalSet.AddRange 0 (total b) []) = total b) as Ec.
  { pose proof (count_ge _ (total b) (fun v Hv => proj2 (Hm v) Hv)).
    pose proof (count_bound _ (total b) HV (fun v Hv => proj1 (Hm v) Hv)). unfold IntervalSet.AddRange in *. lia. }
  pose proof kBlock_pos. split; simpl; try done.
  - lia.
  - intros v Hv. by apply Hm.
  - intros v Hv%Hm. lia.
  - intros v Hv%Hm. lia.
  - rewrite Ec. lia.
  - pose proof (one_range (total b)). assert (1 < kMaxNumDataIntervalsAllowed) by done. lia.
Qed.

Lemma retire_all b l : Forall (fun i => 0 <= i < blocks_count_ b) l ->
  forall m, terminates_in
    (for_each l (fun i =>
       k ← block_at i;
       match k with
       | Some _ => _ ← RetireBlock i; mret tt
       | None => mret tt
       end) (with_blocks b (Some m))) (fun _ b' => exists m', b' = with_blocks b (Some m')).
Proof.
  induction 1 as [|i l Hi _ IH]; intros m; simpl; [by exists m|].
  apply total_bind. unfold mbind at 1, M_bind at 1.
  rewrite (block_at_run (with_blocks b (Some m)) m i eq_refl Hi).
  destruct (m !! i) as [k|] eqn:Ek; [|apply IH].
  unfold RetireBlock, mbind, M_bind. rewrite (block_at_run (with_blocks b (Some m)) m i eq_refl Hi), Ek.
  rewrite (set_block_run (with_blocks b (Some m)) m i None eq_refl Hi). apply IH.
Qed.

Lemma Clear_spec b : kBlockSizeBytes < cap b -> in_range b -> 0 <= total b <= Z.max 0 limit ->
  terminates_in (Clear b) (fun _ b' => holds b' /\ total b' = total b /\ cap b' = cap b /\
    received b' = IntervalSet.AddRange 0 (total b) []).
Proof.
  intros Hcap Hr Ht. unfold Clear, mbind at 1, M_bind at 1, get. cbv beta. apply total_bind.
  eapply (total_mono _ (fun _ b1 => exists m, b1 = with_blocks b m)).
  - destruct (blocks_ b) as [m|] eqn:Em; [|exists None; by destruct b; simpl in *; subst].
    assert (b = with_blocks b (Some m)) as Eb by (destruct b; simpl in *; by subst).
    assert (Forall (fun i => 0 <= i < blocks_count_ b) (seqZ 0 (blocks_count_ b))) as Hall.
    { apply Forall_forall. intros i Hi%elem_of_seqZ. lia. }
    pose proof (retire_all b _ Hall m) as H. rewrite <- Eb in H.
    eapply total_mono; [exact H|]. intros ? b' [m' ->]. by eexists.
  - intros ? b1 [m ->]. split; [|done]. by apply (cleared (with_blocks b m)).
Qed.

Lemma ReleaseWholeBuffer_spec b : kBlockSizeBytes < cap b -> in_range b -> 0 <= total b <= Z.max 0 limit ->
  terminates_in (ReleaseWholeBuffer b) (fun _ b' => holds b' /\ total b' = total b /\ cap b' = cap b /\
    received b' = IntervalSet.AddRange 0 (total b) []).
Proof.
  intros Hcap Hr Ht. unfold ReleaseWholeBuffer. apply total_bind.
  eapply total_mono; [by apply Clear_spec|]. intros ? b' (Hh & Et & Ec & Er).
  unfold modify. cbn [terminates_in]. split; [|done]. destruct Hh. split; try done.
  simpl. intros v Hv Hle. rewrite Er in Hv. apply member_one_range in Hv. lia.
Qed.

Lemma next_expected b : holds b -> total b <= NextExpectedByte b <= Z.max 0 limit.
Proof.
  intros Hh. destruct (decide (received b = [])) as [E|Hne].
  - unfold NextExpectedByte. rewrite E. simpl. pose proof (first_missing b Hh) as (Hf & _ & _ & _).
    unfold FirstMissingByte in Hf. rewrite E in Hf. pose proof (h_total b Hh). lia.
  - destruct (last_member b Hh Hne) as [Hl Hmax]. pose proof (h_member b Hh _ Hl).
    destruct (Z.le_gt_cases (total b) (NextExpectedByte b)); [lia|].
    pose proof (Hmax _ (h_read b Hh (NextExpectedByte b) ltac:(lia))). lia.
Qed.

Lemma unread_one_range b : holds b -> received b = IntervalSet.AddRange 0 (total b) [] -> unread b = 0.
Proof.
  intros Hh Er. unfold unread. pose proof (first_missing b Hh) as (Hf1 & Hf2 & Hf3 & _).
  destruct (Z.le_gt_cases (FirstMissingByte b) (total b)); [lia|]. pose proof (h_total b Hh).
  pose proof (Hf2 (total b) ltac:(lia)) as Hm. rewrite Er in Hm. apply member_one_range in Hm. lia.
Qed.

Lemma FlushBufferedFrames_spec b : holds b ->
  terminates_in (FlushBufferedFrames b) (fun r b' =>
    r = NextExpectedByte b - total b /\ holds b' /\ total b' = NextExpectedByte b /\ cap b' = cap b /\
    received b' = IntervalSet.AddRange 0 (total b') []).
Proof.
  intros Hh. pose proof (next_expected b Hh) as Hn. pose proof (h_total b Hh). pose proof (h_cap b Hh).
  unfold FlushBufferedFrames, mbind at 1, M_bind at 1, get. cbv beta.
  unfold mbind at 1, M_bind at 1, modify. apply total_bind. eapply total_mono.
  { apply Clear_spec; [done|apply Hh|simpl; lia]. }
  intros ? b' (Hh' & Et & Ec & Er). cbn [terminates_in mret M_ret]. simpl in Et, Er.
  pose proof (h_range b Hh) as Hr. unfold in_range in Hr. pose proof kBlock_pos.
  change (2 ^ 64) with 18446744073709551616 in Hr.
  split; [apply uint64_small; lia|]. split; [done|]. split; [done|]. split; [done|]. by rewrite Et.
Qed.
End Stream.
