(* ===== verification/ReassemblyRuns.v ===== *)
(** Runs of the reassembly buffer: frames arrive in any order, with overlaps and
    repetitions, between reads; the reader gets the bytes of the stream in order,
    and the fast path of [OnStreamData] makes no difference to it. *)

From S2P Require Import Prelude IntervalSet Intervals SequencerBuffer Reassembly.
Import Interval.
Import SequencerBuffer.

(** ** Runs *)

(** What is asked of a buffer: a frame arrives, the reader copies into buffers of
    these lengths, or looks at up to [iov_count] regions and consumes up to
    [used] bytes of what it saw. *)
Inductive request : Type :=
| Frame (offset : Z) (data : list Z) (arrival : Z)
| Read (iov : list Z)
| Peek (iov_count used : Z).

(** The code, and the bytes the reader was given. *)
Definition serve (fast : bool) (q : request) : M Buffer (Z * list Z) :=
  match q with
  | Frame o data t => r ← OnStreamData fast o data t; mret (r.1, [])
  | Read iov => r ← Readv iov; mret (r.1, concat r.2)
  | Peek iov_count used =>
      rs ← GetReadableRegions iov_count;
      let seen := take (Z.to_nat used) (concat rs) in
      ok ← MarkConsumed (Z.of_nat (length seen));
      mret (if ok : bool then QUIC_NO_ERROR else QUIC_STREAM_SEQUENCER_INVALID_STATE, seen)
  end.

(** The requests in order; the first error ends the run, as it closes the
    connection. *)
Fixpoint serve_all (fast : bool) (l : list request) : M Buffer (Z * list Z) :=
  match l with
  | [] => mret (QUIC_NO_ERROR, [])
  | q :: l' =>
      r ← serve fast q;
      if r.1 =? QUIC_NO_ERROR
      then s ← serve_all fast l'; mret (s.1, r.2 ++ s.2)
      else mret r
  end.

Section Runs.
Variable sent : Z -> Z.
Variable limit : Z.

(** The frames carry the bytes of the stream [sent], within its length. *)
Definition honest (q : request) : Prop :=
  match q with
  | Frame o data _ => 0 <= o /\ o + Z.of_nat (length data) <= limit /\ carries sent o data
  | Read _ => True
  | Peek iov_count _ => 1 <= iov_count
  end.

(** Offset [v] is in a frame of [l]. *)
Definition covered (v : Z) (l : list request) : Prop :=
  Exists (fun q => match q with Frame o data _ => o <= v < o + Z.of_nat (length data) | _ => False end) l.

Definition outcomes : list Z :=
  [QUIC_NO_ERROR; QUIC_EMPTY_STREAM_FRAME_NO_FIN; QUIC_INTERNAL_ERROR; QUIC_TOO_MANY_STREAM_DATA_INTERVALS].

(** What one request does. *)
Definition served (b : Buffer) (q : request) (r : Z * list Z) (b' : Buffer) : Prop :=
  r.2 = bytes_from sent (total b) (Z.of_nat (length r.2)) /\ r.1 ∈ outcomes /\
  (r.1 = QUIC_NO_ERROR -> holds sent limit b' /\ cap b' = cap b /\
    total b' = total b + Z.of_nat (length r.2) /\
    forall v, member v (received b') <-> member v (received b) \/ covered v [q]).

Lemma length_bytes_from o n : 0 <= n -> Z.of_nat (length (bytes_from sent o n)) = n.
Proof. intros Hn. unfold bytes_from. rewrite length_fmap, length_seqZ. lia. Qed.

Lemma take_bytes_from o n k : 0 <= k <= n -> take (Z.to_nat k) (bytes_from sent o n) = bytes_from sent o k.
Proof.
  intros Hk. replace n with (k + (n - k)) by lia. rewrite bytes_from_app by lia.
  apply take_app_length'. pose proof (length_bytes_from o k ltac:(lia)). lia.
Qed.

Lemma took_served b b' n q l : holds sent limit b -> took sent limit b b' n -> 0 <= n ->
  (forall v, ~ covered v [q]) -> l = bytes_from sent (total b) n -> served b q (QUIC_NO_ERROR, l) b'.
Proof.
  intros Hh [H1 H2 H3 H4] Hn Hq ->. split; [by simpl; rewrite length_bytes_from|].
  split; [left|]. intros _. simpl. rewrite length_bytes_from by done.
  split; [done|]. split; [done|]. split; [done|]. intros v. rewrite H3. split; [by left|].
  intros [?|?%Hq]; done.
Qed.

Lemma serve_frame fast b o data t : holds sent limit b -> honest (Frame o data t) ->
  terminates_in (serve fast (Frame o data t) b) (served b (Frame o data t)).
Proof.
  intros Hh (Ho & Hl & Hd). unfold serve. apply total_bind.
  eapply total_mono; [by apply (OnStreamData_spec sent limit)|]. intros r b' He.
  cbn [terminates_in mret M_ret]. split; [done|]. unfold frame_effect in He.
  case_decide as Hdata.
  { destruct He as [-> ->]. split; [right; left|done]. }
  destruct (_ >? _). { destruct He as [-> ->]. split; [do 2 right; left|done]. }
  destruct (_ >=? _). { destruct He as [-> _]. split; [do 3 right; left|done]. }
  destruct He as (-> & Hh' & Ec & Et & Er). split; [left|]. intros _. simpl.
  split; [done|]. split; [done|]. split; [lia|]. intros v. rewrite Er.
  destruct (Add_spec (mk o (o + Z.of_nat (length data))) (received b) (h_valid _ _ b Hh)) as [_ ->].
  unfold covered. rewrite Exists_cons, Exists_nil. unfold within. simpl. tauto.
Qed.

Lemma serve_read fast b iov : holds sent limit b ->
  terminates_in (serve fast (Read iov) b) (fun r b' =>
    r = (QUIC_NO_ERROR, bytes_from sent (total b) (Z.min (room iov) (unread b))) /\
    took sent limit b b' (Z.min (room iov) (unread b))).
Proof.
  intros Hh. unfold serve. apply total_bind.
  eapply total_mono; [by apply (Readv_spec sent limit)|]. intros r b' (E1 & E2 & _ & Ht).
  cbn [terminates_in mret M_ret]. by rewrite E1, E2.
Qed.

Lemma serve_peek fast b iov_count used rs n : holds sent limit b ->
  GetReadableRegions iov_count b = Ret rs b -> shows sent b iov_count rs n ->
  let k := Z.min (Z.max 0 used) n in
  terminates_in (serve fast (Peek iov_count used) b) (fun r b' =>
    r = (QUIC_NO_ERROR, bytes_from sent (total b) k) /\ took sent limit b b' k).
Proof.
  intros Hh Hg [Hs _ _ Hn _] k. unfold serve, mbind at 1, M_bind at 1. rewrite Hg.
  assert (take (Z.to_nat used) (concat rs) = bytes_from sent (total b) k) as ->.
  { rewrite Hs. unfold k. destruct (Z.le_gt_cases n (Z.max 0 used)).
    - rewrite Z.min_r by lia. apply take_ge. pose proof (length_bytes_from (total b) n ltac:(lia)). lia.
    - rewrite Z.min_l by lia. replace (Z.to_nat used) with (Z.to_nat (Z.max 0 used)) by lia.
      apply take_bytes_from. lia. }
  rewrite length_bytes_from by lia. apply total_bind.
  eapply total_mono; [by apply (MarkConsumed_spec sent limit); [|lia]|].
  intros ok b' Hok. destruct (Z.leb_spec k (unread b)); [|lia]. by destruct Hok as [-> Ht].
Qed.

Lemma serve_spec fast b q : holds sent limit b -> honest q ->
  terminates_in (serve fast q b) (served b q).
Proof.
  intros Hh Hq. pose proof (unread_nonneg sent limit b Hh). destruct q as [o data t|iov|c used].
  - by apply serve_frame.
  - eapply total_mono; [by apply serve_read|]. intros r b' [-> Ht]. pose proof (room_nonneg iov).
    eapply took_served; [done|exact Ht|lia| |done].
    intros v Hv. unfold covered in Hv. by apply Exists_cons in Hv as [[]|Hv%Exists_nil].
  - destruct (GetReadableRegions_spec sent limit b c Hh Hq) as (rs & n & Eg & Hs).
    pose proof (sh_unread _ _ _ _ _ Hs).
    eapply total_mono; [by apply (serve_peek fast b c used rs n)|]. intros r b' [-> Ht].
    eapply took_served; [done|exact Ht|lia| |done].
    intros v Hv. unfold covered in Hv. by apply Exists_cons in Hv as [[]|Hv%Exists_nil].
Qed.

Lemma serve_all_spec fast l : forall b, holds sent limit b -> Forall honest l ->
  terminates_in (serve_all fast l b) (fun r b' =>
    r.2 = bytes_from sent (total b) (Z.of_nat (length r.2)) /\ r.1 ∈ outcomes /\
    (r.1 = QUIC_NO_ERROR -> holds sent limit b' /\ cap b' = cap b /\
      total b' = total b + Z.of_nat (length r.2) /\
      forall v, member v (received b') <-> member v (received b) \/ covered v l)).
Proof.
  induction l as [|q l IH]; intros b Hh Hl; cbn [serve_all].
  { split; [done|]. split; [left|]. intros _. simpl. split; [done|]. split; [done|]. split; [lia|].
    intros v. unfold covered. rewrite Exists_nil. tauto. }
  apply Forall_cons in Hl as [Hq Hl]. apply total_bind.
  eapply total_mono; [by apply serve_spec|]. intros r b1 (E1 & E2 & E3).
  destruct (Z.eqb_spec (r.1) QUIC_NO_ERROR) as [E|E]; [|by split].
  destruct (E3 E) as (Hh1 & Ec & Et & Em). apply total_bind.
  eapply total_mono; [by apply IH|]. intros s b' (F1 & F2 & F3). cbn [terminates_in mret M_ret fst snd].
  split; [|split; [done|]].
  - rewrite length_app, Nat2Z.inj_add, bytes_from_app by lia. by rewrite <- E1, <- Et, <- F1.
  - intros (Hh' & Fc & Ft & Fm)%F3. split; [done|]. split; [congruence|].
    split; [rewrite length_app; lia|]. intros v. rewrite Fm, Em. unfold covered.
    rewrite !Exists_cons, Exists_nil. tauto.
Qed.
End Runs.

Lemma holds_init sent limit c : kBlockSizeBytes < c -> limit + c + kBlockSizeBytes <= 2 ^ 64 ->
  holds sent limit (init c).
Proof.
  intros Hc Hl. split; simpl; try done; try lia; try by intros v Hv%member_nil.
  apply valid_nil.
Qed.

(** C21: Whatever order the frames of a stream arrive in, with overlaps and repetitions,
    between copying and zero-copy reads, every run of the reassembly buffer ends, the reader
    gets exactly the bytes of the stream in order, once each, what can be read reaches to
    the first byte no frame has brought, and the only errors are an empty frame, a frame
    beyond the capacity and too many gaps. *)
Theorem reassembly_gives_the_stream_back fast sent limit c l :
  kBlockSizeBytes < c -> limit + c + kBlockSizeBytes <= 2 ^ 64 -> Forall (honest sent limit) l ->
  terminates_in (serve_all fast l (init c)) (fun r b =>
    r.2 = bytes_from sent 0 (Z.of_nat (length r.2)) /\ r.1 ∈ outcomes /\
    (r.1 = QUIC_NO_ERROR ->
      BytesConsumed b = Z.of_nat (length r.2) /\
      (forall v, 0 <= v < BytesConsumed b + ReadableBytes b -> covered v l) /\
      ~ covered (BytesConsumed b + ReadableBytes b) l)).
Proof.
  intros Hc Hlim Hl. eapply total_mono; [by apply (serve_all_spec sent limit), Hl; apply holds_init|].
  intros r b (E1 & E2 & E3). split; [done|]. split; [done|]. intros (Hh & _ & Et & Hm)%E3.
  simpl in Et, Hm. unfold BytesConsumed. rewrite (readable sent limit b Hh).
  replace (total b + (FirstMissingByte b - total b)) with (FirstMissingByte b) by lia.
  destruct (first_missing sent limit b Hh) as (_ & Hread & Hmiss & _). split; [done|]. split.
  - intros v Hv. apply Hread, Hm in Hv as [?%member_nil|?]; done.
  - intros Hv. apply Hmiss, Hm. by right.
Qed.

Definition demo_requests : list request :=
  [Frame 3 [4; 5; 6] 1; Read [7]; Frame 0 [1; 2; 3; 4] 2; Peek 1 2; Read [1; 2]; Frame 9 [10] 3; Read [9]].

Definition demo_sent (v : Z) : Z := v + 1.

Lemma carries_bytes sent o data :
  data = bytes_from sent o (Z.of_nat (length data)) -> carries sent o data.
Proof.
  intros E i c Hi. rewrite E in Hi. unfold bytes_from in Hi. rewrite list_lookup_fmap in Hi.
  destruct (_ !! i) as [v|] eqn:Hv; [|done]. injection Hi as <-.
  by apply lookup_seqZ in Hv as [-> _].
Qed.

Lemma demo_honest : Forall (honest demo_sent 100) demo_requests.
Proof. repeat constructor; try (by apply carries_bytes); simpl; lia. Qed.

Lemma reassembly_gives_the_stream_back_witness :
  exists r b, serve_all true demo_requests (init 10000) = Ret r b /\
    r.2 = bytes_from demo_sent 0 (Z.of_nat (length r.2)) /\ length r.2 = 6%nat.
Proof.
  pose proof (reassembly_gives_the_stream_back true demo_sent 100 10000 demo_requests
    ltac:(vm_compute; done) ltac:(vm_compute; done) demo_honest) as H.
  destruct (serve_all true demo_requests (init 10000)) as [r b|] eqn:E; [|destruct H].
  exists r, b. split; [done|]. destruct H as [H _]. split; [exact H|].
  apply (f_equal (fun o => match o with Ret r _ => length r.2 | _ => 0%nat end)) in E.
  vm_compute in E. done.
Defined.

(** ** The fast path *)

(** The two buffers agree on everything but the blocks and the arrival times. *)
Record alike (b1 b2 : Buffer) : Prop := {
  al_cap : cap b1 = cap b2;
  al_total : total b1 = total b2;
  al_received : received b1 = received b2
}.

Lemma region_run i pos n b l b' : 0 <= n -> region i pos n b = Ret l b' ->
  Z.of_nat (length l) = n /\ b' = b.
Proof.
  intros Hn. unfold region, SequencerBuffer.copy_out, block_at, get, mbind, M_bind.
  destruct (blocks_ b) as [m|]; [|done]. simpl. destruct (_ && _); [|done]. simpl.
  destruct (m !! i) as [k|]; [|done]. simpl.
  destruct (in_block pos n); [|done]. destruct (mapM _ _) as [l'|] eqn:El; [|done]. simpl.
  intros [= <- <-]. apply length_mapM in El. rewrite length_seqZ in El. split; [lia|done].
Qed.

Lemma GetBlockCapacity_nonneg b i : 0 <= GetBlockCapacity b i.
Proof.
  unfold GetBlockCapacity. pose proof kBlock_pos.
  pose proof (Z.mod_pos_bound (cap b) kBlockSizeBytes ltac:(lia)).
  destruct (_ =? _); [|lia]. destruct (_ =? 0); lia.
Qed.

Lemma alike_queries b1 b2 : alike b1 b2 ->
  (forall v, GetBlockIndex b1 v = GetBlockIndex b2 v) /\
  (forall v, GetInBlockOffset b1 v = GetInBlockOffset b2 v) /\
  (forall i, GetBlockCapacity b1 i = GetBlockCapacity b2 i) /\
  blocks_count_ b1 = blocks_count_ b2 /\ FirstMissingByte b1 = FirstMissingByte b2 /\
  ReadableBytes b1 = ReadableBytes b2 /\ unread b1 = unread b2.
Proof.
  intros [Hc Ht Hr]. unfold unread, ReadableBytes, GetBlockIndex, GetInBlockOffset, GetBlockCapacity,
    blocks_count_, FirstMissingByte. rewrite Hc, Ht, Hr. done.
Qed.

Lemma whole_regions_inv fuel s e c u b u' rs b' : whole_regions fuel s e c u b = Ret (u', rs) b' ->
  b' = b /\
  let i := (s + u) mod blocks_count_ b in
  if negb (i =? e) && (u <? c)
  then exists fuel' x rs', fuel = S fuel' /\ rs = x :: rs' /\
    Z.of_nat (length x) = GetBlockCapacity b i /\
    whole_regions fuel' s e c (u + 1) b = Ret (u', rs') b
  else u' = u /\ rs = [].
Proof.
  revert u u' rs. induction fuel as [|fuel IH]; intros u u' rs; cbn [whole_regions];
    unfold mbind at 1, M_bind at 1, get; cbv beta; destruct (negb _ && _); try done.
  all: try by intros [= -> <- <-].
  unfold mbind, M_bind. destruct (region _ _ _ b) as [x b1|] eqn:Ex; [|done].
  apply region_run in Ex as [Hx ->]; [|apply GetBlockCapacity_nonneg].
  destruct (whole_regions fuel s e c (u + 1) b) as [[u2 rs2] b2|] eqn:Er; [|done].
  intros [= -> <- <-]. destruct (IH _ _ _ Er) as [-> _]. split; [done|]. by exists fuel, x, rs2.
Qed.

Lemma whole_regions_alike b1 b2 s e c fuel : alike b1 b2 ->
  forall u u1 u2 rs1 rs2 b1' b2',
  whole_regions fuel s e c u b1 = Ret (u1, rs1) b1' -> whole_regions fuel s e c u b2 = Ret (u2, rs2) b2' ->
  u1 = u2 /\ length (concat rs1) = length (concat rs2).
Proof.
  intros Ha. pose proof (alike_queries b1 b2 Ha) as (_ & _ & Hcap & Hcount & _).
  induction fuel as [|fuel IH]; intros u u1 u2 rs1 rs2 b1' b2' [_ H1]%whole_regions_inv [_ H2]%whole_regions_inv;
    cbv zeta in H1, H2; rewrite Hcount in H1; destruct (negb _ && _).
  - by destruct H1 as (? & ? & ? & [=] & _).
  - by destruct H1 as [-> ->], H2 as [-> ->].
  - destruct H1 as (? & x1 & l1 & [= <-] & -> & L1 & E1), H2 as (? & x2 & l2 & [= <-] & -> & L2 & E2).
    destruct (IH _ _ _ _ _ _ _ E1 E2) as [-> E]. split; [done|].
    simpl. rewrite !length_app, E. rewrite Hcap in L1. lia.
  - by destruct H1 as [-> ->], H2 as [-> ->].
Qed.

(** What [GetReadableRegions] shows does not depend on how it is stored. *)
Lemma regions_alike sent limit b1 b2 c rs1 rs2 n1 n2 :
  alike b1 b2 -> holds sent limit b1 -> holds sent limit b2 ->
  GetReadableRegions c b1 = Ret rs1 b1 -> GetReadableRegions c b2 = Ret rs2 b2 ->
  shows sent b1 c rs1 n1 -> shows sent b2 c rs2 n2 -> n1 = n2.
Proof.
  intros Ha Hh1 Hh2 E1 E2 S1 S2.
  assert (length (concat rs1) = length (concat rs2)) as El; cycle 1.
  { rewrite (sh_bytes _ _ _ _ _ S1), (sh_bytes _ _ _ _ _ S2) in El.
    pose proof (length_bytes_from sent (total b1) n1 (proj1 (sh_unread _ _ _ _ _ S1))).
    pose proof (length_bytes_from sent (total b2) n2 (proj1 (sh_unread _ _ _ _ _ S2))). lia. }
  clear S1 S2. pose proof (alike_queries b1 b2 Ha) as (Hi & Ho & Hcap & Hcount & Hf & Hr & _).
  pose proof (al_total b1 b2 Ha) as Ht. revert E1 E2.
  unfold GetReadableRegions, ReadOffset, NextBlockToRead, get, mbind, M_bind.
  rewrite Ht, Hr, Hf, !Hi, !Ho, Hcap, Hcount.
  destruct (_ =? 0); [by intros [= <-] [= <-]|].
  assert (0 <= GetBlockCapacity b2 (GetBlockIndex b2 (total b2)) - GetInBlockOffset b2 (total b2)) as Hfirst.
  { pose proof (block_bounds b2 (h_cap _ _ b2 Hh2) (total b2)) as [Hb _]. unfold block_end, block_start in Hb. lia. }
  assert (0 <= ReadableBytes b2) as Hread by (unfold ReadableBytes; apply Z.mod_pos_bound; lia).
  assert (0 <= GetInBlockOffset b2 (uint64 (FirstMissingByte b2 - 1)) + 1) as Hlast.
  { pose proof (slot_spec b2 (h_cap _ _ b2 Hh2) (uint64 (FirstMissingByte b2 - 1))) as [? _]. lia. }
  destruct (_ && _).
  - destruct (region _ _ _ b1) as [x1 c1|] eqn:R1; [|done]. destruct (region _ _ _ b2) as [x2 c2|] eqn:R2; [|done].
    intros [= <- _] [= <- _]. apply region_run in R1 as [L1 _]; [|done]. apply region_run in R2 as [L2 _]; [|done].
    simpl. rewrite !app_nil_r. lia.
  - destruct (region _ _ _ b1) as [x1 c1|] eqn:R1; [|done]. destruct (region _ _ _ b2) as [x2 c2|] eqn:R2; [|done].
    apply region_run in R1 as [L1 ->]; [|done]. apply region_run in R2 as [L2 ->]; [|done].
    destruct (whole_regions _ _ _ _ _ b1) as [[u1 r1] c1|] eqn:W1; [|done].
    destruct (whole_regions _ _ _ _ _ b2) as [[u2 r2] c2|] eqn:W2; [|done].
    destruct (whole_regions_alike _ _ _ _ _ _ Ha _ _ _ _ _ _ _ W1 W2) as [-> EL].
    apply whole_regions_inv in W1 as [-> _]. apply whole_regions_inv in W2 as [-> _]. cbn [fst snd].
    destruct (_ <? c).
    + destruct (region _ _ _ b1) as [y1 c1|] eqn:R1; [|done]. destruct (region _ _ _ b2) as [y2 c2|] eqn:R2; [|done].
      apply region_run in R1 as [M1 _]; [|done]. apply region_run in R2 as [M2 _]; [|done].
      intros [= <- _] [= <- _]. simpl. rewrite !concat_app, !length_app. simpl. rewrite !app_nil_r. lia.
    + intros [= <-] [= <-]. simpl. rewrite !length_app. lia.
Qed.

(** One request on alike buffers *)
Lemma serve_alike sent limit f1 f2 q b1 b2 : alike b1 b2 -> holds sent limit b1 -> holds sent limit b2 ->
  honest sent limit q ->
  terminates_in (serve f1 q b1) (fun r1 c1 => terminates_in (serve f2 q b2) (fun r2 c2 =>
    r1 = r2 /\ (r1.1 = QUIC_NO_ERROR -> alike c1 c2 /\ holds sent limit c1 /\ holds sent limit c2))).
Proof.
  intros Ha Hh1 Hh2 Hq. pose proof Ha as [Hc Ht Hr].
  pose proof (alike_queries b1 b2 Ha) as (_ & _ & _ & _ & _ & _ & Hu).
  destruct q as [o data t|iov|c used].
  - destruct Hq as (Ho & Hl & Hd). unfold serve. apply total_bind.
    eapply total_mono; [by apply (OnStreamData_spec sent limit)|]. intros r1 c1 E1.
    cbn [terminates_in mret M_ret]. apply total_bind.
    eapply total_mono; [by apply (OnStreamData_spec sent limit)|]. intros r2 c2 E2.
    cbn [terminates_in mret M_ret]. unfold frame_effect in *. rewrite Hc, Ht, Hr in E1.
    case_decide; [by destruct E1 as [-> _], E2 as [-> _]|].
    destruct (_ >? _); [by destruct E1 as [-> _], E2 as [-> _]|].
    destruct (_ >=? _); [by destruct E1 as [-> _], E2 as [-> _]|].
    destruct E1 as (-> & H1 & C1 & T1 & R1), E2 as (-> & H2 & C2 & T2 & R2).
    split; [done|]. intros _. split; [split; congruence|done].
  - eapply total_mono; [by apply (serve_read sent limit)|]. intros r1 c1 [-> [H1 T1 R1 C1]].
    eapply total_mono; [by apply (serve_read sent limit)|]. intros r2 c2 [-> [H2 T2 R2 C2]].
    rewrite Hu, Ht in *. split; [done|]. intros _. split; [split; congruence|done].
  - destruct (GetReadableRegions_spec sent limit b1 c Hh1 Hq) as (rs1 & n1 & G1 & S1).
    destruct (GetReadableRegions_spec sent limit b2 c Hh2 Hq) as (rs2 & n2 & G2 & S2).
    pose proof (regions_alike sent limit b1 b2 c rs1 rs2 n1 n2 Ha Hh1 Hh2 G1 G2 S1 S2) as ->.
    eapply total_mono; [by apply (serve_peek sent limit _ _ _ _ rs1 n2)|]. intros r1 c1 [-> [H1 T1 R1 C1]].
    eapply total_mono; [by apply (serve_peek sent limit _ _ _ _ rs2 n2)|]. intros r2 c2 [-> [H2 T2 R2 C2]].
    rewrite Ht in *. split; [done|]. intros _. split; [split; congruence|done].
Qed.

Lemma serve_all_alike sent limit f1 f2 l : forall b1 b2, alike b1 b2 ->
  holds sent limit b1 -> holds sent limit b2 -> Forall (honest sent limit) l ->
  terminates_in (serve_all f1 l b1) (fun r1 c1 => terminates_in (serve_all f2 l b2) (fun r2 c2 =>
    r1 = r2 /\ (r1.1 = QUIC_NO_ERROR -> alike c1 c2 /\ BytesBuffered c1 = BytesBuffered c2))).
Proof.
  induction l as [|q l IH]; intros b1 b2 Ha H1 H2 Hl; cbn [serve_all].
  { split; [done|]. intros _. split; [done|]. destruct Ha as [_ Et Er]. unfold BytesBuffered.
    rewrite (h_count _ _ _ H1), (h_count _ _ _ H2). congruence. }
  apply Forall_cons in Hl as [Hq Hl]. apply total_bind.
  eapply total_mono; [by apply (serve_alike sent limit f1 f2 q b1 b2)|]. intros r1 c1 H.
  unfold mbind, M_bind. destruct (serve f2 q b2) as [r2 c2|]; [|done]. cbn [terminates_in] in H. destruct H as [<- H].
  destruct (Z.eqb_spec (r1.1) QUIC_NO_ERROR) as [E|E]; [|by split].
  destruct (H E) as (Ha' & H1' & H2'). pose proof (IH c1 c2 Ha' H1' H2' Hl) as IH'.
  destruct (serve_all f1 l c1) as [s1 d1|]; [|done]. cbn [terminates_in] in *.
  destruct (serve_all f2 l c2) as [s2 d2|]; [|done]. by destruct IH' as [-> IH'].
Qed.

(** C39: With and without the fast path of OnStreamData every run of requests gives the same
    codes and the same bytes, and leaves the same received offsets and counts. *)
Theorem the_fast_path_changes_nothing sent limit c l :
  kBlockSizeBytes < c -> limit + c + kBlockSizeBytes <= 2 ^ 64 -> Forall (honest sent limit) l ->
  terminates_in (serve_all true l (init c)) (fun r1 b1 => terminates_in (serve_all false l (init c)) (fun r2 b2 =>
    r1 = r2 /\ (r1.1 = QUIC_NO_ERROR -> alike b1 b2 /\ BytesBuffered b1 = BytesBuffered b2))).
Proof.
  intros Hc Hlim Hl. pose proof (holds_init sent limit c Hc Hlim). by apply (serve_all_alike sent limit).
Qed.

Lemma the_fast_path_changes_nothing_witness :
  terminates_in (serve_all true demo_requests (init 10000)) (fun r1 _ =>
    terminates_in (serve_all false demo_requests (init 10000)) (fun r2 _ => r1 = r2)).
Proof.
  eapply total_mono; [apply (the_fast_path_changes_nothing demo_sent 100 10000 demo_requests)|].
  - vm_compute. done.
  - vm_compute. done.
  - apply demo_honest.
  - intros r1 b1 H. cbv beta in H. destruct (serve_all false demo_requests (init 10000)); [apply H|done].
Defined.
