(* ===== verification/ReceiveStream.v ===== *)
(** The receiving half of a stream: [QuicStreamSequencer]
    (libquic/net/quic/core/quic_stream_sequencer.cc), the receive side of
    [QuicStream] (quic_stream.cc) with the closing of a stream in its session
    (quic_session.cc), and [QuartcStream] (quartc_stream.cc), which hands the
    bytes to the delegate.  The four call each other; the reassembly buffer and
    the flow controllers are those of SequencerBuffer.v and FlowController.v. *)

From S2P Require Import Prelude IntervalSet SequencerBuffer FlowController.

Module ReceiveStream.

Definition QUIC_FLOW_CONTROL_RECEIVED_TOO_MUCH_DATA : Z := 59.
Definition QUIC_STREAM_LENGTH_OVERFLOW : Z := 98.

(** [QuicRstStreamErrorCode] *)
Definition QUIC_STREAM_NO_ERROR : Z := 0.
Definition QUIC_ERROR_PROCESSING_STREAM : Z := 1.
Definition QUIC_MULTIPLE_TERMINATION_OFFSETS : Z := 2.
Definition QUIC_STREAM_CONNECTION_ERROR : Z := 4.
Definition QUIC_RST_ACKNOWLEDGEMENT : Z := 7.

Definition kMaxStreamLength : Z := 2 ^ 62 - 1.

(** [std::numeric_limits<QuicStreamOffset>::max()] *)
Definition kMaxOffset : Z := 2 ^ 64 - 1.

(** ** State *)

(** [class QuicStreamSequencer] *)
Record Sequencer : Type := {
  buffered_frames_ : SequencerBuffer.Buffer;
  close_offset_ : Z;
  blocked_ : bool;
  num_frames_received_ : Z;
  num_duplicate_frames_received_ : Z;
  ignore_read_data_ : bool;
  level_triggered_ : bool
}.

(** What [class QuicStream] keeps about its two directions. *)
Record Sides : Type := {
  read_side_closed_ : bool;
  write_side_closed_ : bool;
  fin_received_ : bool;
  fin_sent_ : bool;
  rst_sent_ : bool;
  rst_received_ : bool;
  stream_error_ : Z;
  connection_error_ : Z
}.

(** What the session and the connection keep about the stream: whether it is in
    [dynamic_stream_map_] and in [draining_streams_], its entry of
    [locally_closed_streams_highest_offset_], and [connected_]. *)
Record Session : Type := {
  in_dynamic_stream_map : bool;
  in_draining_streams : bool;
  locally_closed_highest_offset : option Z;
  connected_ : bool
}.

(** What the delegate is told and what is sent. *)
Inductive event : Type :=
| Received (data : list Z)          (* Delegate::OnReceived *)
| FinRead                           (* Delegate::OnFinRead *)
| Closed                            (* Delegate::OnClose *)
| RstStream (error : Z)             (* WriteOrBufferRstStream *)
| ConnectionClose (error : Z).      (* SendConnectionClosePacket *)

Record Stream : Type := {
  id_ : Z;
  sequencer_ : Sequencer;
  sides : Sides;
  stream_bytes_read_ : Z;
  stream_contributes_to_connection_flow_control_ : bool;
  flow : FlowController.Flow;
  session_ : Session;
  events : list event              (* latest first *)
}.

Section Updates.
Variable s : Stream.

Definition with_sequencer q : Stream :=
  {| id_ := id_ s; sequencer_ := q; sides := sides s; stream_bytes_read_ := stream_bytes_read_ s;
     stream_contributes_to_connection_flow_control_ := stream_contributes_to_connection_flow_control_ s;
     flow := flow s; session_ := session_ s; events := events s |}.
Definition with_sides d : Stream :=
  {| id_ := id_ s; sequencer_ := sequencer_ s; sides := d; stream_bytes_read_ := stream_bytes_read_ s;
     stream_contributes_to_connection_flow_control_ := stream_contributes_to_connection_flow_control_ s;
     flow := flow s; session_ := session_ s; events := events s |}.
Definition with_bytes_read n : Stream :=
  {| id_ := id_ s; sequencer_ := sequencer_ s; sides := sides s; stream_bytes_read_ := n;
     stream_contributes_to_connection_flow_control_ := stream_contributes_to_connection_flow_control_ s;
     flow := flow s; session_ := session_ s; events := events s |}.
Definition with_flow f : Stream :=
  {| id_ := id_ s; sequencer_ := sequencer_ s; sides := sides s; stream_bytes_read_ := stream_bytes_read_ s;
     stream_contributes_to_connection_flow_control_ := stream_contributes_to_connection_flow_control_ s;
     flow := f; session_ := session_ s; events := events s |}.
Definition with_session x : Stream :=
  {| id_ := id_ s; sequencer_ := sequencer_ s; sides := sides s; stream_bytes_read_ := stream_bytes_read_ s;
     stream_contributes_to_connection_flow_control_ := stream_contributes_to_connection_flow_control_ s;
     flow := flow s; session_ := x; events := events s |}.
Definition with_event e : Stream :=
  {| id_ := id_ s; sequencer_ := sequencer_ s; sides := sides s; stream_bytes_read_ := stream_bytes_read_ s;
     stream_contributes_to_connection_flow_control_ := stream_contributes_to_connection_flow_control_ s;
     flow := flow s; session_ := session_ s; events := e :: events s |}.
End Updates.

Definition set_buffer b (q : Sequencer) : Sequencer :=
  {| buffered_frames_ := b; close_offset_ := close_offset_ q; blocked_ := blocked_ q;
     num_frames_received_ := num_frames_received_ q;
     num_duplicate_frames_received_ := num_duplicate_frames_received_ q;
     ignore_read_data_ := ignore_read_data_ q; level_triggered_ := level_triggered_ q |}.
Definition set_close_offset o (q : Sequencer) : Sequencer :=
  {| buffered_frames_ := buffered_frames_ q; close_offset_ := o; blocked_ := blocked_ q;
     num_frames_received_ := num_frames_received_ q;
     num_duplicate_frames_received_ := num_duplicate_frames_received_ q;
     ignore_read_data_ := ignore_read_data_ q; level_triggered_ := level_triggered_ q |}.
Definition set_modes blocked ignore level (q : Sequencer) : Sequencer :=
  {| buffered_frames_ := buffered_frames_ q; close_offset_ := close_offset_ q; blocked_ := blocked;
     num_frames_received_ := num_frames_received_ q;
     num_duplicate_frames_received_ := num_duplicate_frames_received_ q;
     ignore_read_data_ := ignore; level_triggered_ := level |}.
Definition set_counts frames duplicates (q : Sequencer) : Sequencer :=
  {| buffered_frames_ := buffered_frames_ q; close_offset_ := close_offset_ q; blocked_ := blocked_ q;
     num_frames_received_ := frames; num_duplicate_frames_received_ := duplicates;
     ignore_read_data_ := ignore_read_data_ q; level_triggered_ := level_triggered_ q |}.

Definition set_sides read write (d : Sides) : Sides :=
  {| read_side_closed_ := read; write_side_closed_ := write; fin_received_ := fin_received_ d;
     fin_sent_ := fin_sent_ d; rst_sent_ := rst_sent_ d; rst_received_ := rst_received_ d;
     stream_error_ := stream_error_ d; connection_error_ := connection_error_ d |}.
Definition set_fin received sent_ (d : Sides) : Sides :=
  {| read_side_closed_ := read_side_closed_ d; write_side_closed_ := write_side_closed_ d;
     fin_received_ := received; fin_sent_ := sent_; rst_sent_ := rst_sent_ d;
     rst_received_ := rst_received_ d; stream_error_ := stream_error_ d;
     connection_error_ := connection_error_ d |}.
Definition set_rst received sent_ (d : Sides) : Sides :=
  {| read_side_closed_ := read_side_closed_ d; write_side_closed_ := write_side_closed_ d;
     fin_received_ := fin_received_ d; fin_sent_ := fin_sent_ d; rst_sent_ := sent_;
     rst_received_ := received; stream_error_ := stream_error_ d;
     connection_error_ := connection_error_ d |}.
Definition set_errors stream connection (d : Sides) : Sides :=
  {| read_side_closed_ := read_side_closed_ d; write_side_closed_ := write_side_closed_ d;
     fin_received_ := fin_received_ d; fin_sent_ := fin_sent_ d; rst_sent_ := rst_sent_ d;
     rst_received_ := rst_received_ d; stream_error_ := stream; connection_error_ := connection |}.

Definition flow_lens : Lens Stream FlowController.Flow :=
  {| view := flow; put f s := with_flow s f |}.
Definition buffer_lens : Lens Stream SequencerBuffer.Buffer :=
  {| view s := buffered_frames_ (sequencer_ s);
     put b s := with_sequencer s (set_buffer b (sequencer_ s)) |}.

Definition on_sequencer (g : Sequencer -> Sequencer) : M Stream unit :=
  modify (fun s => with_sequencer s (g (sequencer_ s))).
Definition on_sides (g : Sides -> Sides) : M Stream unit :=
  modify (fun s => with_sides s (g (sides s))).
Definition emit (e : event) : M Stream unit := modify (fun s => with_event s e).

(** The constructors of the stream and its sequencer. *)
Definition init (id : Z) (contributes : bool) (f : FlowController.Flow) : Stream :=
  {| id_ := id;
     sequencer_ := {| buffered_frames_ := SequencerBuffer.init FlowController.kStreamReceiveWindowLimit;
                      close_offset_ := kMaxOffset; blocked_ := false; num_frames_received_ := 0;
                      num_duplicate_frames_received_ := 0; ignore_read_data_ := false;
                      level_triggered_ := false |};
     sides := {| read_side_closed_ := false; write_side_closed_ := false; fin_received_ := false;
                 fin_sent_ := false; rst_sent_ := false; rst_received_ := false;
                 stream_error_ := QUIC_STREAM_NO_ERROR; connection_error_ := QUIC_NO_ERROR |};
     stream_bytes_read_ := 0; stream_contributes_to_connection_flow_control_ := contributes;
     flow := f;
     session_ := {| in_dynamic_stream_map := true; in_draining_streams := false;
                    locally_closed_highest_offset := None; connected_ := true |};
     events := [] |}.

Section Operations.
(* FLAGS_quic_reloadable_flag_quic_fast_path_on_stream_data and _quic_stream_too_long *)
Variables quic_fast_path_on_stream_data quic_stream_too_long : bool.
(* kSessionFlowControlMultiplier times a window, see FlowController.v *)
Variable multiplied : Z -> Z.

Notation connection_id := FlowController.kConnectionLevelId.

(** [flow_controller_] and [*connection_flow_controller_] *)
Definition flow_controller_ : M Stream FlowController.FlowController :=
  s ← get; zoom flow_lens (FlowController.self (id_ s)).
Definition connection_flow_controller_ : M Stream FlowController.FlowController :=
  zoom flow_lens (FlowController.self connection_id).

(** [flow_controller_.FlowControlViolation() ||
     connection_flow_controller_->FlowControlViolation()] *)
Definition violation : M Stream bool :=
  c ← flow_controller_;
  if FlowController.FlowControlViolation c then mret true
  else k ← connection_flow_controller_; mret (FlowController.FlowControlViolation k).

(** [void QuicStream::AddBytesConsumed(QuicByteCount bytes)] *)
Definition AddBytesConsumed (bytes : Z) : M Stream unit :=
  s ← get;
  when (negb (read_side_closed_ (sides s)))
    (zoom flow_lens (FlowController.AddBytesConsumed multiplied (id_ s) bytes));;
  when (stream_contributes_to_connection_flow_control_ s)
    (zoom flow_lens (FlowController.AddBytesConsumed multiplied connection_id bytes)).

(** [bool QuicStream::MaybeIncreaseHighestReceivedOffset(QuicStreamOffset new_offset)] *)
Definition MaybeIncreaseHighestReceivedOffset (new_offset : Z) : M Stream bool :=
  s ← get;
  c ← flow_controller_;
  let increment := uint64 (new_offset - FlowController.highest_received_byte_offset_ c) in
  up ← zoom flow_lens (FlowController.UpdateHighestReceivedOffset (id_ s) new_offset);
  if negb up then mret false
  else
    (if stream_contributes_to_connection_flow_control_ s then
       k ← connection_flow_controller_;
       _ ← zoom flow_lens (FlowController.UpdateHighestReceivedOffset connection_id
             (uint64 (FlowController.highest_received_byte_offset_ k + increment)));
       mret tt
     else mret tt);;
    mret true.

(** [bool HasFinalReceivedByteOffset() const] *)
Definition HasFinalReceivedByteOffset (s : Stream) : bool :=
  fin_received_ (sides s) || rst_received_ (sides s).

(** [void QuicSession::StreamDraining(QuicStreamId stream_id)] *)
Definition StreamDraining : M Stream unit :=
  modify (fun s => with_session s
    {| in_dynamic_stream_map := in_dynamic_stream_map (session_ s); in_draining_streams := true;
       locally_closed_highest_offset := locally_closed_highest_offset (session_ s);
       connected_ := connected_ (session_ s) |}).

(** ** Closing *)

Section Closing.
(** [QuicSession::CloseStreamInner], which closing a side calls again *)
Variable close_stream_inner : bool -> M Stream unit.

(** [void QuicStream::CloseReadSide()] with [QuicStreamSequencer::ReleaseBuffer] *)
Definition close_read_side : M Stream unit :=
  s ← get;
  if read_side_closed_ (sides s) then mret tt
  else
    on_sides (fun d => set_sides true (write_side_closed_ d) d);;
    zoom buffer_lens SequencerBuffer.ReleaseWholeBuffer;;
    when (write_side_closed_ (sides s)) (close_stream_inner false).

(** [void QuicStream::CloseWriteSide()] *)
Definition close_write_side : M Stream unit :=
  s ← get;
  if write_side_closed_ (sides s) then mret tt
  else
    on_sides (fun d => set_sides (read_side_closed_ d) true d);;
    when (read_side_closed_ (sides s)) (close_stream_inner false).

(** [void QuicSession::SendRstStream(id, error, bytes_written)] *)
Definition send_rst_stream (error : Z) : M Stream unit :=
  s ← get;
  when (connected_ (session_ s)) (emit (RstStream error));;
  close_stream_inner true.

(** [void QuicStream::OnClose()] *)
Definition quic_stream_on_close : M Stream unit :=
  close_read_side;;
  close_write_side;;
  s ← get;
  when (negb (fin_sent_ (sides s)) && negb (rst_sent_ (sides s)))
    (send_rst_stream QUIC_RST_ACKNOWLEDGEMENT;;
     on_sides (fun d => set_rst (rst_received_ d) true d));;
  bad ← violation;
  if bad : bool then mret tt
  else
    c ← flow_controller_;
    AddBytesConsumed (uint64 (FlowController.highest_received_byte_offset_ c
                              - FlowController.bytes_consumed_ c)).

(** [void QuartcStream::OnClose()] *)
Definition on_close : M Stream unit := quic_stream_on_close;; emit Closed.
End Closing.

(** [void QuicSession::CloseStreamInner(stream_id, locally_reset)]; a call made
    while the stream is being closed finds it gone from [dynamic_stream_map_]. *)
Fixpoint close_stream_inner (fuel : nat) (locally_reset : bool) : M Stream unit :=
  s ← get;
  if negb (in_dynamic_stream_map (session_ s)) then mret tt
  else
    match fuel with
    | O => crashed OutOfFuel
    | S fuel' =>
        when locally_reset (on_sides (fun d => set_rst (rst_received_ d) true d));;
        s ← get;
        c ← flow_controller_;
        modify (fun s => with_session s
          {| in_dynamic_stream_map := false; in_draining_streams := false;
             locally_closed_highest_offset :=
               if HasFinalReceivedByteOffset s then locally_closed_highest_offset (session_ s)
               else Some (FlowController.highest_received_byte_offset_ c);
             connected_ := connected_ (session_ s) |});;
        on_close (close_stream_inner fuel')
    end.

Definition CloseStreamInner : bool -> M Stream unit := close_stream_inner 1.
Definition CloseReadSide : M Stream unit := close_read_side CloseStreamInner.
Definition CloseWriteSide : M Stream unit := close_write_side CloseStreamInner.

(** [void QuicStream::OnConnectionClosed(error, source)] *)
Definition OnConnectionClosed (error : Z) : M Stream unit :=
  s ← get;
  if read_side_closed_ (sides s) && write_side_closed_ (sides s) then mret tt
  else
    when (negb (error =? QUIC_NO_ERROR))
      (on_sides (set_errors QUIC_STREAM_CONNECTION_ERROR error));;
    CloseWriteSide;;
    CloseReadSide.

(** [void QuicConnection::TearDownLocalConnectionState(error, details, source)]
    and what [QuicSession::OnConnectionClosed] does to the stream *)
Definition TearDownLocalConnectionState (error : Z) : M Stream unit :=
  s ← get;
  if negb (connected_ (session_ s)) then mret tt
  else
    modify (fun s => with_session s
      {| in_dynamic_stream_map := in_dynamic_stream_map (session_ s);
         in_draining_streams := in_draining_streams (session_ s);
         locally_closed_highest_offset := locally_closed_highest_offset (session_ s);
         connected_ := false |});;
    when (in_dynamic_stream_map (session_ s))
      (OnConnectionClosed error;;
       s ← get;
       when (in_dynamic_stream_map (session_ s)) (CloseStreamInner false)).

(** [void QuicConnection::CloseConnection(error, details, SEND_CONNECTION_CLOSE_PACKET)],
    as [QuicStream::CloseConnectionWithDetails] calls it *)
Definition CloseConnectionWithDetails (error : Z) : M Stream unit :=
  s ← get;
  if negb (connected_ (session_ s)) then mret tt
  else emit (ConnectionClose error);; TearDownLocalConnectionState error.

(** [void QuicStream::Reset(QuicRstStreamErrorCode error)] *)
Definition Reset (error : Z) : M Stream unit :=
  on_sides (fun d => set_errors error (connection_error_ d) d);;
  send_rst_stream CloseStreamInner error;;
  on_sides (fun d => set_rst (rst_received_ d) true d).

(** ** Delivering *)

(** [bool QuicStreamSequencer::IsClosed() const] *)
Definition IsClosed (q : Sequencer) : bool :=
  SequencerBuffer.BytesConsumed (buffered_frames_ q) >=? close_offset_ q.

(** [void QuicStream::OnFinRead()], then [QuartcStream::OnFinRead] *)
Definition quic_stream_on_fin_read : M Stream unit :=
  on_sides (fun d => set_fin true (fin_sent_ d) d);;
  CloseReadSide.

Definition OnFinRead : M Stream unit :=
  quic_stream_on_fin_read;;
  emit FinRead.

(** [void QuicStreamSequencer::MarkConsumed(size_t num_bytes_consumed)] *)
Definition MarkConsumed (num_bytes_consumed : Z) : M Stream unit :=
  result ← zoom buffer_lens (SequencerBuffer.MarkConsumed num_bytes_consumed);
  if negb result then Reset QUIC_ERROR_PROCESSING_STREAM
  else AddBytesConsumed num_bytes_consumed.

(** [int QuicStreamSequencer::Readv(iov, iov_len)]: the bytes copied *)
Definition Readv (iov : list Z) : M Stream (list (list Z)) :=
  r ← zoom buffer_lens (SequencerBuffer.Readv iov);
  if negb (r.1 =? QUIC_NO_ERROR) then CloseConnectionWithDetails (r.1);; mret (r.2)
  else AddBytesConsumed (Z.of_nat (length (concat (r.2))));; mret (r.2).

(** The loop of [QuartcStream::OnDataAvailable]: each turn consumes a byte. *)
Fixpoint deliver (fuel : nat) : M Stream unit :=
  rs ← zoom buffer_lens (SequencerBuffer.GetReadableRegions 1);
  match rs, fuel with
  | [x], S fuel' =>
      emit (Received x);;
      MarkConsumed (Z.of_nat (length x));;
      deliver fuel'
  | [_], O => crashed OutOfFuel
  | _, _ => mret tt
  end.

(** [void QuartcStream::OnDataAvailable()] *)
Definition OnDataAvailable : M Stream unit :=
  s ← get;
  deliver (Z.to_nat (SequencerBuffer.ReadableBytes (buffered_frames_ (sequencer_ s))));;
  s ← get;
  when (IsClosed (sequencer_ s)) (OnFinRead;; emit (Received [])).

(** ** The sequencer *)

(** [bool QuicStreamSequencer::MaybeCloseStream()] *)
Definition MaybeCloseStream : M Stream bool :=
  s ← get;
  if blocked_ (sequencer_ s) || negb (IsClosed (sequencer_ s)) then mret false
  else
    (if ignore_read_data_ (sequencer_ s) then OnFinRead else OnDataAvailable);;
    zoom buffer_lens SequencerBuffer.Clear;;
    mret true.

(** [void QuicStreamSequencer::CloseStreamAtOffset(QuicStreamOffset offset)] *)
Definition CloseStreamAtOffset (offset : Z) : M Stream unit :=
  s ← get;
  if negb (close_offset_ (sequencer_ s) =? kMaxOffset) && negb (offset =? close_offset_ (sequencer_ s))
  then Reset QUIC_MULTIPLE_TERMINATION_OFFSETS
  else
    on_sequencer (set_close_offset offset);;
    _ ← MaybeCloseStream; mret tt.

(** [void QuicStreamSequencer::FlushBufferedFrames()] *)
Definition FlushBufferedFrames : M Stream unit :=
  bytes_flushed ← zoom buffer_lens SequencerBuffer.FlushBufferedFrames;
  AddBytesConsumed bytes_flushed;;
  _ ← MaybeCloseStream; mret tt.

(** [void QuicStreamSequencer::StopReading()], which is all of
    [QuicStream::StopReading] and [QuartcStream::FinishReading] *)
Definition StopReading : M Stream unit :=
  s ← get;
  if ignore_read_data_ (sequencer_ s) then mret tt
  else
    on_sequencer (fun q => set_modes (blocked_ q) true (level_triggered_ q) q);;
    FlushBufferedFrames.

(** [void QuicStreamSequencer::SetBlockedUntilFlush()] *)
Definition SetBlockedUntilFlush : M Stream unit :=
  on_sequencer (fun q => set_modes true (ignore_read_data_ q) (level_triggered_ q) q).

(** [void QuicStreamSequencer::SetUnblocked()] *)
Definition SetUnblocked : M Stream unit :=
  on_sequencer (fun q => set_modes false (ignore_read_data_ q) (level_triggered_ q) q);;
  s ← get;
  when (IsClosed (sequencer_ s) || SequencerBuffer.HasBytesToRead (buffered_frames_ (sequencer_ s)))
    OnDataAvailable.

(** [void QuicStreamSequencer::ReleaseBufferIfEmpty()] *)
Definition ReleaseBufferIfEmpty : M Stream unit :=
  s ← get;
  when (SequencerBuffer.Empty (buffered_frames_ (sequencer_ s)))
    (zoom buffer_lens SequencerBuffer.ReleaseWholeBuffer).

(** The part of [QuicStreamSequencer::OnStreamFrame] after the frame was buffered *)
Definition frame_buffered (previous_readable_bytes : Z) : M Stream unit :=
  s ← get;
  let q := sequencer_ s in
  let readable := SequencerBuffer.ReadableBytes (buffered_frames_ q) in
  if blocked_ q then mret tt
  else if level_triggered_ q then when (readable >? previous_readable_bytes) OnDataAvailable
  else
    when ((previous_readable_bytes =? 0) && (readable >? 0))
      (if ignore_read_data_ q then FlushBufferedFrames else OnDataAvailable).

(** ... and from the second half on, for a frame with data *)
Definition buffer_frame (offset : Z) (data : list Z) : M Stream unit :=
  s ← get;
  let previous_readable_bytes := SequencerBuffer.ReadableBytes (buffered_frames_ (sequencer_ s)) in
  now ← zoom flow_lens FlowController.ApproximateNow;
  r ← zoom buffer_lens (SequencerBuffer.OnStreamData quic_fast_path_on_stream_data offset data now);
  if negb (r.1 =? QUIC_NO_ERROR) then CloseConnectionWithDetails (r.1)
  else if r.2 =? 0 then
    on_sequencer (fun q => set_counts (num_frames_received_ q) (int32 (num_duplicate_frames_received_ q + 1)) q)
  else frame_buffered previous_readable_bytes.

(** [void QuicStreamSequencer::OnStreamFrame(const QuicStreamFrame& frame)] *)
Definition sequencer_OnStreamFrame (offset : Z) (data : list Z) (fin : bool) : M Stream unit :=
  on_sequencer (fun q => set_counts (int32 (num_frames_received_ q + 1)) (num_duplicate_frames_received_ q) q);;
  let data_len := Z.of_nat (length data) in
  when fin (CloseStreamAtOffset (uint64 (offset + data_len)));;
  if fin && (data_len =? 0) then mret tt else buffer_frame offset data.

(** ** The stream *)

(** [void QuicStream::OnStreamFrame(const QuicStreamFrame& frame)] *)
Definition OnStreamFrame (offset : Z) (data : list Z) (fin : bool) : M Stream unit :=
  let data_length := Z.of_nat (length data) in
  let is_stream_too_long :=
    (offset >? kMaxStreamLength) || (uint64 (kMaxStreamLength - offset) <? data_length) in
  if quic_stream_too_long && is_stream_too_long
  then CloseConnectionWithDetails QUIC_STREAM_LENGTH_OVERFLOW
  else
    when fin
      (on_sides (fun d => set_fin true (fin_sent_ d) d);;
       s ← get; when (fin_sent_ (sides s)) StreamDraining);;
    s ← get;
    if read_side_closed_ (sides s) then mret tt
    else
      modify (fun s => with_bytes_read s (uint64 (stream_bytes_read_ s + data_length)));;
      up ← (if data_length >? 0
            then MaybeIncreaseHighestReceivedOffset (uint64 (offset + data_length)) else mret false);
      bad ← (if up : bool then violation else mret false);
      if bad : bool then CloseConnectionWithDetails QUIC_FLOW_CONTROL_RECEIVED_TOO_MUCH_DATA
      else sequencer_OnStreamFrame offset data fin.

(** [void QuicStream::OnStreamReset(const QuicRstStreamFrame& frame)] *)
Definition OnStreamReset (byte_offset error_code : Z) : M Stream unit :=
  on_sides (fun d => set_rst true (rst_sent_ d) d);;
  if quic_stream_too_long && (byte_offset >? kMaxStreamLength)
  then CloseConnectionWithDetails QUIC_STREAM_LENGTH_OVERFLOW
  else
    _ ← MaybeIncreaseHighestReceivedOffset byte_offset;
    bad ← violation;
    if bad : bool then CloseConnectionWithDetails QUIC_FLOW_CONTROL_RECEIVED_TOO_MUCH_DATA
    else
      on_sides (fun d => set_errors error_code (connection_error_ d) d);;
      CloseWriteSide;;
      CloseReadSide.

(** What [QuicStream::WriteBufferedData] does when the FIN was sent *)
Definition fin_written : M Stream unit :=
  on_sides (fun d => set_fin (fin_received_ d) true d);;
  s ← get;
  when (fin_received_ (sides s)) StreamDraining;;
  CloseWriteSide.

(** ** The session *)

(** [void QuicSession::OnFinalByteOffsetReceived(stream_id, final_byte_offset)] *)
Definition OnFinalByteOffsetReceived (final_byte_offset : Z) : M Stream unit :=
  s ← get;
  match locally_closed_highest_offset (session_ s) with
  | None => mret tt
  | Some highest =>
      let offset_diff := uint64 (final_byte_offset - highest) in
      k ← connection_flow_controller_;
      up ← zoom flow_lens (FlowController.UpdateHighestReceivedOffset connection_id
             (uint64 (FlowController.highest_received_byte_offset_ k + offset_diff)));
      bad ← (if up : bool then k ← connection_flow_controller_; mret (FlowController.FlowControlViolation k)
             else mret false);
      if bad : bool then CloseConnectionWithDetails QUIC_FLOW_CONTROL_RECEIVED_TOO_MUCH_DATA
      else
        zoom flow_lens (FlowController.AddBytesConsumed multiplied connection_id offset_diff);;
        modify (fun s => with_session s
          {| in_dynamic_stream_map := in_dynamic_stream_map (session_ s);
             in_draining_streams := in_draining_streams (session_ s);
             locally_closed_highest_offset := None; connected_ := connected_ (session_ s) |})
  end.

(** [void QuicSession::OnStreamFrame(frame)] for the id of this stream *)
Definition session_OnStreamFrame (offset : Z) (data : list Z) (fin : bool) : M Stream unit :=
  s ← get;
  if in_dynamic_stream_map (session_ s) then OnStreamFrame offset data fin
  else when fin (OnFinalByteOffsetReceived (uint64 (offset + Z.of_nat (length data)))).

(** [void QuicSession::OnRstStream(frame)] for the id of this stream, with
    [HandleRstOnValidNonexistentStream] *)
Definition session_OnRstStream (byte_offset error_code : Z) : M Stream unit :=
  s ← get;
  if in_dynamic_stream_map (session_ s) then OnStreamReset byte_offset error_code
  else OnFinalByteOffsetReceived byte_offset.
End Operations.

End ReceiveStream.
