(* ===== verification/StreamClosing.v ===== *)
(** How a stream ends: closing its sides, its entry in the session and the
    connection keeps the buffer and the flow controllers sound, tells the
    delegate nothing but the end, and settles what the stream still owes the
    connection's flow control. *)

From S2P Require Import Prelude FlowController FlowControl IntervalSet Intervals SequencerBuffer Reassembly ReceiveStream.
Import ReceiveStream.

Notation W := FlowController.kStreamReceiveWindowLimit.
Notation Controller := FlowController.FlowController.
Notation highest c := (FlowController.highest_received_byte_offset_ c).
Notation consumed c := (FlowController.bytes_consumed_ c).
Notation window c := (FlowController.receive_window_offset_ c).
Notation size_limit c := (FlowController.receive_window_size_limit_ c).
Notation controller f i := (FlowController.controllers f !! i).
Notation in_map s := (in_dynamic_stream_map (session_ s)).
Notation local s := (locally_closed_highest_offset (session_ s)).
Notation read_closed s := (read_side_closed_ (sides s)).

Definition buf (s : Stream) : SequencerBuffer.Buffer := buffered_frames_ (sequencer_ s).

Lemma total_zoom {S T A} (l : Lens S T) (m : M T A) s (Q : A -> S -> Prop) :
  terminates_in (m (view l s)) (fun a t => Q a (put l t s)) -> terminates_in (zoom l m s) Q.
Proof. unfold zoom. by destruct (m (view l s)). Qed.

Lemma total_modify {S} (f : S -> S) s (Q : unit -> S -> Prop) : Q tt (f s) -> terminates_in (modify f s) Q.
Proof. done. Qed.

Lemma total_get {S A} (f : S -> M S A) s (Q : A -> S -> Prop) :
  terminates_in (f s s) Q -> terminates_in ((get ≫= f) s) Q.
Proof. done. Qed.

Lemma total_when {S} (b : bool) (m : M S unit) s (Q : unit -> S -> Prop) :
  (b = true -> terminates_in (m s) Q) -> (b = false -> Q tt s) -> terminates_in (when b m s) Q.
Proof. destruct b; simpl; auto. Qed.

(** The bytes the delegate was given; [l] is latest first. *)
Fixpoint given (l : list event) : list Z :=
  match l with
  | [] => []
  | Received d :: l' => given l' ++ d
  | _ :: l' => given l'
  end.

(** What an honest peer makes the stream do: the only frame sent for the stream
    itself is the acknowledgement of a reset, and the connection is closed only
    for an overrun window, an empty frame or too many gaps. *)
Definition fine (e : event) : Prop :=
  match e with
  | RstStream x => x = QUIC_RST_ACKNOWLEDGEMENT
  | ConnectionClose x => x ∈ [QUIC_FLOW_CONTROL_RECEIVED_TOO_MUCH_DATA; QUIC_EMPTY_STREAM_FRAME_NO_FIN;
                              QUIC_TOO_MANY_STREAM_DATA_INTERVALS]
  | _ => True
  end.

(** What closing leaves alone *)
Definition kept (s : Stream) :=
  (id_ s, close_offset_ (sequencer_ s), blocked_ (sequencer_ s), ignore_read_data_ (sequencer_ s),
   level_triggered_ (sequencer_ s), given (events s), connected_ (session_ s), rst_received_ (sides s),
   total (buf s)).

Section Peer.
(** The bytes of the stream and its final length. *)
Variable sent : Z -> Z.
Variable limit : Z.
Context (Hlimit : 0 <= limit <= 2 ^ 61).

Definition buffer_ok (b : SequencerBuffer.Buffer) : Prop := cap b = W /\ 0 <= total b <= limit.

(** What the connection may still have to count for the stream: all of it, or
    after the stream was closed without its final length what that length adds. *)
Definition todo (owes : bool) (s : Stream) (c : Controller) : Z :=
  if owes then limit - highest c
  else match local s with
       | Some _ => if connected_ (session_ s) then limit - highest c else 0
       | None => 0
       end.

Lemma todo_bounds owes s c : highest c <= limit -> 0 <= todo owes s c <= limit - highest c.
Proof. intros H. unfold todo. destruct owes, (local s), (connected_ (session_ s)); lia. Qed.

(** The controllers [c] of the stream and [k] of the connection; [owes] tells that
    what [c] received and did not consume is still outstanding at [k]. *)
Record flows (owes : bool) (s : Stream) (c k : Controller) : Prop := {
  fl_ok : flow_ok (flow s);
  fl_c : controller (flow s) (id_ s) = Some c;
  fl_k : controller (flow s) FlowController.kConnectionLevelId = Some k;
  fl_size : size_limit c = W;
  fl_read : 0 <= consumed c <= highest c;
  fl_high : highest c <= limit;
  fl_owed : (if owes then highest c - consumed c else 0) <= highest k - consumed k;
  fl_local : forall h, local s = Some h -> h = highest c /\ in_map s = false;
  fl_todo : highest k + todo owes s c <= 2 ^ 61
}.

Record sound (owes : bool) (s : Stream) : Prop := {
  so_id : id_ s <> FlowController.kConnectionLevelId;
  so_contributes : stream_contributes_to_connection_flow_control_ s = true;
  so_buffer : buffer_ok (buf s);
  so_flows : exists c k, flows owes s c k
}.

Record closes (owes : Stream -> bool) (s s' : Stream) : Prop := {
  cl_sound : sound (owes s') s';
  cl_kept : kept s' = kept s;
  cl_holds : holds sent limit (buf s) -> holds sent limit (buf s');
  cl_members : forall v, member v (received (buf s')) -> member v (received (buf s)) \/ 0 <= v < total (buf s);
  cl_fin : FinRead ∈ events s' <-> FinRead ∈ events s;
  cl_events : Forall fine (events s) -> Forall fine (events s');
  cl_closed : read_closed s = true -> read_closed s' = true;
  cl_map : in_map s' = true -> in_map s = true
}.

Lemma closes_refl owes s : sound (owes s) s -> closes owes s s.
Proof. intros H. by split; auto. Qed.

Lemma kept_total s s' : kept s' = kept s -> total (buf s') = total (buf s).
Proof. unfold kept. congruence. Qed.

Lemma closes_trans o1 o2 s1 s2 s3 : closes o1 s1 s2 -> closes o2 s2 s3 -> closes o2 s1 s3.
Proof.
  intros [A1 A2 A3 A4 A5 A6 A7 A8] [B1 B2 B3 B4 B5 B6 B7 B8]. split; auto.
  - congruence.
  - intros v [?%A4|Hv]%B4; [done|]. right. by rewrite <- (kept_total _ _ A2).
  - by rewrite B5.
Qed.

(** Steps that touch neither the buffer nor the flow controllers *)
Lemma flows_same owes s s' c k : flows owes s c k -> id_ s' = id_ s -> flow s' = flow s ->
  session_ s' = session_ s -> flows owes s' c k.
Proof. intros [] Ei Ef Es. unfold todo in *. by split; unfold todo; rewrite ?Ei, ?Ef, ?Es. Qed.

Lemma sound_same owes s s' : sound owes s -> id_ s' = id_ s -> flow s' = flow s ->
  session_ s' = session_ s ->
  stream_contributes_to_connection_flow_control_ s' = stream_contributes_to_connection_flow_control_ s ->
  buffer_ok (buf s') -> sound owes s'.
Proof.
  intros [H1 H2 H3 (c & k & H4)] Ei Ef Es Ec Hb. split; [by rewrite Ei|by rewrite Ec|done|].
  exists c, k. by eapply flows_same.
Qed.

(** Nothing is left to read. *)
Definition drained (b : SequencerBuffer.Buffer) : Prop :=
  holds sent limit b /\ forall v, member v (received b) -> v < total b.

Lemma closes_drained o s s' : closes o s s' -> drained (buf s) -> drained (buf s').
Proof using.
  intros H [Hh Hm]. split; [by apply H|]. intros v Hv. rewrite (kept_total _ _ (cl_kept _ _ _ H)).
  destruct (cl_members _ _ _ H v Hv) as [?%Hm|?]; lia.
Qed.

Section Closing.
Variable owes : Stream -> bool.
Context (owes_session : forall s s', session_ s' = session_ s -> owes s' = owes s).

(** A change of the flags or the log alone *)
Lemma closes_sides s g : sound (owes s) s ->
  (forall d, rst_received_ (g d) = rst_received_ d) ->
  (forall d, read_side_closed_ d = true -> read_side_closed_ (g d) = true) ->
  closes owes s (with_sides s (g (sides s))).
Proof using owes_session.
  intros Hs Hg Hr. split; simpl; auto.
  - rewrite (owes_session s) by done. eapply sound_same; [exact Hs|done..|]. apply Hs.
  - unfold kept. simpl. by rewrite Hg.
Qed.

Lemma closes_event s e : sound (owes s) s -> (e = Closed \/ e = RstStream QUIC_RST_ACKNOWLEDGEMENT) ->
  closes owes s (with_event s e).
Proof using owes_session.
  intros Hs He. split; simpl; auto.
  - rewrite (owes_session s) by done. eapply sound_same; [exact Hs|done..|]. apply Hs.
  - unfold kept. simpl. by destruct He as [-> | ->].
  - rewrite elem_of_cons. destruct He as [-> | ->]; (split; [by intros [[=]|]|by right]).
  - intros H. constructor; [by destruct He as [-> | ->]|done].
Qed.

Lemma closes_release s : sound (owes s) s ->
  terminates_in (zoom buffer_lens SequencerBuffer.ReleaseWholeBuffer s) (fun _ s' =>
    closes owes s s' /\ drained (buf s') /\ sides s' = sides s).
Proof using owes_session Hlimit.
  intros Hs. pose proof (so_buffer _ _ Hs) as [Ec Ht]. apply total_zoom. simpl. unfold buf in *.
  eapply total_mono; [apply (ReleaseWholeBuffer_spec sent limit)|].
  - rewrite Ec. done.
  - unfold in_range. rewrite Ec. unfold W, SequencerBuffer.kBlockSizeBytes. lia.
  - lia.
  - intros ? b (Hh & Et & Eb & Er).
    assert (forall v, member v (received b) -> 0 <= v < total b) as Hm
      by (intros v Hv; rewrite Er in Hv; apply member_one_range in Hv; by rewrite Et).
    split; [|split; [|done]; split; [done|]; intros v Hv; by apply Hm]. split; simpl; auto.
    + rewrite (owes_session s) by done. eapply sound_same; [exact Hs|done..|].
      split; unfold buf; simpl; [by rewrite Eb|by rewrite Et].
    + unfold kept, buf. simpl. by rewrite Et.
    + intros v Hv. right. unfold buf in *. simpl in Hv. apply Hm in Hv. by rewrite Et in Hv.
Qed.
End Closing.

(** ** Closing the sides *)

Section Sides.
Variable owes : Stream -> bool.
Variable guard : bool.
Variable inner : bool -> M Stream unit.
Context (owes_session : forall s s', session_ s' = session_ s -> owes s' = owes s).

(** The calls made while a stream is being closed find it gone. *)
Definition allowed (s : Stream) : Prop := guard = true -> in_map s = false.

Context (inner_spec : forall r s, allowed s -> sound (owes s) s ->
  terminates_in (inner r s) (fun _ s' => closes owes s s')).

Lemma closes_allowed o s s' : closes o s s' -> allowed s -> allowed s'.
Proof using.
  intros [_ _ _ _ _ _ _ Hm] Ha G. specialize (Ha G). destruct (in_map s') eqn:E; [|done].
  rewrite Hm in Ha; done.
Qed.

Lemma close_read_side_spec s : allowed s -> sound (owes s) s ->
  terminates_in (close_read_side inner s) (fun _ s' => closes owes s s' /\ read_closed s' = true /\
    (read_closed s = false -> drained (buf s'))).
Proof using Hlimit inner_spec owes_session.
  intros Ha Hs. unfold close_read_side. apply total_get. destruct (read_closed s) eqn:Er.
  { split; [by apply closes_refl|]. done. }
  apply total_bind, total_modify.
  pose proof (closes_sides owes owes_session s (fun d => set_sides true (write_side_closed_ d) d) Hs
    (fun _ => eq_refl) (fun _ _ => eq_refl)) as H1.
  set (s1 := with_sides _ _) in *. apply total_bind.
  eapply total_mono; [apply (closes_release owes owes_session s1), H1|]. intros ? s2 (H2 & Hh & Ed).
  pose proof (closes_trans _ _ _ _ _ H1 H2) as H12.
  assert (read_closed s2 = true) as Hr2 by by rewrite Ed.
  apply total_when; [|by intros _]. intros _.
  eapply total_mono; [apply inner_spec; [by eapply closes_allowed|apply H12]|].
  intros ? s3 H3. split; [by eapply closes_trans|]. split; [by apply H3|]. intros _.
  eapply closes_drained; [exact H3|exact Hh].
Qed.

Lemma close_write_side_spec s : allowed s -> sound (owes s) s ->
  terminates_in (close_write_side inner s) (fun _ s' => closes owes s s' /\
    (read_closed s = false -> read_closed s' = false)).
Proof using Hlimit inner_spec owes_session.
  intros Ha Hs. unfold close_write_side. apply total_get. destruct (write_side_closed_ (sides s)).
  { split; [by apply closes_refl|done]. }
  apply total_bind, total_modify.
  pose proof (closes_sides owes owes_session s (fun d => set_sides (read_side_closed_ d) true d) Hs
    (fun _ => eq_refl) (fun _ H => H)) as H1.
  set (s1 := with_sides _ _) in *. apply total_when; [|by intros _]. intros Er.
  eapply total_mono; [apply inner_spec; [by eapply closes_allowed|apply H1]|].
  intros ? s2 H2. split; [by eapply closes_trans|]. congruence.
Qed.

Lemma send_rst_stream_spec s : allowed s -> sound (owes s) s ->
  terminates_in (send_rst_stream inner QUIC_RST_ACKNOWLEDGEMENT s) (fun _ s' => closes owes s s').
Proof using Hlimit inner_spec owes_session.
  intros Ha Hs. unfold send_rst_stream. apply total_get, total_bind, total_when; intros _.
  - apply total_modify. pose proof (closes_event owes owes_session s (RstStream QUIC_RST_ACKNOWLEDGEMENT) Hs
      (or_intror eq_refl)) as H1.
    eapply total_mono; [apply inner_spec; [by eapply closes_allowed|apply H1]|].
    intros ? s2 H2. by eapply closes_trans.
  - by apply inner_spec.
Qed.
End Sides.

(** ** Consuming *)

Variable multiplied : Z -> Z.

(** [x] bytes more consumed *)
Definition ate (x : Z) (c c' : Controller) : Prop :=
  wider (FlowController.set_consumed c (consumed c + x)) c'.

Lemma ate_fields x c c' : ate x c c' ->
  consumed c' = consumed c + x /\ highest c' = highest c /\ size_limit c' = size_limit c /\
  window c <= window c'.
Proof. intros [Ho _ (Ec & _ & El & Eh)]. simpl in *. done. Qed.

Lemma wider_fields c c' : wider c c' ->
  consumed c' = consumed c /\ highest c' = highest c /\ size_limit c' = size_limit c /\ window c <= window c'.
Proof. intros [Ho _ (Ec & _ & El & Eh)]. done. Qed.

(** The flow controllers after the stream consumed [n] bytes and the connection [m]. *)
Record consuming (s : Stream) (c k : Controller) (n m : Z) (s' : Stream) : Prop := {
  co_state : exists f, s' = with_flow s f;
  co_ok : flow_ok (flow s');
  co_c : exists c', controller (flow s') (id_ s) = Some c' /\
    consumed c' = consumed c + n /\ highest c' = highest c /\ size_limit c' = size_limit c /\ window c <= window c';
  co_k : exists k', controller (flow s') FlowController.kConnectionLevelId = Some k' /\
    consumed k' = consumed k + m /\ highest k' = highest k /\ size_limit k' = size_limit k /\ window k <= window k'
}.

Lemma consume_connection s c k n : flow_ok (flow s) -> controller (flow s) (id_ s) = Some c ->
  controller (flow s) FlowController.kConnectionLevelId = Some k -> id_ s <> FlowController.kConnectionLevelId ->
  0 <= n -> consumed k + n <= window k -> consumed k + n <= 2 ^ 61 ->
  terminates_in (zoom flow_lens (FlowController.AddBytesConsumed multiplied FlowController.kConnectionLevelId n) s)
    (fun _ s' => consuming s c k 0 n s').
Proof.
  intros Hok Hc Hk Hid Hn Hw Hb. apply total_zoom. simpl.
  pose proof (f_receiver _ Hok _ _ Hk) as Hr. eapply total_mono.
  { apply (AddBytesConsumed_spec multiplied _ n k _ Hok Hk Hn Hw). destruct Hr. lia. }
  intros ? f (Hf & (k' & Hk' & (E1 & E2 & E3 & E4)%ate_fields & _) & Hother).
  destruct (Hother (id_ s) c Hid Hc) as (c' & Hc' & (F1 & F2 & F3 & F4)%wider_fields).
  split; [by exists f|done| |].
  - exists c'. simpl. rewrite F1. split_and!; [done|lia|done|done|done].
  - by exists k'.
Qed.

Lemma consume_stream s c k n : flow_ok (flow s) -> controller (flow s) (id_ s) = Some c ->
  controller (flow s) FlowController.kConnectionLevelId = Some k -> id_ s <> FlowController.kConnectionLevelId ->
  0 <= n -> consumed c + n <= window c -> consumed c + n <= 2 ^ 61 ->
  terminates_in (zoom flow_lens (FlowController.AddBytesConsumed multiplied (id_ s) n) s)
    (fun _ s' => consuming s c k n 0 s').
Proof.
  intros Hok Hc Hk Hid Hn Hw Hb. apply total_zoom. simpl.
  pose proof (f_receiver _ Hok _ _ Hc) as Hr. eapply total_mono.
  { apply (AddBytesConsumed_spec multiplied _ n c _ Hok Hc Hn Hw). destruct Hr. lia. }
  intros ? f (Hf & (c' & Hc' & (E1 & E2 & E3 & E4)%ate_fields & _) & Hother).
  destruct (Hother FlowController.kConnectionLevelId k ltac:(auto) Hk) as (k' & Hk' & (F1 & F2 & F3 & F4)%wider_fields).
  split; [by exists f|done| |].
  - by exists c'.
  - exists k'. simpl. rewrite F1. split_and!; [done|lia|done|done|done].
Qed.

(** [QuicStream::AddBytesConsumed] while reading and afterwards *)
Lemma AddBytesConsumed_open owes s c k n : flows owes s c k -> sound owes s -> read_closed s = false ->
  0 <= n -> consumed c + n <= window c -> consumed k + n <= window k -> consumed c + n <= highest c ->
  consumed k + n <= highest k ->
  terminates_in (AddBytesConsumed multiplied n s) (fun _ => consuming s c k n n).
Proof using Hlimit.
  intros Hfl Hs Hr Hn Hw Hwk Hh Hhk. destruct Hs as [Hid Hct _ _]. destruct Hfl as [Hok Hc Hk _ Hrd Hhi _ _ Htodo].
  assert (highest k <= 2 ^ 61) as Hk61 by (pose proof (todo_bounds owes s c Hhi); lia).
  unfold AddBytesConsumed. apply total_get. rewrite Hr, Hct. simpl. apply total_bind.
  eapply total_mono; [apply (consume_stream s c k n); done || lia|].
  intros ? s1 [[f ->] Hok1 (c1 & Hc1 & E1 & E2 & E3 & E4) (k1 & Hk1 & F1 & F2 & F3 & F4)]. simpl in *.
  eapply total_mono; [apply (consume_connection (with_flow s f) c1 k1 n); simpl; done || lia|].
  intros ? s2 [[f2 ->] Hok2 (c2 & Hc2 & G1 & G2 & G3 & G4) (k2 & Hk2 & H1 & H2 & H3 & H4)]. simpl in *.
  split; simpl; [by exists f2|done| |].
  - exists c2. split_and!; [done|lia|congruence|congruence|lia].
  - exists k2. split_and!; [done|lia|congruence|congruence|lia].
Qed.

Lemma AddBytesConsumed_closed owes s c k n : flows owes s c k -> sound owes s -> read_closed s = true ->
  0 <= n -> consumed k + n <= window k -> consumed k + n <= highest k \/ n = 0 ->
  terminates_in (AddBytesConsumed multiplied n s) (fun _ => consuming s c k 0 n).
Proof using Hlimit.
  intros Hfl Hs Hr Hn Hwk Hhk. destruct Hs as [Hid Hct _ _]. destruct Hfl as [Hok Hc Hk _ Hrd Hhi Ho _ Htodo].
  assert (highest k <= 2 ^ 61) as Hk61 by (pose proof (todo_bounds owes s c Hhi); lia).
  assert (0 <= highest k - consumed k) by (destruct owes; lia).
  unfold AddBytesConsumed. apply total_get. rewrite Hr, Hct. simpl. apply total_bind. simpl.
  apply consume_connection; done || lia.
Qed.
(** ** Closing the stream *)

Lemma violation_run s c k : controller (flow s) (id_ s) = Some c ->
  controller (flow s) FlowController.kConnectionLevelId = Some k ->
  violation s = Ret (FlowController.FlowControlViolation c || FlowController.FlowControlViolation k) s.
Proof using.
  intros Hc Hk. destruct s as [i q d n t f x e]. simpl in *.
  unfold violation, flow_controller_, connection_flow_controller_, FlowController.self, zoom, get, deref, mbind, M_bind.
  simpl. rewrite Hc. simpl. destruct (FlowController.FlowControlViolation c); [done|]. simpl. by rewrite Hk.
Qed.

Lemma flow_controller_run s c : controller (flow s) (id_ s) = Some c -> flow_controller_ s = Ret c s.
Proof using.
  intros Hc. destruct s as [i q d n t f x e]. simpl in *.
  unfold flow_controller_, FlowController.self, zoom, get, deref, mbind, M_bind. simpl. by rewrite Hc.
Qed.

Lemma closes_flow o s f : sound (o (with_flow s f)) (with_flow s f) -> closes o s (with_flow s f).
Proof using. intros H. split; auto. Qed.

(** Settling what the stream owes *)
Lemma settle s c k s' : sound true s -> flows true s c k -> consuming s c k 0 (highest c - consumed c) s' ->
  closes (fun _ => false) s s'.
Proof using.
  intros [Hid Hct Hb _] [Hok Hc Hk Hsz Hrd Hhi Ho Hloc Htodo] [[f ->] Hok' (c' & Hc' & E1 & E2 & E3 & E4) (k' & Hk' & F1 & F2 & F3 & F4)].
  apply closes_flow. simpl in *. split; simpl; [done|done|done|]. exists c', k'.
  split; simpl; try done; try lia.
  - intros h Hh. rewrite E2. by apply Hloc.
  - unfold todo in *. simpl. destruct (local s), (connected_ (session_ s)); lia.
Qed.

Section OnClose.
Variable inner : bool -> M Stream unit.
Context (inner_none : forall r s, in_map s = false -> inner r s = Ret tt s).

Lemma inner_closes r s : allowed true s -> sound true s ->
  terminates_in (inner r s) (fun _ s' => closes (fun _ => true) s s').
Proof using inner_none. intros Ha Hs. rewrite inner_none by by apply Ha. by apply closes_refl. Qed.

Lemma rst_sent_closes s : sound true s ->
  closes (fun _ => true) s (with_sides s (set_rst (rst_received_ (sides s)) true (sides s))).
Proof using. intros Hs. by apply (closes_sides (fun _ => true) (fun _ _ _ => eq_refl) s (fun d => set_rst (rst_received_ d) true d)). Qed.

Lemma on_close_spec s : in_map s = false -> sound true s ->
  terminates_in (on_close multiplied inner s) (fun _ s' => closes (fun _ => false) s s' /\ read_closed s' = true /\
    (read_closed s = false -> drained (buf s'))).
Proof using inner_none Hlimit.
  intros Hm Hs. assert (allowed true s) as Ha by by intros _.
  unfold on_close. apply total_bind. eapply (total_mono _ (fun _ s' => closes (fun _ => false) s s' /\
    read_closed s' = true /\ (read_closed s = false -> drained (buf s')))); cycle 1.
  { intros ? s' (H1 & Hr & Hh). apply total_modify. split; [|done]. eapply closes_trans; [exact H1|].
    apply (closes_event (fun _ => false) (fun _ _ _ => eq_refl)); [apply H1|by left]. }
  unfold quic_stream_on_close. apply total_bind.
  eapply total_mono; [by apply (close_read_side_spec (fun _ => true) true inner (fun _ _ _ => eq_refl) inner_closes)|].
  intros ? s1 (H1 & Hr1 & Hh1). pose proof (closes_allowed true _ _ _ H1 Ha) as Ha1. apply total_bind.
  eapply total_mono; [apply (close_write_side_spec (fun _ => true) true inner (fun _ _ _ => eq_refl) inner_closes); [done|apply H1]|].
  intros ? s2 (H2 & _). pose proof (closes_trans _ _ _ _ _ H1 H2) as H12. apply total_get, total_bind.
  eapply (total_mono _ (fun _ s' => closes (fun _ => true) s2 s')).
  { apply total_when; intros _; [|by apply closes_refl, H2]. apply total_bind.
    eapply total_mono; [apply (send_rst_stream_spec (fun _ => true) true inner (fun _ _ _ => eq_refl) inner_closes);
      [by eapply closes_allowed|apply H2]|].
    intros ? s3 H3. apply total_modify. eapply closes_trans; [exact H3|]. apply rst_sent_closes, H3. }
  intros ? s3 H3. pose proof (closes_trans _ _ _ _ _ H12 H3) as H13.
  pose proof (cl_sound _ _ _ H13) as Hs3. destruct (so_flows _ _ Hs3) as (c & k & Hf). pose proof Hf as [Hok Hc Hk Hsz Hrd Hhi Ho _ _].
  apply total_bind. rewrite (violation_run s3 c k) by done. cbn [terminates_in].
  assert (read_closed s3 = true) as Hr3 by (apply H3, H2, Hr1).
  assert (read_closed s = false -> drained (buf s3)) as Hh3.
  { intros H. eapply closes_drained; [exact H3|]. eapply closes_drained; [exact H2|]. by apply Hh1. }
  assert (forall s', closes (fun _ => false) s3 s' -> closes (fun _ => false) s s' /\ read_closed s' = true /\
    (read_closed s = false -> drained (buf s'))) as Hend.
  { intros s' H. split; [by eapply closes_trans|]. split; [by apply H|]. intros E. eapply closes_drained; [exact H|by apply Hh3]. }
  destruct (_ || _) eqn:Hv.
  - apply Hend. destruct Hs3 as [? ? ? _]. split; auto. split; [done|done|done|]. exists c, k.
    destruct Hf as [? ? ? ? ? ? ? ? Ht]. split; try done; [lia|].
    pose proof (todo_bounds false s3 c Hhi). unfold todo at 1 in Ht. lia.
  - apply orb_false_iff in Hv as [_ Hv]. unfold FlowController.FlowControlViolation in Hv.
    rewrite Z.gtb_ltb in Hv. apply Z.ltb_ge in Hv. apply total_bind.
    rewrite (flow_controller_run s3 c) by done. cbn [terminates_in].
    rewrite uint64_small by lia.
    eapply total_mono; [apply (AddBytesConsumed_closed true s3 c k); [done|done|done|lia|lia|lia]|].
    intros ? s4 H4. apply Hend. by eapply settle.
Qed.
End OnClose.
(** The session's entry: a stream that is in the map owes its share. *)
Notation owing := (fun s : Stream => in_map s).

Lemma owing_session s s' : session_ s' = session_ s -> owing s' = owing s.
Proof using. cbv beta. by intros ->. Qed.

(** Out of the map, before [OnClose] *)
Lemma unmapped s c b : sound true s -> in_map s = true -> flow_controller_ s = Ret c s ->
  let s' := with_session s
    {| in_dynamic_stream_map := false; in_draining_streams := b;
       locally_closed_highest_offset :=
         if HasFinalReceivedByteOffset s then local s else Some (highest c);
       connected_ := connected_ (session_ s) |} in
  closes (fun _ => true) s s'.
Proof using.
  intros [Hid Hct Hb (c1 & k & Hf)] Hm Hc s'. assert (c1 = c) as ->.
  { rewrite (flow_controller_run s c1) in Hc by apply Hf. congruence. }
  split; auto. split; [done|done|done|]. exists c, k. destruct Hf as [? ? ? ? ? ? ? Hl ?].
  split; try done. simpl. intros h. destruct (HasFinalReceivedByteOffset s).
  - intros Hh%Hl. destruct Hh. congruence.
  - by intros [= <-].
Qed.

Lemma CloseStreamInner_spec r s : sound (in_map s) s ->
  terminates_in (CloseStreamInner multiplied r s) (fun _ s' => closes owing s s' /\ in_map s' = false /\
    (in_map s = true -> read_closed s' = true) /\
    (in_map s = true -> read_closed s = false -> drained (buf s'))).
Proof using Hlimit.
  intros Hs. unfold CloseStreamInner, close_stream_inner. apply total_get.
  destruct (in_map s) eqn:Em; cycle 1.
  { split; [apply closes_refl; by rewrite Em|done]. }
  cbn [negb]. apply total_bind.
  eapply (total_mono _ (fun _ s' => closes (fun _ => true) s s' /\ session_ s' = session_ s /\
    read_closed s' = read_closed s)).
  { apply total_when; intros _; [|split; [by apply closes_refl|done]]. apply total_modify.
    split; [|done]. by apply rst_sent_closes. }
  intros ? s1 (H1 & Es & Er). apply total_get. destruct (so_flows _ _ (cl_sound _ _ _ H1)) as (c & k & Hf).
  pose proof (flow_controller_run s1 c (fl_c _ _ _ _ Hf)) as Ec. unfold mbind at 1, M_bind at 1. rewrite Ec.
  apply total_bind, total_modify.
  pose proof (unmapped s1 c false (cl_sound _ _ _ H1) ltac:(by rewrite Es) Ec) as H2. cbv zeta in H2.
  set (s2 := with_session _ _) in *.
  eapply total_mono.
  { apply (on_close_spec (fun r => close_stream_inner multiplied 0 r)); [|done|apply H2].
    intros r' s' Hm. unfold close_stream_inner, mbind, M_bind, get. by rewrite Hm. }
  intros ? s3 (H3 & Hr3 & Hh3).
  assert (in_map s3 = false) as Em3.
  { destruct (in_map s3) eqn:E; [|done]. by pose proof (cl_map _ _ _ H3 E). }
  split; [|split; [done|split; [done|]]].
  - pose proof (closes_trans _ _ _ _ _ (closes_trans _ _ _ _ _ H1 H2) H3) as H.
    destruct H. split; auto. by rewrite Em3.
  - intros _ E. apply Hh3. change (read_closed s1 = false). congruence.
Qed.

Lemma CloseStreamInner_closes r s : allowed false s -> sound (owing s) s ->
  terminates_in (CloseStreamInner multiplied r s) (fun _ s' => closes owing s s').
Proof using Hlimit.
  intros _ Hs. eapply total_mono; [by apply CloseStreamInner_spec|]. by intros ? s' [H _].
Qed.

Lemma CloseReadSide_spec s : sound (in_map s) s ->
  terminates_in (CloseReadSide multiplied s) (fun _ s' => closes owing s s' /\ read_closed s' = true /\
    (read_closed s = false -> drained (buf s'))).
Proof using Hlimit.
  intros Hs. by apply (close_read_side_spec owing false _ owing_session CloseStreamInner_closes).
Qed.

Lemma CloseWriteSide_spec s : sound (in_map s) s ->
  terminates_in (CloseWriteSide multiplied s) (fun _ s' => closes owing s s' /\
    (read_closed s = false -> read_closed s' = false)).
Proof using Hlimit.
  intros Hs. by apply (close_write_side_spec owing false _ owing_session CloseStreamInner_closes).
Qed.

(** The connection is gone, and the stream with it. *)
Definition disconnected (s : Stream) : Stream := with_session s
  {| in_dynamic_stream_map := in_map s; in_draining_streams := in_draining_streams (session_ s);
     locally_closed_highest_offset := local s; connected_ := false |}.

Lemma sound_disconnected o s : sound o s -> sound o (disconnected s).
Proof using.
  intros [Hid Hct Hb (c & k & [? ? ? ? ? Hhi ? ? Ht])]. split; [done|done|done|]. exists c, k. split; try done.
  unfold todo in *. simpl. destruct o; [done|]. destruct (local s), (connected_ (session_ s)); lia.
Qed.

Lemma OnConnectionClosed_spec e s : sound (in_map s) s ->
  terminates_in (OnConnectionClosed multiplied e s) (fun _ s' => closes owing s s' /\ read_closed s' = true /\
    (read_closed s = false -> drained (buf s'))).
Proof using Hlimit.
  intros Hs. unfold OnConnectionClosed. apply total_get.
  destruct (read_closed s && _) eqn:E.
  { apply andb_true_iff in E as [E _]. split; [by apply closes_refl|]. split; [done|congruence]. }
  apply total_bind. eapply (total_mono _ (fun _ s' => closes owing s s' /\ read_closed s' = read_closed s)).
  { apply total_when; intros _; [|split; [by apply closes_refl|done]]. apply total_modify. split; [|done].
    by apply (closes_sides owing owing_session s (set_errors QUIC_STREAM_CONNECTION_ERROR e)). }
  intros ? s1 (H1 & E1). apply total_bind. eapply total_mono; [apply CloseWriteSide_spec, H1|].
  intros ? s2 (H2 & Hr2). eapply total_mono; [apply CloseReadSide_spec, H2|].
  intros ? s3 (H3 & Hr3 & Hh3). split; [by eapply closes_trans; [eapply closes_trans|]|].
  split; [done|]. intros E'. apply Hh3, Hr2. congruence.
Qed.

Lemma TearDown_spec e s : sound (in_map s) s -> connected_ (session_ s) = true ->
  (read_closed s = false -> in_map s = true) ->
  terminates_in (TearDownLocalConnectionState multiplied e s) (fun _ s' => closes owing (disconnected s) s' /\
    in_map s' = false /\ read_closed s' = true /\ (read_closed s = false -> drained (buf s'))).
Proof using Hlimit.
  intros Hs Hconn Hopen. unfold TearDownLocalConnectionState. apply total_get. rewrite Hconn. cbn [negb].
  apply total_bind, total_modify. fold (disconnected s).
  pose proof (sound_disconnected _ _ Hs) as Hs1. apply total_when; intros Em; cycle 1.
  { split; [apply closes_refl; exact Hs1|]. simpl. split; [done|].
    destruct (read_closed s) eqn:E; [done|]. rewrite Hopen in Em; done. }
  apply total_bind. eapply total_mono; [by apply OnConnectionClosed_spec|].
  intros ? s2 (H2 & Hr2 & Hh2). apply total_get, total_when; intros Em2; [|by split_and!].
  eapply total_mono; [apply CloseStreamInner_spec, H2|]. intros ? s3 (H3 & Em3 & _ & _).
  split; [by eapply closes_trans|]. split; [done|]. split; [by apply H3|]. intros E. eapply closes_drained; [exact H3|by apply Hh2].
Qed.

Lemma CloseConnection_spec e s : sound (in_map s) s -> connected_ (session_ s) = true ->
  (read_closed s = false -> in_map s = true) -> fine (ConnectionClose e) ->
  terminates_in (CloseConnectionWithDetails multiplied e s) (fun _ s' =>
    closes owing (disconnected (with_event s (ConnectionClose e))) s' /\
    in_map s' = false /\ read_closed s' = true /\ (read_closed s = false -> drained (buf s'))).
Proof using Hlimit.
  intros Hs Hconn Hopen He. unfold CloseConnectionWithDetails. apply total_get. rewrite Hconn. cbn [negb].
  apply total_bind, total_modify.
  assert (sound (in_map s) (with_event s (ConnectionClose e))) as Hs1.
  { eapply sound_same; [exact Hs|done..|]. apply Hs. }
  exact (TearDown_spec e (with_event s (ConnectionClose e)) Hs1 Hconn Hopen).
Qed.
End Peer.
