(* ===== verification/StreamDelivery.v ===== *)
(** The receiving stream keeps its invariants: while it is read everything that
    arrived without a gap was given to the delegate and counted by both flow
    controllers; when it has ended nothing is left to read.  One lemma per
    handler. *)

From S2P Require Import Prelude FlowController FlowControl IntervalSet Intervals SequencerBuffer Reassembly.
From S2P Require Import ReassemblyRuns ReceiveStream StreamClosing.
Import ReceiveStream.

Notation connected s := (connected_ (session_ s)).
Notation ignores s := (ignore_read_data_ (sequencer_ s)).
Notation stop_at s := (close_offset_ (sequencer_ s)).

(** Everything the invariants look at *)
Definition look (s : Stream) :=
  (id_ s, stream_contributes_to_connection_flow_control_ s, buf s, flow s,
   (stop_at s, blocked_ (sequencer_ s), ignores s, level_triggered_ (sequencer_ s)),
   (in_map s, local s, connected s), events s, (read_closed s, rst_received_ (sides s))).

Section Peer.
Variable sent : Z -> Z.
Variable limit : Z.
Context (Hlimit : 0 <= limit <= 2 ^ 61).

(** The offsets that have arrived, and whether the end, a reset, a local
    shutdown and a local close were seen: the invariants are stated for a history. *)
Record history : Type := {
  arrived : Z -> Prop;
  fin_seen : Prop;
  rst_seen : Prop;
  shut : Prop;
  dropped : Prop
}.

Record common (h : history) (s : Stream) : Prop := {
  cm_sound : sound limit (in_map s) s;
  cm_holds : holds sent limit (buf s);
  cm_modes : blocked_ (sequencer_ s) = false /\ level_triggered_ (sequencer_ s) = false;
  cm_close : stop_at s = kMaxOffset \/ stop_at s = limit /\ fin_seen h;
  cm_prefix : exists n, 0 <= n <= limit /\ given (events s) = bytes_from sent 0 n;
  cm_events : Forall fine (events s);
  cm_cover : ignores s = false -> forall v, member v (received (buf s)) -> arrived h v;
  cm_ignore : ignores s = true -> shut h;
  cm_rst : rst_received_ (sides s) = true -> rst_seen h
}.

(** The stream is being read. *)
Record active (h : history) (s : Stream) : Prop := {
  ac_common : common h s;
  ac_open : read_closed s = false;
  ac_map : in_map s = true;
  ac_conn : connected s = true;
  ac_consumed : forall c, controller (flow s) (id_ s) = Some c -> consumed c = total (buf s);
  ac_high : forall c v, controller (flow s) (id_ s) = Some c -> member v (received (buf s)) -> v < highest c;
  ac_nofin : FinRead ∉ events s;
  ac_given : ignores s = false -> given (events s) = bytes_from sent 0 (total (buf s));
  ac_cover : ignores s = false -> forall v, arrived h v -> member v (received (buf s));
  ac_fin : fin_seen h -> stop_at s = limit
}.

(** The windows that were announced are respected. *)
Definition roomy (s : Stream) : Prop := forall c k,
  controller (flow s) (id_ s) = Some c -> controller (flow s) FlowController.kConnectionLevelId = Some k ->
  highest c <= window c /\ highest k <= window k.

(** ... and between two inputs everything that could be given was. *)
Record reading (h : history) (s : Stream) : Prop := {
  rd_active : active h s;
  rd_roomy : roomy s;
  rd_unread : unread (buf s) = 0;
  rd_more : stop_at s = limit -> total (buf s) < limit
}.

(** The stream is no longer read. *)
Record ended (h : history) (s : Stream) : Prop := {
  en_common : common h s;
  en_closed : read_closed s = true;
  en_drained : drained sent limit (buf s);
  en_why : FinRead ∈ events s \/ rst_received_ (sides s) = true \/ connected s = false \/ dropped h;
  en_fin : FinRead ∈ events s -> ignores s = false ->
    given (events s) = bytes_from sent 0 limit /\ (forall v, 0 <= v < limit -> arrived h v) /\ fin_seen h;
  en_map : connected s = false -> in_map s = false
}.

Definition good (h : history) (s : Stream) : Prop := reading h s \/ ended h s.

(** ** Steps the invariants do not see *)

Lemma flows_look o s s' c k : look s' = look s -> flows limit o s c k -> flows limit o s' c k.
Proof.
  intros E. unfold look in E. injection E as E1 E2 E3 E4 E5 E6 E7 E8 E9 E10 E11 E12 E13 E14.
  intros []. unfold todo in *. split; unfold todo; rewrite ?E1, ?E4, ?E9, ?E10, ?E11; done.
Qed.

Lemma sound_look o s s' : look s' = look s -> sound limit o s -> sound limit o s'.
Proof.
  intros E [H1 H2 H3 (c & k & H4)]. pose proof (flows_look o s s' c k E H4).
  unfold look in E. injection E as E1 E2 E3 E4 E5 E6 E7 E8 E9 E10 E11 E12 E13 E14.
  split; [by rewrite E1|by rewrite E2|by rewrite E3|]. by exists c, k.
Qed.

Lemma common_look h s s' : look s' = look s -> common h s -> common h s'.
Proof.
  intros E [H1 H2 H3 H4 H5 H6 H7 H8 H9]. pose proof (sound_look (in_map s) s s' E H1).
  unfold look in E. injection E as E1 E2 E3 E4 E5 E6 E7 E8 E9 E10 E11 E12 E13 E14.
  split; rewrite ?E3, ?E5, ?E6, ?E7, ?E8, ?E9, ?E12, ?E14; done.
Qed.

Lemma active_look h s s' : look s' = look s -> active h s -> active h s'.
Proof.
  intros E [H1 H2 H3 H4 H5 H6 H7 H8 H9 H10]. pose proof (common_look h s s' E H1).
  unfold look in E. injection E as E1 E2 E3 E4 E5 E6 E7 E8 E9 E10 E11 E12 E13 E14.
  split; rewrite ?E1, ?E3, ?E4, ?E5, ?E7, ?E9, ?E11, ?E12, ?E13; done.
Qed.

Lemma roomy_look s s' : look s' = look s -> roomy s -> roomy s'.
Proof.
  intros E H. unfold look in E. injection E as E1 _ _ E4 _ _ _ _ _ _ _ _ _ _.
  unfold roomy. by rewrite E1, E4.
Qed.

Lemma reading_look h s s' : look s' = look s -> reading h s -> reading h s'.
Proof.
  intros E [H1 H2 H3 H4]. pose proof (active_look h s s' E H1). pose proof (roomy_look s s' E H2).
  unfold look in E. injection E as E1 E2 E3 E4 E5 E6 E7 E8 E9 E10 E11 E12 E13 E14.
  split; rewrite ?E3, ?E5; done.
Qed.

Lemma ended_look h s s' : look s' = look s -> ended h s -> ended h s'.
Proof.
  intros E [H1 H2 H3 H4 H5 H6]. pose proof (common_look h s s' E H1).
  unfold look in E. injection E as E1 E2 E3 E4 E5 E6 E7 E8 E9 E10 E11 E12 E13 E14.
  split; rewrite ?E3, ?E7, ?E9, ?E11, ?E12, ?E13, ?E14; done.
Qed.
(** ** Histories grow *)

Record extends (h h' : history) : Prop := {
  ex_arrived : forall v, arrived h v -> arrived h' v;
  ex_fin : fin_seen h -> fin_seen h';
  ex_rst : rst_seen h -> rst_seen h';
  ex_shut : shut h -> shut h';
  ex_dropped : dropped h -> dropped h'
}.

Lemma common_extends h h' s : extends h h' -> common h s -> common h' s.
Proof.
  intros [E1 E2 E3 E4 E5] [H1 H2 H3 H4 H5 H6 H7 H8 H9]. split; auto.
  destruct H4 as [?|[? ?]]; auto.
Qed.

Lemma ended_extends h h' s : extends h h' -> ended h s -> ended h' s.
Proof.
  intros E [H1 H2 H3 H4 H5 H6]. split; auto; [by eapply common_extends| |].
  { destruct H4 as [?|[?|[?|?]]]; auto. do 3 right. by eapply ex_dropped. }
  intros Hf Hi. destruct (H5 Hf Hi) as (? & Ha & ?). split; [done|]. split; [|by eapply ex_fin].
  intros v Hv. by eapply ex_arrived, Ha.
Qed.

(** ** Ending *)

(** What is left of [common] when the buffer was just given a frame it refused. *)
Record shell (h : history) (s : Stream) : Prop := {
  sh_sound : sound limit (in_map s) s;
  sh_modes : blocked_ (sequencer_ s) = false /\ level_triggered_ (sequencer_ s) = false;
  sh_close : stop_at s = kMaxOffset \/ stop_at s = limit /\ fin_seen h;
  sh_prefix : exists n, 0 <= n <= limit /\ given (events s) = bytes_from sent 0 n;
  sh_events : Forall fine (events s);
  sh_low : ignores s = false -> forall v, 0 <= v < total (buf s) -> arrived h v;
  sh_ignore : ignores s = true -> shut h;
  sh_rst : rst_received_ (sides s) = true -> rst_seen h
}.

Lemma common_shell h s : common h s -> shell h s.
Proof.
  intros [H1 H2 H3 H4 H5 H6 H7 H8 H9]. split; auto. intros Hi v Hv. apply H7; [done|]. by apply H2.
Qed.

Lemma shell_common h s : shell h s -> holds sent limit (buf s) ->
  (ignores s = false -> forall v, member v (received (buf s)) -> arrived h v) -> common h s.
Proof. intros [] Hh Hc. by split. Qed.

Lemma drained_common h s : shell h s -> drained sent limit (buf s) -> common h s.
Proof.
  intros Hs [Hh Hm]. apply shell_common; [done|done|]. intros Hi v Hv. apply Hs; [done|].
  pose proof (Hm v Hv). pose proof (h_member _ _ _ Hh v Hv). lia.
Qed.

Lemma kept_fields s s' : kept s' = kept s ->
  stop_at s' = stop_at s /\ blocked_ (sequencer_ s') = blocked_ (sequencer_ s) /\ ignores s' = ignores s /\
  level_triggered_ (sequencer_ s') = level_triggered_ (sequencer_ s) /\ given (events s') = given (events s) /\
  connected s' = connected s /\ rst_received_ (sides s') = rst_received_ (sides s) /\
  total (buf s') = total (buf s) /\ id_ s' = id_ s.
Proof. unfold kept. intros [=]. done. Qed.

Lemma shell_closes h s s' : shell h s -> closes sent limit (fun s => in_map s) s s' -> shell h s'.
Proof.
  intros [H1 H2 H3 H4 H5 H6 H7 H8] [C1 C2 C3 C4 C5 C6 C7 C8].
  apply kept_fields in C2 as (E1 & E2 & E3 & E4 & E5 & E6 & E7 & E8 & _).
  split; rewrite ?E1, ?E2, ?E3, ?E4, ?E5, ?E7, ?E8; auto.
Qed.

Lemma shell_disconnected h s e : shell h s -> fine (ConnectionClose e) ->
  shell h (disconnected (with_event s (ConnectionClose e))).
Proof.
  intros [H1 H2 H3 H4 H5 H6 H7 H8] He. split; auto; [|by constructor].
  apply (sound_disconnected limit (in_map s) (with_event s (ConnectionClose e))).
  eapply sound_same; [exact H1|done..|]. apply H1.
Qed.

Variable multiplied : Z -> Z.

(** Closing the connection for an error ends the stream. *)
Lemma abort_spec h s e : shell h s -> connected s = true -> (read_closed s = false -> in_map s = true) ->
  fine (ConnectionClose e) -> (read_closed s = true -> drained sent limit (buf s)) ->
  (FinRead ∈ events s -> ignores s = false ->
    given (events s) = bytes_from sent 0 limit /\ (forall v, 0 <= v < limit -> arrived h v) /\ fin_seen h) ->
  terminates_in (CloseConnectionWithDetails multiplied e s) (fun _ s' => ended h s').
Proof using Hlimit.
  intros Hs Hc Hm He Hd Hf. eapply total_mono; [apply (CloseConnection_spec sent limit Hlimit multiplied e s); auto; apply Hs|].
  intros ? s' (Hcl & Em & Er & Hdr). pose proof (shell_disconnected h s e Hs He) as Hs1.
  pose proof (shell_closes h _ s' Hs1 Hcl) as Hs'.
  assert (drained sent limit (buf s')) as Hd'.
  { destruct (read_closed s) eqn:E; [|by apply Hdr].
    apply (closes_drained _ _ _ _ _ Hcl). by apply Hd. }
  destruct Hcl as [_ C2 _ _ C5 _ _ _]. apply kept_fields in C2 as (_ & _ & E3 & _ & E5 & E6 & _ & _ & _).
  simpl in E3, E5, E6. split; [by apply drained_common|done|done| | |done].
  - right. right. left. by rewrite E6.
  - intros Hfin Hi. rewrite E5. apply Hf; [|by rewrite <- E3].
    apply C5 in Hfin. simpl in Hfin. by apply elem_of_cons in Hfin as [[=]|Hfin].
Qed.

Lemma abort_active h s e : shell h s -> read_closed s = false -> in_map s = true -> connected s = true ->
  FinRead ∉ events s -> fine (ConnectionClose e) ->
  terminates_in (CloseConnectionWithDetails multiplied e s) (fun _ s' => ended h s').
Proof using Hlimit. intros. apply abort_spec; auto; [congruence|done]. Qed.

Lemma abort_ended h s e : ended h s -> connected s = true -> fine (ConnectionClose e) ->
  terminates_in (CloseConnectionWithDetails multiplied e s) (fun _ s' => ended h s').
Proof using Hlimit.
  intros [H1 H2 H3 H4 H5 H6] Hc He. apply abort_spec; auto; [by apply common_shell|congruence].
Qed.
Lemma common_closes h s s' : common h s -> closes sent limit (fun s => in_map s) s s' -> common h s'.
Proof using.
  intros Hc Hcl. pose proof (shell_closes h s s' (common_shell h s Hc) Hcl) as Hs'.
  pose proof Hcl as [_ C2 C3 C4 _ _ _ _]. apply kept_fields in C2 as (_ & _ & E3 & _).
  apply shell_common; [done|by apply C3, Hc|]. rewrite E3. intros Hi v [Hv|Hv]%C4; [by apply (cm_cover h s)|].
  by apply (common_shell h s Hc).
Qed.

Lemma common_event h s e : common h s -> fine e -> given (e :: events s) = given (events s) ->
  common h (with_event s e).
Proof using.
  intros [H1 H2 H3 H4 (n & Hn & H5) H6 H7 H8 H9] He Hg. split; auto.
  - eapply sound_same; [exact H1|done..|]. apply H1.
  - exists n. split; [done|]. cbn [events with_event]. by rewrite Hg.
  - by constructor.
Qed.

Lemma ended_event h s e : ended h s -> fine e -> given (e :: events s) = given (events s) -> e <> FinRead ->
  ended h (with_event s e).
Proof using.
  intros [H1 H2 H3 H4 H5 H6] He Hg Hne. split; auto; cbn [events with_event].
  - by apply common_event.
  - destruct H4; [|by right]. left. by right.
  - rewrite Hg. intros [<-|Hf]%elem_of_cons; [done|by apply H5].
Qed.

(** The end of the stream is given to the delegate. *)
Lemma the_end_is_given h s : common h s -> connected s = true ->
  (read_closed s = true -> drained sent limit (buf s)) ->
  (ignores s = false ->
    given (events s) = bytes_from sent 0 limit /\ (forall v, 0 <= v < limit -> arrived h v) /\ fin_seen h) ->
  terminates_in (OnFinRead multiplied s) (fun _ s' => ended h s' /\
    connected s' = true /\ total (buf s') = total (buf s)).
Proof using Hlimit.
  intros Hc Hconn Hd Hf. unfold OnFinRead, quic_stream_on_fin_read. apply total_bind, total_bind, total_modify.
  set (s1 := with_sides _ _). pose proof (common_look h s s1 eq_refl Hc) as Hc1.
  eapply total_mono; [apply (CloseReadSide_spec sent limit Hlimit multiplied s1), Hc1|].
  intros ? s2 (Hcl & Hr & Hdr). apply total_modify. pose proof (common_closes h s1 s2 Hc1 Hcl) as Hc2.
  assert (drained sent limit (buf s2)) as Hd2.
  { destruct (read_closed s) eqn:E; [|by apply Hdr]. apply (closes_drained _ _ _ _ _ Hcl). by apply Hd. }
  apply cl_kept, kept_fields in Hcl as (_ & _ & E3 & _ & E5 & E6 & _ & E8 & _). simpl in *.
  split; [|split; [cbn; congruence|done]]. split; cbn [events with_event]; auto.
  - by apply common_event.
  - left. left.
  - intros _ Hi. cbn [given]. rewrite E5. apply Hf. by rewrite <- E3.
  - cbn. congruence.
Qed.

Lemma clear_ended h s : ended h s ->
  terminates_in (zoom buffer_lens SequencerBuffer.Clear s) (fun _ s' => ended h s' /\
    look (with_sequencer s' (set_buffer (buf s) (sequencer_ s'))) = look s /\
    received (buf s') = IntervalSet.AddRange 0 (total (buf s)) [] /\ total (buf s') = total (buf s)).
Proof using Hlimit.
  intros [H1 H2 H3 H4 H5 H6]. pose proof (so_buffer _ _ _ (cm_sound _ _ H1)) as [Ecap Ht].
  apply total_zoom. cbn [view buffer_lens]. change (buffered_frames_ (sequencer_ s)) with (buf s).
  eapply total_mono; [apply (Clear_spec sent limit)|].
  - rewrite Ecap. done.
  - unfold in_range. rewrite Ecap. unfold W, SequencerBuffer.kBlockSizeBytes. lia.
  - lia.
  - intros ? b (Hh & Et & Eb & Er). cbn [put buffer_lens].
    assert (drained sent limit b) as Hd.
    { split; [done|]. intros v. rewrite Er, Et. intros ?%member_one_range. lia. }
    split; [|split; [done|split; [exact Er|exact Et]]]. split; auto. apply drained_common; [|done].
    apply common_shell in H1 as [S1 S2 S3 S4 S5 S6 S7 S8]. split; auto.
    + eapply sound_same; [exact S1|done..|]. split; unfold buf; simpl; [by rewrite Eb|by rewrite Et].
    + unfold buf. simpl. rewrite Et. exact S6.
Qed.

(** ** Consuming while reading *)

Lemma spend s n : sound limit true s -> read_closed s = false -> roomy s -> 0 <= n ->
  (forall c, controller (flow s) (id_ s) = Some c -> consumed c + n <= highest c) ->
  terminates_in (ReceiveStream.AddBytesConsumed multiplied n s) (fun _ s' => exists f, s' = with_flow s f /\
    sound limit true s' /\ roomy s' /\
    forall c', controller f (id_ s) = Some c' -> exists c, controller (flow s) (id_ s) = Some c /\
      consumed c' = consumed c + n /\ highest c' = highest c).
Proof using Hlimit.
  intros Hs Hr Hroom Hn Hhigh. pose proof Hs as [Hid Hct Hb (c & k & Hf)].
  pose proof Hf as [Hok Hc Hk Hsz Hrd Hhi Ho Hloc Htodo].
  destruct (Hroom c k Hc Hk) as [R1 R2]. pose proof (Hhigh c Hc).
  eapply total_mono; [apply (AddBytesConsumed_open limit Hlimit multiplied true s c k n); done || lia|].
  intros ? s' [[f ->] Hok' (c' & Hc' & E1 & E2 & E3 & E4) (k' & Hk' & F1 & F2 & F3 & F4)]. simpl in *.
  exists f. split; [done|]. split; [|split].
  - split; simpl; [done|done|done|]. exists c', k'. split; simpl; try done; try lia.
    intros x Hx. rewrite E2. by apply Hloc.
  - intros c1 k1 Hc1 Hk1. simpl in *. assert (c1 = c') as -> by congruence. assert (k1 = k') as -> by congruence.
    lia.
  - intros c1 Hc1. assert (c1 = c') as -> by congruence. by exists c.
Qed.
(** ** Delivering *)

Lemma no_region b c : holds sent limit b -> unread b = 0 -> SequencerBuffer.GetReadableRegions c b = Ret [] b.
Proof using.
  intros Hh Hu. unfold SequencerBuffer.GetReadableRegions, mbind at 1, M_bind at 1, get. cbv beta.
  rewrite (readable sent limit b Hh). fold (unread b). by rewrite Hu.
Qed.

Lemma next_region b : holds sent limit b -> 0 < unread b ->
  exists n, 0 < n <= unread b /\
    SequencerBuffer.GetReadableRegions 1 b = Ret [bytes_from sent (total b) n] b.
Proof using.
  intros Hh Hu. destruct (GetReadableRegions_spec sent limit b 1 Hh ltac:(lia)) as (rs & n & E & [S1 S2 S3 S4 _]).
  destruct (S3 Hu) as [Hne Hn]. exists n. split; [lia|].
  destruct rs as [|x [|y rs]]; [done| |simpl in S2; lia]. simpl in S1. rewrite app_nil_r in S1. by rewrite E, S1.
Qed.

(** Unread bytes were counted as received. *)
Lemma unread_high h s n : active h s -> 0 <= n <= unread (buf s) ->
  forall c, controller (flow s) (id_ s) = Some c -> consumed c + n <= highest c.
Proof using.
  intros Ha Hn c Hc. rewrite (ac_consumed _ _ Ha c Hc). pose proof (cm_holds _ _ (ac_common _ _ Ha)) as Hh.
  destruct (first_missing sent limit _ Hh) as (_ & Hread & _). pose proof (h_total _ _ _ Hh).
  unfold unread in Hn. destruct (so_flows _ _ _ (cm_sound _ _ (ac_common _ _ Ha))) as (c' & k & Hf).
  pose proof (fl_c _ _ _ _ _ Hf) as Hc'. assert (c' = c) as -> by congruence.
  destruct (Z.eq_dec n 0) as [->|].
  - pose proof (fl_read _ _ _ _ _ Hf) as Hr. rewrite (ac_consumed _ _ Ha c Hc) in Hr. lia.
  - pose proof (Hread (total (buf s) + n - 1) ltac:(lia)) as Hv. pose proof (ac_high _ _ Ha c _ Hc Hv). lia.
Qed.

(** The state after [n] bytes left the buffer, before they are accounted for *)
Definition took_out (s : Stream) (b : SequencerBuffer.Buffer) (l : list event) : Stream :=
  {| id_ := id_ s; sequencer_ := set_buffer b (sequencer_ s); sides := sides s;
     stream_bytes_read_ := stream_bytes_read_ s;
     stream_contributes_to_connection_flow_control_ := stream_contributes_to_connection_flow_control_ s;
     flow := flow s; session_ := session_ s; events := l |}.

(** ... and accounted for *)
Lemma spent h s b l n : active h s -> roomy s -> 0 <= n -> holds sent limit b -> cap b = W ->
  total b = total (buf s) + n ->
  (forall c, controller (flow s) (id_ s) = Some c -> total b <= highest c) ->
  (forall v, member v (received b) -> member v (received (buf s)) \/ 0 <= v < total b) ->
  (ignores s = false -> received b = received (buf s)) ->
  Forall fine l -> FinRead ∉ l ->
  given l = given (events s) \/ ignores s = false /\ given l = bytes_from sent 0 (total b) ->
  (ignores s = false -> given l = bytes_from sent 0 (total b)) ->
  terminates_in (ReceiveStream.AddBytesConsumed multiplied n (took_out s b l)) (fun _ s' =>
    active h s' /\ roomy s' /\ exists f, s' = with_flow (took_out s b l) f).
Proof using Hlimit.
  intros Ha Hroom Hn Hh Hcap Ht Hhigh Hmem Hrec Hl Hnf Hg Hg'. pose proof Ha as [Hcm Ho Hm Hcn Hcons Hhi Hfin Hgi Hcov Hfs].
  pose proof Hcm as [C1 C2 C3 C4 C5 C6 C7 C8 C9]. rewrite Hm in C1.
  assert (buffer_ok limit b) as Hb.
  { split; [done|]. pose proof (h_total _ _ _ Hh). destruct (so_flows _ _ _ C1) as (c & k & Hf).
    pose proof (fl_high _ _ _ _ _ Hf). pose proof (Hhigh c (fl_c _ _ _ _ _ Hf)). lia. }
  assert (sound limit true (took_out s b l)) as Hs by (eapply sound_same; [exact C1|done..]).
  eapply total_mono; [apply spend; auto|].
  { intros c Hc. simpl in *. rewrite (Hcons c Hc). rewrite <- Ht. by apply Hhigh. }
  intros ? s' (f & -> & Hs' & Hr' & Hback). split; [|split; [done|by exists f]].
  split; simpl; auto.
  - split; simpl; auto; [by rewrite Hm| |].
    + destruct Hg as [->|[_ ->]]; [done|]. exists (total b). split; [apply Hb|done].
    + intros Hi v. unfold buf. simpl. rewrite Hrec by done. by apply C7.
  - intros c' (c & Hc & E1 & _)%Hback. unfold buf in *. simpl in *. rewrite E1, (Hcons c Hc). lia.
  - intros c' v (c & Hc & _ & E2)%Hback. unfold buf in *. simpl in *. rewrite E2.
    intros [Hv|Hv]%Hmem; [by apply (Hhi c v)|]. pose proof (Hhigh c Hc). lia.
  - intros Hi v Hv. unfold buf in *. simpl. rewrite Hrec by done. by apply Hcov.
Qed.
(** What [QuartcStream::OnDataAvailable] keeps while it loops *)
Definition delivering (h : history) (stop fm : Z) (s : Stream) : Prop :=
  active h s /\ roomy s /\ ignores s = false /\ stop_at s = stop /\
  SequencerBuffer.FirstMissingByte (buf s) = fm.

Lemma deliver_step h stop fm s n : delivering h stop fm s -> 0 < n <= unread (buf s) ->
  terminates_in ((emit (Received (bytes_from sent (total (buf s)) n));;
                  ReceiveStream.MarkConsumed multiplied n) s) (fun _ s' =>
    delivering h stop fm s' /\ unread (buf s') = unread (buf s) - n).
Proof using Hlimit.
  intros (Ha & Hroom & Hi & Hst & Hfm) Hn. pose proof (ac_common _ _ Ha) as Hcm.
  pose proof (cm_holds _ _ Hcm) as Hh. pose proof (so_buffer _ _ _ (cm_sound _ _ Hcm)) as [Ecap _].
  apply total_bind, total_modify. set (x := bytes_from _ _ _).
  unfold ReceiveStream.MarkConsumed. apply total_bind, total_zoom.
  cbn [view buffer_lens]. change (buffered_frames_ (sequencer_ (with_event s (Received x)))) with (buf s).
  eapply total_mono; [apply (MarkConsumed_spec sent limit); [done|lia]|].
  intros ok b Hok. destruct (Z.leb_spec n (unread (buf s))); [|lia]. destruct Hok as [-> Htk]. cbn [negb].
  pose proof Htk as [K1 K2 K3 K4].
  change (put buffer_lens b (with_event s (Received x))) with (took_out s b (Received x :: events s)).
  assert (given (Received x :: events s) = bytes_from sent 0 (total b)) as Hg.
  { cbn [given]. rewrite (ac_given _ _ Ha Hi), K2. unfold x. pose proof (h_total _ _ _ Hh).
    rewrite bytes_from_app by lia. by rewrite Z.add_0_l. }
  eapply total_mono.
  { apply (spent h s b (Received x :: events s) n Ha Hroom); [lia|done|congruence|done| | | | | | |].
    - intros c Hc. rewrite K2, <- (ac_consumed _ _ Ha c Hc). eapply unread_high; [done|lia|done].
    - intros v Hv. left. by rewrite <- K3.
    - done.
    - constructor; [done|apply Hcm].
    - intros [[=]|Hf]%elem_of_cons. by apply (ac_nofin _ _ Ha).
    - by right.
    - done. }
  intros ? s' (Ha' & Hr' & f & ->). split.
  { split_and!; [done|done|done|done|]. rewrite <- Hfm. unfold buf, SequencerBuffer.FirstMissingByte. simpl. by rewrite K3. }
  unfold buf. simpl. apply (unread_took sent limit _ _ _ Htk).
Qed.

Lemma deliver_spec h stop fm fuel : forall s, delivering h stop fm s -> unread (buf s) <= Z.of_nat fuel ->
  terminates_in (deliver multiplied fuel s) (fun _ s' => delivering h stop fm s' /\ unread (buf s') = 0).
Proof using Hlimit.
  induction fuel as [|fuel IH]; intros s Hd Hf; pose proof Hd as (Ha & _);
    pose proof (cm_holds _ _ (ac_common _ _ Ha)) as Hh; pose proof (unread_nonneg sent limit _ Hh);
    cbn [deliver]; apply total_bind, total_zoom; cbn [view buffer_lens];
    change (buffered_frames_ (sequencer_ s)) with (buf s);
    assert (put buffer_lens (buf s) s = s) as Es by by destruct s as [i [] d m t f x e].
  - rewrite no_region by (done || lia). cbn [terminates_in]. rewrite Es. split; [done|lia].
  - destruct (Z.eq_dec (unread (buf s)) 0) as [E|E].
    { rewrite no_region by done. cbn [terminates_in]. rewrite Es. by split. }
    destruct (next_region (buf s) Hh ltac:(lia)) as (n & Hn & ->).
    cbn [terminates_in]. rewrite Es. rewrite length_bytes_from by lia.
    pose proof (deliver_step h stop fm s n Hd ltac:(lia)) as Hstep. apply total_bind.
    unfold mbind, M_bind, emit, modify in Hstep. cbn in Hstep. apply total_modify. apply total_bind.
    eapply total_mono; [exact Hstep|]. intros ? s' (Hd' & Eu). apply IH; [done|lia].
Qed.
Lemma IsClosed_spec h s : common h s ->
  IsClosed (sequencer_ s) = true <-> stop_at s = limit /\ total (buf s) = limit.
Proof using Hlimit.
  intros Hcm. pose proof (so_buffer _ _ _ (cm_sound _ _ Hcm)) as [_ Ht].
  unfold IsClosed, SequencerBuffer.BytesConsumed. fold (buf s). rewrite Z.geb_leb, Z.leb_le.
  destruct (cm_close _ _ Hcm) as [E|[E _]]; rewrite E; [|lia].
  unfold kMaxOffset. lia.
Qed.

(** The state after the end was given *)
Definition finished (h : history) (s : Stream) : Prop :=
  ended h s /\ connected s = true /\ total (buf s) = limit.

Lemma OnDataAvailable_spec h s : active h s -> roomy s -> ignores s = false ->
  terminates_in (OnDataAvailable multiplied s) (fun _ s' =>
    if decide (stop_at s = limit /\ SequencerBuffer.FirstMissingByte (buf s) = limit)
    then finished h s' else reading h s').
Proof using Hlimit.
  intros Ha Hroom Hi. pose proof (cm_holds _ _ (ac_common _ _ Ha)) as Hh.
  unfold OnDataAvailable. apply total_get, total_bind. fold (buf s).
  eapply total_mono; [apply (deliver_spec h (stop_at s) (SequencerBuffer.FirstMissingByte (buf s)))|].
  { by split_and!. }
  { rewrite (readable sent limit _ Hh). unfold unread. lia. }
  intros ? s1 ((Ha1 & Hr1 & Hi1 & Est & Efm) & Hu1). pose proof (ac_common _ _ Ha1) as Hcm1.
  assert (total (buf s1) = SequencerBuffer.FirstMissingByte (buf s)) as Et by (unfold unread in Hu1; lia).
  apply total_get. rewrite <- Et, <- Est. pose proof (IsClosed_spec h s1 Hcm1) as Hcl.
  destruct (IsClosed (sequencer_ s1)) eqn:Ecl.
  - eapply (total_mono _ (fun _ s' => finished h s')); [|intros ? s'; by rewrite decide_True by by apply Hcl].
    destruct (proj1 Hcl eq_refl) as [Es1 Et1]. cbn [when]. apply total_bind.
    eapply total_mono; [apply (the_end_is_given h s1 Hcm1)|].
    + apply Ha1.
    + intros Hr. by rewrite (ac_open _ _ Ha1) in Hr.
    + intros _. rewrite (ac_given _ _ Ha1 Hi1), Et1. split; [done|]. split.
      * intros v Hv. apply (cm_cover _ _ Hcm1 Hi1), (cm_holds _ _ Hcm1). lia.
      * destruct (cm_close _ _ Hcm1) as [E|[_ Hf]]; [|done]. rewrite E in Es1. unfold kMaxOffset in Es1. lia.
    + intros ? s2 (He & Hc & Et2). apply total_modify. split; [|split; [done|]].
      * apply ended_event; [done|done|apply app_nil_r|done].
      * change (total (buf s2) = limit). lia.
  - cbn [when terminates_in mret M_ret]. rewrite decide_False by (intros H; apply Hcl in H; done).
    split; [done|done|done|].
    intros Es. pose proof (so_buffer _ _ _ (cm_sound _ _ Hcm1)) as [_ Ht].
    destruct (Z.eq_dec (total (buf s1)) limit); [|lia]. assert (false = true) by by apply Hcl. done.
Qed.

Lemma MaybeCloseStream_spec h s : active h s -> roomy s -> unread (buf s) = 0 ->
  terminates_in (MaybeCloseStream multiplied s) (fun _ s' =>
    (finished h s' /\ received (buf s') = IntervalSet.AddRange 0 limit []) \/ (reading h s' /\ s' = s)).
Proof using Hlimit.
  intros Ha Hroom Hu. pose proof (ac_common _ _ Ha) as Hcm. pose proof (IsClosed_spec h s Hcm) as Hcl.
  unfold MaybeCloseStream. apply total_get. rewrite (proj1 (cm_modes _ _ Hcm)). cbn [orb].
  destruct (IsClosed (sequencer_ s)) eqn:Ecl; cbn [negb].
  - destruct (proj1 Hcl eq_refl) as [Es Et]. apply total_bind.
    eapply (total_mono _ (fun _ s' => finished h s')).
    + destruct (ignores s) eqn:Ei.
      * eapply total_mono; [apply (the_end_is_given h s Hcm); [apply Ha| |]|].
        -- intros Hr. by rewrite (ac_open _ _ Ha) in Hr.
        -- congruence.
        -- intros ? s' (H1 & H2 & H3). split; [done|]. split; [done|]. lia.
      * eapply total_mono; [by apply OnDataAvailable_spec|]. intros ? s'.
        cbv beta. rewrite decide_True; [done|]. split; [done|]. unfold unread in Hu. lia.
    + intros ? s' (He & Hc & Et'). apply total_bind. eapply total_mono; [by apply clear_ended|].
      intros ? s2 (He2 & El & Er & Et2). left. rewrite Er, Et'. split; [|done]. split; [done|].
      split; [|lia]. unfold look in El. simpl in El. congruence.
  - right. split; [|done]. split; [done|done|done|]. intros Es.
    pose proof (so_buffer _ _ _ (cm_sound _ _ Hcm)) as [_ Ht].
    destruct (Z.eq_dec (total (buf s)) limit); [|lia]. assert (false = true) by by apply Hcl. done.
Qed.
(** ** Shutting down *)

Lemma FlushBufferedFrames_active h s : active h s -> roomy s -> ignores s = true ->
  terminates_in (ReceiveStream.FlushBufferedFrames multiplied s) (fun _ s' => good h s').
Proof using Hlimit.
  intros Ha Hroom Hi. pose proof (ac_common _ _ Ha) as Hcm. pose proof (cm_holds _ _ Hcm) as Hh.
  pose proof (so_buffer _ _ _ (cm_sound _ _ Hcm)) as [Ecap Hlt].
  unfold ReceiveStream.FlushBufferedFrames. apply total_bind, total_zoom.
  cbn [view buffer_lens]. change (buffered_frames_ (sequencer_ s)) with (buf s).
  eapply total_mono; [by apply (FlushBufferedFrames_spec sent limit)|].
  intros n b (-> & Hb & Et & Ec & Er). pose proof (next_expected sent limit _ Hh) as Hne.
  change (put buffer_lens b s) with (took_out s b (events s)). apply total_bind.
  assert (forall c, controller (flow s) (id_ s) = Some c -> total b <= highest c) as Hhigh.
  { intros c Hc. rewrite Et. destruct (decide (received (buf s) = [])) as [E|E].
    - unfold SequencerBuffer.NextExpectedByte. rewrite E. simpl.
      pose proof (unread_high h s 0 Ha ltac:(pose proof (unread_nonneg sent limit _ Hh); lia) c Hc) as Hx.
      rewrite (ac_consumed _ _ Ha c Hc) in Hx. pose proof (h_total _ _ _ Hh). lia.
    - destruct (last_member sent limit _ Hh E) as [Hl _]. pose proof (ac_high _ _ Ha c _ Hc Hl). lia. }
  eapply total_mono.
  { apply (spent h s b (events s) _ Ha Hroom); [lia|done|congruence|lia|done| | |apply Hcm|apply Ha|by left|].
    - intros v. rewrite Er, Et. intros ?%member_one_range. right. lia.
    - congruence.
    - congruence. }
  intros ? s1 (Ha1 & Hr1 & f & ->). apply total_bind.
  eapply total_mono; [apply (MaybeCloseStream_spec h _ Ha1 Hr1)|].
  - change (unread b = 0). by apply (unread_one_range sent limit).
  - intros ? s2 [[[? _] _]|[? _]]; [by right|by left].
Qed.

Lemma StopReading_reading h s : reading h s -> shut h ->
  terminates_in (ReceiveStream.StopReading multiplied s) (fun _ s' => good h s').
Proof using Hlimit.
  intros Hrd Hsh. pose proof Hrd as [Ha Hroom Hu _]. unfold ReceiveStream.StopReading. apply total_get.
  destruct (ignores s) eqn:Ei; [by left|]. apply total_bind, total_modify.
  apply FlushBufferedFrames_active; [|done|done]. destruct Ha as [[C1 C2 C3 C4 C5 C6 C7 C8 C9] A2 A3 A4 A5 A6 A7 A8 A9 A10].
  split; auto. split; auto. eapply sound_same; [exact C1|done..|]. apply C1.
Qed.

Lemma drained_next b : drained sent limit b -> SequencerBuffer.NextExpectedByte b = total b.
Proof using Hlimit.
  intros [Hh Hm]. pose proof (next_expected sent limit b Hh) as [H _].
  destruct (decide (received b = [])) as [E|E].
  - unfold SequencerBuffer.NextExpectedByte in *. rewrite E in *. simpl in *. pose proof (h_total _ _ _ Hh). lia.
  - destruct (last_member sent limit _ Hh E) as [Hl _]. apply Hm in Hl. lia.
Qed.

(** A shutdown after the end changes nothing but that the end is told again. *)
Lemma StopReading_ended h s : ended h s -> connected s = true -> shut h ->
  terminates_in (ReceiveStream.StopReading multiplied s) (fun _ s' => ended h s').
Proof using Hlimit.
  intros He Hconn Hsh. unfold ReceiveStream.StopReading. apply total_get.
  destruct (ignores s) eqn:Ei; [done|]. apply total_bind, total_modify. set (s1 := with_sequencer _ _).
  assert (ended h s1) as [H1 H2 H3 H4 H5 H6].
  { destruct He as [[C1 C2 C3 C4 C5 C6 C7 C8 C9] E2 E3 E4 E5 E6]. split; auto; try done. split; auto; try done.
    eapply sound_same; [exact C1|done..|]. apply C1. }
  pose proof H3 as [Hh _]. pose proof (so_buffer _ _ _ (cm_sound _ _ H1)) as [Ecap _].
  unfold ReceiveStream.FlushBufferedFrames. apply total_bind, total_zoom.
  cbn [view buffer_lens]. change (buffered_frames_ (sequencer_ s1)) with (buf s1).
  eapply total_mono; [by apply (FlushBufferedFrames_spec sent limit)|].
  intros n b (-> & Hb & Et & Ec & Er). rewrite (drained_next _ H3) in *. rewrite Z.sub_diag.
  set (s2 := put buffer_lens b s1).
  assert (common h s2) as Hc2.
  { apply drained_common; [|split; [done|]]; cycle 1.
    { intros v. change (buf s2) with b. rewrite Er. intros ?%member_one_range. lia. }
    apply common_shell in H1 as [S1 S2 S3 S4 S5 S6 S7 S8]. split; auto; try done.
    eapply sound_same; [exact S1|done..|]. split; change (buf s2) with b; [congruence|]. rewrite Et. apply S1. }
  pose proof (cm_sound _ _ Hc2) as Hs2. pose proof Hs2 as [Hid _ _ (c & k & Hf)].
  apply total_bind. eapply total_mono.
  { apply (AddBytesConsumed_closed limit Hlimit multiplied (in_map s2) s2 c k 0); [done|done|done|lia| |by right].
    pose proof (f_receiver _ (fl_ok _ _ _ _ _ Hf) _ _ (fl_k _ _ _ _ _ Hf)) as []. lia. }
  intros ? s3 [[f ->] Hok (c' & Hc' & F1 & F2 & F3 & F4) (k' & Hk' & G1 & G2 & G3 & G4)].
  assert (common h (with_flow s2 f)) as Hc3.
  { destruct Hc2 as [[_ Y2 Y3 _] C2 C3 C4 C5 C6 C7 C8 C9]. split; auto. split; auto. exists c', k'. simpl in *.
    destruct Hf as [? ? ? Hsz Hrd Hhi Ho Hloc Htd]. split; simpl; try done; try lia.
    - destruct (in_map s); lia.
    - intros x Hx. rewrite F2. by apply Hloc.
    - unfold todo in *. simpl in *. rewrite F2, G2. exact Htd. }
  assert (drained sent limit (buf (with_flow s2 f))) as Hd3.
  { change (buf (with_flow s2 f)) with b. split; [done|]. rewrite Er. intros v ?%member_one_range. lia. }
  apply total_bind. unfold MaybeCloseStream. apply total_get.
  destruct (_ || _); [by split; auto|]. apply total_bind. change (ignores (with_flow s2 f)) with true. cbv iota.
  eapply total_mono; [apply (the_end_is_given h _ Hc3); [done|done|done]|].
  intros ? s4 (He4 & _ & _). apply total_bind. eapply total_mono; [by apply clear_ended|]. by intros ? s5 [? _].
Qed.
(** ** A frame *)

Variables quic_fast_path_on_stream_data quic_stream_too_long : bool.

Definition with_data (h : history) (o : Z) (data : list Z) : history :=
  {| arrived v := arrived h v \/ o <= v < o + Z.of_nat (length data); fin_seen := fin_seen h;
     rst_seen := rst_seen h; shut := shut h; dropped := dropped h |}.

Lemma extends_data h o data : extends h (with_data h o data).
Proof using. split; simpl; auto. Qed.

(** The clock was read. *)
Lemma flows_clock o s f c k : flows limit o s c k -> FlowController.controllers f = FlowController.controllers (flow s) ->
  flows limit o (with_flow s f) c k.
Proof using.
  intros [[R S] ? ? ? ? ? ? ? ?] E. split; simpl; rewrite ?E; try done. split; rewrite E; done.
Qed.

Lemma active_clock h s f : active h s -> FlowController.controllers f = FlowController.controllers (flow s) ->
  active h (with_flow s f).
Proof using.
  intros [[[Y1 Y2 Y3 (c & k & Y4)] C2 C3 C4 C5 C6 C7 C8 C9] A2 A3 A4 A5 A6 A7 A8 A9 A10] E.
  split; auto; simpl; rewrite ?E; auto. split; auto. split; auto. exists c, k. by apply flows_clock.
Qed.

Lemma roomy_clock s f : roomy s -> FlowController.controllers f = FlowController.controllers (flow s) ->
  roomy (with_flow s f).
Proof using. intros H E. unfold roomy. simpl. by rewrite E. Qed.

(** The buffer took the frame. *)
Lemma active_frame h s b o data : active h s -> holds sent limit b -> cap b = cap (buf s) ->
  total b = total (buf s) ->
  (forall v, member v (received b) <-> member v (received (buf s)) \/ o <= v < o + Z.of_nat (length data)) ->
  (data <> [] -> forall c, controller (flow s) (id_ s) = Some c -> o + Z.of_nat (length data) <= highest c) ->
  active (with_data h o data) (put buffer_lens b s).
Proof using.
  intros [[C1 C2 C3 C4 C5 C6 C7 C8 C9] A2 A3 A4 A5 A6 A7 A8 A9 A10] Hh Ec Et Hm Hhigh.
  assert (buf (put buffer_lens b s) = b) as Eb by done.
  split; rewrite ?Eb, ?Et; auto.
  - split; rewrite ?Eb; auto.
    + eapply sound_same; [exact C1|done..|]. destruct (so_buffer _ _ _ C1) as [? ?].
      split; rewrite Eb; [congruence|by rewrite Et].
    + intros Hi v [Hv|Hv]%Hm; [left; by apply C7|by right].
  - intros c v Hc [Hv|Hv]%Hm; [by apply (A6 c)|].
    assert (data <> []) as Hne by (intros ->; simpl in Hv; lia). pose proof (Hhigh Hne c Hc). lia.
  - intros Hi v [Hv|Hv]; apply Hm; [left; by apply A9|by right].
Qed.

(** A frame that brought nothing new leaves nothing new to read. *)
Lemma duplicate_unread b b' : holds sent limit b -> holds sent limit b' -> total b' = total b ->
  (forall v, member v (received b) -> member v (received b')) -> count (received b') <= count (received b) ->
  unread b = 0 -> unread b' = 0.
Proof using.
  intros Hh Hh' Et Hsub Hc Hu. unfold unread in *.
  destruct (first_missing sent limit b Hh) as (_ & _ & Hmiss & _).
  destruct (first_missing sent limit b' Hh') as (Hle & Hread & _ & _). pose proof (h_total _ _ _ Hh).
  destruct (Z.eq_dec (SequencerBuffer.FirstMissingByte b') (total b')); [lia|].
  pose proof (Hread (total b') ltac:(lia)) as Hin.
  assert (SequencerBuffer.FirstMissingByte b = total b') as Ef by lia. rewrite Ef in Hmiss.
  pose proof (count_less (received b) (received b') _ (h_valid _ _ _ Hh) Hsub Hin Hmiss). lia.
Qed.

Lemma frame_buffered_spec h s : active h s -> roomy s -> (stop_at s = limit -> total (buf s) < limit) ->
  terminates_in (frame_buffered multiplied 0 s) (fun _ s' => good h s').
Proof using Hlimit.
  intros Ha Hroom Hmore. pose proof (ac_common _ _ Ha) as Hcm. destruct (cm_modes _ _ Hcm) as [E1 E2].
  pose proof (cm_holds _ _ Hcm) as Hh. pose proof (unread_nonneg sent limit _ Hh) as Hu.
  unfold frame_buffered. apply total_get. rewrite E1, E2. cbn [Z.eqb andb]. fold (buf s).
  rewrite (readable sent limit _ Hh). fold (unread (buf s)). apply total_when; intros Hr.
  - destruct (ignores s) eqn:Ei; [by apply FlushBufferedFrames_active|].
    eapply total_mono; [by apply OnDataAvailable_spec|]. intros ? s'. cbv beta.
    case_decide; [intros [? _]; by right|by left].
  - left. split; [done|done| |done]. rewrite Z.gtb_ltb in Hr. apply Z.ltb_ge in Hr. lia.
Qed.

Lemma room_for_frame h s o (data : list Z) : active h s -> roomy s -> data <> [] ->
  (data <> [] -> forall c, controller (flow s) (id_ s) = Some c -> o + Z.of_nat (length data) <= highest c) ->
  o + Z.of_nat (length data) <= total (buf s) + cap (buf s).
Proof using.
  intros Ha Hroom Hne Hhigh. pose proof (cm_sound _ _ (ac_common _ _ Ha)) as [_ _ [-> _] (c & k & Hf)].
  destruct (Hroom c k (fl_c _ _ _ _ _ Hf) (fl_k _ _ _ _ _ Hf)) as [Hw _].
  pose proof (f_receiver _ (fl_ok _ _ _ _ _ Hf) _ _ (fl_c _ _ _ _ _ Hf)) as [].
  pose proof (Hhigh Hne c (fl_c _ _ _ _ _ Hf)). rewrite <- (ac_consumed _ _ Ha c (fl_c _ _ _ _ _ Hf)).
  pose proof (fl_size _ _ _ _ _ Hf). lia.
Qed.
Lemma buffer_frame_reading h s o data : active h s -> roomy s -> unread (buf s) = 0 ->
  (stop_at s = limit -> total (buf s) < limit) ->
  0 <= o -> o + Z.of_nat (length data) <= limit -> carries sent o data ->
  (data <> [] -> forall c, controller (flow s) (id_ s) = Some c -> o + Z.of_nat (length data) <= highest c) ->
  terminates_in (buffer_frame quic_fast_path_on_stream_data multiplied o data s)
    (fun _ s' => good (with_data h o data) s').
Proof using Hlimit.
  intros Ha0 Hroom0 Hu Hmore Ho Hl Hd Hhigh. pose proof (cm_holds _ _ (ac_common _ _ Ha0)) as Hh.
  unfold buffer_frame. apply total_get, total_bind, total_zoom. fold (buf s).
  rewrite (readable sent limit _ Hh). fold (unread (buf s)). rewrite Hu.
  cbn [terminates_in FlowController.ApproximateNow view flow_lens put].
  set (f := {| FlowController.controllers := _ |}).
  assert (active h (with_flow s f)) as Ha by by apply active_clock.
  assert (roomy (with_flow s f)) as Hroom by by apply roomy_clock.
  set (s1 := with_flow s f) in *. set (h' := with_data h o data) in *.
  pose proof (common_extends h h' s1 (extends_data h o data) (ac_common _ _ Ha)) as Hcm'.
  apply total_bind, total_zoom. cbn [view buffer_lens]. change (buffered_frames_ (sequencer_ s1)) with (buf s).
  eapply total_mono; [by apply (OnStreamData_spec sent limit)|]. intros r b He. unfold frame_effect in He.
  case_decide as Hdata.
  { destruct He as [-> ->]. eapply total_mono; [apply (abort_active h'); try apply Ha|by right].
    - by apply common_shell, (common_look _ s1).
    - right. left. }
  pose proof (room_for_frame h s o data Ha0 Hroom0 Hdata Hhigh).
  destruct (Z.gtb_spec (o + Z.of_nat (length data)) (total (buf s) + cap (buf s))); [lia|].
  destruct (_ >=? _).
  { destruct He as (-> & Ec & Et). eapply total_mono; [apply (abort_active h'); try apply Ha|by right].
    - apply common_shell in Hcm' as [S1 S2 S3 S4 S5 S6 S7 S8]. split; auto.
      + eapply sound_same; [exact S1|done..|]. destruct (so_buffer _ _ _ S1) as [B1 B2].
        split; change (buf (put buffer_lens b s1)) with b; change (buf s1) with (buf s) in *; [congruence|by rewrite Et].
      + change (buf (put buffer_lens b s1)) with b. rewrite Et. exact S6.
    - right. right. left. }
  destruct He as (-> & Hb & Ec & Et & Er). cbn [fst snd Z.eqb QUIC_NO_ERROR negb].
  assert (forall v, member v (received b) <-> member v (received (buf s)) \/ o <= v < o + Z.of_nat (length data)) as Hm.
  { intros v. rewrite Er. destruct (frame_added sent limit (buf s) o data Hh) as [_ ->]. unfold within. simpl. tauto. }
  pose proof (active_frame h s1 b o data Ha Hb Ec Et Hm Hhigh) as Ha'.
  set (s2 := put buffer_lens b s1) in *. rewrite <- Er.
  assert (stop_at s2 = limit -> total (buf s2) < limit) as Hmore2 by (change (buf s2) with b; rewrite Et; exact Hmore).
  destruct (Z.eqb_spec (count (received b) - count (received (buf s))) 0) as [E0|_]; [|by apply frame_buffered_spec].
  apply total_modify. left. apply (reading_look h' s2); [done|]. split; [done|done| |done].
  apply (duplicate_unread (buf s) b); [done|done|done| |lia|done]. intros v Hv. apply Hm. by left.
Qed.
(** Data that comes with the end of a stream that was already read to its end *)
Lemma buffer_frame_finished h s o data : finished h s -> data <> [] ->
  0 <= o -> o + Z.of_nat (length data) <= limit -> carries sent o data ->
  terminates_in (buffer_frame quic_fast_path_on_stream_data multiplied o data s) (fun _ s' => ended h s').
Proof using Hlimit.
  intros ([H1 H2 [Hh Hdr] H4 H5 H6] & Hconn & Et) Hne Ho Hl Hd.
  unfold buffer_frame. apply total_get, total_bind, total_zoom.
  cbn [terminates_in FlowController.ApproximateNow view flow_lens put].
  set (f := {| FlowController.controllers := _ |}).
  apply total_bind, total_zoom. cbn [view buffer_lens].
  change (buffered_frames_ (sequencer_ (with_flow s f))) with (buf s).
  eapply total_mono; [by apply (OnStreamData_spec sent limit)|]. intros r b He. unfold frame_effect in He.
  pose proof (h_cap _ _ _ Hh). pose proof kBlock_pos.
  assert (IntervalSet.AddRange o (o + Z.of_nat (length data)) (received (buf s)) = received (buf s)) as Er.
  { destruct (frame_added sent limit (buf s) o data Hh) as [Hv Hm]. apply valid_canonical; [done|apply Hh|].
    intros v. rewrite Hm. unfold within. simpl. split; [|by right]. intros [Hw|?]; [|done].
    apply (h_read _ _ _ Hh). lia. }
  rewrite Er, decide_False in He by done.
  destruct (Z.gtb_spec (o + Z.of_nat (length data)) (total (buf s) + cap (buf s))); [lia|].
  destruct (Z.geb_spec (Z.of_nat (length (received (buf s)))) SequencerBuffer.kMaxNumDataIntervalsAllowed).
  { pose proof (h_few _ _ _ Hh). lia. }
  destruct He as (-> & Hb & Ec & Et' & Er'). cbn [fst snd Z.eqb QUIC_NO_ERROR negb].
  rewrite Z.sub_diag. cbn [Z.eqb]. apply total_modify.
  eapply (ended_look h (put buffer_lens b (with_flow s f))); [done|].
  assert (drained sent limit b) as Hd' by (split; [done|]; intros v; rewrite Er', Et'; apply Hdr).
  split; auto. apply drained_common; [|done].
  apply common_shell in H1 as [[Y1 Y2 [Y3 Y3'] (c & k & Y4)] S2 S3 S4 S5 S6 S7 S8]. split; auto.
  - split; [done|done| |].
    + split; change (buf (put buffer_lens b (with_flow s f))) with b; [congruence|by rewrite Et'].
    + exists c, k. eapply flows_same; [by apply (flows_clock _ s f)|done..].
  - change (buf (put buffer_lens b (with_flow s f))) with b. by rewrite Et'.
Qed.

(** The end was announced. *)
Definition with_fin (h : history) (fin : bool) : history :=
  {| arrived := arrived h; fin_seen := fin_seen h \/ fin = true; rst_seen := rst_seen h; shut := shut h; dropped := dropped h |}.

Lemma extends_fin h fin : extends h (with_fin h fin).
Proof using. split; simpl; auto. Qed.

Lemma active_equiv h h' s : extends h h' -> (forall v, arrived h' v -> arrived h v) ->
  (fin_seen h' -> stop_at s = limit) -> active h s -> active h' s.
Proof using.
  intros He Ha Hf [A1 A2 A3 A4 A5 A6 A7 A8 A9 A10]. split; auto. by eapply common_extends.
Qed.

Lemma CloseStreamAtOffset_spec h s : reading h s ->
  terminates_in (CloseStreamAtOffset multiplied limit s) (fun _ s' =>
    finished (with_fin h true) s' \/ reading (with_fin h true) s' /\ flow s' = flow s /\ id_ s' = id_ s).
Proof using Hlimit.
  intros [Ha Hroom Hu Hmore]. unfold CloseStreamAtOffset. apply total_get.
  assert (negb (stop_at s =? kMaxOffset) && negb (limit =? stop_at s) = false) as ->.
  { destruct (cm_close _ _ (ac_common _ _ Ha)) as [-> | [-> _]]; [done|]. rewrite Z.eqb_refl. apply andb_false_r. }
  apply total_bind, total_modify. set (s1 := with_sequencer _ _).
  assert (active (with_fin h true) s1) as Ha1.
  { destruct Ha as [[C1 C2 C3 C4 C5 C6 C7 C8 C9] A2 A3 A4 A5 A6 A7 A8 A9 A10]. split; auto.
    split; auto; [|right; split; [done|by right]]. eapply sound_same; [exact C1|done..|]. apply C1. }
  apply total_bind. eapply total_mono; [by apply (MaybeCloseStream_spec (with_fin h true) s1)|].
  intros ? s2 [[? _]|[? ->]]; [by left|by right].
Qed.

Lemma sequencer_OnStreamFrame_spec h s o data fin : reading h s ->
  0 <= o -> o + Z.of_nat (length data) <= limit -> carries sent o data ->
  (fin = true -> o + Z.of_nat (length data) = limit) ->
  (data <> [] -> forall c, controller (flow s) (id_ s) = Some c -> o + Z.of_nat (length data) <= highest c) ->
  terminates_in (sequencer_OnStreamFrame quic_fast_path_on_stream_data multiplied o data fin s)
    (fun _ s' => good (with_data (with_fin h fin) o data) s').
Proof using Hlimit.
  intros Hrd0 Ho Hl Hd Hfin Hhigh. unfold sequencer_OnStreamFrame. apply total_bind, total_modify.
  set (s1 := with_sequencer _ _). assert (reading h s1) as Hrd by by apply (reading_look h s).
  set (h1 := with_fin h fin). apply total_bind.
  eapply (total_mono _ (fun _ s' => finished h1 s' /\ fin = true \/
    reading h1 s' /\ flow s' = flow s /\ id_ s' = id_ s)).
  { apply total_when; intros Ef.
    - assert (uint64 (o + Z.of_nat (length data)) = limit) as ->.
      { rewrite (Hfin Ef). apply uint64_small. lia. }
      eapply total_mono; [by apply (CloseStreamAtOffset_spec h)|]. unfold h1. rewrite Ef.
      intros ? s2 [?|?]; [by left|by right].
    - right. split; [|done]. destruct Hrd as [Ha R2 R3 R4]. split; auto.
      eapply active_equiv; [apply extends_fin|done| |done]. simpl. intros [?|?]; [by apply Ha|congruence]. }
  intros ? s2 H2. destruct (fin && (Z.of_nat (length data) =? 0)) eqn:Ez.
  - apply andb_true_iff in Ez as [_ Ez]. apply Z.eqb_eq in Ez.
    assert (extends h1 (with_data h1 o data)) as Hx by apply extends_data.
    destruct H2 as [[[H2 _] _]|[[Ha R2 R3 R4] _]]; [right; by eapply ended_extends|]. left. split; auto.
    eapply active_equiv; [done| | |done]; simpl; [intros v [?|?]; [done|lia]|apply Ha].
  - destruct H2 as [[Hf Efin]|[[Ha R2 R3 R4] [Ef Ei]]].
    + assert (data <> []) as Hne by (intros ->; rewrite Efin in Ez; done).
      eapply total_mono; [by apply (buffer_frame_finished h1)|]. intros ? s3 He. right.
      eapply ended_extends; [apply extends_data|done].
    + apply buffer_frame_reading; auto. by rewrite Ef, Ei.
Qed.
(** ** Counting what was received *)

Lemma set_highest_ok f i c x : flow_ok f -> controller f i = Some c ->
  flow_ok (FlowController.set_controllers (<[i := FlowController.set_highest c x]> (FlowController.controllers f)) f).
Proof using.
  intros Hf Hc. apply (replace_ok i c (FlowController.set_highest c x) f); auto.
  destruct (f_receiver f Hf i c Hc). by split.
Qed.

Lemma UpdateHighest_run f i c x : controller f i = Some c ->
  FlowController.UpdateHighestReceivedOffset i x f =
  if x <=? highest c then Ret false f
  else Ret true (FlowController.set_controllers (<[i := FlowController.set_highest c x]> (FlowController.controllers f)) f).
Proof using.
  intros Hc. unfold FlowController.UpdateHighestReceivedOffset. rewrite (run_self i c) by done.
  destruct (x <=? highest c); [done|]. by rewrite (run_update i c).
Qed.

Lemma raise s x : sound limit true s -> in_map s = true -> 0 <= x <= limit ->
  terminates_in (MaybeIncreaseHighestReceivedOffset x s) (fun up s' => exists f, s' = with_flow s f /\
    sound limit true s' /\ (up = false -> f = flow s) /\
    forall c', controller f (id_ s) = Some c' -> exists c, controller (flow s) (id_ s) = Some c /\
      consumed c' = consumed c /\ highest c' = Z.max (highest c) x).
Proof using Hlimit.
  intros [Hid Hct Hb (c & k & Hf)] Hm Hx. pose proof Hf as [Hok Hc Hk Hsz Hrd Hhi Ho Hloc Htd].
  unfold todo in Htd. unfold MaybeIncreaseHighestReceivedOffset. apply total_get. apply total_bind.
  rewrite (flow_controller_run s c) by done. cbn [terminates_in]. apply total_bind, total_zoom.
  cbn [view flow_lens]. rewrite (UpdateHighest_run _ _ c) by done.
  assert (with_flow s (flow s) = s) as Es by by destruct s.
  destruct (Z.leb_spec x (highest c)) as [Hle|Hgt]; cbn [terminates_in put flow_lens negb].
  { exists (flow s). rewrite Es. split; [done|]. split; [by split; auto; exists c, k|]. split; [done|].
    intros c' Hc'. exists c'. split; [done|]. assert (c' = c) as -> by congruence. split; [done|lia]. }
  set (f1 := FlowController.set_controllers _ (flow s)). rewrite Hct. apply total_bind, total_bind.
  assert (controller f1 (id_ s) = Some (FlowController.set_highest c x)) as Hc1 by apply lookup_insert_eq.
  assert (controller f1 FlowController.kConnectionLevelId = Some k) as Hk1 by (unfold f1; simpl; by rewrite lookup_insert_ne).
  pose proof (f_receiver _ Hok _ _ Hk) as Rk.
  assert (connection_flow_controller_ (with_flow s f1) = Ret k (with_flow s f1)) as ->.
  { unfold connection_flow_controller_, zoom, FlowController.self, get, deref, mbind, M_bind. simpl in *. by rewrite Hk1. }
  cbn [terminates_in]. apply total_bind, total_zoom. cbn [view flow_lens].
  change (flow (with_flow s f1)) with f1. rewrite (UpdateHighest_run f1 _ k) by done.
  rewrite (uint64_small (x - _)) by lia. destruct Rk. rewrite uint64_small by lia.
  destruct (Z.leb_spec (highest k + (x - highest c)) (highest k)); [lia|]. cbn [terminates_in put flow_lens].
  set (f2 := FlowController.set_controllers _ f1). exists f2. split; [done|].
  assert (controller f2 (id_ s) = Some (FlowController.set_highest c x)) as Hc2
    by (unfold f2; simpl; by rewrite lookup_insert_ne).
  assert (controller f2 FlowController.kConnectionLevelId =
    Some (FlowController.set_highest k (highest k + (x - highest c)))) as Hk2 by apply lookup_insert_eq.
  split; [|split; [done|]].
  - split; [done|done|done|]. eexists _, _. split; [|exact Hc2|exact Hk2|..]; unfold todo; simpl; try done; try lia.
    + apply set_highest_ok; [|done]. by apply set_highest_ok.
    + intros h Hh%Hloc. destruct Hh. congruence.
  - intros c' Hc'. exists c. split; [done|].
    assert (c' = FlowController.set_highest c x) as -> by congruence. split; [done|]. simpl. lia.
Qed.

(** The highest offset was raised. *)
Lemma common_flow h s f : common h s -> sound limit (in_map s) (with_flow s f) -> common h (with_flow s f).
Proof using. intros [C1 C2 C3 C4 C5 C6 C7 C8 C9] Hs. by split. Qed.

Lemma active_raised h s f x : active h s -> sound limit true (with_flow s f) ->
  (forall c', controller f (id_ s) = Some c' -> exists c, controller (flow s) (id_ s) = Some c /\
    consumed c' = consumed c /\ highest c' = Z.max (highest c) x) -> active h (with_flow s f).
Proof using.
  intros [A1 A2 A3 A4 A5 A6 A7 A8 A9 A10] Hs Hb. split; auto.
  - apply common_flow; [done|]. by rewrite A3.
  - intros c' (c & Hc & E1 & _)%Hb. simpl. rewrite E1. by apply A5.
  - intros c' v (c & Hc & _ & E2)%Hb Hv. pose proof (A6 c v Hc Hv). lia.
Qed.

Lemma ended_flow h s f : ended h s -> sound limit (in_map s) (with_flow s f) -> ended h (with_flow s f).
Proof using. intros [E1 E2 E3 E4 E5 E6] Hs. split; auto. by apply common_flow. Qed.

Lemma violation_roomy s : sound limit true s -> violation s = Ret false s -> roomy s.
Proof using.
  intros [_ _ _ (c & k & Hf)] Hv c' k' Hc' Hk'. rewrite (violation_run s c' k') in Hv by done.
  injection Hv as Hv. apply orb_false_iff in Hv as [V1 V2]. unfold FlowController.FlowControlViolation in *.
  rewrite Z.gtb_ltb in V1, V2. apply Z.ltb_ge in V1, V2. done.
Qed.

Lemma violation_ret s : (exists c k, controller (flow s) (id_ s) = Some c /\
    controller (flow s) FlowController.kConnectionLevelId = Some k) -> exists v, violation s = Ret v s.
Proof using. intros (c & k & Hc & Hk). rewrite (violation_run s c k) by done. by eexists. Qed.
(** ** The handlers *)

Lemma sound_lookups o s : sound limit o s -> exists c k, controller (flow s) (id_ s) = Some c /\
  controller (flow s) FlowController.kConnectionLevelId = Some k.
Proof using. intros [_ _ _ (c & k & Hf)]. exists c, k. split; apply Hf. Qed.

Definition with_frame (h : history) (o : Z) (data : list Z) (fin : bool) : history :=
  with_data (with_fin h fin) o data.

Lemma extends_frame h o data fin : extends h (with_frame h o data fin).
Proof using. split; simpl; auto. Qed.

(** The FIN flag and the byte count are noted. *)
Lemma noted fin s : let n := (when fin
      (on_sides (fun d => set_fin true (fin_sent_ d) d);; s ← get; when (fin_sent_ (sides s)) StreamDraining)) in
  exists s', n s = Ret tt s' /\ look s' = look s.
Proof using.
  cbv zeta. destruct fin; [|by exists s]. cbn [when].
  unfold mbind, M_bind, on_sides, modify, get, StreamDraining. cbv beta.
  destruct (fin_sent_ _); cbn [when mret M_ret]; eexists; split; done.
Qed.

Lemma not_too_long o (data : list Z) : 0 <= o -> o + Z.of_nat (length data) <= limit ->
  (o >? kMaxStreamLength) || (uint64 (kMaxStreamLength - o) <? Z.of_nat (length data)) = false.
Proof using Hlimit.
  intros Ho Hl. unfold kMaxStreamLength. apply orb_false_iff. rewrite Z.gtb_ltb. split; [apply Z.ltb_ge; lia|].
  rewrite uint64_small by lia. apply Z.ltb_ge. lia.
Qed.

Lemma OnStreamFrame_good h s o data fin : good h s -> connected s = true ->
  0 <= o -> o + Z.of_nat (length data) <= limit -> carries sent o data ->
  (fin = true -> o + Z.of_nat (length data) = limit) ->
  terminates_in (OnStreamFrame quic_fast_path_on_stream_data quic_stream_too_long multiplied o data fin s)
    (fun _ s' => good (with_frame h o data fin) s').
Proof using Hlimit.
  intros Hg Hconn Ho Hl Hd Hfin. unfold OnStreamFrame.
  rewrite (not_too_long o data Ho Hl), andb_false_r. apply total_bind.
  destruct (noted fin s) as (s1 & -> & El). cbn [terminates_in]. apply total_get.
  destruct Hg as [Hrd|He]; cycle 1.
  { pose proof (ended_look h s s1 El He) as He1. rewrite (en_closed _ _ He1). right.
    eapply ended_extends; [apply extends_frame|done]. }
  pose proof (reading_look h s s1 El Hrd) as [Ha1 Hr1 Hu1 Hm1]. rewrite (ac_open _ _ Ha1).
  apply total_bind, total_modify. set (s2 := with_bytes_read _ _).
  assert (reading h s2) as [Ha2 Hr2 Hu2 Hm2] by (apply (reading_look h s1); [done|by split]).
  pose proof (cm_sound _ _ (ac_common _ _ Ha2)) as Hs2. rewrite (ac_map _ _ Ha2) in Hs2.
  apply total_bind.
  eapply (total_mono _ (fun up s' => exists f, s' = with_flow s2 f /\ sound limit true s' /\
    (up = false -> f = flow s2) /\ active h s' /\
    (data <> [] -> forall c, controller f (id_ s2) = Some c -> o + Z.of_nat (length data) <= highest c))).
  { assert (with_flow s2 (flow s2) = s2) as Es by done.
    destruct (Z.gtb_spec (Z.of_nat (length data)) 0).
    - rewrite uint64_small by lia. eapply total_mono; [apply raise; [done|apply Ha2|lia]|].
      intros up s3 (f & -> & Hs3 & Hup & Hb). exists f. split_and!; [done|done|done|by eapply active_raised|].
      intros _ c' (c & _ & _ & E)%Hb. lia.
    - exists (flow s2). rewrite Es. split_and!; [done|done|done|done|]. intros Hne. destruct data; [done|simpl in *; lia]. }
  intros up s3 (f & -> & Hs3 & Hup & Ha3 & Hhigh). apply total_bind.
  eapply (total_mono _ (fun v s' => s' = with_flow s2 f /\ (v = false -> roomy (with_flow s2 f)))).
  { destruct up.
    - destruct (violation_ret _ (sound_lookups _ _ Hs3)) as [v Ev]. rewrite Ev. split; [done|].
      intros ->. by apply violation_roomy.
    - split; [done|]. intros _. by rewrite Hup. }
  intros v s4 [-> Hv]. destruct v.
  - eapply total_mono; [apply (abort_active h); try apply Ha3|].
    + apply common_shell, Ha3.
    + left.
    + intros ? s5 He. right. eapply ended_extends; [apply extends_frame|done].
  - apply sequencer_OnStreamFrame_spec; auto. split; auto.
Qed.
(** What reading and ended streams have in common *)
Record settled (h : history) (s : Stream) : Prop := {
  se_common : common h s;
  se_conn : connected s = true;
  se_drained : read_closed s = true -> drained sent limit (buf s);
  se_map : read_closed s = false -> in_map s = true;
  se_fin : FinRead ∈ events s -> ignores s = false ->
    given (events s) = bytes_from sent 0 limit /\ (forall v, 0 <= v < limit -> arrived h v) /\ fin_seen h
}.

Lemma good_settled h s : good h s -> connected s = true -> settled h s.
Proof using.
  intros [[[A1 A2 A3 A4 A5 A6 A7 A8 A9 A10] _ _ _]|[E1 E2 E3 E4 E5 E6]] Hc.
  - split; auto; [congruence|done].
  - split; auto. congruence.
Qed.

Lemma abort_settled h s e : settled h s -> fine (ConnectionClose e) ->
  terminates_in (CloseConnectionWithDetails multiplied e s) (fun _ s' => ended h s').
Proof using Hlimit. intros [] He. apply abort_spec; auto. by apply common_shell. Qed.

Lemma settled_closes h s s' : settled h s -> closes sent limit (fun s => in_map s) s s' ->
  (read_closed s = false -> read_closed s' = true -> drained sent limit (buf s')) ->
  (read_closed s = false -> read_closed s' = false -> in_map s' = in_map s) -> settled h s'.
Proof using.
  intros [H1 H2 H3 H4 H5] Hcl Hdr Hmap. pose proof (common_closes h s s' H1 Hcl) as H1'.
  pose proof Hcl as [_ C2 _ _ C5 _ C7 _]. apply kept_fields in C2 as (_ & _ & F3 & _ & F5 & F6 & _ & _ & _).
  split; auto.
  - congruence.
  - intros Hr'. destruct (read_closed s) eqn:Er; [|by apply Hdr]. eapply closes_drained; [done|]. by apply H3.
  - intros Hr'. destruct (read_closed s) eqn:Er; [by rewrite C7 in Hr'|]. rewrite Hmap; auto.
  - rewrite F5, F3, C5. exact H5.
Qed.

Lemma settled_ended h s : settled h s -> read_closed s = true ->
  FinRead ∈ events s \/ rst_received_ (sides s) = true \/ dropped h -> ended h s.
Proof using. intros [H1 H2 H3 H4 H5] Hr Hw. split; auto; [destruct Hw as [?|[?|?]]; auto|congruence]. Qed.

Definition with_rst (h : history) : history :=
  {| arrived := arrived h; fin_seen := fin_seen h; rst_seen := True; shut := shut h; dropped := dropped h |}.

Lemma extends_rst h : extends h (with_rst h).
Proof using. by split. Qed.

Lemma settled_extends h h' s : extends h h' -> settled h s -> settled h' s.
Proof using.
  intros E [H1 H2 H3 H4 H5]. split; auto; [by eapply common_extends|]. intros Hf Hi.
  destruct (H5 Hf Hi) as (? & Ha & ?). split; [done|]. split; [|by eapply ex_fin]. intros v Hv. by eapply ex_arrived, Ha.
Qed.

Lemma settled_rst h s : settled h s -> settled (with_rst h) (with_sides s (set_rst true (rst_sent_ (sides s)) (sides s))).
Proof using.
  intros Hs%(settled_extends h (with_rst h)); [|apply extends_rst].
  destruct Hs as [[C1 C2 C3 C4 C5 C6 C7 C8 C9] H2 H3 H4 H5]. split; auto. split; auto; [|done].
  eapply sound_same; [exact C1|done..|]. apply C1.
Qed.

Lemma settled_flow h s f : settled h s -> sound limit (in_map s) (with_flow s f) -> settled h (with_flow s f).
Proof using. intros [H1 H2 H3 H4 H5] Hs. split; auto. by apply common_flow. Qed.

Lemma OnStreamReset_good h s e : good h s -> connected s = true -> in_map s = true ->
  terminates_in (OnStreamReset quic_stream_too_long multiplied limit e s) (fun _ s' => ended (with_rst h) s').
Proof using Hlimit.
  intros Hg Hconn Hm. pose proof (settled_rst h s (good_settled h s Hg Hconn)) as Hs1.
  unfold OnStreamReset. apply total_bind, total_modify. set (s1 := with_sides _ _) in *.
  assert ((limit >? kMaxStreamLength) = false) as ->.
  { rewrite Z.gtb_ltb. apply Z.ltb_ge. unfold kMaxStreamLength. lia. }
  rewrite andb_false_r. apply total_bind.
  pose proof (cm_sound _ _ (se_common _ _ Hs1)) as Hso. change (in_map s1) with (in_map s) in Hso. rewrite Hm in Hso.
  eapply total_mono; [apply (raise s1 limit Hso); [done|lia]|]. intros up s2 (f & -> & Hso2 & _ & _).
  assert (settled (with_rst h) (with_flow s1 f)) as Hs2.
  { apply settled_flow; [done|]. change (in_map s1) with (in_map s). by rewrite Hm. }
  apply total_bind. destruct (violation_ret _ (sound_lookups _ _ Hso2)) as [v Ev]. rewrite Ev. cbn [terminates_in].
  destruct v; [apply abort_settled; [done|left]|].
  apply total_bind, total_modify. set (s3 := with_sides _ _).
  assert (sound limit (in_map s3) s3) as Hso3.
  { change (in_map s3) with (in_map s). rewrite Hm. eapply sound_same; [exact Hso2|done..|]. apply Hso2. }
  assert (settled (with_rst h) s3) as Hs3.
  { destruct Hs2 as [H1 H2 H3 H4 H5]. split; auto. by apply (common_look _ (with_flow s1 f)). }
  apply total_bind. eapply total_mono; [apply (CloseWriteSide_spec sent limit Hlimit multiplied s3 Hso3)|].
  intros ? s4 (Hcl & Hrc).
  eapply total_mono; [apply (CloseReadSide_spec sent limit Hlimit multiplied s4), Hcl|].
  intros ? s5 (Hcl5 & Hr5 & Hd5). pose proof (closes_trans _ _ _ _ _ _ _ Hcl Hcl5) as Hc35.
  apply settled_ended; [|done|].
  - eapply settled_closes; [exact Hs3|exact Hc35| |congruence]. intros Hr3 _. apply Hd5. by apply Hrc.
  - right. left. pose proof (cl_kept _ _ _ _ _ Hc35) as (_ & _ & _ & _ & _ & _ & -> & _)%kept_fields. done.
Qed.

(** Our own FIN was sent. *)
Lemma fin_written_good h s : good h s -> connected s = true ->
  terminates_in (fin_written multiplied s) (fun _ s' => good h s').
Proof using Hlimit.
  intros Hg Hconn. unfold fin_written. apply total_bind, total_modify, total_get, total_bind.
  eapply (total_mono _ (fun _ s' => look s' = look s)).
  { apply total_when; intros _; done. }
  intros ? s1 El.
  assert (good h s1 /\ connected s1 = true) as [Hg1 Hc1].
  { split; [|unfold look in El; congruence].
    destruct Hg; [left; by eapply reading_look|right; by eapply ended_look]. }
  pose proof (good_settled h s1 Hg1 Hc1) as Hs1.
  destruct Hg1 as [Hrd|He].
  - (* the read side is open: only the flag changes *)
    unfold CloseWriteSide, close_write_side. apply total_get. destruct (write_side_closed_ (sides s1)); [by left|].
    apply total_bind, total_modify. rewrite (ac_open _ _ (rd_active _ _ Hrd)). cbn [when]. left.
    apply (reading_look h s1); [|done]. unfold look. simpl. by rewrite (ac_open _ _ (rd_active _ _ Hrd)).
  - eapply total_mono; [apply (CloseWriteSide_spec sent limit Hlimit multiplied s1), Hs1|].
    intros ? s2 (Hcl & _). right. pose proof (en_closed _ _ He) as Hr.
    assert (settled h s2) as Hs2 by (eapply settled_closes; [exact Hs1|exact Hcl|congruence|congruence]).
    pose proof Hcl as [_ C2 _ _ C5 _ C7 _]. apply kept_fields in C2 as (_ & _ & _ & _ & _ & F6 & F7 & _ & _).
    apply settled_ended; [done|by apply C7|]. rewrite C5, F7. destruct (en_why _ _ He) as [?|[?|[?|?]]]; auto. congruence.
Qed.
(** The application closes the stream. *)
Lemma CloseStream_good h s : good h s -> connected s = true -> in_map s = true -> dropped h ->
  terminates_in (CloseStreamInner multiplied false s) (fun _ s' => ended h s').
Proof using Hlimit.
  intros Hg Hconn Hm Hd. pose proof (good_settled h s Hg Hconn) as Hs.
  eapply total_mono; [apply (CloseStreamInner_spec sent limit Hlimit multiplied false s), Hs|].
  intros ? s' (Hcl & Em & Hr & Hdr). apply settled_ended; [|by apply Hr|auto].
  eapply settled_closes; [exact Hs|exact Hcl|auto|]. intros _ Hr'. rewrite Hr in Hr'; done.
Qed.

(** The connection is closed from elsewhere. *)
Lemma TearDown_good h s e : good h s -> connected s = true ->
  terminates_in (TearDownLocalConnectionState multiplied e s) (fun _ s' => ended h s').
Proof using Hlimit.
  intros Hg Hconn. pose proof (good_settled h s Hg Hconn) as [H1 H2 H3 H4 H5].
  eapply total_mono; [apply (TearDown_spec sent limit Hlimit multiplied e s); auto; apply H1|].
  intros ? s' (Hcl & Em & Er & Hdr).
  assert (common h (disconnected s)) as Hc1.
  { destruct H1 as [C1 C2 C3 C4 C5 C6 C7 C8 C9]. split; auto. by apply sound_disconnected. }
  pose proof (common_closes h _ s' Hc1 Hcl) as Hc'. pose proof Hcl as [_ C2 _ _ C5 _ _ _].
  apply kept_fields in C2 as (_ & _ & E3 & _ & E5 & E6 & _ & _ & _). simpl in E3, E5, E6.
  split; [done|done| |by right; right; left; rewrite E6| |done].
  - destruct (read_closed s) eqn:E; [|by apply Hdr]. apply (closes_drained _ _ _ _ _ Hcl). by apply H3.
  - rewrite E5, E3, C5. exact H5.
Qed.

(** The final length of a stream that is gone *)
Lemma abort_gone s e : in_map s = false -> connected s = true ->
  CloseConnectionWithDetails multiplied e s = Ret tt (disconnected (with_event s (ConnectionClose e))).
Proof using.
  intros Hm Hc. unfold CloseConnectionWithDetails, TearDownLocalConnectionState, emit, modify, get, mbind, M_bind.
  simpl. rewrite Hc. simpl. rewrite Hc. simpl. unfold disconnected. simpl. by rewrite Hm.
Qed.

Section FinalOffset.
Variables (h : history) (s : Stream) (c k : Controller).
Context (He : ended h s) (Hconn : connected s = true) (Hmap : in_map s = false).
Context (Hf : flows limit false s c k) (Hlocal : local s = Some (highest c)).

(* what the final length adds, and the connection's controller with it *)
Notation diff := (limit - highest c).
Notation k1 := (FlowController.set_highest k (highest k + diff)).

Lemma final_facts : 0 <= diff /\ highest k + diff <= 2 ^ 61 /\ consumed k <= highest k /\ receiver k.
Proof using Hf Hconn Hlocal.
  destruct Hf as [Hok _ Hk _ Hrd Hhi Ho _ Htd]. unfold todo in Htd. rewrite Hlocal, Hconn in Htd.
  split; [lia|]. split; [exact Htd|]. split; [lia|]. by apply (f_receiver _ Hok _ _ Hk).
Qed.

(** Too much: the connection is closed. *)
Lemma final_too_much f e : flow_ok f -> controller f (id_ s) = Some c ->
  controller f FlowController.kConnectionLevelId = Some k1 -> fine (ConnectionClose e) ->
  ended h (disconnected (with_event (with_flow s f) (ConnectionClose e))).
Proof using Hf Hconn Hlocal He Hmap.
  intros Hok Hc Hk Hfine. destruct final_facts as (D1 & D2 & D3 & _).
  destruct He as [[[Y1 Y2 Y3 _] C2 C3 C4 C5 C6 C7 C8 C9] E2 E3 E4 E5 E6]. destruct Hf as [_ _ _ Hsz Hrd Hhi _ Hloc _].
  split; auto.
  - split; auto; [|by constructor]. split; auto. exists c, k1. simpl. rewrite Hmap.
    split; simpl; auto; [lia|]. unfold todo. simpl. rewrite Hlocal. lia.
  - simpl. intros [[=]|Hfin]%elem_of_cons. by apply E5.
Qed.

(** It fits: the rest of the stream counts as consumed. *)
Lemma final_fits f : flow_ok f -> controller f (id_ s) = Some c ->
  controller f FlowController.kConnectionLevelId = Some k1 -> consumed k + diff <= window k ->
  terminates_in
    ((zoom flow_lens (FlowController.AddBytesConsumed multiplied FlowController.kConnectionLevelId diff);;
      modify (fun s => with_session s
          {| in_dynamic_stream_map := in_map s; in_draining_streams := in_draining_streams (session_ s);
             locally_closed_highest_offset := None; connected_ := connected s |})) (with_flow s f))
    (fun _ s' => ended h s').
Proof using Hf Hconn Hlocal He Hmap Hlimit.
  intros Hok Hc Hk Hw. destruct final_facts as (D1 & D2 & D3 & R). apply total_bind.
  pose proof (so_id _ _ _ (cm_sound _ _ (en_common _ _ He))) as Hid.
  eapply total_mono.
  { apply (consume_connection multiplied (with_flow s f) c k1); simpl; auto; lia. }
  intros ? s1 [[f1 ->] Hok1 (c' & Hc' & F1 & F2 & F3 & F4) (k' & Hk' & G1 & G2 & G3 & G4)].
  apply total_modify. simpl in *. destruct He as [[[Y1 Y2 Y3 _] C2 C3 C4 C5 C6 C7 C8 C9] E2 E3 E4 E5 E6].
  destruct Hf as [_ _ _ Hsz Hrd Hhi _ Hloc _]. split; auto. split; auto. split; auto. exists c', k'. simpl. rewrite Hmap.
  split; unfold todo; simpl; auto; try lia; done.
Qed.
End FinalOffset.

Lemma OnFinalByteOffsetReceived_ended h s : ended h s -> connected s = true -> in_map s = false ->
  terminates_in (OnFinalByteOffsetReceived multiplied limit s) (fun _ s' => ended h s').
Proof using Hlimit.
  intros He Hconn Hmap. pose proof (cm_sound _ _ (en_common _ _ He)) as Hs. rewrite Hmap in Hs.
  pose proof Hs as [Hid _ _ (c & k & Hf)]. pose proof Hf as [Hok Hc Hk _ _ _ _ Hloc _].
  unfold OnFinalByteOffsetReceived. apply total_get. destruct (local s) as [x|] eqn:El; [|done].
  destruct (Hloc x eq_refl) as [-> _]. pose proof (final_facts s c k Hconn Hf El) as (D1 & D2 & D3 & R).
  destruct R. rewrite (uint64_small (limit - highest c)) by lia. apply total_bind.
  assert (forall f k0, controller f FlowController.kConnectionLevelId = Some k0 ->
    connection_flow_controller_ (with_flow s f) = Ret k0 (with_flow s f)) as Hself.
  { intros f k0 H. unfold connection_flow_controller_, zoom, FlowController.self, get, deref, mbind, M_bind. simpl in *. by rewrite H. }
  assert (with_flow s (flow s) = s) as Es by by destruct s.
  pose proof (Hself (flow s) k Hk) as E. rewrite Es in E. rewrite E. cbn [terminates_in].
  apply total_bind, total_zoom. cbn [view flow_lens]. rewrite (UpdateHighest_run _ _ k) by done.
  rewrite uint64_small by lia.
  destruct (Z.leb_spec (highest k + (limit - highest c)) (highest k)) as [Hle|Hgt]; cbn [terminates_in put flow_lens].
  - apply total_bind. cbn [terminates_in mret M_ret]. 
    apply (final_fits h s c k He Hconn Hmap Hf El (flow s) Hok Hc); [|lia].
    rewrite Hk. f_equal. replace (highest k + (limit - highest c)) with (highest k) by lia. by destruct k.
  - set (f1 := FlowController.set_controllers _ (flow s)).
    assert (controller f1 (id_ s) = Some c) as Hc1 by (unfold f1; simpl; by rewrite lookup_insert_ne by auto).
    assert (controller f1 FlowController.kConnectionLevelId =
      Some (FlowController.set_highest k (highest k + (limit - highest c)))) as Hk1 by apply lookup_insert_eq.
    assert (flow_ok f1) as Hok1 by by apply set_highest_ok.
    apply total_bind, total_bind. rewrite (Hself _ _ Hk1). cbn [terminates_in mret M_ret].
    unfold FlowController.FlowControlViolation. simpl.
    destruct (Z.gtb_spec (highest k + (limit - highest c)) (window k)) as [Hv|Hv].
    + rewrite abort_gone by done. apply (final_too_much h s c k He Hconn Hmap Hf El f1); auto. left.
    + apply (final_fits h s c k He Hconn Hmap Hf El f1); auto. lia.
Qed.
End Peer.
