(* ===== verification/StreamRuns.v ===== *)
(** What the delegate of a stream is given: the bytes of the peer's stream, in
    order and once each, as far as they have arrived without a gap, and the end of
    the stream once all of them were given. *)

From S2P Require Import Prelude FlowController FlowControl IntervalSet Intervals SequencerBuffer Reassembly.
From S2P Require Import ReassemblyRuns ReceiveStream StreamClosing StreamDelivery.
Import ReceiveStream.

(** ** Runs *)

(** What happens to a stream: packets of the peer bring a frame or a reset, the
    application shuts reading down or closes the stream, our own FIN is sent, the
    connection is lost. *)
Inductive input : Type :=
| StreamFrame (offset : Z) (data : list Z) (fin : bool)
| RstFrame (byte_offset error : Z)
| ShutdownRead
| FinSent
| StreamClose
| ConnectionLost (error : Z).

(** Nothing reaches the streams of a closed connection, and a stream that is no
    longer in the session is not found by the application. *)
Definition handle (fast too_long : bool) (multiplied : Z -> Z) (i : input) : M Stream unit :=
  s ← get;
  if negb (connected s) then mret tt
  else
    match i with
    | StreamFrame o data fin => session_OnStreamFrame fast too_long multiplied o data fin
    | RstFrame o e => session_OnRstStream too_long multiplied o e
    | ShutdownRead => when (in_map s) (ReceiveStream.StopReading multiplied)
    | FinSent => when (in_map s && negb (write_side_closed_ (sides s))) (fin_written multiplied)
    | StreamClose => when (in_map s) (CloseStreamInner multiplied false)
    | ConnectionLost e => TearDownLocalConnectionState multiplied e
    end.

Definition handle_all (fast too_long : bool) (multiplied : Z -> Z) (l : list input) : M Stream unit :=
  for_each l (handle fast too_long multiplied).

(** The peer sends one stream, [limit] bytes long. *)
Definition honest_input (sent : Z -> Z) (limit : Z) (i : input) : Prop :=
  match i with
  | StreamFrame o data fin => 0 <= o /\ o + Z.of_nat (length data) <= limit /\ carries sent o data /\
      (fin = true -> o + Z.of_nat (length data) = limit)
  | RstFrame o _ => o = limit
  | _ => True
  end.

Definition brings (v : Z) (i : input) : Prop :=
  match i with StreamFrame o data _ => o <= v < o + Z.of_nat (length data) | _ => False end.
Definition brings_fin (i : input) : Prop := match i with StreamFrame _ _ fin => fin = true | _ => False end.
Definition is_rst (i : input) : Prop := match i with RstFrame _ _ => True | _ => False end.
Definition is_shutdown (i : input) : Prop := match i with ShutdownRead => True | _ => False end.

Definition is_close (i : input) : Prop := match i with StreamClose => True | _ => False end.

Definition history_of (l : list input) : history :=
  {| arrived v := Exists (brings v) l; fin_seen := Exists brings_fin l;
     rst_seen := Exists is_rst l; shut := Exists is_shutdown l;
     dropped := Exists is_close l |}.

Section Runs.
Variable sent : Z -> Z.
Variable limit : Z.
Context (Hlimit : 0 <= limit <= 2 ^ 61).
Variables fast too_long : bool.
Variable multiplied : Z -> Z.

Lemma extends_app l i : extends (history_of l) (history_of (l ++ [i])).
Proof using. split; simpl; intros *; rewrite ?Exists_app; auto. Qed.

Lemma good_grow h h' s : extends h h' -> (forall v, arrived h' v -> arrived h v) -> (fin_seen h' -> fin_seen h) ->
  good sent limit h s -> good sent limit h' s.
Proof using.
  intros E1 E2 E3 [[Ha R2 R3 R4]|He]; [left|right; by eapply ended_extends]. split; auto.
  eapply active_equiv; [done|done| |done]. intros H. by apply (ac_fin _ _ _ _ Ha), E3.
Qed.

Lemma good_equiv h h' s : extends h h' -> extends h' h -> good sent limit h s -> good sent limit h' s.
Proof using. intros E1 E2. apply good_grow; [done|apply E2..]. Qed.

Lemma good_append h l i s : (forall v, arrived h v <-> arrived (history_of l) v \/ brings v i) ->
  (fin_seen h <-> fin_seen (history_of l) \/ brings_fin i) -> (rst_seen h <-> rst_seen (history_of l) \/ is_rst i) ->
  (shut h <-> shut (history_of l) \/ is_shutdown i) -> (dropped h <-> dropped (history_of l) \/ is_close i) ->
  good sent limit h s ->
  good sent limit (history_of (l ++ [i])) s.
Proof using.
  intros H1 H2 H3 H4 H5. apply good_equiv; split; simpl; intros *; rewrite ?Exists_app, ?Exists_cons, ?Exists_nil;
    rewrite ?H1, ?H2, ?H3, ?H4, ?H5; simpl; clear; naive_solver.
Qed.

Lemma handle_good l i s : good sent limit (history_of l) s -> honest_input sent limit i ->
  terminates_in (handle fast too_long multiplied i s) (fun _ s' => good sent limit (history_of (l ++ [i])) s').
Proof using Hlimit.
  intros Hg Hi. unfold handle. apply total_get.
  assert (connected s = false -> ended sent limit (history_of l) s) as Hgone.
  { intros Hc. destruct Hg as [[Ha _ _ _]|He]; [|done]. by rewrite (ac_conn _ _ _ _ Ha) in Hc. }
  assert (in_map s = false -> ended sent limit (history_of l) s) as Hgone'.
  { intros Hc. destruct Hg as [[Ha _ _ _]|He]; [|done]. by rewrite (ac_map _ _ _ _ Ha) in Hc. }
  assert (forall s', ended sent limit (history_of l) s' -> good sent limit (history_of (l ++ [i])) s') as Hend.
  { intros s' H. right. eapply ended_extends; [apply extends_app|done]. }
  destruct (connected s) eqn:Hc; cbn [negb]; [|by apply Hend, Hgone].
  destruct i as [o data fin|o e| | | |e]; simpl in Hi.
  - destruct Hi as (Ho & Hl & Hd & Hfin). unfold session_OnStreamFrame. apply total_get.
    destruct (in_map s) eqn:Em.
    + eapply total_mono; [by apply (OnStreamFrame_good sent limit Hlimit)|]. intros ? s'.
      apply good_append; simpl; clear; naive_solver.
    + apply total_when; intros Ef; [|by apply Hend, Hgone']. rewrite (Hfin Ef), uint64_small by lia.
      eapply total_mono; [by apply (OnFinalByteOffsetReceived_ended sent limit Hlimit); auto|]. intros ? s'. apply Hend.
  - subst o. unfold session_OnRstStream. apply total_get. destruct (in_map s) eqn:Em.
    + eapply total_mono; [by apply (OnStreamReset_good sent limit Hlimit)|]. intros ? s' He.
      apply (good_append (with_rst (history_of l))); [simpl; clear; naive_solver..|by right].
    + eapply total_mono; [by apply (OnFinalByteOffsetReceived_ended sent limit Hlimit); auto|]. intros ? s'. apply Hend.
  - apply total_when; intros Em; [|by apply Hend, Hgone'].
    set (h := {| arrived := arrived (history_of l); fin_seen := fin_seen (history_of l);
                 rst_seen := rst_seen (history_of l); shut := True; dropped := dropped (history_of l) |}).
    assert (extends (history_of l) h) as Hx by by split.
    eapply (total_mono _ (fun _ s' => good sent limit h s')).
    + destruct Hg as [Hrd|He].
      * apply (StopReading_reading sent limit Hlimit); [|done]. destruct Hrd as [Ha R2 R3 R4]. split; auto.
        eapply active_equiv; [done|done|apply Ha|done].
      * eapply total_mono; [apply (StopReading_ended sent limit Hlimit multiplied h); [by eapply ended_extends|done|done]|].
        intros ? s' H. by right.
    + intros ? s'. apply good_append; simpl; clear; naive_solver.
  - apply total_when; intros _.
    + eapply total_mono; [by apply (fin_written_good sent limit Hlimit)|]. intros ? s'.
      apply good_append; simpl; clear; naive_solver.
    + revert Hg. apply good_append; simpl; clear; naive_solver.
  - apply total_when; intros Em; [|by apply Hend, Hgone'].
    set (h := {| arrived := arrived (history_of l); fin_seen := fin_seen (history_of l);
                 rst_seen := rst_seen (history_of l); shut := shut (history_of l); dropped := True |}).
    eapply total_mono; [apply (CloseStream_good sent limit Hlimit multiplied h); [|done|done|done]|].
    + revert Hg. apply good_grow; [by split|done|done].
    + intros ? s' He. apply (good_append h); [simpl; clear; naive_solver..|by right].
  - eapply total_mono; [by apply (TearDown_good sent limit Hlimit)|]. intros ? s'. apply Hend.
Qed.

Lemma handle_all_good l2 : forall l1 s, good sent limit (history_of l1) s -> Forall (honest_input sent limit) l2 ->
  terminates_in (handle_all fast too_long multiplied l2 s) (fun _ s' => good sent limit (history_of (l1 ++ l2)) s').
Proof using Hlimit.
  induction l2 as [|i l2 IH]; intros l1 s Hg Hl; unfold handle_all; cbn [for_each].
  { by rewrite app_nil_r. }
  apply Forall_cons in Hl as [Hi Hl]. apply total_bind. eapply total_mono; [by apply (handle_good l1)|].
  intros ? s' Hg'. pose proof (IH (l1 ++ [i]) s' Hg' Hl) as H. by rewrite <- app_assoc in H.
Qed.
End Runs.

(** ** What the delegate is given *)

(** The flow controllers of a stream that was just opened on a live connection. *)
Record opened (f : FlowController.Flow) (id limit : Z) : Prop := {
  op_ok : flow_ok f;
  op_id : id <> FlowController.kConnectionLevelId;
  op_stream : exists c, controller f id = Some c /\ consumed c = 0 /\ highest c = 0 /\ size_limit c = W;
  op_connection : exists k, controller f FlowController.kConnectionLevelId = Some k /\
    consumed k <= highest k <= window k /\ highest k + limit <= 2 ^ 61
}.

Lemma reading_init sent limit f id : 0 <= limit <= 2 ^ 61 -> opened f id limit ->
  reading sent limit (history_of []) (init id true f).
Proof.
  intros Hlimit [Hok Hid (c & Hc & Ec & Eh & Es) (k & Hk & Hkk & Hkl)].
  assert (holds sent limit (buf (init id true f))) as Hh.
  { apply holds_init; [done|]. unfold W, SequencerBuffer.kBlockSizeBytes. lia. }
  assert (forall c', controller f id = Some c' -> c' = c) as Huc by (intros c' H; congruence).
  split; [|intros c' k' ->%Huc Hk'|done|].
  - split; simpl; auto.
    + split; simpl; auto; try done.
      * split; [done|done|split; [done|simpl; lia]|]. exists c, k. split; unfold todo; simpl; auto; lia || done.
      * exists 0. split; [lia|done].
      * intros _ v Hv. by apply member_nil in Hv.
    + intros c' ->%Huc. by rewrite Ec.
    + intros c' v _ Hv. by apply member_nil in Hv.
    + apply not_elem_of_nil.
    + intros _ v Hv. by apply Exists_nil in Hv.
    + intros Hf. by apply Exists_nil in Hf.
  - simpl in Hk'. assert (k' = k) as -> by congruence. destruct (f_receiver f Hok id c Hc). lia.
  - simpl. unfold kMaxOffset. lia.
Qed.

Section Told.
Variable sent : Z -> Z.
Variable limit : Z.
Context (Hlimit : 0 <= limit <= 2 ^ 61).
Variable l : list input.

(** The delegate was given the first [n] bytes, all of them before the end, and,
    unless the stream was cut short, exactly what arrived without a gap. *)
Definition told (s : Stream) (n : Z) : Prop :=
  given (events s) = bytes_from sent 0 n /\ 0 <= n <= limit /\ Forall fine (events s) /\
  (FinRead ∈ events s -> Forall (fun i => ~ is_shutdown i) l -> n = limit) /\
  (connected s = true -> Forall (fun i => ~ (is_rst i \/ is_close i) /\ ~ is_shutdown i) l ->
    (forall v, 0 <= v < n -> Exists (brings v) l) /\ ~ Exists (brings n) l /\
    (FinRead ∈ events s <-> n = limit /\ Exists brings_fin l)).

Lemma not_any (P : input -> Prop) : Forall (fun i => ~ P i) l -> ~ Exists P l.
Proof using. intros H (i & Hin & Hp)%Exists_exists. by apply (proj1 (Forall_forall _ _) H i Hin). Qed.

Lemma still_read h s : common sent limit h s -> h = history_of l ->
  Forall (fun i => ~ is_shutdown i) l -> ignores s = false.
Proof using.
  intros Hcm -> H. destruct (ignores s) eqn:E; [|done]. apply (cm_ignore _ _ _ _ Hcm) in E.
  by apply not_any in H.
Qed.

Lemma bytes_from_inj n m : 0 <= n -> 0 <= m -> bytes_from sent 0 n = bytes_from sent 0 m -> n = m.
Proof using.
  intros Hn Hm E. apply (f_equal length) in E. pose proof (length_bytes_from sent 0 n Hn).
  pose proof (length_bytes_from sent 0 m Hm). lia.
Qed.

Lemma no_cut (P Q : input -> Prop) : Forall (fun i => ~ P i /\ ~ Q i) l ->
  Forall (fun i => ~ P i) l /\ Forall (fun i => ~ Q i) l.
Proof using. intros H. split; (eapply Forall_impl; [exact H|]); by intros ? []. Qed.

Lemma reading_told s : reading sent limit (history_of l) s -> exists n, told s n.
Proof using.
  intros [Ha _ Hu Hmore]. pose proof (ac_common _ _ _ _ Ha) as Hcm. pose proof (ac_nofin _ _ _ _ Ha) as Hnf.
  destruct (cm_prefix _ _ _ _ Hcm) as (n & Hn & Hg). exists n. split_and!; [done|lia|lia|apply Hcm|done|].
  intros _ [_ Hns]%no_cut. pose proof (still_read _ s Hcm eq_refl Hns) as Hi.
  assert (n = total (buf s)) as ->.
  { apply bytes_from_inj; [lia|apply (cm_sound _ _ _ _ Hcm)|]. by rewrite <- (ac_given _ _ _ _ Ha Hi). }
  pose proof (cm_holds _ _ _ _ Hcm) as Hh. destruct (first_missing sent limit _ Hh) as (_ & _ & Hmiss & _).
  split_and!.
  - intros v Hv. by apply (cm_cover _ _ _ _ Hcm Hi), (h_read _ _ _ Hh).
  - intros Hv. apply (ac_cover _ _ _ _ Ha Hi) in Hv. apply Hmiss. unfold unread in Hu.
    by replace (SequencerBuffer.FirstMissingByte (buf s)) with (total (buf s)) by lia.
  - split; [intros Hf; by destruct Hnf|].
    intros [E Hf]. apply (ac_fin _ _ _ _ Ha) in Hf. pose proof (Hmore Hf). lia.
Qed.

Lemma ended_told s : ended sent limit (history_of l) s -> Forall (honest_input sent limit) l ->
  exists n, told s n.
Proof using Hlimit.
  intros He Hl. pose proof (en_common _ _ _ _ He) as Hcm. destruct (cm_prefix _ _ _ _ Hcm) as (n & Hn & Hg).
  assert (FinRead ∈ events s -> Forall (fun i => ~ is_shutdown i) l -> n = limit) as Hfin.
  { intros Hf Hns. destruct (en_fin _ _ _ _ He Hf (still_read _ s Hcm eq_refl Hns)) as (E & _).
    apply bytes_from_inj; [lia|lia|congruence]. }
  exists n. split_and!; [done|lia|lia|apply Hcm|done|].
  intros Hc [Hnr Hns]%no_cut. destruct (en_why _ _ _ _ He) as [Hf|[Hr|[?|Hd]]]; [| |congruence|].
  - rewrite (Hfin Hf Hns) in *.
    destruct (en_fin _ _ _ _ He Hf (still_read _ s Hcm eq_refl Hns)) as (_ & Hall & Hfs).
    split_and!; [done| |by split]. intros (i & Hin & Hb)%Exists_exists.
    pose proof (proj1 (Forall_forall _ _) Hl i Hin) as Hi. destruct i; simpl in *; try done. lia.
  - apply (cm_rst _ _ _ _ Hcm) in Hr. destruct (not_any _ Hnr). eapply Exists_impl; [exact Hr|]. by left.
  - destruct (not_any _ Hnr). eapply Exists_impl; [exact Hd|]. by right.
Qed.
End Told.

(** Every run from the opening of the stream *)
Lemma run_told fast too_long multiplied sent limit id f l :
  0 <= limit <= 2 ^ 61 -> opened f id limit -> Forall (honest_input sent limit) l ->
  terminates_in (handle_all fast too_long multiplied l (init id true f)) (fun _ s => exists n, told sent limit l s n).
Proof.
  intros Hlimit Hop Hl.
  eapply total_mono; [apply (handle_all_good sent limit Hlimit); [left; by apply reading_init|done]|].
  intros ? s [Hrd|He]; [by apply reading_told|by apply ended_told].
Qed.


Definition demo_inputs : list input :=
  [StreamFrame 3 [4; 5; 6] false; StreamFrame 0 [1; 2; 3; 4] false; FinSent; StreamFrame 5 [6; 7] true].

Lemma demo_inputs_honest : Forall (honest_input demo_sent 7) demo_inputs.
Proof. repeat constructor; try (by apply carries_bytes); simpl; lia. Qed.

Lemma flow0_opened : opened flow0 5 7.
Proof.
  split; [apply flow0_ok|done| |].
  - exists (FlowController.init 5 100 64 true (Some 0)). by split_and!.
  - exists (FlowController.init 0 100 64 true None). split; [done|]. simpl. lia.
Qed.


(** The final length of a closed stream is not compared with what was counted for
    it: a smaller one takes consumption back. *)
Example a_short_final_length_takes_consumption_back :
  match handle_all false false (fun x => x * 3 / 2)
          [StreamFrame 0 [1; 2; 3; 4; 5; 6; 7; 8; 9; 10] false; StreamClose] (init 5 true flow0) with
  | Ret _ s =>
      match controller (flow s) 0, handle false false (fun x => x * 3 / 2) (RstFrame 3 0) s with
      | Some k, Ret _ s' =>
          consumed k = 10 /\ match controller (flow s') 0 with Some k' => consumed k' = 3 | None => False end
      | _, _ => False
      end
  | Crash _ => False
  end.
Proof. vm_compute. done. Qed.
