(* ===== verification/SendBuffer.v ===== *)
(** The send buffer of a stream: [QuicStreamSendBuffer]
    (libquic/net/quic/core/quic_stream_send_buffer.cc) with the memory slices it
    keeps (platform/impl/quic_mem_slice_impl.cc) and the copy that fills them
    ([QuicUtils::CopyToBuffer]).  Data is saved in slices, serialised into packets
    from any offset, and kept until it was acknowledged; what was lost waits in an
    interval set to be sent again. *)

From S2P Require Import Prelude IntervalSet QuicData.
Import Interval.

Module SendBuffer.

(** ** State *)

(** [class QuicMemSliceImpl]: the bytes it refers to; none after [Reset()]. *)
Notation QuicMemSlice := (list Z).

(** [struct BufferedSlice] *)
Record BufferedSlice : Type := { slice : QuicMemSlice; offset : Z }.

Definition slice_length (x : BufferedSlice) : Z := Z.of_nat (length (slice x)).
Definition slice_empty (x : BufferedSlice) : bool := slice_length x =? 0.
Definition slice_end (x : BufferedSlice) : Z := uint64 (offset x + slice_length x).

(** [void QuicMemSliceImpl::Reset()] *)
Definition reset (x : BufferedSlice) : BufferedSlice := {| slice := []; offset := offset x |}.

(** [class QuicStreamSendBuffer] *)
Record SendBuffer : Type := {
  buffered_slices_ : list BufferedSlice;
  stream_offset_ : Z;
  stream_bytes_written_ : Z;
  stream_bytes_outstanding_ : Z;
  bytes_acked_ : IntervalSet.t;
  pending_retransmissions_ : IntervalSet.t;
  write_index_ : Z;                                (* int32_t *)
  free_mem_slice_out_of_order_ : bool;
  enable_fast_path_on_data_acked_ : bool
}.

Section Updates.
Variable s : SendBuffer.

Definition with_slices l off idx : SendBuffer :=
  {| buffered_slices_ := l; stream_offset_ := off; stream_bytes_written_ := stream_bytes_written_ s;
     stream_bytes_outstanding_ := stream_bytes_outstanding_ s; bytes_acked_ := bytes_acked_ s;
     pending_retransmissions_ := pending_retransmissions_ s; write_index_ := idx;
     free_mem_slice_out_of_order_ := free_mem_slice_out_of_order_ s;
     enable_fast_path_on_data_acked_ := enable_fast_path_on_data_acked_ s |}.

Definition with_counts written outstanding : SendBuffer :=
  {| buffered_slices_ := buffered_slices_ s; stream_offset_ := stream_offset_ s;
     stream_bytes_written_ := written; stream_bytes_outstanding_ := outstanding;
     bytes_acked_ := bytes_acked_ s; pending_retransmissions_ := pending_retransmissions_ s;
     write_index_ := write_index_ s;
     free_mem_slice_out_of_order_ := free_mem_slice_out_of_order_ s;
     enable_fast_path_on_data_acked_ := enable_fast_path_on_data_acked_ s |}.

Definition with_sets acked pending : SendBuffer :=
  {| buffered_slices_ := buffered_slices_ s; stream_offset_ := stream_offset_ s;
     stream_bytes_written_ := stream_bytes_written_ s;
     stream_bytes_outstanding_ := stream_bytes_outstanding_ s;
     bytes_acked_ := acked; pending_retransmissions_ := pending; write_index_ := write_index_ s;
     free_mem_slice_out_of_order_ := free_mem_slice_out_of_order_ s;
     enable_fast_path_on_data_acked_ := enable_fast_path_on_data_acked_ s |}.
End Updates.

Definition set_write_index (i : Z) (s : SendBuffer) : SendBuffer :=
  with_slices s (buffered_slices_ s) (stream_offset_ s) i.

(** The constructor; the arguments are
    [quic_reloadable_flag_quic_free_mem_slice_out_of_order] and
    [quic_reloadable_flag_quic_fast_path_on_stream_data_acked]. *)
Definition init (free_out_of_order fast_path : bool) : SendBuffer :=
  {| buffered_slices_ := []; stream_offset_ := 0; stream_bytes_written_ := 0;
     stream_bytes_outstanding_ := 0; bytes_acked_ := []; pending_retransmissions_ := [];
     write_index_ := -1; free_mem_slice_out_of_order_ := free_out_of_order;
     enable_fast_path_on_data_acked_ := free_out_of_order && fast_path |}.

(** ** Copying from an iovec *)

(** The first loop of [CopyToBuffer]: the buffers are skipped that end at or
    before [iov_offset]. *)
Fixpoint skip_iov (iov : list (list Z)) (iov_offset : Z) : list (list Z) * Z :=
  match iov with
  | [] => ([], iov_offset)
  | v :: iov' =>
      if iov_offset >=? Z.of_nat (length v) then skip_iov iov' (iov_offset - Z.of_nat (length v))
      else (iov, iov_offset)
  end.

(** ... and the second: what is copied of the buffers from the first on. *)
Fixpoint copy_iov (iov : list (list Z)) (buffer_length : Z) : list Z :=
  match iov with
  | [] => []
  | v :: iov' =>
      let copy_len := Z.min buffer_length (Z.of_nat (length v)) in
      take (Z.to_nat copy_len) v ++
      (if buffer_length - copy_len =? 0 then [] else copy_iov iov' (buffer_length - copy_len))
  end.

(** [void QuicUtils::CopyToBuffer(iov, iov_count, iov_offset, buffer_length, buffer)] *)
Definition CopyToBuffer (iov : list (list Z)) (iov_offset buffer_length : Z) : list Z :=
  match skip_iov iov iov_offset with
  | ([], _) => []
  | (v :: iov', o) => if buffer_length =? 0 then [] else copy_iov (drop (Z.to_nat o) v :: iov') buffer_length
  end.

(** ** Saving *)

(** [void SaveMemSlice(QuicMemSlice slice)] *)
Definition SaveMemSlice (data : QuicMemSlice) : M SendBuffer unit :=
  if (length data =? 0)%nat then mret tt
  else
    modify (fun s =>
      let l := buffered_slices_ s ++ [{| slice := data; offset := stream_offset_ s |}] in
      with_slices s l
        (uint64 (stream_offset_ s + Z.of_nat (length data)))
        (if write_index_ s =? -1 then int32 (Z.of_nat (length l) - 1) else write_index_ s)).

(** [QuicMemSliceSpanImpl::SaveMemSlicesInSendBuffer(send_buffer)] *)
Fixpoint SaveMemSlicesInSendBuffer (buffers : list QuicMemSlice) : M SendBuffer Z :=
  match buffers with
  | [] => mret 0
  | data :: rest =>
      when (negb (length data =? 0)%nat) (SaveMemSlice data);;
      n ← SaveMemSlicesInSendBuffer rest;
      mret (uint64 (Z.of_nat (length data) + n))
  end.

Section Save.
(* FLAGS_quic_send_buffer_max_data_slice_size *)
Variable max_data_slice_size : Z.

(** The loop of [SaveStreamData]; a slice that is not filled to its length has
    uninitialised bytes. *)
Fixpoint save_loop (fuel : nat) (iov : list (list Z)) (iov_offset data_length : Z) : M SendBuffer unit :=
  if negb (data_length >? 0) then mret tt
  else
    match fuel with
    | O => crashed OutOfFuel
    | S fuel' =>
        let slice_len := Z.min data_length max_data_slice_size in
        let data := CopyToBuffer iov iov_offset slice_len in
        if negb (Z.of_nat (length data) =? slice_len) then crashed Uninit
        else
          SaveMemSlice data;;
          save_loop fuel' iov (iov_offset + slice_len) (data_length - slice_len)
    end.

(** [void SaveStreamData(iov, iov_count, iov_offset, data_length)] *)
Definition SaveStreamData (iov : list (list Z)) (iov_offset data_length : Z) : M SendBuffer unit :=
  save_loop (Z.to_nat data_length) iov iov_offset data_length.
End Save.

(** [void OnStreamDataConsumed(size_t bytes_consumed)] *)
Definition OnStreamDataConsumed (bytes_consumed : Z) : M SendBuffer unit :=
  modify (fun s => with_counts s (uint64 (stream_bytes_written_ s + bytes_consumed))
                               (uint64 (stream_bytes_outstanding_ s + bytes_consumed))).

(** ** Serialising *)

(** An operation of the [QuicDataWriter] that was passed in *)
Definition on_writer {A} (m : M Writer.Writer A) (w : Writer.Writer) : M SendBuffer (A * Writer.Writer) :=
  fun s => match m w with
           | Ret a w' => Ret (a, w') s
           | Crash c => Crash c
           end.

(** The loop of [WriteStreamData] from a slice on: the length left, or [None]
    when the writer failed. *)
Fixpoint write_slices (write_index_hit : bool) (l : list BufferedSlice) (off data_length : Z)
    (w : Writer.Writer) : M SendBuffer (option Z * Writer.Writer) :=
  match l with
  | [] => mret (Some data_length, w)
  | x :: l' =>
      if (data_length =? 0) || (off <? offset x) then mret (Some data_length, w)
      else if off >=? slice_end x then write_slices write_index_hit l' off data_length w
      else
        let slice_offset := uint64 (off - offset x) in
        let available_bytes_in_slice := uint64 (slice_length x - slice_offset) in
        let copy_length := Z.min data_length available_bytes_in_slice in
        r ← on_writer (Writer.WriteBytes
              (take (Z.to_nat copy_length) (drop (Z.to_nat slice_offset) (slice x)))) w;
        if negb r.1 then mret (None, r.2)
        else
          when (write_index_hit && (copy_length =? available_bytes_in_slice))
            (modify (fun s => set_write_index (int32 (write_index_ s + 1)) s));;
          write_slices write_index_hit l' (uint64 (off + copy_length)) (uint64 (data_length - copy_length)) r.2
  end.

(** The end of [WriteStreamData] *)
Definition finish_write (write_index_hit : bool) : M SendBuffer unit :=
  s ← get;
  when (write_index_hit && (uint64 (write_index_ s) =? Z.of_nat (length (buffered_slices_ s))))
    (modify (set_write_index (-1))).

Definition write_from (write_index_hit : bool) (l : list BufferedSlice) (off data_length : Z)
    (w : Writer.Writer) : M SendBuffer (bool * Writer.Writer) :=
  r ← write_slices write_index_hit l off data_length w;
  match r.1 with
  | None => mret (false, r.2)
  | Some left_ => finish_write write_index_hit;; mret (left_ =? 0, r.2)
  end.

(** [bool WriteStreamData(offset, data_length, writer)] *)
Definition WriteStreamData (off data_length : Z) (w : Writer.Writer) : M SendBuffer (bool * Writer.Writer) :=
  s ← get;
  let slices := buffered_slices_ s in
  if write_index_ s =? -1 then write_from false slices off data_length w
  else
    x ← (if write_index_ s <? 0 then crashed OutOfBounds
         else deref (slices !! Z.to_nat (write_index_ s)) EndIterator);
    if off >=? slice_end x then mret (false, w)
    else if off >=? offset x then write_from true (drop (Z.to_nat (write_index_ s)) slices) off data_length w
    else write_from false slices off data_length w.

(** ** Acknowledging *)

(** [std::lower_bound] with [CompareOffset]: how many slices end before [start].
    The slices are in order, so those are the first ones. *)
Fixpoint lower_bound (start : Z) (l : list BufferedSlice) : nat :=
  match l with
  | [] => 0
  | x :: l' => if slice_end x <? start then S (lower_bound start l') else 0%nat
  end.

(** The loop of [FreeMemSlices] *)
Fixpoint free_slices (acked : IntervalSet.t) (end_ : Z) (l : list BufferedSlice) : list BufferedSlice :=
  match l with
  | [] => []
  | x :: l' =>
      if offset x >=? end_ then l
      else
        (if negb (slice_empty x) && IntervalSet.ContainsInterval (mk (offset x) (slice_end x)) acked
         then reset x else x) :: free_slices acked end_ l'
  end.

(** [bool FreeMemSlices(QuicStreamOffset start, QuicStreamOffset end)] *)
Definition FreeMemSlices (start end_ : Z) : M SendBuffer bool :=
  s ← get;
  let it := lower_bound start (buffered_slices_ s) in
  match drop it (buffered_slices_ s) with
  | [] => mret false
  | x :: _ =>
      if slice_empty x then mret false
      else
        modify (fun s => with_slices s
          (take it (buffered_slices_ s) ++ free_slices (bytes_acked_ s) end_ (drop it (buffered_slices_ s)))
          (stream_offset_ s) (write_index_ s));;
        mret true
  end.

(** The loops that remove slices from the front, with the index they shift. *)
Fixpoint pop_front (done : BufferedSlice -> bool) (l : list BufferedSlice) (index : Z)
    : list BufferedSlice * Z :=
  match l with
  | [] => ([], index)
  | x :: l' => if done x then pop_front done l' (if index >? 0 then index - 1 else index) else (l, index)
  end.

Definition pop_slices (done : SendBuffer -> BufferedSlice -> bool) : M SendBuffer unit :=
  modify (fun s =>
    let '(l, index) := pop_front (done s) (buffered_slices_ s) (write_index_ s) in
    with_slices s l (stream_offset_ s) index).

(** [void CleanUpBufferedSlices()] *)
Definition CleanUpBufferedSlices : M SendBuffer unit := pop_slices (fun _ => slice_empty).

(** [pending_retransmissions_.Difference(offset, offset + data_length)] and
    [bytes_acked_.Add(offset, offset + data_length)] *)
Definition remove_pending (off data_length : Z) : M SendBuffer unit :=
  s ← get;
  p ← deref (IntervalSet.DifferenceInterval (mk off (uint64 (off + data_length)))
               (pending_retransmissions_ s)) OutOfFuel;
  modify (fun s => with_sets s (bytes_acked_ s) p).

Definition add_acked (off data_length : Z) : M SendBuffer unit :=
  modify (fun s => with_sets s (IntervalSet.AddRange off (uint64 (off + data_length)) (bytes_acked_ s))
                             (pending_retransmissions_ s)).

Definition subtract_outstanding (n : Z) : M SendBuffer unit :=
  modify (fun s => with_counts s (stream_bytes_written_ s) (uint64 (stream_bytes_outstanding_ s - n))).

(** [FreeMemSlices] and then [CleanUpBufferedSlices] *)
Definition free_and_clean_up (start end_ : Z) : M SendBuffer bool :=
  ok ← FreeMemSlices start end_;
  if negb ok then mret false else CleanUpBufferedSlices;; mret true.

Section Ack.
(* FLAGS_quic_reloadable_flag_quic_fast_is_disjoint *)
Variable quic_fast_is_disjoint : bool.

(** [*newly_acked_length]: the loop over [newly_acked] *)
Definition sum_lengths (l : IntervalSet.t) : Z :=
  fold_left (fun n i => uint64 (n + uint64 (imax i - imin i))) l 0.

(** [OnStreamDataAcked] from the slow path on *)
Definition ack_slowly (off data_length : Z) : M SendBuffer (bool * Z) :=
  let end_ := uint64 (off + data_length) in
  s ← get;
  newly_acked ← deref (IntervalSet.Difference (bytes_acked_ s) (IntervalSet.AddRange off end_ [])) OutOfFuel;
  let newly_acked_length := sum_lengths newly_acked in
  if stream_bytes_outstanding_ s <? newly_acked_length then mret (false, newly_acked_length)
  else
    subtract_outstanding newly_acked_length;;
    add_acked off data_length;;
    remove_pending off data_length;;
    if free_mem_slice_out_of_order_ s then
      match newly_acked, last newly_acked with
      | x :: _, Some y =>
          ok ← free_and_clean_up (imin x) (imax y);
          mret (ok, newly_acked_length)
      | _, _ => mret (true, newly_acked_length)
      end
    else
      pop_slices (fun s x => IntervalSet.ContainsInterval (mk (offset x) (slice_end x)) (bytes_acked_ s));;
      mret (true, newly_acked_length).

(** The fast path when all the data is newly acknowledged *)
Definition ack_all (off data_length : Z) : M SendBuffer (bool * Z) :=
  s ← get;
  if stream_bytes_outstanding_ s <? data_length then mret (false, 0)
  else
    add_acked off data_length;;
    subtract_outstanding data_length;;
    remove_pending off data_length;;
    ok ← free_and_clean_up off (uint64 (off + data_length));
    mret (ok, data_length).

(** [bool OnStreamDataAcked(offset, data_length, newly_acked_length)] *)
Definition OnStreamDataAcked (off data_length : Z) : M SendBuffer (bool * Z) :=
  if data_length =? 0 then mret (true, 0)
  else
    s ← get;
    let range := mk off (uint64 (off + data_length)) in
    if enable_fast_path_on_data_acked_ s then
      let is_disjoint :=
        quic_fast_is_disjoint &&
        match last (bytes_acked_ s) with None => true | Some x => off >=? imax x end in
      if is_disjoint || IntervalSet.IsDisjoint range (bytes_acked_ s) then ack_all off data_length
      else if IntervalSet.ContainsInterval range (bytes_acked_ s) then mret (true, 0)
      else ack_slowly off data_length
    else ack_slowly off data_length.
End Ack.

(** ** Loss *)

(** [void OnStreamDataLost(offset, data_length)] *)
Definition OnStreamDataLost (off data_length : Z) : M SendBuffer unit :=
  if data_length =? 0 then mret tt
  else
    s ← get;
    bytes_lost ← deref (IntervalSet.Difference (bytes_acked_ s)
                          (IntervalSet.AddRange off (uint64 (off + data_length)) [])) OutOfFuel;
    modify (fun s => with_sets s (bytes_acked_ s)
      (fold_left (fun p x => IntervalSet.AddRange (imin x) (imax x) p) bytes_lost (pending_retransmissions_ s))).

(** [void OnStreamDataRetransmitted(offset, data_length)] *)
Definition OnStreamDataRetransmitted (off data_length : Z) : M SendBuffer unit :=
  if data_length =? 0 then mret tt else remove_pending off data_length.

Section Queries.
Variable s : SendBuffer.

Definition HasPendingRetransmission : bool :=
  negb (match pending_retransmissions_ s with [] => true | _ => false end).

(** [StreamPendingRetransmission NextPendingRetransmission() const]: offset and length *)
Definition NextPendingRetransmission : Z * Z :=
  match pending_retransmissions_ s with
  | x :: _ => (imin x, uint64 (imax x - imin x))
  | [] => (0, 0)
  end.

(** [bool IsStreamDataOutstanding(offset, data_length) const] *)
Definition IsStreamDataOutstanding (off data_length : Z) : bool :=
  (data_length >? 0) &&
  negb (IntervalSet.ContainsInterval (mk off (uint64 (off + data_length))) (bytes_acked_ s)).

Definition size : Z := Z.of_nat (length (buffered_slices_ s)).
End Queries.

End SendBuffer.
