(* ===== verification/Sending.v ===== *)
(** What a send buffer stands for: the bytes saved so far, how many of them were
    put into packets and handed over, which were acknowledged and which are to be
    sent again; and that every operation of [QuicStreamSendBuffer] acts on the
    buffer as it should on these. *)

From S2P Require Import Prelude IntervalSet Intervals QuicData Wire SendBuffer.
Import Interval.

(** ** Sets of offsets *)

Definition card (X : gset Z) : Z := Z.of_nat (base.size X).

(** The offsets from [o] on, [n] of them. *)
Definition range (o n : Z) : gset Z := list_to_set (seqZ o n).

Lemma elem_of_range v o n : v ∈ range o n <-> o <= v < o + n.
Proof. unfold range. rewrite elem_of_list_to_set, elem_of_seqZ. lia. Qed.

(** An interval set stands for a set of offsets. *)
Definition stands_for (l : IntervalSet.t) (X : gset Z) : Prop :=
  valid l /\ forall v, member v l <-> v ∈ X.

Ltac range_solver := repeat (rewrite ?elem_of_range in *; set_unfold); intuition lia.

Lemma card_offsets l X : stands_for l X -> card X = count l.
Proof.
  intros [Hv Hm]. unfold card, count. f_equal. change (base.size X) with (length (elements X)).
  apply Permutation_length, NoDup_Permutation; [apply NoDup_elements|by apply NoDup_offsets|].
  intros v. by rewrite elem_of_elements, elem_of_offsets, Hm.
Qed.

Lemma card_union X Y : X ## Y -> card (X ∪ Y) = card X + card Y.
Proof. intros H. unfold card. rewrite size_union by done. lia. Qed.

Lemma card_mono X Y : X ⊆ Y -> card X <= card Y.
Proof. intros H. unfold card. apply subseteq_size in H. lia. Qed.

Lemma card_range o n : 0 <= n -> card (range o n) = n.
Proof.
  intros Hn. unfold card, range. rewrite size_list_to_set by apply NoDup_seqZ.
  rewrite length_seqZ. lia.
Qed.

Lemma card_nonneg X : 0 <= card X.
Proof. unfold card. lia. Qed.

Lemma card_newly X Y : card (X ∪ Y) = card X + card (Y ∖ X).
Proof. rewrite <- card_union by set_solver. f_equal. apply set_eq. intros v. destruct (decide (v ∈ X)); set_solver. Qed.

Lemma stands_for_nil : stands_for [] ∅.
Proof. split; [apply valid_nil|]. intros v. rewrite member_nil_False. set_solver. Qed.

Section StandsFor.
Context (l : IntervalSet.t) (X : gset Z) (Hl : stands_for l X).

Lemma stands_for_add o n : stands_for (IntervalSet.AddRange o (o + n) l) (X ∪ range o n).
Proof using Hl.
  destruct Hl as [Hv Hm]. destruct (Add_spec (mk o (o + n)) l Hv) as [Ha Hb].
  split; [done|]. intros v. unfold IntervalSet.AddRange. rewrite Hb, Hm. unfold within. simpl. range_solver.
Qed.

Lemma stands_for_remove o n : exists r,
  IntervalSet.DifferenceInterval (mk o (o + n)) l = Some r /\ stands_for r (X ∖ range o n).
Proof using Hl.
  destruct Hl as [Hv Hm]. destruct (DifferenceInterval_spec (mk o (o + n)) l Hv) as (r & -> & Hr & Hd).
  exists r. split; [done|]. split; [done|]. intros v. rewrite Hd, Hm. unfold within. simpl. range_solver.
Qed.

(** [range] without [X], as [Difference] computes it. *)
Lemma stands_for_rest o n : exists r,
  IntervalSet.Difference l (IntervalSet.AddRange o (o + n) []) = Some r /\ stands_for r (range o n ∖ X).
Proof using Hl.
  destruct Hl as [Hv Hm]. destruct (Add_spec (mk o (o + n)) [] valid_nil) as [Ha Hb].
  destruct (Difference_spec l (IntervalSet.AddRange o (o + n) []) Ha Hv) as (r & -> & Hr & Hd).
  exists r. split; [done|]. split; [done|]. intros v. rewrite Hd, Hm. unfold IntervalSet.AddRange.
  rewrite Hb, member_nil_False. unfold within. simpl. range_solver.
Qed.

Lemma stands_for_contains o n : 0 < n ->
  (IntervalSet.ContainsInterval (mk o (o + n)) l = true <-> range o n ⊆ X).
Proof using Hl.
  destruct Hl as [Hv Hm]. intros Hn. rewrite ContainsInterval_spec by (done || unfold nonempty; simpl; lia).
  split.
  - intros H v Hr%elem_of_range. by apply Hm, H.
  - intros H v Hw. apply Hm, H, elem_of_range, Hw.
Qed.

Lemma stands_for_disjoint o n : 0 < n ->
  (IntervalSet.IsDisjoint (mk o (o + n)) l = true <-> range o n ## X).
Proof using Hl.
  destruct Hl as [Hv Hm]. intros Hn. rewrite IsDisjoint_spec by (done || unfold nonempty; simpl; lia).
  split.
  - intros H v Hr%elem_of_range HX. by apply (H v Hr), Hm.
  - intros H v Hw HX%Hm. apply (H v); [by apply elem_of_range|done].
Qed.

Lemma stands_for_empty : l = [] <-> X = ∅.
Proof using Hl.
  destruct Hl as [Hv Hm]. split.
  - intros ->. apply set_eq. intros v. rewrite <- Hm, member_nil_False. set_solver.
  - intros ->. destruct l as [|x l']; [done|]. exfalso. apply valid_cons in Hv as [Hn _].
    apply (not_elem_of_empty (C := gset Z) (imin x)), Hm, member_min, Hn.
Qed.
End StandsFor.

(** The sum of the lengths is the size. *)
Lemma sum_lengths_count l : forall n, valid l -> Forall (fun x => 0 <= imin x) l -> 0 <= n ->
  n + count l < 2 ^ 64 -> (forall x, x ∈ l -> imax x < 2 ^ 64) ->
  fold_left (fun n i => uint64 (n + uint64 (imax i - imin i))) l n = n + count l.
Proof.
  induction l as [|x l IH]; intros n Hv H0 Hn Hb Hx; simpl; [rewrite count_nil; lia|].
  apply valid_cons in Hv as (Hne & _ & Hv). apply Forall_cons in H0 as [H0 H0'].
  rewrite count_cons in * by done. pose proof (Hx x ltac:(left)). pose proof (count_nonneg l).
  unfold nonempty in Hne. rewrite (uint64_small (imax x - imin x)), uint64_small by lia.
  rewrite IH; try done; try lia. intros y Hy. apply Hx. by right.
Qed.

Lemma sum_lengths_card l X : stands_for l X -> X ⊆ range 0 (2 ^ 63) -> SendBuffer.sum_lengths l = card X.
Proof.
  intros Hl HX. pose proof Hl as [Hv Hm]. rewrite (card_offsets l X Hl).
  assert (forall x, x ∈ l -> 0 <= imin x /\ imax x <= 2 ^ 63) as Hb.
  { intros x Hx. pose proof (Forall_nonempty l Hv x Hx) as Hn. unfold nonempty in Hn.
    assert (member (imin x) l) as M1 by (exists x; split; [done|unfold within; lia]).
    assert (member (imax x - 1) l) as M2 by (exists x; split; [done|unfold within; lia]).
    apply Hm, HX, elem_of_range in M1, M2. lia. }
  unfold SendBuffer.sum_lengths. rewrite sum_lengths_count; [done|done| |done| |].
  - apply Forall_forall. intros x Hx. apply Hb, Hx.
  - rewrite <- (card_offsets l X Hl). pose proof (card_mono _ _ HX) as Hc. rewrite card_range in Hc by lia. lia.
  - intros x Hx. specialize (Hb x Hx). lia.
Qed.

(** ** Bytes *)

(** [n] bytes of [D] from offset [o] on *)
Definition bytes (D : list Z) (o n : Z) : list Z := take (Z.to_nat n) (drop (Z.to_nat o) D).

Definition len (D : list Z) : Z := Z.of_nat (length D).

Lemma len_app D E : len (D ++ E) = len D + len E.
Proof. unfold len. rewrite length_app. lia. Qed.

Lemma len_bytes D o n : 0 <= o -> 0 <= n -> o + n <= len D -> len (bytes D o n) = n.
Proof. unfold len, bytes. rewrite length_take, length_drop. lia. Qed.

Lemma bytes_app D E o n : 0 <= o -> 0 <= n -> o + n <= len D -> bytes (D ++ E) o n = bytes D o n.
Proof.
  unfold len, bytes. intros Ho Hn Hl. rewrite drop_app_le by lia. apply take_app_le. rewrite length_drop. lia.
Qed.

Lemma bytes_end D E : bytes (D ++ E) (len D) (len E) = E.
Proof.
  unfold bytes, len. rewrite !Nat2Z.id, drop_app_length. apply take_ge. lia.
Qed.

Lemma bytes_split D o n m : 0 <= o -> 0 <= n -> 0 <= m -> bytes D o (n + m) = bytes D o n ++ bytes D (o + n) m.
Proof.
  intros. unfold bytes. rewrite !Z2Nat.inj_add by lia. rewrite <- drop_drop.
  by rewrite <- (take_take_drop (drop _ D)).
Qed.

Lemma bytes_inside D p m o n : 0 <= p -> p <= o -> 0 <= n -> o + n <= p + m ->
  take (Z.to_nat n) (drop (Z.to_nat (o - p)) (bytes D p m)) = bytes D o n.
Proof.
  intros Hp Ho Hn Hm. unfold bytes. rewrite skipn_firstn_comm, take_take, drop_drop.
  f_equal; [lia|]. f_equal. lia.
Qed.

Lemma bytes_0 D o : bytes D o 0 = [].
Proof. done. Qed.

Lemma in_take {T} k (x : T) l : x ∈ take k l -> x ∈ l.
Proof. intros H. rewrite <- (take_drop k l). apply elem_of_app. by left. Qed.

Lemma in_drop {T} k (x : T) l : x ∈ drop k l -> x ∈ l.
Proof. intros H. rewrite <- (take_drop k l). apply elem_of_app. by right. Qed.

(** ** Slices and where they lie *)

(** A slice was saved for an extent: an offset and a length. *)
Notation extent := (Z * Z)%type.

Fixpoint chain (o : Z) (l : list extent) (e : Z) : Prop :=
  match l with
  | [] => o = e
  | (p, n) :: l' => p = o /\ 0 < n /\ chain (o + n) l' e
  end.

Lemma chain_app o l m e : chain o (l ++ m) e <-> exists c, chain o l c /\ chain c m e.
Proof.
  revert o. induction l as [|[p n] l IH]; intros o; simpl.
  - split; [by exists o|]. by intros (? & -> & ?).
  - rewrite IH. split; [intros (-> & ? & c & ? & ?); by exists c|intros (c & (-> & ? & ?) & ?); eauto 6].
Qed.

Lemma chain_le o l e : chain o l e -> o <= e.
Proof.
  revert o. induction l as [|[p n] l IH]; intros o; simpl; [lia|]. intros (_ & Hn & H%IH). lia.
Qed.

Lemma chain_in o l e p n : chain o l e -> (p, n) ∈ l -> o <= p /\ 0 < n /\ p + n <= e.
Proof.
  intros Hc [a [b ->]]%list_elem_of_split. apply chain_app in Hc as (c & Ha%chain_le & -> & Hn & Hb%chain_le). lia.
Qed.

(** The extent an offset is in *)
Lemma chain_find o l e v : chain o l e -> o <= v < e ->
  exists i p n, l !! i = Some (p, n) /\ p <= v < p + n.
Proof.
  revert o. induction l as [|[p n] l IH]; intros o; simpl; [lia|]. intros (-> & Hn & Hc) Hv.
  destruct (Z.lt_ge_cases v (o + n)); [exists 0%nat, o, n; split; [done|lia]|].
  destruct (IH (o + n) Hc) as (i & q & m & ? & ?); [lia|]. by exists (S i), q, m.
Qed.

Lemma chain_order o l e i j p n q m : chain o l e -> l !! i = Some (p, n) -> l !! j = Some (q, m) ->
  (i < j)%nat -> p + n <= q.
Proof.
  intros Hc Hi Hj Hij. rewrite <- (take_drop_middle l i (p, n) Hi) in Hc.
  apply chain_app in Hc as (c & _ & -> & _ & Hc).
  apply (chain_in _ _ _ q m) in Hc; [lia|]. apply list_elem_of_lookup. exists (j - S i)%nat.
  rewrite lookup_drop. rewrite <- Hj. f_equal. lia.
Qed.

(** How many extents end at or before [t] *)
Definition ended (t : Z) (l : list extent) : nat := length (filter (fun x => x.1 + x.2 <= t) l).

Lemma ended_cons t p n l : ended t ((p, n) :: l) = ((if decide (p + n <= t)%Z then 1 else 0) + ended t l)%nat.
Proof. unfold ended. rewrite filter_cons. simpl. by case_decide. Qed.

Lemma ended_length t l : (ended t l <= length l)%nat.
Proof. unfold ended. apply length_filter. Qed.

Lemma ended_none t o l e : chain o l e -> t <= o -> ended t l = 0%nat.
Proof.
  revert o. induction l as [|[p n] l IH]; intros o; [done|]. simpl. intros (-> & Hn & Hc) Ht.
  rewrite ended_cons, (IH _ Hc) by lia. rewrite decide_False by lia. done.
Qed.

Lemma ended_all o l e : chain o l e -> ended e l = length l.
Proof.
  revert o. induction l as [|[p n] l IH]; intros o; [done|]. simpl. intros (-> & Hn & Hc).
  rewrite ended_cons, (IH _ Hc). apply chain_le in Hc. by rewrite decide_True by lia.
Qed.

Lemma ended_next t o l e : chain o l e -> o <= t < e ->
  exists p n, l !! ended t l = Some (p, n) /\ p <= t < p + n.
Proof.
  revert o. induction l as [|[p n] l IH]; intros o; simpl; [lia|]. intros (-> & Hn & Hc) Ht.
  rewrite ended_cons. case_decide; [apply (IH (o + n)); [done|lia]|].
  rewrite (ended_none _ _ _ _ Hc) by lia. exists o, n. split; [done|lia].
Qed.

(** The slice kept for an extent: with [free] it is given up once all of it was
    acknowledged. *)
Definition gone (free : bool) (A : gset Z) (x : extent) : Prop := free = true /\ range x.1 x.2 ⊆ A.

#[export] Instance gone_dec free A x : Decision (gone free A x).
Proof. apply and_dec; apply _. Defined.

Definition place (free : bool) (D : list Z) (A : gset Z) (x : extent) : SendBuffer.BufferedSlice :=
  {| SendBuffer.slice := if decide (gone free A x) then [] else bytes D x.1 x.2;
     SendBuffer.offset := x.1 |}.

Lemma place_gone free D A x : gone free A x -> place free D A x = {| SendBuffer.slice := []; SendBuffer.offset := x.1 |}.
Proof. intros H. unfold place. by rewrite decide_True. Qed.

Lemma place_kept free D A x : ~ gone free A x ->
  place free D A x = {| SendBuffer.slice := bytes D x.1 x.2; SendBuffer.offset := x.1 |}.
Proof. intros H. unfold place. by rewrite decide_False. Qed.

Lemma place_same free D A B x : (range x.1 x.2 ⊆ A <-> range x.1 x.2 ⊆ B) -> place free D A x = place free D B x.
Proof. intros H. unfold place. f_equal. apply decide_ext. unfold gone. tauto. Qed.

Lemma place_same_kept free D A B x : free = false -> place free D A x = place free D B x.
Proof. intros ->. rewrite !place_kept; [done|by intros []..]. Qed.

(** ** The state *)

(** [framed] is how far new data was put into packets and [sent] how far the
    stream was told that it was consumed: packets may be filled before or after;
    [pieces] counts the slices ever saved. *)
Record Sending : Type := {
  saved : list Z;
  framed : Z;
  sent : Z;
  acked : gset Z;
  lost : gset Z;
  pieces : Z
}.

Definition kMaxLength : Z := 2 ^ 62.

Definition index_for (a : Sending) (l : list extent) (index : Z) : Prop :=
  if decide (framed a = len (saved a)) then index = -1
  else exists i p n, index = Z.of_nat i /\ l !! i = Some (p, n) /\ p <= framed a < p + n.

(** The buffer [s] with slices for the extents [l] represents [a]. *)
Record represents_with (l : list extent) (first : Z) (a : Sending) (s : SendBuffer.SendBuffer) : Prop := {
  r_slices : SendBuffer.buffered_slices_ s
             = place (SendBuffer.free_mem_slice_out_of_order_ s) (saved a) (acked a) <$> l;
  r_first : 0 <= first;
  r_chain : chain first l (len (saved a));
  r_below : range 0 first ⊆ acked a;
  r_pieces : Z.of_nat (length l) <= pieces a < 2 ^ 31;
  r_index : index_for a l (SendBuffer.write_index_ s);
  r_offset : SendBuffer.stream_offset_ s = len (saved a);
  r_length : len (saved a) <= kMaxLength;
  r_framed : 0 <= framed a <= len (saved a);
  r_sent : 0 <= sent a <= len (saved a);
  r_written : SendBuffer.stream_bytes_written_ s = sent a;
  r_acked : stands_for (SendBuffer.bytes_acked_ s) (acked a);
  r_in_flight : acked a ⊆ range 0 (Z.min (framed a) (sent a));
  r_outstanding : SendBuffer.stream_bytes_outstanding_ s = sent a - card (acked a);
  r_pending : stands_for (SendBuffer.pending_retransmissions_ s) (lost a);
  r_lost : lost a ⊆ range 0 (sent a) ∖ acked a;
  r_fast : SendBuffer.enable_fast_path_on_data_acked_ s = true ->
           SendBuffer.free_mem_slice_out_of_order_ s = true
}.

(** The first slice still waits for an acknowledgement. *)
Definition front_waits (l : list extent) (a : Sending) : Prop :=
  match l with [] => True | x :: _ => ~ range x.1 x.2 ⊆ acked a end.

Definition represents (a : Sending) (s : SendBuffer.SendBuffer) : Prop :=
  exists l first, represents_with l first a s /\ front_waits l a.

Lemma represents_init free fast :
  represents {| saved := []; framed := 0; sent := 0; acked := ∅; lost := ∅; pieces := 0 |}
             (SendBuffer.init free fast).
Proof.
  exists [], 0. split; [|done]. split; cbn; try done; try apply stands_for_nil; try set_solver.
  all: try (by destruct free).
Qed.

Lemma uint64_offset x : 0 <= x <= 2 * kMaxLength -> uint64 x = x.
Proof. unfold kMaxLength. intros. apply uint64_small. lia. Qed.

Lemma kMaxLength_eq : kMaxLength = 4611686018427387904.
Proof. done. Qed.

(** The fields of a placed slice *)
Lemma slice_end_kept free D A p n : 0 <= p -> 0 <= n -> p + n <= len D -> len D <= kMaxLength ->
  ~ gone free A (p, n) ->
  SendBuffer.slice_length (place free D A (p, n)) = n /\ SendBuffer.slice_end (place free D A (p, n)) = p + n.
Proof.
  intros Hp Hn Hl Hm Hg. rewrite place_kept by done. unfold SendBuffer.slice_end, SendBuffer.slice_length; simpl.
  pose proof (len_bytes D p n Hp Hn Hl) as E. unfold len in E. rewrite E. split; [done|].
  apply uint64_offset. lia.
Qed.

Lemma slice_end_gone free D A p n : 0 <= p <= kMaxLength -> gone free A (p, n) ->
  SendBuffer.slice_length (place free D A (p, n)) = 0 /\ SendBuffer.slice_end (place free D A (p, n)) = p.
Proof.
  intros Hp Hg. rewrite place_gone by done. unfold SendBuffer.slice_end, SendBuffer.slice_length; simpl.
  split; [done|]. rewrite Z.add_0_r. apply uint64_offset. lia.
Qed.

(** ** Saving *)

(** [data] is saved, in at most [k] slices. *)
Definition save (data : list Z) (k : Z) (a : Sending) : Sending :=
  {| saved := saved a ++ data; framed := framed a; sent := sent a; acked := acked a; lost := lost a;
     pieces := pieces a + k |}.

Definition room (data : list Z) (k : Z) (a : Sending) : Prop :=
  len (saved a) + len data <= kMaxLength /\ pieces a + k < 2 ^ 31.

Lemma save_nil a : save [] 0 a = a.
Proof. destruct a. unfold save. simpl. by rewrite app_nil_r, Z.add_0_r. Qed.

Lemma save_save d e j k a : save e k (save d j a) = save (d ++ e) (j + k) a.
Proof. unfold save. simpl. by rewrite app_assoc, Z.add_assoc. Qed.

Lemma place_app free D E A first l : 0 <= first -> chain first l (len D) ->
  place free (D ++ E) A <$> l = place free D A <$> l.
Proof.
  intros Hf Hc. apply list_fmap_ext. intros i [p n] Hi%list_elem_of_lookup_2.
  apply (chain_in _ _ _ _ _ Hc) in Hi. unfold place. f_equal. case_decide; [done|].
  apply bytes_app; simpl; lia.
Qed.

Section SaveOne.
Context (l : list extent) (first : Z) (a : Sending) (s : SendBuffer.SendBuffer).
Context (Hr : represents_with l first a s).

Lemma framed_unacked : framed a < len (saved a) -> framed a ∉ acked a.
Proof using Hr. intros Hf Ha%(r_in_flight _ _ _ _ Hr)%elem_of_range. lia. Qed.

Lemma end_unacked : len (saved a) ∉ acked a.
Proof using Hr.
  intros Ha%(r_in_flight _ _ _ _ Hr)%elem_of_range. pose proof (r_framed _ _ _ _ Hr). lia.
Qed.

(** The index after a slice for the extent [(len (saved a), n)] was added *)
Lemma index_saved data : 0 < len data -> Z.of_nat (length l) + 1 < 2 ^ 31 ->
  index_for (save data 1 a) (l ++ [(len (saved a), len data)])
    (if SendBuffer.write_index_ s =? -1 then int32 (Z.of_nat (length l)) else SendBuffer.write_index_ s).
Proof using Hr.
  intros Hd Hl. pose proof (r_index _ _ _ _ Hr) as Hi. pose proof (r_framed _ _ _ _ Hr).
  unfold index_for in *. simpl. rewrite len_app. rewrite (decide_False (P := framed a = _ + _)) by lia.
  case_decide as Hf.
  - rewrite Hi. simpl. rewrite int32_small by lia. exists (length l), (len (saved a)), (len data).
    split; [done|]. split; [|lia]. apply list_lookup_middle. done.
  - destruct Hi as (i & p & n & -> & Hi & Hp). rewrite (proj2 (Z.eqb_neq _ _)) by lia.
    exists i, p, n. split; [done|]. split; [|done]. by apply lookup_app_l_Some.
Qed.

Lemma SaveMemSlice_at data : data <> [] -> room data 1 a ->
  terminates_in (SendBuffer.SaveMemSlice data s)
    (fun _ s' => represents_with (l ++ [(len (saved a), len data)]) first (save data 1 a) s').
Proof using Hr.
  intros Hd [Hm Hp]. assert (0 < len data) as Hpos by (destruct data; [done|unfold len; simpl; lia]).
  pose proof Hr as [E1 E2 E3 E4 E6 E7 E8 E9 E10 E11 E12 E13 E14 E15 E16 E17 E18].
  unfold SendBuffer.SaveMemSlice. replace (length data =? 0)%nat with false by (by destruct data).
  pose proof (index_saved data Hpos ltac:(lia)) as Hi.
  cbn [terminates_in modify]. split; cbn -[Z.pow place len Z.add]; rewrite ?len_app; try done; try lia.
  - rewrite E1, fmap_app, (place_app _ _ _ _ first) by done. f_equal. rewrite E8. simpl. unfold place. simpl.
    rewrite decide_False; [by rewrite bytes_end|]. intros [_ Hg]. apply end_unacked, Hg, elem_of_range. simpl. lia.
  - apply chain_app. exists (len (saved a)). split; [done|]. simpl. lia.
  - rewrite length_app. simpl. lia.
  - rewrite E1, length_app, length_fmap. simpl.
    replace (Z.of_nat (length l + 1) - 1) with (Z.of_nat (length l)) by lia. exact Hi.
  - rewrite E8. apply uint64_offset. unfold len in *. lia.
Qed.

Lemma front_saved data : 0 < len data -> front_waits l a ->
  front_waits (l ++ [(len (saved a), len data)]) (save data 1 a).
Proof using Hr.
  intros Hd. pose proof end_unacked as He. destruct l; [|done]. simpl. intros _ Hg.
  apply He, Hg, elem_of_range. lia.
Qed.
End SaveOne.

Lemma SaveMemSlice_spec data a s : represents a s -> room data (if decide (data = []) then 0 else 1) a ->
  terminates_in (SendBuffer.SaveMemSlice data s)
    (fun _ s' => represents (save data (if decide (data = []) then 0 else 1) a) s').
Proof.
  intros (l & first & Hr & Hfront) Hroom. case_decide as Hd.
  - subst. rewrite save_nil. by exists l, first.
  - eapply total_mono; [by apply (SaveMemSlice_at l first a s Hr)|]. intros u s' H.
    eexists _, _. split; [exact H|]. apply (front_saved l first a s Hr); [|done].
    destruct data; [done|unfold len; simpl; lia].
Qed.

(** A span of slices; the empty ones are skipped. *)
Definition span_pieces (buffers : list (list Z)) : Z := Z.of_nat (length buffers).

Lemma represents_weaken a s k : represents a s -> 0 <= k -> pieces a + k < 2 ^ 31 -> represents (save [] k a) s.
Proof.
  intros (l & first & [? ? ? ? ? ? ? ? ? ? ? ? ? ? ? ? ?] & Hfront) Hk Hb. exists l, first. split; [|done].
  split; cbn -[Z.pow]; rewrite ?app_nil_r; try done; try lia.
  unfold index_for in *. simpl. by rewrite app_nil_r.
Qed.

Lemma SaveMemSlicesInSendBuffer_spec buffers : forall a s, represents a s ->
  room (concat buffers) (span_pieces buffers) a ->
  terminates_in (SendBuffer.SaveMemSlicesInSendBuffer buffers s)
    (fun n s' => n = len (concat buffers) /\ represents (save (concat buffers) (span_pieces buffers) a) s').
Proof.
  unfold span_pieces. induction buffers as [|data rest IH]; intros a s Hr Hroom; cbn [SendBuffer.SaveMemSlicesInSendBuffer].
  { simpl. by rewrite save_nil. }
  unfold room in Hroom. simpl in Hroom. rewrite len_app in Hroom.
  assert (0 <= len data /\ 0 <= len (concat rest)) by (unfold len; lia).
  assert (0 <= len (saved a)) by (unfold len; lia).
  assert (terminates_in (when (negb (length data =? 0)%nat) (SendBuffer.SaveMemSlice data) s)
    (fun _ s' => represents (save data 1 a) s')) as Hfirst.
  { destruct data as [|c data]; simpl; [apply represents_weaken; [done|lia|lia]|].
    apply (SaveMemSlice_spec (c :: data) a s Hr). simpl. split; lia. }
  apply total_bind. eapply total_mono; [exact Hfirst|]. intros [] s1 H1.
  apply total_bind. eapply total_mono; [apply (IH _ _ H1)|].
  { unfold room. simpl. rewrite len_app. lia. }
  intros n s2 [-> H2]. cbn [terminates_in mret M_ret]. simpl. rewrite len_app. split.
  - apply uint64_offset. unfold len in *. lia.
  - rewrite save_save in H2. by replace (Z.of_nat (S (length rest))) with (1 + Z.of_nat (length rest)) by lia.
Qed.

Lemma copy_iov_spec iov : forall n, 0 <= n -> SendBuffer.copy_iov iov n = take (Z.to_nat n) (concat iov).
Proof.
  induction iov as [|v iov IH]; intros n Hn; simpl; [by rewrite take_nil|].
  rewrite take_app. destruct (Z.le_gt_cases n (Z.of_nat (length v))) as [Hv|Hv].
  - rewrite Z.min_l, Z.sub_diag by lia. simpl. by replace (Z.to_nat n - length v)%nat with 0%nat by lia.
  - rewrite Z.min_r by lia. rewrite (proj2 (Z.eqb_neq _ _)), IH by lia. f_equal; [|f_equal; lia].
    rewrite !take_ge by lia. done.
Qed.

Lemma CopyToBuffer_spec iov : forall o n, 0 <= o -> 0 <= n ->
  SendBuffer.CopyToBuffer iov o n = bytes (concat iov) o n.
Proof.
  induction iov as [|v iov IH]; intros o n Ho Hn; [unfold bytes; simpl; by rewrite drop_nil, take_nil|].
  unfold SendBuffer.CopyToBuffer, bytes. cbn [SendBuffer.skip_iov].
  destruct (Z.geb_spec o (Z.of_nat (length v))) as [Hv|Hv].
  - fold (SendBuffer.CopyToBuffer iov (o - Z.of_nat (length v)) n). rewrite IH by lia. unfold bytes. simpl.
    rewrite drop_app_ge by lia. do 2 f_equal. lia.
  - simpl concat. rewrite drop_app_le by lia. destruct (Z.eqb_spec n 0) as [->|]; [done|].
    by rewrite copy_iov_spec by lia.
Qed.

(** How many slices hold [n] bytes *)
Definition slices_for (size n : Z) : Z := (n + size - 1) / size.

Lemma slices_for_step size n : 0 < size -> 0 < n -> slices_for size n = 1 + slices_for size (n - Z.min n size).
Proof.
  intros Hs Hn. unfold slices_for. destruct (Z.le_gt_cases n size).
  - rewrite Z.min_l, Z.sub_diag by lia. rewrite (Z.div_small (0 + size - 1)) by lia.
    symmetry. apply Z.div_unique with (n - 1); lia.
  - rewrite Z.min_r by lia. replace (n + size - 1) with ((n - size + size - 1) + 1 * size) by lia.
    rewrite Z.div_add by lia. lia.
Qed.

Lemma slices_for_nonneg size n : 0 < size -> 0 <= n -> 0 <= slices_for size n.
Proof. intros. unfold slices_for. apply Z.div_pos; lia. Qed.

Lemma save_loop_spec size iov fuel : 0 < size -> forall o n a s, 0 <= o -> 0 <= n <= Z.of_nat fuel ->
  o + n <= len (concat iov) -> represents a s -> room (bytes (concat iov) o n) (slices_for size n) a ->
  terminates_in (SendBuffer.save_loop size fuel iov o n s)
    (fun _ s' => represents (save (bytes (concat iov) o n) (slices_for size n) a) s').
Proof.
  intros Hs. induction fuel as [|fuel IH]; intros o n a s Ho Hn Hl Hr Hroom; cbn [SendBuffer.save_loop].
  all: destruct (Z.gtb_spec n 0) as [Hpos|Hzero]; cbn [negb]; try lia.
  1, 3: replace n with 0 by lia; rewrite bytes_0; unfold slices_for; rewrite Z.div_small by lia; by rewrite save_nil.
  pose proof (slices_for_step size n Hs Hpos) as Hk. set (k := Z.min n size) in *.
  assert (0 < k <= n) as Hkn by lia.
  pose proof (slices_for_nonneg size (n - k) Hs ltac:(lia)).
  pose proof (bytes_split (concat iov) o k (n - k) Ho ltac:(lia) ltac:(lia)) as Hsplit.
  replace (k + (n - k)) with n in Hsplit by lia. rewrite Hsplit, Hk in *. clear Hk.
  pose proof (len_bytes (concat iov) o k Ho ltac:(lia) ltac:(lia)) as L1.
  pose proof (len_bytes (concat iov) (o + k) (n - k) ltac:(lia) ltac:(lia) ltac:(lia)) as L2.
  destruct Hroom as [R1 R2]. rewrite len_app in R1.
  rewrite CopyToBuffer_spec by lia. fold (len (bytes (concat iov) o k)). rewrite L1, Z.eqb_refl. cbn [negb].
  assert (bytes (concat iov) o k <> []) as Hne by (intros E; rewrite E in L1; unfold len in L1; simpl in L1; lia).
  apply total_bind. eapply total_mono.
  { apply (SaveMemSlice_spec _ a s Hr). rewrite decide_False by done. split; lia. }
  intros u s1 H1. rewrite decide_False in H1 by done. rewrite <- save_save.
  apply IH; [lia|lia|lia|done|]. split; simpl; rewrite ?len_app; lia.
Qed.

Lemma SaveStreamData_spec size iov o n a s : 0 < size -> 0 <= o -> 0 <= n -> o + n <= len (concat iov) ->
  represents a s -> room (bytes (concat iov) o n) (slices_for size n) a ->
  terminates_in (SendBuffer.SaveStreamData size iov o n s)
    (fun _ s' => represents (save (bytes (concat iov) o n) (slices_for size n) a) s').
Proof. intros. apply save_loop_spec; try done. lia. Qed.

(** ** Serialising *)

(** New data was put into packets up to [o + n]. *)
Definition put_in_packet (o n : Z) (a : Sending) : Sending :=
  {| saved := saved a; framed := Z.max (framed a) (o + n); sent := sent a; acked := acked a; lost := lost a;
     pieces := pieces a |}.

Section Write.
Context (free : bool) (D : list Z) (A : gset Z) (HD : len D <= kMaxLength).

Definition advanced (hit : bool) (k : nat) (s : SendBuffer.SendBuffer) : SendBuffer.SendBuffer :=
  if hit then SendBuffer.set_write_index (SendBuffer.write_index_ s + Z.of_nat k) s else s.

Lemma advanced_0 hit s : advanced hit 0 s = s.
Proof. destruct hit; [|done]. unfold advanced, SendBuffer.set_write_index. rewrite Z.add_0_r. by destruct s. Qed.

Lemma advanced_S hit k s : advanced hit k (advanced hit 1 s) = advanced hit (S k) s.
Proof.
  destruct hit; [|done]. unfold advanced, SendBuffer.set_write_index, SendBuffer.with_slices. simpl.
  f_equal. lia.
Qed.

(** A slice that is written from *)
Lemma write_in_slice hit p m l o n w s : 0 <= p -> p <= o < p + m -> 0 < n -> o + n <= len D -> p + m <= len D ->
  ~ gone free A (p, m) -> fits w (Z.to_nat n) -> (hit = true -> 0 <= SendBuffer.write_index_ s < 2 ^ 31 - 1) ->
  let c := Z.min n (p + m - o) in
  SendBuffer.write_slices hit (place free D A (p, m) :: l) o n w s
  = SendBuffer.write_slices hit l (o + c) (n - c) (append w (bytes D o c))
      (advanced hit (if decide (p + m <= o + n) then 1 else 0) s).
Proof using HD.
  intros Hp Ho Hn Hl Hm Hg Hw Hi c. cbn [SendBuffer.write_slices].
  destruct (slice_end_kept free D A p m Hp ltac:(lia) Hm HD Hg) as [E1 E2]. rewrite E1, E2.
  rewrite (place_kept free D A (p, m) Hg). cbn [SendBuffer.offset SendBuffer.slice fst snd].
  rewrite (proj2 (Z.eqb_neq n 0)), (proj2 (Z.ltb_ge o p)) by lia. cbn [orb].
  destruct (Z.geb_spec o (p + m)); [lia|]. rewrite kMaxLength_eq in HD.
  rewrite !(uint64_small (o - p)), !(uint64_small (m - (o - p))) by lia.
  replace (m - (o - p)) with (p + m - o) by lia. fold c. rewrite bytes_inside by lia.
  unfold mbind at 1, M_bind at 1. unfold SendBuffer.on_writer.
  assert (length (bytes D o c) = Z.to_nat c) as Hlen.
  { pose proof (len_bytes D o c ltac:(lia) ltac:(lia) ltac:(lia)). unfold len in *. lia. }
  rewrite WriteBytes_ok by (rewrite Hlen; unfold fits in *; lia). cbn [fst snd negb].
  rewrite !(uint64_small (o + c)) by lia.
  unfold mbind, M_bind, when, modify. destruct (decide (p + m <= o + n)).
  - replace (c =? p + m - o) with true by lia. destruct hit; cbn [andb]; simpl; [|by rewrite uint64_small by lia].
    specialize (Hi eq_refl). rewrite int32_small by lia. rewrite uint64_small by lia. done.
  - replace (c =? p + m - o) with false by lia. rewrite andb_false_r, advanced_0. simpl. by rewrite uint64_small by lia.
Qed.

Lemma write_nothing hit l o w s : SendBuffer.write_slices hit l o 0 w s = Ret (Some 0, w) s.
Proof using. by destruct l. Qed.

Lemma append_nothing w : append w [] = w.
Proof using.
  unfold append, Writer.set_length, Writer.copy_at. simpl. rewrite Nat.add_0_r, take_drop. by destruct w.
Qed.

Lemma write_slices_spec hit l : forall first o n w s, 0 <= first -> chain first l (len D) ->
  first <= o -> 0 <= n -> o + n <= len D -> range o n ## A -> fits w (Z.to_nat n) ->
  (hit = true -> 0 <= SendBuffer.write_index_ s /\ SendBuffer.write_index_ s + Z.of_nat (length l) < 2 ^ 31) ->
  (hit = true -> match l with [] => True | x :: _ => o < x.1 + x.2 end) ->
  SendBuffer.write_slices hit (place free D A <$> l) o n w s
  = Ret (Some 0, append w (bytes D o n)) (advanced hit (ended (o + n) l) s).
Proof using HD.
  induction l as [|[p m] l IH]; intros first o n w s Hf Hc Ho Hn Hl Hd Hw Hb Hhit.
  { simpl in Hc. replace n with 0 by lia. simpl. rewrite bytes_0, append_nothing. by rewrite advanced_0. }
  destruct (Z.eqb_spec n 0) as [->|Hn0].
  { rewrite write_nothing, bytes_0, append_nothing. destruct hit; [|done]. specialize (Hhit eq_refl). simpl in Hhit.
    rewrite ended_cons, decide_False by lia. destruct Hc as (-> & Hm & Hc).
    rewrite (ended_none _ _ _ _ Hc) by lia. by rewrite advanced_0. }
  destruct Hc as (-> & Hm & Hc). pose proof (chain_le _ _ _ Hc) as Hle. rewrite fmap_cons.
  destruct (Z.lt_ge_cases o (first + m)) as [Hin|Hout].
  - assert (~ gone free A (first, m)) as Hg.
    { intros [_ Hg]. apply (Hd o); [apply elem_of_range; lia|]. apply Hg, elem_of_range. simpl. lia. }
    rewrite write_in_slice; [|done|lia|lia|lia|lia|done|done|intros Eh; specialize (Hb Eh); simpl in Hb; lia]. set (c := Z.min n (first + m - o)).
    assert (length (bytes D o c) = Z.to_nat c) as Hlen.
    { pose proof (len_bytes D o c ltac:(lia) ltac:(lia) ltac:(lia)). unfold len in *. lia. }
    rewrite ended_cons. case_decide as Hend.
    + assert (c = first + m - o) as Hcc by lia.
      rewrite (IH (first + m)); [|lia|done|lia|lia|lia| | | |].
      * rewrite advanced_S, append_app by (unfold fits in *; rewrite Hlen; unfold bytes; rewrite length_take; lia).
        rewrite <- bytes_split by lia.
        replace (c + (n - c)) with n by lia. replace (o + c + (n - c)) with (o + n) by lia. done.
      * intros v Hv Ha. apply (Hd v); [|done]. rewrite elem_of_range in *. lia.
      * apply append_fits. rewrite Hlen. unfold fits in *. lia.
      * intros ->. specialize (Hb eq_refl). simpl in *. lia.
      * intros _. destruct l as [|[q k] l']; [done|]. destruct Hc as (-> & ? & ?). simpl. lia.
    + replace c with n by lia. rewrite Z.sub_diag, write_nothing. rewrite (ended_none _ _ _ _ Hc) by lia. done.
  - assert (hit = false) as -> by (destruct hit; [specialize (Hhit eq_refl); simpl in Hhit; lia|done]).
    cbn [SendBuffer.write_slices].
    assert (SendBuffer.offset (place free D A (first, m)) = first) as -> by done.
    rewrite (proj2 (Z.eqb_neq n 0)), (proj2 (Z.ltb_ge o first)) by lia. cbn [orb].
    assert (SendBuffer.slice_end (place free D A (first, m)) <= o) as Hle'.
    { destruct (decide (gone free A (first, m))) as [Hg|Hg].
      - destruct (slice_end_gone free D A first m ltac:(lia) Hg) as [_ ->]. lia.
      - destruct (slice_end_kept free D A first m Hf ltac:(lia) ltac:(lia) HD Hg) as [_ ->]. lia. }
    destruct (Z.geb_spec o (SendBuffer.slice_end (place free D A (first, m)))); [|lia].
    rewrite (IH (first + m)); try done; lia.
Qed.
End Write.

(** New data is written where the last write ended, old data again. *)
Definition may_write (o n : Z) (a : Sending) : Prop :=
  0 <= o /\ 0 < n /\ o + n <= len (saved a) /\ (o = framed a \/ o + n <= framed a) /\ range o n ## acked a.

Lemma set_same_index s : SendBuffer.set_write_index (SendBuffer.write_index_ s) s = s.
Proof. by destruct s. Qed.

Section WriteAt.
Context (l : list extent) (first : Z) (a : Sending) (s : SendBuffer.SendBuffer).
Context (Hr : represents_with l first a s).

Lemma unacked_first v : 0 <= v -> v ∉ acked a -> first <= v.
Proof using Hr.
  intros Hv Hn. destruct (Z.le_gt_cases first v); [done|]. exfalso. apply Hn, (r_below _ _ _ _ Hr), elem_of_range. lia.
Qed.

Lemma framed_represents o n i : may_write o n a -> index_for (put_in_packet o n a) l i ->
  represents_with l first (put_in_packet o n a) (SendBuffer.set_write_index i s).
Proof using Hr.
  intros (Ho & Hn & Hl & _ & Hd) Hi.
  destruct Hr as [E1 E2 E3 E4 E6 E7 E8 E9 E10 E11 E12 E13 E14 E15 E16 E17 E18].
  split; simpl; try done; [lia|]. intros v Hv. specialize (E14 v Hv). rewrite elem_of_range in *. lia.
Qed.

(** The index does not move for data that was in packets before. *)
Lemma index_stays o n i : o + n <= framed a -> index_for a l i -> index_for (put_in_packet o n a) l i.
Proof using. intros Hn. unfold index_for. simpl. by rewrite Z.max_l by lia. Qed.

(** A write that does not start at the indexed slice *)
Lemma write_missed o n w : may_write o n a -> o + n <= framed a -> fits w (Z.to_nat n) ->
  exists s', SendBuffer.write_from false (SendBuffer.buffered_slices_ s) o n w s
    = Ret (true, append w (bytes (saved a) o n)) s' /\ represents_with l first (put_in_packet o n a) s'.
Proof using Hr.
  intros Hm Hle Hw. pose proof Hm as (Ho & Hn & Hl & _ & Hd). exists s. split.
  - unfold SendBuffer.write_from, mbind at 1, M_bind at 1. rewrite (r_slices _ _ _ _ Hr).
    rewrite (write_slices_spec _ _ _ (r_length _ _ _ _ Hr) false l first); try done; try lia.
    + apply (r_first _ _ _ _ Hr).
    + apply (r_chain _ _ _ _ Hr).
    + apply unacked_first; [lia|]. intros Ha. apply (Hd o); [apply elem_of_range; lia|done].
  - rewrite <- (set_same_index s). apply framed_represents; [done|].
    apply index_stays; [done|]. apply (r_index _ _ _ _ Hr).
Qed.

(** The index after a write from the indexed slice on *)
Lemma index_after i p m o n : l !! i = Some (p, m) -> p <= framed a < p + m -> p <= o -> may_write o n a ->
  chain p (drop i l) (len (saved a)) ->
  let k := (i + ended (o + n) (drop i l))%nat in
  index_for (put_in_packet o n a) l (if Z.of_nat k =? Z.of_nat (length l) then -1 else Z.of_nat k).
Proof using.
  intros Hi Hp Hpo (Ho & Hn & Hl & Hwhere & _) Hc. pose proof (lookup_lt_Some _ _ _ Hi) as Hilt.
  assert (p + m <= len (saved a)) by (apply (chain_in _ _ _ p m Hc); rewrite (drop_S _ _ _ Hi); left).
  unfold index_for. simpl. destruct (Z.eqb_spec (o + n) (len (saved a))) as [E|E].
  - rewrite E, (ended_all _ _ _ Hc), length_drop. replace (i + (length l - i))%nat with (length l) by lia.
    rewrite Z.eqb_refl, decide_True by lia. done.
  - rewrite decide_False by lia. destruct (ended_next (o + n) _ _ _ Hc) as (q & j & Hq & Hqt); [lia|].
    rewrite lookup_drop in Hq. pose proof (lookup_lt_Some _ _ _ Hq).
    rewrite (proj2 (Z.eqb_neq _ _)) by lia. exists (i + ended (o + n) (drop i l))%nat.
    destruct Hwhere as [->|Hold]; [exists q, j; by rewrite Z.max_r by lia|].
    assert (ended (o + n) (drop i l) = 0%nat) as ->.
    { rewrite (drop_S _ _ _ Hi) in *. destruct Hc as (_ & _ & Hc).
      rewrite ended_cons, decide_False, (ended_none _ _ _ _ Hc) by lia. done. }
    rewrite Nat.add_0_r. exists p, m. split; [done|]. split; [done|lia].
Qed.

(** A write that does *)
Lemma write_hit i p m o n w : SendBuffer.write_index_ s = Z.of_nat i -> l !! i = Some (p, m) ->
  p <= framed a < p + m -> p <= o -> may_write o n a -> fits w (Z.to_nat n) ->
  exists s', SendBuffer.write_from true (drop i (SendBuffer.buffered_slices_ s)) o n w s
    = Ret (true, append w (bytes (saved a) o n)) s' /\ represents_with l first (put_in_packet o n a) s'.
Proof using Hr.
  intros Ei Hi Hp Hpo Hm Hw. pose proof Hm as (Ho & Hn & Hl & Hwhere & Hd).
  pose proof (r_pieces _ _ _ _ Hr) as Hpieces. pose proof (lookup_lt_Some _ _ _ Hi) as Hilt.
  pose proof (r_chain _ _ _ _ Hr) as Hc. rewrite <- (take_drop_middle l i _ Hi) in Hc.
  apply chain_app in Hc as (c & Hc0%chain_le & Hc).
  assert (c = p) as -> by (by destruct Hc). pose proof (r_first _ _ _ _ Hr).
  set (k := ended (o + n) (drop i l)). rewrite <- (drop_S _ _ _ Hi) in Hc.
  assert (SendBuffer.write_slices true (drop i (SendBuffer.buffered_slices_ s)) o n w s
    = Ret (Some 0, append w (bytes (saved a) o n)) (advanced true k s)) as Ew.
  { rewrite (r_slices _ _ _ _ Hr), <- fmap_drop. unfold k.
    rewrite (write_slices_spec _ _ _ (r_length _ _ _ _ Hr) true _ p); try done; try lia.
    - intros _. rewrite Ei, length_drop. lia.
    - intros _. rewrite (drop_S _ _ _ Hi). simpl. destruct Hwhere; lia. }
  assert (index_for (put_in_packet o n a) l
    (if Z.of_nat (i + k) =? Z.of_nat (length l) then -1 else Z.of_nat (i + k))) as Hidx.
  { apply (index_after i p m o n); done. }
  unfold SendBuffer.write_from, SendBuffer.finish_write, mbind, M_bind, get, when, modify. rewrite Ew. simpl.
  rewrite Ei, (r_slices _ _ _ _ Hr), length_fmap, <- Nat2Z.inj_add.
  rewrite uint64_small by (pose proof (ended_length (o + n) (drop i l)); rewrite length_drop in *; lia).
  destruct (_ =? _); eexists; (split; [reflexivity|]).
  - unfold SendBuffer.set_write_index. simpl. by apply (framed_represents o n (-1)).
  - by apply (framed_represents o n).
Qed.
End WriteAt.

Lemma WriteStreamData_spec o n w a s : represents a s -> may_write o n a -> fits w (Z.to_nat n) ->
  exists s', SendBuffer.WriteStreamData o n w s = Ret (true, append w (bytes (saved a) o n)) s' /\
    represents (put_in_packet o n a) s'.
Proof.
  intros (l & first & Hr & Hfront) Hm Hw. pose proof Hm as (Ho & Hn & Hl & Hwhere & Hd).
  pose proof (r_index _ _ _ _ Hr) as Hi. pose proof (r_framed _ _ _ _ Hr).
  assert (forall s', represents_with l first (put_in_packet o n a) s' -> represents (put_in_packet o n a) s') as Hout
    by (intros s' H'; by exists l, first).
  unfold SendBuffer.WriteStreamData, mbind, M_bind, get. unfold index_for in Hi. case_decide as Hf.
  { rewrite Hi. simpl. destruct (write_missed l first a s Hr o n w) as (s' & -> & Hs'); [done|lia|done|]. eauto. }
  destruct Hi as (i & p & m & Ei & Hi & Hp). rewrite Ei, (proj2 (Z.eqb_neq _ _)), (proj2 (Z.ltb_ge _ _)), Nat2Z.id by lia.
  pose proof (chain_in _ _ _ p m (r_chain _ _ _ _ Hr)) as Hin.
  destruct Hin as (Hfirst & Hm0 & Hpm); [by apply list_elem_of_lookup_2 in Hi|].
  assert (SendBuffer.buffered_slices_ s !! i = Some
    (place (SendBuffer.free_mem_slice_out_of_order_ s) (saved a) (acked a) (p, m))) as Ex.
  { rewrite (r_slices _ _ _ _ Hr), list_lookup_fmap, Hi. done. }
  rewrite Ex. cbn [deref]. pose proof (r_first _ _ _ _ Hr).
  destruct (slice_end_kept (SendBuffer.free_mem_slice_out_of_order_ s) (saved a) (acked a) p m) as [_ Eend];
    [lia|lia|done|apply (r_length _ _ _ _ Hr)| |].
  { intros [_ Hg]. apply (framed_unacked l first a s Hr); [lia|]. apply Hg, elem_of_range. simpl. lia. }
  rewrite Eend. destruct (Z.geb_spec o (p + m)); [destruct Hwhere; lia|].
  assert (SendBuffer.offset (place (SendBuffer.free_mem_slice_out_of_order_ s) (saved a) (acked a) (p, m)) = p) as -> by done.
  destruct (Z.geb_spec o p).
  - destruct (write_hit l first a s Hr i p m o n w) as (s' & -> & Hs'); try done. eauto.
  - destruct (write_missed l first a s Hr o n w) as (s' & -> & Hs'); [done|lia|done|]. eauto.
Qed.

(** ** Acknowledging *)

Definition consume (n : Z) (a : Sending) : Sending :=
  {| saved := saved a; framed := framed a; sent := sent a + n; acked := acked a; lost := lost a; pieces := pieces a |}.

Lemma OnStreamDataConsumed_spec n a s : represents a s -> 0 <= n -> sent a + n <= len (saved a) ->
  terminates_in (SendBuffer.OnStreamDataConsumed n s) (fun _ s' => represents (consume n a) s').
Proof.
  intros (l & first & [E1 E2 E3 E4 E6 E7 E8 E9 E10 E11 E12 E13 E14 E15 E16 E17 E18] & Hfront) Hn Hl.
  pose proof (card_nonneg (acked a)). pose proof (card_mono _ _ E14) as Hc. rewrite card_range in Hc by lia.
  exists l, first. split; [|done]. rewrite kMaxLength_eq in *. split; simpl; try done; try lia.
  - rewrite uint64_small by lia. lia.
  - intros v Hv. specialize (E14 v Hv). rewrite elem_of_range in *. lia.
  - rewrite uint64_small by lia. lia.
  - intros v Hv. specialize (E17 v Hv). range_solver.
Qed.

(** [X] is acknowledged. *)
Definition ack (X : gset Z) (a : Sending) : Sending :=
  {| saved := saved a; framed := framed a; sent := sent a; acked := acked a ∪ X; lost := lost a ∖ X;
     pieces := pieces a |}.

Lemma lower_bound_spec start l :
  Forall (fun x => SendBuffer.slice_end x < start) (take (SendBuffer.lower_bound start l) l) /\
  match drop (SendBuffer.lower_bound start l) l with [] => True | x :: _ => start <= SendBuffer.slice_end x end.
Proof.
  induction l as [|x l [IH1 IH2]]; [done|]. cbn [SendBuffer.lower_bound].
  destruct (Z.ltb_spec (SendBuffer.slice_end x) start); simpl; [split; [by constructor|done]|done].
Qed.

Lemma pop_front_spec done l i : exists k, (k <= length l)%nat /\
  SendBuffer.pop_front done l i = (drop k l, if i <? 0 then i else Z.max 0 (i - Z.of_nat k)) /\
  Forall (fun x => done x = true) (take k l) /\
  match drop k l with [] => True | x :: _ => done x = false end.
Proof.
  revert i. induction l as [|x l IH]; intros i; cbn [SendBuffer.pop_front].
  { exists 0%nat. simpl. split; [done|]. split; [|done]. f_equal. destruct (Z.ltb_spec i 0); lia. }
  destruct (done x) eqn:Ex.
  - destruct (IH (if i >? 0 then i - 1 else i)) as (k & Hk & E & H1 & H2). exists (S k). simpl.
    split; [lia|]. split; [|split; [by constructor|done]]. rewrite E. f_equal.
    destruct (Z.gtb_spec i 0), (Z.ltb_spec i 0); try lia; destruct (Z.ltb_spec (i - 1) 0); lia.
  - exists 0%nat. simpl. split; [lia|]. split; [|done]. f_equal. destruct (Z.ltb_spec i 0); lia.
Qed.

(** Removing from the front what was acknowledged *)
Section Pop.
Context (l : list extent) (first : Z) (a : Sending) (s : SendBuffer.SendBuffer).
Context (Hr : represents_with l first a s).
Context (done : SendBuffer.BufferedSlice -> bool).
Notation placed := (place (SendBuffer.free_mem_slice_out_of_order_ s) (saved a) (acked a)).
Context (Hdone : forall x, x ∈ l -> done (placed x) = true <-> range x.1 x.2 ⊆ acked a).

Lemma index_popped k i : Forall (fun x => range x.1 x.2 ⊆ acked a) (take k l) ->
  index_for a l i -> index_for a (drop k l) (if i <? 0 then i else Z.max 0 (i - Z.of_nat k)).
Proof using Hr.
  intros Hk. unfold index_for. case_decide as Hf; [by intros ->|]. intros (j & p & n & -> & Hj & Hp).
  assert (k <= j)%nat as Hkj.
  { destruct (le_lt_dec k j); [done|exfalso]. pose proof (r_framed _ _ _ _ Hr).
    apply (framed_unacked l first a s Hr); [lia|]. rewrite Forall_forall in Hk.
    apply (Hk (p, n)); [|apply elem_of_range; simpl; lia].
    apply list_elem_of_lookup. exists j. rewrite lookup_take. case_decide; [done|lia]. }
  rewrite (proj2 (Z.ltb_ge _ _)), Z.max_r by lia. exists (j - k)%nat, p, n. split; [lia|].
  rewrite lookup_drop. split; [|done]. rewrite <- Hj. f_equal. lia.
Qed.

Lemma below_popped k c : Forall (fun x => range x.1 x.2 ⊆ acked a) (take k l) -> chain first (take k l) c ->
  range 0 c ⊆ acked a.
Proof using Hr.
  intros Hk Hc v Hv%elem_of_range. destruct (Z.lt_ge_cases v first).
  - apply (r_below _ _ _ _ Hr), elem_of_range. lia.
  - destruct (chain_find _ _ _ v Hc) as (j & p & n & Hj & Hp); [lia|].
    rewrite Forall_forall in Hk. apply (Hk (p, n)); [by eapply list_elem_of_lookup_2|]. apply elem_of_range. simpl. lia.
Qed.

Lemma pop_spec :
  let '(m, i) := SendBuffer.pop_front done (SendBuffer.buffered_slices_ s) (SendBuffer.write_index_ s) in
  represents a (SendBuffer.with_slices s m (SendBuffer.stream_offset_ s) i).
Proof using Hr Hdone.
  destruct (pop_front_spec done (SendBuffer.buffered_slices_ s) (SendBuffer.write_index_ s))
    as (k & Hk & -> & Hpop & Hkeep).
  rewrite (r_slices _ _ _ _ Hr) in *. rewrite <- fmap_take in Hpop. rewrite <- fmap_drop in *.
  assert (Forall (fun x => range x.1 x.2 ⊆ acked a) (take k l)) as Htake.
  { apply Forall_forall. intros x Hx. apply Hdone; [by eapply in_take|].
    rewrite Forall_fmap, Forall_forall in Hpop. by apply Hpop. }
  pose proof (r_chain _ _ _ _ Hr) as Hc. rewrite <- (take_drop k l) in Hc.
  apply chain_app in Hc as (c & Hc1 & Hc2). pose proof (below_popped k c Htake Hc1) as Hbelow.
  pose proof (index_popped k _ Htake (r_index _ _ _ _ Hr)) as Hi. apply chain_le in Hc1.
  pose proof Hr as [E1 E2 E3 E4 E6 E7 E8 E9 E10 E11 E12 E13 E14 E15 E16 E17 E18].
  exists (drop k l), c. split; [split; simpl; try done; try lia|].
  - rewrite length_drop. lia.
  - unfold front_waits. destruct (drop k l) as [|x l'] eqn:Ed; [done|]. simpl in Hkeep. intros Hx.
    apply Hdone in Hx; [by rewrite Hx in Hkeep|]. apply (in_drop k). rewrite Ed. left.
Qed.
End Pop.

(** Giving up slices *)
Section Free.
Context (D : list Z) (A B : gset Z) (acked_ : IntervalSet.t) (start end_ : Z).
Context (HD : len D <= kMaxLength) (HB : stands_for acked_ B) (HAB : A ⊆ B).
Context (Hnew : forall v, v ∈ B -> v ∉ A -> start <= v < end_).

Lemma free_slices_spec l : forall o, 0 <= o -> chain o l (len D) ->
  SendBuffer.free_slices acked_ end_ (place true D A <$> l) = place true D B <$> l.
Proof using HD HB HAB Hnew.
  induction l as [|[p n] l IH]; intros o Ho Hc; [done|]. rewrite !fmap_cons. cbn [SendBuffer.free_slices].
  pose proof Hc as (-> & Hn & Hc'). pose proof (chain_le _ _ _ Hc') as Hle.
  assert (SendBuffer.offset (place true D A (o, n)) = o) as -> by done.
  destruct (Z.geb_spec o end_) as [Hend|Hend].
  - rewrite <- !fmap_cons. apply list_fmap_ext. intros i [q m] Hi%list_elem_of_lookup_2.
    apply (chain_in _ _ _ _ _ Hc) in Hi. apply place_same. simpl. split; [intros ?; by etrans|]. intros H v Hv.
    pose proof (H v Hv) as HvB. apply elem_of_range in Hv. destruct (decide (v ∈ A)) as [|HvA]; [done|].
    specialize (Hnew v HvB HvA). lia.
  - f_equal; [|by apply (IH (o + n)); [lia|]]. unfold SendBuffer.slice_empty.
    destruct (decide (gone true A (o, n))) as [Hg|Hg].
    + destruct (slice_end_gone true D A o n ltac:(lia) Hg) as [-> _]. simpl.
      rewrite (place_gone true D A), (place_gone true D B); [done| |done].
    destruct Hg as [_ Hg]. split; [done|by etrans].
    + destruct (slice_end_kept true D A o n Ho ltac:(lia) Hle HD Hg) as [-> ->].
      rewrite (proj2 (Z.eqb_neq n 0)) by lia. cbn [negb andb].
      pose proof (stands_for_contains acked_ B HB o n Hn) as Hcon.
      destruct (IntervalSet.ContainsInterval _ _).
      * rewrite (place_gone true D B); [done|]. split; [done|]. by apply Hcon.
      * rewrite (place_kept true D A), (place_kept true D B); [done| |done]. intros [_ Hb]. by apply Hcon in Hb.
Qed.

(** The slices before [start] do not change. *)
Lemma place_before first l k : 0 <= first -> chain first l (len D) ->
  Forall (fun x => SendBuffer.slice_end x < start) (place true D A <$> take k l) ->
  place true D A <$> take k l = place true D B <$> take k l.
Proof using HD HAB Hnew.
  intros Hf Hc Hk. apply list_fmap_ext. intros i [p n] Hi%list_elem_of_lookup_2.
  rewrite Forall_fmap, Forall_forall in Hk. specialize (Hk _ Hi). simpl in Hk.
  assert ((p, n) ∈ l) as Hin by (by eapply in_take). apply (chain_in _ _ _ _ _ Hc) in Hin.
  destruct (decide (gone true A (p, n))) as [Hg|Hg].
  - rewrite (place_gone true D A), (place_gone true D B); [done| |done].
    destruct Hg as [_ Hg]. split; [done|by etrans].
  - destruct (slice_end_kept true D A p n) as [_ E]; [lia|lia|lia|done|done|]. rewrite E in Hk.
    apply place_same. simpl. split; [intros ?; by etrans|]. intros H v Hv. pose proof (H v Hv) as HvB.
    apply elem_of_range in Hv. destruct (decide (v ∈ A)) as [|HvA]; [done|].
    specialize (Hnew v HvB HvA). lia.
Qed.

Lemma FreeMemSlices_spec first l s : 0 <= first <= start -> chain first l (len D) ->
  start < len D -> start ∉ A -> SendBuffer.buffered_slices_ s = place true D A <$> l ->
  SendBuffer.bytes_acked_ s = acked_ ->
  SendBuffer.FreeMemSlices start end_ s = Ret true
    (SendBuffer.with_slices s (place true D B <$> l) (SendBuffer.stream_offset_ s) (SendBuffer.write_index_ s)).
Proof using HD HB HAB Hnew.
  intros Hf Hc Hs Ha Hl Hacked. unfold SendBuffer.FreeMemSlices, mbind, M_bind, get, modify. rewrite Hl.
  destruct (lower_bound_spec start (place true D A <$> l)) as [H1 H2].
  set (k := SendBuffer.lower_bound start (place true D A <$> l)) in *.
  rewrite <- fmap_take in *. rewrite <- fmap_drop in *.
  destruct (chain_find _ _ _ start Hc) as (i & p & n & Hi & Hp); [lia|].
  pose proof (chain_in _ _ _ p n Hc ltac:(by eapply list_elem_of_lookup_2)) as Hin.
  assert (~ gone true A (p, n)) as Hg by (intros [_ Hg]; apply Ha, Hg, elem_of_range; simpl; lia).
  destruct (slice_end_kept true D A p n) as [_ Eend]; [lia|lia|lia|done|done|].
  assert (k <= i)%nat as Hki.
  { destruct (le_lt_dec k i); [done|exfalso]. rewrite Forall_fmap, Forall_forall in H1.
    specialize (H1 (p, n)). simpl in H1. rewrite Eend in H1. apply (Z.lt_irrefl start).
    eapply Z.le_lt_trans; [|apply H1]; [lia|]. apply list_elem_of_lookup. exists i. rewrite lookup_take. case_decide; [done|lia]. }
  destruct (drop k l) as [|[q m] l'] eqn:Ed.
  { exfalso. apply (f_equal length) in Ed. rewrite length_drop in Ed. apply lookup_lt_Some in Hi. simpl in Ed. lia. }
  rewrite fmap_cons in *.
  assert (l !! k = Some (q, m)) as Hk by (rewrite <- (take_drop k l), Ed; apply list_lookup_middle; rewrite length_take; apply lookup_lt_Some in Hi; lia).
  pose proof (chain_in _ _ _ q m Hc ltac:(by eapply list_elem_of_lookup_2)) as Hqin.
  assert (~ gone true A (q, m)) as Hgq.
  { intros Hgq. destruct (slice_end_gone true D A q m ltac:(lia) Hgq) as [_ E]. rewrite E in H2.
    destruct (decide (k = i)) as [->|]; [rewrite Hi in Hk; by injection Hk as -> ->|].
    pose proof (chain_order _ _ _ k i q m p n Hc Hk Hi ltac:(lia)).
    assert (start = q) as -> by lia. destruct Hgq as [_ Hgq]. apply Ha, Hgq, elem_of_range. simpl. lia. }
  unfold SendBuffer.slice_empty. destruct (slice_end_kept true D A q m) as [-> _]; [lia|lia|lia|done|done|].
  rewrite (proj2 (Z.eqb_neq m 0)) by lia. unfold mret, M_ret. rewrite Hl, Hacked. do 2 f_equal.
  assert (chain q ((q, m) :: l') (len D)) as Hcq.
  { rewrite <- (take_drop k l), Ed in Hc. apply chain_app in Hc as (c & _ & Hc). by destruct Hc as (-> & ? & ?). }
  rewrite <- fmap_take, <- fmap_drop, Ed, (free_slices_spec _ q) by (done || lia).
  rewrite (place_before first) by (done || lia). by rewrite <- fmap_app, <- Ed, take_drop.
Qed.
End Free.
