(* ===== verification/SendAcks.v ===== *)
(** Acknowledgement and loss in the send buffer: what [OnStreamDataAcked], in all
    its paths, [OnStreamDataLost] and [OnStreamDataRetransmitted] do to the state
    of Sending.v, and what the queries answer. *)

From S2P Require Import Prelude IntervalSet Intervals QuicData Wire SendBuffer Sending.
Import Interval.

(** ** Acknowledging *)

(** What can be acknowledged: bytes that were put into packets and consumed. *)
Definition in_flight (o n : Z) (a : Sending) : Prop :=
  0 <= o /\ 0 <= n /\ o + n <= framed a /\ o + n <= sent a.

(** [s] with [k] bytes less outstanding and other sets *)
Definition set_acked (k : Z) (al pl : IntervalSet.t) (s : SendBuffer.SendBuffer) : SendBuffer.SendBuffer :=
  SendBuffer.with_sets (SendBuffer.with_counts s (SendBuffer.stream_bytes_written_ s)
    (SendBuffer.stream_bytes_outstanding_ s - k)) al pl.

Section Ack.
Context (l : list extent) (first : Z) (a : Sending) (s : SendBuffer.SendBuffer) (o n : Z).
Context (Hr : represents_with l first a s) (Hfly : in_flight o n a).
Notation X := (range o n).
Notation free := (SendBuffer.free_mem_slice_out_of_order_ s).
Notation acked' := (acked a ∪ range o n).

Lemma range_in_flight : X ⊆ range 0 (Z.min (framed a) (sent a)).
Proof using Hfly. destruct Hfly as (? & ? & ? & ?). intros v Hv. rewrite elem_of_range in *. lia. Qed.

Lemma end_small : uint64 (o + n) = o + n /\ 0 <= o + n <= kMaxLength.
Proof using Hr Hfly.
  destruct Hfly as (? & ? & ? & ?). pose proof (r_sent _ _ _ _ Hr). pose proof (r_length _ _ _ _ Hr).
  split; [apply uint64_offset|]; lia.
Qed.

Lemma newly_bound : 0 <= card (X ∖ acked a) <= SendBuffer.stream_bytes_outstanding_ s /\
  SendBuffer.stream_bytes_outstanding_ s <= kMaxLength.
Proof using Hr Hfly.
  pose proof (card_nonneg (X ∖ acked a)). pose proof (card_nonneg (acked a)).
  pose proof (r_length _ _ _ _ Hr). pose proof (r_sent _ _ _ _ Hr).
  rewrite (r_outstanding _ _ _ _ Hr).
  assert (acked' ⊆ range 0 (sent a)) as Hsub.
  { pose proof range_in_flight as Hx. pose proof (r_in_flight _ _ _ _ Hr) as Ha.
    intros v [Hv%Ha|Hv%Hx]%elem_of_union; rewrite elem_of_range in *; lia. }
  apply card_mono in Hsub. rewrite card_range, card_newly in Hsub by lia. lia.
Qed.

(** The buffer after its sets and counts were updated and its slices follow. *)
Lemma acked_with al pl : stands_for al acked' -> stands_for pl (lost a ∖ X) ->
  represents_with l first (ack X a)
    (SendBuffer.with_slices (set_acked (card (X ∖ acked a)) al pl s)
       (place free (saved a) acked' <$> l) (SendBuffer.stream_offset_ s) (SendBuffer.write_index_ s)).
Proof using Hr Hfly.
  intros Ha Hp. pose proof range_in_flight as Hx. pose proof newly_bound.
  pose proof Hr as [E1 E2 E3 E4 E6 E7 E8 E9 E10 E11 E12 E13 E14 E15 E16 E17 E18].
  split; simpl; try done.
  - set_solver.
  - set_solver.
  - rewrite card_newly, E15. lia.
  - intros v [Hv Hnx]%elem_of_difference. specialize (E17 v Hv). set_solver.
Qed.

(** ... when they need not change. *)
Lemma acked_same al pl : stands_for al acked' -> stands_for pl (lost a ∖ X) ->
  (forall x, place free (saved a) acked' x = place free (saved a) (acked a) x) ->
  represents_with l first (ack X a) (set_acked (card (X ∖ acked a)) al pl s).
Proof using Hr Hfly.
  intros Ha Hp Hsame. pose proof (acked_with al pl Ha Hp) as H.
  assert (place free (saved a) acked' <$> l = SendBuffer.buffered_slices_ s) as E.
  { rewrite (r_slices _ _ _ _ Hr). by apply list_fmap_ext. }
  rewrite E in H. exact H.
Qed.

(** The two updates of the sets *)
Lemma run_updates {A} (f : unit -> M SendBuffer.SendBuffer A) : exists al pl,
  stands_for al acked' /\ stands_for pl (lost a ∖ X) /\
  (SendBuffer.subtract_outstanding (card (X ∖ acked a));; SendBuffer.add_acked o n;;
   (SendBuffer.remove_pending o n ≫= f)) s = f tt (set_acked (card (X ∖ acked a)) al pl s) /\
  (SendBuffer.add_acked o n;; SendBuffer.subtract_outstanding (card (X ∖ acked a));;
   (SendBuffer.remove_pending o n ≫= f)) s = f tt (set_acked (card (X ∖ acked a)) al pl s).
Proof using Hr Hfly.
  destruct end_small as [Eo _]. pose proof newly_bound as Hb. rewrite kMaxLength_eq in Hb.
  pose proof (stands_for_add _ _ (r_acked _ _ _ _ Hr) o n) as Ha.
  destruct (stands_for_remove _ _ (r_pending _ _ _ _ Hr) o n) as (pl & Ep & Hp).
  exists (IntervalSet.AddRange o (o + n) (SendBuffer.bytes_acked_ s)), pl. split; [done|]. split; [done|].
  unfold SendBuffer.subtract_outstanding, SendBuffer.add_acked, SendBuffer.remove_pending, mbind, M_bind, get, modify.
  simpl. rewrite Eo, Ep. simpl. unfold set_acked, SendBuffer.with_sets, SendBuffer.with_counts. simpl.
  rewrite uint64_small by lia. done.
Qed.

(** Removing from the front, with slices that are given up or not *)
Lemma pop_acked (s' : SendBuffer.SendBuffer) (done : SendBuffer.SendBuffer -> SendBuffer.BufferedSlice -> bool) :
  represents_with l first (ack X a) s' -> SendBuffer.free_mem_slice_out_of_order_ s' = free ->
  (forall x, x ∈ l -> done s' (place free (saved a) acked' x) = true <-> range x.1 x.2 ⊆ acked') ->
  exists s'', SendBuffer.pop_slices done s' = Ret tt s'' /\ represents (ack X a) s''.
Proof using.
  intros Hr' Ef Hdone. unfold SendBuffer.pop_slices, modify. eexists. split; [reflexivity|].
  pose proof (pop_spec l first (ack X a) s' Hr' (done s')) as Hp. simpl in Hp. rewrite Ef in Hp.
  specialize (Hp Hdone). by destruct (SendBuffer.pop_front _ _ _).
Qed.

Lemma extent_in p m : (p, m) ∈ l -> 0 <= p /\ 0 < m /\ p + m <= len (saved a) <= kMaxLength.
Proof using Hr.
  intros Hin%(chain_in _ _ _ _ _ (r_chain _ _ _ _ Hr)). pose proof (r_first _ _ _ _ Hr).
  pose proof (r_length _ _ _ _ Hr). lia.
Qed.

Lemma empty_when_acked x : free = true -> x ∈ l ->
  SendBuffer.slice_empty (place free (saved a) acked' x) = true <-> range x.1 x.2 ⊆ acked'.
Proof using Hr.
  intros Ef Hx. destruct x as [p m]. apply extent_in in Hx as (H1 & H2 & H3 & H4).
  unfold SendBuffer.slice_empty. destruct (decide (gone free acked' (p, m))) as [Hg|Hg].
  - destruct (slice_end_gone free (saved a) acked' p m ltac:(lia) Hg) as [-> _]. destruct Hg. done.
  - destruct (slice_end_kept free (saved a) acked' p m H1 ltac:(lia) H3 H4 Hg) as [-> _].
    split; [lia|]. intros H. by destruct Hg.
Qed.

(** [FreeMemSlices] and [CleanUpBufferedSlices] *)
Lemma free_and_clean_up_spec al pl start end_ : free = true -> stands_for al acked' -> stands_for pl (lost a ∖ X) ->
  start ∈ X ∖ acked a -> (forall v, v ∈ X ∖ acked a -> start <= v < end_) ->
  exists s', SendBuffer.free_and_clean_up start end_ (set_acked (card (X ∖ acked a)) al pl s) = Ret true s' /\
    represents (ack X a) s'.
Proof using Hr Hfly.
  intros Ef Ha Hp Hstart Hnew. pose proof (acked_with al pl Ha Hp) as Hs1. rewrite Ef in Hs1.
  pose proof range_in_flight as Hx. pose proof (r_sent _ _ _ _ Hr).
  assert (start ∈ X /\ start ∉ acked a) as [HsX HsA] by set_solver.
  pose proof (Hx start HsX) as Hs0. rewrite elem_of_range in Hs0.
  unfold SendBuffer.free_and_clean_up, mbind, M_bind.
  rewrite (FreeMemSlices_spec (saved a) (acked a) acked' al start end_ (r_length _ _ _ _ Hr) Ha
    ltac:(set_solver) ltac:(set_solver) first l); try done; try lia.
  - cbn [negb]. destruct (pop_acked _ (fun _ => SendBuffer.slice_empty) Hs1) as (s' & E & Hs').
    { done. }
    { intros x. apply empty_when_acked, Ef. }
    exists s'. split; [|done]. unfold SendBuffer.CleanUpBufferedSlices.
    match type of E with ?lhs = _ =>
      match goal with |- context [SendBuffer.pop_slices ?d ?t] => change (SendBuffer.pop_slices d t) with lhs end
    end. by rewrite E.
  - split; [apply (r_first _ _ _ _ Hr)|]. apply (unacked_first l first a s Hr); [lia|done].
  - apply (r_chain _ _ _ _ Hr).
  - simpl. rewrite (r_slices _ _ _ _ Hr). by rewrite Ef.
Qed.

(** The bounds of a set are the first and the last interval. *)
Lemma bounds_of N Y x y N' : stands_for N Y -> N = x :: N' -> last N = Some y ->
  imin x ∈ Y /\ forall v, v ∈ Y -> imin x <= v < imax y.
Proof using.
  intros [Hv Hm] -> Hy. pose proof Hv as [Hne _]%valid_cons. split; [by apply Hm, member_min|].
  intros v Hin%Hm. pose proof (valid_head_least x N' v Hv Hin).
  destruct (SpanningInterval_spec x N' Hv) as (_ & _ & Hs). unfold IntervalSet.SpanningInterval in Hs.
  rewrite Hy in Hs. simpl in Hs. destruct Hin as (z & Hz & Hw). rewrite Forall_forall in Hs.
  specialize (Hs z Hz). unfold within in Hw. lia.
Qed.
End Ack.

Lemma newly_in_range o n a s : represents a s -> in_flight o n a -> range o n ∖ acked a ⊆ range 0 (2 ^ 63).
Proof.
  intros (l & first & Hr & _) Hfly. pose proof (end_small l first a s o n Hr Hfly) as [_ He].
  rewrite kMaxLength_eq in He. destruct Hfly as (? & _). intros v [Hv _]%elem_of_difference. rewrite elem_of_range in *. lia.
Qed.

Lemma union_nothing (A Y : gset Z) : Y ∖ A = ∅ -> A ∪ Y = A.
Proof.
  intros H. apply set_eq. intros v. rewrite elem_of_union. split; [|by left]. intros [?|Hv]; [done|].
  destruct (decide (v ∈ A)); [done|]. exfalso. apply (not_elem_of_empty (C := gset Z) v). rewrite <- H.
  by apply elem_of_difference.
Qed.

(** Nothing new: the sets stay what they are. *)
Lemma ack_nothing X a : X ⊆ acked a -> lost a ## acked a -> ack X a = a.
Proof.
  intros H1 H2. destruct a as [D f t A L p]. unfold ack; simpl in *.
  assert (A ∪ X = A) as -> by set_solver. assert (L ∖ X = L) as -> by set_solver. done.
Qed.

Lemma lost_unacked a s : represents a s -> lost a ## acked a.
Proof. intros (l & first & Hr & _) v Hv%(r_lost _ _ _ _ Hr). set_solver. Qed.

Lemma ack_slowly_spec o n a s : represents a s -> in_flight o n a ->
  exists s', SendBuffer.ack_slowly o n s = Ret (true, card (range o n ∖ acked a)) s' /\
    represents (ack (range o n) a) s'.
Proof.
  intros Hrep Hfly. pose proof (newly_in_range o n a s Hrep Hfly) as Hin. pose proof (lost_unacked a s Hrep) as Hlost.
  pose proof Hrep as (l & first & Hr & Hfront). destruct (end_small l first a s o n Hr Hfly) as [Eo He].
  destruct (stands_for_rest _ _ (r_acked _ _ _ _ Hr) o n) as (N & EN & HN).
  pose proof (newly_bound l first a s o n Hr Hfly) as Hb.
  unfold SendBuffer.ack_slowly, mbind at 1 2, M_bind at 1 2, get. rewrite Eo, EN. cbn [deref].
  rewrite (sum_lengths_card N _ HN Hin), (proj2 (Z.ltb_ge _ _)) by lia.
  match goal with |- context [SendBuffer.remove_pending o n ≫= ?g] =>
    destruct (run_updates l first a s o n Hr Hfly g) as (al & pl & Ha & Hp & Eu & _) end.
  rewrite Eu. clear Eu. destruct (SendBuffer.free_mem_slice_out_of_order_ s) eqn:Ef.
  - destruct N as [|x N'].
    + pose proof (proj1 (stands_for_empty _ _ HN) eq_refl) as Hnone.
      eexists. split; [reflexivity|]. exists l, first. split.
      * apply (acked_same l first a s o n Hr Hfly al pl Ha Hp).
        intros e. by rewrite (union_nothing _ _ Hnone).
      * unfold front_waits, ack. simpl. by rewrite (union_nothing _ _ Hnone).
    + destruct (last (x :: N')) as [y|] eqn:Ey; [|by apply last_None in Ey].
      destruct (bounds_of _ _ x y N' HN eq_refl Ey) as [Hstart Hnew].
      destruct (free_and_clean_up_spec l first a s o n Hr Hfly al pl (imin x) (imax y) Ef Ha Hp Hstart Hnew)
        as (s' & Es & Hs'). exists s'. unfold mbind, M_bind. by rewrite Es.
  - assert (represents_with l first (ack (range o n) a) (set_acked (card (range o n ∖ acked a)) al pl s)) as Hs1.
    { apply (acked_same l first a s o n Hr Hfly al pl Ha Hp). intros e. apply place_same_kept. done. }
    destruct (pop_acked l first a s o n _ (fun s x => IntervalSet.ContainsInterval
      (mk (SendBuffer.offset x) (SendBuffer.slice_end x)) (SendBuffer.bytes_acked_ s)) Hs1 eq_refl) as (s' & Es & Hs').
    { intros [p m] Hx. apply (extent_in l first a s Hr) in Hx as (H1 & H2 & H3 & H4). rewrite Ef.
      destruct (slice_end_kept false (saved a) (acked a ∪ range o n) p m H1 ltac:(lia) H3 H4) as [_ ->]; [by intros []|].
      by apply stands_for_contains. }
    exists s'. unfold mbind, M_bind. by rewrite Es.
Qed.

(** The fast path for data that is all new *)
Lemma ack_all_spec o n a s : represents a s -> 0 < n -> in_flight o n a -> range o n ## acked a ->
  SendBuffer.free_mem_slice_out_of_order_ s = true ->
  exists s', SendBuffer.ack_all o n s = Ret (true, n) s' /\ represents (ack (range o n) a) s'.
Proof.
  intros (l & first & Hr & Hfront) Hn Hfly Hd Ef. destruct (end_small l first a s o n Hr Hfly) as [Eo He].
  pose proof (newly_bound l first a s o n Hr Hfly) as Hb.
  assert (range o n ∖ acked a = range o n) as En by set_solver.
  assert (card (range o n ∖ acked a) = n) as Ec by (rewrite En; apply card_range; lia).
  unfold SendBuffer.ack_all, mbind at 1, M_bind at 1, get. rewrite (proj2 (Z.ltb_ge _ _)) by lia.
  match goal with |- context [SendBuffer.remove_pending o n ≫= ?g] =>
    destruct (run_updates l first a s o n Hr Hfly g) as (al & pl & Ha & Hp & _ & Eu) end.
  rewrite Ec in Eu. rewrite Eu, Eo.
  destruct (free_and_clean_up_spec l first a s o n Hr Hfly al pl o (o + n) Ef Ha Hp) as (s' & Es & Hs').
  { rewrite En. apply elem_of_range. lia. }
  { intros v. rewrite En. apply elem_of_range. }
  exists s'. unfold mbind, M_bind. rewrite Ec in Es. by rewrite Es.
Qed.

(** [is_disjoint]: nothing at or beyond the end of the last interval is in the set. *)
Lemma beyond_last l X o n : stands_for l X ->
  match last l with None => true | Some x => o >=? imax x end = true -> range o n ## X.
Proof.
  intros Hl Hlast v Hv%elem_of_range HX. destruct (last l) as [y|] eqn:Ey.
  - destruct l as [|x l']; [done|]. destruct (bounds_of _ _ x y l' Hl eq_refl Ey) as [_ Hb].
    specialize (Hb v HX). lia.
  - apply last_None in Ey as ->. rewrite (proj1 (stands_for_empty _ _ Hl) eq_refl) in HX. set_solver.
Qed.

Lemma OnStreamDataAcked_spec disjoint_flag o n a s : represents a s -> in_flight o n a ->
  exists s', SendBuffer.OnStreamDataAcked disjoint_flag o n s = Ret (true, card (range o n ∖ acked a)) s' /\
    represents (ack (range o n) a) s'.
Proof.
  intros Hrep Hfly. pose proof Hrep as (l & first & Hr & Hfront). unfold SendBuffer.OnStreamDataAcked.
  pose proof (lost_unacked a s Hrep) as Hlost. pose proof Hfly as (Ho & Hn0 & _).
  destruct (Z.eqb_spec n 0) as [->|Hn].
  { exists s. assert (range o 0 = ∅) as -> by done. rewrite ack_nothing by set_solver. split; [|done].
    by assert (∅ ∖ acked a = ∅) as -> by set_solver. }
  unfold mbind at 1, M_bind at 1, get. destruct (end_small l first a s o n Hr Hfly) as [-> He].
  destruct (SendBuffer.enable_fast_path_on_data_acked_ s) eqn:Efast; [|by apply ack_slowly_spec].
  pose proof (r_fast _ _ _ _ Hr Efast) as Ef. pose proof (r_acked _ _ _ _ Hr) as Ha.
  destruct (_ || _) eqn:Edis.
  - assert (range o n ## acked a) as Hd.
    { apply orb_true_iff in Edis as [Edis|Edis].
      - apply andb_true_iff in Edis as [_ Edis]. by apply (beyond_last _ _ o n Ha).
      - apply (stands_for_disjoint _ _ Ha); [lia|done]. }
    destruct (ack_all_spec o n a s Hrep ltac:(lia) Hfly Hd Ef) as (s' & -> & Hs'). exists s'. split; [|done].
    assert (range o n ∖ acked a = range o n) as -> by set_solver. by rewrite card_range by lia.
  - destruct (IntervalSet.ContainsInterval _ _) eqn:Ec; [|by apply ack_slowly_spec].
    apply (stands_for_contains _ _ Ha) in Ec; [|lia]. exists s. rewrite (ack_nothing _ _ Ec Hlost). split; [|done].
    by assert (range o n ∖ acked a = ∅) as -> by set_solver.
Qed.

(** ** Loss *)

(** [X] is to be sent again, but for what was acknowledged. *)
Definition lose (X : gset Z) (a : Sending) : Sending :=
  {| saved := saved a; framed := framed a; sent := sent a; acked := acked a; lost := lost a ∪ (X ∖ acked a);
     pieces := pieces a |}.

(** [X] was sent again. *)
Definition resend (X : gset Z) (a : Sending) : Sending :=
  {| saved := saved a; framed := framed a; sent := sent a; acked := acked a; lost := lost a ∖ X;
     pieces := pieces a |}.

Lemma with_pending_represents a s pl L : represents a s -> stands_for pl L -> L ⊆ range 0 (sent a) ∖ acked a ->
  represents {| saved := saved a; framed := framed a; sent := sent a; acked := acked a; lost := L; pieces := pieces a |}
    (SendBuffer.with_sets s (SendBuffer.bytes_acked_ s) pl).
Proof.
  intros (l & first & [E1 E2 E3 E4 E6 E7 E8 E9 E10 E11 E12 E13 E14 E15 E16 E17 E18] & Hfront) Hp Hl.
  exists l, first. by split; [split|].
Qed.

Lemma add_all bl : forall pl P L, stands_for pl P -> stands_for bl L ->
  stands_for (fold_left (fun p x => IntervalSet.AddRange (imin x) (imax x) p) bl pl) (P ∪ L).
Proof.
  intros pl P L [Hp Hpm] [Hb Hbm].
  assert (IntervalSet.AddSet bl pl = fold_left (fun p x => IntervalSet.AddRange (imin x) (imax x) p) bl pl) as <-.
  { unfold IntervalSet.AddSet, IntervalSet.AddRange, mk. clear.
    revert pl. induction bl as [|[x y] bl IH]; intros pl; simpl; [done|]. apply IH. }
  destruct (AddSet_spec bl pl Hp) as [Hv Hm]. split; [done|]. intros v. rewrite Hm, Hpm, Hbm. set_solver.
Qed.

Lemma OnStreamDataLost_spec o n a s : represents a s -> 0 <= o -> 0 <= n -> o + n <= sent a ->
  terminates_in (SendBuffer.OnStreamDataLost o n s) (fun _ s' => represents (lose (range o n) a) s').
Proof.
  intros Hrep Ho Hn Hs. pose proof Hrep as (l & first & Hr & _). unfold SendBuffer.OnStreamDataLost.
  pose proof (r_length _ _ _ _ Hr) as Hl. pose proof (r_sent _ _ _ _ Hr). rewrite kMaxLength_eq in Hl.
  destruct (Z.eqb_spec n 0) as [->|Hn0].
  { assert (lose (range o 0) a = a) as ->; [|done]. destruct a. unfold lose. simpl. f_equal.
    assert (range o 0 = ∅) as -> by done. set_solver. }
  rewrite uint64_small by lia. destruct (stands_for_rest _ _ (r_acked _ _ _ _ Hr) o n) as (bl & Eb & Hb).
  unfold mbind, M_bind, get, modify. rewrite Eb. cbn [deref terminates_in].
  apply (with_pending_represents a s _ (lost a ∪ (range o n ∖ acked a)) Hrep).
  - apply add_all; [apply (r_pending _ _ _ _ Hr)|done].
  - pose proof (r_lost _ _ _ _ Hr) as Hlost. intros v [Hv|[Hv Hna]%elem_of_difference]%elem_of_union; [by apply Hlost|].
    apply elem_of_difference. rewrite elem_of_range in *. split; [lia|done].
Qed.

Lemma OnStreamDataRetransmitted_spec o n a s : represents a s -> 0 <= o -> 0 <= n -> o + n <= sent a ->
  terminates_in (SendBuffer.OnStreamDataRetransmitted o n s) (fun _ s' => represents (resend (range o n) a) s').
Proof.
  intros Hrep Ho Hn Hs. pose proof Hrep as (l & first & Hr & _). unfold SendBuffer.OnStreamDataRetransmitted.
  pose proof (r_length _ _ _ _ Hr) as Hl. pose proof (r_sent _ _ _ _ Hr). rewrite kMaxLength_eq in Hl.
  destruct (Z.eqb_spec n 0) as [->|Hn0].
  { assert (resend (range o 0) a = a) as ->; [|done]. destruct a. unfold resend. simpl. f_equal.
    assert (range o 0 = ∅) as -> by done. set_solver. }
  unfold SendBuffer.remove_pending, mbind, M_bind, get, modify. rewrite uint64_small by lia.
  destruct (stands_for_remove _ _ (r_pending _ _ _ _ Hr) o n) as (pl & Ep & Hp). rewrite Ep. cbn [deref terminates_in].
  apply (with_pending_represents a s _ (lost a ∖ range o n) Hrep Hp).
  pose proof (r_lost _ _ _ _ Hr) as Hlost. intros v [Hv _]%elem_of_difference. by apply Hlost.
Qed.

(** ** Queries *)

Lemma HasPendingRetransmission_spec a s : represents a s ->
  (SendBuffer.HasPendingRetransmission s = true <-> lost a <> ∅).
Proof.
  intros (l & first & Hr & _). pose proof (stands_for_empty _ _ (r_pending _ _ _ _ Hr)) as He.
  unfold SendBuffer.HasPendingRetransmission. rewrite <- He.
  destruct (SendBuffer.pending_retransmissions_ s); simpl; split; congruence.
Qed.

(** The first run of offsets that are to be sent again *)
Definition first_run (X : gset Z) (o n : Z) : Prop :=
  0 < n /\ range o n ⊆ X /\ o + n ∉ X /\ forall v, v ∈ X -> o <= v.

Lemma NextPendingRetransmission_spec a s : represents a s -> lost a <> ∅ ->
  first_run (lost a) (SendBuffer.NextPendingRetransmission s).1 (SendBuffer.NextPendingRetransmission s).2.
Proof.
  intros (l & first & Hr & _) Hne. pose proof (r_pending _ _ _ _ Hr) as Hp.
  unfold SendBuffer.NextPendingRetransmission. destruct (SendBuffer.pending_retransmissions_ s) as [|x pl] eqn:El.
  { by destruct Hne; apply (stands_for_empty _ _ Hp). }
  destruct Hp as [Hv Hm]. pose proof Hv as [Hx _]%valid_cons. unfold nonempty in Hx.
  pose proof (r_length _ _ _ _ Hr) as Hl. pose proof (r_sent _ _ _ _ Hr). rewrite kMaxLength_eq in Hl.
  assert (member (imin x) (x :: pl) /\ member (imax x - 1) (x :: pl)) as [M1 M2]
    by (split; apply member_cons; left; unfold within; lia).
  apply Hm, (r_lost _ _ _ _ Hr), elem_of_difference in M1 as [M1%elem_of_range _], M2 as [M2%elem_of_range _].
  cbn [fst snd]. rewrite uint64_small by lia. split; [lia|]. split; [|split].
  - intros v Hv'%elem_of_range. apply Hm, member_cons. left. unfold within. lia.
  - rewrite <- Hm. replace (imin x + (imax x - imin x)) with (imax x) by lia. apply end_not_member; [done|left].
  - intros v Hin%Hm. by eapply valid_head_least.
Qed.

Lemma IsStreamDataOutstanding_spec o n a s : represents a s -> 0 <= o -> 0 <= n -> o + n <= kMaxLength ->
  (SendBuffer.IsStreamDataOutstanding s o n = true <-> ~ range o n ⊆ acked a).
Proof.
  intros (l & first & Hr & _) Ho Hn Hb. unfold SendBuffer.IsStreamDataOutstanding.
  rewrite uint64_offset by lia. destruct (Z.gtb_spec n 0) as [Hp|Hp]; cbn [andb].
  - rewrite <- (stands_for_contains _ _ (r_acked _ _ _ _ Hr)) by done.
    destruct (IntervalSet.ContainsInterval _ _); simpl; split; congruence.
  - replace n with 0 by lia. split; [done|]. intros H. destruct H. assert (range o 0 = ∅) as -> by done. set_solver.
Qed.

(** Nothing is kept exactly when everything was acknowledged, and the first slice
    holds a byte that was not. *)
Lemma kept_spec a s : represents a s ->
  (SendBuffer.size s = 0 <-> card (acked a) = len (saved a)) /\
  (forall x, head (SendBuffer.buffered_slices_ s) = Some x ->
     exists v, v ∉ acked a /\ SendBuffer.offset x <= v < SendBuffer.offset x + len (SendBuffer.slice x)).
Proof.
  intros (l & first & Hr & Hfront). pose proof Hr as [E1 E2 E3 E4 E6 E7 E8 E9 E10 E11 E12 E13 E14 E15 E16 E17 E18].
  unfold SendBuffer.size. rewrite E1, length_fmap. split.
  - split.
    + intros Hl. destruct l; [|simpl in Hl; lia]. simpl in E3. subst first.
      apply card_mono in E4, E14. rewrite card_range in E4, E14 by lia. lia.
    + intros Hc. destruct l as [|[p n] l]; [done|exfalso]. simpl in E3, Hfront. destruct E3 as (-> & Hn & Hc'%chain_le).
      apply Hfront. intros v Hv%elem_of_range. destruct (decide (v ∈ acked a)) as [|Hnv]; [done|exfalso].
      assert (acked a ∪ {[v]} ⊆ range 0 (len (saved a))) as Hsub.
      { intros u [Hu%E14| ->%elem_of_singleton]%elem_of_union; rewrite elem_of_range in *; lia. }
      apply card_mono in Hsub. rewrite card_union, card_range in Hsub by (lia || set_solver).
      unfold card in Hsub at 2. rewrite size_singleton in Hsub. lia.
  - intros x Hx. destruct l as [|[p n] l]; [done|]. simpl in Hx, Hfront, E3. injection Hx as <-.
    destruct E3 as (-> & Hn & Hc'%chain_le). simpl.
    rewrite decide_False by (by intros []). rewrite len_bytes by lia.
    destruct (set_choose_or_empty (range first n ∖ acked a)) as [(v & [Hv%elem_of_range Hna]%elem_of_difference)|He];
      [by exists v|]. destruct Hfront. intros v Hv. destruct (decide (v ∈ acked a)); [done|].
    exfalso. apply (not_elem_of_empty (C := gset Z) v), He. by apply elem_of_difference.
Qed.
