(* ===== verification/SendRuns.v ===== *)
(** Runs of the send buffer: any order of saving, serialising, consuming,
    acknowledging, losing and sending again leaves exactly what the bytes and sets
    of Sending.v say, whatever the flags choose. *)

From S2P Require Import Prelude IntervalSet Intervals QuicData Wire SendBuffer Sending SendAcks.

(** ** Requests *)

Inductive request : Type :=
| SaveSpan (buffers : list (list Z))                 (* SaveMemSlicesInSendBuffer *)
| SaveData (iov : list (list Z)) (iov_offset n : Z)  (* SaveStreamData *)
| Write (o n : Z) (w : Writer.Writer)                (* WriteStreamData *)
| Consumed (n : Z)                                   (* OnStreamDataConsumed *)
| Acked (o n : Z)                                    (* OnStreamDataAcked *)
| Lost (o n : Z)                                     (* OnStreamDataLost *)
| Retransmitted (o n : Z)                            (* OnStreamDataRetransmitted *)
| Next                                               (* NextPendingRetransmission *)
| Outstanding (o n : Z).                             (* IsStreamDataOutstanding *)

Inductive answer : Type :=
| Nothing
| Saved (n : Z)
| Wrote (ok : bool) (w : Writer.Writer)
| NewlyAcked (ok : bool) (n : Z)
| Pending (p : option (Z * Z))
| IsOutstanding (b : bool).

(** The flags: free out of order, fast path, fast disjointness test *)
Record flags : Type := { free_flag : bool; fast_flag : bool; disjoint_flag : bool }.

Section Serve.
Variable max_data_slice_size : Z.
Variable f : flags.

Definition serve (q : request) : M SendBuffer.SendBuffer answer :=
  match q with
  | SaveSpan buffers => n ← SendBuffer.SaveMemSlicesInSendBuffer buffers; mret (Saved n)
  | SaveData iov o n => SendBuffer.SaveStreamData max_data_slice_size iov o n;; mret Nothing
  | Write o n w => r ← SendBuffer.WriteStreamData o n w; mret (Wrote r.1 r.2)
  | Consumed n => SendBuffer.OnStreamDataConsumed n;; mret Nothing
  | Acked o n => r ← SendBuffer.OnStreamDataAcked (disjoint_flag f) o n; mret (NewlyAcked r.1 r.2)
  | Lost o n => SendBuffer.OnStreamDataLost o n;; mret Nothing
  | Retransmitted o n => SendBuffer.OnStreamDataRetransmitted o n;; mret Nothing
  | Next =>
      s ← get;
      mret (Pending (if SendBuffer.HasPendingRetransmission s
                     then Some (SendBuffer.NextPendingRetransmission s) else None))
  | Outstanding o n => s ← get; mret (IsOutstanding (SendBuffer.IsStreamDataOutstanding s o n))
  end.

Fixpoint serve_all (l : list request) : M SendBuffer.SendBuffer (list answer) :=
  match l with
  | [] => mret []
  | q :: l' => r ← serve q; rs ← serve_all l'; mret (r :: rs)
  end.

(** ** What they mean *)

Definition next (q : request) (a : Sending) : Sending :=
  match q with
  | SaveSpan buffers => save (concat buffers) (span_pieces buffers) a
  | SaveData iov o n => save (bytes (concat iov) o n) (slices_for max_data_slice_size n) a
  | Write o n _ => put_in_packet o n a
  | Consumed n => consume n a
  | Acked o n => ack (range o n) a
  | Lost o n => lose (range o n) a
  | Retransmitted o n => resend (range o n) a
  | Next | Outstanding _ _ => a
  end.

Fixpoint next_all (l : list request) (a : Sending) : Sending :=
  match l with
  | [] => a
  | q :: l' => next_all l' (next q a)
  end.

Definition answers (a : Sending) (q : request) (r : answer) : Prop :=
  match q with
  | SaveSpan buffers => r = Saved (len (concat buffers))
  | Write o n w => r = Wrote true (append w (bytes (saved a) o n))
  | Acked o n => r = NewlyAcked true (card (range o n ∖ acked a))
  | Next =>
      match r with
      | Pending None => lost a = ∅
      | Pending (Some (o, n)) => first_run (lost a) o n
      | _ => False
      end
  | Outstanding o n => exists b, r = IsOutstanding b /\ (b = true <-> ~ range o n ⊆ acked a)
  | SaveData _ _ _ | Consumed _ | Lost _ _ | Retransmitted _ _ => r = Nothing
  end.

Fixpoint answers_all (a : Sending) (l : list request) (rs : list answer) : Prop :=
  match l, rs with
  | [], [] => True
  | q :: l', r :: rs' => answers a q r /\ answers_all (next q a) l' rs'
  | _, _ => False
  end.

(** ** What callers respect *)

(** Data is saved within the length of a stream and in fewer than 2^31 slices; what
    is serialised is new data in order or old data that was not acknowledged, into a
    packet with room for it; only what was sent is acknowledged or lost. *)
Definition allowed (q : request) (a : Sending) : Prop :=
  match q with
  | SaveSpan buffers => room (concat buffers) (span_pieces buffers) a
  | SaveData iov o n => 0 <= o /\ 0 <= n /\ o + n <= len (concat iov) /\
      room (bytes (concat iov) o n) (slices_for max_data_slice_size n) a
  | Write o n w => may_write o n a /\ fits w (Z.to_nat n)
  | Consumed n => 0 <= n /\ sent a + n <= len (saved a)
  | Acked o n => in_flight o n a
  | Lost o n | Retransmitted o n => 0 <= o /\ 0 <= n /\ o + n <= sent a
  | Next => True
  | Outstanding o n => 0 <= o /\ 0 <= n /\ o + n <= kMaxLength
  end.

Fixpoint allowed_all (l : list request) (a : Sending) : Prop :=
  match l with
  | [] => True
  | q :: l' => allowed q a /\ allowed_all l' (next q a)
  end.

Context (Hsize : 0 < max_data_slice_size).

(** One request; what is written down of the operations so far. *)
Lemma request_spec q a s : represents a s -> allowed q a ->
  terminates_in (serve q s) (fun r s' => answers a q r /\ represents (next q a) s').
Proof using Hsize.
  intros Hr Hq. destruct q as [buffers|iov o n|o n w|n|o n|o n|o n| |o n]; cbn [serve answers next allowed] in *.
  - apply total_bind. eapply total_mono; [by apply SaveMemSlicesInSendBuffer_spec|]. by intros n s' [-> H].
  - destruct Hq as (Ho & Hn & Hl & Hroom). apply total_bind.
    eapply total_mono; [by apply SaveStreamData_spec|]. done.
  - destruct Hq as [Hm Hw]. destruct (WriteStreamData_spec o n w a s Hr Hm Hw) as (s' & E & Hs').
    unfold mbind, M_bind. by rewrite E.
  - apply total_bind. eapply total_mono; [by apply OnStreamDataConsumed_spec; [|apply Hq..]|]. done.
  - destruct (OnStreamDataAcked_spec (disjoint_flag f) o n a s Hr Hq) as (s' & E & Hs').
    unfold mbind, M_bind. by rewrite E.
  - apply total_bind. eapply total_mono; [by apply OnStreamDataLost_spec; [|apply Hq..]|]. done.
  - apply total_bind. eapply total_mono; [by apply OnStreamDataRetransmitted_spec; [|apply Hq..]|]. done.
  - split; [|done]. pose proof (HasPendingRetransmission_spec a s Hr) as Hp.
    destruct (SendBuffer.HasPendingRetransmission s).
    + pose proof (NextPendingRetransmission_spec a s Hr (proj1 Hp eq_refl)) as H.
      by destruct (SendBuffer.NextPendingRetransmission s).
    + destruct (decide (lost a = ∅)); [done|]. by apply Hp in n.
  - split; [|done]. eexists. split; [done|]. by apply IsStreamDataOutstanding_spec; [|apply Hq..].
Qed.

Lemma requests_spec l : forall a s, represents a s -> allowed_all l a ->
  terminates_in (serve_all l s) (fun rs s' => answers_all a l rs /\ represents (next_all l a) s').
Proof using Hsize.
  induction l as [|q l IH]; intros a s Hr Hl; [done|]. destruct Hl as [Hq Hl]. cbn [serve_all].
  apply total_bind. eapply total_mono; [by apply request_spec|]. intros r s1 [Hans H1].
  apply total_bind. eapply total_mono; [by apply IH|]. by intros rs s2 [Hrs H2].
Qed.
End Serve.

Definition empty_sending : Sending :=
  {| saved := []; framed := 0; sent := 0; acked := ∅; lost := ∅; pieces := 0 |}.

Definition new_buffer (f : flags) : SendBuffer.SendBuffer := SendBuffer.init (free_flag f) (fast_flag f).

Lemma represents_new f : represents empty_sending (new_buffer f).
Proof. apply represents_init. Qed.

(** A byte that was not acknowledged is in a slice. *)
Definition held (s : SendBuffer.SendBuffer) (v c : Z) : Prop :=
  exists x i, x ∈ SendBuffer.buffered_slices_ s /\ SendBuffer.slice x !! i = Some c /\
    SendBuffer.offset x + Z.of_nat i = v.

Lemma held_spec a s v c : represents a s -> 0 <= v -> saved a !! Z.to_nat v = Some c -> v ∉ acked a -> held s v c.
Proof.
  intros (l & first & Hr & _) Hv Hc Ha. pose proof (lookup_lt_Some _ _ _ Hc) as Hlt.
  pose proof (unacked_first l first a s Hr v Hv Ha) as Hf. pose proof (r_first _ _ _ _ Hr).
  destruct (chain_find _ _ _ v (r_chain _ _ _ _ Hr)) as (i & p & n & Hi & Hp); [unfold len; lia|].
  assert ((p, n) ∈ l) as Hin by (by eapply list_elem_of_lookup_2).
  pose proof (chain_in _ _ _ p n (r_chain _ _ _ _ Hr) Hin) as Hpn.
  exists (place (SendBuffer.free_mem_slice_out_of_order_ s) (saved a) (acked a) (p, n)), (Z.to_nat (v - p)). split.
  { rewrite (r_slices _ _ _ _ Hr). apply list_elem_of_fmap. by exists (p, n). }
  rewrite place_kept by (intros [_ Hg]; apply Ha, Hg, elem_of_range; simpl; lia). simpl.
  split; [|lia]. unfold bytes. rewrite lookup_take, lookup_drop. case_decide; [|lia].
  rewrite <- Hc. f_equal. lia.
Qed.

(** C16: Whatever the order in which data is saved, put into packets, consumed,
    acknowledged, lost and sent again, and whatever the flags, no operation of the send
    buffer fails: each serialisation writes exactly the saved bytes at its offset, each
    acknowledgement counts exactly the bytes it is the first to acknowledge, the next
    retransmission is the first run of lost bytes that were neither acknowledged nor sent
    again; a byte that was not acknowledged is kept, and the buffer is empty exactly when
    all of them were. *)
Theorem the_send_buffer_keeps_what_is_unacknowledged max_data_slice_size f l :
  0 < max_data_slice_size -> allowed_all max_data_slice_size l empty_sending ->
  terminates_in (serve_all max_data_slice_size f l (new_buffer f)) (fun rs s =>
    let a := next_all max_data_slice_size l empty_sending in
    answers_all max_data_slice_size empty_sending l rs /\
    SendBuffer.stream_offset_ s = len (saved a) /\ SendBuffer.stream_bytes_written_ s = sent a /\
    SendBuffer.stream_bytes_outstanding_ s = sent a - card (acked a) /\
    (forall v c, 0 <= v -> saved a !! Z.to_nat v = Some c -> v ∉ acked a -> held s v c) /\
    (SendBuffer.size s = 0 <-> card (acked a) = len (saved a))).
Proof.
  intros Hsize Hl. eapply total_mono; [by apply requests_spec, Hl; [|apply represents_new]|].
  intros rs s [Hans Hr]. cbv zeta. split; [done|]. pose proof Hr as (e & first & Hw & _).
  split; [apply (r_offset _ _ _ _ Hw)|]. split; [apply (r_written _ _ _ _ Hw)|].
  split; [apply (r_outstanding _ _ _ _ Hw)|]. split; [|by apply kept_spec].
  intros v c. by apply held_spec.
Qed.

Definition demo_writer (n : nat) : Writer.Writer := Writer.init (replicate n 0) NETWORK_BYTE_ORDER.

(** Two saves, a write across slices, a loss in the middle that is half acknowledged
    and then sent again. *)
Definition demo_sends : list request :=
  [SaveData [[1; 2; 3]; [4; 5; 6; 7]] 1 6; SaveSpan [[8; 9]; []; [10]]; Write 0 7 (demo_writer 7); Consumed 7;
   Lost 2 4; Acked 4 3; Next; Write 2 2 (demo_writer 9); Retransmitted 2 2; Next; Acked 0 2; Outstanding 2 3;
   Acked 1 6].

Definition demo_flags : flags := {| free_flag := true; fast_flag := true; disjoint_flag := false |}.

Ltac compute_goal := first [lia | apply (bool_decide_unpack _); vm_compute; exact I].

Lemma demo_sends_allowed : allowed_all 4 demo_sends empty_sending.
Proof.
  unfold demo_sends, allowed_all, allowed, room, may_write, in_flight, fits.
  repeat match goal with |- _ /\ _ => split end; try exact I; compute_goal.
Qed.

Lemma the_send_buffer_keeps_what_is_unacknowledged_witness :
  terminates_in (serve_all 4 demo_flags demo_sends (new_buffer demo_flags)) (fun rs s =>
    SendBuffer.stream_bytes_outstanding_ s = 0 /\ held s 8 10 /\
    nth_error rs 7 = Some (Wrote true (append (demo_writer 9) [4; 5]))).
Proof.
  pose proof (the_send_buffer_keeps_what_is_unacknowledged 4 demo_flags demo_sends eq_refl demo_sends_allowed) as H.
  eapply total_mono; [exact H|]. clear H. cbv zeta. intros rs s (Hans & _ & _ & Ho & Hheld & _). split; [|split].
  - rewrite Ho. vm_compute. reflexivity.
  - apply Hheld; [lia|vm_compute; reflexivity|]. apply (bool_decide_unpack _). vm_compute. exact I.
  - do 7 (destruct rs as [|? rs]; [destruct Hans as []; fail|destruct Hans as [_ Hans]]).
    destruct rs as [|r rs]; [destruct Hans|]. destruct Hans as [Hr _]. simpl. f_equal. exact Hr.
Defined.

(** ** The flags *)

Lemma first_run_unique X o n o' n' : first_run X o n -> first_run X o' n' -> (o, n) = (o', n').
Proof.
  intros (Hn & Hs & He & Hf) (Hn' & Hs' & He' & Hf').
  assert (o ∈ X) as H1 by (apply Hs, elem_of_range; lia).
  assert (o' ∈ X) as H2 by (apply Hs', elem_of_range; lia).
  apply Hf' in H1. apply Hf in H2. assert (o = o') as -> by lia.
  f_equal. destruct (Z.lt_total n n') as [H|[H|H]]; [exfalso|done|exfalso].
  - apply He, Hs', elem_of_range. lia.
  - apply He', Hs, elem_of_range. lia.
Qed.

(** A request has one answer. *)
Lemma answers_unique a q r r' : answers a q r -> answers a q r' -> r = r'.
Proof.
  destruct q as [buffers|iov o n|o n w|n|o n|o n|o n| |o n]; simpl; try congruence.
  - destruct r as [| | | |[[o n]|]|], r' as [| | | |[[o' n']|]|]; try done.
    + intros H1 H2. by rewrite (first_run_unique _ _ _ _ _ H1 H2).
    + intros (Hn & Hs & _) E. exfalso. apply (not_elem_of_empty (C := gset Z) o). rewrite <- E.
      apply Hs, elem_of_range. lia.
    + intros E (Hn & Hs & _). exfalso. apply (not_elem_of_empty (C := gset Z) o'). rewrite <- E.
      apply Hs, elem_of_range. lia.
  - intros (b & -> & Hb) (b' & -> & Hb'). f_equal. destruct b, b'; try done; intuition.
Qed.

Lemma answers_all_unique size l : forall a rs rs', answers_all size a l rs -> answers_all size a l rs' -> rs = rs'.
Proof.
  induction l as [|q l IH]; intros a [|r rs] [|r' rs']; simpl; try done.
  intros [H1 H2] [H1' H2']. f_equal; [by eapply answers_unique|by eapply IH].
Qed.

(** C36: The flags that free slices out of order, take the fast path for new
    acknowledgements and test disjointness quickly change no answer of the send buffer:
    every run gives the same results and counts whatever their values. *)
Theorem the_send_buffer_flags_change_nothing max_data_slice_size f g l :
  0 < max_data_slice_size -> allowed_all max_data_slice_size l empty_sending ->
  terminates_in (serve_all max_data_slice_size f l (new_buffer f)) (fun rs s =>
    terminates_in (serve_all max_data_slice_size g l (new_buffer g)) (fun rs' s' => rs = rs' /\
      SendBuffer.stream_bytes_outstanding_ s = SendBuffer.stream_bytes_outstanding_ s' /\
      SendBuffer.bytes_acked_ s = SendBuffer.bytes_acked_ s' /\
      SendBuffer.pending_retransmissions_ s = SendBuffer.pending_retransmissions_ s' /\
      (SendBuffer.size s = 0 <-> SendBuffer.size s' = 0))).
Proof.
  intros Hsize Hl. eapply total_mono; [by apply requests_spec, Hl; [|apply represents_new]|].
  intros rs s [Hans Hr]. eapply total_mono; [by apply requests_spec, Hl; [|apply represents_new]|].
  intros rs' s' [Hans' Hr']. split; [by eapply answers_all_unique|].
  pose proof Hr as (e & first & Hw & _). pose proof Hr' as (e' & first' & Hw' & _).
  assert (forall l1 l2 X, stands_for l1 X -> stands_for l2 X -> l1 = l2) as Hsame.
  { intros l1 l2 X [V1 M1] [V2 M2]. apply valid_canonical; [done|done|]. intros v. by rewrite M1, M2. }
  split; [by rewrite (r_outstanding _ _ _ _ Hw), (r_outstanding _ _ _ _ Hw')|].
  split; [eapply Hsame; [apply (r_acked _ _ _ _ Hw)|apply (r_acked _ _ _ _ Hw')]|].
  split; [eapply Hsame; [apply (r_pending _ _ _ _ Hw)|apply (r_pending _ _ _ _ Hw')]|].
  destruct (kept_spec _ _ Hr) as [-> _]. by destruct (kept_spec _ _ Hr') as [-> _].
Qed.

Definition slow_flags : flags := {| free_flag := false; fast_flag := false; disjoint_flag := false |}.

Lemma the_send_buffer_flags_change_nothing_witness :
  terminates_in (serve_all 4 demo_flags demo_sends (new_buffer demo_flags)) (fun rs _ =>
    terminates_in (serve_all 4 slow_flags demo_sends (new_buffer slow_flags)) (fun rs' _ => rs = rs')).
Proof.
  eapply total_mono; [apply (the_send_buffer_flags_change_nothing 4 demo_flags slow_flags demo_sends eq_refl demo_sends_allowed)|].
  intros rs s H. cbv beta in H. eapply total_mono; [exact H|]. by intros rs' s' [E _].
Defined.

(** An acknowledgement is checked only against the number of bytes outstanding: one
    for bytes that were saved but never sent is accepted. *)
Example unsent_data_can_be_acknowledged :
  match serve_all 100 slow_flags
          [SaveSpan [[1; 2; 3; 4]; [5; 6; 7; 8]]; Write 0 4 (demo_writer 4); Consumed 4; Acked 6 2]
          (new_buffer slow_flags) with
  | Ret rs s => last rs = Some (NewlyAcked true 2) /\ SendBuffer.stream_bytes_outstanding_ s = 2
  | Crash _ => False
  end.
Proof. vm_compute. done. Qed.
