(* ===== verification/SendStream.v ===== *)
(** The sending half of a stream: the write side of [QuicStream]
    (libquic/net/quic/core/quic_stream.cc), what [QuicSession] (quic_session.cc)
    does around it and the callbacks of [QuartcStream] (quartc_stream.cc).  The
    members it shares with the receiving half, the flow controllers and the closing
    are those of ReceiveStream.v; the buffer is that of SendBuffer.v.

    The packet layer is outside: for each write it decides how many frames it takes
    and how long they are, and whether the connection fails.  A frame's bytes are
    copied out of the send buffer when it is put into a packet. *)

From S2P Require Import Prelude IntervalSet QuicData SendBuffer FlowController SequencerBuffer ReceiveStream.
Import Interval.

Module SendStream.

Definition QUIC_FAILED_TO_SERIALIZE_PACKET : Z := 75.

(** ** State *)

(** [QuicStreamFrame] as it is in a packet *)
Record frame : Type := { foffset : Z; fdata : list Z; ffin : bool }.

Definition frame_length (x : frame) : Z := Z.of_nat (length (fdata x)).

(** What the packet layer does with one write: the room for data in each packet it
    fills, and the error of the connection if writing a packet closed it. *)
Record packets : Type := { rooms : list positive; write_error : option Z }.

(** What the delegate is told. *)
Inductive notice : Type :=
| BufferChanged              (* Delegate::OnBufferChanged *)
| CanWriteNewData_           (* Delegate::OnCanWriteNewData *)
| DoneWaitingForAcks.        (* QuicSession::OnStreamDoneWaitingForAcks *)

Record Sender : Type := {
  stream : ReceiveStream.Stream;
  send_buffer_ : SendBuffer.SendBuffer;
  fin_buffered_ : bool;
  fin_outstanding_ : bool;
  fin_lost_ : bool;
  in_write_blocked_streams : bool;            (* QuicSession::write_blocked_streams_ *)
  in_pending_retransmission : bool;           (* streams_with_pending_retransmission_ *)
  currently_writing : bool;                   (* currently_writing_stream_id_ == id *)
  yields : list bool;                         (* write_blocked_streams_.ShouldYield(id) *)
  network : list packets;
  outbox : list frame;                        (* latest first *)
  notices : list notice                       (* latest first *)
}.

Section Updates.
Variable s : Sender.

Definition with_stream x : Sender :=
  {| stream := x; send_buffer_ := send_buffer_ s; fin_buffered_ := fin_buffered_ s;
     fin_outstanding_ := fin_outstanding_ s; fin_lost_ := fin_lost_ s;
     in_write_blocked_streams := in_write_blocked_streams s;
     in_pending_retransmission := in_pending_retransmission s; currently_writing := currently_writing s;
     yields := yields s; network := network s; outbox := outbox s; notices := notices s |}.
Definition with_buffer b : Sender :=
  {| stream := stream s; send_buffer_ := b; fin_buffered_ := fin_buffered_ s;
     fin_outstanding_ := fin_outstanding_ s; fin_lost_ := fin_lost_ s;
     in_write_blocked_streams := in_write_blocked_streams s;
     in_pending_retransmission := in_pending_retransmission s; currently_writing := currently_writing s;
     yields := yields s; network := network s; outbox := outbox s; notices := notices s |}.
Definition with_fin buffered outstanding lost : Sender :=
  {| stream := stream s; send_buffer_ := send_buffer_ s; fin_buffered_ := buffered;
     fin_outstanding_ := outstanding; fin_lost_ := lost;
     in_write_blocked_streams := in_write_blocked_streams s;
     in_pending_retransmission := in_pending_retransmission s; currently_writing := currently_writing s;
     yields := yields s; network := network s; outbox := outbox s; notices := notices s |}.
Definition with_lists blocked pending writing : Sender :=
  {| stream := stream s; send_buffer_ := send_buffer_ s; fin_buffered_ := fin_buffered_ s;
     fin_outstanding_ := fin_outstanding_ s; fin_lost_ := fin_lost_ s;
     in_write_blocked_streams := blocked; in_pending_retransmission := pending; currently_writing := writing;
     yields := yields s; network := network s; outbox := outbox s; notices := notices s |}.
Definition with_world ys net : Sender :=
  {| stream := stream s; send_buffer_ := send_buffer_ s; fin_buffered_ := fin_buffered_ s;
     fin_outstanding_ := fin_outstanding_ s; fin_lost_ := fin_lost_ s;
     in_write_blocked_streams := in_write_blocked_streams s;
     in_pending_retransmission := in_pending_retransmission s; currently_writing := currently_writing s;
     yields := ys; network := net; outbox := outbox s; notices := notices s |}.
Definition with_out frames told : Sender :=
  {| stream := stream s; send_buffer_ := send_buffer_ s; fin_buffered_ := fin_buffered_ s;
     fin_outstanding_ := fin_outstanding_ s; fin_lost_ := fin_lost_ s;
     in_write_blocked_streams := in_write_blocked_streams s;
     in_pending_retransmission := in_pending_retransmission s; currently_writing := currently_writing s;
     yields := yields s; network := network s; outbox := frames; notices := told |}.
End Updates.

Definition stream_lens : Lens Sender ReceiveStream.Stream :=
  {| view := stream; put x s := with_stream s x |}.
Definition buffer_lens : Lens Sender SendBuffer.SendBuffer :=
  {| view := send_buffer_; put b s := with_buffer s b |}.
Definition flow_lens : Lens Sender FlowController.Flow := lens_comp stream_lens ReceiveStream.flow_lens.

Definition tell (e : notice) : M Sender unit := modify (fun s => with_out s (outbox s) (e :: notices s)).

(** The constructor, on a stream that was just opened *)
Definition init (free_out_of_order fast_path : bool) (x : ReceiveStream.Stream) (ys : list bool)
    (net : list packets) : Sender :=
  {| stream := x; send_buffer_ := SendBuffer.init free_out_of_order fast_path; fin_buffered_ := false;
     fin_outstanding_ := false; fin_lost_ := false; in_write_blocked_streams := false;
     in_pending_retransmission := false; currently_writing := false; yields := ys; network := net;
     outbox := []; notices := [] |}.

Section Queries.
Variable s : Sender.
Notation sides := (ReceiveStream.sides (stream s)).

Definition stream_bytes_written : Z := SendBuffer.stream_bytes_written_ (send_buffer_ s).

(** [bool QuicStream::HasBufferedData() const] *)
Definition HasBufferedData : bool := SendBuffer.stream_offset_ (send_buffer_ s) >? stream_bytes_written.

(** [uint64_t QuicStream::BufferedDataBytes() const] *)
Definition BufferedDataBytes : Z := uint64 (SendBuffer.stream_offset_ (send_buffer_ s) - stream_bytes_written).

(** [bool QuicStream::HasPendingRetransmission() const] *)
Definition HasPendingRetransmission : bool :=
  SendBuffer.HasPendingRetransmission (send_buffer_ s) || fin_lost_ s.

(** [bool QuicStream::IsStreamFrameOutstanding(offset, data_length, fin) const] *)
Definition IsStreamFrameOutstanding (off data_length : Z) (fin : bool) : bool :=
  SendBuffer.IsStreamDataOutstanding (send_buffer_ s) off data_length || (fin && fin_outstanding_ s).

(** [bool QuicStream::IsWaitingForAcks() const] *)
Definition IsWaitingForAcks : bool :=
  (negb (ReceiveStream.rst_sent_ sides) || (ReceiveStream.stream_error_ sides =? ReceiveStream.QUIC_STREAM_NO_ERROR)) &&
  (negb (SendBuffer.stream_bytes_outstanding_ (send_buffer_ s) =? 0) || fin_outstanding_ s).
End Queries.

Section Operations.
(* FLAGS_quic_reloadable_flag_quic_fast_is_disjoint and _quic_stream_too_long *)
Variables quic_fast_is_disjoint quic_stream_too_long : bool.
(* FLAGS_quic_send_buffer_max_data_slice_size *)
Variable max_data_slice_size : Z.
(* Delegate::GetBufferedDataThreshold(buffered_data_threshold_) *)
Variable threshold : Z.
(* kSessionFlowControlMultiplier times a window, see FlowController.v *)
Variable multiplied : Z -> Z.

Notation connection_id := FlowController.kConnectionLevelId.

(** [bool QuicStream::CanWriteNewData() const] *)
Definition CanWriteNewData (s : Sender) : bool := BufferedDataBytes s <? threshold.

Definition write_side_closed (s : Sender) : bool := ReceiveStream.write_side_closed_ (ReceiveStream.sides (stream s)).
Definition fin_sent (s : Sender) : bool := ReceiveStream.fin_sent_ (ReceiveStream.sides (stream s)).
Definition connected (s : Sender) : bool := ReceiveStream.connected_ (ReceiveStream.session_ (stream s)).
Definition stream_id (s : Sender) : Z := ReceiveStream.id_ (stream s).
Definition contributes (s : Sender) : bool :=
  ReceiveStream.stream_contributes_to_connection_flow_control_ (stream s).

Definition CloseConnectionWithDetails (error : Z) : M Sender unit :=
  zoom stream_lens (ReceiveStream.CloseConnectionWithDetails multiplied error).

(** [void QuicSession::MarkConnectionLevelWriteBlocked(QuicStreamId id)] *)
Definition MarkConnectionLevelWriteBlocked : M Sender unit :=
  modify (fun s => with_lists s true (in_pending_retransmission s) (currently_writing s)).

(** [bool QuicSession::ShouldYield(QuicStreamId stream_id)] *)
Definition ShouldYield : M Sender bool :=
  s ← get;
  if currently_writing s then mret false
  else
    match yields s with
    | [] => mret false
    | y :: ys => modify (fun s => with_world s ys (network s));; mret y
    end.

(** ** Writing into packets *)

(** A frame of [n] bytes at [off] in the current packet; the framer copies its data
    with [QuicSession::WriteStreamData] unless it has none. *)
Definition add_frame (off n : Z) (fin : bool) : M Sender unit :=
  r ← (if n =? 0 then mret (true, [])
       else
         r ← zoom buffer_lens (SendBuffer.WriteStreamData off n
               (Writer.init (replicate (Z.to_nat n) 0) NETWORK_BYTE_ORDER));
         mret (r.1, take (Writer.length_ r.2) (Writer.buffer_ r.2)));
  if negb r.1 then CloseConnectionWithDetails QUIC_FAILED_TO_SERIALIZE_PACKET
  else modify (fun s => with_out s ({| foffset := off; fdata := r.2; ffin := fin |} :: outbox s) (notices s)).

(** The loop of [QuicPacketGenerator::ConsumeData] over the packets there is room in *)
Fixpoint consume_data (rs : list positive) (write_length off total : Z) (fin : bool) : M Sender (Z * bool) :=
  match rs with
  | [] => mret (total, false)
  | r :: rs' =>
      let n := Z.min (Z.pos r) (write_length - total) in
      let total' := total + n in
      let fin_consumed := fin && (total' =? write_length) in
      add_frame (uint64 (off + total)) n fin_consumed;;
      if total' =? write_length then mret (total', fin_consumed) else consume_data rs' write_length off total' fin
  end.

(** [QuicConsumedData QuicSession::WritevData(stream, id, write_length, offset, state)]
    with [QuicConnection::SendStreamData]: bytes and FIN consumed *)
Definition WritevData_session (write_length off : Z) (fin : bool) : M Sender (Z * bool) :=
  if negb fin && (write_length =? 0) then mret (0, false)
  else
    s ← get;
    match network s with
    | [] => mret (0, false)
    | p :: net =>
        modify (fun s => with_world s (yields s) net);;
        consumed ← consume_data (rooms p) write_length off 0 fin;
        match write_error p with
        | None => mret tt
        | Some e => zoom stream_lens (ReceiveStream.TearDownLocalConnectionState multiplied e)
        end;;
        mret consumed
    end.

(** ** New data *)

(** [void QuicStream::MaybeSendBlocked()] *)
Definition MaybeSendBlocked : M Sender unit :=
  s ← get;
  zoom flow_lens (FlowController.MaybeSendBlocked (stream_id s));;
  if negb (contributes s) then mret tt
  else
    zoom flow_lens (FlowController.MaybeSendBlocked connection_id);;
    k ← zoom flow_lens (FlowController.self connection_id);
    c ← zoom flow_lens (FlowController.self (stream_id s));
    when (FlowController.IsBlocked k && negb (FlowController.IsBlocked c)) MarkConnectionLevelWriteBlocked.

(** [void QuicStream::AddBytesSent(QuicByteCount bytes)] *)
Definition AddBytesSent (bytes : Z) : M Sender unit :=
  s ← get;
  zoom flow_lens (FlowController.AddBytesSent (stream_id s) bytes);;
  when (contributes s) (zoom flow_lens (FlowController.AddBytesSent connection_id bytes)).

(** [void QuartcStream::OnStreamDataConsumed(size_t bytes_consumed)] *)
Definition OnStreamDataConsumed (bytes_consumed : Z) : M Sender unit :=
  zoom buffer_lens (SendBuffer.OnStreamDataConsumed bytes_consumed);;
  tell BufferChanged.

(** How much flow control permits to be written *)
Definition send_window : M Sender Z :=
  s ← get;
  c ← zoom flow_lens (FlowController.self (stream_id s));
  if contributes s
  then k ← zoom flow_lens (FlowController.self connection_id);
       mret (Z.min (FlowController.SendWindowSize c) (FlowController.SendWindowSize k))
  else mret (FlowController.SendWindowSize c).

(** The FIN was put into a packet. *)
Definition fin_taken : M Sender unit :=
  modify (fun s => with_fin s (fin_buffered_ s) true (fin_lost_ s));;
  zoom stream_lens (ReceiveStream.fin_written multiplied).

(** The end of [WriteBufferedData], unless writing closed the stream *)
Definition after_write (write_length : Z) (fin fin_with_zero_data : bool) (consumed : Z * bool) : M Sender unit :=
  if consumed.1 =? write_length then
    when (negb fin_with_zero_data) MaybeSendBlocked;;
    if fin && consumed.2 then fin_taken
    else when (fin && negb consumed.2) MarkConnectionLevelWriteBlocked
  else MarkConnectionLevelWriteBlocked.

(** [void QuicStream::WriteBufferedData()] *)
Definition WriteBufferedData : M Sender unit :=
  y ← ShouldYield;
  if y : bool then MarkConnectionLevelWriteBlocked
  else
    s ← get;
    let write_length := BufferedDataBytes s in
    let fin_with_zero_data := fin_buffered_ s && (write_length =? 0) in
    window ← send_window;
    if (window =? 0) && negb fin_with_zero_data then MaybeSendBlocked
    else
      let fin := if write_length >? window then false else fin_buffered_ s in
      let write_length := if write_length >? window then window else write_length in
      consumed ← WritevData_session write_length (stream_bytes_written s) fin;
      OnStreamDataConsumed consumed.1;;
      AddBytesSent consumed.1;;
      s ← get;
      if write_side_closed s then mret tt else after_write write_length fin fin_with_zero_data consumed.

Definition set_fin_buffered (b : bool) : M Sender unit :=
  modify (fun s => with_fin s b (fin_outstanding_ s) (fin_lost_ s)).

(** The tail of the three ways to write: data that was not there before is sent. *)
Definition write_unless_buffered (had_buffered_data : bool) : M Sender unit :=
  s ← get;
  when (negb had_buffered_data && (HasBufferedData s || fin_buffered_ s)) WriteBufferedData.

(** [void QuicStream::WriteOrBufferData(data, fin, ack_listener)] *)
Definition WriteOrBufferData (data : list Z) (fin : bool) : M Sender unit :=
  s ← get;
  if (length data =? 0)%nat && negb fin then mret tt
  else if fin_buffered_ s then mret tt
  else if write_side_closed s then mret tt
  else
    set_fin_buffered fin;;
    let had_buffered_data := HasBufferedData s in
    let n := Z.of_nat (length data) in
    let off := SendBuffer.stream_offset_ (send_buffer_ s) in
    if (n >? 0) && (quic_stream_too_long && (uint64 (ReceiveStream.kMaxStreamLength - off) <? n))
    then CloseConnectionWithDetails ReceiveStream.QUIC_STREAM_LENGTH_OVERFLOW
    else
      when (n >? 0)
        (zoom buffer_lens (SendBuffer.SaveStreamData max_data_slice_size [data] 0 n);;
         tell BufferChanged);;
      write_unless_buffered had_buffered_data.

(** [QuicConsumedData QuicStream::WritevData(iov, iov_count, fin)] *)
Definition WritevData (iov : list (list Z)) (fin : bool) : M Sender (Z * bool) :=
  s ← get;
  if write_side_closed s then mret (0, false)
  else
    let write_length := uint64 (Z.of_nat (length (concat iov))) in
    if fin_buffered_ s then mret (0, false)
    else if quic_stream_too_long &&
            (uint64 (ReceiveStream.kMaxStreamLength - SendBuffer.stream_offset_ (send_buffer_ s)) <? write_length)
    then CloseConnectionWithDetails ReceiveStream.QUIC_STREAM_LENGTH_OVERFLOW;; mret (0, false)
    else
      let had_buffered_data := HasBufferedData s in
      let bytes_consumed := if CanWriteNewData s then write_length else 0 in
      when (bytes_consumed >? 0)
        (zoom buffer_lens (SendBuffer.SaveStreamData max_data_slice_size iov 0 write_length);;
         tell BufferChanged);;
      let fin_consumed := (bytes_consumed =? write_length) && fin in
      set_fin_buffered fin_consumed;;
      write_unless_buffered had_buffered_data;;
      mret (bytes_consumed, fin_consumed).

(** [QuicConsumedData QuicStream::WriteMemSlices(QuicMemSliceSpan span, bool fin)] *)
Definition WriteMemSlices (span : list (list Z)) (fin : bool) : M Sender (Z * bool) :=
  s ← get;
  let empty := (length span =? 0)%nat in
  if empty && negb fin then mret (0, false)
  else if fin_buffered_ s then mret (0, false)
  else if write_side_closed s then mret (0, false)
  else
    let had_buffered_data := HasBufferedData s in
    let off := SendBuffer.stream_offset_ (send_buffer_ s) in
    let finish consumed :=
      set_fin_buffered consumed.2;;
      write_unless_buffered had_buffered_data;;
      mret (consumed : Z * bool) in
    if negb (CanWriteNewData s || empty) then finish (0, false)
    else if empty then finish (0, fin)
    else
      n ← zoom buffer_lens (SendBuffer.SaveMemSlicesInSendBuffer span);
      s ← get;
      let off' := SendBuffer.stream_offset_ (send_buffer_ s) in
      if quic_stream_too_long && ((off >? off') || (ReceiveStream.kMaxStreamLength <? off'))
      then CloseConnectionWithDetails ReceiveStream.QUIC_STREAM_LENGTH_OVERFLOW;; mret (n, fin)
      else tell BufferChanged;; finish (n, fin).

(** ** Acknowledgement and loss *)

(** [bool QuicStream::OnStreamFrameAcked(offset, data_length, fin_acked, ack_delay_time)] *)
Definition OnStreamFrameAcked (off data_length : Z) (fin_acked : bool) : M Sender bool :=
  r ← zoom buffer_lens (SendBuffer.OnStreamDataAcked quic_fast_is_disjoint off data_length);
  s ← get;
  if negb r.1 then CloseConnectionWithDetails QUIC_INTERNAL_ERROR;; mret false
  else if negb (fin_sent s) && fin_acked then CloseConnectionWithDetails QUIC_INTERNAL_ERROR;; mret false
  else
    let new_data_acked := (r.2 >? 0) || (fin_acked && fin_outstanding_ s) in
    when fin_acked (modify (fun s => with_fin s (fin_buffered_ s) false false));;
    s ← get;
    when (negb (IsWaitingForAcks s)) (tell DoneWaitingForAcks);;
    mret new_data_acked.

(** [void QuicStream::OnStreamFrameRetransmitted(offset, data_length, fin_retransmitted)] *)
Definition OnStreamFrameRetransmitted (off data_length : Z) (fin_retransmitted : bool) : M Sender unit :=
  zoom buffer_lens (SendBuffer.OnStreamDataRetransmitted off data_length);;
  when fin_retransmitted (modify (fun s => with_fin s (fin_buffered_ s) (fin_outstanding_ s) false)).

(** [void QuicStream::OnStreamFrameLost(offset, data_length, fin_lost)] *)
Definition OnStreamFrameLost (off data_length : Z) (fin_lost : bool) : M Sender unit :=
  when (data_length >? 0) (zoom buffer_lens (SendBuffer.OnStreamDataLost off data_length));;
  s ← get;
  when (fin_lost && fin_outstanding_ s) (modify (fun s => with_fin s (fin_buffered_ s) (fin_outstanding_ s) true)).

(** The loop of [RetransmitStreamData]: whether it got to the end, and
    [retransmit_fin] there. *)
Fixpoint retransmit_intervals (l : IntervalSet.t) (retransmit_fin : bool) : M Sender (bool * bool) :=
  match l with
  | [] => mret (true, retransmit_fin)
  | x :: l' =>
      s ← get;
      let n := uint64 (imax x - imin x) in
      let can_bundle_fin := retransmit_fin && (uint64 (imin x + n) =? stream_bytes_written s) in
      consumed ← WritevData_session n (imin x) can_bundle_fin;
      OnStreamFrameRetransmitted (imin x) consumed.1 consumed.2;;
      let retransmit_fin := if can_bundle_fin then negb consumed.2 else retransmit_fin in
      if (consumed.1 <? n) || (can_bundle_fin && negb consumed.2) then mret (false, retransmit_fin)
      else retransmit_intervals l' retransmit_fin
  end.

(** [bool QuicStream::RetransmitStreamData(offset, data_length, fin)] *)
Definition RetransmitStreamData (off data_length : Z) (fin : bool) : M Sender bool :=
  s ← get;
  retransmission ← deref (IntervalSet.Difference (SendBuffer.bytes_acked_ (send_buffer_ s))
                            (IntervalSet.AddRange off (uint64 (off + data_length)) [])) OutOfFuel;
  let retransmit_fin := fin && fin_outstanding_ s in
  if match retransmission with [] => negb retransmit_fin | _ => false end then mret true
  else
    r ← retransmit_intervals retransmission retransmit_fin;
    if negb (r : bool * bool).1 then mret false
    else if (r : bool * bool).2 then
      s ← get;
      consumed ← WritevData_session 0 (stream_bytes_written s) true;
      mret consumed.2
    else mret true.

(** One turn of the loop of [WritePendingRetransmission]: whether it goes on *)
Definition retransmit_next : M Sender bool :=
  s ← get;
  if negb (SendBuffer.HasPendingRetransmission (send_buffer_ s)) then
    consumed ← WritevData_session 0 (stream_bytes_written s) true;
    modify (fun s => with_fin s (fin_buffered_ s) (fin_outstanding_ s) (negb consumed.2));;
    mret consumed.2
  else
    let pending := SendBuffer.NextPendingRetransmission (send_buffer_ s) in
    let can_bundle_fin := fin_lost_ s && (uint64 (pending.1 + pending.2) =? stream_bytes_written s) in
    consumed ← WritevData_session pending.2 pending.1 can_bundle_fin;
    OnStreamFrameRetransmitted pending.1 consumed.1 consumed.2;;
    mret (negb ((consumed.1 <? pending.2) || (can_bundle_fin && negb consumed.2))).

(** [void QuicStream::WritePendingRetransmission()]; a turn that does not end the
    loop sends a whole interval or the FIN. *)
Fixpoint write_pending (fuel : nat) : M Sender unit :=
  s ← get;
  if negb (HasPendingRetransmission s) then mret tt
  else
    match fuel with
    | O => crashed OutOfFuel
    | S fuel' =>
        more ← retransmit_next;
        if (more : bool) then write_pending fuel' else mret tt
    end.

Definition WritePendingRetransmission : M Sender unit :=
  s ← get;
  write_pending (2 + length (SendBuffer.pending_retransmissions_ (send_buffer_ s))).

(** [void QuicStream::OnCanWrite()] *)
Definition OnCanWrite : M Sender unit :=
  s ← get;
  if HasPendingRetransmission s then WritePendingRetransmission
  else if write_side_closed s then mret tt
  else
    when (HasBufferedData s || (fin_buffered_ s && negb (fin_sent s))) WriteBufferedData;;
    s ← get;
    when (negb (fin_buffered_ s) && negb (fin_sent s) && CanWriteNewData s) (tell CanWriteNewData_).

(** [void QuicStream::OnWindowUpdateFrame(frame)], also [UpdateSendWindowOffset] *)
Definition OnWindowUpdateFrame (byte_offset : Z) : M Sender unit :=
  s ← get;
  unblocked ← zoom flow_lens (FlowController.UpdateSendWindowOffset (stream_id s) byte_offset);
  when unblocked MarkConnectionLevelWriteBlocked.

(** ** The session *)

(** The session finds the stream ([GetStream]); a stream that is gone is left alone.

    [void QuicSession::OnWindowUpdateFrame(frame)] *)
Definition session_OnWindowUpdateFrame (id byte_offset : Z) : M Sender unit :=
  s ← get;
  if id =? connection_id then
    _ ← zoom flow_lens (FlowController.UpdateSendWindowOffset connection_id byte_offset); mret tt
  else when (id =? stream_id s) (OnWindowUpdateFrame byte_offset).

(** [bool QuicSession::OnFrameAcked(frame, ack_delay_time)] of a stream frame *)
Definition OnFrameAcked (off data_length : Z) (fin : bool) : M Sender bool :=
  new_ ← OnStreamFrameAcked off data_length fin;
  s ← get;
  when (negb (HasPendingRetransmission s))
    (modify (fun s => with_lists s (in_write_blocked_streams s) false (currently_writing s)));;
  mret new_.

(** [void QuicSession::OnFrameLost(frame)] of a stream frame *)
Definition OnFrameLost (off data_length : Z) (fin : bool) : M Sender unit :=
  OnStreamFrameLost off data_length fin;;
  s ← get;
  when (HasPendingRetransmission s)
    (modify (fun s => with_lists s (in_write_blocked_streams s) true (currently_writing s))).

(** The stream's turn in the loop of [QuicSession::RetransmitLostData] *)
Definition RetransmitLostData : M Sender unit :=
  s ← get;
  if negb (in_pending_retransmission s) then mret tt
  else
    OnCanWrite;;
    s ← get;
    when (negb (HasPendingRetransmission s))
      (modify (fun s => with_lists s (in_write_blocked_streams s) false (currently_writing s))).

(** The stream's turn in the loop of [QuicSession::OnCanWrite] *)
Definition session_OnCanWrite : M Sender unit :=
  s ← get;
  if negb (in_write_blocked_streams s) then mret tt
  else
    modify (fun s => with_lists s false (in_pending_retransmission s) true);;
    c ← zoom flow_lens (FlowController.self (stream_id s));
    when (negb (FlowController.IsBlocked c)) OnCanWrite;;
    modify (fun s => with_lists s (in_write_blocked_streams s) (in_pending_retransmission s) false).
End Operations.

End SendStream.
