(* ===== verification/SendKept.v ===== *)
(** The two halves of a stream leave each other alone: nothing the receiving half
    does changes what the sending half counts on, and a change of the sending
    halves of the flow controllers is not seen by the receiving half. *)

From S2P Require Import Prelude FlowController FlowControl IntervalSet Intervals SequencerBuffer Reassembly.
From S2P Require Import ReassemblyRuns ReceiveStream StreamClosing StreamDelivery StreamRuns.
Import ReceiveStream.

(** ** The receiving half *)

Lemma preserves_zoom_any {S T A} (l : Lens S T) (m : M T A) (I : S -> Prop) :
  (forall s t, I s -> I (put l t s)) -> preserves I (zoom l m).
Proof. intros H s a s' HI (t & _ & ->)%zoom_inv. by apply H. Qed.

Lemma preserves_zoom {S T A} (l : Lens S T) (m : M T A) (I : S -> Prop) (J : T -> Prop) :
  preserves J m -> (forall s, I s -> J (view l s)) -> (forall s t, I s -> J t -> I (put l t s)) ->
  preserves I (zoom l m).
Proof. intros Hm H1 H2 s a s' HI (t & E & ->)%zoom_inv. apply H2; [done|]. eapply Hm; [|exact E]. by apply H1. Qed.

(** The sending half of a controller *)
Definition send_part (c : FlowController.FlowController) : Z * Z :=
  (FlowController.bytes_sent_ c, FlowController.send_window_offset_ c).

Section Flow.
Variable g : Z -> option (Z * Z).

Definition sends (f : FlowController.Flow) : Prop :=
  forall i, send_part <$> FlowController.controllers f !! i = g i.

Lemma update_sends i h : (forall c, send_part (h c) = send_part c) -> preserves sends (FlowController.update i h).
Proof.
  intros Hh f u f' Hf (c & f1 & E1 & E2)%bind_inv. unfold FlowController.self, get, mbind, M_bind, deref in E1.
  destruct (FlowController.controllers f !! i); [|done]. injection E1 as -> <-. injection E2 as _ <-.
  intros j. simpl. rewrite lookup_alter. rewrite <- Hf. case_decide; [|done]. subst.
  destruct (FlowController.controllers f !! j); simpl; [|done]. by rewrite Hh.
Qed.

Lemma self_sends i : preserves sends (FlowController.self i).
Proof.
  intros f c f' Hf (x & f1 & E1 & E2)%bind_inv. injection E1 as <- <-.
  unfold deref in E2. destruct (FlowController.controllers f !! i); [|done]. by injection E2 as _ <-.
Qed.

Lemma clock_sends : preserves sends FlowController.ApproximateNow.
Proof. intros f t f' Hf [= _ <-]. exact Hf. Qed.

Lemma send_sends x : preserves sends (FlowController.send x).
Proof. intros f t f' Hf [= _ <-]. exact Hf. Qed.
End Flow.

#[export] Hint Resolve update_sends self_sends clock_sends send_sends : posix_quic.

(** Runs through a program by its binds and branches. *)
Ltac preserve :=
  repeat first
    [ progress cbv zeta
    | apply preserves_ret | apply preserves_get | apply preserves_crashed | apply preserves_deref
    | apply update_sends; intros ?; reflexivity
    | solve [eauto 2 with posix_quic nocore]
    | apply preserves_when
    | apply preserves_bind; [|intros ?]
    | progress split_cases ].

Section Tuning.
Variable g : Z -> option (Z * Z).
Variable multiplied : Z -> Z.

Lemma AddBytesConsumed_sends i n : preserves (sends g) (FlowController.AddBytesConsumed multiplied i n).
Proof.
  unfold FlowController.AddBytesConsumed, FlowController.MaybeSendWindowUpdate,
    FlowController.MaybeIncreaseMaxWindowSize, FlowController.EnsureWindowAtLeast,
    FlowController.UpdateReceiveWindowOffsetAndSendWindowUpdate. preserve.
Qed.

Lemma UpdateHighestReceivedOffset_sends i n : preserves (sends g) (FlowController.UpdateHighestReceivedOffset i n).
Proof. unfold FlowController.UpdateHighestReceivedOffset. preserve. Qed.
End Tuning.

#[export] Hint Resolve AddBytesConsumed_sends UpdateHighestReceivedOffset_sends : posix_quic.

(** What the sending half counts on, in a state that may have closed further; unless
    the stream is being removed, one that left the session can not be written to. *)
Record counted (whole fin contributes written online : bool) (id : Z) (g : Z -> option (Z * Z)) (s : Stream) : Prop := {
  ct_fin : fin_sent_ (sides s) = fin;
  ct_contributes : stream_contributes_to_connection_flow_control_ s = contributes;
  ct_id : id_ s = id;
  ct_flow : sends g (flow s);
  ct_written : written = true -> write_side_closed_ (sides s) = true;
  ct_online : online = false -> connected_ (session_ s) = false;
  ct_gone : whole = true -> in_dynamic_stream_map (session_ s) = false -> write_side_closed_ (sides s) = true
}.

Section Receiving.
Variables (whole fin contributes written online : bool) (id : Z) (g : Z -> option (Z * Z)).
Notation I := (counted whole fin contributes written online id g).
Variable multiplied : Z -> Z.

Lemma counted_buffer {A} (m : M SequencerBuffer.Buffer A) : preserves I (zoom buffer_lens m).
Proof. apply preserves_zoom_any. intros s t []. by split. Qed.

Lemma counted_flow {A} (m : M FlowController.Flow A) : preserves (sends g) m -> preserves I (zoom flow_lens m).
Proof. intros Hm. eapply (preserves_zoom _ _ _ _ Hm); [by intros s []|]. intros s t [] Ht. by split. Qed.

Lemma counted_sequencer h : preserves I (on_sequencer h).
Proof. apply preserves_modify. intros s []. by split. Qed.

Lemma counted_emit e : preserves I (emit e).
Proof. apply preserves_modify. intros s []. by split. Qed.

(** Changes of the flags that keep [fin_sent_] and reopen nothing *)
Lemma counted_sides h :
  (forall d, fin_sent_ (h d) = fin_sent_ d /\ (write_side_closed_ d = true -> write_side_closed_ (h d) = true)) ->
  preserves I (on_sides h).
Proof.
  intros Hh. apply preserves_modify. intros s [H1 H2 H3 H4 H5 H6 H7]. split; simpl; auto.
  - by rewrite (proj1 (Hh _)).
  - intros Hw. apply (proj2 (Hh _)). auto.
  - intros Hw Hm. apply (proj2 (Hh _)). auto.
Qed.

Lemma counted_session h :
  (forall s, (connected_ (session_ s) = false -> connected_ (h s) = false) /\
    (whole = true -> in_dynamic_stream_map (h s) = false -> in_dynamic_stream_map (session_ s) = false)) ->
  preserves I (modify (fun s => with_session s (h s))).
Proof.
  intros Hh. apply preserves_modify. intros s [H1 H2 H3 H4 H5 H6 H7]. split; simpl; auto.
  - intros Ho. apply (Hh s). auto.
  - intros Hw Hm. apply H7; [done|]. by apply (Hh s).
Qed.

Lemma counted_read n : preserves I (modify (fun s => with_bytes_read s (n s))).
Proof. apply preserves_modify. intros s []. by split. Qed.
End Receiving.

#[export] Hint Resolve counted_buffer counted_sequencer counted_emit counted_read : posix_quic.
#[export] Hint Extern 1 (preserves (counted _ _ _ _ _ _ _) (zoom flow_lens _)) => apply counted_flow : posix_quic.
#[export] Hint Extern 1 (preserves (counted _ _ _ _ _ _ _) (on_sides _)) =>
  apply counted_sides; intros ?; split; [reflexivity|intros H; solve [exact H | reflexivity]] : posix_quic.
#[export] Hint Extern 1 (preserves (counted _ _ _ _ _ _ _) (modify (fun s => with_session s _))) =>
  apply counted_session; intros ?; split; [intros H; solve [exact H | reflexivity]|intros ? H; solve [discriminate | exact H]] : posix_quic.

Section ReceiveOps.
Variables (whole fin contributes written online : bool) (id : Z) (g : Z -> option (Z * Z)).
Notation I := (counted whole fin contributes written online id g).
Variables fast too_long : bool.
Variable multiplied : Z -> Z.

Lemma keeps_flow_controller : preserves I flow_controller_.
Proof. unfold flow_controller_. preserve. Qed.

Lemma keeps_connection_flow_controller : preserves I connection_flow_controller_.
Proof. unfold connection_flow_controller_. preserve. Qed.
Hint Resolve keeps_flow_controller keeps_connection_flow_controller : posix_quic.

Lemma keeps_violation : preserves I violation.
Proof. unfold violation. preserve. Qed.

Lemma keeps_AddBytesConsumed n : preserves I (ReceiveStream.AddBytesConsumed multiplied n).
Proof. unfold ReceiveStream.AddBytesConsumed. preserve. Qed.
Hint Resolve keeps_violation keeps_AddBytesConsumed : posix_quic.

Lemma keeps_close_read_side close : (forall r, preserves I (close r)) -> preserves I (close_read_side close).
Proof. intros Hc. unfold close_read_side. preserve. Qed.

Lemma keeps_close_write_side close : (forall r, preserves I (close r)) -> preserves I (close_write_side close).
Proof. intros Hc. unfold close_write_side. preserve. Qed.

Lemma keeps_send_rst_stream close e : (forall r, preserves I (close r)) -> preserves I (send_rst_stream close e).
Proof. intros Hc. unfold send_rst_stream. preserve. Qed.
End ReceiveOps.

#[export] Hint Resolve keeps_flow_controller keeps_connection_flow_controller keeps_violation keeps_AddBytesConsumed
  keeps_close_read_side keeps_close_write_side keeps_send_rst_stream : posix_quic.

(** ** Closing *)

(** Closing the write side closes it. *)
Lemma close_write_side_closes close whole fin contributes written online id g s u s' :
  (forall r, preserves (counted whole fin contributes true online id g) (close r)) ->
  counted whole fin contributes written online id g s -> close_write_side close s = Ret u s' ->
  counted whole fin contributes true online id g s'.
Proof.
  intros Hclose Hc E. unfold close_write_side in E. apply bind_inv in E as (x & s1 & [= <- <-] & E).
  destruct (write_side_closed_ (sides s)) eqn:Ew.
  - injection E as _ <-. destruct Hc. by split.
  - apply bind_inv in E as (y & s1 & [= _ <-] & E).
    eapply (preserves_when _ _ _ (Hclose false)); [|exact E]. destruct Hc. by split.
Qed.

Section Removing.
Variables (fin contributes online : bool) (id : Z) (g : Z -> option (Z * Z)).
Notation I whole written := (counted whole fin contributes written online id g).
Variable multiplied : Z -> Z.

Lemma keeps_removing written fuel r : preserves (I false written) (close_stream_inner multiplied fuel r).
Proof.
  revert r. induction fuel as [|fuel IH]; intros r; cbn [close_stream_inner];
    unfold on_close, quic_stream_on_close; preserve.
Qed.

(** A stream that is removed ends up closed. *)
Lemma on_close_closes written fuel s u s' : I false written s ->
  on_close multiplied (close_stream_inner multiplied fuel) s = Ret u s' -> I true true s'.
Proof.
  intros Hs E. unfold on_close, quic_stream_on_close in E. apply bind_inv in E as (u1 & s3 & E & E3).
  apply bind_inv in E as (u2 & s1 & E1 & E). apply bind_inv in E as (u4 & s2 & E2 & E).
  assert (I false true s2) as H2.
  { eapply (close_write_side_closes _ _ _ _ written); [by intros r; apply keeps_removing| |exact E2].
    eapply keeps_close_read_side; [by intros r; apply keeps_removing|exact Hs|exact E1]. }
  assert (I false true s') as [H3 H4 H5 H6 H7 H8 _]; [|by split; auto].
  assert (I false true s3) as H3.
  { revert E. match goal with |- ?m s2 = _ -> _ => assert (preserves (I false true) m) as Hm end.
    - pose proof (keeps_removing true fuel) as Hrem. preserve.
    - intros E. eapply Hm; [exact H2|exact E]. }
  injection E3 as _ <-. by destruct H3; split.
Qed.

Lemma keeps_close_stream_inner whole written fuel r : preserves (I whole written) (close_stream_inner multiplied fuel r).
Proof.
  destruct whole; [|apply keeps_removing]. intros s u s' Hs E.
  assert (I false written s) as Hf by (by destruct Hs; split).
  destruct fuel as [|fuel]; cbn [close_stream_inner] in E; apply bind_inv in E as (x & s1 & [= <- <-] & E);
    destruct (in_dynamic_stream_map (session_ s)); cbn [negb] in E; try (by injection E as _ <-); try done.
  apply bind_inv in E as (u1 & s1 & E1 & E). apply bind_inv in E as (y & s2 & [= <- <-] & E).
  apply bind_inv in E as (c & s2 & E2 & E). apply bind_inv in E as (u3 & s3 & E3 & E).
  assert (I false written s1) as H1 by (revert E1; eapply (preserves_when (I false written)); [preserve|done]).
  assert (I false written s2) as H2 by (eapply keeps_flow_controller; [exact H1|exact E2]).
  assert (I false written s3) as H3 by (injection E3 as _ <-; destruct H2; by split).
  apply (on_close_closes written) in E as []; [|done]. split; auto.
Qed.
End Removing.

#[export] Hint Resolve keeps_close_stream_inner : posix_quic.

Section ClosedOps.
Variables (whole fin contributes written online : bool) (id : Z) (g : Z -> option (Z * Z)).
Notation I := (counted whole fin contributes written online id g).
Variables fast too_long : bool.
Variable multiplied : Z -> Z.

Lemma keeps_CloseStreamInner r : preserves I (CloseStreamInner multiplied r).
Proof. apply keeps_close_stream_inner. Qed.
Hint Resolve keeps_CloseStreamInner : posix_quic.

Lemma keeps_CloseReadSide : preserves I (CloseReadSide multiplied).
Proof. unfold CloseReadSide, close_read_side. preserve. Qed.

Lemma keeps_CloseWriteSide : preserves I (CloseWriteSide multiplied).
Proof. unfold CloseWriteSide, close_write_side. preserve. Qed.
Hint Resolve keeps_CloseReadSide keeps_CloseWriteSide : posix_quic.

Lemma keeps_TearDown e : preserves I (TearDownLocalConnectionState multiplied e).
Proof. unfold TearDownLocalConnectionState, OnConnectionClosed. preserve. Qed.
Hint Resolve keeps_TearDown : posix_quic.

Lemma keeps_CloseConnection e : preserves I (CloseConnectionWithDetails multiplied e).
Proof. unfold CloseConnectionWithDetails. preserve. Qed.

Lemma keeps_Reset e : preserves I (Reset multiplied e).
Proof. unfold Reset, send_rst_stream. preserve. Qed.
Hint Resolve keeps_CloseConnection keeps_Reset : posix_quic.

Lemma keeps_OnFinRead : preserves I (OnFinRead multiplied).
Proof. unfold OnFinRead, quic_stream_on_fin_read. preserve. Qed.

Lemma keeps_MarkConsumed n : preserves I (ReceiveStream.MarkConsumed multiplied n).
Proof. unfold ReceiveStream.MarkConsumed. preserve. Qed.
Hint Resolve keeps_OnFinRead keeps_MarkConsumed : posix_quic.

Lemma keeps_deliver fuel : preserves I (deliver multiplied fuel).
Proof. induction fuel as [|fuel IH]; cbn [deliver]; preserve. Qed.
Hint Resolve keeps_deliver : posix_quic.

Lemma keeps_OnDataAvailable : preserves I (OnDataAvailable multiplied).
Proof. unfold OnDataAvailable. preserve. Qed.
Hint Resolve keeps_OnDataAvailable : posix_quic.

Lemma keeps_MaybeCloseStream : preserves I (MaybeCloseStream multiplied).
Proof. unfold MaybeCloseStream. preserve. Qed.
Hint Resolve keeps_MaybeCloseStream : posix_quic.

Lemma keeps_FlushBufferedFrames : preserves I (FlushBufferedFrames multiplied).
Proof. unfold FlushBufferedFrames. preserve. Qed.

Lemma keeps_CloseStreamAtOffset o : preserves I (CloseStreamAtOffset multiplied o).
Proof. unfold CloseStreamAtOffset. preserve. Qed.
Hint Resolve keeps_FlushBufferedFrames keeps_CloseStreamAtOffset : posix_quic.

Lemma keeps_StopReading : preserves I (StopReading multiplied).
Proof. unfold StopReading. preserve. Qed.

Lemma keeps_MaybeIncreaseHighest o : preserves I (MaybeIncreaseHighestReceivedOffset o).
Proof. unfold MaybeIncreaseHighestReceivedOffset. preserve. Qed.
Hint Resolve keeps_MaybeIncreaseHighest : posix_quic.

Lemma keeps_sequencer_OnStreamFrame o d f : preserves I (sequencer_OnStreamFrame fast multiplied o d f).
Proof. unfold sequencer_OnStreamFrame, buffer_frame, frame_buffered. preserve. Qed.
Hint Resolve keeps_sequencer_OnStreamFrame : posix_quic.

Lemma keeps_OnStreamFrame o d f : preserves I (OnStreamFrame fast too_long multiplied o d f).
Proof. unfold OnStreamFrame, StreamDraining. preserve. Qed.

Lemma keeps_OnStreamReset o e : preserves I (OnStreamReset too_long multiplied o e).
Proof. unfold OnStreamReset. preserve. Qed.

Lemma keeps_OnFinalByteOffset o : preserves I (OnFinalByteOffsetReceived multiplied o).
Proof. unfold OnFinalByteOffsetReceived. preserve. Qed.
Hint Resolve keeps_StopReading keeps_OnStreamFrame keeps_OnStreamReset keeps_OnFinalByteOffset : posix_quic.

(** Every input of the receiving half; our own FIN is an input of the other. *)
Lemma keeps_handle i : i <> FinSent -> preserves I (handle fast too_long multiplied i).
Proof.
  intros Hi. unfold handle. apply preserves_bind; [preserve|]. intros s. destruct (negb _); [preserve|].
  destruct i; try done; unfold session_OnStreamFrame, session_OnRstStream; preserve.
Qed.
End ClosedOps.

#[export] Hint Resolve keeps_CloseStreamInner keeps_CloseReadSide keeps_CloseWriteSide : posix_quic.

(** Our own FIN *)
Lemma fin_written_counted whole fin contributes written online id g multiplied s u s' :
  counted whole fin contributes written online id g s -> fin_written multiplied s = Ret u s' ->
  counted whole true contributes true online id g s'.
Proof.
  intros Hc E. unfold fin_written in E. apply bind_inv in E as (x & s1 & [= _ <-] & E).
  apply bind_inv in E as (y & s2 & [= <- <-] & E). apply bind_inv in E as (z & s3 & E1 & E).
  eapply close_write_side_closes; [|..|exact E]; [by intros r; apply keeps_CloseStreamInner|].
  eapply (preserves_when (counted whole true contributes written online id g)); [| |exact E1].
  - unfold StreamDraining. preserve.
  - destruct Hc. by split.
Qed.

Lemma TearDown_offline whole fin contributes written online id g multiplied e s u s' :
  counted whole fin contributes written online id g s -> TearDownLocalConnectionState multiplied e s = Ret u s' ->
  counted whole fin contributes written false id g s'.
Proof.
  intros Hc E. unfold TearDownLocalConnectionState in E. apply bind_inv in E as (x & s1 & [= <- <-] & E).
  destruct (connected_ (session_ s)) eqn:Ew; cbn [negb] in E.
  - apply bind_inv in E as (y & s1 & [= _ <-] & E).
    eapply (preserves_when (counted whole fin contributes written false id g)); [| |exact E].
    + unfold OnConnectionClosed. preserve.
    + destruct Hc. by split.
  - injection E as _ <-. destruct Hc. by split.
Qed.

(** ** The sending half *)

(** Controllers that differ in their sending halves alone *)
Definition resent (f f' : FlowController.Flow) : Prop :=
  forall i, match FlowController.controllers f !! i, FlowController.controllers f' !! i with
            | Some c, Some c' => exists x y z, c' = FlowController.with_send c x y z
            | None, None => True
            | _, _ => False
            end.

Lemma with_send_twice c x y z x' y' z' :
  FlowController.with_send (FlowController.with_send c x y z) x' y' z' = FlowController.with_send c x' y' z'.
Proof. done. Qed.

Lemma resent_refl f : resent f f.
Proof.
  intros i. destruct (FlowController.controllers f !! i) as [c|]; [|done].
  exists (FlowController.bytes_sent_ c), (FlowController.send_window_offset_ c), (FlowController.last_blocked_send_window_offset_ c).
  by destruct c.
Qed.

Lemma resent_trans f1 f2 f3 : resent f1 f2 -> resent f2 f3 -> resent f1 f3.
Proof.
  intros H12 H23 i. specialize (H12 i). specialize (H23 i).
  destruct (FlowController.controllers f1 !! i), (FlowController.controllers f2 !! i), (FlowController.controllers f3 !! i); try done.
  destruct H12 as (x & y & z & ->), H23 as (x' & y' & z' & ->). eauto.
Qed.

Lemma resent_back f f' i c' : resent f f' -> FlowController.controllers f' !! i = Some c' ->
  exists c x y z, FlowController.controllers f !! i = Some c /\ c' = FlowController.with_send c x y z.
Proof.
  intros H Hc. specialize (H i). rewrite Hc in H. destruct (FlowController.controllers f !! i) as [c|]; [|done].
  destruct H as (x & y & z & ->). by exists c, x, y, z.
Qed.

Lemma resent_forth f f' i c : resent f f' -> FlowController.controllers f !! i = Some c ->
  exists x y z, FlowController.controllers f' !! i = Some (FlowController.with_send c x y z).
Proof.
  intros H Hc. specialize (H i). rewrite Hc in H. destruct (FlowController.controllers f' !! i) as [c'|]; [|done].
  destruct H as (x & y & z & ->). by exists x, y, z.
Qed.

Lemma flow_ok_resent f f' : flow_ok f -> resent f f' -> flow_ok f'.
Proof.
  intros [H1 H2] Hr. split.
  - intros j c' (c & x & y & z & Hc & ->)%(resent_back f f' j c' Hr). by destruct (H1 j c Hc).
  - intros j c' s (c & x & y & z & Hc & ->)%(resent_back f f' j c' Hr) Hs. destruct (H2 j c s Hc Hs) as [Hne [k Hk]].
    split; [done|]. destruct (resent_forth f f' s k Hr Hk) as (? & ? & ? & ->). by eexists.
Qed.

Section Resent.
Variable psent : Z -> Z.
Variable limit : Z.

Lemma sound_resent owes s f : sound limit owes s -> resent (flow s) f -> sound limit owes (with_flow s f).
Proof.
  intros [H1 H2 H3 (c & k & [F1 F2 F3 F4 F5 F6 F7 F8 F9])] Hr. split; simpl; try done.
  destruct (resent_forth _ _ _ c Hr F2) as (x & y & z & Hc'). destruct (resent_forth _ _ _ k Hr F3) as (x' & y' & z' & Hk').
  exists (FlowController.with_send c x y z), (FlowController.with_send k x' y' z').
  split; simpl; try done. by apply (flow_ok_resent (flow s)).
Qed.

Lemma common_resent h s f : common psent limit h s -> resent (flow s) f -> common psent limit h (with_flow s f).
Proof. intros [H1 H2 H3 H4 H5 H6 H7 H8 H9] Hr. split; try done. by apply sound_resent. Qed.

Lemma good_resent h s f : good psent limit h s -> resent (flow s) f -> good psent limit h (with_flow s f).
Proof.
  intros [[[H1 H2 H3 H4 H5 H6 H7 H8 H9 H10] R2 R3 R4]|[H1 H2 H3 H4 H5 H6]] Hr; [left|right].
  - split; [|intros c' k' Hc' Hk'|done|done].
    + split; try done; [by apply common_resent|..].
      * intros c' (c & x & y & z & Hc & ->)%(resent_back _ _ _ _ Hr). by apply (H5 c).
      * intros c' v (c & x & y & z & Hc & ->)%(resent_back _ _ _ _ Hr). by apply (H6 c).
    + apply (resent_back _ _ _ _ Hr) in Hc' as (c & x & y & z & Hc & ->).
      apply (resent_back _ _ _ _ Hr) in Hk' as (k & x' & y' & z' & Hk & ->). by apply (R2 c k).
  - split; try done. by apply common_resent.
Qed.
End Resent.
