(* ===== verification/SendSide.v ===== *)
(** The sending half of a stream keeps its books: the frames it puts into packets
    carry the bytes the application wrote, within the windows of the peer, the FIN
    goes out with or after the last byte, and no operation fails. *)

From S2P Require Import Prelude FlowController FlowControl IntervalSet Intervals SequencerBuffer Reassembly.
From S2P Require Import ReassemblyRuns ReceiveStream StreamClosing StreamDelivery StreamRuns.
From S2P Require Import QuicData Wire SendBuffer Sending SendAcks SendStream SendKept.
Import SendStream.

(** ** Flow control *)

(** What the sending halves of the controllers hold *)
Definition parts (f : FlowController.Flow) (i : Z) : option (Z * Z) :=
  send_part <$> FlowController.controllers f !! i.

(** A window: what was sent of it and where it ends *)
Definition window_ok (p : Z * Z) : Prop := 0 <= p.1 <= p.2 /\ p.2 < 2 ^ 64.

Section Windows.
Variable f : FlowController.Flow.
Variable i : Z.

Lemma parts_some b w : parts f i = Some (b, w) -> exists c, FlowController.controllers f !! i = Some c /\
  FlowController.bytes_sent_ c = b /\ FlowController.send_window_offset_ c = w.
Proof using.
  unfold parts. destruct (FlowController.controllers f !! i) as [c|]; [|done].
  intros [= <- <-]. by exists c.
Qed.

(** One controller gets another sending half. *)
Lemma replace_send c x y z g : FlowController.controllers f !! i = Some c ->
  (forall c', g c' = FlowController.with_send c' (x c') (y c') (z c')) ->
  terminates_in (FlowController.update i g f) (fun _ f' => resent f f' /\
    parts f' i = Some (x c, y c) /\ forall j, j <> i -> parts f' j = parts f j).
Proof using.
  intros Hc Hg. unfold FlowController.update, FlowController.self, get, mbind, M_bind, modify, deref. rewrite Hc. simpl.
  split; [|split].
  - intros j. simpl. rewrite lookup_alter. case_decide as Hj.
    + subst j. rewrite Hc. simpl. rewrite Hg. eauto.
    + apply resent_refl.
  - unfold parts. simpl. rewrite lookup_alter, decide_True by done. rewrite Hc. simpl. by rewrite Hg.
  - intros j Hj. unfold parts. simpl. by rewrite lookup_alter, decide_False.
Qed.

Lemma AddBytesSent_parts b w n : parts f i = Some (b, w) -> 0 <= b -> 0 <= n -> b + n <= w -> w < 2 ^ 64 ->
  terminates_in (FlowController.AddBytesSent i n f) (fun _ f' => resent f f' /\
    parts f' i = Some (b + n, w) /\ forall j, j <> i -> parts f' j = parts f j).
Proof using.
  intros (c & Hc & <- & <-)%parts_some Hb Hn Hw H64.
  unfold FlowController.AddBytesSent, FlowController.self, get, mbind at 1, M_bind at 1, deref, mbind at 1, M_bind at 1.
  rewrite Hc. rewrite uint64_small by lia. destruct (Z.gtb_spec (FlowController.bytes_sent_ c + n) (FlowController.send_window_offset_ c)); [lia|].
  eapply total_mono.
  { apply (replace_send c (fun c => uint64 (FlowController.bytes_sent_ c + n)) FlowController.send_window_offset_
      FlowController.last_blocked_send_window_offset_ _ Hc). done. }
  intros u f' (H1 & H2 & H3). rewrite uint64_small in H2 by lia. done.
Qed.

Lemma MaybeSendBlocked_parts p : parts f i = Some p ->
  terminates_in (FlowController.MaybeSendBlocked i f) (fun _ f' => resent f f' /\ forall j, parts f' j = parts f j).
Proof using.
  destruct p as [b w]. intros Hp. pose proof Hp as (c & Hc & <- & <-)%parts_some.
  unfold FlowController.MaybeSendBlocked, FlowController.self, get, mbind at 1, M_bind at 1, deref, mbind at 1, M_bind at 1.
  rewrite Hc. destruct (_ && _); [|split; [apply resent_refl|done]].
  unfold FlowController.send, modify, mbind, M_bind. simpl.
  match goal with |- terminates_in (FlowController.update i ?g ?f1) _ =>
    assert (FlowController.controllers f1 = FlowController.controllers f) as E by done; set (f2 := f1) in * end.
  unfold FlowController.update, FlowController.self, get, mbind, M_bind, modify, deref. rewrite E, Hc. simpl.
  split.
  - intros j. simpl. rewrite ?E, lookup_alter. case_decide as Hj; [subst j; rewrite Hc; simpl; eauto|apply resent_refl].
  - intros j. unfold parts. simpl. rewrite ?E, lookup_alter. case_decide as Hj; [subst j; by rewrite Hc|done].
Qed.

Lemma UpdateSendWindowOffset_parts b w o : parts f i = Some (b, w) ->
  terminates_in (FlowController.UpdateSendWindowOffset i o f) (fun _ f' => resent f f' /\
    parts f' i = Some (b, Z.max w o) /\ forall j, j <> i -> parts f' j = parts f j).
Proof using.
  intros Hp. pose proof Hp as (c & Hc & Hb & Hw)%parts_some.
  unfold FlowController.UpdateSendWindowOffset, FlowController.self, get, mbind at 1, M_bind at 1, deref, mbind at 1, M_bind at 1.
  rewrite Hc, Hw. destruct (Z.leb_spec o w).
  - split; [apply resent_refl|]. split; [|done]. by rewrite Z.max_l by lia.
  - apply total_bind. eapply total_mono.
    { apply (replace_send c FlowController.bytes_sent_ (fun _ => o) FlowController.last_blocked_send_window_offset_ _ Hc). done. }
    intros u f' (H1 & H2 & H3). split; [done|]. split; [|done]. by rewrite H2, Hb, Z.max_r by lia.
Qed.

Lemma SendWindowSize_parts c b w : FlowController.controllers f !! i = Some c -> parts f i = Some (b, w) ->
  window_ok (b, w) -> FlowController.SendWindowSize c = w - b.
Proof using.
  intros Hc Hp [Hw H64]. unfold parts in Hp. rewrite Hc in Hp. injection Hp as Hb Hw'. simpl in *.
  unfold FlowController.SendWindowSize. rewrite Hb, Hw'. destruct (Z.gtb_spec b w); [lia|]. apply uint64_small. lia.
Qed.
End Windows.

Lemma parts_resent f f' i : resent f f' -> is_Some (parts f i) -> is_Some (parts f' i).
Proof.
  intros Hr [p Hp]. unfold parts in *. specialize (Hr i).
  destruct (FlowController.controllers f !! i), (FlowController.controllers f' !! i); done.
Qed.

(** ** Frames *)

(** A byte, and the FIN, is in some frame. *)
Definition in_frame (v : Z) (x : frame) : Prop := foffset x <= v < foffset x + frame_length x.
Definition framed_in (l : list frame) (v : Z) : Prop := exists x, x ∈ l /\ in_frame v x.
Definition fin_framed (l : list frame) : Prop := exists x, x ∈ l /\ ffin x = true.

Lemma framed_in_app l m v : framed_in (l ++ m) v <-> framed_in l v \/ framed_in m v.
Proof. unfold framed_in. setoid_rewrite elem_of_app. naive_solver. Qed.

Lemma fin_framed_app l m : fin_framed (l ++ m) <-> fin_framed l \/ fin_framed m.
Proof. unfold fin_framed. setoid_rewrite elem_of_app. naive_solver. Qed.

(** ** What holds all the time *)

Section Duplex.
(** The stream of the peer, for the receiving half *)
Variable psent : Z -> Z.
Variable plimit : Z.
Context (Hplimit : 0 <= plimit <= 2 ^ 61).

(** A frame carries saved bytes that were put into packets. *)
Record frame_ok (a : Sending) (x : frame) : Prop := {
  fo_offset : 0 <= foffset x;
  fo_end : foffset x + frame_length x <= framed a;
  fo_data : fdata x = bytes (saved a) (foffset x) (frame_length x)
}.

Notation flow_of s := (ReceiveStream.flow (stream s)).
Notation connection_id := FlowController.kConnectionLevelId.

Record books (h : history) (a : Sending) (s : Sender) : Prop := {
  bk_good : good psent plimit h (stream s);
  bk_id : stream_id s <> connection_id;
  bk_contributes : contributes s = true;
  bk_buffer : represents a (send_buffer_ s);
  bk_frames : Forall (frame_ok a) (outbox s);
  bk_fins : forall x, x ∈ outbox s -> ffin x = true ->
    fin_buffered_ s = true /\ foffset x + frame_length x = len (saved a);
  bk_stream : exists w, parts (flow_of s) (stream_id s) = Some (sent a, w) /\ window_ok (sent a, w);
  bk_connection : exists p, parts (flow_of s) connection_id = Some p /\ window_ok p;
  bk_gone : ReceiveStream.in_dynamic_stream_map (ReceiveStream.session_ (stream s)) = false -> write_side_closed s = true;
  bk_cover : forall v, 0 <= v < framed a -> framed_in (outbox s) v
}.

(** ... and between two inputs *)
Record rest (h : history) (a : Sending) (s : Sender) : Prop := {
  rs_books : books h a s;
  rs_framed : framed a = sent a;
  rs_fin_sent : fin_sent s = true -> fin_buffered_ s = true /\ sent a = len (saved a) /\ write_side_closed s = true;
  rs_outstanding : fin_outstanding_ s = true -> fin_sent s = true;
  rs_lost : fin_lost_ s = true -> fin_outstanding_ s = true;
  rs_fins : connected s = true -> fin_framed (outbox s) -> fin_sent s = true;
  rs_fin_framed : fin_sent s = true -> fin_framed (outbox s)
}.

Lemma represents_bounds a b : represents a b ->
  0 <= framed a <= len (saved a) /\ 0 <= sent a <= len (saved a) /\ len (saved a) <= kMaxLength /\
  SendBuffer.stream_bytes_written_ b = sent a /\ SendBuffer.stream_offset_ b = len (saved a).
Proof using. intros (l & first & [] & _). done. Qed.

Lemma frame_ok_grow a a' x : frame_ok a x -> framed a <= len (saved a) -> framed a <= framed a' ->
  (exists D, saved a' = saved a ++ D) -> frame_ok a' x.
Proof using.
  intros [H1 H2 H3] Hf Hf' [D HD]. split; [done|lia|]. rewrite HD, H3 at 1.
  assert (0 <= frame_length x) by (unfold frame_length; lia). symmetry. apply bytes_app; lia.
Qed.

(** ** Into packets *)

Notation fresh n := (Writer.init (replicate (Z.to_nat n) 0) NETWORK_BYTE_ORDER).

Lemma fresh_fits n : fits (fresh n) (Z.to_nat n).
Proof using. unfold fits, Writer.capacity_. simpl. by rewrite length_replicate. Qed.

Lemma fresh_payload n data : length data = Z.to_nat n ->
  take (Writer.length_ (append (fresh n) data)) (Writer.buffer_ (append (fresh n) data)) = data.
Proof using.
  intros Hn. assert (fits (fresh n) (length data)) as Hf by (rewrite Hn; apply fresh_fits).
  exact (append_payload (fresh n) data Hf).
Qed.

(** What is put into a packet: nothing, new data or old data *)
Definition may_frame (o n : Z) (a : Sending) : Prop :=
  may_write o n a \/ n = 0 /\ 0 <= o <= framed a.

Variable multiplied : Z -> Z.

Lemma add_frame_spec o n fin a s : represents a (send_buffer_ s) -> may_frame o n a ->
  exists b, add_frame multiplied o n fin s = Ret tt (with_out (with_buffer s b)
      ({| foffset := o; fdata := bytes (saved a) o n; ffin := fin |} :: outbox s) (notices s)) /\
    represents (put_in_packet o n a) b.
Proof using.
  intros Hr [Hm|[-> Ho]].
  - pose proof Hm as (Ho & Hn & Hl & _). pose proof (represents_bounds _ _ Hr) as (_ & _ & Hk & _).
    destruct (WriteStreamData_spec o n (fresh n) a (send_buffer_ s) Hr Hm (fresh_fits n)) as (b & E & Hb).
    exists b. split; [|done]. unfold add_frame. rewrite (proj2 (Z.eqb_neq n 0)) by lia.
    unfold mbind, M_bind, zoom. cbn [view buffer_lens]. rewrite E. cbn [fst snd negb mret M_ret put].
    unfold modify. do 2 f_equal. rewrite fresh_payload; [done|].
    pose proof (len_bytes (saved a) o n Ho ltac:(lia) Hl) as L. unfold len in L. lia.
  - exists (send_buffer_ s). unfold add_frame. simpl. split.
    + unfold mbind, M_bind, modify. simpl. by destruct s.
    + replace (put_in_packet o 0 a) with a; [done|]. destruct a; unfold put_in_packet; simpl in *. f_equal. lia.
Qed.

(** What a write may take: data that is new or was in packets before, none of it
    acknowledged, and a FIN behind the last byte. *)
Definition may_take (wl off : Z) (fin : bool) (a : Sending) (s : Sender) : Prop :=
  0 <= off /\ 0 <= wl /\ off + wl <= len (saved a) /\ (off = framed a \/ off + wl <= framed a) /\
  range off wl ## acked a /\ (fin = true -> fin_buffered_ s = true /\ off + wl = len (saved a)).

(** The new frames: they carry what was taken from [o] on, and the FIN if it was taken. *)
Record took (a : Sending) (o : Z) (taken : Z * bool) (wl : Z) (fin : bool) (new : list frame) : Prop := {
  tk_length : 0 <= taken.1 <= wl;
  tk_frames : Forall (frame_ok a) new;
  tk_fin : taken.2 = true -> fin = true /\ taken.1 = wl /\ fin_framed new;
  tk_fins : forall x, x ∈ new -> ffin x = true -> taken.2 = true /\ foffset x + frame_length x = len (saved a);
  tk_cover : forall v, o <= v < o + taken.1 -> framed_in new v
}.

(** Nothing was taken. *)
Lemma took_none a o wl fin : 0 <= wl -> took a o (0, false) wl fin [].
Proof using. intros Hwl. split; simpl; try done; try lia. by intros x Hx%elem_of_nil. Qed.

(** The loop from [total] on; [took] counts from there. *)
Lemma consume_data_spec fin wl off rs : forall total a s, represents a (send_buffer_ s) ->
  0 <= off -> 0 <= total <= wl -> off + wl <= len (saved a) ->
  (off + total = framed a \/ off + wl <= framed a) -> range off wl ## acked a ->
  (fin = true -> off + wl = len (saved a)) ->
  exists b new n taken, consume_data multiplied rs wl off total fin s
      = Ret (total + n, taken) (with_out (with_buffer s b) (new ++ outbox s) (notices s)) /\
    represents (put_in_packet off (total + n) a) b /\
    took (put_in_packet off (total + n) a) (off + total) (n, taken) (wl - total) fin new.
Proof using.
  induction rs as [|r rs IH]; intros total a s Hr Ho Ht Hl Hwhere Hd Hfin; cbn [consume_data].
  { exists (send_buffer_ s), [], 0, false. rewrite Z.add_0_r. split; [by destruct s|].
    pose proof (represents_bounds _ _ Hr) as (Hf & _).
    replace (put_in_packet off total a) with a by (destruct a; unfold put_in_packet; simpl in *; f_equal; lia).
    split; [done|]. apply took_none. lia. }
  set (n := Z.min (Z.pos r) (wl - total)). pose proof (represents_bounds _ _ Hr) as (Hf & _ & Hk & _).
  assert (0 <= n /\ total + n <= wl) as Hn by lia. rewrite kMaxLength_eq in Hk.
  rewrite uint64_small by lia.
  assert (may_frame (off + total) n a) as Hm.
  { destruct (Z.eqb_spec n 0) as [E|E]; [right; lia|left]. split_and!; try lia.
    intros v Hv. apply Hd. rewrite elem_of_range in *. lia. }
  destruct (add_frame_spec (off + total) n (fin && (total + n =? wl)) a s Hr Hm) as (b & E & Hb).
  unfold mbind, M_bind. rewrite E. set (x := {| foffset := off + total; fdata := bytes (saved a) (off + total) n;
    ffin := fin && (total + n =? wl) |}) in *.
  assert (frame_length x = n) as Lx by (unfold frame_length; simpl; apply len_bytes; lia).
  assert (forall m, total + n <= m -> frame_ok (put_in_packet off m a) x) as Hx.
  { intros m Hmn. split; simpl; [lia|rewrite Lx; lia|by rewrite Lx]. }
  assert (put_in_packet (off + total) n a = put_in_packet off (total + n) a) as Ea
    by (unfold put_in_packet; f_equal; lia).
  destruct (Z.eqb_spec (total + n) wl) as [Ew|Ew].
  - exists b, [x], n, (fin && true). split; [done|]. rewrite Ea in Hb. split; [done|].
    split; simpl; [lia|constructor; [apply Hx; lia|done]|..].
    + intros Hf'. split; [by destruct fin|]. split; [lia|]. exists x. split; [left|]. simpl. exact Hf'.
    + intros y ->%list_elem_of_singleton Hy. split; [exact Hy|]. rewrite Lx. simpl. apply andb_true_iff in Hy as [Hy _].
      specialize (Hfin Hy). lia.
    + intros v Hv. exists x. split; [left|]. unfold in_frame. rewrite Lx. simpl. lia.
  - assert (framed (put_in_packet (off + total) n a) = Z.max (framed a) (off + total + n)) as Efr by done.
    destruct (IH (total + n) (put_in_packet (off + total) n a) (with_out (with_buffer s b) (x :: outbox s) (notices s)))
      as (b' & new & m & taken & E' & Hb' & [T1 T2 T3 T4 T5]); try done; try lia. simpl in T1, T3, T4, T5.
    exists b', (new ++ [x]), (n + m), taken. rewrite Ea in *. rewrite Z.add_assoc.
    assert (put_in_packet off (total + n + m) (put_in_packet off (total + n) a) = put_in_packet off (total + n + m) a) as Eb
      by (unfold put_in_packet; simpl; f_equal; lia).
    rewrite Eb in *. split; [rewrite E'; simpl; by rewrite <- app_assoc|]. split; [done|].
    split; simpl; [lia|apply Forall_app; split; [done|by constructor; [apply Hx; lia|]]|..].
    + intros (H1 & H2 & H3)%T3. split; [done|]. split; [lia|]. apply fin_framed_app. by left.
    + intros y [Hy| ->%list_elem_of_singleton]%elem_of_app Hy'; [by apply T4|]. simpl in Hy'. by rewrite andb_false_r in Hy'.
    + intros v Hv. apply framed_in_app. destruct (Z.lt_ge_cases v (off + (total + n))); [right|left; apply T5; lia].
      exists x. split; [left|]. unfold in_frame. rewrite Lx. simpl. lia.
Qed.

End Duplex.
