(* ===== verification/SendWrites.v ===== *)
(** New data is written: the frames that go into packets carry it from where the
    last ones ended, as far as both windows allow, and the FIN behind the last
    byte; what was put into packets is counted with the flow controllers. *)

From S2P Require Import Prelude FlowController FlowControl IntervalSet Intervals SequencerBuffer Reassembly.
From S2P Require Import ReassemblyRuns ReceiveStream StreamClosing StreamDelivery StreamRuns.
From S2P Require Import QuicData Wire SendBuffer Sending SendAcks SendStream SendKept SendSide.
Import SendStream.

Notation flow_of s := (ReceiveStream.flow (stream s)).
Notation connection_id := FlowController.kConnectionLevelId.

(** ** What stays *)

(** The peer's windows end where they did. *)
Definition ends (f f' : FlowController.Flow) : Prop := forall i, snd <$> parts f' i = snd <$> parts f i.

Lemma ends_same f f' : (forall i, parts f' i = parts f i) -> ends f f'.
Proof. intros H i. by rewrite H. Qed.

Lemma ends_trans f1 f2 f3 : ends f1 f2 -> ends f2 f3 -> ends f1 f3.
Proof. intros H1 H2 i. by rewrite H2, H1. Qed.

(** What writing leaves alone *)
Record passive (s s' : Sender) : Prop := {
  pv_buffered : fin_buffered_ s' = fin_buffered_ s;
  pv_outstanding : fin_outstanding_ s' = fin_outstanding_ s;
  pv_lost : fin_lost_ s' = fin_lost_ s;
  pv_fin_sent : fin_sent s' = fin_sent s;
  pv_id : stream_id s' = stream_id s;
  pv_ends : ends (flow_of s) (flow_of s');
  pv_closed : write_side_closed s = true -> write_side_closed s' = true;
  pv_connected : connected s' = true -> connected s = true /\ (write_side_closed s' = true -> write_side_closed s = true)
}.

Lemma passive_refl s : passive s s.
Proof. by split. Qed.

Lemma passive_trans s1 s2 s3 : passive s1 s2 -> passive s2 s3 -> passive s1 s3.
Proof.
  intros [A1 A2 A3 A4 A5 A6 A7 A8] [B1 B2 B3 B4 B5 B6 B7 B8]. split; [congruence..|by eapply ends_trans|auto|].
  intros [C1 C2]%B8. destruct (A8 C1) as [D1 D2]. auto.
Qed.

(** The stream is as the sending half needs it. *)
Notation counts s := (counted true (fin_sent s) (contributes s) (write_side_closed s) (connected s) (stream_id s)
  (parts (flow_of s))).

Lemma put_in_packet_old off n a : off + n <= framed a -> put_in_packet off n a = a.
Proof. intros H. destruct a. unfold put_in_packet. simpl in *. f_equal. lia. Qed.

Section Writes.
Context (psent : Z -> Z) (plimit : Z) (Hplimit : 0 <= plimit <= 2 ^ 61).
Notation good := (good psent plimit).
Notation books := (books psent plimit).
Notation rest := (rest psent plimit).
Variable multiplied : Z -> Z.

Lemma counts_self h a s : books h a s -> counts s (stream s).
Proof using. intros Hb. split; try done. intros _. apply (bk_gone _ _ _ _ _ Hb). Qed.

(** ** The other half of the stream *)

Lemma books_stream h h' a s x fin written online : books h a s -> good h' x ->
  counted true fin (contributes s) written online (stream_id s) (parts (flow_of s)) x -> books h' a (with_stream s x).
Proof using.
  intros [H1 H2 H3 H4 H5 H6 H7 H8 H9 H10] Hg [C1 C2 C3 C4 C5 C6 C7].
  assert (stream_id (with_stream s x) = stream_id s) as Eid by done.
  assert (forall i, parts (ReceiveStream.flow x) i = parts (flow_of s) i) as Ep by apply C4.
  split; simpl; try done.
  - by rewrite Eid.
  - unfold contributes in *. simpl. by rewrite C2.
  - rewrite Eid. setoid_rewrite Ep. done.
  - setoid_rewrite Ep. done.
  - unfold write_side_closed. simpl. auto.
Qed.

(** A stream that can be written to is live. *)
Lemma open_connected h a s : books h a s -> write_side_closed s = false ->
  connected s = true.
Proof using.
  intros Hb Hw. destruct (connected s) eqn:Ec; [done|]. exfalso.
  destruct (bk_good _ _ _ _ _ Hb) as [Hr|He].
  - pose proof (ac_conn _ _ _ _ (rd_active _ _ _ _ Hr)). unfold connected in Ec. congruence.
  - pose proof (bk_gone _ _ _ _ _ Hb (en_map _ _ _ _ He Ec)). congruence.
Qed.

(** Losing the connection *)
Lemma TearDown_books h a s e : books h a s ->
  terminates_in (zoom stream_lens (ReceiveStream.TearDownLocalConnectionState multiplied e) s) (fun _ s' =>
    books h a s' /\ passive s s' /\ connected s' = false /\
    (forall i, parts (flow_of s') i = parts (flow_of s) i) /\ exists x, s' = with_stream s x).
Proof using Hplimit.
  intros Hb. apply total_zoom. cbn [view stream_lens].
  assert (terminates_in (ReceiveStream.TearDownLocalConnectionState multiplied e (stream s)) (fun _ x => good h x)) as Hg.
  { destruct (connected s) eqn:Ec.
    - eapply total_mono; [by apply (TearDown_good psent plimit Hplimit _ h); [apply (bk_good _ _ _ _ _ Hb)|]|]. intros ? x. by right.
    - unfold ReceiveStream.TearDownLocalConnectionState. apply total_get. unfold connected in Ec. rewrite Ec.
      apply (bk_good _ _ _ _ _ Hb). }
  destruct (ReceiveStream.TearDownLocalConnectionState multiplied e (stream s)) as [u x|] eqn:E; [|done].
  cbn [terminates_in put stream_lens] in *.
  pose proof (TearDown_offline _ _ _ _ _ _ _ _ _ _ _ _ (counts_self h a s Hb) E) as Hc.
  assert (connected (with_stream s x) = false) as Eoff by (by apply Hc).
  assert (counts s x) as Hc' by (destruct Hc; split; auto).
  split; [by eapply books_stream|]. split; [|split; [done|split; [apply Hc'|by exists x]]].
  destruct Hc' as [C1 C2 C3 C4 C5 C6 C7]. split; simpl; try done; [by apply ends_same, C4|].
  unfold connected in *. simpl in *. congruence.
Qed.

(** ** Packets *)

(** The buffer and the outbox after frames were taken *)
Lemma books_took h a s b new n taken wl off fin : books h a s -> may_take wl off fin a s ->
  represents (put_in_packet off n a) b -> took (put_in_packet off n a) off (n, taken) wl fin new ->
  books h (put_in_packet off n a) (with_out (with_buffer s b) (new ++ outbox s) (notices s)).
Proof using.
  intros [H1 H2 H3 H4 H5 H6 H7 H8 H9 H10] (M1 & M2 & M3 & M4 & M5 & M6) Hb [T1 T2 T3 T4 T5]. simpl in *.
  pose proof (represents_bounds _ _ H4) as (Hf & _). split; simpl; try done.
  - apply Forall_app. split; [done|]. eapply Forall_impl; [exact H5|]. intros x Hx.
    eapply frame_ok_grow; [exact Hx|lia|simpl; lia|]. exists []. by rewrite app_nil_r.
  - intros x [Hx|Hx]%elem_of_app Hfx; [|by apply H6]. destruct (T4 x Hx Hfx) as [Ht He].
    split; [by apply M6, T3|done].
  - intros v Hv. apply framed_in_app. destruct (Z.lt_ge_cases v (framed a)); [right; apply H10; lia|left; apply T5; lia].
Qed.

(** Frames for what is asked: as many as there is room for. *)
Lemma WritevData_spec wl off fin h a s : books h a s -> may_take wl off fin a s ->
  terminates_in (WritevData_session multiplied wl off fin s) (fun taken s' =>
    books h (put_in_packet off taken.1 a) s' /\ passive s s' /\ (forall i, parts (flow_of s') i = parts (flow_of s) i) /\
    exists new, outbox s' = new ++ outbox s /\ took (put_in_packet off taken.1 a) off taken wl fin new).
Proof using Hplimit.
  intros Hb Hm. pose proof Hm as (M1 & M2 & M3 & M4 & M5 & M6). unfold WritevData_session.
  assert (books h (put_in_packet off 0 a) s /\ passive s s /\ (forall i, parts (flow_of s) i = parts (flow_of s) i) /\
    exists new, outbox s = new ++ outbox s /\ took (put_in_packet off 0 a) off (0, false) wl fin new) as Hnone.
  { rewrite put_in_packet_old by lia. split; [done|]. split; [apply passive_refl|]. split; [done|]. exists [].
    split; [done|]. by apply took_none. }
  destruct (negb fin && (wl =? 0)); [done|]. apply total_get. destruct (network s) as [|p net]; [done|].
  apply total_bind, total_modify.
  destruct (consume_data_spec multiplied fin wl off (rooms p) 0 a (with_world s (yields s) net))
    as (b & new & n & taken & E & Hrep & Htk).
  { apply (bk_buffer _ _ _ _ _ Hb). } { done. } { lia. } { done. } { lia. } { done. } { intros Hf. by apply M6. }
  rewrite Z.add_0_l, Z.add_0_r, Z.sub_0_r in *. apply total_bind. rewrite E. cbn [terminates_in fst].
  assert (books h (put_in_packet off n a)
    (with_out (with_buffer (with_world s (yields s) net) b) (new ++ outbox s) (notices s))) as Hb'.
  { apply (books_took h a (with_world s (yields s) net) b new n taken wl off fin); [|done|done|done].
    by destruct Hb; split. }
  apply total_bind. destruct (write_error p) as [e|].
  - eapply total_mono; [by apply TearDown_books|]. intros ? s' (Hb2 & Hp & _ & Hparts & x & ->). cbn [terminates_in mret M_ret fst].
    split; [done|]. split; [by destruct Hp; split|]. split; [done|]. by exists new.
  - split; [done|]. split; [by split|]. split; [done|]. by exists new.
Qed.

(** ** The windows *)

(** The flow controllers were told what was sent. *)
Definition with_controllers (s : Sender) (f : FlowController.Flow) : Sender :=
  with_stream s (ReceiveStream.with_flow (stream s) f).

Lemma passive_flow s f : ends (flow_of s) f -> passive s (with_controllers s f).
Proof using. intros H. by split. Qed.

Lemma books_flow h a s f : books h a s -> resent (flow_of s) f ->
  (exists w, parts f (stream_id s) = Some (sent a, w) /\ window_ok (sent a, w)) ->
  (exists p, parts f connection_id = Some p /\ window_ok p) -> books h a (with_controllers s f).
Proof using.
  intros [H1 H2 H3 H4 H5 H6 H7 H8 H9 H10] Hr Hs Hc. split; try done. simpl. by apply good_resent.
Qed.

Lemma parts_controller f i p : parts f i = Some p -> exists c, FlowController.controllers f !! i = Some c.
Proof using. destruct p. intros (c & Hc & _)%parts_some. by exists c. Qed.

Lemma self_run f i c : FlowController.controllers f !! i = Some c -> FlowController.self i f = Ret c f.
Proof using. intros Hc. unfold FlowController.self, get, deref, mbind, M_bind. by rewrite Hc. Qed.

Lemma with_controllers_same s : with_controllers s (flow_of s) = s.
Proof using. by destruct s as [[]]. Qed.

Lemma with_controllers_twice s f g : with_controllers (with_controllers s f) g = with_controllers s g.
Proof using. done. Qed.

(** Reading a controller *)
Lemma total_self {A} i c (k : FlowController.FlowController -> M Sender A) s Q :
  FlowController.controllers (flow_of s) !! i = Some c -> terminates_in (k c s) Q ->
  terminates_in ((zoom flow_lens (FlowController.self i) ≫= k) s) Q.
Proof using.
  intros Hc Hk. apply total_bind, total_zoom. change (view flow_lens s) with (flow_of s).
  rewrite (self_run _ _ c Hc). cbn [terminates_in].
  change (put flow_lens (flow_of s) s) with (with_controllers s (flow_of s)). by rewrite with_controllers_same.
Qed.

(** A call of one controller *)
Lemma total_flow {A B} (m : M FlowController.Flow A) (k : A -> M Sender B) s Q R :
  terminates_in (m (flow_of s)) R -> (forall a f, R a f -> terminates_in (k a (with_controllers s f)) Q) ->
  terminates_in ((zoom flow_lens m ≫= k) s) Q.
Proof using. intros Hm Hk. apply total_bind, total_zoom. eapply total_mono; [exact Hm|]. intros a f Hr. by apply Hk. Qed.

Lemma total_last {A} (m : M Sender A) s Q : terminates_in ((m ≫= mret) s) Q -> terminates_in (m s) Q.
Proof using. unfold mbind, M_bind. by destruct (m s). Qed.

(** What telling the peer that a window is full leaves *)
Lemma MaybeSendBlocked_spec h a s : books h a s ->
  terminates_in (MaybeSendBlocked s) (fun _ s' => books h a s' /\ passive s s' /\ outbox s' = outbox s /\
    write_side_closed s' = write_side_closed s).
Proof using.
  intros Hb. pose proof Hb as [H1 H2 H3 H4 H5 H6 (w & Hs & Hw) (p & Hp & Hpw) H9 H10].
  unfold MaybeSendBlocked. apply total_get. eapply total_flow; [by eapply MaybeSendBlocked_parts|].
  intros ? f1 [R1 P1]. cbv beta. rewrite H3. cbn [negb].
  eapply total_flow; [eapply MaybeSendBlocked_parts; by rewrite P1|].
  intros ? f2 [R2 P2]. rewrite with_controllers_twice. simpl in R2, P2.
  assert (forall i, parts f2 i = parts (flow_of s) i) as P by (intros i; by rewrite P2, P1).
  assert (books h a (with_controllers s f2)) as Hb2.
  { apply books_flow; [done|by eapply resent_trans|rewrite P; eauto|rewrite P; eauto]. }
  destruct (parts_controller f2 connection_id p) as [k Hk]; [by rewrite P|].
  destruct (parts_controller f2 (stream_id s) (sent a, w)) as [c Hc]; [by rewrite P|].
  eapply total_self; [exact Hk|]. eapply total_self; [exact Hc|].
  pose proof (passive_flow s f2 (ends_same _ _ P)) as Hpv.
  apply total_when; intros _; [apply total_modify|]; (split; [|split; [by destruct Hpv; split|done]]).
  - by destruct Hb2; split.
  - done.
Qed.

(** What was put into packets is taken out of the windows. *)
Lemma AddBytesSent_spec n b w kb kw s : contributes s = true -> stream_id s <> connection_id ->
  parts (flow_of s) (stream_id s) = Some (b, w) -> parts (flow_of s) connection_id = Some (kb, kw) ->
  0 <= n -> 0 <= b -> b + n <= w < 2 ^ 64 -> 0 <= kb -> kb + n <= kw < 2 ^ 64 ->
  terminates_in (AddBytesSent n s) (fun _ s' => exists f, s' = with_controllers s f /\ resent (flow_of s) f /\
    parts f (stream_id s) = Some (b + n, w) /\ parts f connection_id = Some (kb + n, kw) /\ ends (flow_of s) f).
Proof using.
  intros Hc Hid Hs Hk Hn Hb Hw Hkb Hkw. unfold AddBytesSent. apply total_get.
  eapply total_flow; [eapply AddBytesSent_parts; [exact Hs|lia..]|].
  intros ? f1 (R1 & P1 & P1'). rewrite Hc. cbn [when]. apply total_last.
  eapply total_flow; [eapply (AddBytesSent_parts f1 connection_id kb kw); [by rewrite P1'|lia..]|].
  intros ? f2 (R2 & P2 & P2'). cbn [terminates_in mret M_ret].
  exists f2. split; [done|]. split; [by eapply resent_trans|]. split; [by rewrite P2'|]. split; [done|].
  intros i. destruct (decide (i = connection_id)) as [->|Hi]; [by rewrite P2, Hk|]. rewrite P2' by done.
  destruct (decide (i = stream_id s)) as [->|Hj]; [by rewrite P1, Hs|by rewrite P1'].
Qed.

Lemma books_window h a s : books h a s -> exists w p,
  parts (flow_of s) (stream_id s) = Some (sent a, w) /\ parts (flow_of s) connection_id = Some p /\
  window_ok (sent a, w) /\ window_ok p /\
  send_window s = Ret (Z.min (w - sent a) (p.2 - p.1)) s.
Proof using.
  intros Hb. pose proof Hb as [H1 H2 H3 H4 H5 H6 (w & Hs & Hw) ([kb kw] & Hp & Hpw) H9 H10].
  exists w, (kb, kw). split_and!; try done.
  destruct (parts_controller _ _ _ Hs) as [c Hc]. destruct (parts_controller _ _ _ Hp) as [k Hk].
  assert (terminates_in (send_window s) (fun n s' => n = Z.min (w - sent a) (kw - kb) /\ s' = s)) as H.
  { unfold send_window. apply total_get. eapply total_self; [exact Hc|]. rewrite H3.
    eapply total_self; [exact Hk|]. cbn [terminates_in mret M_ret]. split; [|done].
    by rewrite (SendWindowSize_parts _ _ _ _ _ Hc Hs Hw), (SendWindowSize_parts _ _ _ _ _ Hk Hp Hpw). }
  destruct (send_window s); [|done]. by destruct H as [-> ->].
Qed.

(** ** Accounting *)

Lemma total_assoc {A B C} (m : M Sender A) (n : M Sender B) (k : B -> M Sender C) s Q :
  terminates_in (((m;; n) ≫= k) s) Q -> terminates_in ((m;; (n ≫= k)) s) Q.
Proof using. unfold mbind, M_bind. by destruct (m s). Qed.

Lemma account_spec n h a s w kb kw : books h a s ->
  parts (flow_of s) (stream_id s) = Some (sent a, w) -> parts (flow_of s) connection_id = Some (kb, kw) ->
  0 <= n -> sent a + n <= len (saved a) -> sent a + n <= w < 2 ^ 64 -> 0 <= kb -> kb + n <= kw < 2 ^ 64 ->
  terminates_in ((OnStreamDataConsumed n;; AddBytesSent n) s) (fun _ s' =>
    books h (consume n a) s' /\ passive s s' /\ outbox s' = outbox s /\ connected s' = connected s /\
    write_side_closed s' = write_side_closed s).
Proof using.
  intros Hb Hs Hk Hn Hl Hw Hkb Hkw. pose proof Hb as [H1 H2 H3 H4 H5 H6 _ _ H9 H10].
  pose proof (represents_bounds _ _ H4) as (_ & H0 & _).
  unfold OnStreamDataConsumed, tell. apply total_bind, total_bind, total_zoom. cbn [view buffer_lens].
  eapply total_mono; [by apply (OnStreamDataConsumed_spec n a)|]. intros ? b Hrb. cbn [put buffer_lens].
  apply total_modify. set (s1 := with_out (with_buffer s b) (outbox s) (BufferChanged :: notices s)).
  change (terminates_in (AddBytesSent n s1) (fun _ s' => books h (consume n a) s' /\ passive s s' /\ outbox s' = outbox s /\
    connected s' = connected s /\ write_side_closed s' = write_side_closed s)).
  eapply total_mono; [apply (AddBytesSent_spec n (sent a) w kb kw s1); (done || lia)|].
  intros ? s' (f & -> & Hr & P1 & P2 & He). split; [|split; [by split|done]].
  split; try done.
  - simpl. by apply good_resent.
  - eapply Forall_impl; [exact H5|]. by intros x []; split.
  - exists w. split; [done|]. split; simpl in *; lia.
  - exists (kb + n, kw). split; [done|]. split; simpl; lia.
Qed.

(** ** Writing what is buffered *)

(** The state of the data that writing does not touch *)
Definition same_data (a a' : Sending) : Prop := saved a' = saved a /\ pieces a' = pieces a /\ acked a' = acked a.

Lemma ShouldYield_spec h a s : rest h a s ->
  terminates_in (ShouldYield s) (fun _ s' => rest h a s' /\ passive s s' /\ write_side_closed s' = write_side_closed s).
Proof using.
  intros Hr. unfold ShouldYield. apply total_get.
  assert (rest h a s /\ passive s s /\ write_side_closed s = write_side_closed s) as Hsame by (split; [done|split; [apply passive_refl|done]]).
  destruct (currently_writing s); [done|]. destruct (yields s) as [|y ys]; [done|].
  split; [|split; [by split|done]]. destruct Hr as [[] ? ? ? ? ? ?]. by split; [split|..].
Qed.

Lemma rest_passive h a s s' : rest h a s -> books h a s' -> passive s s' -> outbox s' = outbox s -> rest h a s'.
Proof using.
  intros [R1 R2 R3 R4 R5 R6 R7] Hb [P1 P2 P3 P4 P5 P6 P7 P8] Eo. split; rewrite ?P1, ?P2, ?P3, ?P4, ?Eo; auto.
  - intros (F1 & F2 & F3)%R3. auto.
  - intros [Hc _]%P8. auto.
Qed.

Lemma Mark_spec h a s : rest h a s ->
  terminates_in (MarkConnectionLevelWriteBlocked s) (fun _ s' => rest h a s' /\ passive s s' /\ outbox s' = outbox s).
Proof using.
  intros Hr. apply total_modify. split; [|by split]. destruct Hr as [[] ? ? ? ? ? ?]. by split; [split|..].
Qed.

(** While the write side is open there was no FIN. *)
Lemma open_no_fin h a s : rest h a s -> write_side_closed s = false ->
  fin_sent s = false /\ fin_outstanding_ s = false /\ fin_lost_ s = false /\ ~ fin_framed (outbox s).
Proof using.
  intros Hr Hw. pose proof Hr as [R1 R2 R3 R4 R5 R6 R7]. pose proof (open_connected h a s R1 Hw) as Hc.
  assert (fin_sent s = false) as Ef by (destruct (fin_sent s); [|done]; destruct (R3 eq_refl) as (_ & _ & ?); congruence).
  assert (fin_outstanding_ s = false) as Eo by (destruct (fin_outstanding_ s); [|done]; rewrite R4 in Ef; done).
  split; [done|]. split; [done|]. split; [destruct (fin_lost_ s); [rewrite R5 in Eo; done|done]|].
  intros Hx. specialize (R6 Hc Hx). congruence.
Qed.

(** A FIN that is sent is outstanding; one that was sent before is left alone. *)
Definition fin_step (s s' : Sender) : Prop :=
  (fin_sent s = true -> fin_sent s' = true /\ fin_outstanding_ s' = fin_outstanding_ s) /\
  (fin_sent s = false -> fin_outstanding_ s' = fin_sent s').

Lemma fin_step_same h a s s' : rest h a s' -> fin_sent s' = fin_sent s -> fin_outstanding_ s' = fin_outstanding_ s ->
  fin_step s s'.
Proof using.
  intros Hr E1 E2. split; intros E; [split; congruence|]. rewrite E1, E. destruct (fin_outstanding_ s') eqn:Eo; [|done].
  apply (rs_outstanding _ _ _ _ _ Hr) in Eo. congruence.
Qed.

(** What an operation that takes no data leaves *)
Definition wrote (h : history) (a : Sending) (s s' : Sender) : Prop := exists a',
  rest h a' s' /\ same_data a a' /\ fin_buffered_ s' = fin_buffered_ s /\ ends (flow_of s) (flow_of s') /\
  stream_id s' = stream_id s /\ fin_step s s'.

Lemma wrote_passive h a s0 s s' : passive s0 s -> wrote h a s s' -> wrote h a s0 s'.
Proof using.
  intros [Q1 Q2 Q3 Q4 Q5 Q6 Q7 Q8] (a' & W1 & W2 & W3 & W4 & W5 & W6 & W7). exists a'. split; [done|]. split; [done|].
  split; [congruence|]. split; [by eapply ends_trans|]. split; [congruence|]. rewrite Q4, Q2 in *. by split.
Qed.

Lemma rest_wrote h a s s' : rest h a s' -> passive s s' -> wrote h a s s'.
Proof using. intros Hr []. exists a. split_and!; try done. by eapply fin_step_same. Qed.

Lemma rest_no_fin h a s : books h a s -> framed a = sent a -> fin_sent s = false -> fin_outstanding_ s = false ->
  fin_lost_ s = false -> ~ fin_framed (outbox s) -> rest h a s.
Proof using. intros H1 H2 H3 H4 H5 H6. split; try done; congruence. Qed.

(** The FIN was put into a packet. *)
Lemma fin_taken_spec h a s : books h a s -> framed a = sent a -> write_side_closed s = false ->
  fin_buffered_ s = true -> sent a = len (saved a) -> fin_framed (outbox s) -> fin_lost_ s = false ->
  fin_sent s = false -> terminates_in (fin_taken multiplied s) (fun _ s' => wrote h a s s').
Proof using Hplimit.
  intros Hb Hf Hw Hfb Hl Hff Hlost Hfs. pose proof (open_connected h a s Hb Hw) as Hc.
  unfold fin_taken. apply total_bind, total_modify, total_zoom. cbn [view stream_lens].
  change (stream (with_fin s (fin_buffered_ s) true (fin_lost_ s))) with (stream s).
  pose proof (fin_written_good psent plimit Hplimit multiplied h _ (bk_good _ _ _ _ _ Hb) Hc) as Hg.
  destruct (ReceiveStream.fin_written multiplied (stream s)) as [u x|] eqn:E; [|done]. cbn [terminates_in put stream_lens] in *.
  pose proof (fin_written_counted _ _ _ _ _ _ _ _ _ _ _ (counts_self h a s Hb) E) as Hx.
  exists a. split; [|split; [done|]]. 2: { split; [done|]. split; [by apply ends_same, Hx|]. split; [apply Hx|].
    split; [congruence|]. intros _. symmetry. apply Hx. }
  assert (books h a (with_stream (with_fin s (fin_buffered_ s) true (fin_lost_ s)) x)) as Hb'.
  { eapply (books_stream h); [by destruct Hb; split|done|exact Hx]. }
  destruct Hx as [X1 X2 X3 X4 X5 X6 X7]. split; try done.
  intros _. split; [done|]. split; [done|]. by apply X5.
Qed.

Section After.
Variables (h : history) (a : Sending) (s0 s : Sender) (wl : Z) (fin : bool) (taken : Z * bool) (new : list frame).
Context (Hb : books h a s) (Hf : framed a = sent a) (Hp : passive s0 s) (Hw : write_side_closed s = false).
Context (Hnone : fin_sent s0 = false /\ fin_outstanding_ s0 = false /\ fin_lost_ s0 = false /\ ~ fin_framed (outbox s0)).
Context (Hout : outbox s = new ++ outbox s0).
Context (Hfin : taken.2 = true -> fin = true /\ taken.1 = wl /\ fin_framed new).
Context (Hfins : fin_framed new -> taken.2 = true).
Context (Hend : fin = true -> fin_buffered_ s = true /\ (taken.1 = wl -> sent a = len (saved a))).

Lemma wrote_no_fin s' : taken.2 = false -> books h a s' -> passive s s' -> outbox s' = outbox s -> wrote h a s0 s'.
Proof using Hf Hp Hnone Hout Hfins.
  intros Ht Hb' Hp' Ho'. destruct (passive_trans _ _ _ Hp Hp') as [P1 P2 P3 P4 P5 P6 P7 P8].
  destruct Hnone as (N1 & N2 & N3 & N4). exists a. split; [|split_and!; try done; split; [congruence|]; intros _; congruence].
  apply rest_no_fin; try congruence. rewrite Ho', Hout. rewrite fin_framed_app. intros [?%Hfins|?]; [congruence|done].
Qed.

Lemma mark_wrote s' : taken.2 = false -> books h a s' -> passive s s' -> outbox s' = outbox s ->
  terminates_in (MarkConnectionLevelWriteBlocked s') (fun _ s'' => wrote h a s0 s'').
Proof using Hf Hp Hnone Hout Hfins.
  intros Ht Hb' Hp' Ho'. apply total_modify, wrote_no_fin; try done.
  - by destruct Hb'; split.
  - by destruct Hp'; split.
Qed.

(** The end of a write, while the write side is still open *)
Lemma after_write_spec fz : terminates_in (after_write multiplied wl fin fz taken s) (fun _ s' => wrote h a s0 s').
Proof using All.
  unfold after_write. destruct (Z.eqb_spec taken.1 wl) as [E|E].
  2: { apply mark_wrote; try done. destruct (Sumbool.sumbool_of_bool taken.2) as [Et|Et]; [|done].
       by destruct (Hfin Et) as (_ & ? & _). }
  apply total_bind. eapply (total_mono _ (fun _ s' => books h a s' /\ passive s s' /\ outbox s' = outbox s /\
    write_side_closed s' = write_side_closed s)).
  { apply total_when; intros _; [by apply MaybeSendBlocked_spec|]. split; [done|]. split; [apply passive_refl|done]. }
  intros ? s1 (Hb1 & Hp1 & Ho1 & Hw1). pose proof Hp1 as [P1 P2 P3 P4 P5 P6 P7 P8].
  destruct (Sumbool.sumbool_of_bool taken.2) as [Et|Et]; rewrite Et.
  - destruct (Hfin Et) as (Ef & _ & Hnew). destruct (Hend Ef) as [Hfb Hl]. rewrite Ef. cbn [andb].
    eapply total_mono; [apply (fin_taken_spec h a s1)|]; try done; try congruence.
    + by apply Hl.
    + rewrite Ho1, Hout. apply fin_framed_app. by left.
    + rewrite P3, (pv_lost _ _ Hp). apply Hnone.
    + rewrite P4, (pv_fin_sent _ _ Hp). apply Hnone.
    + intros ? s'. apply wrote_passive. by eapply passive_trans.
  - rewrite andb_false_r. apply total_when; intros _; [by apply mark_wrote|]. by apply wrote_no_fin.
Qed.
End After.

(** What may be taken of the new data *)
Lemma may_take_new h a s wl fin : books h a s -> framed a = sent a -> 0 <= wl -> sent a + wl <= len (saved a) ->
  (fin = true -> fin_buffered_ s = true /\ sent a + wl = len (saved a)) -> may_take wl (sent a) fin a s.
Proof using.
  intros Hb Hf Hwl Hl Hfin. pose proof (bk_buffer _ _ _ _ _ Hb) as Hr. pose proof (represents_bounds _ _ Hr) as (H1 & H2 & _).
  destruct Hr as (e & first & Hr & _). split_and!; try lia; try done; [|by apply Hfin..].
  intros v Hv Ha. apply (r_in_flight _ _ _ _ Hr) in Ha. rewrite elem_of_range in *. lia.
Qed.

(** Data and FIN are put into packets as far as the windows reach. *)
Section Send.
Variables (h : history) (a : Sending) (s : Sender) (w kb kw wl : Z) (fin : bool).
Context (Hr : rest h a s) (Hw : write_side_closed s = false).
Context (Hs : parts (flow_of s) (stream_id s) = Some (sent a, w)) (Hk : parts (flow_of s) connection_id = Some (kb, kw)).
Context (Hsw : window_ok (sent a, w)) (Hkw : window_ok (kb, kw)).
Context (Hwl : 0 <= wl) (Hlen : sent a + wl <= len (saved a)) (Hwin : wl <= Z.min (w - sent a) (kw - kb)).
Context (Hfin : fin = true -> fin_buffered_ s = true /\ sent a + wl = len (saved a)).

Lemma send_spec fz : terminates_in ((
    consumed ← WritevData_session multiplied wl (sent a) fin;
    OnStreamDataConsumed consumed.1;;
    AddBytesSent consumed.1;;
    s ← get;
    if write_side_closed s then mret tt else after_write multiplied wl fin fz consumed) s)
  (fun _ s' => wrote h a s s').
Proof using All.
  pose proof Hr as [R1 R2 _ _ _ _ _]. pose proof (open_no_fin h a s Hr Hw) as Hnone.
  apply total_bind. eapply total_mono; [apply (WritevData_spec wl (sent a) fin h a s R1)|].
  { by apply (may_take_new h). }
  intros taken s1 (Hb1 & Hp1 & Hparts & new & Ho1 & [T1 T2 T3 T4 T5]). pose proof Hp1 as [P1 P2 P3 P4 P5 P6 P7 P8].
  destruct Hsw as [W1 W2], Hkw as [K1 K2]. simpl in W1, W2, K1, K2.
  apply total_assoc, total_bind. eapply total_mono.
  { apply (account_spec taken.1 h _ s1 w kb kw Hb1); try done; simpl; try lia; rewrite Hparts, ?P5; done. }
  intros ? s2 (Hb2 & Hp2 & Ho2 & Hc2 & Hw2). apply total_get.
  assert (framed (consume taken.1 (put_in_packet (sent a) taken.1 a)) = sent (consume taken.1 (put_in_packet (sent a) taken.1 a))) as Hf2
    by (simpl; lia).
  pose proof (passive_trans _ _ _ Hp1 Hp2) as Hp12. set (a2 := consume taken.1 (put_in_packet (sent a) taken.1 a)) in *.
  assert (forall s', wrote h a2 s s' -> wrote h a s s') as Hgo by done.
  destruct (write_side_closed s2) eqn:Ew2.
  - assert (rest h a2 s2) as Hr2; [|by apply Hgo, rest_wrote]. destruct Hnone as (N1 & N2 & N3 & N4).
    destruct Hp12 as [Q1 Q2 Q3 Q4 Q5 Q6 Q7 Q8].
    split; rewrite ?Q1, ?Q2, ?Q3, ?Q4; try done; try congruence. intros Hc. destruct (Q8 Hc) as [_ Hcl].
    rewrite Hcl in Hw by done. done.
  - eapply total_mono; [apply (after_write_spec h a2 s s2 wl fin taken new)|]; try done.
    + by rewrite Ho2.
    + intros (x & Hx & Hxf). by apply (T4 x).
    + intros Ef. destruct (Hfin Ef) as [F1 F2]. split; [by rewrite (pv_buffered _ _ Hp12)|]. intros E. simpl. lia.
Qed.
End Send.

Lemma BufferedDataBytes_spec a s : represents a (send_buffer_ s) -> BufferedDataBytes s = len (saved a) - sent a.
Proof using.
  intros Hr. pose proof (represents_bounds _ _ Hr) as (_ & H2 & H3 & H4 & H5). rewrite kMaxLength_eq in H3.
  unfold BufferedDataBytes, stream_bytes_written. rewrite H4, H5. apply uint64_small. lia.
Qed.

Lemma WriteBufferedData_spec h a s : rest h a s -> write_side_closed s = false ->
  terminates_in (WriteBufferedData multiplied s) (fun _ s' => wrote h a s s').
Proof using Hplimit.
  intros Hr Hw. unfold WriteBufferedData. apply total_bind. eapply total_mono; [by apply (ShouldYield_spec h a)|].
  intros y s1 (Hr1 & Hp1 & Hw1). rewrite Hw in Hw1.
  eapply (total_mono _ (fun _ s' => wrote h a s1 s')); [|intros ? s'; by apply wrote_passive].
  destruct y; [eapply total_mono; [by apply (Mark_spec h a)|]; intros ? s' (H1 & H2 & _); by apply rest_wrote|].
  apply total_get. pose proof (rs_books _ _ _ _ _ Hr1) as Hb1. pose proof (bk_buffer _ _ _ _ _ Hb1) as Hrep.
  pose proof (represents_bounds _ _ Hrep) as (_ & H2 & H3 & H4 & H5). cbv zeta. rewrite (BufferedDataBytes_spec a s1 Hrep).
  destruct (books_window h a s1 Hb1) as (w & [kb kw] & Hs & Hk & Hsw & Hkw & E). apply total_bind. rewrite E. cbn [terminates_in].
  simpl in E |- *. destruct Hsw as [W1 W2], Hkw as [K1 K2]. simpl in W1, W2, K1, K2.
  set (window := Z.min (w - sent a) (kw - kb)) in *.
  destruct ((window =? 0) && _).
  { eapply total_mono; [by apply MaybeSendBlocked_spec|]. intros ? s' (B1 & B2 & B3 & _).
    apply rest_wrote; [by eapply rest_passive|done]. }
  unfold stream_bytes_written at 1. rewrite H4. destruct (Z.gtb_spec (len (saved a) - sent a) window).
  - eapply send_spec; try done; try lia.
  - eapply send_spec; try done; try lia. intros Hf. split; [done|lia].
Qed.

(** ** The three ways to write *)

(** More data was saved, while nothing of a FIN had been sent. *)
Lemma rest_more h a a' s s' D : rest h a s -> write_side_closed s = false -> stream s' = stream s ->
  outbox s' = outbox s -> fin_outstanding_ s' = fin_outstanding_ s -> fin_lost_ s' = fin_lost_ s ->
  represents a' (send_buffer_ s') -> saved a' = saved a ++ D -> framed a' = framed a -> sent a' = sent a -> rest h a' s'.
Proof using.
  intros Hr Hw Est Eo Eout Elost Hrep Es Ef Et. pose proof (open_no_fin h a s Hr Hw) as (N1 & N2 & N3 & N4).
  pose proof Hr as [[H1 H2 H3 H4 H5 H6 H7 H8 H9 H10] R2 _ _ _ _ _]. pose proof (represents_bounds _ _ H4) as (Hf & _).
  assert (fin_sent s' = fin_sent s /\ stream_id s' = stream_id s /\ contributes s' = contributes s /\
    write_side_closed s' = write_side_closed s) as (E1 & E2 & E3 & E4)
    by (unfold fin_sent, stream_id, contributes, write_side_closed; by rewrite Est).
  apply rest_no_fin; try congruence.
  split; rewrite ?Est, ?Eo, ?E2, ?E3, ?E4, ?Et, ?Ef; try done.
  - eapply Forall_impl; [exact H5|]. intros x Hx. eapply frame_ok_grow; [exact Hx|lia|lia|by exists D].
  - intros x Hx Hfx. destruct N4. by exists x.
Qed.

(** What a write leaves: all of [data] and the FIN were accepted, or nothing. *)
Definition takes (h : history) (a : Sending) (s : Sender) (accept : bool) (data : list Z) (fin : bool) (k : Z)
    (r : Z * bool) (s' : Sender) : Prop :=
  r = (if accept then (len data, fin) else (0, false)) /\
  exists a', rest h a' s' /\ saved a' = saved a ++ (if accept then data else []) /\
    pieces a <= pieces a' <= pieces a + k /\ acked a' = acked a /\ fin_buffered_ s' = fin_buffered_ s || r.2 /\
    ends (flow_of s) (flow_of s') /\ stream_id s' = stream_id s /\ fin_step s s'.

Lemma takes_empty h a s accept k : rest h a s -> 0 <= k -> takes h a s accept [] false k (0, false) s.
Proof using.
  intros Hr Hk. split; [by destruct accept|]. exists a. rewrite orb_false_r.
  split_and!; try done; try lia; [by destruct accept; rewrite app_nil_r|by apply (fin_step_same h a)].
Qed.

Lemma takes_nothing h a s data fin k : rest h a s -> 0 <= k -> takes h a s false data fin k (0, false) s.
Proof using.
  intros Hr Hk. split; [done|]. exists a. rewrite app_nil_r, orb_false_r. split_and!; try done; try lia; by apply (fin_step_same h a).
Qed.

(** The data is saved and the flag set: it is sent unless older data waits. *)
Lemma finish_write_spec h a a' s s' had accept data fin k : rest h a s -> write_side_closed s = false ->
  fin_buffered_ s = false -> stream s' = stream s -> outbox s' = outbox s -> fin_outstanding_ s' = fin_outstanding_ s ->
  fin_lost_ s' = fin_lost_ s -> fin_buffered_ s' = accept && fin -> represents a' (send_buffer_ s') ->
  saved a' = saved a ++ (if accept then data else []) -> framed a' = framed a -> sent a' = sent a ->
  pieces a <= pieces a' <= pieces a + k -> acked a' = acked a ->
  terminates_in (write_unless_buffered multiplied had s') (fun _ s'' =>
    takes h a s accept data fin k (if accept then (len data, fin) else (0, false)) s'').
Proof using Hplimit.
  intros Hr Hw Hfb Est Eo Eout Elost Efb Hrep Es Ef Et Ek Ea.
  assert (rest h a' s') as Hr' by by eapply rest_more.
  assert (write_side_closed s' = false) as Hw' by (unfold write_side_closed; by rewrite Est).
  eapply (total_mono _ (fun _ s'' => wrote h a' s' s'')).
  { unfold write_unless_buffered. apply total_get, total_when; intros _; [by apply WriteBufferedData_spec|].
    apply rest_wrote; [done|apply passive_refl]. }
  intros ? s'' (a'' & W1 & (W2 & W2' & W2'') & W3 & W4 & W5 & W6 & W7). split; [done|]. exists a''. rewrite W2, W2', W2'', W3, Efb, Hfb.
  split; [done|]. split; [done|]. split; [done|]. split; [done|]. split; [by destruct accept, fin|].
  rewrite Est in W4. split; [done|]. split; [rewrite W5; unfold stream_id; by rewrite Est|].
  rewrite Eout in W6. unfold fin_sent in *. rewrite Est in *. by split.
Qed.
End Writes.
