(* ===== verification/SendCalls.v ===== *)
(** The calls of the application and of the session on a sending stream: each takes
    all of the data it is given or none, and leaves the books in order. *)

From S2P Require Import Prelude FlowController FlowControl IntervalSet Intervals SequencerBuffer Reassembly.
From S2P Require Import ReassemblyRuns ReceiveStream StreamClosing StreamDelivery StreamRuns.
From S2P Require Import QuicData Wire SendBuffer Sending SendAcks SendStream SendKept SendSide SendWrites.
Import SendStream.

Section Calls.
Context (psent : Z -> Z) (plimit : Z) (Hplimit : 0 <= plimit <= 2 ^ 61).
Notation good := (good psent plimit).
Notation books := (books psent plimit).
Notation rest := (rest psent plimit).
Notation takes := (takes psent plimit).
Notation wrote := (wrote psent plimit).
Variable multiplied : Z -> Z.
Variables quic_fast_is_disjoint quic_stream_too_long : bool.
Variables max_data_slice_size threshold : Z.
Context (Hsize : 0 < max_data_slice_size).

(** ** Writing *)

(** Neither side of the stream forbids more data. *)
Definition writable (s : Sender) : bool := negb (write_side_closed s) && negb (fin_buffered_ s).

(** The data fits into the stream. *)
Definition fits_stream (data : list Z) (k : Z) (a : Sending) : Prop :=
  len (saved a) + len data <= ReceiveStream.kMaxStreamLength /\ pieces a + k < 2 ^ 31.

Lemma fits_room data k a : fits_stream data k a -> room data k a.
Proof using. intros [H1 H2]. split; [|done]. unfold kMaxLength, ReceiveStream.kMaxStreamLength in *. lia. Qed.

Lemma write_not_too_long data k a s : represents a (send_buffer_ s) -> fits_stream data k a ->
  (uint64 (ReceiveStream.kMaxStreamLength - SendBuffer.stream_offset_ (send_buffer_ s)) <? len data) = false.
Proof using.
  intros Hr [H1 _]. pose proof (represents_bounds _ _ Hr) as (_ & H2 & _ & _ & ->). unfold ReceiveStream.kMaxStreamLength in *.
  assert (0 <= len data) by (unfold len; lia). apply Z.ltb_ge. rewrite uint64_small; lia.
Qed.

Lemma writable_open s : writable s = true -> write_side_closed s = false /\ fin_buffered_ s = false.
Proof using. unfold writable. destruct (write_side_closed s), (fin_buffered_ s); done. Qed.

Lemma bytes_whole D : bytes D 0 (len D) = D.
Proof using. unfold bytes, len. rewrite Nat2Z.id. apply take_ge. simpl. lia. Qed.

(** Saving through an array of buffers *)
Lemma save_data iov a s : represents a (send_buffer_ s) ->
  fits_stream (concat iov) (slices_for max_data_slice_size (len (concat iov))) a ->
  terminates_in (when (len (concat iov) >? 0)
      (zoom buffer_lens (SendBuffer.SaveStreamData max_data_slice_size iov 0 (len (concat iov)));; tell BufferChanged) s)
    (fun _ s' => exists b ns, s' = with_out (with_buffer s b) (outbox s) ns /\
       represents (save (concat iov) (slices_for max_data_slice_size (len (concat iov))) a) b).
Proof using Hsize.
  intros Hr Hf. assert (0 <= len (concat iov)) as Hn by (unfold len; lia). apply total_when; intros E.
  - apply total_bind, total_zoom. cbn [view buffer_lens]. eapply total_mono.
    { apply (SaveStreamData_spec _ iov 0 (len (concat iov)) a); try done; try lia. rewrite bytes_whole. by apply fits_room. }
    intros ? b Hb. rewrite bytes_whole in Hb. cbn [put buffer_lens]. apply total_modify. simpl. eauto.
  - exists (send_buffer_ s), (notices s). split; [by destruct s|].
    assert (len (concat iov) = 0) as E0 by (rewrite Z.gtb_ltb, Z.ltb_ge in E; lia).
    assert (concat iov = []) as Ec by (apply length_zero_iff_nil; unfold len in E0; lia). rewrite Ec in *.
    apply represents_weaken; [done|by apply slices_for_nonneg|]. by destruct Hf.
Qed.

Lemma WriteOrBufferData_spec data fin h a s : rest h a s ->
  fits_stream data (slices_for max_data_slice_size (len data)) a ->
  terminates_in (WriteOrBufferData quic_stream_too_long max_data_slice_size multiplied data fin s) (fun _ s' =>
    exists r, takes h a s (writable s) data fin (slices_for max_data_slice_size (len data)) r s').
Proof using Hplimit Hsize.
  intros Hr Hf. assert (0 <= len data) as Hn by (unfold len; lia). pose proof (slices_for_nonneg _ _ Hsize Hn) as Hk.
  assert (writable s = false -> exists r, takes h a s (writable s) data fin (slices_for max_data_slice_size (len data)) r s) as Hno.
  { intros ->. eexists. by apply takes_nothing. }
  unfold WriteOrBufferData. apply total_get. destruct ((length data =? 0)%nat && negb fin) eqn:E0.
  { apply andb_true_iff in E0 as [->%Nat.eqb_eq%length_zero_iff_nil ->%negb_true_iff].
    destruct (writable s) eqn:Ew; [|by apply Hno].
    exists (0, false). by apply takes_empty. }
  destruct (fin_buffered_ s) eqn:Efb; [apply Hno; unfold writable; rewrite Efb; by rewrite andb_false_r|].
  destruct (write_side_closed s) eqn:Ew; [apply Hno; unfold writable; by rewrite Ew|].
  assert (writable s = true) as -> by (unfold writable; by rewrite Ew, Efb).
  pose proof (bk_buffer _ _ _ _ _ (rs_books _ _ _ _ _ Hr)) as Hrep.
  apply total_bind, total_modify. cbv zeta. change (Z.of_nat (length data)) with (len data).
  rewrite (write_not_too_long data _ a s Hrep Hf), !andb_false_r.
  apply total_bind. eapply total_mono.
  { pose proof (save_data [data] a (with_fin s fin (fin_outstanding_ s) (fin_lost_ s))) as H.
    cbn [concat] in H. rewrite app_nil_r in H. by apply H. }
  intros ? s1 (b & ns & -> & Hb). eapply total_mono.
  { eapply (finish_write_spec psent plimit Hplimit multiplied h a _ s _ _ true data fin (slices_for max_data_slice_size (len data))); try done. simpl. lia. }
  intros ? s' H. eexists. exact H.
Qed.

Lemma WritevData_takes iov fin h a s : rest h a s ->
  fits_stream (concat iov) (slices_for max_data_slice_size (len (concat iov))) a ->
  terminates_in (WritevData quic_stream_too_long max_data_slice_size threshold multiplied iov fin s) (fun r s' =>
    takes h a s (writable s && (CanWriteNewData threshold s || (len (concat iov) =? 0))) (concat iov) fin
      (slices_for max_data_slice_size (len (concat iov))) r s').
Proof using Hplimit Hsize.
  intros Hr Hf. set (data := concat iov) in *. assert (0 <= len data) as Hn by (unfold len; lia).
  pose proof (slices_for_nonneg _ _ Hsize Hn) as Hk. set (k := slices_for max_data_slice_size (len data)) in *.
  unfold WritevData. apply total_get.
  destruct (write_side_closed s) eqn:Ew; [unfold writable; rewrite Ew; by apply takes_nothing|].
  cbv zeta. destruct (fin_buffered_ s) eqn:Efb; [unfold writable; rewrite Efb, andb_false_r; by apply takes_nothing|].
  assert (writable s = true) as -> by (unfold writable; by rewrite Ew, Efb).
  pose proof (bk_buffer _ _ _ _ _ (rs_books _ _ _ _ _ Hr)) as Hrep.
  change (Z.of_nat (length (concat iov))) with (len data).
  pose proof Hf as [Hl _]. unfold ReceiveStream.kMaxStreamLength in Hl.
  rewrite (uint64_small (len data)) by (unfold len in *; lia).
  rewrite (write_not_too_long data _ a s Hrep Hf), !andb_false_r. cbn [andb].
  destruct (CanWriteNewData threshold s); cbn [orb].
  - apply total_bind. eapply total_mono; [by apply (save_data iov a s)|].
    intros ? s1 (b & ns & -> & Hb). rewrite Z.eqb_refl. cbn [andb].
    apply total_bind, total_modify, total_bind. eapply total_mono.
    { eapply (finish_write_spec psent plimit Hplimit multiplied h a _ s _ _ true data fin k); try done. cbn [pieces save]. fold data k. lia. }
    done.
  - cbn [when]. apply total_bind. cbn [terminates_in mret M_ret]. apply total_bind, total_modify, total_bind.
    rewrite (Z.eqb_sym 0). destruct (Z.eqb_spec (len data) 0) as [E0|E0]; cbn [andb].
    + eapply total_mono.
      { eapply (finish_write_spec psent plimit Hplimit multiplied h a a s _ _ true data fin k); try done; [|lia].
        assert (data = []) as -> by (apply length_zero_iff_nil; unfold len in E0; lia). by rewrite app_nil_r. }
      intros ? s' H. by rewrite E0 in H.
    + eapply total_mono.
      { eapply (finish_write_spec psent plimit Hplimit multiplied h a a s _ _ false data fin k); try done; [|lia].
        by rewrite app_nil_r. }
      done.
Qed.

Lemma WriteMemSlices_takes span fin h a s : rest h a s -> fits_stream (concat span) (span_pieces span) a ->
  terminates_in (WriteMemSlices quic_stream_too_long threshold multiplied span fin s) (fun r s' =>
    takes h a s (writable s && (CanWriteNewData threshold s || (length span =? 0)%nat)) (concat span) fin
      (span_pieces span) r s').
Proof using Hplimit.
  intros Hr Hf. assert (0 <= span_pieces span) as Hk by (unfold span_pieces; lia).
  unfold WriteMemSlices. apply total_get. cbv zeta.
  destruct ((length span =? 0)%nat && negb fin) eqn:E0.
  { apply andb_true_iff in E0 as [->%Nat.eqb_eq%length_zero_iff_nil ->%negb_true_iff]. simpl.
    destruct (writable s && _); [by apply takes_empty|by apply takes_nothing]. }
  destruct (fin_buffered_ s) eqn:Efb; [unfold writable; rewrite Efb, andb_false_r; by apply takes_nothing|].
  destruct (write_side_closed s) eqn:Ew; [unfold writable; rewrite Ew; by apply takes_nothing|].
  assert (writable s = true) as -> by (unfold writable; by rewrite Ew, Efb). cbn [andb].
  pose proof (bk_buffer _ _ _ _ _ (rs_books _ _ _ _ _ Hr)) as Hrep.
  destruct (CanWriteNewData threshold s || (length span =? 0)%nat) eqn:Ec; cbn [negb].
  2: { apply total_bind, total_modify, total_bind. eapply total_mono.
       { eapply (finish_write_spec psent plimit Hplimit multiplied h a a s _ _ false (concat span) fin (span_pieces span));
           try done; [by rewrite app_nil_r|lia]. }
       done. }
  destruct (Nat.eqb_spec (length span) 0) as [El|El].
  - apply length_zero_iff_nil in El as ->. apply total_bind, total_modify, total_bind. eapply total_mono.
    { eapply (finish_write_spec psent plimit Hplimit multiplied h a a s _ _ true [] fin 0); try done; [by rewrite app_nil_r|lia]. }
    done.
  - apply total_bind, total_zoom. cbn [view buffer_lens]. eapply total_mono; [apply (SaveMemSlicesInSendBuffer_spec span a _ Hrep), fits_room, Hf|].
    intros n b [-> Hb]. cbn [put buffer_lens]. apply total_get.
    pose proof (represents_bounds _ _ Hrep) as (_ & _ & _ & _ & Eo). pose proof (represents_bounds _ _ Hb) as (_ & _ & _ & _ & Eo').
    cbn [saved save] in Eo'. rewrite len_app in Eo'. simpl. rewrite Eo, Eo'.
    assert (0 <= len (concat span)) by (unfold len; lia). destruct Hf as [Hl _].
    destruct (Z.gtb_spec (len (saved a)) (len (saved a) + len (concat span))); [lia|].
    rewrite (proj2 (Z.ltb_ge _ _)), andb_false_r by lia.
    apply total_bind, total_modify, total_bind, total_modify, total_bind. eapply total_mono.
    { eapply (finish_write_spec psent plimit Hplimit multiplied h a _ s _ _ true (concat span) fin (span_pieces span)); try done.
      simpl. lia. }
    done.
Qed.
End Calls.
