(* ===== verification/SendLosses.v ===== *)
(** Acknowledgement, loss and retransmission on a sending stream: what is put into
    packets again is exactly what was lost and not acknowledged since, and the loop
    that does it ends. *)

From S2P Require Import Prelude FlowController FlowControl IntervalSet Intervals SequencerBuffer Reassembly.
From S2P Require Import ReassemblyRuns ReceiveStream StreamClosing StreamDelivery StreamRuns.
From S2P Require Import QuicData Wire SendBuffer Sending SendAcks SendStream SendKept SendSide SendWrites.
Import Interval.
Import SendStream.

Section Losses.
Context (psent : Z -> Z) (plimit : Z) (Hplimit : 0 <= plimit <= 2 ^ 61).
Notation good := (good psent plimit).
Notation books := (books psent plimit).
Notation rest := (rest psent plimit).
Notation wrote := (wrote psent plimit).
Variable multiplied : Z -> Z.
Variable quic_fast_is_disjoint : bool.

(** Other sets of offsets *)
Lemma books_data h a a' s b : books h a s -> represents a' b -> saved a' = saved a -> framed a' = framed a ->
  sent a' = sent a -> books h a' (with_buffer s b).
Proof using.
  intros [H1 H2 H3 H4 H5 H6 H7 H8 H9 H10] Hr E1 E2 E3. split; simpl; rewrite ?E1, ?E2, ?E3; try done.
  eapply Forall_impl; [exact H5|]. intros x []. split; [done|by rewrite E2|by rewrite E1].
Qed.

Lemma rest_data h a a' s b : rest h a s -> represents a' b -> saved a' = saved a -> framed a' = framed a ->
  sent a' = sent a -> rest h a' (with_buffer s b).
Proof using.
  intros [R1 R2 R3 R4 R5 R6 R7] Hr E1 E2 E3. split; try done; [by eapply books_data|congruence|].
  intros H%R3. by rewrite E1, E3.
Qed.

(** Other flags *)
Lemma rest_fin h a s out lost : rest h a s -> (out = true -> fin_outstanding_ s = true) -> (lost = true -> out = true) ->
  rest h a (with_fin s (fin_buffered_ s) out lost).
Proof using. intros [[] R2 R3 R4 R5 R6 R7] H1 H2. split; try done. intros H. by apply R4, H1. Qed.

Lemma rest_lists h a s blocked pending writing : rest h a s -> rest h a (with_lists s blocked pending writing).
Proof using. intros [[] R2 R3 R4 R5 R6 R7]. by split; [split|..]. Qed.

Lemma rest_notices h a s ns : rest h a s -> rest h a (with_out s (outbox s) ns).
Proof using. intros [[] R2 R3 R4 R5 R6 R7]. by split; [split|..]. Qed.

(** A frame that was put into a packet *)
Lemma frame_in_flight h a s x : rest h a s -> x ∈ outbox s -> in_flight (foffset x) (frame_length x) a.
Proof using.
  intros [R1 R2 _ _ _ _ _] Hx. pose proof (bk_frames _ _ _ _ _ R1) as Hf. rewrite Forall_forall in Hf.
  destruct (Hf x Hx) as [F1 F2 F3]. assert (0 <= frame_length x) by (unfold frame_length; lia).
  split_and!; try done; lia.
Qed.

(** ** Acknowledgement *)

Lemma OnStreamFrameAcked_spec h a s x : rest h a s -> connected s = true -> x ∈ outbox s ->
  terminates_in (OnStreamFrameAcked quic_fast_is_disjoint multiplied (foffset x) (frame_length x) (ffin x) s)
    (fun r s' => rest h (ack (range (foffset x) (frame_length x)) a) s' /\ stream s' = stream s /\
      fin_buffered_ s' = fin_buffered_ s /\ fin_outstanding_ s' = fin_outstanding_ s && negb (ffin x) /\
      r = (card (range (foffset x) (frame_length x) ∖ acked a) >? 0) || (ffin x && fin_outstanding_ s)).
Proof using.
  intros Hr Hc Hx. pose proof (frame_in_flight h a s x Hr Hx) as Hfly.
  pose proof (bk_buffer _ _ _ _ _ (rs_books _ _ _ _ _ Hr)) as Hrep.
  destruct (OnStreamDataAcked_spec quic_fast_is_disjoint _ _ a _ Hrep Hfly) as (b & E & Hb).
  unfold OnStreamFrameAcked. apply total_bind, total_zoom. cbn [view buffer_lens]. rewrite E. cbn [terminates_in put buffer_lens].
  apply total_get. cbn [fst snd negb].
  assert (negb (fin_sent (with_buffer s b)) && ffin x = false) as ->.
  { destruct (ffin x) eqn:Ef; [|apply andb_false_r]. rewrite andb_true_r. apply negb_false_iff.
    apply (rs_fins _ _ _ _ _ Hr Hc). by exists x. }
  cbv zeta. set (a' := ack (range (foffset x) (frame_length x)) a) in *.
  assert (rest h a' (with_buffer s b)) as Hr' by (by apply (rest_data h a)).
  apply total_bind. eapply (total_mono _ (fun _ s1 => rest h a' s1 /\ stream s1 = stream s /\
    fin_buffered_ s1 = fin_buffered_ s /\ fin_outstanding_ s1 = fin_outstanding_ s && negb (ffin x))).
  { apply total_when; intros ->; [apply total_modify|]; rewrite ?andb_true_r, ?andb_false_r; [|done].
    split; [by apply (rest_fin h a' (with_buffer s b))|done]. }
  intros ? s1 (H1 & H2 & H3 & H4). apply total_get, total_bind.
  eapply (total_mono _ (fun _ s2 => rest h a' s2 /\ stream s2 = stream s1 /\ fin_buffered_ s2 = fin_buffered_ s1 /\
    fin_outstanding_ s2 = fin_outstanding_ s1)).
  { apply total_when; intros _; [apply total_modify|done]. split; [by apply rest_notices|done]. }
  intros ? s2 (K1 & K2 & K3 & K4). cbn [terminates_in mret M_ret]. split; [done|]. split; [congruence|]. split; [congruence|].
  split; [congruence|done].
Qed.

Lemma OnFrameAcked_spec h a s x : rest h a s -> connected s = true -> x ∈ outbox s ->
  terminates_in (OnFrameAcked quic_fast_is_disjoint multiplied (foffset x) (frame_length x) (ffin x) s)
    (fun r s' => rest h (ack (range (foffset x) (frame_length x)) a) s' /\ stream s' = stream s /\
      fin_buffered_ s' = fin_buffered_ s /\ fin_outstanding_ s' = fin_outstanding_ s && negb (ffin x)).
Proof using.
  intros Hr Hc Hx. unfold OnFrameAcked. apply total_bind. eapply total_mono; [by apply OnStreamFrameAcked_spec|].
  intros r s1 (H1 & H2 & H3 & H4 & _). apply total_get, total_bind, total_when; intros _; [apply total_modify|done].
  split; [by apply rest_lists|done].
Qed.

(** ** Loss *)

Lemma OnFrameLost_spec h a s x : rest h a s -> x ∈ outbox s ->
  terminates_in (OnFrameLost (foffset x) (frame_length x) (ffin x) s)
    (fun _ s' => rest h (lose (range (foffset x) (frame_length x)) a) s' /\ stream s' = stream s /\
      fin_buffered_ s' = fin_buffered_ s /\ fin_outstanding_ s' = fin_outstanding_ s).
Proof using.
  intros Hr Hx. pose proof (frame_in_flight h a s x Hr Hx) as (F1 & F2 & F3 & F4).
  pose proof (bk_buffer _ _ _ _ _ (rs_books _ _ _ _ _ Hr)) as Hrep.
  unfold OnFrameLost, OnStreamFrameLost. set (a' := lose _ a). apply total_bind, total_bind.
  eapply (total_mono _ (fun _ s1 => exists b, s1 = with_buffer s b /\ represents a' b)).
  { apply total_when; intros E.
    - apply total_zoom. eapply total_mono; [by apply (OnStreamDataLost_spec (foffset x) (frame_length x) a)|]. eauto.
    - assert (frame_length x = 0) as E0 by (rewrite Z.gtb_ltb, Z.ltb_ge in E; lia).
      exists (send_buffer_ s). split; [by destruct s|]. unfold a'. rewrite E0.
      replace (lose (range (foffset x) 0) a) with a; [done|]. destruct a. unfold lose. simpl. f_equal.
      apply set_eq. intros v. rewrite elem_of_union, elem_of_difference, elem_of_range. split; [by left|].
      intros [?|[? _]]; [done|lia]. }
  intros ? s1 (b & -> & Hb). assert (rest h a' (with_buffer s b)) as Hr' by (by apply (rest_data h a)).
  apply total_get. eapply (total_mono _ (fun _ s2 => rest h a' s2 /\ stream s2 = stream s /\
    fin_buffered_ s2 = fin_buffered_ s /\ fin_outstanding_ s2 = fin_outstanding_ s)).
  { apply total_when; [|done]. intros [_ Ho]%andb_true_iff. apply total_modify.
    split; [|done]. by apply (rest_fin h a' (with_buffer s b)). }
  intros ? s2 (H1 & H2 & H3 & H4). apply total_get, total_when; intros _; [apply total_modify|done].
  split; [by apply rest_lists|done].
Qed.

(** ** Sending again *)

(** What sending again leaves alone *)
Record like (a a' : Sending) (s s' : Sender) : Prop := {
  lk_data : same_data a a';
  lk_sent : sent a' = sent a;
  lk_buffered : fin_buffered_ s' = fin_buffered_ s;
  lk_outstanding : fin_outstanding_ s' = fin_outstanding_ s;
  lk_fin_sent : fin_sent s' = fin_sent s;
  lk_ends : ends (flow_of s) (flow_of s');
  lk_id : stream_id s' = stream_id s
}.

Lemma like_refl a s : like a a s s.
Proof using. by split. Qed.

Lemma like_trans a1 a2 a3 s1 s2 s3 : like a1 a2 s1 s2 -> like a2 a3 s2 s3 -> like a1 a3 s1 s3.
Proof using.
  intros [(A1 & A1' & A1'') A2 A3 A4 A5 A6 A7] [(B1 & B1' & B1'') B2 B3 B4 B5 B6 B7]. split; try congruence.
  split_and!; congruence.
Qed.

Lemma like_passive a s s' : passive s s' -> like a a s s'.
Proof using. intros []. by split. Qed.

Lemma like_wrote h a a' s s' : rest h a' s' -> like a a' s s' -> wrote h a s s'.
Proof using. intros Hr []. exists a'. split_and!; try done; by apply (fin_step_same psent plimit h a'). Qed.

(** Old data that was not acknowledged, with the FIN if that was sent before *)
Lemma repeat_spec off wl fin h a s : rest h a s -> 0 <= off -> 0 <= wl -> off + wl <= sent a -> range off wl ## acked a ->
  (fin = true -> fin_sent s = true /\ off + wl = sent a) ->
  terminates_in (WritevData_session multiplied wl off fin s) (fun taken s' =>
    rest h a s' /\ passive s s' /\ 0 <= taken.1 <= wl /\
    (taken.2 = true -> fin = true /\ taken.1 = wl)).
Proof using Hplimit.
  intros Hr Ho Hwl Hs Hd Hfin. pose proof Hr as [R1 R2 R3 R4 R5 R6 R7].
  pose proof (represents_bounds _ _ (bk_buffer _ _ _ _ _ R1)) as (_ & B2 & _).
  eapply total_mono; [apply (WritevData_spec psent plimit Hplimit multiplied wl off fin h a s R1)|].
  { split_and!; try done; try lia. intros [F1 F2]%Hfin. destruct (R3 F1) as (G1 & G2 & _). split; [done|lia]. }
  intros taken s1 (Hb1 & Hp1 & _ & new & Eo & [T1 T2 T3 T4 T5]). rewrite put_in_packet_old in * by lia.
  split; [|split; [done|split; [done|by intros (F1 & F2 & _)%T3]]].
  pose proof Hp1 as [P1 P2 P3 P4 P5 P6 P7 P8]. split; rewrite ?P1, ?P2, ?P3, ?P4, ?Eo, ?fin_framed_app; auto.
  - intros (F1 & F2 & F3)%R3. auto.
  - intros [Hc _]%P8 [(x & Hx & Hxf)|H]; [|by apply R6]. destruct (T4 x Hx Hxf) as [F1 _]. by apply Hfin, T3.
Qed.

Lemma OnStreamFrameRetransmitted_spec o n fin h a s : rest h a s -> 0 <= o -> 0 <= n -> o + n <= sent a ->
  terminates_in (OnStreamFrameRetransmitted o n fin s) (fun _ s' =>
    rest h (resend (range o n) a) s' /\ like a (resend (range o n) a) s s' /\ stream s' = stream s /\
    fin_lost_ s' = fin_lost_ s && negb fin).
Proof using.
  intros Hr Ho Hn Hs. pose proof (bk_buffer _ _ _ _ _ (rs_books _ _ _ _ _ Hr)) as Hrep.
  unfold OnStreamFrameRetransmitted. apply total_bind, total_zoom. cbn [view buffer_lens].
  eapply total_mono; [by apply (OnStreamDataRetransmitted_spec o n a)|]. intros ? b Hb. cbn [put buffer_lens].
  assert (rest h (resend (range o n) a) (with_buffer s b)) as Hr' by (by apply (rest_data h a)).
  apply total_when; intros ->; [apply total_modify|]; rewrite ?andb_false_r, ?andb_true_r; (split; [|split; [by split|done]]).
  - apply (rest_fin h _ (with_buffer s b)); done.
  - done.
Qed.

(** An interval to send again *)
Definition old_data (a : Sending) (x : Interval) : Prop :=
  0 <= imin x < imax x /\ imax x <= sent a /\ range (imin x) (imax x - imin x) ## acked a.

Lemma old_data_like a a' s s' x : like a a' s s' -> old_data a x -> old_data a' x.
Proof using. intros [(_ & _ & E) E' _ _ _ _ _] (H1 & H2 & H3). split; [done|]. by rewrite E', E. Qed.

Lemma old_data_small h a s x : rest h a s -> old_data a x ->
  uint64 (imax x - imin x) = imax x - imin x /\ uint64 (imin x + (imax x - imin x)) = imax x.
Proof using.
  intros Hr (H1 & H2 & _). pose proof (represents_bounds _ _ (bk_buffer _ _ _ _ _ (rs_books _ _ _ _ _ Hr))) as (_ & B2 & B3 & _).
  rewrite kMaxLength_eq in B3. rewrite !uint64_small; lia.
Qed.

(** One interval, bundled with the FIN when it is the end of the stream *)
Lemma repeat_interval x fin h a s : rest h a s -> old_data a x -> (fin = true -> fin_sent s = true) ->
  let bundle := fin && (imax x =? sent a) in
  terminates_in ((consumed ← WritevData_session multiplied (imax x - imin x) (imin x) bundle;
    OnStreamFrameRetransmitted (imin x) consumed.1 consumed.2;; mret consumed) s) (fun taken s' =>
    let a' := resend (range (imin x) taken.1) a in
    rest h a' s' /\ like a a' s s' /\ 0 <= taken.1 <= imax x - imin x /\
    (taken.2 = true -> bundle = true /\ taken.1 = imax x - imin x) /\ fin_lost_ s' = fin_lost_ s && negb taken.2).
Proof using Hplimit.
  intros Hr (H1 & H2 & H3) Hf bundle. apply total_bind. eapply total_mono.
  { apply (repeat_spec (imin x) (imax x - imin x) bundle h a s Hr); try done; try lia.
    intros [Hfin He%Z.eqb_eq]%andb_true_iff. split; [auto|lia]. }
  intros taken s1 (R1 & P1 & T1 & T2). apply total_bind.
  eapply total_mono; [apply (OnStreamFrameRetransmitted_spec _ _ _ h a s1 R1); lia|].
  intros ? s2 (R3 & L3 & _ & El). cbn [terminates_in mret M_ret]. split; [done|].
  split; [eapply like_trans; [by apply like_passive|exact L3]|]. split; [done|]. split; [done|].
  rewrite El. by rewrite (pv_lost _ _ P1).
Qed.

Lemma total_regroup {A B} (m : M Sender A) (n : A -> M Sender unit) (k : A -> M Sender B) s Q :
  terminates_in ((x ← (x ← m; n x;; mret x); k x) s) Q -> terminates_in ((x ← m; n x;; k x) s) Q.
Proof using. unfold mbind, M_bind. destruct (m s) as [a s'|]; [|done]. by destruct (n a s'). Qed.

Lemma retransmit_intervals_spec l : forall fin h a s, rest h a s -> Forall (old_data a) l ->
  (fin = true -> fin_outstanding_ s = true) ->
  terminates_in (retransmit_intervals multiplied l fin s) (fun r s' =>
    (exists a', rest h a' s' /\ like a a' s s') /\ (r.2 = true -> fin = true)).
Proof using Hplimit.
  induction l as [|x l IH]; intros fin h a s Hr Hl Hfin; cbn [retransmit_intervals].
  { split; [|done]. exists a. split; [done|apply like_refl]. }
  apply Forall_cons in Hl as [Hx Hl]. apply total_get. cbv zeta.
  destruct (old_data_small h a s x Hr Hx) as [-> ->].
  pose proof (represents_bounds _ _ (bk_buffer _ _ _ _ _ (rs_books _ _ _ _ _ Hr))) as (_ & _ & _ & Ew & _).
  unfold stream_bytes_written. rewrite Ew. apply total_regroup, total_bind.
  eapply total_mono; [apply (repeat_interval x fin h a s Hr Hx)|].
  { intros Hf. by apply (rs_outstanding _ _ _ _ _ Hr), Hfin. }
  cbv zeta. intros taken s1 (R1 & L1 & T1 & T2 & _).
  set (fin1 := if fin && (imax x =? sent a) then negb taken.2 else fin).
  assert (fin1 = true -> fin = true) as Hfin1 by (unfold fin1; destruct fin; [done|]; simpl; done).
  destruct (_ || _).
  - split; [eauto|done].
  - eapply total_mono; [apply (IH fin1 h _ s1 R1)|].
    + eapply Forall_impl; [exact Hl|]. intros y. by apply (old_data_like _ _ s s1).
    + intros Hf. rewrite (lk_outstanding _ _ _ _ L1). auto.
    + intros r s2 [(a2 & R2 & L2) Hr2]. split; [|auto]. exists a2. split; [done|]. by eapply like_trans.
Qed.

(** What is to be sent again of a frame *)
Lemma retransmission_old h a s x l : rest h a s -> x ∈ outbox s ->
  stands_for l (range (foffset x) (frame_length x) ∖ acked a) -> Forall (old_data a) l.
Proof using.
  intros Hr Hx [Hv Hm]. pose proof (frame_in_flight h a s x Hr Hx) as (F1 & F2 & F3 & F4).
  apply Forall_forall. intros y Hy. pose proof (Forall_nonempty l Hv y Hy) as Hn. unfold nonempty in Hn.
  assert (forall v, imin y <= v < imax y -> v ∈ range (foffset x) (frame_length x) ∖ acked a) as H.
  { intros v Hv'. apply Hm. exists y. split; [done|exact Hv']. }
  pose proof (H (imin y) ltac:(lia)) as [H1%elem_of_range _]%elem_of_difference.
  pose proof (H (imax y - 1) ltac:(lia)) as [H2%elem_of_range _]%elem_of_difference.
  split; [lia|]. split; [lia|]. intros v Hv1%elem_of_range Ha. assert (imin y <= v < imax y) as Hv2%H by lia. by apply elem_of_difference in Hv2 as [_ ?].
Qed.

Lemma RetransmitStreamData_spec h a s x : rest h a s -> x ∈ outbox s ->
  terminates_in (RetransmitStreamData multiplied (foffset x) (frame_length x) (ffin x) s) (fun _ s' =>
    exists a', rest h a' s' /\ like a a' s s').
Proof using Hplimit.
  intros Hr Hx. pose proof (frame_in_flight h a s x Hr Hx) as (F1 & F2 & F3 & F4).
  pose proof (bk_buffer _ _ _ _ _ (rs_books _ _ _ _ _ Hr)) as Hrep.
  pose proof (represents_bounds _ _ Hrep) as (_ & B2 & B3 & Ew & _). rewrite kMaxLength_eq in B3.
  unfold RetransmitStreamData. apply total_get. rewrite uint64_small by lia. pose proof Hrep as (e & first & Hrw & _).
  destruct (stands_for_rest _ _ (r_acked _ _ _ _ Hrw) (foffset x) (frame_length x)) as (l & El & Hl).
  rewrite El. apply total_bind. cbn [terminates_in deref]. set (fin := ffin x && fin_outstanding_ s).
  assert (fin = true -> fin_outstanding_ s = true) as Hfin by (by intros [_ ?]%andb_true_iff).
  destruct (match l with [] => negb fin | _ => false end); [exists a; split; [done|apply like_refl]|].
  apply total_bind. eapply total_mono; [apply (retransmit_intervals_spec l fin h a s Hr); [by eapply retransmission_old|done]|].
  intros r s1 [(a1 & R1 & L1) Hr2]. destruct (negb r.1); [by exists a1|]. destruct r.2; [|by exists a1]. apply total_get.
  pose proof (represents_bounds _ _ (bk_buffer _ _ _ _ _ (rs_books _ _ _ _ _ R1))) as (_ & C2 & _ & Ew1 & _).
  unfold stream_bytes_written. rewrite Ew1. apply total_bind. eapply total_mono.
  { apply (repeat_spec (sent a1) 0 true h a1 s1 R1); try lia; [intros v Hv%elem_of_range; lia|].
    intros _. split; [|lia]. apply (rs_outstanding _ _ _ _ _ R1). rewrite (lk_outstanding _ _ _ _ L1). auto. }
  intros taken s2 (R2 & P2 & _). exists a1. split; [done|]. eapply like_trans; [exact L1|by apply like_passive].
Qed.

(** ** The loop over what was lost *)

Notation pending s := (SendBuffer.pending_retransmissions_ (send_buffer_ s)).

(** How often the loop can go on *)
Definition to_repeat (s : Sender) : nat := length (pending s) + if fin_lost_ s then 1 else 0.

Lemma pending_stands h a s : rest h a s -> stands_for (pending s) (lost a) /\ lost a ⊆ range 0 (sent a) ∖ acked a.
Proof using.
  intros Hr. destruct (bk_buffer _ _ _ _ _ (rs_books _ _ _ _ _ Hr)) as (e & first & Hrw & _).
  split; [apply (r_pending _ _ _ _ Hrw)|apply (r_lost _ _ _ _ Hrw)].
Qed.

Lemma pending_old h a s x : rest h a s -> x ∈ pending s -> old_data a x.
Proof using.
  intros Hr Hx. destruct (pending_stands h a s Hr) as [[Hv Hm] Hl].
  pose proof (Forall_nonempty _ Hv x Hx) as Hn. unfold nonempty in Hn.
  assert (forall v, imin x <= v < imax x -> v ∈ range 0 (sent a) ∖ acked a) as H.
  { intros v Hv'. apply Hl, Hm. exists x. split; [done|exact Hv']. }
  pose proof (H (imin x) ltac:(lia)) as [H1%elem_of_range _]%elem_of_difference.
  pose proof (H (imax x - 1) ltac:(lia)) as [H2%elem_of_range _]%elem_of_difference.
  split; [lia|]. split; [lia|]. intros v Hv1%elem_of_range Ha.
  assert (imin x <= v < imax x) as Hv2%H by lia. by apply elem_of_difference in Hv2 as [_ ?].
Qed.

(** Without its first interval *)
Lemma pending_tail x pl X l : stands_for (x :: pl) X -> stands_for l (X ∖ range (imin x) (imax x - imin x)) -> l = pl.
Proof using.
  intros [Hv Hm] [Hv' Hm']. pose proof Hv as (Hn & Hsep & Hpl)%valid_cons. apply valid_canonical; [done|done|].
  intros v. rewrite Hm', elem_of_difference, <- Hm, elem_of_range. split.
  - intros [(y & [->|Hy]%elem_of_cons & Hw) Hno]; [|by exists y]. unfold within in Hw. lia.
  - intros (y & Hy & Hw). split; [exists y; split; [by right|done]|]. unfold within in Hw.
    rewrite Forall_forall in Hsep. specialize (Hsep y Hy). unfold before in Hsep. lia.
Qed.

Lemma retransmit_next_spec h a s : rest h a s -> HasPendingRetransmission s = true ->
  terminates_in (retransmit_next multiplied s) (fun more s' =>
    (exists a', rest h a' s' /\ like a a' s s') /\ (more = true -> (to_repeat s' < to_repeat s)%nat)).
Proof using Hplimit.
  intros Hr Hp. destruct (pending_stands h a s Hr) as [Hst Hl].
  pose proof (represents_bounds _ _ (bk_buffer _ _ _ _ _ (rs_books _ _ _ _ _ Hr))) as (_ & B2 & _ & Ew & _).
  unfold retransmit_next. apply total_get. unfold stream_bytes_written. rewrite Ew.
  assert (fin_lost_ s = true -> fin_sent s = true) as Hfin.
  { intros Hf. by apply (rs_outstanding _ _ _ _ _ Hr), (rs_lost _ _ _ _ _ Hr). }
  unfold HasPendingRetransmission in Hp. destruct (pending s) as [|x pl] eqn:Epl;
    unfold SendBuffer.HasPendingRetransmission in *; rewrite Epl in *; cbn [negb orb] in *.
  - apply total_bind. eapply total_mono.
    { apply (repeat_spec (sent a) 0 true h a s Hr); try lia; [intros v Hv%elem_of_range; lia|]. intros _. split; [auto|lia]. }
    intros taken s1 (R1 & P1 & _). apply total_bind, total_modify. cbn [terminates_in mret M_ret].
    pose proof P1 as [Q1 Q2 Q3 Q4 Q5 Q6 Q7 Q8]. split.
    + exists a. split; [|by apply like_passive in P1 as []]. apply rest_fin; [done|done|].
      intros _. rewrite Q2. by apply (rs_lost _ _ _ _ _ Hr).
    + intros ->. unfold to_repeat. simpl. rewrite Epl, Hp.
      destruct (pending_stands h a s1 R1) as [Hst1 _].
      assert (lost a = ∅) as E0 by (by apply (stands_for_empty _ _ Hst)).
      rewrite (proj2 (stands_for_empty _ _ Hst1) E0). simpl. lia.
  - unfold SendBuffer.NextPendingRetransmission. rewrite Epl. cbn [fst snd].
    assert (old_data a x) as Hx by (apply (pending_old h a s); [done|rewrite Epl; left]).
    destruct (old_data_small h a s x Hr Hx) as [E1 E2]. rewrite E1, E2. cbv zeta. cbn [fst snd].
    apply total_regroup, total_bind. eapply total_mono; [by apply (repeat_interval x (fin_lost_ s) h a s Hr Hx)|].
    cbv zeta. intros taken s1 (R1 & L1 & T1 & T2 & El). cbn [terminates_in mret M_ret]. split; [eauto|].
    intros [Hm _]%negb_true_iff%orb_false_iff. apply Z.ltb_ge in Hm.
    assert (taken.1 = imax x - imin x) as Et by lia. rewrite Et in R1.
    destruct (pending_stands h _ s1 R1) as [Hst1 _]. unfold to_repeat. rewrite Epl, El.
    rewrite (pending_tail x pl (lost a) (pending s1)) by done. simpl. destruct (fin_lost_ s), taken.2; simpl; lia.
Qed.

Lemma write_pending_spec fuel : forall h a s, rest h a s -> (to_repeat s <= fuel)%nat ->
  terminates_in (write_pending multiplied fuel s) (fun _ s' => exists a', rest h a' s' /\ like a a' s s').
Proof using Hplimit.
  induction fuel as [|fuel IH]; intros h a s Hr Hf; cbn [write_pending]; apply total_get;
    destruct (HasPendingRetransmission s) eqn:Hp; cbn [negb]; try (exists a; split; [done|apply like_refl]).
  - exfalso. unfold to_repeat, HasPendingRetransmission, SendBuffer.HasPendingRetransmission in *.
    destruct (pending s), (fin_lost_ s); simpl in *; (done || lia).
  - apply total_bind. eapply total_mono; [by apply (retransmit_next_spec h a)|].
    intros more s1 [(a1 & R1 & L1) Hm]. destruct more; [|by exists a1].
    eapply total_mono; [apply (IH h a1 s1 R1); specialize (Hm eq_refl); lia|].
    intros ? s2 (a2 & R2 & L2). exists a2. split; [done|]. by eapply like_trans.
Qed.

Lemma WritePendingRetransmission_spec h a s : rest h a s ->
  terminates_in (WritePendingRetransmission multiplied s) (fun _ s' => exists a', rest h a' s' /\ like a a' s s').
Proof using Hplimit.
  intros Hr. unfold WritePendingRetransmission. apply total_get, write_pending_spec; [done|].
  unfold to_repeat. destruct (fin_lost_ s); lia.
Qed.

(** ** The turns the session gives *)

Variable threshold : Z.

Lemma wrote_lists h a s s' blocked pending writing : wrote h a s s' -> wrote h a s (with_lists s' blocked pending writing).
Proof using. intros (a' & W1 & W2). exists a'. split; [by apply rest_lists|done]. Qed.

Lemma OnCanWrite_spec h a s : rest h a s -> terminates_in (OnCanWrite threshold multiplied s) (fun _ s' => wrote h a s s').
Proof using Hplimit.
  intros Hr. unfold OnCanWrite. apply total_get. destruct (HasPendingRetransmission s).
  { eapply total_mono; [by apply WritePendingRetransmission_spec|]. intros ? s' (a' & R' & L'). by eapply like_wrote. }
  assert (wrote h a s s) as Hsame by (apply rest_wrote; [done|apply passive_refl]).
  destruct (write_side_closed s) eqn:Ew; [done|]. apply total_bind.
  eapply (total_mono _ (fun _ s' => wrote h a s s')); [apply total_when; intros _; [by apply WriteBufferedData_spec|done]|].
  intros ? s1 Hs1. apply total_get, total_when; intros _; [apply total_modify|done].
  destruct Hs1 as (a' & W1 & W2). exists a'. split; [by apply rest_notices|done].
Qed.

Lemma RetransmitLostData_spec h a s : rest h a s ->
  terminates_in (RetransmitLostData threshold multiplied s) (fun _ s' => wrote h a s s').
Proof using Hplimit.
  intros Hr. unfold RetransmitLostData. apply total_get. destruct (negb _); [apply rest_wrote; [done|apply passive_refl]|].
  apply total_bind. eapply total_mono; [by apply OnCanWrite_spec|]. intros ? s1 Hs1.
  apply total_get, total_when; intros _; [|done]. by apply total_modify, wrote_lists.
Qed.

Lemma session_OnCanWrite_spec h a s : rest h a s ->
  terminates_in (session_OnCanWrite threshold multiplied s) (fun _ s' => wrote h a s s').
Proof using Hplimit.
  intros Hr. unfold session_OnCanWrite. apply total_get. destruct (negb _); [apply rest_wrote; [done|apply passive_refl]|].
  apply total_bind, total_modify. set (s1 := with_lists s _ _ _). assert (rest h a s1) as Hr1 by by apply rest_lists.
  destruct (bk_stream _ _ _ _ _ (rs_books _ _ _ _ _ Hr1)) as (w & Hw & _). destruct (parts_controller _ _ _ Hw) as [c Hc].
  eapply total_self; [exact Hc|]. apply total_bind.
  eapply (total_mono _ (fun _ s' => wrote h a s1 s')); [apply total_when; intros _; [by apply OnCanWrite_spec|]|].
  - apply rest_wrote; [done|apply passive_refl].
  - intros ? s2 Hs2. apply total_modify. by apply wrote_lists.
Qed.

(** ** The peer opens a window *)

(** Where the windows end after [o] was announced for [id] *)
Definition raised (id o : Z) (s : Sender) (f : FlowController.Flow) : Prop :=
  forall i, i = connection_id \/ i = stream_id s -> snd <$> parts f i =
    (fun w => if decide (i = id) then Z.max w o else w) <$> (snd <$> parts (flow_of s) i).

Section Raise.
Variables (h : history) (a : Sending) (s : Sender) (id o b w : Z) (f : FlowController.Flow).
Context (Hr : rest h a s) (Ho : o < 2 ^ 64).
Context (Hid : id = connection_id \/ id = stream_id s) (Hp : parts (flow_of s) id = Some (b, w)).
Context (Hf : resent (flow_of s) f) (Hf1 : parts f id = Some (b, Z.max w o)).
Context (Hf2 : forall j, j <> id -> parts f j = parts (flow_of s) j).

Lemma rest_raised : rest h a (with_controllers s f).
Proof using Hr Ho Hid Hp Hf Hf1 Hf2.
  pose proof Hr as [Hb R2 R3 R4 R5 R6 R7].
  pose proof Hb as [H1 H2 H3 H4 H5 H6 (ws & Hs & [Hw Hw']) ([kb kw] & Hk & [Hkw Hkw']) H9 H10]. simpl in *.
  split; try done. apply books_flow; try done.
  - destruct (decide (id = stream_id s)) as [E|Hne]; [|rewrite Hf2 by done; exists ws; split; [done|split; simpl; lia]].
    rewrite <- E in *. rewrite Hp in Hs. injection Hs as -> ->. exists (Z.max ws o). split; [done|]. split; simpl; lia.
  - destruct (decide (id = connection_id)) as [E|Hne]; [|rewrite Hf2 by done; exists (kb, kw); split; [done|split; simpl; lia]].
    rewrite <- E in *. rewrite Hp in Hk. injection Hk as -> ->. exists (kb, Z.max kw o). split; [done|]. split; simpl; lia.
Qed.

Lemma raised_ends : raised id o s f.
Proof using Hp Hf1 Hf2.
  intros j _. destruct (decide (j = id)) as [->|Hne]; [by rewrite Hf1, Hp|].
  rewrite Hf2 by done. by destruct (parts (flow_of s) j) as [[]|].
Qed.
End Raise.

Lemma session_OnWindowUpdateFrame_spec id o h a s : rest h a s -> o < 2 ^ 64 ->
  terminates_in (session_OnWindowUpdateFrame id o s) (fun _ s' => rest h a s' /\ stream_id s' = stream_id s /\
    fin_buffered_ s' = fin_buffered_ s /\ raised id o s (flow_of s') /\ fin_step s s').
Proof using.
  intros Hr Ho. pose proof (rs_books _ _ _ _ _ Hr) as Hb.
  assert (fin_step s s) as Hfs by by eapply fin_step_same.
  destruct (bk_stream _ _ _ _ _ Hb) as (w & Hs & _). destruct (bk_connection _ _ _ _ _ Hb) as ([kb kw] & Hk & _).
  unfold session_OnWindowUpdateFrame. apply total_get. destruct (Z.eqb_spec id connection_id) as [->|Hid].
  - eapply total_flow; [by eapply UpdateSendWindowOffset_parts|]. intros ? f (F1 & F2 & F3).
    cbn [terminates_in mret M_ret]. split; [by apply (rest_raised h a s connection_id o kb kw f); auto|]. split; [done|]. split; [done|].
    split; [by eapply raised_ends|exact Hfs].
  - apply total_when; intros Ei.
    + apply Z.eqb_eq in Ei as ->. unfold OnWindowUpdateFrame. apply total_get.
      eapply total_flow; [by eapply UpdateSendWindowOffset_parts|]. intros ub f (F1 & F2 & F3).
      assert (rest h a (with_controllers s f)) as Hr1 by (by apply (rest_raised h a s (stream_id s) o (sent a) w f); auto).
      assert (raised (stream_id s) o s f) as He by by eapply raised_ends.
      apply total_when; intros _; [apply total_modify|]; 
        (split; [|split; [done|split; [done|split; [done|exact Hfs]]]]); [by apply rest_lists|done].
    + split; [done|]. split; [done|]. split; [done|]. split; [|exact Hfs]. intros j Hj. apply Z.eqb_neq in Ei.
      destruct (parts (flow_of s) j); simpl; [|done]. by rewrite decide_False by (destruct Hj; congruence).
Qed.
End Losses.
