(* ===== verification/SendTraces.v ===== *)
(** Any course of a stream that both sends and receives: the application writes, the
    session gives it turns to write, the peer opens windows, acknowledges and loses
    packets and sends data of its own, and the packet layer takes as much as it
    likes.  Nothing fails, and every frame carries what was written. *)

From S2P Require Import Prelude FlowController FlowControl IntervalSet Intervals SequencerBuffer Reassembly.
From S2P Require Import ReassemblyRuns ReceiveStream StreamClosing StreamDelivery StreamRuns.
From S2P Require Import QuicData Wire SendBuffer Sending SendAcks SendRuns SendStream SendKept SendSide SendWrites SendCalls SendLosses.
Import SendStream.

(** ** Events *)

(** The flags and sizes the code is configured with *)
Record settings : Type := {
  fast_disjoint : bool;
  too_long : bool;
  fast_path : bool;
  slice_size : Z;
  buffer_threshold : Z;
  multiply : Z -> Z
}.

Inductive event : Type :=
| AppWrite (data : list Z) (fin : bool)               (* WriteOrBufferData *)
| AppWritev (iov : list (list Z)) (fin : bool)        (* WritevData *)
| AppWriteSlices (span : list (list Z)) (fin : bool)  (* WriteMemSlices *)
| TurnToWrite                                         (* QuicSession::OnCanWrite *)
| TurnToRepeat                                        (* QuicSession::RetransmitLostData *)
| WindowUpdate (id offset : Z)
| FrameAcked (x : frame)
| FrameLost (x : frame)
| FrameRepeated (x : frame)                           (* QuicSession::RetransmitFrames *)
| Peer (i : input).                                   (* the receiving half *)

Section Traces.
Variable g : settings.

(** What a call answers: bytes and FIN taken *)
Definition perform (e : event) : M Sender (Z * bool) :=
  match e with
  | AppWrite data fin => WriteOrBufferData (too_long g) (slice_size g) (multiply g) data fin;; mret (0, false)
  | AppWritev iov fin => WritevData (too_long g) (slice_size g) (buffer_threshold g) (multiply g) iov fin
  | AppWriteSlices span fin => WriteMemSlices (too_long g) (buffer_threshold g) (multiply g) span fin
  | TurnToWrite => session_OnCanWrite (buffer_threshold g) (multiply g);; mret (0, false)
  | TurnToRepeat => RetransmitLostData (buffer_threshold g) (multiply g);; mret (0, false)
  | WindowUpdate id o => session_OnWindowUpdateFrame id o;; mret (0, false)
  | FrameAcked x => _ ← OnFrameAcked (fast_disjoint g) (multiply g) (foffset x) (frame_length x) (ffin x); mret (0, false)
  | FrameLost x => OnFrameLost (foffset x) (frame_length x) (ffin x);; mret (0, false)
  | FrameRepeated x => _ ← RetransmitStreamData (multiply g) (foffset x) (frame_length x) (ffin x); mret (0, false)
  | Peer i => zoom stream_lens (handle (fast_path g) (too_long g) (multiply g) i);; mret (0, false)
  end.

(** Only frames that were sent are acknowledged or lost, on a live connection; a
    window is a 64-bit number; the peer sends one stream. *)
Definition enabled (psent : Z -> Z) (plimit : Z) (e : event) (s : Sender) : Prop :=
  match e with
  | WindowUpdate _ o => o < 2 ^ 64
  | FrameAcked x | FrameLost x | FrameRepeated x => connected s = true /\ x ∈ outbox s
  | Peer i => i <> FinSent /\ honest_input psent plimit i
  | _ => True
  end.

Inductive trace (psent : Z -> Z) (plimit : Z) (s0 : Sender) : list event -> Sender -> Prop :=
| trace_start : trace psent plimit s0 [] s0
| trace_step l s e r s' : trace psent plimit s0 l s -> enabled psent plimit e s -> perform e s = Ret r s' ->
    trace psent plimit s0 (l ++ [e]) s'.

(** ** What a course of events comes to *)

(** The data of the writes, and the slices it takes *)
Definition offered (e : event) : list Z :=
  match e with
  | AppWrite data _ => data
  | AppWritev iov _ => concat iov
  | AppWriteSlices span _ => concat span
  | _ => []
  end.

Definition cost (e : event) : Z :=
  match e with
  | AppWrite data _ => slices_for (slice_size g) (len data)
  | AppWritev iov _ => slices_for (slice_size g) (len (concat iov))
  | AppWriteSlices span _ => span_pieces span
  | _ => 0
  end.

Definition total_cost (l : list event) : Z := foldr (fun e n => cost e + n) 0 l.

(** All of it fits into a stream. *)
Definition fitting (l : list event) : Prop :=
  len (concat (offered <$> l)) <= ReceiveStream.kMaxStreamLength /\ total_cost l < 2 ^ 31.

(** What a write asks for, and whether it is accepted in a state *)
Definition asks_fin (e : event) : bool :=
  match e with AppWrite _ fin | AppWritev _ fin | AppWriteSlices _ fin => fin | _ => false end.

Definition is_write (e : event) : Prop :=
  match e with AppWrite _ _ | AppWritev _ _ | AppWriteSlices _ _ => True | _ => False end.

Definition accepts (e : event) (s : Sender) : bool :=
  writable s &&
  match e with
  | AppWrite _ _ => true
  | AppWritev iov _ => CanWriteNewData (buffer_threshold g) s || (len (concat iov) =? 0)
  | AppWriteSlices span _ => CanWriteNewData (buffer_threshold g) s || (length span =? 0)%nat
  | _ => false
  end.

(** The answer of a write; [WriteOrBufferData] has none. *)
Definition write_answer (e : event) (s : Sender) : Z * bool :=
  match e with
  | AppWritev _ _ | AppWriteSlices _ _ => if accepts e s then (len (offered e), asks_fin e) else (0, false)
  | _ => (0, false)
  end.

(** What was acknowledged *)
Definition acked_by (e : event) : gset Z :=
  match e with FrameAcked x => range (foffset x) (frame_length x) | _ => ∅ end.
Definition acked_in (l : list event) : gset Z := ⋃ (acked_by <$> l).

Definition acks_fin (e : event) : bool := match e with FrameAcked x => ffin x | _ => false end.
Definition fin_acked (l : list event) : bool := existsb acks_fin l.

(** The end of a window, from [w] at the start *)
Definition raise (i : Z) (e : event) (w : Z) : Z :=
  match e with WindowUpdate id o => if decide (i = id) then Z.max w o else w | _ => w end.
Definition window_after (i w : Z) (l : list event) : Z := fold_left (fun w e => raise i e w) l w.

(** The inputs of the receiving half *)
Definition received_in (l : list event) : list input :=
  omap (fun e => match e with Peer i => Some i | _ => None end) l.
End Traces.

(** ** One event *)

Lemma total_cost_app g l e : total_cost g (l ++ [e]) = total_cost g l + cost g e.
Proof. unfold total_cost. induction l as [|x l IH]; simpl; [lia|]. rewrite IH. lia. Qed.

Lemma acked_in_app l e : acked_in (l ++ [e]) = acked_in l ∪ acked_by e.
Proof.
  unfold acked_in. rewrite fmap_app, union_list_app_L. f_equal. simpl. apply union_empty_r_L.
Qed.

Lemma fin_acked_app l e : fin_acked (l ++ [e]) = fin_acked l || acks_fin e.
Proof. unfold fin_acked. by rewrite existsb_app; simpl; rewrite orb_false_r. Qed.

Lemma window_after_app i w l e : window_after i w (l ++ [e]) = raise i e (window_after i w l).
Proof. unfold window_after. by rewrite fold_left_app. Qed.

Section Step.
Context (g : settings) (Hsize : 0 < slice_size g).
Context (psent : Z -> Z) (plimit : Z) (Hplimit : 0 <= plimit <= 2 ^ 61).
(* the stream and where its windows ended at first *)
Variables (id : Z) (window0 : Z -> Z).

(** The course so far: [ws] are the writes that were accepted. *)
Record follows (l : list event) (ws : list (list Z)) (a : Sending) (s : Sender) : Prop := {
  fw_rest : rest psent plimit (history_of (received_in l)) a s;
  fw_id : stream_id s = id;
  fw_writes : ws `sublist_of` (offered <$> l);
  fw_saved : saved a = concat ws;
  fw_pieces : pieces a <= total_cost g l;
  fw_acked : acked a = acked_in l;
  fw_windows : forall i, i = connection_id \/ i = id ->
    snd <$> parts (flow_of s) i = Some (window_after i (window0 i) l);
  fw_fin : fin_outstanding_ s = fin_sent s && negb (fin_acked l);
  fw_fin_acked : fin_acked l = true -> fin_sent s = true
}.

Lemma concat_sublist (l m : list (list Z)) : l `sublist_of` m -> len (concat l) <= len (concat m).
Proof using. induction 1; simpl; rewrite ?len_app; unfold len in *; lia. Qed.

Lemma follows_fits l ws a s data k : follows l ws a s ->
  len (concat (offered <$> l)) + len data <= ReceiveStream.kMaxStreamLength -> total_cost g l + k < 2 ^ 31 ->
  fits_stream data k a.
Proof using.
  intros [F1 F2 F3 F4 F5 F6 F7 F8 F9] H1 H2. pose proof (concat_sublist _ _ F3). split; [rewrite F4|]; lia.
Qed.

Lemma fitting_app l e : fitting g (l ++ [e]) -> 0 <= cost g e ->
  fitting g l /\ len (concat (offered <$> l)) + len (offered e) <= ReceiveStream.kMaxStreamLength /\
  total_cost g l + cost g e < 2 ^ 31.
Proof using.
  intros [H1 H2] Hc. rewrite total_cost_app in H2. rewrite fmap_app, concat_app, len_app in H1. simpl in H1.
  rewrite app_nil_r in H1. unfold fitting. assert (0 <= len (offered e)) by (unfold len; lia). lia.
Qed.

Lemma cost_nonneg e : 0 <= cost g e.
Proof using Hsize.
  destruct e; simpl; try lia; [apply slices_for_nonneg; [done|unfold len; lia]..|unfold span_pieces; lia].
Qed.

Lemma follows_next l ws a s e more a' s' : follows l ws a s ->
  rest psent plimit (history_of (received_in (l ++ [e]))) a' s' -> stream_id s' = stream_id s ->
  more `sublist_of` [offered e] -> saved a' = saved a ++ concat more -> pieces a' <= pieces a + cost g e ->
  acked a' = acked a ∪ acked_by e ->
  (forall i, i = connection_id \/ i = stream_id s ->
    snd <$> parts (flow_of s') i = raise i e <$> (snd <$> parts (flow_of s) i)) ->
  (fin_sent s = true -> fin_sent s' = true /\ fin_outstanding_ s' = fin_outstanding_ s && negb (acks_fin e)) ->
  (fin_sent s = false -> acks_fin e = false /\ fin_outstanding_ s' = fin_sent s') ->
  follows (l ++ [e]) (ws ++ more) a' s'.
Proof using.
  intros [F1 F2 F3 F4 F5 F6 F7 F8 F9] N1 N2 N3 N4 N5 N6 N7 N8 N9. split; try done.
  - congruence.
  - rewrite fmap_app. by apply sublist_app.
  - by rewrite N4, F4, concat_app.
  - rewrite total_cost_app. lia.
  - by rewrite acked_in_app, N6, F6.
  - intros i Hi. rewrite N7 by (by rewrite F2). rewrite F7 by done. simpl. by rewrite window_after_app.
  - rewrite fin_acked_app. destruct (fin_sent s) eqn:Ef.
    + destruct (N8 eq_refl) as [-> ->]. rewrite F8. by destruct (fin_acked l), (acks_fin e).
    + destruct (N9 eq_refl) as [-> ->]. destruct (fin_acked l); [by specialize (F9 eq_refl)|]. by rewrite andb_true_r.
  - rewrite fin_acked_app. destruct (fin_sent s) eqn:Ef; [intros _; by apply N8|].
    destruct (N9 eq_refl) as [-> _]. rewrite orb_false_r. intros H. by specialize (F9 H).
Qed.

(** An event that concerns neither the peer's frames nor its windows *)
Definition neutral (e : event) : Prop :=
  acked_by e = ∅ /\ acks_fin e = false /\ received_in [e] = [] /\ forall i w, raise i e w = w.

Lemma follows_neutral l ws a s e more a' s' : follows l ws a s -> neutral e ->
  rest psent plimit (history_of (received_in l)) a' s' -> more `sublist_of` [offered e] ->
  saved a' = saved a ++ concat more -> pieces a' <= pieces a + cost g e -> acked a' = acked a ->
  ends (flow_of s) (flow_of s') -> stream_id s' = stream_id s -> fin_step s s' ->
  follows (l ++ [e]) (ws ++ more) a' s'.
Proof using.
  intros F (E1 & E2 & E3 & E4) N1 N2 N3 N4 N5 N6 N7 [N8 N9]. eapply follows_next; try done.
  - unfold received_in in *. by rewrite omap_app, E3, app_nil_r.
  - by rewrite E1, union_empty_r_L.
  - intros i _. rewrite N6. destruct (parts (flow_of s) i); simpl; by rewrite ?E4.
  - rewrite E2, andb_true_r. done.
  - intros H. split; [done|]. by apply N9.
Qed.

(** A write that was taken or not *)
Lemma follows_takes l ws a s s' e accept fin r : follows l ws a s -> neutral e ->
  takes psent plimit (history_of (received_in l)) a s accept (offered e) fin (cost g e) r s' ->
  exists ws' a', follows (l ++ [e]) ws' a' s'.
Proof using.
  intros F He (_ & a' & T1 & T2 & T3 & T4 & T5 & T6 & T7 & T8).
  exists (ws ++ if accept then [offered e] else []), a'. eapply follows_neutral; try done; try lia.
  - destruct accept; [done|]. apply sublist_nil_l.
  - rewrite T2. destruct accept; simpl; by rewrite ?app_nil_r.
Qed.

Lemma follows_wrote l ws a s s' e : follows l ws a s -> neutral e -> 0 <= cost g e ->
  wrote psent plimit (history_of (received_in l)) a s s' -> exists ws' a', follows (l ++ [e]) ws' a' s'.
Proof using.
  intros F He Hc (a' & W1 & (W2 & W2' & W2'') & W3 & W4 & W5 & W6). exists (ws ++ []), a'.
  eapply follows_neutral; try done; try lia; [apply sublist_nil_l|]. by rewrite app_nil_r.
Qed.

(** What the peer sent *)
Lemma follows_peer l ws a s i x : follows l ws a s -> good psent plimit (history_of (received_in (l ++ [Peer i]))) x ->
  counted true (fin_sent s) (contributes s) (write_side_closed s) (connected s) (stream_id s) (parts (flow_of s)) x ->
  follows (l ++ [Peer i]) (ws ++ []) a (with_stream s x).
Proof using.
  intros F Hg Hx. pose proof (fw_rest _ _ _ _ F) as Hr. pose proof Hx as [C1 C2 C3 C4 C5 C6 C7].
  assert (rest psent plimit (history_of (received_in (l ++ [Peer i]))) a (with_stream s x)) as Hr'.
  { destruct Hr as [R1 R2 R3 R4 R5 R6 R7].
    assert (fin_sent (with_stream s x) = fin_sent s) as E1 by done. split; rewrite ?E1; try done.
    - by eapply books_stream.
    - intros (G1 & G2 & G3)%R3. split; [done|]. split; [done|]. by apply C5.
    - intros Hc. apply R6. destruct (connected s) eqn:E; [done|]. unfold connected in *. simpl in Hc. rewrite C6 in Hc; done. }
  eapply follows_next; try done.
  - apply sublist_nil_l.
  - by rewrite app_nil_r.
  - simpl. lia.
  - simpl. by rewrite union_empty_r_L.
  - intros j _. change (flow_of (with_stream s x)) with (ReceiveStream.flow x).
    assert (parts (ReceiveStream.flow x) j = parts (flow_of s) j) as -> by apply C4. simpl. by destruct (parts (flow_of s) j).
  - intros H. rewrite andb_true_r. split; [|done]. unfold fin_sent in *. simpl. congruence.
  - intros H. split; [done|]. unfold fin_sent in *. simpl. rewrite C1, H.
    destruct (fin_outstanding_ s) eqn:Eo; [|done]. apply (rs_outstanding _ _ _ _ _ Hr) in Eo. unfold fin_sent in Eo. congruence.
Qed.

(** A frame that was acknowledged, lost or sent again *)
Lemma follows_acked l ws a s s' x : follows l ws a s -> connected s = true -> x ∈ outbox s ->
  rest psent plimit (history_of (received_in l)) (ack (range (foffset x) (frame_length x)) a) s' ->
  stream s' = stream s -> fin_outstanding_ s' = fin_outstanding_ s && negb (ffin x) ->
  follows (l ++ [FrameAcked x]) (ws ++ []) (ack (range (foffset x) (frame_length x)) a) s'.
Proof using.
  intros F Hc Hx Hr Es Eo. pose proof (fw_rest _ _ _ _ F) as Hr0.
  assert (fin_sent s' = fin_sent s) as Ef by (unfold fin_sent; by rewrite Es).
  eapply follows_next; try done.
  - unfold received_in in *. by rewrite omap_app, app_nil_r.
  - unfold stream_id. by rewrite Es.
  - apply sublist_nil_l.
  - by rewrite app_nil_r.
  - simpl. lia.
  - intros j _. rewrite Es. simpl. by destruct (parts (flow_of s) j).
  - intros H. by rewrite Ef.
  - intros H. rewrite Eo, Ef, H. assert (fin_outstanding_ s = false) as ->.
    { destruct (fin_outstanding_ s) eqn:E; [|done]. apply (rs_outstanding _ _ _ _ _ Hr0) in E. congruence. }
    split; [|done]. simpl. destruct (ffin x) eqn:Efx; [|done]. assert (fin_framed (outbox s)) as Hff by by exists x.
    pose proof (rs_fins _ _ _ _ _ Hr0 Hc Hff). congruence.
Qed.

(** A write takes all or nothing. *)
Lemma write_spec h a s e : rest psent plimit h a s -> is_write e -> fits_stream (offered e) (cost g e) a ->
  terminates_in (perform g e s) (fun r s' => r = write_answer g e s /\
    exists r', takes psent plimit h a s (accepts g e s) (offered e) (asks_fin e) (cost g e) r' s').
Proof using Hsize Hplimit.
  intros Hr He Hf. unfold write_answer, accepts.
  destruct e as [data fin|iov fin|span fin| | | | | | |]; try done; cbn [perform offered asks_fin cost] in *.
  - rewrite andb_true_r. apply total_bind. eapply total_mono; [by apply (WriteOrBufferData_spec psent plimit Hplimit)|]. done.
  - eapply total_mono; [by apply (WritevData_takes psent plimit Hplimit)|]. intros r s' Ht. split; [apply Ht|eauto].
  - eapply total_mono; [by apply (WriteMemSlices_takes psent plimit Hplimit)|]. intros r s' Ht. split; [apply Ht|eauto].
Qed.

Lemma step_spec l ws a s e : follows l ws a s -> enabled psent plimit e s -> fitting g (l ++ [e]) ->
  terminates_in (perform g e s) (fun _ s' => exists ws' a', follows (l ++ [e]) ws' a' s').
Proof using Hsize Hplimit.
  intros F He Hfit. pose proof (cost_nonneg e) as Hcost. destruct (fitting_app l e Hfit Hcost) as (_ & H1 & H2).
  pose proof (fw_rest _ _ _ _ F) as Hr. set (h := history_of (received_in l)) in *.
  assert (fits_stream (offered e) (cost g e) a) as Hf by by eapply follows_fits.
  assert (neutral e -> forall s', wrote psent plimit h a s s' -> exists ws' a', follows (l ++ [e]) ws' a' s') as Hw
    by (intros Hn s' Hs; by eapply follows_wrote).
  assert (is_write e -> terminates_in (perform g e s) (fun _ s' => exists ws' a', follows (l ++ [e]) ws' a' s')) as Hwrite.
  { intros Hi. eapply total_mono; [by eapply write_spec|]. intros r s' (_ & r' & Ht).
    eapply follows_takes; [done| |exact Ht]. by destruct e. }
  destruct e as [data fin|iov fin|span fin| | |i o|x|x|x|i]; try (by apply Hwrite); cbn [perform enabled offered cost] in *.
  - apply total_bind. eapply total_mono; [by apply (session_OnCanWrite_spec psent plimit Hplimit)|]. intros ? s'. by apply Hw.
  - apply total_bind. eapply total_mono; [by apply (RetransmitLostData_spec psent plimit Hplimit)|]. intros ? s'. by apply Hw.
  - apply total_bind. eapply total_mono; [by apply (session_OnWindowUpdateFrame_spec psent plimit)|].
    intros ? s' (R1 & R2 & R3 & R4 & R5). exists (ws ++ []), a. cbn [terminates_in mret M_ret]. eapply follows_next; try done.
    + unfold received_in in *. by rewrite omap_app, app_nil_r.
    + apply sublist_nil_l.
    + by rewrite app_nil_r.
    + simpl. lia.
    + simpl. by rewrite union_empty_r_L.
    + intros H. rewrite andb_true_r. by apply R5.
    + intros H. split; [done|]. by apply R5.
  - destruct He as [Hc Hx]. apply total_bind. eapply total_mono; [by apply (OnFrameAcked_spec psent plimit _ _ h a)|].
    intros r s' (R1 & R2 & R3 & R4). eexists _, _. by apply (follows_acked l ws a s).
  - destruct He as [Hc Hx]. apply total_bind. eapply total_mono; [by apply (OnFrameLost_spec psent plimit h a)|].
    intros r s' (R1 & R2 & R3 & R4). apply Hw; [done|]. eexists. split; [exact R1|].
    rewrite R2. split_and!; try done; [unfold stream_id; by rewrite R2|].
    eapply fin_step_same; [exact R1| |done]. unfold fin_sent. by rewrite R2.
  - destruct He as [Hc Hx]. apply total_bind. eapply total_mono; [by apply (RetransmitStreamData_spec psent plimit Hplimit _ h a)|].
    intros r s' (a' & R1 & R2). apply Hw; [done|]. by eapply like_wrote.
  - destruct He as [Hi Hh]. apply total_bind, total_zoom. cbn [view stream_lens].
    pose proof (handle_good psent plimit Hplimit (fast_path g) (too_long g) (multiply g) (received_in l) i (stream s)
      (bk_good _ _ _ _ _ (rs_books _ _ _ _ _ Hr)) Hh) as Hg.
    destruct (handle _ _ _ i (stream s)) as [u x|] eqn:E; [|done]. cbn [terminates_in put stream_lens mret M_ret] in *.
    exists (ws ++ []), a. apply follows_peer; [done| |].
    + unfold received_in. by rewrite omap_app.
    + eapply (keeps_handle _ _ _ _ _ _ _ _ _ _ i Hi); [|exact E]. apply (counts_self psent plimit h a), Hr.
Qed.
End Step.

(** ** From the opening of the stream *)

(** The controllers of a stream that was just opened, with room to send up to [w] on
    the stream and up to [kw] on the connection *)
Record opened_both (f : FlowController.Flow) (id plimit w kb kw : Z) : Prop := {
  ob_receive : opened f id plimit;
  ob_stream : parts f id = Some (0, w) /\ 0 <= w < 2 ^ 64;
  ob_connection : parts f connection_id = Some (kb, kw) /\ 0 <= kb <= kw /\ kw < 2 ^ 64
}.

(** A new stream with its buffers empty *)
Definition new_sender (f : FlowController.Flow) (id : Z) (b : flags) (ys : list bool) (net : list packets) : Sender :=
  init (free_flag b) (fast_flag b) (ReceiveStream.init id true f) ys net.

Section Courses.
Context (g : settings) (Hsize : 0 < slice_size g).
Context (psent : Z -> Z) (plimit : Z) (Hplimit : 0 <= plimit <= 2 ^ 61).
Context (f : FlowController.Flow) (id w kb kw : Z) (Hopen : opened_both f id plimit w kb kw).
Context (b : flags) (ys : list bool) (net : list packets).
Notation s0 := (new_sender f id b ys net).
Notation window0 := (fun i => if decide (i = id) then w else kw).

Lemma follows_start : follows g psent plimit id window0 [] [] empty_sending s0.
Proof using Hplimit Hopen.
  destruct Hopen as [Ho [Hs Hw] (Hk & Hkb & Hkw)]. pose proof (op_id _ _ _ Ho) as Hid.
  assert (books psent plimit (history_of (received_in [])) empty_sending s0) as Hb.
  { split; try done; simpl.
    - left. by apply reading_init.
    - apply represents_init.
    - by intros x Hx%elem_of_nil.
    - exists w. split; [done|]. split; simpl; lia.
    - exists (kb, kw). split; [done|]. split; simpl; lia.
    - lia. }
  split; try done.
  - apply rest_no_fin; try done. by intros (x & Hx%elem_of_nil & _).
  - simpl. intros i [->|Ei]; [rewrite decide_False by auto; by rewrite Hk|]. rewrite decide_True by done. subst i. by rewrite Hs.
Qed.

Lemma trace_follows l s : trace g psent plimit s0 l s -> fitting g l ->
  exists ws a, follows g psent plimit id window0 l ws a s.
Proof using Hsize Hplimit Hopen.
  induction 1 as [|l s e r s' Ht IH He E]; intros Hfit; [eexists _, _; apply follows_start|].
  destruct IH as (ws & a & F); [by apply (fitting_app g l e Hfit), cost_nonneg|].
  exact (total_inv _ _ _ _ (step_spec g Hsize psent plimit Hplimit id window0 l ws a s e F He Hfit) E).
Qed.
End Courses.

(** ** Courses that can be run *)

#[export] Instance frame_eq_dec : EqDecision frame.
Proof. solve_decision. Defined.

(** [enabled], decided; of the peer's frames those that carry [psent] *)
Definition check (psent : Z -> Z) (plimit : Z) (e : event) (s : Sender) : bool :=
  match e with
  | WindowUpdate _ o => bool_decide (o < 2 ^ 64)
  | FrameAcked x | FrameLost x | FrameRepeated x => connected s && bool_decide (x ∈ outbox s)
  | Peer (StreamFrame o data fin) =>
      bool_decide (0 <= o /\ o + len data <= plimit /\ data = bytes_from psent o (len data) /\
        (fin = true -> o + len data = plimit))
  | Peer (RstFrame o _) => o =? plimit
  | Peer FinSent => false
  | _ => true
  end.

Lemma check_enabled psent plimit e s : check psent plimit e s = true -> enabled psent plimit e s.
Proof.
  destruct e as [| | | | |id o|x|x|x|[o data fin|o err| | | |err]]; simpl; try done.
  - by intros H%bool_decide_eq_true.
  - by intros [H ?%bool_decide_eq_true]%andb_true_iff.
  - by intros [H ?%bool_decide_eq_true]%andb_true_iff.
  - by intros [H ?%bool_decide_eq_true]%andb_true_iff.
  - intros (H1 & H2 & H3 & H4)%bool_decide_eq_true. split; [done|]. split; [done|]. split; [done|]. split.
    + by apply carries_bytes.
    + exact H4.
  - by intros ->%Z.eqb_eq.
Qed.

Fixpoint course (g : settings) (psent : Z -> Z) (plimit : Z) (l : list event) (s : Sender) : option Sender :=
  match l with
  | [] => Some s
  | e :: l' =>
      if check psent plimit e s then
        match perform g e s with Ret _ s' => course g psent plimit l' s' | Crash _ => None end
      else None
  end.

Lemma course_trace g psent plimit s0 l : forall l0 s s', trace g psent plimit s0 l0 s ->
  course g psent plimit l s = Some s' -> trace g psent plimit s0 (l0 ++ l) s'.
Proof.
  induction l as [|e l IH]; intros l0 s s' Ht E; simpl in E; [injection E as <-; by rewrite app_nil_r|].
  destruct (check _ _ e s) eqn:Ec; [|done]. destruct (perform g e s) as [r s1|] eqn:Ep; [|done].
  replace (l0 ++ e :: l) with ((l0 ++ [e]) ++ l) by (by rewrite <- app_assoc).
  eapply IH; [|exact E]. eapply trace_step; [exact Ht|by apply check_enabled|exact Ep].
Qed.

(** Data in pieces, lost and sent again, while the peer sends its own. *)
Definition demo_settings : settings :=
  {| fast_disjoint := true; too_long := true; fast_path := false; slice_size := 4; buffer_threshold := 100;
     multiply := fun x => x * 3 / 2 |}.

Definition demo_network : list packets :=
  [{| rooms := [3; 1]%positive; write_error := None |}; {| rooms := [10]%positive; write_error := None |};
   {| rooms := [2]%positive; write_error := None |}; {| rooms := [20]%positive; write_error := None |};
   {| rooms := [20]%positive; write_error := None |}].

Definition frame1 : frame := {| foffset := 0; fdata := [1; 2; 3]; ffin := false |}.
Definition frame2 : frame := {| foffset := 3; fdata := [4]; ffin := false |}.
Definition frame3 : frame := {| foffset := 4; fdata := [5; 6; 7; 8]; ffin := true |}.
Definition frame4 : frame := {| foffset := 0; fdata := [1; 2]; ffin := false |}.
Definition frame5 : frame := {| foffset := 2; fdata := [3]; ffin := false |}.

Definition demo_course : list event :=
  [AppWrite [1; 2; 3; 4; 5] false; Peer (StreamFrame 3 [4; 5; 6] false); AppWritev [[6; 7]; [8]] true; TurnToWrite;
   WindowUpdate 5 300; FrameLost frame1; TurnToRepeat; Peer (StreamFrame 0 [1; 2; 3; 4] false); FrameAcked frame2;
   FrameAcked frame4; TurnToRepeat; FrameRepeated frame3; AppWriteSlices [[9]] false; FrameAcked frame3; FrameAcked frame5].

Definition demo_start : Sender := new_sender flow0 5 demo_flags [] demo_network.

Lemma flow0_opened_both : opened_both flow0 5 7 100 0 100.
Proof. split; [apply flow0_opened|split; [done|lia]|split; [done|lia]]. Qed.

Lemma demo_course_fits : fitting demo_settings demo_course.
Proof. split; compute_goal. Qed.

Definition demo_end : option Sender := course demo_settings demo_sent 7 demo_course demo_start.

Lemma demo_trace s : demo_end = Some s -> trace demo_settings demo_sent 7 demo_start demo_course s.
Proof. intros E. exact (course_trace _ _ _ _ demo_course [] _ _ (trace_start _ _ _ _) E). Qed.

(** What is looked at in the end *)
Definition demo_see (s : Sender) : Z * Z * list (list Z) * bool :=
  (SendBuffer.stream_offset_ (send_buffer_ s), stream_bytes_written s, fdata <$> outbox s,
   ReceiveStream.rst_sent_ (ReceiveStream.sides (stream s))).

Lemma demo_sees s : demo_end = Some s ->
  demo_see s = (8, 8, [[5; 6; 7; 8]; [3]; [1; 2]; [5; 6; 7; 8]; [4]; [1; 2; 3]], false).
Proof.
  intros E. assert (demo_see <$> demo_end = Some (8, 8, [[5; 6; 7; 8]; [3]; [1; 2]; [5; 6; 7; 8]; [4]; [1; 2; 3]], false)) as H
    by (vm_compute; reflexivity).
  rewrite E in H. exact (Some_inj _ _ H).
Qed.

(** C15: Whatever the application writes, the packet layer takes, the peer acknowledges,
    loses and grants and the other half of the stream receives: no operation of the sending
    half fails or runs out of its loop bound. *)
Theorem no_event_of_a_sending_stream_fails g psent plimit f id w kb kw b ys net l s e :
  0 < slice_size g -> 0 <= plimit <= 2 ^ 61 -> opened_both f id plimit w kb kw ->
  trace g psent plimit (new_sender f id b ys net) l s -> enabled psent plimit e s -> fitting g (l ++ [e]) ->
  terminates_in (perform g e s) (fun _ _ => True).
Proof.
  intros Hsize Hlimit Hopen Ht He Hfit.
  destruct (trace_follows g Hsize psent plimit Hlimit f id w kb kw Hopen b ys net l s Ht) as (ws & a & F).
  { by apply (fitting_app g l e Hfit), cost_nonneg. }
  eapply total_mono; [by eapply step_spec|]. done.
Qed.

Lemma no_event_of_a_sending_stream_fails_witness :
  match demo_end with
  | Some s => terminates_in (perform demo_settings (AppWrite [9; 9] true) s) (fun _ _ => True)
  | None => False
  end.
Proof.
  destruct demo_end as [s|] eqn:E; [|vm_compute in E; discriminate].
  apply (no_event_of_a_sending_stream_fails demo_settings demo_sent 7 flow0 5 100 0 100 demo_flags [] demo_network
    demo_course s (AppWrite [9; 9] true)); [reflexivity|lia|exact flow0_opened_both|exact (demo_trace s E)|exact I|].
  clear. split; compute_goal.
Defined.

(** C14: In any course of a stream some of the writes were accepted whole, and their bytes D
    are what the stream sends: every frame carries the bytes of D at its offset, the frames
    together cover what was counted as written, a FIN frame ends exactly at the end of D,
    the counts stay within the windows the peer announced, and what is outstanding is what
    was written and not acknowledged; every byte of it is still kept. *)
Theorem every_frame_carries_what_was_written g psent plimit f id w kb kw b ys net l s :
  0 < slice_size g -> 0 <= plimit <= 2 ^ 61 -> opened_both f id plimit w kb kw ->
  trace g psent plimit (new_sender f id b ys net) l s -> fitting g l ->
  exists ws, ws `sublist_of` (offered <$> l) /\ let D := concat ws in
    SendBuffer.stream_offset_ (send_buffer_ s) = len D /\
    Forall (fun x => 0 <= foffset x /\ foffset x + frame_length x <= stream_bytes_written s /\
      fdata x = bytes D (foffset x) (frame_length x) /\ (ffin x = true -> foffset x + frame_length x = len D)) (outbox s) /\
    (forall v, 0 <= v < stream_bytes_written s -> framed_in (outbox s) v) /\
    (fin_sent s = true -> stream_bytes_written s = len D /\ fin_framed (outbox s)) /\
    stream_bytes_written s <= len D /\
    stream_bytes_written s <= window_after id w l /\
    (exists k, FlowController.controllers (flow_of s) !! connection_id = Some k /\
      FlowController.bytes_sent_ k <= window_after connection_id kw l) /\
    SendBuffer.stream_bytes_outstanding_ (send_buffer_ s) = stream_bytes_written s - card (acked_in l) /\
    (forall v c, 0 <= v -> D !! Z.to_nat v = Some c -> v ∉ acked_in l -> held (send_buffer_ s) v c).
Proof.
  intros Hsize Hlimit Hopen Ht Hfit.
  destruct (trace_follows g Hsize psent plimit Hlimit f id w kb kw Hopen b ys net l s Ht Hfit) as (ws & a & F).
  exists ws. pose proof F as [F1 F2 F3 F4 F5 F6 F7 F8 F9]. split; [done|]. cbv zeta. rewrite <- F4, <- F6.
  pose proof F1 as [Hb R2 R3 R4 R5 R6 R7]. pose proof Hb as [H1 H2 H3 H4 H5 H6 (ws' & Hs & Hw) ([kb' kw'] & Hk & Hkw) H9 H10].
  pose proof (represents_bounds _ _ H4) as (B1 & B2 & _ & B4 & B5). pose proof H4 as (e & first & Hrw & _).
  unfold stream_bytes_written. rewrite B4. split_and!; try done.
  - apply Forall_forall. intros x Hx. rewrite Forall_forall in H5. destruct (H5 x Hx) as [G1 G2 G3].
    split; [done|]. split; [lia|]. split; [done|]. intros Hf. by apply H6.
  - intros v Hv. apply H10. lia.
  - intros Hf. split; [by apply R3|by apply R7].
  - lia.
  - pose proof (F7 id ltac:(by right)) as E. rewrite F2 in Hs. rewrite Hs, decide_True in E by done. injection E as <-. apply Hw.
  - pose proof (F7 connection_id ltac:(by left)) as E. rewrite Hk in E. rewrite decide_False in E by (rewrite <- F2; auto).
    injection E as <-. apply parts_some in Hk as (k & Hk & E1 & E2). exists k. split; [done|]. rewrite E1. apply Hkw.
  - apply (r_outstanding _ _ _ _ Hrw).
  - intros v c. by apply held_spec.
Qed.

Lemma every_frame_carries_what_was_written_witness :
  match demo_end with
  | Some s => exists ws, ws `sublist_of` (offered <$> demo_course) /\ len (concat ws) = 8 /\
      fdata <$> outbox s = [[5; 6; 7; 8]; [3]; [1; 2]; [5; 6; 7; 8]; [4]; [1; 2; 3]] /\
      (forall v, 0 <= v < 8 -> framed_in (outbox s) v)
  | None => False
  end.
Proof.
  destruct demo_end as [s|] eqn:E; [|vm_compute in E; discriminate].
  pose proof (demo_sees s E) as Hs.
  pose proof (f_equal (fun x => x.1.1.1) Hs) as H1. pose proof (f_equal (fun x => x.1.1.2) Hs) as H2.
  pose proof (f_equal (fun x => x.1.2) Hs) as H3. simpl in H1, H2, H3.
  destruct (every_frame_carries_what_was_written demo_settings demo_sent 7 flow0 5 100 0 100 demo_flags [] demo_network
    demo_course s) as (ws & Hws & Hoff & _ & Hcov & _); [reflexivity|lia|exact flow0_opened_both|exact (demo_trace s E)|exact demo_course_fits|].
  exists ws. split; [exact Hws|]. split; [rewrite <- Hoff; exact H1|]. split; [exact H3|]. rewrite H2 in Hcov. exact Hcov.
Defined.

(** C30: A write takes all of its data or none: it is refused after the FIN, once the write
    side is closed and, unless it has no data, while too much is buffered; what it answers
    is what it took, and every byte it took is kept at the end of the stream. *)
Theorem a_write_is_taken_whole_or_not_at_all g psent plimit f id w kb kw b ys net l s e :
  0 < slice_size g -> 0 <= plimit <= 2 ^ 61 -> opened_both f id plimit w kb kw ->
  trace g psent plimit (new_sender f id b ys net) l s -> is_write e -> fitting g (l ++ [e]) ->
  terminates_in (perform g e s) (fun r s' => r = write_answer g e s /\
    let off := SendBuffer.stream_offset_ (send_buffer_ s) in
    let data := if accepts g e s then offered e else [] in
    SendBuffer.stream_offset_ (send_buffer_ s') = off + len data /\
    fin_buffered_ s' = fin_buffered_ s || (accepts g e s && asks_fin e) /\
    forall i c, data !! i = Some c -> held (send_buffer_ s') (off + Z.of_nat i) c).
Proof.
  intros Hsize Hlimit Hopen Ht He Hfit. destruct (fitting_app g l e Hfit (cost_nonneg g Hsize e)) as (Hfl & H1 & H2).
  destruct (trace_follows g Hsize psent plimit Hlimit f id w kb kw Hopen b ys net l s Ht Hfl) as (ws & a & F).
  pose proof (follows_fits _ _ _ _ _ _ _ _ _ _ _ F H1 H2) as Hf. pose proof (fw_rest _ _ _ _ _ _ _ _ _ F) as Hr.
  eapply total_mono; [by eapply (write_spec g Hsize psent plimit Hlimit)|].
  intros r s' (E & r' & Er & a' & T1 & T2 & T3 & T4 & T5 & _). split; [done|]. cbv zeta.
  pose proof (bk_buffer _ _ _ _ _ (rs_books _ _ _ _ _ Hr)) as Hrep. pose proof (bk_buffer _ _ _ _ _ (rs_books _ _ _ _ _ T1)) as Hrep'.
  pose proof (represents_bounds _ _ Hrep) as (_ & B2 & _ & _ & ->). pose proof (represents_bounds _ _ Hrep') as (_ & _ & _ & _ & ->).
  split; [by rewrite T2, len_app|]. split; [rewrite T5, Er; by destruct (accepts g e s)|].
  intros i c Hi. apply (held_spec a'); [done|unfold len; lia| |].
  - rewrite T2. unfold len. rewrite Z2Nat.inj_add, !Nat2Z.id by lia. by rewrite lookup_app_r, Nat.add_sub' by lia.
  - rewrite T4. intros Ha. destruct Hrep as (q & first & Hrw & _). apply (r_in_flight _ _ _ _ Hrw), elem_of_range in Ha. lia.
Qed.

Lemma a_write_is_taken_whole_or_not_at_all_witness :
  terminates_in (perform demo_settings (AppWritev [[1; 2]; [3]] true) demo_start) (fun r s' => r = (3, true) /\
    held (send_buffer_ s') 2 3).
Proof.
  eapply total_mono.
  { apply (a_write_is_taken_whole_or_not_at_all demo_settings demo_sent 7 flow0 5 100 0 100 demo_flags [] demo_network
      [] demo_start (AppWritev [[1; 2]; [3]] true)); [reflexivity|lia|exact flow0_opened_both|apply trace_start|exact I|].
    split; compute_goal. }
  intros r s' (Hr & _ & _ & Hh). split; [exact Hr|]. exact (Hh 2%nat 3 eq_refl).
Defined.

(** A stream that was not reset waits for acknowledgements exactly until every byte it
    wrote and its FIN, if that was sent, have been acknowledged. *)
Theorem waiting_ends_when_all_is_acknowledged g psent plimit f id w kb kw b ys net l s :
  0 < slice_size g -> 0 <= plimit <= 2 ^ 61 -> opened_both f id plimit w kb kw ->
  trace g psent plimit (new_sender f id b ys net) l s -> fitting g l ->
  ReceiveStream.rst_sent_ (ReceiveStream.sides (stream s)) = false ->
  (IsWaitingForAcks s = false <->
    (forall v, 0 <= v < stream_bytes_written s -> v ∈ acked_in l) /\ (fin_sent s = true -> fin_acked l = true)).
Proof.
  intros Hsize Hlimit Hopen Ht Hfit Hrst.
  destruct (trace_follows g Hsize psent plimit Hlimit f id w kb kw Hopen b ys net l s Ht Hfit) as (ws & a & F).
  pose proof F as [F1 F2 F3 F4 F5 F6 F7 F8 F9]. destruct (bk_buffer _ _ _ _ _ (rs_books _ _ _ _ _ F1)) as (e & first & Hrw & _).
  unfold IsWaitingForAcks, stream_bytes_written. rewrite Hrst, (r_outstanding _ _ _ _ Hrw), (r_written _ _ _ _ Hrw), F8, <- F6. simpl.
  pose proof (r_sent _ _ _ _ Hrw) as Hs. pose proof (r_in_flight _ _ _ _ Hrw) as Hin.
  assert (acked a ⊆ range 0 (sent a)) as Hsub by (intros v Hv%Hin; rewrite elem_of_range in *; lia).
  rewrite orb_false_iff, negb_false_iff, Z.eqb_eq. split; intros [H1 H2]; split.
  - intros v Hv. destruct (decide (v ∈ acked a)) as [|Hno]; [done|exfalso].
    assert (acked a ∪ range v 1 ⊆ range 0 (sent a)) as Hm%card_mono.
    { intros u [Hu|Hu]%elem_of_union; [by apply Hsub|]. rewrite elem_of_range in *. lia. }
    rewrite card_union, !card_range in Hm by (lia || (intros u Hu Hu'%elem_of_range; by replace u with v in Hu by lia)). lia.
  - intros Hf. rewrite Hf in H2. by destruct (fin_acked l).
  - assert (acked a = range 0 (sent a)) as ->; [|rewrite card_range; lia].
    apply set_eq. intros v. split; [apply Hsub|]. intros Hv%elem_of_range. apply H1. lia.
  - destruct (fin_sent s); [by rewrite H2|done].
Qed.

Lemma waiting_ends_when_all_is_acknowledged_witness :
  match demo_end with
  | Some s => IsWaitingForAcks s = false /\ fin_acked demo_course = true /\ (7 ∈ acked_in demo_course)
  | None => False
  end.
Proof.
  destruct demo_end as [s|] eqn:E; [|vm_compute in E; discriminate].
  pose proof (demo_sees s E) as Hs.
  pose proof (f_equal (fun x => x.1.1.2) Hs) as H2. pose proof (f_equal (fun x => x.2) Hs) as H4. simpl in H2, H4.
  destruct (waiting_ends_when_all_is_acknowledged demo_settings demo_sent 7 flow0 5 100 0 100 demo_flags [] demo_network
    demo_course s) as [Hw _]; [reflexivity|lia|exact flow0_opened_both|exact (demo_trace s E)|exact demo_course_fits|exact H4|].
  assert (IsWaitingForAcks s = false) as Hi.
  { change (match Some s with Some s => IsWaitingForAcks s | None => true end = false). rewrite <- E. vm_compute. reflexivity. }
  split; [exact Hi|]. split; [reflexivity|]. apply Hw; [exact Hi|]. rewrite H2. lia.
Defined.
