(* ===== verification/Transfer.v ===== *)
(** From one application to the other: what is written into a stream at one end is
    what the delegate at the other end is given, whatever frames the network drops,
    repeats and reorders. *)

From S2P Require Import Prelude FlowController FlowControl IntervalSet Intervals SequencerBuffer Reassembly.
From S2P Require Import ReassemblyRuns ReceiveStream StreamClosing StreamDelivery StreamRuns.
From S2P Require Import QuicData Wire SendBuffer Sending SendAcks SendRuns SendStream SendKept SendSide SendWrites SendTraces.
Import SendStream.

(** ** Frames as the other end sees them *)

(** The stream that [D] is *)
Definition byte_at (D : list Z) (v : Z) : Z := default 0 (D !! Z.to_nat v).

Lemma bytes_from_take D n : 0 <= n <= len D -> bytes_from (byte_at D) 0 n = take (Z.to_nat n) D.
Proof.
  intros Hn. apply list_eq. intros i. unfold bytes_from. rewrite list_lookup_fmap, lookup_take. unfold len in Hn.
  case_decide as Hi.
  - rewrite lookup_seqZ_lt by lia. cbn [fmap option_fmap option_map]. unfold byte_at. rewrite Z.add_0_l, Nat2Z.id.
    destruct (lookup_lt_is_Some_2 D i) as [c Hc]; [lia|]. by rewrite Hc.
  - rewrite lookup_seqZ_ge by lia. done.
Qed.

(** A frame, received *)
Definition arrival (x : frame) : input := StreamFrame (foffset x) (fdata x) (ffin x).

Lemma frame_honest psent plimit h a s x : rest psent plimit h a s -> x ∈ outbox s ->
  honest_input (byte_at (saved a)) (len (saved a)) (arrival x).
Proof.
  intros Hr Hx. pose proof (rs_books _ _ _ _ _ Hr) as Hb. pose proof (bk_frames _ _ _ _ _ Hb) as Hf.
  rewrite Forall_forall in Hf. destruct (Hf x Hx) as [F1 F2 F3].
  pose proof (represents_bounds _ _ (bk_buffer _ _ _ _ _ Hb)) as (B1 & _). change (Z.of_nat (length (fdata x))) with (frame_length x).
  split; [done|]. split; [unfold frame_length in *; lia|]. split.
  - intros i c Hi. rewrite F3 in Hi. unfold bytes in Hi. rewrite lookup_take in Hi. case_decide; [|done].
    rewrite lookup_drop in Hi. unfold byte_at. by rewrite Z2Nat.inj_add, Nat2Z.id, Hi by lia.
  - intros Hfin. by apply (bk_fins _ _ _ _ _ Hb).
Qed.

(** What happens at the other end: frames of the sender arrive, the application there
    does what it likes. *)
Definition from_sender (s : Sender) (i : input) : Prop :=
  match i with
  | StreamFrame o data fin => {| foffset := o; fdata := data; ffin := fin |} ∈ outbox s
  | RstFrame _ _ => False
  | _ => True
  end.

Lemma from_sender_honest psent plimit h a s i : rest psent plimit h a s -> from_sender s i ->
  honest_input (byte_at (saved a)) (len (saved a)) i.
Proof. intros Hr. destruct i; simpl; try done. intros Hx. by apply (frame_honest psent plimit h a s _ Hr Hx). Qed.

(** Nothing at the other end cut the stream short. *)
Definition uncut (i : input) : Prop := ~ (is_rst i \/ is_close i) /\ ~ is_shutdown i.

(** Frames of a course that arrive at the other end. *)
Lemma course_delivered g psent plimit f id w kb kw b ys net l s fast long multiplied id' f' :
  0 < slice_size g -> 0 <= plimit <= 2 ^ 61 -> opened_both f id plimit w kb kw ->
  trace g psent plimit (new_sender f id b ys net) l s -> fitting g l ->
  SendBuffer.stream_offset_ (send_buffer_ s) <= 2 ^ 61 -> opened f' id' (SendBuffer.stream_offset_ (send_buffer_ s)) ->
  exists ws, ws `sublist_of` (offered <$> l) /\ let D := concat ws in
  forall ls, Forall (from_sender s) ls ->
  terminates_in (handle_all fast long multiplied ls (ReceiveStream.init id' true f')) (fun _ r => exists n,
    given (ReceiveStream.events r) = take n D /\
    (ReceiveStream.FinRead ∈ ReceiveStream.events r -> Forall (fun i => ~ is_shutdown i) ls ->
      given (ReceiveStream.events r) = D) /\
    (StreamDelivery.connected r = true -> Forall uncut ls -> (forall x, x ∈ outbox s -> arrival x ∈ ls) ->
      given (ReceiveStream.events r) = take (Z.to_nat (stream_bytes_written s)) D /\
      (fin_sent s = true -> given (ReceiveStream.events r) = D /\ ReceiveStream.FinRead ∈ ReceiveStream.events r))).
Proof.
  intros Hsize Hlimit Hopen Ht Hfit Hlen Hop.
  destruct (trace_follows g Hsize psent plimit Hlimit f id w kb kw Hopen b ys net l s Ht Hfit) as (ws & a & F).
  pose proof F as [F1 F2 F3 F4 F5 F6 F7 F8 F9]. exists ws. split; [done|]. cbv zeta. rewrite <- F4. intros ls Hls.
  pose proof F1 as [Hb R2 R3 R4 R5 R6 R7].
  pose proof (represents_bounds _ _ (bk_buffer _ _ _ _ _ Hb)) as (B1 & B2 & _ & B4 & B5). rewrite B5 in *.
  unfold stream_bytes_written. rewrite B4.
  eapply total_mono; [apply (run_told fast long multiplied (byte_at (saved a)) (len (saved a)) id' f' ls); [lia|done|]|].
  { eapply Forall_impl; [exact Hls|]. intros i. by apply (from_sender_honest psent plimit (history_of (received_in l)) a s). }
  intros ? r (n & Hg & Hn & _ & Hfin & Hall). rewrite bytes_from_take in Hg by lia. exists (Z.to_nat n). split; [done|].
  assert (n = len (saved a) -> given (ReceiveStream.events r) = saved a) as Hwhole.
  { intros ->. rewrite Hg. unfold len. rewrite Nat2Z.id. by apply take_ge. }
  split; [intros H1 H2; by apply Hwhole, Hfin|].
  intros Hc Hu Harr. destruct (Hall Hc Hu) as (H1 & H2 & H3).
  assert (forall v, framed_in (outbox s) v -> Exists (brings v) ls) as Hbr.
  { intros v (x & Hx & Hv). apply Exists_exists. exists (arrival x). split; [by apply Harr|exact Hv]. }
  assert (n = sent a) as En.
  { destruct (Z.lt_trichotomy n (sent a)) as [Hlt|[->|Hgt]]; [exfalso|done|exfalso].
    - apply H2, Hbr, (bk_cover _ _ _ _ _ Hb). lia.
    - pose proof (H1 (sent a) ltac:(lia)) as (i & Hi & Hv)%Exists_exists. rewrite Forall_forall in Hls.
      specialize (Hls i Hi). destruct i as [o data fin| | | | |]; try done. simpl in Hls, Hv.
      pose proof (bk_frames _ _ _ _ _ Hb) as Hf. rewrite Forall_forall in Hf. destruct (Hf _ Hls) as [_ G2 _].
      unfold frame_length in G2. simpl in G2. lia. }
  split; [by rewrite Hg, En|]. intros Hfs. destruct (R3 Hfs) as (_ & Es & _).
  assert (n = len (saved a)) as Enl by lia. split; [by apply Hwhole|]. apply H3. split; [done|].
  destruct (R7 Hfs) as (x & Hx & Hxf). apply Exists_exists. exists (arrival x). split; [by apply Harr|exact Hxf].
Qed.

(** C3: What one application writes into a stream is what the other is given: from the
    frames that were sent, in any order, repeated or lost, the delegate at the other end
    gets a prefix of the accepted writes and sees the end only after all of them; once every
    frame has arrived on a live connection it has everything that was put into packets, and
    the end if the FIN was sent. *)
Theorem what_is_written_is_delivered g psent plimit f id w kb kw b ys net l s fast long multiplied id' f' ls :
  0 < slice_size g -> 0 <= plimit <= 2 ^ 61 -> opened_both f id plimit w kb kw ->
  trace g psent plimit (new_sender f id b ys net) l s -> fitting g l ->
  SendBuffer.stream_offset_ (send_buffer_ s) <= 2 ^ 61 -> opened f' id' (SendBuffer.stream_offset_ (send_buffer_ s)) ->
  Forall (from_sender s) ls ->
  exists ws, ws `sublist_of` (offered <$> l) /\ let D := concat ws in
  terminates_in (handle_all fast long multiplied ls (ReceiveStream.init id' true f')) (fun _ r => exists n,
    given (ReceiveStream.events r) = take n D /\
    (ReceiveStream.FinRead ∈ ReceiveStream.events r -> Forall (fun i => ~ is_shutdown i) ls ->
      given (ReceiveStream.events r) = D) /\
    (StreamDelivery.connected r = true -> Forall uncut ls -> (forall x, x ∈ outbox s -> arrival x ∈ ls) ->
      given (ReceiveStream.events r) = take (Z.to_nat (stream_bytes_written s)) D /\
      (fin_sent s = true -> given (ReceiveStream.events r) = D /\ ReceiveStream.FinRead ∈ ReceiveStream.events r))).
Proof.
  intros Hsize Hlimit Hopen Ht Hfit Hlen Hop Hls.
  destruct (course_delivered g psent plimit f id w kb kw b ys net l s fast long multiplied id' f') as (ws & Hws & H); [done..|].
  exists ws. split; [done|]. by apply H.
Qed.

(** The six frames of the example, the second twice and the last one first. *)
Definition demo_arrivals : list input :=
  [arrival frame3; arrival frame2; arrival frame1; arrival frame4; FinSent; arrival frame2; arrival frame5].

Lemma flow0_opened_8 : opened flow0 5 8.
Proof.
  split; [apply flow0_ok|done| |].
  - exists (FlowController.init 5 100 64 true (Some 0)). by split_and!.
  - exists (FlowController.init 0 100 64 true None). split; [done|]. simpl. lia.
Qed.

Lemma demo_outbox s : demo_end = Some s -> outbox s = [frame3; frame5; frame4; frame3; frame2; frame1].
Proof.
  intros E. assert (outbox <$> demo_end = Some [frame3; frame5; frame4; frame3; frame2; frame1]) as H
    by (vm_compute; reflexivity).
  rewrite E in H. exact (Some_inj _ _ H).
Qed.

Lemma what_is_written_is_delivered_witness :
  match demo_end with
  | Some s => exists ws, ws `sublist_of` (offered <$> demo_course) /\
      terminates_in (handle_all true true (fun x => x * 3 / 2) demo_arrivals (ReceiveStream.init 5 true flow0)) (fun _ r =>
        given (ReceiveStream.events r) = concat ws /\ ReceiveStream.FinRead ∈ ReceiveStream.events r)
  | None => False
  end.
Proof.
  destruct demo_end as [s|] eqn:E; [|vm_compute in E; discriminate].
  pose proof (demo_outbox s E) as Ho. pose proof (f_equal (fun x => x.1.1.1) (demo_sees s E)) as H1. simpl in H1.
  destruct (what_is_written_is_delivered demo_settings demo_sent 7 flow0 5 100 0 100 demo_flags [] demo_network demo_course s
    true true (fun x => x * 3 / 2) 5 flow0 demo_arrivals) as (ws & Hws & H).
  { reflexivity. } { lia. } { exact flow0_opened_both. } { exact (demo_trace s E). } { exact demo_course_fits. }
  { rewrite H1. lia. } { rewrite H1. exact flow0_opened_8. }
  { repeat constructor; unfold from_sender, arrival; rewrite ?Ho; clear; set_solver. }
  exists ws. split; [exact Hws|].
  assert ((fun r => StreamDelivery.connected r) <$> match handle_all true true (fun x => x * 3 / 2) demo_arrivals (ReceiveStream.init 5 true flow0)
    with Ret _ r => Some r | Crash _ => None end = Some true) as Hc by (vm_compute; reflexivity).
  destruct (handle_all _ _ _ demo_arrivals _) as [u r|]; [|exact H]. destruct H as (n & _ & _ & H).
  destruct (H (Some_inj _ _ Hc)) as [_ Hf].
  - repeat constructor; unfold uncut; simpl; clear; tauto.
  - rewrite Ho. intros x Hx. unfold demo_arrivals. clear -Hx. set_solver.
  - apply Hf. assert (fin_sent <$> demo_end = Some true) as Hs by (vm_compute; reflexivity).
    rewrite E in Hs. exact (Some_inj _ _ Hs).
Defined.
