(* ===== verification/ReaderSafety.v ===== *)
(** Reading bytes that may be anything: what every read of [QuicDataReader] leaves
    as it was, and runs that may only end in a fault of signed arithmetic. *)

From S2P Require Import Prelude World QuicData.

(** ** Readers *)

(** The reader is inside its data. *)
Definition within (r : Reader.Reader) : Prop := (Reader.pos_ r <= Reader.len_ r)%nat.

(** [r'] is [r] further on. *)
Definition further (r r' : Reader.Reader) : Prop :=
  Reader.data_ r' = Reader.data_ r /\ Reader.endianness_ r' = Reader.endianness_ r /\
  (Reader.pos_ r <= Reader.pos_ r')%nat /\ within r'.

Lemma further_refl r : within r -> further r r.
Proof. intros H. by split_and!. Qed.

Lemma further_trans r1 r2 r3 : further r1 r2 -> further r2 r3 -> further r1 r3.
Proof. intros (D & E & L & W) (D' & E' & L' & W'). split_and!; [congruence|congruence|lia|done]. Qed.

Lemma further_remaining r r' : further r r' -> (Reader.BytesRemaining r' <= Reader.BytesRemaining r)%nat.
Proof. intros (D & _ & L & _). unfold Reader.BytesRemaining, Reader.len_. rewrite D. lia. Qed.

Lemma further_within r r' : further r r' -> within r'.
Proof. by intros (_ & _ & _ & W). Qed.

(** [m] reads [n] bytes, or fails where there are not as many. *)
Definition consumes {A} (n : nat) (m : M Reader.Reader (option A)) : Prop := forall r, within r ->
  terminates_in (m r) (fun o r' => further r r' /\
    match o with
    | Some _ => Reader.pos_ r' = (Reader.pos_ r + n)%nat
    | None => (Reader.BytesRemaining r < n)%nat
    end).

Lemma consumes_bytes n : consumes n (Reader.ReadBytes n).
Proof.
  intros r Hr. unfold Reader.ReadBytes, mbind, M_bind, get, Reader.CanRead, Reader.OnFailure, modify.
  unfold within in Hr. destruct (Nat.leb_spec n (Reader.len_ r - Reader.pos_ r)); cbn [negb terminates_in].
  - split; [|done]. unfold further, within, Reader.set_pos, Reader.len_ in *. cbn. split_and!; [done|done|lia|lia].
  - split; [|unfold Reader.BytesRemaining; lia]. unfold further, within, Reader.set_pos, Reader.len_ in *. cbn. split_and!; [done|done|lia|lia].
Qed.

Lemma consumes_string n : consumes n (Reader.ReadStringPiece n).
Proof. exact (consumes_bytes n). Qed.

(** A read followed by a computation. *)
Lemma consumes_map {A B} n (m : M Reader.Reader (option A)) (g : A -> B) :
  consumes n m -> consumes n (o ← m; mret (g <$> o)).
Proof.
  intros Hm r Hr. apply total_bind. eapply total_mono; [by apply Hm|]. cbv beta. intros o r' [Hf Hx]. split; [done|].
  by destruct o.
Qed.

Lemma consumes_uint n : consumes n (Reader.ReadUInt n).
Proof.
  intros r Hr. unfold Reader.ReadUInt. apply total_bind. eapply total_mono; [by apply consumes_bytes|].
  cbv beta. intros o r' [Hf Hx]. destruct o as [b|]; [|by split].
  apply total_bind. cbn [get terminates_in]. by case_decide.
Qed.

Lemma consumes_uint8 : consumes 1 Reader.ReadUInt8.
Proof. apply (consumes_map 1 _ load), consumes_bytes. Qed.

Lemma consumes_tag : consumes 4 Reader.ReadTag.
Proof. apply (consumes_map 4 _ load), consumes_bytes. Qed.

(** Reads whose length is not of interest. *)
Definition moves {A} (m : M Reader.Reader A) : Prop := forall r, within r ->
  terminates_in (m r) (fun _ r' => further r r').

Lemma consumes_moves {A} n (m : M Reader.Reader (option A)) : consumes n m -> moves m.
Proof. intros Hm r Hr. eapply total_mono; [by apply Hm|]. by intros o r' [Hf _]. Qed.

Lemma moves_ret {A} (x : A) : moves (mret x).
Proof. intros r Hr. by apply further_refl. Qed.

Lemma moves_bind {A B} (m : M Reader.Reader A) (k : A -> M Reader.Reader B) :
  moves m -> (forall x, moves (k x)) -> moves (m ≫= k).
Proof.
  intros Hm Hk r Hr. apply total_bind. eapply total_mono; [by apply Hm|]. cbv beta. intros x r' Hf.
  eapply total_mono; [apply Hk, (further_within _ _ Hf)|]. cbv beta. intros _ r'' Hf'. by eapply further_trans.
Qed.

Lemma moves_get {B} (k : Reader.Reader -> M Reader.Reader B) : (forall x, moves (k x)) -> moves (get ≫= k).
Proof. intros Hk r Hr. apply total_bind. by apply Hk. Qed.

Lemma moves_float : moves Reader.ReadUFloat16.
Proof. apply moves_bind; [apply (consumes_moves 2), consumes_uint|]. intros. apply moves_ret. Qed.

Lemma moves_string16 : moves Reader.ReadStringPiece16.
Proof.
  apply moves_bind; [apply (consumes_moves 2), consumes_uint|]. intros [n|]; [|apply moves_ret].
  apply (consumes_moves (Z.to_nat n)), consumes_string.
Qed.

Lemma moves_to_uint64 n : moves (Reader.ReadBytesToUInt64 n).
Proof.
  unfold Reader.ReadBytesToUInt64. destruct (8 <? n)%nat; [apply moves_ret|]. apply moves_get. intros r0.
  case_decide; apply moves_bind; try (apply (consumes_moves n), consumes_bytes); intros; apply moves_ret.
Qed.

Lemma moves_connection_id : moves Reader.ReadConnectionId.
Proof. apply (consumes_moves 8). apply (consumes_map 8 _ (fun b => swap 8 (load b))), consumes_bytes. Qed.

Lemma moves_payload : moves Reader.ReadRemainingPayload.
Proof.
  intros r Hr. unfold Reader.ReadRemainingPayload, mbind, M_bind, get, modify. cbn [terminates_in].
  unfold further, within, Reader.set_pos, Reader.len_ in *. cbn. split_and!; [done|done|lia|lia].
Qed.

#[export] Hint Resolve moves_ret moves_float moves_string16 moves_to_uint64 moves_connection_id moves_payload : posix_quic.

Lemma moves_bytes n : moves (Reader.ReadBytes n).
Proof. apply (consumes_moves n), consumes_bytes. Qed.

Lemma moves_string n : moves (Reader.ReadStringPiece n).
Proof. exact (moves_bytes n). Qed.

Lemma moves_uint n : moves (Reader.ReadUInt n).
Proof. apply (consumes_moves n), consumes_uint. Qed.

Lemma moves_uint8 : moves Reader.ReadUInt8.
Proof. apply (consumes_moves 1), consumes_uint8. Qed.

Lemma moves_tag : moves Reader.ReadTag.
Proof. apply (consumes_moves 4), consumes_tag. Qed.

#[export] Hint Resolve moves_bytes moves_string moves_uint moves_uint8 moves_tag : posix_quic.
#[export] Hint Extern 1 (moves Reader.ReadUInt16) => apply (moves_uint 2) : posix_quic.
#[export] Hint Extern 1 (moves Reader.ReadUInt32) => apply (moves_uint 4) : posix_quic.
#[export] Hint Extern 1 (moves Reader.ReadUInt64) => apply (moves_uint 8) : posix_quic.

(** ** Mild faults *)

(** The run ends in [Q], or signed arithmetic overflows. *)
Definition mild {S A} (o : outcome S A) (Q : A -> S -> Prop) : Prop :=
  match o with
  | Ret a s => Q a s
  | Crash c => c = IntOverflow
  end.

Section Mild.
Context {S : Type}.

Lemma mild_then {A B} (m : M S A) (f : A -> M S B) s (Q : B -> S -> Prop) :
  mild (m s) (fun a s' => mild (f a s') Q) -> mild ((m ≫= f) s) Q.
Proof. unfold mbind, M_bind. by destruct (m s). Qed.

Lemma mild_mono {A} (o : outcome S A) (Q Q' : A -> S -> Prop) :
  mild o Q -> (forall a s', Q a s' -> Q' a s') -> mild o Q'.
Proof. destruct o; cbn; auto. Qed.

Lemma total_mild {A} (o : outcome S A) (Q : A -> S -> Prop) : terminates_in o Q -> mild o Q.
Proof. by destruct o. Qed.
End Mild.
