(* ===== verification/Crypter.v ===== *)
(** Encryption as the framer sees it: the interfaces [QuicEncrypter] and
    [QuicDecrypter], what a pair of them promises, and the pair that is used before
    keys are agreed on, [NullEncrypter] and [NullDecrypter] of
    libquic/net/quic/core/crypto. *)

From S2P Require Import Prelude World QuicData Wire.

(** [enum EncryptionLevel] *)
Inductive EncryptionLevel : Type := ENCRYPTION_NONE | ENCRYPTION_INITIAL | ENCRYPTION_FORWARD_SECURE.

#[export] Instance EncryptionLevel_dec : EqDecision EncryptionLevel.
Proof. solve_decision. Defined.

(** [EncryptPacket(version, packet_number, associated_data, plaintext, output,
    output_length, max_output_length)]: the output, or failure *)
Class Encrypter (E : Type) : Type := {
  EncryptPacket : Z -> Z -> list Z -> list Z -> nat -> E -> option (list Z);
  GetMaxPlaintextSize : Z -> E -> Z
}.

(** [DecryptPacket(version, packet_number, associated_data, ciphertext, output,
    output_length, max_output_length)]: the output, or failure; and
    [SetDiversificationNonce] *)
Class Decrypter (D : Type) : Type := {
  DecryptPacket : Z -> Z -> list Z -> list Z -> nat -> D -> option (list Z);
  SetDiversificationNonce : list Z -> D -> D
}.

(** What a pair promises: [opens e d] if [d] has the keys of [e]; [d] gives back
    what [e] was given, where there is room for it. *)
Class Channel (E D : Type) `{!Encrypter E, !Decrypter D} : Type := {
  opens : E -> D -> Prop;
  opened : forall e d v pn ad plaintext max ciphertext max',
    opens e d -> EncryptPacket v pn ad plaintext max e = Some ciphertext ->
    (length plaintext <= max')%nat -> DecryptPacket v pn ad ciphertext max' d = Some plaintext
}.

(** ** The hash *)

Definition uint128 (x : Z) : Z := wrap_u 128 x.

(** [QuicUint128 IncrementalHash(QuicUint128 hash, QuicStringPiece data)] *)
Definition IncrementalHash (hash : Z) (data : list Z) : Z :=
  let kPrime := Z.shiftl 16777216 64 + 315 in
  fold_left (fun xhash octet => uint128 (Z.lxor xhash octet * kPrime)) data hash.

(** [QuicUint128 FNV1a_128_Hash_Three(data1, data2, data3)] *)
Definition FNV1a_128_Hash_Three (data1 data2 data3 : list Z) : Z :=
  let kOffset := Z.shiftl 7809847782465536322 64 + 7113472399480571277 in
  let hash := IncrementalHash kOffset data1 in
  match data2 with
  | [] => hash
  | _ =>
      let hash := IncrementalHash hash data2 in
      match data3 with
      | [] => hash
      | _ => IncrementalHash hash data3
      end
  end.

(** [FNV1a_128_Hash_Two(data1, data2)] *)
Definition FNV1a_128_Hash_Two (data1 data2 : list Z) : Z := FNV1a_128_Hash_Three data1 data2 [].

(** [void SerializeUint128Short(QuicUint128 v, uint8_t* out)]: the low twelve bytes *)
Definition SerializeUint128Short (v : Z) : list Z :=
  let lo := uint64 v in
  let hi := uint64 (Z.shiftr v 64) in
  store 8 lo ++ store 4 hi.

(** ** Null encryption *)

(** The characters of "Server" and "Client" *)
Definition server_label : list Z := [83; 101; 114; 118; 101; 114].
Definition client_label : list Z := [67; 108; 105; 101; 110; 116].

Definition kHashSizeShort : nat := 12.

Record NullEncrypter : Type := { encrypter_perspective_ : Perspective }.
Record NullDecrypter : Type := { decrypter_perspective_ : Perspective }.

(** The hash of a packet that [p] sends. *)
Definition packet_hash (v : Z) (p : Perspective) (associated_data plaintext : list Z) : Z :=
  if v >? 35 then
    FNV1a_128_Hash_Three associated_data plaintext (if decide (p = IS_SERVER) then server_label else client_label)
  else FNV1a_128_Hash_Two associated_data plaintext.

Definition null_encrypt (v _packet_number : Z) (associated_data plaintext : list Z) (max_output_length : nat)
    (e : NullEncrypter) : option (list Z) :=
  let len := (length plaintext + kHashSizeShort)%nat in
  if (max_output_length <? len)%nat then None
  else
    let hash := packet_hash v (encrypter_perspective_ e) associated_data plaintext in
    Some (SerializeUint128Short hash ++ plaintext).

#[export] Instance null_encrypter : Encrypter NullEncrypter := {
  EncryptPacket := null_encrypt;
  GetMaxPlaintextSize := fun ciphertext_size _ => uint64 (ciphertext_size - Z.of_nat kHashSizeShort)
}.

(** [bool ReadHash(QuicDataReader* reader, QuicUint128* hash)] *)
Definition ReadHash : M Reader.Reader (option Z) :=
  lo ← Reader.ReadUInt64;
  match lo with
  | None => mret None
  | Some lo =>
      hi ← Reader.ReadUInt32;
      mret ((fun hi => Z.shiftl hi 64 + lo) <$> hi)
  end.

(** [QuicUint128 ComputeHash(version, data1, data2) const] *)
Definition ComputeHash (v : Z) (data1 data2 : list Z) (d : NullDecrypter) : Z :=
  let correct_hash :=
    if v >? 35 then
      if decide (decrypter_perspective_ d = IS_CLIENT) then FNV1a_128_Hash_Three data1 data2 server_label
      else FNV1a_128_Hash_Three data1 data2 client_label
    else FNV1a_128_Hash_Two data1 data2 in
  let mask := uint128 (Z.shiftl 4294967295 96) in
  Z.land correct_hash (uint128 (Z.lnot mask)).

Definition null_decrypt (v _packet_number : Z) (associated_data ciphertext : list Z) (max_output_length : nat)
    (d : NullDecrypter) : option (list Z) :=
  match ReadHash (Reader.init ciphertext HOST_BYTE_ORDER) with
  | Ret (Some hash) reader =>
      let plaintext := Reader.PeekRemainingPayload reader in
      if (max_output_length <? length plaintext)%nat then None
      else if negb (hash =? ComputeHash v associated_data plaintext d) then None
      else Some plaintext
  | _ => None
  end.

#[export] Instance null_decrypter : Decrypter NullDecrypter := {
  DecryptPacket := null_decrypt;
  SetDiversificationNonce := fun _ d => d
}.

(** ** What is accepted *)

Lemma hash_range hash data : 0 <= hash < 2 ^ 128 -> 0 <= IncrementalHash hash data < 2 ^ 128.
Proof.
  revert hash. induction data as [|b data IH]; intros hash Hh; [done|]. apply IH. by apply wrap_u_range.
Qed.

Lemma hash_three_range a b c : 0 <= FNV1a_128_Hash_Three a b c < 2 ^ 128.
Proof. unfold FNV1a_128_Hash_Three. destruct b, c; repeat apply hash_range; vm_compute; split; done. Qed.

Lemma packet_hash_range v p ad plaintext : 0 <= packet_hash v p ad plaintext < 2 ^ 128.
Proof. unfold packet_hash, FNV1a_128_Hash_Two. destruct (v >? 35); apply hash_three_range. Qed.

Definition peer (p : Perspective) : Perspective := match p with IS_SERVER => IS_CLIENT | IS_CLIENT => IS_SERVER end.

(** A decrypter computes the hash its peer's encrypter does, less the top bytes. *)
Lemma computed_hash v ad plaintext d :
  ComputeHash v ad plaintext d = packet_hash v (peer (decrypter_perspective_ d)) ad plaintext mod 2 ^ 96.
Proof.
  unfold ComputeHash, packet_hash. rewrite <- Z.land_ones by done.
  change (uint128 (Z.lnot (uint128 (Z.shiftl 4294967295 96)))) with (Z.ones 96).
  destruct (v >? 35); [|done]. destruct d as [[]]; done.
Qed.

Lemma store_mod n v : store n (v mod 256 ^ Z.of_nat n) = store n v.
Proof. rewrite <- load_store. rewrite <- (store_length n v) at 1. apply store_load, store_bytes. Qed.

Lemma split_hash h : 0 <= h < 2 ^ 128 ->
  Z.shiftl (h / 2 ^ 64 mod 2 ^ 32) 64 + h mod 2 ^ 64 = h mod 2 ^ 96.
Proof.
  intros Hh. rewrite Z.shiftl_mul_pow2 by done. change (2 ^ 96) with (2 ^ 64 * 2 ^ 32). rewrite Z.rem_mul_r by done. lia.
Qed.

Lemma serialized h : 0 <= h < 2 ^ 128 ->
  SerializeUint128Short h = store 8 (h mod 2 ^ 64) ++ store 4 (h / 2 ^ 64 mod 2 ^ 32).
Proof.
  intros Hh. unfold SerializeUint128Short. rewrite Z.shiftr_div_pow2 by done. f_equal.
  rewrite (uint64_small (h / 2 ^ 64)); [symmetry; apply (store_mod 4)|].
  split; [apply Z.div_pos; lia|]. apply Z.div_lt_upper_bound; lia.
Qed.

(** The twelve bytes stand for the hash less its top bytes. *)
Lemma hash_read a b rest : 0 <= a < 2 ^ 64 -> 0 <= b < 2 ^ 32 ->
  ReadHash (reader_at HOST_BYTE_ORDER [] ((store 8 a ++ store 4 b) ++ rest)) =
  Ret (Some (Z.shiftl b 64 + a)) (reader_at HOST_BYTE_ORDER (store 8 a ++ store 4 b) rest).
Proof.
  intros Ha Hb. unfold ReadHash, mbind, M_bind. rewrite <- app_assoc.
  change (store 8 a) with (enc_uint HOST_BYTE_ORDER 8 a). unfold Reader.ReadUInt64. rewrite ReadUInt_ok by done.
  change (store 4 b) with (enc_uint HOST_BYTE_ORDER 4 b). unfold Reader.ReadUInt32. by rewrite ReadUInt_ok.
Qed.

Lemma null_decrypt_hash v pn ad a b plaintext max d : 0 <= a < 2 ^ 64 -> 0 <= b < 2 ^ 32 ->
  let h := packet_hash v (peer (decrypter_perspective_ d)) ad plaintext in
  null_decrypt v pn ad ((store 8 a ++ store 4 b) ++ plaintext) max d =
  if (max <? length plaintext)%nat || negb (Z.shiftl b 64 + a =? h mod 2 ^ 96) then None else Some plaintext.
Proof.
  intros Ha Hb h. unfold null_decrypt.
  change (Reader.init ?l HOST_BYTE_ORDER) with (reader_at HOST_BYTE_ORDER [] l). rewrite hash_read by done.
  unfold Reader.PeekRemainingPayload. cbn [reader_at Reader.data_ Reader.pos_]. rewrite drop_app_length, computed_hash.
  fold h. by destruct (max <? length plaintext)%nat.
Qed.

(** What a null encrypter makes, the null decrypter of the other side opens. *)
#[export, program] Instance null_channel : Channel NullEncrypter NullDecrypter := {
  opens e d := encrypter_perspective_ e = peer (decrypter_perspective_ d)
}.
Next Obligation.
  intros e d v pn ad plaintext max ciphertext max' Ho He Hmax.
  change (null_encrypt v pn ad plaintext max e = Some ciphertext) in He.
  change (null_decrypt v pn ad ciphertext max' d = Some plaintext). unfold null_encrypt in He.
  destruct (max <? _)%nat; [done|]. 
  assert (encrypter_perspective_ e = peer (decrypter_perspective_ d)) as Ho' by exact Ho. rewrite Ho' in He.
  set (h := packet_hash _ _ _ _) in He.
  assert (ciphertext = SerializeUint128Short h ++ plaintext) as -> by congruence.
  pose proof (packet_hash_range v (peer (decrypter_perspective_ d)) ad plaintext) as Hr. fold h in Hr.
  rewrite (serialized h Hr), null_decrypt_hash by (apply Z.mod_pos_bound; lia). fold h.
  rewrite (split_hash h Hr), Z.eqb_refl. destruct (Nat.ltb_spec max' (length plaintext)); [lia|done].
Qed.

(** A ciphertext too short to hold a hash. *)
Lemma null_decrypt_short v pn ad ciphertext max d : (length ciphertext < 12)%nat ->
  null_decrypt v pn ad ciphertext max d = None.
Proof.
  intros Hl. unfold null_decrypt.
  do 12 (destruct ciphertext as [|? ciphertext]; [reflexivity|]). cbn [length] in Hl. lia.
Qed.

(** A longer one starts with a hash. *)
Lemma hash_bytes l : Forall byte l -> (12 <= length l)%nat ->
  exists a b rest, l = (store 8 a ++ store 4 b) ++ rest /\ 0 <= a < 2 ^ 64 /\ 0 <= b < 2 ^ 32.
Proof.
  intros Hb Hl. exists (load (take 8 l)), (load (take 4 (drop 8 l))), (drop 4 (drop 8 l)).
  assert (length (take 8 l) = 8%nat) as H8 by (rewrite length_take; lia).
  assert (length (take 4 (drop 8 l)) = 4%nat) as H4 by (rewrite length_take, length_drop; lia).
  assert (Forall byte (take 8 l)) as B8 by by apply Forall_take.
  assert (Forall byte (take 4 (drop 8 l))) as B4 by by apply Forall_take, Forall_drop.
  split_and!.
  - pose proof (store_load _ B8) as E8. pose proof (store_load _ B4) as E4. rewrite H8 in E8. rewrite H4 in E4.
    by rewrite E8, E4, <- app_assoc, !take_drop.
  - apply load_range in B8. rewrite H8 in B8. apply B8.
  - apply load_range in B8. rewrite H8 in B8. apply B8.
  - apply load_range in B4. rewrite H4 in B4. apply B4.
  - apply load_range in B4. rewrite H4 in B4. apply B4.
Qed.

Lemma store_inj n a b : 0 <= a < 256 ^ Z.of_nat n -> 0 <= b < 256 ^ Z.of_nat n -> store n a = store n b -> a = b.
Proof. intros Ha Hb E. apply (f_equal load) in E. rewrite !load_store, !Z.mod_small in E by done. done. Qed.

(** C11: The decrypter of the unencrypted level accepts a text exactly when its first twelve
    bytes are the hash of the associated data, the rest and the sender, and then returns the
    rest. *)
Theorem null_decryption_accepts_only_its_hash v pn ad ciphertext max d plaintext :
  Forall byte ciphertext ->
  DecryptPacket v pn ad ciphertext max d = Some plaintext <->
  ciphertext = SerializeUint128Short (packet_hash v (peer (decrypter_perspective_ d)) ad plaintext) ++ plaintext /\
  (length plaintext <= max)%nat.
Proof.
  intros Hb. pose proof (packet_hash_range v (peer (decrypter_perspective_ d)) ad plaintext) as Hr.
  change (DecryptPacket v pn ad ciphertext max d) with (null_decrypt v pn ad ciphertext max d).
  destruct (decide (length ciphertext < 12)%nat) as [Hlt|Hge].
  { rewrite null_decrypt_short by done. split; [done|]. intros [E _]. exfalso. apply (f_equal length) in E.
    rewrite serialized, !length_app, !store_length in E by done. lia. }
  destruct (hash_bytes ciphertext Hb) as (a & b & rest & -> & Ha & Hb'); [lia|]. clear Hb Hge.
  rewrite null_decrypt_hash by done. split.
  - destruct (Nat.ltb_spec max (length rest)); [done|]. cbn [orb].
    destruct (Z.eqb_spec (Z.shiftl b 64 + a) (packet_hash v (peer (decrypter_perspective_ d)) ad rest mod 2 ^ 96)) as [E|]; [|done].
    cbn [negb]. intros [= ->]. split; [|done]. f_equal. rewrite serialized by done.
    rewrite <- split_hash in E by done. rewrite !Z.shiftl_mul_pow2 in E by done.
    set (h := packet_hash _ _ _ _) in *. pose proof (Z.mod_pos_bound h (2 ^ 64)). f_equal; f_equal; lia.
  - intros [E Hl]. rewrite serialized in E by done. apply app_inj_1 in E as [E ->]; [|by rewrite !length_app, !store_length].
    apply app_inj_1 in E as [E1 E2]; [|by rewrite !store_length].
    apply store_inj in E1; [|done|apply Z.mod_pos_bound; done]. apply store_inj in E2; [|done|apply Z.mod_pos_bound; done].
    subst a b. rewrite split_hash, Z.eqb_refl by done. by rewrite (proj2 (Nat.ltb_ge _ _)).
Qed.

Lemma null_decryption_accepts_only_its_hash_witness :
  let bytes := [7; 7; 7] in
  let sent := SerializeUint128Short (packet_hash 39 IS_CLIENT [1; 2] bytes) ++ bytes in
  length sent = 15%nat /\ DecryptPacket 39 1 [1; 2] sent 3 {| decrypter_perspective_ := IS_SERVER |} = Some bytes.
Proof.
  split; [done|]. apply null_decryption_accepts_only_its_hash.
  - apply Forall_app. split; [|by repeat constructor]. unfold SerializeUint128Short. apply Forall_app. split; apply store_bytes.
  - split; [done|]. cbn. lia.
Defined.
