(* ===== verification/PacketNumberQueue.v ===== *)
(** The set of packet numbers an acknowledgement carries: [PacketNumberQueue]
    of libquic/net/quic/core/frames/quic_ack_frame.cc, a deque of intervals. *)

From S2P Require Import Prelude IntervalSet.
Import Interval.

(** [const T Length() const] of [Interval] *)
Definition interval_length (x : Interval) : Z :=
  uint64 ((if imin x >=? imax x then imin x else imax x) - imin x).

Module PacketNumberQueue.

(** [QuicDeque<Interval<QuicPacketNumber>> packet_number_deque_] *)
Notation t := (list Interval) (only parsing).

Definition Empty (q : t) : bool := match q with [] => true | _ => false end.

(** [packet_number_deque_.back()] and [.front()] of a deque that is not empty *)
Definition back (q : t) : Interval := List.last q Interval.empty.
Definition front (q : t) : Interval := hd Interval.empty q.

(** [packet_number_deque_.back() = x] and [.front() = x] *)
Definition set_back (x : Interval) (q : t) : t := removelast q ++ [x].
Definition set_front (x : Interval) (q : t) : t := x :: tl q.

(** The loop of [Add] over the indices below [n], from the back. *)
Fixpoint add_loop (packet_number : Z) (n : nat) (q : t) : t :=
  match n with
  | O => q
  | S i =>
      match q !! i with
      | None => q
      | Some packet_interval =>
          if ContainsValue packet_interval packet_number then q
          else if imax packet_interval =? packet_number then
            <[i := mk (imin packet_interval) (uint64 (packet_number + 1))]> q
          else if imin packet_interval =? uint64 (packet_number + 1) then
            let q := <[i := mk packet_number (imax packet_interval)]> q in
            match i with
            | O => q
            | S j =>
                match q !! j with
                | None => q
                | Some previous =>
                    if packet_number =? imax previous
                    then delete i (<[j := mk (imin previous) (imax packet_interval)]> q)
                    else q
                end
            end
          else if imax packet_interval <? uint64 (packet_number + 1) then
            take (S i) q ++ mk packet_number (uint64 (packet_number + 1)) :: drop (S i) q
          else add_loop packet_number i q
      end
  end.

(** [void Add(QuicPacketNumber packet_number)] *)
Definition Add (packet_number : Z) (q : t) : t :=
  let single := mk packet_number (uint64 (packet_number + 1)) in
  if Empty q then [single]
  else if imax (back q) =? packet_number then
    set_back (mk (imin (back q)) (uint64 (packet_number + 1))) q
  else if imax (back q) <? packet_number then q ++ [single]
  else if imin (front q) >? uint64 (packet_number + 1) then single :: q
  else if imin (front q) =? uint64 (packet_number + 1) then
    set_front (mk packet_number (imax (front q))) q
  else add_loop packet_number (length q) q.

(** [void AddRange(QuicPacketNumber lower, QuicPacketNumber higher)] *)
Definition AddRange (lower higher : Z) (q : t) : t :=
  if lower >=? higher then q
  else if Empty q then [mk lower higher]
  else if imax (back q) =? lower then set_back (mk (imin (back q)) higher) q
  else if imax (back q) <? lower then q ++ [mk lower higher]
  else if imin (front q) =? higher then set_front (mk lower (imax (front q))) q
  else if imin (front q) >? higher then mk lower higher :: q
  else q.

Definition Min (q : t) : Z := imin (front q).
Definition Max (q : t) : Z := uint64 (imax (back q) - 1).

(** The loop of [RemoveUpTo]. *)
Fixpoint remove_loop (higher : Z) (q : t) : t :=
  match q with
  | [] => []
  | front :: rest =>
      if imax front <? higher then remove_loop higher rest
      else if (imin front <? higher) && (imax front >=? higher) then
        if imax front =? higher then rest else mk higher (imax front) :: rest
      else q
  end.

(** [bool RemoveUpTo(QuicPacketNumber higher)] *)
Definition RemoveUpTo (higher : Z) (q : t) : bool * t :=
  if Empty q then (false, q)
  else
    let old_min := Min q in
    let q := remove_loop higher q in
    (Empty q || negb (old_min =? Min q), q).

Definition RemoveSmallestInterval (q : t) : t := tl q.
Definition Clear (_ : t) : t := [].

(** [bool Contains(QuicPacketNumber packet_number) const] *)
Definition Contains (packet_number : Z) (q : t) : bool :=
  if Empty q then false
  else if (imin (front q) >? packet_number) || (imax (back q) <=? packet_number) then false
  else existsb (fun interval => ContainsValue interval packet_number) q.

(** [size_t NumPacketsSlow() const], which counts in an [int] *)
Definition NumPacketsSlow (q : t) : Z :=
  uint64 (fold_left (fun n x => int32 (uint64 (n + interval_length x))) q 0).

Definition NumIntervals (q : t) : Z := Z.of_nat (length q).
Definition LastIntervalLength (q : t) : Z := interval_length (back q).

End PacketNumberQueue.
