(* ===== verification/PacketNumbers.v ===== *)
(** [PacketNumberQueue] keeps a set of packet numbers: every operation is the
    one of sets, and the intervals stay sorted, disjoint and not adjacent. *)

From S2P Require Import Prelude IntervalSet Intervals PacketNumberQueue.
Import Interval.

(** ** The invariant *)

(** Packet numbers, with the bound of their interval, are 64-bit numbers. *)
Definition number (p : Z) : Prop := 0 <= p < 2 ^ 64 - 1.
Definition numbers (x : Interval) : Prop := 0 <= imin x /\ imax x < 2 ^ 64.

Record wf (q : PacketNumberQueue.t) : Prop := {
  wf_valid : valid q;
  wf_numbers : Forall numbers q
}.

Lemma wf_nil : wf [].
Proof. split; [apply valid_nil|constructor]. Qed.

Lemma valid_mid l x r :
  valid (l ++ x :: r) <->
  valid l /\ valid r /\ nonempty x /\ Forall (fun y => before y x) l /\ Forall (before x) r.
Proof.
  rewrite valid_app, valid_cons, !Forall_forall. split.
  - intros (Hl & (Hx & Hr & Hv) & Hc). split_and!; auto. intros y Hy. apply Hc; [done|left].
  - intros (Hl & Hv & Hx & Hb & Hr). split_and!; auto. intros y z Hy [->|Hz]%elem_of_cons; [auto|].
    specialize (Hb y Hy). specialize (Hr z Hz). unfold before, nonempty in *. lia.
Qed.

Lemma wf_mid l x r :
  wf (l ++ x :: r) <->
  wf l /\ wf r /\ nonempty x /\ numbers x /\ Forall (fun y => before y x) l /\ Forall (before x) r.
Proof.
  split.
  - intros [(?&?&?&?&?)%valid_mid [? [??]%Forall_cons]%Forall_app]. by split_and!.
  - intros ([] & [] & ? & ? & ? & ?). split; [by apply valid_mid|]. apply Forall_app. by split; [|constructor].
Qed.

Lemma wf_cons x r : wf (x :: r) <-> wf r /\ nonempty x /\ numbers x /\ Forall (before x) r.
Proof. rewrite (wf_mid [] x r). split; [tauto|]. intros (?&?&?&?). split_and!; auto using wf_nil. Qed.

Lemma wf_snoc l x : wf (l ++ [x]) <-> wf l /\ nonempty x /\ numbers x /\ Forall (fun y => before y x) l.
Proof. rewrite wf_mid. split; [tauto|]. intros (?&?&?&?). split_and!; auto using wf_nil. Qed.

(** What lies before an interval lies before a later one, and likewise after. *)
Lemma before_weaken l x y : Forall (fun z => before z x) l -> imin x <= imin y -> Forall (fun z => before z y) l.
Proof. intros H Hm. eapply Forall_impl; [exact H|]. unfold before. intros z. lia. Qed.

Lemma after_weaken r x y : Forall (before x) r -> imax y <= imax x -> Forall (before y) r.
Proof. intros H Hm. eapply Forall_impl; [exact H|]. unfold before. intros z. lia. Qed.

(** Solves what is left of an interval operation: arithmetic on the ends. *)
Ltac ends := unfold before, nonempty, numbers, number, within, mk in *; simpl in *; lia.

(** The same for membership in a list whose intervals are spelt out. *)
Ltac members :=
  intros; rewrite ?member_app, ?member_cons, ?member_nil_False;
  unfold before, nonempty, numbers, number, within, mk in *; simpl in *; intuition lia.

(** ** The deque *)

Lemma back_snoc l x : PacketNumberQueue.back (l ++ [x]) = x.
Proof. apply List.last_last. Qed.

Lemma set_back_snoc l x y : PacketNumberQueue.set_back y (l ++ [x]) = l ++ [y].
Proof. unfold PacketNumberQueue.set_back. by rewrite removelast_last. Qed.

Lemma empty_snoc l x : PacketNumberQueue.Empty (l ++ [x]) = false.
Proof. by destruct l. Qed.

Lemma lookup_mid {A} (l : list A) x r : (l ++ x :: r) !! length l = Some x.
Proof. rewrite lookup_app_r, Nat.sub_diag by lia. done. Qed.

Lemma insert_mid {A} (l : list A) x y r : <[length l := y]> (l ++ x :: r) = l ++ y :: r.
Proof. rewrite insert_app_r_alt, Nat.sub_diag by lia. done. Qed.

Lemma delete_mid {A} (l : list A) x r : delete (length l) (l ++ x :: r) = l ++ r.
Proof. induction l; simpl; congruence. Qed.

Lemma contains_value x p : ContainsValue x p = true <-> within p x.
Proof. unfold ContainsValue, within. rewrite andb_true_iff, Z.leb_le, Z.gtb_lt. lia. Qed.

(** ** [Add] *)

(** Every interval from the [n]-th on lies beyond [p + 1]; some interval below
    starts at [p] or lower. *)
Lemma add_loop_spec p : number p -> forall l r,
  wf (l ++ r) -> Forall (fun y => p + 1 < imin y) r -> (exists x, x ∈ l /\ imin x <= p) ->
  let q := PacketNumberQueue.add_loop p (length l) (l ++ r) in
  wf q /\ forall v, member v q <-> v = p \/ member v (l ++ r).
Proof.
  intros Hp l. induction l as [|x l IH] using rev_ind; intros r Hwf Hr Hlow; [set_solver|].
  rewrite <- app_assoc in *. simpl in *. rewrite length_app, Nat.add_1_r. simpl.
  rewrite lookup_mid, uint64_small by ends.
  pose proof Hwf as (Hl & Hwr & Hx & Hn & Hbl & Har)%wf_mid.
  destruct (ContainsValue x p) eqn:Hc.
  { apply contains_value in Hc. split; [done|]. intros v. split; [by right|]. intros [->|]; [|done].
    apply member_app. right. apply member_cons. by left. }
  assert (~ within p x) as Hnot by (rewrite <- contains_value; congruence).
  destruct (Z.eqb_spec (imax x) p) as [He|He].
  { rewrite insert_mid. split; [|members]. apply wf_mid. split_and!; auto; ends. }
  destruct (Z.eqb_spec (imin x) (p + 1)) as [Hm|Hm].
  { rewrite insert_mid. destruct l as [|y l _] using rev_ind; simpl.
    { split; [|members]. apply (wf_mid []). split_and!; auto; ends. }
    rewrite length_app, Nat.add_1_r, <- app_assoc. simpl. rewrite lookup_mid.
    pose proof Hl as (Hl' & Hy & Hny & Hby)%wf_snoc.
    apply Forall_app in Hbl as [Hbl Hyx]. rewrite Forall_singleton in Hyx.
    destruct (Z.eqb_spec p (imax y)) as [Hj|Hj].
    - rewrite insert_mid, (cons_middle _ l), app_assoc.
      replace (S (length l)) with (length (l ++ [mk (imin y) (imax x)])) by (rewrite length_app; simpl; lia).
      rewrite delete_mid, <- app_assoc. split; [|members].
      simpl. apply wf_mid. split_and!; auto; ends.
    - split; [|members]. rewrite (cons_middle y l), app_assoc. apply wf_mid.
      split_and!; auto; try ends. apply Forall_app. split; [|constructor; [ends|constructor]].
      eapply Forall_impl; [exact Hby|]. intros z Hz. ends. }
  destruct (Z.ltb_spec (imax x) (p + 1)) as [Hlt|Hge].
  { replace (S (length l)) with (length (l ++ [x])) by (rewrite length_app; simpl; lia).
    rewrite (cons_middle x l r), app_assoc, take_app_length, drop_app_length.
    split; [|members]. apply wf_mid. split_and!; auto; try ends.
    - by apply wf_snoc.
    - apply Forall_app. split; [|constructor; [ends|constructor]].
      eapply Forall_impl; [exact Hbl|]. intros z Hz. ends. }
  apply IH; [done| |].
  - constructor; [ends|done].
  - destruct Hlow as (y & [Hy|Hy]%elem_of_app & Hle); [by exists y|].
    apply list_elem_of_singleton in Hy as ->. ends.
Qed.

Lemma front_least x l y : wf (x :: l) -> y ∈ x :: l -> imin x <= imin y.
Proof.
  intros (Hl & Hx & _ & Hb)%wf_cons [->|Hy]%elem_of_cons; [done|].
  rewrite Forall_forall in Hb. specialize (Hb y Hy). ends.
Qed.

Lemma queue_Add_spec p q : wf q -> number p ->
  wf (PacketNumberQueue.Add p q) /\ forall v, member v (PacketNumberQueue.Add p q) <-> v = p \/ member v q.
Proof.
  intros Hwf Hp. unfold PacketNumberQueue.Add. rewrite uint64_small by ends.
  destruct q as [|x l _] using rev_ind.
  { simpl. split; [|members]. apply (wf_snoc []). split_and!; auto using wf_nil; ends. }
  rewrite empty_snoc, back_snoc, set_back_snoc.
  pose proof Hwf as (Hl & Hx & Hn & Hb)%wf_snoc.
  destruct (Z.eqb_spec (imax x) p) as [He|He].
  { split; [|members]. apply wf_snoc. split_and!; auto; ends. }
  destruct (Z.ltb_spec (imax x) p) as [Hlt|Hge].
  { split; [|members]. apply wf_snoc. split_and!; auto; try ends. apply Forall_app.
    split; [|constructor; [ends|constructor]]. eapply Forall_impl; [exact Hb|]. intros y Hy. ends. }
  destruct (l ++ [x]) as [|y r] eqn:Hq; [by destruct l|]. unfold PacketNumberQueue.front, PacketNumberQueue.set_front.
  simpl hd. simpl tl. clear Hl Hb. pose proof Hwf as (Hr & Hy & Hny & Ha)%wf_cons.
  rewrite Z.gtb_ltb. destruct (Z.ltb_spec (p + 1) (imin y)) as [Hlt|Hle].
  { split; [|members]. apply wf_cons. split_and!; auto; try ends. constructor; [ends|].
    eapply Forall_impl; [exact Ha|]. intros z Hz. ends. }
  destruct (Z.eqb_spec (imin y) (p + 1)) as [Hm|Hm].
  { split; [|members]. apply wf_cons. split_and!; auto; ends. }
  pose proof (add_loop_spec p Hp (y :: r) []) as Hadd. rewrite app_nil_r in Hadd.
  apply Hadd; [done..|]. exists y. split; [left|lia].
Qed.

(** ** [AddRange] *)

(** A range above or below all that is in the queue; it may touch it. *)
Definition outside (lower higher : Z) (q : PacketNumberQueue.t) : Prop :=
  Forall (fun x => imax x <= lower) q \/ Forall (fun x => higher <= imin x) q.

Lemma AddRange_spec lower higher q :
  wf q -> 0 <= lower -> higher < 2 ^ 64 -> outside lower higher q ->
  wf (PacketNumberQueue.AddRange lower higher q) /\
  forall v, member v (PacketNumberQueue.AddRange lower higher q) <-> lower <= v < higher \/ member v q.
Proof.
  intros Hwf Hlo Hhi Hout. unfold PacketNumberQueue.AddRange. rewrite Z.geb_leb.
  destruct (Z.leb_spec higher lower); [split; [done|intros v; intuition lia]|].
  destruct q as [|x l _] using rev_ind.
  { simpl. split; [|members]. apply (wf_snoc []). split_and!; auto using wf_nil; ends. }
  rewrite empty_snoc, back_snoc, set_back_snoc.
  pose proof Hwf as (Hl & Hx & Hn & Hb)%wf_snoc.
  destruct (Z.eqb_spec (imax x) lower) as [He|He].
  { split; [|members]. apply wf_snoc. split_and!; auto; ends. }
  destruct (Z.ltb_spec (imax x) lower) as [Hlt|Hge].
  { split; [|members]. apply wf_snoc. split_and!; auto; try ends. apply Forall_app.
    split; [|constructor; [ends|constructor]]. eapply Forall_impl; [exact Hb|]. intros y Hy. ends. }
  destruct Hout as [[_ Hout]%Forall_app|Hout]; [rewrite Forall_singleton in Hout; lia|].
  destruct (l ++ [x]) as [|y r] eqn:Hq; [by destruct l|]. unfold PacketNumberQueue.front, PacketNumberQueue.set_front.
  simpl hd. simpl tl. clear Hl Hb. pose proof Hwf as (Hr & Hy & Hny & Ha)%wf_cons.
  apply Forall_cons in Hout as [Hy' _].
  destruct (Z.eqb_spec (imin y) higher) as [Hm|Hm].
  { split; [|members]. apply wf_cons. split_and!; auto; ends. }
  rewrite Z.gtb_ltb. destruct (Z.ltb_spec higher (imin y)) as [Hlt|Hle]; [|lia].
  split; [|members]. apply wf_cons. split_and!; auto; try ends. constructor; [ends|].
  eapply Forall_impl; [exact Ha|]. intros z Hz. ends.
Qed.

(** ** [RemoveUpTo] *)

Lemma remove_loop_spec h q : wf q ->
  wf (PacketNumberQueue.remove_loop h q) /\
  forall v, member v (PacketNumberQueue.remove_loop h q) <-> h <= v /\ member v q.
Proof.
  induction q as [|x r IH]; intros Hwf; simpl.
  { split; [done|]. intros v. rewrite member_nil_False. tauto. }
  pose proof Hwf as (Hr & Hx & Hn & Ha)%wf_cons.
  assert (forall v, member v r -> imax x < v) as Hafter.
  { intros v (y & Hy & Hw). rewrite Forall_forall in Ha. specialize (Ha y Hy). ends. }
  destruct (Z.ltb_spec (imax x) h) as [Hlt|Hge].
  { destruct (IH Hr) as [? Hm]. split; [done|]. intros v. rewrite Hm, member_cons. unfold within.
    intuition lia. }
  destruct (Z.ltb_spec (imin x) h) as [Hlt'|Hge']; simpl.
  - rewrite Z.geb_leb. destruct (Z.leb_spec h (imax x)); [|lia].
    destruct (Z.eqb_spec (imax x) h) as [He|He].
    + split; [done|]. intros v. specialize (Hafter v). rewrite member_cons. unfold within. intuition lia.
    + split; [apply wf_cons; split_and!; auto; ends|]. intros v. specialize (Hafter v).
      rewrite !member_cons. unfold within. simpl. intuition lia.
  - split; [done|]. intros v. specialize (Hafter v). rewrite member_cons. unfold within. intuition lia.
Qed.

Lemma member_front x r : wf (x :: r) -> member (imin x) (x :: r).
Proof. intros (_ & Hx & _)%wf_cons. apply member_cons. left. ends. Qed.

Lemma member_low x r v : wf (x :: r) -> member v (x :: r) -> imin x <= v.
Proof. intros Hwf (y & Hy & Hw). pose proof (front_least x r y Hwf Hy). ends. Qed.

(** It answers whether anything was below [h]. *)
Lemma RemoveUpTo_spec h q : wf q ->
  let '(removed, q') := PacketNumberQueue.RemoveUpTo h q in
  wf q' /\ (forall v, member v q' <-> h <= v /\ member v q) /\
  (removed = true <-> exists v, member v q /\ v < h).
Proof.
  intros Hwf. unfold PacketNumberQueue.RemoveUpTo.
  destruct q as [|x r]; cbv beta iota zeta delta [PacketNumberQueue.Empty].
  { split; [done|]. split; [intros v; rewrite member_nil_False; tauto|].
    split; [done|]. intros (v & []%member_nil_False & _). }
  destruct (remove_loop_spec h (x :: r) Hwf) as [Hwf' Hm].
  generalize dependent (PacketNumberQueue.remove_loop h (x :: r)). intros q' Hwf' Hm.
  split; [done|]. split; [done|]. pose proof (member_front _ _ Hwf) as Hx.
  destruct q' as [|y r']; simpl.
  - split; [|done]. intros _. exists (imin x). split; [done|]. specialize (Hm (imin x)).
    rewrite member_nil_False in Hm. apply Z.nle_gt. tauto.
  - unfold PacketNumberQueue.Min, PacketNumberQueue.front. simpl.
    pose proof (proj1 (Hm _) (member_front _ _ Hwf')) as [Hhy Hy].
    pose proof (member_low _ _ _ Hwf Hy) as Hle. rewrite negb_true_iff, Z.eqb_neq. split.
    + intros Hne. exists (imin x). split; [done|]. apply Z.nle_gt. intros Hh.
      pose proof (member_low _ _ _ Hwf' (proj2 (Hm _) (conj Hh Hx))). lia.
    + intros (v & Hv & Hlt) He. pose proof (member_low _ _ _ Hwf Hv). lia.
Qed.

(** ** Queries *)

Lemma member_high l x v : wf (l ++ [x]) -> member v (l ++ [x]) -> v < imax x.
Proof.
  intros (_ & Hx & _ & Hb)%wf_snoc (y & [Hy|Hy]%elem_of_app & Hw).
  - rewrite Forall_forall in Hb. specialize (Hb y Hy). ends.
  - apply list_elem_of_singleton in Hy as ->. ends.
Qed.

Lemma Contains_spec v q : wf q -> PacketNumberQueue.Contains v q = true <-> member v q.
Proof.
  intros Hwf. unfold PacketNumberQueue.Contains.
  destruct q as [|y r] eqn:Hq; [by rewrite member_nil_False|]. rewrite <- Hq in *. simpl.
  assert (PacketNumberQueue.Empty q = false) as -> by by rewrite Hq.
  assert (existsb (fun i => ContainsValue i v) q = true <-> member v q) as Hex.
  { rewrite existsb_exists. unfold member. setoid_rewrite contains_value. setoid_rewrite list_elem_of_In. done. }
  destruct (_ || _) eqn:Hout; [|done]. split; [done|]. intros Hm. exfalso.
  apply orb_true_iff in Hout as [Hout|Hout].
  - rewrite Z.gtb_lt in Hout. subst q. pose proof (member_low _ _ _ Hwf Hm). simpl in Hout. lia.
  - apply Z.leb_le in Hout. destruct q as [|z l _] using rev_ind; [done|].
    rewrite back_snoc in Hout. pose proof (member_high _ _ _ Hwf Hm). lia.
Qed.

Lemma Min_spec q : wf q -> PacketNumberQueue.Empty q = false ->
  member (PacketNumberQueue.Min q) q /\ forall v, member v q -> PacketNumberQueue.Min q <= v.
Proof.
  intros Hwf He. destruct q as [|x r]; [done|]. split; [by apply member_front|].
  intros v. by apply member_low.
Qed.

Lemma Max_spec q : wf q -> PacketNumberQueue.Empty q = false ->
  member (PacketNumberQueue.Max q) q /\ forall v, member v q -> v <= PacketNumberQueue.Max q.
Proof.
  intros Hwf He. destruct q as [|x l _] using rev_ind; [done|].
  unfold PacketNumberQueue.Max. rewrite back_snoc. pose proof Hwf as (_ & Hx & Hn & _)%wf_snoc.
  rewrite uint64_small by ends. split.
  - apply member_app. right. apply member_cons. left. ends.
  - intros v Hv. pose proof (member_high _ _ _ Hwf Hv). lia.
Qed.

(** ** Runs *)

Inductive op : Type :=
| OAdd (packet_number : Z)
| OAddRange (lower higher : Z)
| ORemoveUpTo (higher : Z)
| OClear.

Definition perform (o : op) (q : PacketNumberQueue.t) : PacketNumberQueue.t :=
  match o with
  | OAdd p => PacketNumberQueue.Add p q
  | OAddRange lower higher => PacketNumberQueue.AddRange lower higher q
  | ORemoveUpTo higher => snd (PacketNumberQueue.RemoveUpTo higher q)
  | OClear => PacketNumberQueue.Clear q
  end.

(** The same operations on a set, given by its elements. *)
Definition perform_set (o : op) (S : Z -> Prop) : Z -> Prop :=
  match o with
  | OAdd p => fun v => v = p \/ S v
  | OAddRange lower higher => fun v => lower <= v < higher \/ S v
  | ORemoveUpTo higher => fun v => higher <= v /\ S v
  | OClear => fun _ => False
  end.

(** Arguments are packet numbers, and a range is added above or below all that
    is in the set, as the class demands. *)
Definition legal (o : op) (S : Z -> Prop) : Prop :=
  match o with
  | OAdd p => number p
  | OAddRange lower higher =>
      0 <= lower /\ higher < 2 ^ 64 /\ ((forall v, S v -> v < lower) \/ (forall v, S v -> higher <= v))
  | ORemoveUpTo _ | OClear => True
  end.

Fixpoint legal_run (l : list op) (S : Z -> Prop) : Prop :=
  match l with
  | [] => True
  | o :: l => legal o S /\ legal_run l (perform_set o S)
  end.

Definition run (l : list op) (q : PacketNumberQueue.t) : PacketNumberQueue.t :=
  fold_left (fun q o => perform o q) l q.
Definition run_set (l : list op) (S : Z -> Prop) : Z -> Prop :=
  fold_left (fun S o => perform_set o S) l S.

Lemma outside_set lower higher q : wf q ->
  (forall v, member v q -> v < lower) \/ (forall v, member v q -> higher <= v) -> outside lower higher q.
Proof.
  intros [Hv Hn] [H|H]; [left|right]; apply Forall_forall; intros x Hx;
    destruct Hv as [_ Hne]; rewrite Forall_forall in Hne; specialize (Hne x Hx).
  - enough (imax x - 1 < lower) by lia. apply H. exists x. split; [done|ends].
  - apply H. exists x. split; [done|ends].
Qed.

Lemma perform_spec o q S : wf q -> (forall v, member v q <-> S v) -> legal o S ->
  wf (perform o q) /\ forall v, member v (perform o q) <-> perform_set o S v.
Proof.
  intros Hwf HS Hl. destruct o as [p|lo hi|h|]; simpl in *.
  - destruct (queue_Add_spec p q Hwf Hl) as [? Hm]. split; [done|]. intros v. by rewrite Hm, HS.
  - destruct Hl as (Hlo & Hhi & Hout). destruct (AddRange_spec lo hi q) as [? Hm]; [done..| |].
    + apply outside_set; [done|]. setoid_rewrite HS. done.
    + split; [done|]. intros v. by rewrite Hm, HS.
  - pose proof (RemoveUpTo_spec h q Hwf) as Hr. destruct (PacketNumberQueue.RemoveUpTo h q) as [b q'].
    destruct Hr as (? & Hm & _). split; [done|]. intros v. simpl. by rewrite Hm, HS.
  - split; [apply wf_nil|]. intros v. apply member_nil_False.
Qed.

Lemma run_spec l : forall q S, wf q -> (forall v, member v q <-> S v) -> legal_run l S ->
  wf (run l q) /\ forall v, member v (run l q) <-> run_set l S v.
Proof.
  induction l as [|o l IH]; intros q S Hwf HS Hl; [done|]. destruct Hl as [Ho Hl].
  destruct (perform_spec o q S Hwf HS Ho) as [Hwf' HS']. by apply IH.
Qed.

(** C20: Over any sequence of operations that adds ranges only above or below what is there,
    the deque of intervals of a packet number queue is sorted, disjoint and with gaps and
    stands for the set of packet numbers the operations describe: membership, emptiness,
    minimum, maximum and what a removal answers are those of the set. *)
Theorem a_packet_number_queue_is_a_set l : legal_run l (fun _ => False) ->
  let q := run l [] in
  let S := run_set l (fun _ => False) in
  valid q /\
  (forall v, PacketNumberQueue.Contains v q = true <-> S v) /\
  (PacketNumberQueue.Empty q = true <-> forall v, ~ S v) /\
  (PacketNumberQueue.Empty q = false ->
   S (PacketNumberQueue.Min q) /\ S (PacketNumberQueue.Max q) /\
   forall v, S v -> PacketNumberQueue.Min q <= v <= PacketNumberQueue.Max q) /\
  (forall h, fst (PacketNumberQueue.RemoveUpTo h q) = true <-> exists v, S v /\ v < h).
Proof.
  intros Hl q S. destruct (run_spec l [] (fun _ => False) wf_nil) as [Hwf Hm]; [|done|].
  { intros v. apply member_nil_False. }
  fold q in Hwf, Hm. fold S in Hm. clearbody q S.
  split; [apply Hwf|]. split; [intros v; by rewrite Contains_spec, Hm|].
  split; [|split].
  - setoid_rewrite <- Hm. destruct q as [|x r]; simpl.
    + split; [|done]. intros _ v. apply member_nil.
    + split; [done|]. intros H. destruct (H (imin x)). by apply member_front.
  - intros He. setoid_rewrite <- Hm. destruct (Min_spec q Hwf He), (Max_spec q Hwf He). auto.
  - intros h. pose proof (RemoveUpTo_spec h q Hwf) as Hr.
    destruct (PacketNumberQueue.RemoveUpTo h q) as [b q']. destruct Hr as (_ & _ & Hb). simpl.
    rewrite Hb. by setoid_rewrite Hm.
Qed.

Lemma a_packet_number_queue_is_a_set_witness :
  let q := run [OAdd 7; OAdd 5; OAdd 6; OAddRange 9 12; OAdd 3; ORemoveUpTo 4; OAddRange 1 3] [] in
  q = [mk 1 3; mk 5 8; mk 9 12] /\ valid q.
Proof.
  split; [reflexivity|].
  apply (a_packet_number_queue_is_a_set [OAdd 7; OAdd 5; OAdd 6; OAddRange 9 12; OAdd 3; ORemoveUpTo 4; OAddRange 1 3]).
  unfold number. simpl. unfold number. intuition lia.
Defined.
