(* ===== verification/Framer.v ===== *)
(** The framer, [QuicFramer] of libquic/net/quic/core/quic_framer.cc: frames and
    packet headers to bytes and back, for the wire formats the supported
    versions use.  Operations that read act on the framer and a reader, those
    that write on the framer, the producer of stream data and a writer.  The
    visitor is an interface: its calls are recorded in order, and its answers
    are a function of the calls so far. *)

From stdpp Require Import pretty.
From S2P Require Import Prelude World QuicData IntervalSet Crypter PacketNumberQueue.
Import Interval.

(** [if (!m) return false; k] of a function that returns a success flag *)
Definition and_then {S} (m k : M S bool) : M S bool :=
  ok ← m; if ok : bool then k else mret false.
Notation "m &; k" := (and_then m k) (at level 100, k at level 200, right associativity).

(** The same where success also has a result. *)
Definition bind_some {S A B} (m : M S (option A)) (k : A -> M S (option B)) : M S (option B) :=
  o ← m; match o with None => mret None | Some x => k x end.
Notation "x ←? m ; k" := (bind_some m (fun x => k)) (at level 20, m at level 100, k at level 200, right associativity).

(** Signed 64-bit arithmetic, undefined where it overflows. *)
Definition int64_op {S} (x : Z) : M S Z :=
  if (- 2 ^ 63 <=? x) && (x <? 2 ^ 63) then mret x else crashed IntOverflow.

(** ** Frames *)

(** [struct QuicStreamFrame]; [data_buffer] points to [data_length] bytes or is
    null. *)
Record QuicStreamFrame : Type := {
  stream_id : Z;
  fin : bool;
  data_length : Z;
  data_buffer : option (list Z);
  offset : Z
}.

(** [struct QuicAckFrame]; times are in microseconds, an infinite delta is the
    greatest of its type. *)
Record QuicAckFrame : Type := {
  largest_acked : Z;
  ack_delay_time : Z;
  received_packet_times : list (Z * Z);
  packets : list Interval
}.

Definition kQuicInfiniteTimeUs : Z := 2 ^ 63 - 1.

(** [QuicAckFrame::QuicAckFrame()] *)
Definition QuicAckFrame_init : QuicAckFrame :=
  {| largest_acked := 0; ack_delay_time := kQuicInfiniteTimeUs; received_packet_times := []; packets := [] |}.

(** [struct QuicFrame]: the frame of its type with the control frame id the
    sender gave it. *)
Inductive QuicFrame : Type :=
| PADDING_FRAME (num_padding_bytes : Z)
| RST_STREAM_FRAME (control_frame_id stream_id error_code byte_offset : Z)
| CONNECTION_CLOSE_FRAME (error_code : Z) (error_details : list Z)
| GOAWAY_FRAME (control_frame_id error_code last_good_stream_id : Z) (reason_phrase : list Z)
| WINDOW_UPDATE_FRAME (control_frame_id stream_id byte_offset : Z)
| BLOCKED_FRAME (control_frame_id stream_id : Z)
| STOP_WAITING_FRAME (least_unacked : Z)
| PING_FRAME (control_frame_id : Z)
| STREAM_FRAME (f : QuicStreamFrame)
| ACK_FRAME (f : QuicAckFrame)
| MTU_DISCOVERY_FRAME.

(** [enum QuicFrameType] *)
Definition type (frame : QuicFrame) : Z :=
  match frame with
  | PADDING_FRAME _ => 0
  | RST_STREAM_FRAME _ _ _ _ => 1
  | CONNECTION_CLOSE_FRAME _ _ => 2
  | GOAWAY_FRAME _ _ _ _ => 3
  | WINDOW_UPDATE_FRAME _ _ _ => 4
  | BLOCKED_FRAME _ _ => 5
  | STOP_WAITING_FRAME _ => 6
  | PING_FRAME _ => 7
  | STREAM_FRAME _ => 8
  | ACK_FRAME _ => 9
  | MTU_DISCOVERY_FRAME => 10
  end.

(** A frame that was received carries [kInvalidControlFrameId]. *)
Definition kInvalidControlFrameId : Z := 0.

(** ** Versions and packet headers *)

(** [enum HandshakeProtocol] *)
Inductive HandshakeProtocol : Type := PROTOCOL_UNSUPPORTED | PROTOCOL_QUIC_CRYPTO | PROTOCOL_TLS1_3.

#[export] Instance HandshakeProtocol_dec : EqDecision HandshakeProtocol.
Proof. solve_decision. Defined.

(** [struct ParsedQuicVersion]; a [QuicTransportVersion] is its number. *)
Record ParsedQuicVersion : Type := { handshake_protocol : HandshakeProtocol; transport_version : Z }.

#[export] Instance ParsedQuicVersion_dec : EqDecision ParsedQuicVersion.
Proof. solve_decision. Defined.

Definition unsupported_version : ParsedQuicVersion :=
  {| handshake_protocol := PROTOCOL_UNSUPPORTED; transport_version := 0 |}.

(** [struct QuicPacketHeader]; the nonce is the 32 bytes it points to. *)
Record QuicPacketHeader : Type := {
  connection_id : Z;
  connection_id_length : Z;
  reset_flag : bool;
  version_flag : bool;
  packet_number_length : Z;
  version : ParsedQuicVersion;
  nonce : option (list Z);
  packet_number : Z
}.

(** ** The framer *)

(** A call of [QuicFramerVisitorInterface]. *)
Inductive Visit : Type :=
| OnPacket
| OnUnauthenticatedPublicHeader (header : QuicPacketHeader)
| OnProtocolVersionMismatch (received_version : ParsedQuicVersion)
| OnVersionNegotiationPacket (connection_id : Z) (versions : list ParsedQuicVersion)
| OnPublicResetPacket (connection_id nonce_proof : Z) (client_address : option (list Z * Z))
| OnDecryptedPacket (level : EncryptionLevel)
| OnError (error : Z)
| OnUnauthenticatedHeader (header : QuicPacketHeader)
| OnPacketHeader (header : QuicPacketHeader)
| OnPacketComplete
| OnStreamFrame (f : QuicStreamFrame)
| OnAckFrame (f : QuicAckFrame)
| OnAckFrameStart (largest_acked ack_delay_time : Z)
| OnAckRange (start end_ : Z) (last_range : bool)
| OnStopWaitingFrame (least_unacked : Z)
| OnPaddingFrame (num_padding_bytes : Z)
| OnPingFrame (control_frame_id : Z)
| OnRstStreamFrame (control_frame_id stream_id error_code byte_offset : Z)
| OnConnectionCloseFrame (error_code : Z) (error_details : list Z)
| OnGoAwayFrame (control_frame_id error_code last_good_stream_id : Z) (reason_phrase : list Z)
| OnWindowUpdateFrame (control_frame_id stream_id byte_offset : Z)
| OnBlockedFrame (control_frame_id stream_id : Z).

(** The answer to a call after the calls so far. *)
Class FramerVisitor : Type := answer : list Visit -> Visit -> bool.

Module Framer.

(** [class QuicFramer], with the calls of its visitor. *)
Record Framer : Type := {
  version_ : ParsedQuicVersion;
  perspective_ : Perspective;
  use_incremental_ack_processing_ : bool;
  validate_flags_ : bool;
  error_ : Z;
  detailed_error_ : string;
  creation_time_ : Z;
  last_timestamp_ : Z;
  largest_packet_number_ : Z;
  last_serialized_connection_id_ : Z;
  last_version_label_ : Z;
  visits : list Visit
}.

(** [QuicFramer(supported_versions, creation_time, perspective)] *)
Definition init (v : ParsedQuicVersion) (creation_time : Z) (p : Perspective) (incremental : bool) : Framer :=
  {| version_ := v; perspective_ := p; use_incremental_ack_processing_ := incremental;
     validate_flags_ := true; error_ := 0; detailed_error_ := EmptyString;
     creation_time_ := creation_time; last_timestamp_ := 0; largest_packet_number_ := 0;
     last_serialized_connection_id_ := 0; last_version_label_ := 0; visits := [] |}.

Section Setters.
Variable f : Framer.

Definition with_error (e : Z) (d : string) : Framer :=
  {| version_ := version_ f; perspective_ := perspective_ f;
     use_incremental_ack_processing_ := use_incremental_ack_processing_ f;
     validate_flags_ := validate_flags_ f; error_ := e; detailed_error_ := d;
     creation_time_ := creation_time_ f; last_timestamp_ := last_timestamp_ f;
     largest_packet_number_ := largest_packet_number_ f;
     last_serialized_connection_id_ := last_serialized_connection_id_ f;
     last_version_label_ := last_version_label_ f; visits := visits f |}.

Definition with_version (v : ParsedQuicVersion) : Framer :=
  {| version_ := v; perspective_ := perspective_ f;
     use_incremental_ack_processing_ := use_incremental_ack_processing_ f;
     validate_flags_ := validate_flags_ f; error_ := error_ f; detailed_error_ := detailed_error_ f;
     creation_time_ := creation_time_ f; last_timestamp_ := last_timestamp_ f;
     largest_packet_number_ := largest_packet_number_ f;
     last_serialized_connection_id_ := last_serialized_connection_id_ f;
     last_version_label_ := last_version_label_ f; visits := visits f |}.

Definition with_visits (l : list Visit) : Framer :=
  {| version_ := version_ f; perspective_ := perspective_ f;
     use_incremental_ack_processing_ := use_incremental_ack_processing_ f;
     validate_flags_ := validate_flags_ f; error_ := error_ f; detailed_error_ := detailed_error_ f;
     creation_time_ := creation_time_ f; last_timestamp_ := last_timestamp_ f;
     largest_packet_number_ := largest_packet_number_ f;
     last_serialized_connection_id_ := last_serialized_connection_id_ f;
     last_version_label_ := last_version_label_ f; visits := l |}.

Definition with_timestamp (t : Z) : Framer :=
  {| version_ := version_ f; perspective_ := perspective_ f;
     use_incremental_ack_processing_ := use_incremental_ack_processing_ f;
     validate_flags_ := validate_flags_ f; error_ := error_ f; detailed_error_ := detailed_error_ f;
     creation_time_ := creation_time_ f; last_timestamp_ := t;
     largest_packet_number_ := largest_packet_number_ f;
     last_serialized_connection_id_ := last_serialized_connection_id_ f;
     last_version_label_ := last_version_label_ f; visits := visits f |}.

Definition with_numbers (largest last_id last_label : Z) : Framer :=
  {| version_ := version_ f; perspective_ := perspective_ f;
     use_incremental_ack_processing_ := use_incremental_ack_processing_ f;
     validate_flags_ := validate_flags_ f; error_ := error_ f; detailed_error_ := detailed_error_ f;
     creation_time_ := creation_time_ f; last_timestamp_ := last_timestamp_ f;
     largest_packet_number_ := largest; last_serialized_connection_id_ := last_id;
     last_version_label_ := last_label; visits := visits f |}.
End Setters.

(** [Endianness endianness() const] *)
Definition endianness_of (v : Z) : Endianness := if v >? 38 then NETWORK_BYTE_ORDER else HOST_BYTE_ORDER.
Definition endianness (f : Framer) : Endianness := endianness_of (transport_version (version_ f)).

End Framer.

(** ** Sizes *)

Definition kQuicFrameTypeSize : Z := 1.
Definition kQuicErrorCodeSize : Z := 4.
Definition kQuicErrorDetailsLengthSize : Z := 2.
Definition kQuicMaxStreamIdSize : Z := 4.
Definition kQuicMaxStreamOffsetSize : Z := 8.
Definition kQuicStreamPayloadLengthSize : Z := 2.
Definition kQuicDeltaTimeLargestObservedSize : Z := 2.
Definition kQuicNumTimestampsSize : Z := 1.
Definition kNumberOfAckBlocksSize : Z := 1.
Definition kMaxAckBlocks : Z := Z.shiftl 1 (kNumberOfAckBlocksSize * 8) - 1.
Definition kMaxErrorStringLength : Z := 256.

(** The loop of [GetStreamIdSize]. *)
Fixpoint stream_id_size (sizes : list Z) (stream_id : Z) : Z :=
  match sizes with
  | [] => 4
  | i :: sizes =>
      let stream_id := Z.shiftr stream_id 8 in
      if stream_id =? 0 then i else stream_id_size sizes stream_id
  end.

Definition GetStreamIdSize (stream_id : Z) : Z := stream_id_size [1; 2; 3; 4] stream_id.

(** The loop of [GetStreamOffsetSize] where every size may occur. *)
Fixpoint offset_size (sizes : list Z) (offset : Z) : Z :=
  match sizes with
  | [] => 8
  | i :: sizes =>
      let offset := Z.shiftr offset 8 in
      if offset =? 0 then i else offset_size sizes offset
  end.

(** [size_t GetStreamOffsetSize(QuicTransportVersion version, QuicStreamOffset offset)] *)
Definition GetStreamOffsetSize (v offset : Z) : Z :=
  if negb (v =? 41) then
    if offset =? 0 then 0 else offset_size [2; 3; 4; 5; 6; 7; 8] (Z.shiftr offset 8)
  else default 8 (List.find (fun i => Z.shiftr offset (8 * i) =? 0) [0; 2; 4]).

Definition GetMinStreamFrameSize (v stream_id offset : Z) (last_frame_in_packet : bool) : Z :=
  kQuicFrameTypeSize + GetStreamIdSize stream_id + GetStreamOffsetSize v offset +
  (if last_frame_in_packet then 0 else kQuicStreamPayloadLengthSize).

Definition GetMinAckFrameSize (largest_observed_length : Z) : Z :=
  kQuicFrameTypeSize + largest_observed_length + kQuicDeltaTimeLargestObservedSize + kQuicNumTimestampsSize.

Definition GetStopWaitingFrameSize (packet_number_length : Z) : Z := kQuicFrameTypeSize + packet_number_length.

Definition GetRstStreamFrameSize : Z :=
  kQuicFrameTypeSize + kQuicMaxStreamIdSize + kQuicMaxStreamOffsetSize + kQuicErrorCodeSize.

Definition GetMinConnectionCloseFrameSize : Z :=
  kQuicFrameTypeSize + kQuicErrorCodeSize + kQuicErrorDetailsLengthSize.

Definition GetMinGoAwayFrameSize : Z :=
  kQuicFrameTypeSize + kQuicErrorCodeSize + kQuicErrorDetailsLengthSize + kQuicMaxStreamIdSize.

Definition GetWindowUpdateFrameSize : Z :=
  kQuicFrameTypeSize + kQuicMaxStreamIdSize + kQuicMaxStreamOffsetSize.

Definition GetBlockedFrameSize : Z := kQuicFrameTypeSize + kQuicMaxStreamIdSize.

(** [QuicStringPiece TruncateErrorString(QuicStringPiece error)] *)
Definition TruncateErrorString (error : list Z) : list Z :=
  if Z.of_nat (length error) <=? kMaxErrorStringLength then error
  else take (Z.to_nat kMaxErrorStringLength) error.

(** [QuicPacketNumberLength GetMinPacketNumberLength(version, packet_number)] *)
Definition GetMinPacketNumberLength (v packet_number : Z) : Z :=
  if packet_number <? Z.shiftl 1 (1 * 8) then 1
  else if packet_number <? Z.shiftl 1 (2 * 8) then 2
  else if packet_number <? Z.shiftl 1 (4 * 8) then 4
  else if negb (v =? 41) then 6 else 8.

(** [uint8_t GetPacketNumberFlags(QuicPacketNumberLength packet_number_length)] *)
Definition GetPacketNumberFlags (packet_number_length : Z) : Z :=
  if packet_number_length =? 1 then 0
  else if packet_number_length =? 2 then 1
  else if packet_number_length =? 4 then 2
  else 3.

(** [struct AckFrameInfo] *)
Record AckFrameInfo : Type := { max_block_length : Z; first_block_length : Z; num_ack_blocks : Z }.

(** The number of blocks a gap takes, all but the last of them empty. *)
Definition encoded_gaps (total_gap : Z) : Z := uint64 (total_gap + 255 - 1) / 255.

(** The loop of [GetAckFrameInfo], over the intervals from the back. *)
Fixpoint ack_info_loop (previous_start : Z) (l : list Interval) (info : AckFrameInfo) : AckFrameInfo :=
  match l with
  | [] => info
  | interval :: l =>
      if num_ack_blocks info <? 255 then
        let total_gap := uint64 (previous_start - imax interval) in
        ack_info_loop (imin interval) l
          {| max_block_length := Z.max (max_block_length info) (interval_length interval);
             first_block_length := first_block_length info;
             num_ack_blocks := uint64 (num_ack_blocks info + encoded_gaps total_gap) |}
      else info
  end.

(** [AckFrameInfo GetAckFrameInfo(const QuicAckFrame& frame)] *)
Definition GetAckFrameInfo (frame : QuicAckFrame) : AckFrameInfo :=
  match rev (packets frame) with
  | [] => {| max_block_length := 0; first_block_length := 0; num_ack_blocks := 0 |}
  | last :: l =>
      ack_info_loop (imin last) l
        {| max_block_length := interval_length last;
           first_block_length := PacketNumberQueue.LastIntervalLength (packets frame);
           num_ack_blocks := 0 |}
  end.

(** [LargestAcked(frame)] *)
Definition LargestAcked (frame : QuicAckFrame) : Z := largest_acked frame.

(** [size_t GetAckFrameTimeStampSize(const QuicAckFrame& ack)] *)
Definition GetAckFrameTimeStampSize (ack : QuicAckFrame) : Z :=
  match received_packet_times ack with
  | [] => 0
  | l => 5 + 3 * (Z.of_nat (length l) - 1)
  end.

(** [size_t GetAckFrameSize(const QuicAckFrame& ack, packet_number_length)] *)
Definition GetAckFrameSize (f : Framer.Framer) (ack : QuicAckFrame) : Z :=
  let v := transport_version (Framer.version_ f) in
  let ack_info := GetAckFrameInfo ack in
  let largest_acked_length := GetMinPacketNumberLength v (LargestAcked ack) in
  let ack_block_length := GetMinPacketNumberLength v (max_block_length ack_info) in
  GetMinAckFrameSize largest_acked_length + ack_block_length +
  (if negb (num_ack_blocks ack_info =? 0)
   then kNumberOfAckBlocksSize + Z.min (num_ack_blocks ack_info) kMaxAckBlocks * (ack_block_length + 1)
   else 0) +
  (if negb (Framer.use_incremental_ack_processing_ f) then GetAckFrameTimeStampSize ack else 0).

(** [size_t ComputeFrameLength(frame, last_frame_in_packet, packet_number_length)] *)
Definition ComputeFrameLength (f : Framer.Framer) (frame : QuicFrame) (last_frame_in_packet : bool)
    (packet_number_length : Z) : Z :=
  let v := transport_version (Framer.version_ f) in
  match frame with
  | STREAM_FRAME s =>
      GetMinStreamFrameSize v (stream_id s) (offset s) last_frame_in_packet + data_length s
  | ACK_FRAME a => GetAckFrameSize f a
  | STOP_WAITING_FRAME _ => GetStopWaitingFrameSize packet_number_length
  | MTU_DISCOVERY_FRAME | PING_FRAME _ => kQuicFrameTypeSize
  | RST_STREAM_FRAME _ _ _ _ => GetRstStreamFrameSize
  | CONNECTION_CLOSE_FRAME _ error_details =>
      GetMinConnectionCloseFrameSize + Z.of_nat (length (TruncateErrorString error_details))
  | GOAWAY_FRAME _ _ _ reason_phrase =>
      GetMinGoAwayFrameSize + Z.of_nat (length (TruncateErrorString reason_phrase))
  | WINDOW_UPDATE_FRAME _ _ _ => GetWindowUpdateFrameSize
  | BLOCKED_FRAME _ _ => GetBlockedFrameSize
  | PADDING_FRAME _ => 0
  end.

(** [size_t GetSerializedFrameLength(frame, free_bytes, first_frame, last_frame,
    packet_number_length)] of a frame that is not null *)
Definition GetSerializedFrameLength (f : Framer.Framer) (frame : QuicFrame) (free_bytes : Z)
    (first_frame last_frame : bool) (packet_number_length : Z) : Z :=
  match frame with
  | PADDING_FRAME num_padding_bytes =>
      if num_padding_bytes =? -1 then free_bytes
      else if free_bytes <? uint64 num_padding_bytes then free_bytes else uint64 num_padding_bytes
  | _ =>
      let frame_len := ComputeFrameLength f frame last_frame packet_number_length in
      if frame_len <=? free_bytes then frame_len
      else if negb first_frame then 0
      else
        match frame with
        | ACK_FRAME _ => if free_bytes >=? GetMinAckFrameSize 6 then free_bytes else 0
        | _ => 0
        end
  end.
