(* ===== verification/FrameWriter.v ===== *)
(** Writing frames and packets: the [Append...] functions of the framer and
    [BuildDataPacket] (libquic/net/quic/core/quic_framer.cc). *)

From S2P Require Import Prelude World QuicData IntervalSet PacketNumberQueue Framer.
Import Interval.

(** [class QuicStreamFrameDataProducer], the interface through which the framer
    fetches stream data it was given no buffer of. *)
Class StreamFrameDataProducer (P : Type) : Type :=
  WriteStreamData : forall (id offset data_length : Z), Writer.Writer -> M P (bool * Writer.Writer).

(** The framer that writes, its [data_producer_] and the writer. *)
Record Building (P : Type) : Type := {
  builder : Framer.Framer;
  data_producer_ : option P;
  writer : Writer.Writer
}.
Arguments builder {P} _.
Arguments data_producer_ {P} _.
Arguments writer {P} _.

Definition set_builder {P} (f : Framer.Framer) (b : Building P) : Building P :=
  {| builder := f; data_producer_ := data_producer_ b; writer := writer b |}.
Definition set_writer {P} (w : Writer.Writer) (b : Building P) : Building P :=
  {| builder := builder b; data_producer_ := data_producer_ b; writer := w |}.

Definition writer_lens {P} : Lens (Building P) Writer.Writer := {| view := writer; put := set_writer |}.
Definition wr {P A} (m : M Writer.Writer A) : M (Building P) A := zoom writer_lens m.

(** ** Fields *)

(** [bool AppendPacketNumber(packet_number_length, packet_number, writer)] *)
Definition AppendPacketNumber (packet_number_length packet_number : Z) : M Writer.Writer bool :=
  if negb (packet_number_length =? 1) && negb (packet_number_length =? 2) && negb (packet_number_length =? 4)
     && negb (packet_number_length =? 6) && negb (packet_number_length =? 8)
  then mret false
  else Writer.WriteBytesToUInt64 (Z.to_nat packet_number_length) packet_number.

(** [bool AppendStreamId(stream_id_length, stream_id, writer)] *)
Definition AppendStreamId (stream_id_length stream_id : Z) : M Writer.Writer bool :=
  if (stream_id_length =? 0) || (stream_id_length >? 4) then mret false
  else Writer.WriteBytesToUInt64 (Z.to_nat stream_id_length) stream_id.

(** [bool AppendStreamOffset(offset_length, offset, writer)] *)
Definition AppendStreamOffset (offset_length offset : Z) : M Writer.Writer bool :=
  if (offset_length =? 1) || (offset_length >? 8) then mret false
  else Writer.WriteBytesToUInt64 (Z.to_nat offset_length) offset.

(** [bool AppendAckBlock(gap, length_length, length, writer)] *)
Definition AppendAckBlock (gap length_length length : Z) : M Writer.Writer bool :=
  Writer.WriteUInt8 gap &; AppendPacketNumber length_length length.

(** [void SetBits(uint8_t* flags, uint8_t val, uint8_t num_bits, uint8_t offset)] *)
Definition SetBits (flags val offset : Z) : Z := uint8 (Z.lor flags (Z.shiftl val offset)).
Definition SetBit (flags : Z) (val : bool) (offset : Z) : Z := SetBits flags (if val then 1 else 0) offset.

(** The type byte of a stream frame. *)
Definition stream_type_byte (v : Z) (s : QuicStreamFrame) (no_stream_frame_length : bool) : Z :=
  if negb (v =? 41) then
    let type_byte := Z.lor 0 (if fin s then 1 else 0) in
    let type_byte := uint8 (Z.shiftl type_byte 1) in
    let type_byte := Z.lor type_byte (if no_stream_frame_length then 0 else 1) in
    let type_byte := uint8 (Z.shiftl type_byte 3) in
    let offset_len := GetStreamOffsetSize v (offset s) in
    let type_byte := if offset_len >? 0 then uint8 (Z.lor type_byte (offset_len - 1)) else type_byte in
    let type_byte := uint8 (Z.shiftl type_byte 2) in
    let type_byte := uint8 (Z.lor type_byte (GetStreamIdSize (stream_id s) - 1)) in
    Z.lor type_byte 128
  else
    let type_byte := SetBit 0 (fin s) 5 in
    let type_byte := SetBit type_byte (negb no_stream_frame_length) 0 in
    let offset_len := GetStreamOffsetSize v (offset s) in
    let offset_len_encode :=
      if offset_len =? 0 then 0 else if offset_len =? 2 then 1 else if offset_len =? 4 then 2 else 3 in
    let type_byte := SetBits type_byte offset_len_encode 1 in
    let type_byte := SetBits type_byte (uint8 (GetStreamIdSize (stream_id s) - 1)) 3 in
    Z.lor type_byte 192.

(** [bool AppendTypeByte(frame, no_stream_frame_length, writer)] *)
Definition AppendTypeByte (v : Z) (frame : QuicFrame) (no_stream_frame_length : bool) : M Writer.Writer bool :=
  match frame with
  | STREAM_FRAME s => Writer.WriteUInt8 (stream_type_byte v s no_stream_frame_length)
  | ACK_FRAME _ => mret true
  | MTU_DISCOVERY_FRAME => Writer.WriteUInt8 (type (PING_FRAME 0))
  | _ => Writer.WriteUInt8 (type frame)
  end.

(** ** Frames *)

(** [writer->WriteBytes(frame.data_buffer, frame.data_length)] *)
Definition write_buffer (data_buffer : option (list Z)) (data_length : Z) : M Writer.Writer bool :=
  match data_buffer with
  | None => if data_length =? 0 then Writer.WriteBytes [] else crashed NullDeref
  | Some data =>
      if Z.of_nat (length data) <? data_length then crashed OutOfBounds
      else Writer.WriteBytes (take (Z.to_nat data_length) data)
  end.

(** What [AppendStreamFrame] writes before the data. *)
Definition append_stream_header (v : Z) (s : QuicStreamFrame) (no_stream_frame_length : bool) : M Writer.Writer bool :=
  AppendStreamId (GetStreamIdSize (stream_id s)) (stream_id s) &;
  AppendStreamOffset (GetStreamOffsetSize v (offset s)) (offset s) &;
  (if negb no_stream_frame_length then
     if data_length s >? 65535 then mret false else Writer.WriteUInt16 (uint16 (data_length s))
   else mret true).

(** [bool AppendRstStreamFrame(frame, writer)] *)
Definition AppendRstStreamFrame (v stream_id error_code byte_offset : Z) : M Writer.Writer bool :=
  Writer.WriteUInt32 stream_id &;
  (if negb (v =? 41) then Writer.WriteUInt64 byte_offset else mret true) &;
  Writer.WriteUInt32 (uint32 error_code) &;
  (if v =? 41 then Writer.WriteUInt64 byte_offset else mret true).

(** [bool AppendConnectionCloseFrame(frame, writer)] *)
Definition AppendConnectionCloseFrame (error_code : Z) (error_details : list Z) : M Writer.Writer bool :=
  Writer.WriteUInt32 (uint32 error_code) &;
  Writer.WriteStringPiece16 (TruncateErrorString error_details).

(** [bool AppendGoAwayFrame(frame, writer)] *)
Definition AppendGoAwayFrame (error_code last_good_stream_id : Z) (reason_phrase : list Z) : M Writer.Writer bool :=
  Writer.WriteUInt32 (uint32 error_code) &;
  Writer.WriteUInt32 (uint32 last_good_stream_id) &;
  Writer.WriteStringPiece16 (TruncateErrorString reason_phrase).

(** [bool AppendWindowUpdateFrame(frame, writer)] *)
Definition AppendWindowUpdateFrame (stream_id byte_offset : Z) : M Writer.Writer bool :=
  Writer.WriteUInt32 (uint32 stream_id) &; Writer.WriteUInt64 byte_offset.

(** [bool AppendBlockedFrame(frame, writer)] *)
Definition AppendBlockedFrame (stream_id : Z) : M Writer.Writer bool := Writer.WriteUInt32 (uint32 stream_id).

(** [bool AppendPaddingFrame(frame, writer)] *)
Definition AppendPaddingFrame (v num_padding_bytes : Z) : M Writer.Writer bool :=
  if v <=? 37 then Writer.WritePadding;; mret true
  else if num_padding_bytes =? 0 then mret false
  else if num_padding_bytes <? 0 then Writer.WritePadding;; mret true
  else Writer.WritePaddingBytes (Z.to_nat (num_padding_bytes - 1)).

(** [bool AppendStopWaitingFrame(header, frame, writer)]; a shift by the width of
    the type is undefined. *)
Definition AppendStopWaitingFrame (header : QuicPacketHeader) (least_unacked : Z) : M Writer.Writer bool :=
  let least_unacked_delta := uint64 (packet_number header - least_unacked) in
  let length_shift := packet_number_length header * 8 in
  if length_shift >=? 64 then crashed IntOverflow
  else if Z.shiftr least_unacked_delta length_shift >? 0 then mret false
  else AppendPacketNumber (packet_number_length header) least_unacked_delta.

(** ** Acknowledgements *)

(** [for (size_t i = 1; i < num_encoded_gaps && num_ack_blocks_written <
    num_ack_blocks; ++i)]: empty blocks for a long gap; [room] is the number of
    blocks still to be written. *)
Fixpoint append_empty (ack_block_length : Z) (room : nat) (i num_encoded_gaps : Z) : M Writer.Writer (option nat) :=
  match room with
  | O => mret (Some O)
  | S room' =>
      if i <? num_encoded_gaps then
        ok ← AppendAckBlock 255 ack_block_length 0;
        if ok : bool then append_empty ack_block_length room' (i + 1) num_encoded_gaps else mret None
      else mret (Some room)
  end.

(** The loop over the intervals below the last one, from the back. *)
Fixpoint append_blocks (ack_block_length previous_start : Z) (l : list Interval) (room : nat) : M Writer.Writer bool :=
  match l with
  | [] => mret true
  | interval :: l =>
      match room with
      | O => mret true
      | S _ =>
          let total_gap := uint64 (previous_start - imax interval) in
          let num_encoded_gaps := encoded_gaps total_gap in
          room ← append_empty ack_block_length room 1 num_encoded_gaps;
          match room with
          | None => mret false
          | Some O => mret true
          | Some (S room) =>
              let last_gap := uint8 (uint64 (total_gap - uint64 ((num_encoded_gaps - 1) * 255))) in
              AppendAckBlock last_gap ack_block_length (interval_length interval) &;
              append_blocks ack_block_length (imin interval) l room
          end
      end
  end.

(** The loop of [AppendTimestampsToAckFrame]. *)
Fixpoint append_times (largest_acked prev_time : Z) (l : list (Z * Z)) : M Writer.Writer bool :=
  match l with
  | [] => mret true
  | (packet_number, time) :: l =>
      let delta_from_largest_observed := uint64 (largest_acked - packet_number) in
      if delta_from_largest_observed >? 255 then mret false
      else
        Writer.WriteUInt8 delta_from_largest_observed &;
        (delta ← int64_op (time - prev_time);
         Writer.WriteUFloat16 (uint64 delta)) &;
        append_times largest_acked time l
  end.

(** [bool AppendTimestampsToAckFrame(frame, num_timestamps_offset, writer)] *)
Definition AppendTimestampsToAckFrame (f : Framer.Framer) (frame : QuicAckFrame) (num_timestamps_offset : nat) :
    M Writer.Writer bool :=
  let v := transport_version (Framer.version_ f) in
  let times := received_packet_times frame in
  if Z.of_nat (length times) >? 255 then mret false
  else
    (if negb (v =? 41) then Writer.WriteBytes (store 1 (Z.of_nat (length times)))
     else Writer.WriteUInt8AtOffset (Z.of_nat (length times)) num_timestamps_offset) &;
    match times with
    | [] => mret true
    | (packet_number, time) :: rest =>
        let delta_from_largest_observed := uint64 (LargestAcked frame - packet_number) in
        if delta_from_largest_observed >? 255 then mret false
        else
          Writer.WriteUInt8 delta_from_largest_observed &;
          (since ← int64_op (time - Framer.creation_time_ f);
           Writer.WriteUInt32 (Z.land (uint64 since) (2 ^ 32 - 1))) &;
          append_times (LargestAcked frame) time rest
    end.

(** [int32_t available_timestamp_and_ack_block_bytes] with [room] bytes left in
    the packet *)
Definition available_ack_bytes (room ack_block_length largest_acked_length num_ack_blocks : Z) : Z :=
  int32 (uint64 (room - ack_block_length - GetMinAckFrameSize largest_acked_length -
                 (if negb (num_ack_blocks =? 0) then kNumberOfAckBlocksSize else 0))).

(** The number of ack blocks that is written. *)
Definition ack_blocks_written (available ack_block_length num_ack_blocks : Z) : Z :=
  let max_num_ack_blocks := uint64 (Z.quot available (ack_block_length + 1)) in
  let num_ack_blocks := Z.min num_ack_blocks max_num_ack_blocks in
  if num_ack_blocks >? 255 then 255 else num_ack_blocks.

(** The type byte of an ack frame. *)
Definition ack_type_byte (v : Z) (multiple : bool) (largest_acked_length ack_block_length : Z) : Z :=
  let type_byte := SetBit 0 multiple (if negb (v =? 41) then 5 else 4) in
  let type_byte := SetBits type_byte (GetPacketNumberFlags largest_acked_length) 2 in
  let type_byte := SetBits type_byte (GetPacketNumberFlags ack_block_length) 0 in
  if negb (v =? 41) then Z.lor type_byte 64 else Z.lor type_byte 160.

(** [bool AppendAckFrameAndTypeByte(frame, writer)] *)
Definition AppendAckFrameAndTypeByte (f : Framer.Framer) (frame : QuicAckFrame) : M Writer.Writer bool :=
  let v := transport_version (Framer.version_ f) in
  let new_ack_info := GetAckFrameInfo frame in
  let largest_acked := LargestAcked frame in
  let largest_acked_length := GetMinPacketNumberLength v largest_acked in
  let ack_block_length := GetMinPacketNumberLength v (max_block_length new_ack_info) in
  w ← get;
  let room := Z.of_nat (Writer.capacity_ w) - Z.of_nat (Writer.length_ w) in
  let available :=
    available_ack_bytes room ack_block_length largest_acked_length (num_ack_blocks new_ack_info) in
  Writer.WriteUInt8 (ack_type_byte v (negb (num_ack_blocks new_ack_info =? 0)) largest_acked_length ack_block_length) &;
  let num_ack_blocks := ack_blocks_written available ack_block_length (num_ack_blocks new_ack_info) in
  (if v =? 41 then
     if num_ack_blocks >? 0 then Writer.WriteBytes (store 1 num_ack_blocks) else mret true
   else mret true) &;
  w ← get;
  let num_timestamps_offset := if v =? 41 then Writer.length_ w else O in
  (if v =? 41 then Writer.WriteUInt8 0 else mret true) &;
  AppendPacketNumber largest_acked_length largest_acked &;
  Writer.WriteUFloat16
    (if ack_delay_time frame =? kQuicInfiniteTimeUs then kUFloat16MaxValue else uint64 (ack_delay_time frame)) &;
  (if negb (v =? 41) then
     if num_ack_blocks >? 0 then Writer.WriteBytes (store 1 num_ack_blocks) else mret true
   else mret true) &;
  AppendPacketNumber ack_block_length (first_block_length new_ack_info) &;
  (if num_ack_blocks >? 0 then
     match rev (packets frame) with
     | [] => crashed EndIterator
     | last :: l => append_blocks ack_block_length (imin last) l (Z.to_nat num_ack_blocks)
     end
   else mret true) &;
  w ← get;
  if negb (Framer.use_incremental_ack_processing_ f) &&
     (uint64 (Z.of_nat (Writer.capacity_ w) - Z.of_nat (Writer.length_ w)) >=? GetAckFrameTimeStampSize frame)
  then AppendTimestampsToAckFrame f frame num_timestamps_offset
  else if negb (v =? 41) then Writer.WriteBytes [0] else mret true.

(** ** Packets *)

(** [QuicTag MakeQuicTag(char a, char b, char c, char d)] *)
Definition MakeQuicTag (a b c d : Z) : Z :=
  Z.lor (Z.lor (Z.lor a (Z.shiftl b 8)) (Z.shiftl c 16)) (Z.shiftl d 24).
Definition MakeVersionLabel (a b c d : Z) : Z := MakeQuicTag d c b a.

(** [QuicVersionLabel CreateQuicVersionLabel(ParsedQuicVersion parsed_version)];
    characters are their codes. *)
Definition CreateQuicVersionLabel (parsed_version : ParsedQuicVersion) : Z :=
  match handshake_protocol parsed_version with
  | PROTOCOL_UNSUPPORTED => 0
  | p =>
      let proto := match p with PROTOCOL_QUIC_CRYPTO => 81 | _ => 84 end in
      let v := transport_version parsed_version in
      if v =? 35 then MakeVersionLabel proto 48 51 53
      else if v =? 37 then MakeVersionLabel proto 48 51 55
      else if v =? 38 then MakeVersionLabel proto 48 51 56
      else if v =? 39 then MakeVersionLabel proto 48 51 57
      else if v =? 41 then MakeVersionLabel proto 48 52 49
      else if v =? 42 then MakeVersionLabel proto 48 52 50
      else if v =? 43 then MakeVersionLabel proto 48 52 51
      else if v =? 99 then MakeVersionLabel proto 48 57 57
      else 0
  end.

Section Building.
Context {P : Type} `{!StreamFrameDataProducer P}.

(** [bool AppendStreamFrame(frame, no_stream_frame_length, writer)] *)
Definition AppendStreamFrame (s : QuicStreamFrame) (no_stream_frame_length : bool) : M (Building P) bool :=
  b ← get;
  wr (append_stream_header (transport_version (Framer.version_ (builder b))) s no_stream_frame_length) &;
  match data_producer_ b with
  | Some p =>
      if data_length s =? 0 then mret true
      else
        b ← get;
        match WriteStreamData (stream_id s) (offset s) (data_length s) (writer b) p with
        | Ret (ok, w) p =>
            modify (fun b => {| builder := builder b; data_producer_ := Some p; writer := w |});;
            mret ok
        | Crash c => crashed c
        end
  | None => wr (write_buffer (data_buffer s) (data_length s))
  end.

(** [public_flags] of a header, without those of the connection id *)
Definition header_flags (header : QuicPacketHeader) : Z :=
  let public_flags := 0 in
  let public_flags := if reset_flag header then Z.lor public_flags 2 else public_flags in
  let public_flags := if version_flag header then Z.lor public_flags 1 else public_flags in
  let public_flags := uint8 (Z.lor public_flags (Z.shiftl (GetPacketNumberFlags (packet_number_length header)) 4)) in
  match nonce header with Some _ => Z.lor public_flags 4 | None => public_flags end.

(** [bool AppendPacketHeader(header, writer)] *)
Definition AppendPacketHeader (header : QuicPacketHeader) : M (Building P) bool :=
  let public_flags := header_flags header in
  f ← gets builder;
  (if connection_id_length header =? 0 then wr (Writer.WriteUInt8 (Z.lor public_flags 0))
   else if connection_id_length header =? 8 then
     let public_flags := Z.lor public_flags 8 in
     let public_flags := if decide (Framer.perspective_ f = IS_CLIENT) then Z.lor public_flags 12 else public_flags in
     wr (Writer.WriteUInt8 public_flags) &; wr (Writer.WriteConnectionId (connection_id header))
   else mret true) &;
  modify (fun b => set_builder (Framer.with_numbers (builder b) (Framer.largest_packet_number_ (builder b))
    (connection_id header) (Framer.last_version_label_ (builder b))) b);;
  ((if version_flag header then
      wr (Writer.WriteTag (swap 4 (CreateQuicVersionLabel (Framer.version_ f))))
    else mret true) &;
   match nonce header with
   | Some n => wr (Writer.WriteBytes n)
   | None => mret true
   end &;
   wr (AppendPacketNumber (packet_number_length header) (packet_number header))).

(** The body of the loop of [BuildDataPacket]. *)
Definition append_frame (header : QuicPacketHeader) (frame : QuicFrame) (no_stream_frame_length : bool) :
    M (Building P) bool :=
  f ← gets builder;
  let v := transport_version (Framer.version_ f) in
  wr (AppendTypeByte v frame no_stream_frame_length) &;
  match frame with
  | PADDING_FRAME n => wr (AppendPaddingFrame v n)
  | STREAM_FRAME s => AppendStreamFrame s no_stream_frame_length
  | ACK_FRAME a => wr (AppendAckFrameAndTypeByte f a)
  | STOP_WAITING_FRAME least_unacked => wr (AppendStopWaitingFrame header least_unacked)
  | MTU_DISCOVERY_FRAME | PING_FRAME _ => mret true
  | RST_STREAM_FRAME _ id error_code byte_offset => wr (AppendRstStreamFrame v id error_code byte_offset)
  | CONNECTION_CLOSE_FRAME error_code error_details => wr (AppendConnectionCloseFrame error_code error_details)
  | GOAWAY_FRAME _ error_code id reason_phrase => wr (AppendGoAwayFrame error_code id reason_phrase)
  | WINDOW_UPDATE_FRAME _ id byte_offset => wr (AppendWindowUpdateFrame id byte_offset)
  | BLOCKED_FRAME _ id => wr (AppendBlockedFrame id)
  end.

(** The loop; the last frame of the packet carries no stream frame length. *)
Fixpoint append_frames (header : QuicPacketHeader) (frames : list QuicFrame) : M (Building P) bool :=
  match frames with
  | [] => mret true
  | frame :: rest =>
      append_frame header frame (match rest with [] => true | _ => false end) &;
      append_frames header rest
  end.

(** [size_t BuildDataPacket(header, frames, buffer, packet_length)], from the
    state with the writer for [buffer] *)
Definition BuildDataPacket (header : QuicPacketHeader) (frames : list QuicFrame) : M (Building P) nat :=
  ok ← (AppendPacketHeader header &; append_frames header frames);
  if ok : bool then gets (fun b => Writer.length_ (writer b)) else mret O.

(** [size_t BuildConnectivityProbingPacket(header, buffer, packet_length)] *)
Definition BuildConnectivityProbingPacket (header : QuicPacketHeader) : M (Building P) nat :=
  f ← gets builder;
  let v := transport_version (Framer.version_ f) in
  ok ← (AppendPacketHeader header &;
        wr (AppendTypeByte v (PING_FRAME kInvalidControlFrameId) false) &;
        wr (AppendTypeByte v (PADDING_FRAME (-1)) true) &;
        wr (AppendPaddingFrame v (-1)));
  if ok : bool then gets (fun b => Writer.length_ (writer b)) else mret O.
End Building.

(** [QuicDataWriter writer(packet_length, buffer, endianness())] *)
Definition building {P} (f : Framer.Framer) (p : option P) (buffer : list Z) : Building P :=
  {| builder := f; data_producer_ := p; writer := Writer.init buffer (Framer.endianness f) |}.
