(* ===== verification/FrameReader.v ===== *)
(** Reading packets: [ProcessFrameData] and the [Process...] functions of the
    framer, the packet header and the packet number
    (libquic/net/quic/core/quic_framer.cc). *)

From stdpp Require Import pretty.
From S2P Require Import Prelude World QuicData IntervalSet PacketNumberQueue Framer FrameWriter.
Import Interval.

(** The framer that reads and the reader. *)
Record Parsing : Type := { framer : Framer.Framer; reader : Reader.Reader }.

Definition set_framer (f : Framer.Framer) (p : Parsing) : Parsing := {| framer := f; reader := reader p |}.
Definition set_reader (r : Reader.Reader) (p : Parsing) : Parsing := {| framer := framer p; reader := r |}.
Definition reader_lens : Lens Parsing Reader.Reader := {| view := reader; put := set_reader |}.
Definition rd {A} (m : M Reader.Reader A) : M Parsing A := zoom reader_lens m.

Definition set_detailed_error (d : string) : M Parsing unit :=
  modify (fun p => set_framer (Framer.with_error (framer p) (Framer.error_ (framer p)) d) p).

(** [set_detailed_error(d); return false;] of a function with a result *)
Definition fail {A} (d : string) : M Parsing (option A) := set_detailed_error d;; mret None.

(** [if (!reader->Read...(&x)) { set_detailed_error(d); return false; }] *)
Definition read {A} (m : M Reader.Reader (option A)) (d : string) : M Parsing (option A) :=
  o ← rd m; match o with None => fail d | Some x => mret (Some x) end.

(** ** Bits *)

Definition GetMaskFromNumBits (num_bits : Z) : Z := uint8 (Z.shiftl 1 num_bits - 1).
Definition ExtractBits (flags num_bits offset : Z) : Z := Z.land (Z.shiftr flags offset) (GetMaskFromNumBits num_bits).
Definition ExtractBit (flags offset : Z) : bool := negb (Z.land (Z.shiftr flags offset) (GetMaskFromNumBits 1) =? 0).

(** [QuicPacketNumberLength ReadSequenceNumberLength(uint8_t flags)] *)
Definition ReadSequenceNumberLength (flags : Z) : Z :=
  let flags := Z.land flags 3 in
  if flags =? 3 then 6 else if flags =? 2 then 4 else if flags =? 1 then 2 else 1.

(** [QuicPacketNumberLength ReadAckPacketNumberLength(version, flags)] *)
Definition ReadAckPacketNumberLength (v flags : Z) : Z :=
  let flags := Z.land flags 3 in
  if flags =? 3 then (if negb (v =? 41) then 6 else 8)
  else if flags =? 2 then 4 else if flags =? 1 then 2 else 1.

(** ** Packet numbers and times *)

Definition Delta (a b : Z) : Z := if a <? b then uint64 (b - a) else uint64 (a - b).
Definition ClosestTo (target a b : Z) : Z := if Delta target a <? Delta target b then a else b.

(** [CalculatePacketNumberFromWire(packet_number_length, base_packet_number, packet_number)] *)
Definition CalculatePacketNumberFromWire (packet_number_length base_packet_number packet_number : Z) : Z :=
  let epoch_delta := uint64 (Z.shiftl 1 (8 * packet_number_length)) in
  let next_packet_number := uint64 (base_packet_number + 1) in
  let epoch := Z.land base_packet_number (uint64 (Z.lnot (uint64 (epoch_delta - 1)))) in
  let prev_epoch := uint64 (epoch - epoch_delta) in
  let next_epoch := uint64 (epoch + epoch_delta) in
  ClosestTo next_packet_number (uint64 (epoch + packet_number))
    (ClosestTo next_packet_number (uint64 (prev_epoch + packet_number)) (uint64 (next_epoch + packet_number))).

(** [CalculateTimestampFromWire(time_delta_us)], in microseconds *)
Definition CalculateTimestampFromWire (last_timestamp time_delta_us : Z) : Z :=
  let epoch_delta := Z.shiftl 1 32 in
  let last_timestamp := uint64 last_timestamp in
  let epoch := Z.land last_timestamp (uint64 (Z.lnot (epoch_delta - 1))) in
  let prev_epoch := uint64 (epoch - epoch_delta) in
  let next_epoch := uint64 (epoch + epoch_delta) in
  int64 (ClosestTo last_timestamp (uint64 (epoch + time_delta_us))
    (ClosestTo last_timestamp (uint64 (prev_epoch + time_delta_us)) (uint64 (next_epoch + time_delta_us)))).

(** ** Frames *)

(** The lengths a stream frame's type byte announces: of the stream id and of the
    offset, and whether there is a data length; and its FIN. *)
Definition stream_flags (v frame_type : Z) : Z * Z * bool * bool :=
  if negb (v =? 41) then
    let flags := Z.land frame_type (uint8 (Z.lnot 128)) in
    let stream_id_length := Z.land flags 3 + 1 in
    let flags := Z.shiftr flags 2 in
    let offset_length := Z.land flags 7 in
    let offset_length := if offset_length >? 0 then offset_length + 1 else offset_length in
    let flags := Z.shiftr flags 3 in
    let has_data_length := Z.land flags 1 =? 1 in
    let flags := Z.shiftr flags 1 in
    (stream_id_length, offset_length, has_data_length, Z.land flags 1 =? 1)
  else
    let flags := Z.land frame_type (uint8 (Z.lnot 192)) in
    let stream_id_length := 1 + ExtractBits flags 2 3 in
    let offset_length := Z.shiftl 1 (ExtractBits flags 2 1) in
    let offset_length := if offset_length =? 1 then 0 else offset_length in
    (stream_id_length, offset_length, ExtractBit flags 0, ExtractBit flags 5).

Definition transport : M Parsing Z := gets (fun p => transport_version (Framer.version_ (framer p))).

(** [bool ProcessStreamFrame(reader, frame_type, frame)] *)
Definition ProcessStreamFrame (frame_type : Z) : M Parsing (option QuicStreamFrame) :=
  v ← transport;
  let '(stream_id_length, offset_length, has_data_length, fin) := stream_flags v frame_type in
  id ←? read (Reader.ReadBytesToUInt64 (Z.to_nat stream_id_length)) "Unable to read stream_id.";
  offset ←? read (Reader.ReadBytesToUInt64 (Z.to_nat offset_length)) "Unable to read offset.";
  data ←? (if has_data_length : bool then read Reader.ReadStringPiece16 "Unable to read frame data."
           else
             n ← gets (fun p => Reader.BytesRemaining (reader p));
             read (Reader.ReadStringPiece n) "Unable to read frame data.");
  mret (Some {| stream_id := uint32 id; fin := fin; data_length := uint16 (Z.of_nat (length data));
                data_buffer := Some data; offset := offset |}).

(** [bool ProcessStopWaitingFrame(reader, header, stop_waiting)] *)
Definition ProcessStopWaitingFrame (header : QuicPacketHeader) : M Parsing (option Visit) :=
  least_unacked_delta ←? read (Reader.ReadBytesToUInt64 (Z.to_nat (packet_number_length header)))
    "Unable to read least unacked delta.";
  if packet_number header <? least_unacked_delta then fail "Invalid unacked delta."
  else mret (Some (OnStopWaitingFrame (uint64 (packet_number header - least_unacked_delta)))).

Definition QUIC_STREAM_LAST_ERROR : Z := 17.
Definition QUIC_LAST_ERROR : Z := 102.

(** [bool ProcessRstStreamFrame(reader, frame)] *)
Definition ProcessRstStreamFrame : M Parsing (option Visit) :=
  v ← transport;
  id ←? read Reader.ReadUInt32 "Unable to read stream_id.";
  before ←? (if negb (v =? 41) then read Reader.ReadUInt64 "Unable to read rst stream sent byte offset."
             else mret (Some 0));
  error_code ←? read Reader.ReadUInt32 "Unable to read rst stream error code.";
  let error_code := if error_code >=? QUIC_STREAM_LAST_ERROR then QUIC_STREAM_LAST_ERROR else error_code in
  byte_offset ←? (if v =? 41 then read Reader.ReadUInt64 "Unable to read rst stream sent byte offset."
                  else mret (Some before));
  mret (Some (OnRstStreamFrame kInvalidControlFrameId id error_code byte_offset)).

(** [bool ProcessConnectionCloseFrame(reader, frame)] *)
Definition ProcessConnectionCloseFrame : M Parsing (option Visit) :=
  error_code ←? read Reader.ReadUInt32 "Unable to read connection close error code.";
  let error_code := if error_code >=? QUIC_LAST_ERROR then QUIC_LAST_ERROR else error_code in
  error_details ←? read Reader.ReadStringPiece16 "Unable to read connection close error details.";
  mret (Some (OnConnectionCloseFrame error_code error_details)).

(** [bool ProcessGoAwayFrame(reader, frame)] *)
Definition ProcessGoAwayFrame : M Parsing (option Visit) :=
  error_code ←? read Reader.ReadUInt32 "Unable to read go away error code.";
  let error_code := if error_code >=? QUIC_LAST_ERROR then QUIC_LAST_ERROR else error_code in
  id ←? read Reader.ReadUInt32 "Unable to read last good stream id.";
  reason_phrase ←? read Reader.ReadStringPiece16 "Unable to read goaway reason.";
  mret (Some (OnGoAwayFrame kInvalidControlFrameId error_code id reason_phrase)).

(** [bool ProcessWindowUpdateFrame(reader, frame)] *)
Definition ProcessWindowUpdateFrame : M Parsing (option Visit) :=
  id ←? read Reader.ReadUInt32 "Unable to read stream_id.";
  byte_offset ←? read Reader.ReadUInt64 "Unable to read window byte_offset.";
  mret (Some (OnWindowUpdateFrame kInvalidControlFrameId id byte_offset)).

(** [bool ProcessBlockedFrame(reader, frame)] *)
Definition ProcessBlockedFrame : M Parsing (option Visit) :=
  id ←? read Reader.ReadUInt32 "Unable to read stream_id.";
  mret (Some (OnBlockedFrame kInvalidControlFrameId id)).

(** The loop of [ProcessPaddingFrame]: [n] bytes have been counted. *)
Fixpoint padding_loop (fuel : nat) (n : Z) : M Reader.Reader Z :=
  r ← get;
  if negb (Reader.IsDoneReading r) && (Reader.PeekByte r =? 0) then
    match fuel with
    | O => crashed OutOfFuel
    | S fuel => _ ← Reader.ReadBytes 1; padding_loop fuel (n + 1)
    end
  else mret n.

(** [void ProcessPaddingFrame(reader, frame)] *)
Definition ProcessPaddingFrame : M Parsing Z :=
  v ← transport;
  r ← gets reader;
  if v <=? 37 then
    let num_padding_bytes := int32 (Z.of_nat (Reader.BytesRemaining r) + 1) in
    rd Reader.ReadRemainingPayload;; mret num_padding_bytes
  else rd (padding_loop (Reader.BytesRemaining r) 1).

Section Visitor.
Context `{!FramerVisitor}.

(** [visitor_->...] *)
Definition visit (v : Visit) : M Parsing bool :=
  p ← get;
  modify (set_framer (Framer.with_visits (framer p) (Framer.visits (framer p) ++ [v])));;
  mret (answer (Framer.visits (framer p)) v).

(** [bool RaiseError(QuicErrorCode error)] *)
Definition RaiseError (error : Z) : M Parsing bool :=
  modify (fun p => set_framer (Framer.with_error (framer p) error (Framer.detailed_error_ (framer p))) p);;
  _ ← visit (OnError error);
  mret false.

(** ** Acknowledgements *)

(** The loop over the ack blocks after the first; [n] of them are left. *)
Fixpoint ack_blocks_loop (ack_block_length : Z) (n : nat) (first_received : Z) (ack_frame : QuicAckFrame) :
    M Parsing (option QuicAckFrame) :=
  match n with
  | O => mret (Some ack_frame)
  | S n =>
      gap ←? read Reader.ReadUInt8 "Unable to read gap to next ack block.";
      current_block_length ←? read (Reader.ReadBytesToUInt64 (Z.to_nat ack_block_length)) "Unable to ack block length.";
      if first_received <? uint64 (gap + current_block_length) then
        fail ("Underflow with ack block length " +:+ pretty current_block_length +:+
              ", end of block is " +:+ pretty (uint64 (first_received - gap)) +:+ ".")
      else
        let first_received := uint64 (first_received - uint64 (gap + current_block_length)) in
        if current_block_length >? 0 then
          f ← gets framer;
          if Framer.use_incremental_ack_processing_ f then
            ok ← visit (OnAckRange first_received (uint64 (first_received + current_block_length))
                          (match n with O => true | _ => false end));
            if negb ok then fail "Visitor suppresses further processing of ack frame."
            else ack_blocks_loop ack_block_length n first_received ack_frame
          else
            ack_blocks_loop ack_block_length n first_received
              {| largest_acked := largest_acked ack_frame; ack_delay_time := ack_delay_time ack_frame;
                 received_packet_times := received_packet_times ack_frame;
                 packets := PacketNumberQueue.AddRange first_received
                              (uint64 (first_received + current_block_length)) (packets ack_frame) |}
        else ack_blocks_loop ack_block_length n first_received ack_frame
  end.

Definition add_time (seq_num time : Z) (ack_frame : QuicAckFrame) : QuicAckFrame :=
  {| largest_acked := largest_acked ack_frame; ack_delay_time := ack_delay_time ack_frame;
     received_packet_times := received_packet_times ack_frame ++ [(seq_num, time)];
     packets := packets ack_frame |}.

(** The loop of [ProcessTimestampsInAckFrame], [n] times left *)
Fixpoint times_loop (n : nat) (ack_frame : QuicAckFrame) : M Parsing (option QuicAckFrame) :=
  match n with
  | O => mret (Some ack_frame)
  | S n =>
      delta_from_largest_observed ←? read Reader.ReadUInt8 "Unable to read sequence delta in received packets.";
      let seq_num := uint64 (LargestAcked ack_frame - delta_from_largest_observed) in
      incremental_time_delta_us ←? read Reader.ReadUFloat16 "Unable to read incremental time delta in received packets.";
      f ← gets framer;
      last ← int64_op (Framer.last_timestamp_ f + int64 incremental_time_delta_us);
      modify (fun p => set_framer (Framer.with_timestamp (framer p) last) p);;
      time ← int64_op (Framer.creation_time_ f + last);
      times_loop n (add_time seq_num time ack_frame)
  end.

(** [bool ProcessTimestampsInAckFrame(num_received_packets, reader, ack_frame)] *)
Definition ProcessTimestampsInAckFrame (num_received_packets : Z) (ack_frame : QuicAckFrame) :
    M Parsing (option QuicAckFrame) :=
  if num_received_packets >? 0 then
    delta_from_largest_observed ←? read Reader.ReadUInt8 "Unable to read sequence delta in received packets.";
    let seq_num := uint64 (LargestAcked ack_frame - delta_from_largest_observed) in
    time_delta_us ←? read Reader.ReadUInt32 "Unable to read time delta in received packets.";
    f ← gets framer;
    let last := CalculateTimestampFromWire (Framer.last_timestamp_ f) time_delta_us in
    modify (fun p => set_framer (Framer.with_timestamp (framer p) last) p);;
    time ← int64_op (Framer.creation_time_ f + last);
    times_loop (Z.to_nat (num_received_packets - 1)) (add_time seq_num time ack_frame)
  else mret (Some ack_frame).

(** [num_ack_blocks], read where the version has it *)
Definition read_num_ack_blocks (here : bool) (num_ack_blocks : Z) : M Parsing (option Z) :=
  if here then read Reader.ReadUInt8 "Unable to read num of ack blocks." else mret (Some num_ack_blocks).

Definition read_num_received_packets (here : bool) (num_received_packets : Z) : M Parsing (option Z) :=
  if here then read Reader.ReadUInt8 "Unable to read num received packets." else mret (Some num_received_packets).

(** [ProcessAckFrame] after the largest acked packet and the delay *)
Definition process_ack_blocks (has_ack_blocks : bool) (ack_block_length largest_acked delay num_ack_blocks num_received_packets : Z) :
    M Parsing (option QuicAckFrame) :=
  f ← gets framer;
  let v := transport_version (Framer.version_ f) in
  let incremental := Framer.use_incremental_ack_processing_ f in
  num_ack_blocks ←? read_num_ack_blocks (has_ack_blocks && negb (v =? 41)) num_ack_blocks;
  first_block_length ←? read (Reader.ReadBytesToUInt64 (Z.to_nat ack_block_length)) "Unable to read first ack block length.";
  if (first_block_length =? 0) && (negb (largest_acked =? 0) || negb (num_ack_blocks =? 0)) then
    fail ("First block length is zero but ACK is not empty. largest acked is " +:+ pretty largest_acked +:+
          ", num ack blocks is " +:+ pretty num_ack_blocks +:+ ".")
  else if first_block_length >? uint64 (largest_acked + 1) then
    fail ("Underflow with first ack block length " +:+ pretty first_block_length +:+
          " largest acked is " +:+ pretty largest_acked +:+ ".")
  else
    let first_received := uint64 (uint64 (largest_acked + 1) - first_block_length) in
    ranged ← (if incremental then visit (OnAckRange first_received (uint64 (largest_acked + 1)) (negb has_ack_blocks))
              else mret true);
    if negb ranged then fail "Visitor suppresses further processing of ack frame."
    else
      let ack_frame :=
        if incremental then QuicAckFrame_init
        else {| largest_acked := largest_acked; ack_delay_time := delay; received_packet_times := [];
                packets := PacketNumberQueue.AddRange first_received (uint64 (largest_acked + 1)) [] |} in
      ack_frame ←? ack_blocks_loop ack_block_length (Z.to_nat num_ack_blocks) first_received ack_frame;
      num_received_packets ←? read_num_received_packets (negb (v =? 41)) num_received_packets;
      ProcessTimestampsInAckFrame num_received_packets ack_frame.

(** [bool ProcessAckFrame(reader, frame_type, ack_frame)] *)
Definition ProcessAckFrame (frame_type : Z) : M Parsing (option QuicAckFrame) :=
  f ← gets framer;
  let v := transport_version (Framer.version_ f) in
  let has_ack_blocks := ExtractBit frame_type (if negb (v =? 41) then 5 else 4) in
  num_ack_blocks ←? read_num_ack_blocks ((v =? 41) && has_ack_blocks) 0;
  num_received_packets ←? read_num_received_packets (v =? 41) 0;
  let ack_block_length := ReadAckPacketNumberLength v (ExtractBits frame_type 2 0) in
  let largest_acked_length := ReadAckPacketNumberLength v (ExtractBits frame_type 2 2) in
  largest_acked ←? read (Reader.ReadBytesToUInt64 (Z.to_nat largest_acked_length)) "Unable to read largest acked.";
  ack_delay_time_us ←? read Reader.ReadUFloat16 "Unable to read ack delay time.";
  let delay := if ack_delay_time_us =? kUFloat16MaxValue then kQuicInfiniteTimeUs else int64 ack_delay_time_us in
  started ← (if Framer.use_incremental_ack_processing_ f then visit (OnAckFrameStart largest_acked delay) else mret true);
  if negb started then fail "Visitor suppresses further processing of ack frame."
  else process_ack_blocks has_ack_blocks ack_block_length largest_acked delay num_ack_blocks num_received_packets.

(** ** Frame data *)

Definition QUIC_INVALID_PACKET_HEADER : Z := 3.
Definition QUIC_INVALID_FRAME_DATA : Z := 4.
Definition QUIC_INVALID_RST_STREAM_DATA : Z := 6.
Definition QUIC_INVALID_CONNECTION_CLOSE_DATA : Z := 7.
Definition QUIC_INVALID_GOAWAY_DATA : Z := 8.
Definition QUIC_INVALID_ACK_DATA : Z := 9.
Definition QUIC_INVALID_STREAM_DATA : Z := 46.
Definition QUIC_MISSING_PAYLOAD : Z := 48.
Definition QUIC_INVALID_WINDOW_UPDATE_DATA : Z := 57.
Definition QUIC_INVALID_BLOCKED_DATA : Z := 58.
Definition QUIC_INVALID_STOP_WAITING_DATA : Z := 60.

(** [return b] from the loop of [ProcessFrameData], or [continue] *)
Definition raise (error : Z) : M Parsing (option bool) := b ← RaiseError error; mret (Some b).
Definition tell (v : Visit) : M Parsing (option bool) := ok ← visit v; mret (if ok : bool then None else Some true).

(** [if (!Process...) return RaiseError(error); if (!visitor_->On...) return true; continue;] *)
Definition process (m : M Parsing (option Visit)) (error : Z) : M Parsing (option bool) :=
  o ← m; match o with None => raise error | Some v => tell v end.

(** Whether a type byte with a special bit is that of a stream frame, of an ack. *)
Definition is_stream_frame (v frame_type : Z) : bool :=
  (negb (v =? 41) && has frame_type 128) || ((v >=? 41) && (Z.land frame_type 192 =? 192)).
Definition is_ack_frame (v frame_type : Z) : bool :=
  (negb (v =? 41) && has frame_type 64) || ((v >=? 41) && (Z.land frame_type 224 =? 160)).

(** The body of the loop after the type byte was read. *)
Definition process_frame (header : QuicPacketHeader) (frame_type : Z) : M Parsing (option bool) :=
  v ← transport;
  if has frame_type 224 then
    if is_stream_frame v frame_type then
      o ← ProcessStreamFrame frame_type;
      match o with None => raise QUIC_INVALID_STREAM_DATA | Some frame => tell (OnStreamFrame frame) end
    else if is_ack_frame v frame_type then
      o ← ProcessAckFrame frame_type;
      match o with
      | None => raise QUIC_INVALID_ACK_DATA
      | Some frame =>
          f ← gets framer;
          if negb (Framer.use_incremental_ack_processing_ f) then tell (OnAckFrame frame) else mret None
      end
    else set_detailed_error "Illegal frame type.";; raise QUIC_INVALID_FRAME_DATA
  else if frame_type =? 0 then n ← ProcessPaddingFrame; tell (OnPaddingFrame n)
  else if frame_type =? 1 then process ProcessRstStreamFrame QUIC_INVALID_RST_STREAM_DATA
  else if frame_type =? 2 then process ProcessConnectionCloseFrame QUIC_INVALID_CONNECTION_CLOSE_DATA
  else if frame_type =? 3 then process ProcessGoAwayFrame QUIC_INVALID_GOAWAY_DATA
  else if frame_type =? 4 then process ProcessWindowUpdateFrame QUIC_INVALID_WINDOW_UPDATE_DATA
  else if frame_type =? 5 then process ProcessBlockedFrame QUIC_INVALID_BLOCKED_DATA
  else if frame_type =? 6 then process (ProcessStopWaitingFrame header) QUIC_INVALID_STOP_WAITING_DATA
  else if frame_type =? 7 then tell (OnPingFrame kInvalidControlFrameId)
  else set_detailed_error "Illegal frame type.";; raise QUIC_INVALID_FRAME_DATA.

(** The loop of [ProcessFrameData]. *)
Fixpoint frames_loop (header : QuicPacketHeader) (fuel : nat) : M Parsing bool :=
  p ← get;
  if Reader.IsDoneReading (reader p) then mret true
  else
    match fuel with
    | O => crashed OutOfFuel
    | S fuel =>
        frame_type ← rd (Reader.ReadBytes 1);
        match frame_type with
        | None => set_detailed_error "Unable to read frame type.";; RaiseError QUIC_INVALID_FRAME_DATA
        | Some b =>
            o ← process_frame header (load b);
            match o with None => frames_loop header fuel | Some b => mret b end
        end
    end.

(** [bool ProcessFrameData(reader, header)] *)
Definition ProcessFrameData (header : QuicPacketHeader) : M Parsing bool :=
  p ← get;
  if Reader.IsDoneReading (reader p) then
    set_detailed_error "Packet has no frames.";; RaiseError QUIC_MISSING_PAYLOAD
  else frames_loop header (Reader.BytesRemaining (reader p)).

End Visitor.
