(* ===== verification/FrameWire.v ===== *)
(** The bytes of frames.  A reference encoding per frame type; the [Append...]
    functions write it wherever it fits. *)

From S2P Require Import Prelude World QuicData Wire IntervalSet PacketNumberQueue Framer FrameWriter.
Import Interval.

(** ** Writers that append *)

(** [m] succeeds wherever [bs] fits, and appends [bs]. *)
Definition writes (e : Endianness) (m : M Writer.Writer bool) (bs : list Z) : Prop :=
  forall w, Writer.endianness_ w = e -> fits w (length bs) -> m w = Ret true (append w bs).

Lemma append_no_bytes w : (Writer.length_ w <= Writer.capacity_ w)%nat -> append w [] = w.
Proof.
  intros H. destruct w as [buf n e]. unfold append, Writer.set_length, Writer.copy_at. simpl in *.
  by rewrite !Nat.add_0_r, take_drop.
Qed.

Lemma append_endianness w bs : Writer.endianness_ (append w bs) = Writer.endianness_ w.
Proof. done. Qed.

Section Writes.
Context (e : Endianness).

Lemma writes_nil : writes e (mret true) [].
Proof. intros w _ Hf. rewrite append_no_bytes; [done|]. unfold fits in Hf. simpl in Hf. lia. Qed.

Lemma writes_and m k a b : writes e m a -> writes e k b -> writes e (m &; k) (a ++ b).
Proof.
  intros Hm Hk w He Hf. rewrite length_app in Hf. unfold and_then, mbind, M_bind.
  rewrite Hm by (unfold fits in *; lia || done). rewrite Hk; [|done|by apply append_fits].
  f_equal. by apply append_app.
Qed.

Lemma writes_bytes bs : writes e (Writer.WriteBytes bs) bs.
Proof. intros w _. apply WriteBytes_ok. Qed.

Lemma writes_uint8 x : writes e (Writer.WriteUInt8 x) (store 1 x).
Proof. apply writes_bytes. Qed.

Lemma writes_uint n x : writes e (Writer.WriteUInt n x) (enc_uint e n x).
Proof. intros w <-. rewrite enc_uint_length. apply WriteUInt_ok. Qed.

Lemma writes_to_uint64 n x : (n <= 8)%nat -> writes e (Writer.WriteBytesToUInt64 n x) (enc_uint e n x).
Proof. intros Hn w <-. rewrite enc_uint_length. by apply WriteBytesToUInt64_ok. Qed.

Lemma writes_string16 s : Z.of_nat (length s) < 2 ^ 16 ->
  writes e (Writer.WriteStringPiece16 s) (enc_uint e 2 (Z.of_nat (length s)) ++ s).
Proof. intros Hs w <-. rewrite length_app, enc_uint_length. by apply WriteStringPiece16_ok. Qed.

Lemma writes_repeated b n : writes e (Writer.WriteRepeatedByte b n) (replicate n b).
Proof.
  intros w _ Hf. rewrite length_replicate in Hf. unfold fits in Hf.
  unfold Writer.WriteRepeatedByte, Writer.BeginWrite, mbind, M_bind, get.
  destruct (Nat.ltb_spec (Writer.capacity_ w) (Writer.length_ w)); [lia|].
  destruct (Nat.ltb_spec (Writer.capacity_ w - Writer.length_ w) n); [lia|].
  unfold modify, append. by rewrite length_replicate.
Qed.

(** A packet number is written as long as its length is one of the type. *)
Definition number_length (n : Z) : Prop := n = 1 \/ n = 2 \/ n = 4 \/ n = 6 \/ n = 8.

Lemma writes_packet_number n x : number_length n -> writes e (AppendPacketNumber n x) (enc_uint e (Z.to_nat n) x).
Proof.
  intros Hn. unfold AppendPacketNumber.
  assert (negb (n =? 1) && negb (n =? 2) && negb (n =? 4) && negb (n =? 6) && negb (n =? 8) = false) as ->.
  { by destruct Hn as [->|[->|[->|[->| ->]]]]. }
  apply writes_to_uint64. destruct Hn as [->|[->|[->|[->| ->]]]]; simpl; lia.
Qed.

End Writes.

#[export] Hint Resolve writes_nil writes_and writes_bytes writes_uint8 writes_uint writes_string16
  writes_packet_number : posix_quic.

(** ** Sizes of stream ids and offsets *)

Lemma shiftr_zero x k : 0 <= x -> 0 <= k -> Z.shiftr x k = 0 <-> x < 2 ^ k.
Proof.
  intros Hx Hk. rewrite Z.shiftr_div_pow2 by done. pose proof (Z.pow_pos_nonneg 2 k). split.
  - intros H0. apply Z.div_small_iff in H0; lia.
  - intros H0. apply Z.div_small. lia.
Qed.

Lemma shiftr_zero_eqb x k : 0 <= x -> 0 <= k -> (Z.shiftr x k =? 0) = (x <? 2 ^ k).
Proof. intros. apply Bool.eq_iff_eq_true. rewrite Z.eqb_eq, Z.ltb_lt. by apply shiftr_zero. Qed.

(** Goes through the comparisons of the code from the smallest bound up. *)
Ltac try_sizes x :=
  repeat match goal with
  | |- context [x <? ?b] => destruct (Z.ltb_spec x b); [split; [first [lia | set_solver]|simpl; lia]|]
  end.

(** The size is one the encoding has, and the value fits in it. *)
Lemma stream_id_size_ok id : 0 <= id < 2 ^ 32 ->
  1 <= GetStreamIdSize id <= 4 /\ id < 256 ^ GetStreamIdSize id.
Proof.
  intros Hid. unfold GetStreamIdSize, stream_id_size. rewrite !Z.shiftr_shiftr by lia.
  rewrite !shiftr_zero_eqb by lia. try_sizes id. lia.
Qed.

Definition offset_lengths (v : Z) : list Z := if v =? 41 then [0; 2; 4; 8] else [0; 2; 3; 4; 5; 6; 7; 8].

Lemma stream_offset_size_ok v o : 0 <= o < 2 ^ 64 ->
  GetStreamOffsetSize v o ∈ offset_lengths v /\ o < 256 ^ GetStreamOffsetSize v o.
Proof.
  intros Ho. unfold GetStreamOffsetSize, offset_lengths. destruct (Z.eqb_spec v 41); simpl negb; cbv iota.
  - unfold List.find. rewrite !shiftr_zero_eqb by lia.
    try_sizes o. split; [set_solver|simpl; lia].
  - destruct (Z.eqb_spec o 0) as [->|]; [split; [set_solver|done]|].
    unfold offset_size. rewrite !Z.shiftr_shiftr by lia. rewrite !shiftr_zero_eqb by lia.
    try_sizes o. lia.
Qed.

(** ** The reference encoding *)

(** The bytes a stream frame carries. *)
Definition content (s : QuicStreamFrame) : list Z :=
  match data_buffer s with Some d => d | None => [] end.

Definition stream_wire (v : Z) (s : QuicStreamFrame) (last : bool) : list Z :=
  let e := Framer.endianness_of v in
  store 1 (stream_type_byte v s last) ++
  enc_uint e (Z.to_nat (GetStreamIdSize (stream_id s))) (stream_id s) ++
  enc_uint e (Z.to_nat (GetStreamOffsetSize v (offset s))) (offset s) ++
  (if last then [] else enc_uint e 2 (data_length s)) ++ content s.

Definition rst_stream_wire (v id error_code byte_offset : Z) : list Z :=
  let e := Framer.endianness_of v in
  store 1 1 ++ enc_uint e 4 id ++
  (if v =? 41 then enc_uint e 4 error_code ++ enc_uint e 8 byte_offset
   else enc_uint e 8 byte_offset ++ enc_uint e 4 error_code).

(** The gaps and lengths of the ack blocks below [previous_start], the intervals
    given from the back: a gap longer than a byte takes empty blocks. *)
Fixpoint gap_blocks (previous_start : Z) (l : list Interval) : list (Z * Z) :=
  match l with
  | [] => []
  | x :: l =>
      let gap := previous_start - imax x in
      replicate (Z.to_nat (encoded_gaps gap - 1)) (255, 0) ++
      (gap - (encoded_gaps gap - 1) * 255, imax x - imin x) :: gap_blocks (imin x) l
  end.

Definition block_wire (e : Endianness) (ack_block_length : Z) (b : Z * Z) : list Z :=
  store 1 (fst b) ++ enc_uint e (Z.to_nat ack_block_length) (snd b).

(** An ack without receive times, with [room] bytes left in the packet. *)
Definition ack_wire (v : Z) (a : QuicAckFrame) (room : nat) : list Z :=
  let e := Framer.endianness_of v in
  let info := GetAckFrameInfo a in
  let largest_acked_length := GetMinPacketNumberLength v (largest_acked a) in
  let ack_block_length := GetMinPacketNumberLength v (max_block_length info) in
  let n := ack_blocks_written
             (available_ack_bytes (Z.of_nat room) ack_block_length largest_acked_length (num_ack_blocks info))
             ack_block_length (num_ack_blocks info) in
  let count := if n >? 0 then store 1 n else [] in
  let delay := if ack_delay_time a =? kQuicInfiniteTimeUs then kUFloat16MaxValue else ack_delay_time a in
  store 1 (ack_type_byte v (negb (num_ack_blocks info =? 0)) largest_acked_length ack_block_length) ++
  (if v =? 41 then count ++ [0] else []) ++
  enc_uint e (Z.to_nat largest_acked_length) (largest_acked a) ++
  enc_uint e 2 (Writer.encode_ufloat16 delay) ++
  (if v =? 41 then [] else count) ++
  enc_uint e (Z.to_nat ack_block_length) (first_block_length info) ++
  concat (block_wire e ack_block_length <$>
    take (Z.to_nat n) (match rev (packets a) with [] => [] | x :: l => gap_blocks (imin x) l end)) ++
  (if v =? 41 then [] else [0]).

(** A frame in a packet with [room] bytes left; [last] when no frame follows. *)
Definition frame_wire (v : Z) (header : QuicPacketHeader) (frame : QuicFrame) (last : bool) (room : nat) : list Z :=
  let e := Framer.endianness_of v in
  match frame with
  | PADDING_FRAME n =>
      if (v <=? 37) || (n <? 0) then replicate (Nat.max 1 room) 0 else replicate (Z.to_nat n) 0
  | RST_STREAM_FRAME _ id error_code byte_offset => rst_stream_wire v id error_code byte_offset
  | CONNECTION_CLOSE_FRAME error_code error_details =>
      let s := TruncateErrorString error_details in
      store 1 2 ++ enc_uint e 4 error_code ++ enc_uint e 2 (Z.of_nat (length s)) ++ s
  | GOAWAY_FRAME _ error_code id reason_phrase =>
      let s := TruncateErrorString reason_phrase in
      store 1 3 ++ enc_uint e 4 error_code ++ enc_uint e 4 id ++ enc_uint e 2 (Z.of_nat (length s)) ++ s
  | WINDOW_UPDATE_FRAME _ id byte_offset => store 1 4 ++ enc_uint e 4 id ++ enc_uint e 8 byte_offset
  | BLOCKED_FRAME _ id => store 1 5 ++ enc_uint e 4 id
  | STOP_WAITING_FRAME least_unacked =>
      store 1 6 ++ enc_uint e (Z.to_nat (packet_number_length header)) (packet_number header - least_unacked)
  | PING_FRAME _ | MTU_DISCOVERY_FRAME => store 1 7
  | STREAM_FRAME s => stream_wire v s last
  | ACK_FRAME a => ack_wire v a room
  end.

Fixpoint frames_wire (v : Z) (header : QuicPacketHeader) (frames : list QuicFrame) (room : nat) : list Z :=
  match frames with
  | [] => []
  | frame :: rest =>
      let bs := frame_wire v header frame (match rest with [] => true | _ => false end) room in
      bs ++ frames_wire v header rest (room - length bs)
  end.

(** ** Frames that can be sent *)

Definition u32 (x : Z) : Prop := 0 <= x < 2 ^ 32.
Definition u64 (x : Z) : Prop := 0 <= x < 2 ^ 64.

(** The fields are values of their types, the data is of the length that is
    announced; a relative packet number fits in the bytes the header has for it. *)
Definition sendable (header : QuicPacketHeader) (frame : QuicFrame) : Prop :=
  match frame with
  | PADDING_FRAME n => n <> 0
  | RST_STREAM_FRAME _ id error_code byte_offset => u32 id /\ u32 error_code /\ u64 byte_offset
  | CONNECTION_CLOSE_FRAME error_code _ => u32 error_code
  | GOAWAY_FRAME _ error_code id _ => u32 error_code /\ u32 id
  | WINDOW_UPDATE_FRAME _ id byte_offset => u32 id /\ u64 byte_offset
  | BLOCKED_FRAME _ id => u32 id
  | STOP_WAITING_FRAME least_unacked =>
      packet_number_length header ∈ [1; 2; 4; 6] /\ u64 (packet_number header) /\
      0 <= least_unacked <= packet_number header /\
      packet_number header - least_unacked < 256 ^ packet_number_length header
  | PING_FRAME _ | MTU_DISCOVERY_FRAME => True
  | STREAM_FRAME s =>
      u32 (stream_id s) /\ u64 (offset s) /\
      exists d, data_buffer s = Some d /\ data_length s = Z.of_nat (length d) /\ data_length s < 2 ^ 16
  | ACK_FRAME _ => False
  end.

Lemma truncated_length s : Z.of_nat (length (TruncateErrorString s)) <= 256.
Proof.
  unfold TruncateErrorString, kMaxErrorStringLength. destruct (Z.leb_spec (Z.of_nat (length s)) 256); [done|].
  rewrite length_take. lia.
Qed.

Section Frames.
Context (v : Z).
Notation e := (Framer.endianness_of v).

Lemma writes_stream_header s last : u32 (stream_id s) -> u64 (offset s) -> 0 <= data_length s < 2 ^ 16 ->
  writes e (append_stream_header v s last)
    (enc_uint e (Z.to_nat (GetStreamIdSize (stream_id s))) (stream_id s) ++
     enc_uint e (Z.to_nat (GetStreamOffsetSize v (offset s))) (offset s) ++
     (if last then [] else enc_uint e 2 (data_length s))).
Proof.
  intros Hid Ho Hd. unfold append_stream_header, AppendStreamId, AppendStreamOffset.
  destruct (stream_id_size_ok _ Hid) as [Hn _]. destruct (stream_offset_size_ok v _ Ho) as [Hm _].
  assert (GetStreamOffsetSize v (offset s) <> 1 /\ 0 <= GetStreamOffsetSize v (offset s) <= 8) as [Hm1 Hm8].
  { revert Hm. generalize (GetStreamOffsetSize v (offset s)). unfold offset_lengths. intros k.
    destruct (v =? 41); set_unfold; lia. }
  rewrite (proj2 (Z.eqb_neq _ 0)), (proj2 (Z.eqb_neq _ 1)), !Z.gtb_ltb, !(proj2 (Z.ltb_ge _ _)) by lia. simpl orb.
  apply writes_and; [apply writes_to_uint64; lia|]. apply writes_and; [apply writes_to_uint64; lia|].
  destruct last; [apply writes_nil|]. simpl. unfold uint16. rewrite wrap_u_small by lia. apply writes_uint.
Qed.

Lemma writes_rst_stream id error_code byte_offset : u32 error_code ->
  writes e (Writer.WriteUInt8 1 &; AppendRstStreamFrame v id error_code byte_offset)
    (rst_stream_wire v id error_code byte_offset).
Proof.
  intros Hc. unfold AppendRstStreamFrame, rst_stream_wire. rewrite uint32_small by done.
  apply writes_and; [apply writes_uint8|]. apply writes_and; [apply writes_uint|].
  destruct (v =? 41); simpl negb; cbv iota.
  - apply (writes_and _ _ _ []); [apply writes_nil|]. apply writes_and; apply writes_uint.
  - apply writes_and; [apply writes_uint|]. rewrite <- (app_nil_r (enc_uint e 4 error_code)).
    apply writes_and; [apply writes_uint|apply writes_nil].
Qed.

Lemma writes_stop_waiting header least_unacked : sendable header (STOP_WAITING_FRAME least_unacked) ->
  writes e (AppendStopWaitingFrame header least_unacked)
    (enc_uint e (Z.to_nat (packet_number_length header)) (packet_number header - least_unacked)).
Proof.
  intros (Hn & Hp & Hl & Hd). unfold AppendStopWaitingFrame. unfold u64 in Hp. rewrite uint64_small by lia.
  assert (packet_number header - least_unacked < 2 ^ (packet_number_length header * 8)) as Hd'.
  { rewrite Z.mul_comm, Z.pow_mul_r by (set_unfold in Hn; lia). done. }
  assert (1 <= packet_number_length header <= 6 /\ number_length (packet_number_length header)) as [Hr Hok].
  { unfold number_length. set_unfold in Hn. lia. }
  rewrite Z.geb_leb, (proj2 (Z.leb_gt _ _)) by lia.
  assert (Z.shiftr (packet_number header - least_unacked) (packet_number_length header * 8) = 0) as ->
    by (apply shiftr_zero; [lia..|done]).
  simpl. by apply writes_packet_number.
Qed.

(** Writing the rest of the buffer full of zeros. *)
Lemma WritePadding_ok w : fits w 0 ->
  Writer.WritePadding w = Ret tt (append w (replicate (Writer.capacity_ w - Writer.length_ w) 0)).
Proof.
  unfold fits. intros Hf. unfold Writer.WritePadding, mbind, M_bind, get.
  destruct (Nat.ltb_spec (Writer.capacity_ w) (Writer.length_ w)); [lia|].
  unfold modify, append. rewrite length_replicate. f_equal. unfold Writer.set_length. simpl. f_equal.
  unfold Writer.capacity_ in *. simpl. rewrite !length_app, length_take, length_replicate, length_drop. lia.
Qed.

Lemma padding_written n w : n <> 0 -> fits w 1 ->
  let room := (Writer.capacity_ w - Writer.length_ w)%nat in
  let bs := if (v <=? 37) || (n <? 0) then replicate (Nat.max 1 room) 0 else replicate (Z.to_nat n) 0 in
  fits w (length bs) ->
  (Writer.WriteUInt8 0 &; AppendPaddingFrame v n) w = Ret true (append w bs).
Proof.
  intros Hn H1 room bs Hf. unfold and_then, mbind, M_bind. rewrite (writes_uint8 (Writer.endianness_ w)) by done.
  pose proof (append_capacity w [0] H1) as Hcap.
  assert (forall k, fits w (S k) -> append (append w [0]) (replicate k 0) = append w (replicate (S k) 0)) as Happ.
  { intros k Hk. rewrite append_app by (simpl; rewrite length_replicate; done). done. }
  assert ((if (v <=? 37) || (n <? 0) then Writer.WritePadding;; mret true
           else Writer.WritePaddingBytes (Z.to_nat (n - 1))) (append w [0]) = Ret true (append w bs)) as Hgo.
  { unfold bs. unfold fits, bs in *. destruct (_ || _) eqn:Hfull.
    - unfold mbind, M_bind. rewrite WritePadding_ok by (apply append_fits; done).
      rewrite Hcap. simpl Writer.length_. rewrite Happ by (unfold fits; lia). do 3 f_equal.
      rewrite length_replicate in Hf. unfold room in *. lia.
    - rewrite length_replicate in Hf. apply orb_false_iff in Hfull as [_ Hn0%Z.ltb_ge].
      replace (Z.to_nat n) with (S (Z.to_nat (n - 1))) in * by lia.
      unfold Writer.WritePaddingBytes. rewrite (writes_repeated (Writer.endianness_ w)); [by rewrite Happ|done|].
      rewrite length_replicate. apply append_fits. done. }
  rewrite <- Hgo. unfold AppendPaddingFrame. change (store 1 0) with [0].
  destruct (v <=? 37); [done|]. rewrite (proj2 (Z.eqb_neq _ _)) by done. by destruct (n <? 0).
Qed.
End Frames.
