(* ===== verification/AckWire.v ===== *)
(** The bytes of an acknowledgement: [AppendAckFrameAndTypeByte] writes the
    reference encoding, which lists the intervals from the highest down and as
    many of them as the packet has room for. *)

From S2P Require Import Prelude World QuicData Wire IntervalSet Intervals PacketNumberQueue PacketNumbers.
From S2P Require Import Framer FrameWriter FrameWire.
Import Interval.

(** ** Gaps *)

(** Below this, sums of packet numbers and block counts do not wrap. *)
Definition packet_limit (v : Z) : Z := if v =? 41 then 2 ^ 62 else 2 ^ 48.

Lemma packet_limit_bound v : packet_limit v <= 2 ^ 62.
Proof. unfold packet_limit. destruct (v =? 41); lia. Qed.

(** A gap of [g] packets takes [encoded_gaps g] blocks: full ones, and a last one
    with 1 to 255 of them. *)
Lemma encoded_gaps_spec g : 1 <= g <= 2 ^ 62 ->
  1 <= encoded_gaps g /\ 1 <= g - (encoded_gaps g - 1) * 255 <= 255.
Proof.
  intros Hg. unfold encoded_gaps. rewrite uint64_small by lia.
  pose proof (Z.div_mod (g + 255 - 1) 255 ltac:(lia)). pose proof (Z.mod_pos_bound (g + 255 - 1) 255 ltac:(lia)).
  split; lia.
Qed.

Lemma encoded_gaps_le g : 1 <= g <= 2 ^ 62 -> encoded_gaps g <= g.
Proof. intros Hg. destruct (encoded_gaps_spec g Hg). lia. Qed.

(** The intervals [l], from the back, lie below [prev] one under the other. *)
Fixpoint below (prev : Z) (l : list Interval) : Prop :=
  match l with
  | [] => 0 <= prev
  | x :: l => imin x < imax x /\ imax x < prev /\ below (imin x) l
  end.

Lemma below_nonneg l : forall prev, below prev l -> 0 <= prev.
Proof. induction l as [|x l IH]; intros prev; simpl; [done|]. intros (? & ? & H%IH). lia. Qed.

Lemma below_rev q prev : wf q -> Forall (fun x => imax x < prev) q -> 0 <= prev -> below prev (rev q).
Proof.
  revert prev. induction q as [|x l IH] using rev_ind; intros prev Hwf Hl Hp; [done|].
  rewrite rev_app_distr. simpl. apply wf_snoc in Hwf as (Hl' & Hx & [Hn _] & Hb).
  apply Forall_app in Hl as [_ Hx']. rewrite Forall_singleton in Hx'. split; [done|]. split; [done|].
  apply IH; [done| |done]. exact Hb.
Qed.

(** ** Ack blocks *)

Section Blocks.
Context (e : Endianness) (len : Z) (Hlen : number_length len).

Lemma length_concat_blocks l : length (concat (block_wire e len <$> l)) = (length l * (1 + Z.to_nat len))%nat.
Proof.
  induction l as [|b l IH]; [done|]. rewrite fmap_cons. cbn [concat length]. rewrite length_app, IH.
  unfold block_wire. rewrite length_app, store_length, enc_uint_length. lia.
Qed.

Lemma writes_ack_block b : writes e (AppendAckBlock (fst b) len (snd b)) (block_wire e len b).
Proof using Hlen. apply writes_and; [apply writes_uint8|by apply writes_packet_number]. Qed.

(** The empty blocks of a long gap, as far as there is room for blocks. *)
Lemma append_empty_ok n : forall room i w,
  Writer.endianness_ w = e -> 1 <= i ->
  let k := Nat.min room (Z.to_nat (n - i)) in
  let bs := concat (block_wire e len <$> replicate k (255, 0)) in
  fits w (length bs) ->
  append_empty len room i n w = Ret (Some (room - k)%nat) (append w bs).
Proof using Hlen.
  induction room as [|room IH]; intros i w He Hi k bs Hf; simpl append_empty.
  { simpl in *. unfold bs, k. simpl. rewrite append_no_bytes; [done|]. unfold fits in Hf. lia. }
  destruct (Z.ltb_spec i n) as [Hlt|Hge].
  - assert (k = S (Nat.min room (Z.to_nat (n - (i + 1))))) as Hk by (unfold k; lia).
    unfold bs in *. rewrite Hk in *. rewrite replicate_S, fmap_cons in *. cbn [concat] in *.
    rewrite length_app in Hf. unfold mbind, M_bind.
    rewrite (writes_ack_block (255, 0)); [|done|unfold fits in *; lia].
    rewrite IH; [|done|lia|by apply append_fits]. rewrite append_app by done. done.
  - assert (k = O) as Hk by (unfold k; lia). unfold bs in *. rewrite Hk in *. simpl in *.
    rewrite append_no_bytes; [done|]. unfold fits in Hf. lia.
Qed.

Lemma writes_ack_blocks l : forall prev room, below prev l -> prev <= 2 ^ 62 ->
  writes e (append_blocks len prev l room) (concat (block_wire e len <$> take room (gap_blocks prev l))).
Proof using Hlen.
  induction l as [|x l IH]; intros prev room Hb Hp w He Hf.
  { cbn [gap_blocks] in *. rewrite take_nil in Hf |- *. by apply (writes_nil e). }
  destruct room as [|room]; [by apply (writes_nil e)|].
  destruct Hb as (Hx & Hxp & Hb). pose proof (below_nonneg _ _ Hb) as H0.
  destruct (encoded_gaps_spec (prev - imax x)) as [Hg1 Hg2]; [lia|].
  pose proof (encoded_gaps_le (prev - imax x)).
  assert (interval_length x = imax x - imin x) as Elen.
  { unfold interval_length. rewrite Z.geb_leb, (proj2 (Z.leb_gt _ _)), uint64_small by lia. done. }
  cbn [append_blocks]. rewrite (uint64_small (prev - imax x)) by lia.
  simpl gap_blocks in *. set (g := Z.to_nat (encoded_gaps (prev - imax x) - 1)) in *.
  unfold mbind, M_bind.
  destruct (Nat.le_gt_cases (S room) g) as [Hle|Hgt].
  - rewrite take_app_le in * by (rewrite length_replicate; lia).
    rewrite take_replicate, (Nat.min_l (S room) g) in * by lia.
    rewrite append_empty_ok; [|done|lia|]; fold g; rewrite (Nat.min_l (S room) g) by lia; [|done].
    by rewrite Nat.sub_diag.
  - rewrite take_app_ge in * by (rewrite length_replicate; lia).
    rewrite length_replicate, fmap_app, concat_app in *. rewrite length_app in Hf.
    rewrite append_empty_ok; [|done|lia|]; fold g; rewrite (Nat.min_r (S room) g) by lia;
      [|unfold fits in *; lia].
    destruct (S room - g)%nat as [|r] eqn:Hr; [lia|]. rewrite firstn_cons, fmap_cons in *. cbn [concat] in *.
    rewrite length_app in Hf. unfold uint8.
    rewrite (uint64_small ((_ - 1) * 255)), uint64_small, wrap_u_small, Elen by lia.
    set (empties := concat (block_wire e len <$> replicate g (255, 0))) in *.
    set (rest := concat (block_wire e len <$> take r (gap_blocks (imin x) l))) in *.
    set (b := (prev - imax x - (encoded_gaps (prev - imax x) - 1) * 255, imax x - imin x)) in *.
    unfold and_then, mbind, M_bind.
    rewrite (writes_ack_block b); [|done|apply append_fits; unfold fits in *; lia].
    rewrite IH; [|done|lia|done|apply append_fits, append_fits; by rewrite Nat.add_assoc in *].
    rewrite (append_app w empties), append_app, <- app_assoc; [done| |];
      rewrite ?length_app; unfold fits in *; fold rest; lia.
Qed.
End Blocks.

(** ** What the blocks add up to *)

Lemma gap_blocks_app a : forall prev b,
  gap_blocks prev (a ++ b) = gap_blocks prev a ++ gap_blocks (fold_left (fun _ x => imin x) a prev) b.
Proof.
  induction a as [|x a IH]; intros prev b; [done|]. cbn [gap_blocks app fold_left]. by rewrite IH, <- app_assoc.
Qed.

(** The intervals [ack_info_loop] counts, all of them unless there are more
    blocks than a byte can count. *)
Record counts (prev : Z) (l : list Interval) (info info' : AckFrameInfo) (seen : list Interval) : Prop := {
  cs_prefix : exists rest, l = seen ++ rest /\ (rest = [] \/ 255 <= num_ack_blocks info');
  cs_num : num_ack_blocks info' = num_ack_blocks info + Z.of_nat (length (gap_blocks prev seen));
  cs_first : first_block_length info' = first_block_length info;
  cs_max : max_block_length info <= max_block_length info';
  cs_lengths : Forall (fun x => imax x - imin x <= max_block_length info') seen;
  cs_least : max_block_length info' = max_block_length info \/
             exists x, x ∈ seen /\ max_block_length info' = imax x - imin x
}.

Lemma gap_blocks_length x prev l : 1 <= prev - imax x <= 2 ^ 62 ->
  Z.of_nat (length (gap_blocks prev (x :: l))) =
  encoded_gaps (prev - imax x) + Z.of_nat (length (gap_blocks (imin x) l)).
Proof.
  intros Hg. destruct (encoded_gaps_spec _ Hg). cbn [gap_blocks]. rewrite length_app, length_replicate.
  cbn [length]. lia.
Qed.

Lemma ack_info_loop_spec l : forall prev info, below prev l -> prev <= 2 ^ 62 -> 0 <= num_ack_blocks info ->
  exists seen, counts prev l info (ack_info_loop prev l info) seen.
Proof.
  induction l as [|x l IH]; intros prev info Hb Hp Hn.
  { exists []. split; simpl; eauto; lia. }
  destruct Hb as (Hx & Hxp & Hb). pose proof (below_nonneg _ _ Hb) as H0. simpl ack_info_loop.
  destruct (Z.ltb_spec (num_ack_blocks info) 255) as [Hlt|Hge].
  2:{ exists []. split; simpl; eauto; lia. }
  destruct (encoded_gaps_spec (prev - imax x)) as [Hg1 _]; [lia|].
  pose proof (encoded_gaps_le (prev - imax x)).
  assert (interval_length x = imax x - imin x) as Elen.
  { unfold interval_length. rewrite Z.geb_leb, (proj2 (Z.leb_gt _ _)), uint64_small by lia. done. }
  rewrite (uint64_small (prev - imax x)), uint64_small, Elen by lia.
  set (info' := {| max_block_length := _ |}).
  destruct (IH (imin x) info') as [seen Hs]; [done|lia|unfold info'; simpl; lia|].
  destruct Hs as [(rest & -> & Hrest) Hnum Hfirst Hmax Hlens Hleast]. unfold info' in *. simpl in *.
  exists (x :: seen). split.
  - by exists rest.
  - rewrite Hnum, gap_blocks_length by lia. lia.
  - done.
  - lia.
  - constructor; [lia|done].
  - destruct Hleast as [->|(y & Hy & ->)]; [|right; exists y; split; [by right|done]].
    destruct (Z.max_spec (max_block_length info) (imax x - imin x)) as [[_ ->]|[_ ->]]; [|by left].
    right. exists x. split; [left|done].
Qed.

(** ** Acks that can be sent *)

(** The packets are a set of packet numbers, the largest is the one announced;
    times are values of their type, and none is sent of the packets received. *)
Record ackable (v : Z) (incremental : bool) (a : QuicAckFrame) : Prop := {
  ak_wf : wf (packets a);
  ak_largest : match rev (packets a) with [] => largest_acked a = 0 | x :: _ => largest_acked a = imax x - 1 end;
  ak_limit : 0 <= largest_acked a < packet_limit v - 1;
  ak_delay : 0 <= ack_delay_time a < 2 ^ 63;
  ak_times : incremental = true \/ received_packet_times a = []
}.

Lemma min_length_ok v n : number_length (GetMinPacketNumberLength v n).
Proof.
  unfold GetMinPacketNumberLength, number_length.
  repeat case_match; lia.
Qed.

Lemma min_length_fits v n : 0 <= n < packet_limit v -> n < 256 ^ GetMinPacketNumberLength v n.
Proof.
  unfold packet_limit, GetMinPacketNumberLength. rewrite !Z.shiftl_1_l. intros Hn.
  destruct (Z.ltb_spec n (2 ^ (1 * 8))); [simpl in *; lia|]. destruct (Z.ltb_spec n (2 ^ (2 * 8))); [simpl in *; lia|].
  destruct (Z.ltb_spec n (2 ^ (4 * 8))); [simpl in *; lia|]. destruct (v =? 41); simpl; lia.
Qed.

(** Zero is written where it already is. *)
Lemma WriteUInt8AtOffset_zero w bs k : bs !! k = Some 0 -> fits w (length bs) ->
  Writer.WriteUInt8AtOffset 0 (Writer.length_ w + k) (append w bs) = Ret true (append w bs).
Proof.
  intros Hk Hf. pose proof (lookup_lt_Some _ _ _ Hk) as Hlt. pose proof (append_capacity w bs Hf) as Hcap.
  unfold Writer.WriteUInt8AtOffset, mbind, M_bind, get.
  assert (Writer.length_ (append w bs) = (Writer.length_ w + length bs)%nat) as -> by done.
  destruct (Nat.ltb_spec (Writer.length_ w + length bs) (Writer.length_ w + k)); [lia|].
  unfold modify. set (w1 := Writer.set_length (Writer.length_ w + k) (append w bs)).
  rewrite WriteBytes_ok by (unfold fits, w1 in *; simpl Writer.length_; unfold Writer.capacity_ in *; simpl in *; lia).
  f_equal. unfold Writer.set_length, append, Writer.copy_at, w1. simpl. f_equal.
  unfold fits, Writer.capacity_ in Hf. set (buf := _ ++ bs ++ _).
  assert (buf !! (Writer.length_ w + k)%nat = Some 0) as Hb.
  { unfold buf. rewrite lookup_app_r by (rewrite length_take; lia). rewrite lookup_app_l by (rewrite length_take; lia).
    rewrite <- Hk. f_equal. rewrite length_take. lia. }
  rewrite <- (take_drop_middle _ _ _ Hb) at 3. rewrite Nat.add_1_r. done.
Qed.

(** One statement of a function that writes: [acc] has been written, [bs] is next,
    [rest] still follows. *)
Lemma and_then_append {e m k acc bs rest w r} : writes e m bs -> Writer.endianness_ w = e ->
  fits w (length (acc ++ bs ++ rest)) ->
  (fits w (length ((acc ++ bs) ++ rest)) -> k (append w (acc ++ bs)) = r) ->
  (m &; k) (append w acc) = r.
Proof.
  intros Hm He Hf Hk. rewrite !length_app in Hf. unfold and_then, mbind, M_bind.
  rewrite Hm, append_app; [|unfold fits in *; lia|done|apply append_fits; unfold fits in *; lia].
  apply Hk. by rewrite !length_app, <- Nat.add_assoc.
Qed.

Lemma and_then_true {S} (k : M S bool) s : (mret true &; k) s = k s.
Proof. done. Qed.

Lemma writes_ufloat16 e x : writes e (Writer.WriteUFloat16 x) (enc_uint e 2 (Writer.encode_ufloat16 x)).
Proof. intros w <-. rewrite enc_uint_length. apply WriteUInt_ok. Qed.

Lemma writes_if e (c : bool) m a : writes e m a -> writes e (if c then m else mret true) (if c then a else []).
Proof. destruct c; [done|]. intros _. apply writes_nil. Qed.

(** The rest of the frame: no time, or none to be sent. *)
Lemma no_times_written f a w acc k :
  let v := transport_version (Framer.version_ f) in
  Framer.use_incremental_ack_processing_ f = true \/ received_packet_times a = [] ->
  Writer.endianness_ w = Framer.endianness_of v ->
  (v = 41 -> acc !! k = Some 0) ->
  let bs := if v =? 41 then [] else [0] in
  fits w (length (acc ++ bs)) ->
  (w' ← get;
   if negb (Framer.use_incremental_ack_processing_ f) &&
      (uint64 (Z.of_nat (Writer.capacity_ w') - Z.of_nat (Writer.length_ w')) >=? GetAckFrameTimeStampSize a)
   then AppendTimestampsToAckFrame f a (if v =? 41 then (Writer.length_ w + k)%nat else O)
   else if negb (v =? 41) then Writer.WriteBytes [0] else mret true) (append w acc) =
  Ret true (append w (acc ++ bs)).
Proof.
  intros v Ht He Hk bs Hf. unfold mbind, M_bind, get.
  assert (writes (Framer.endianness_of v) (if negb (v =? 41) then Writer.WriteBytes [0] else mret true) bs) as Hw.
  { unfold bs. destruct (v =? 41); [apply writes_nil|apply writes_bytes]. }
  destruct Ht as [->|Ht]; cbn [negb andb].
  { rewrite Hw; [|done|apply append_fits; by rewrite <- length_app]. rewrite append_app; [done|by rewrite <- length_app]. }
  assert (GetAckFrameTimeStampSize a = 0) as -> by (unfold GetAckFrameTimeStampSize; by rewrite Ht).
  rewrite (proj2 (Z.geb_le _ 0)) by apply uint64_range. 
  destruct (negb (Framer.use_incremental_ack_processing_ f)); cbn [andb].
  2:{ rewrite Hw; [|done|apply append_fits; by rewrite <- length_app]. rewrite append_app; [done|by rewrite <- length_app]. }
  unfold AppendTimestampsToAckFrame. fold v. rewrite Ht. cbv zeta.
  change (Z.of_nat (length (@nil (Z * Z)))) with 0. change (0 >? 255) with false. cbv iota.
  unfold and_then, mbind, M_bind. unfold bs in *. destruct (Z.eqb_spec v 41) as [Hv|Hv]; cbn [negb].
  - rewrite app_nil_r in *. rewrite WriteUInt8AtOffset_zero; [done|auto|done].
  - rewrite (writes_bytes (Framer.endianness_of v)); [|done|apply append_fits; by rewrite <- length_app].
    rewrite append_app; [done|by rewrite <- length_app].
Qed.

Lemma get_bind {S A} (k : S -> M S A) s : (get ≫= k) s = k s s.
Proof. done. Qed.

(** The intervals of an ack below the first block. *)
Definition lower (a : QuicAckFrame) : list (Z * Z) :=
  match rev (packets a) with [] => [] | x :: l => gap_blocks (imin x) l end.

Lemma ackable_below v incremental a x l : ackable v incremental a -> rev (packets a) = x :: l ->
  below (imin x) l /\ imin x < imax x /\ imax x = largest_acked a + 1 /\ imax x <= 2 ^ 62.
Proof.
  intros [Hwf Hlarge Hl _ _] Hr. rewrite Hr in Hlarge. pose proof (packet_limit_bound v).
  assert (packets a = rev l ++ [x]) as Hp by (rewrite <- (rev_involutive (packets a)), Hr; done).
  rewrite Hp in Hwf. apply wf_snoc in Hwf as (Hwl & Hx & [Hn _] & Hb).
  split; [|unfold nonempty in Hx; lia]. rewrite <- (rev_involutive l). by apply below_rev.
Qed.

Lemma no_blocks_counted a : rev (packets a) = [] -> num_ack_blocks (GetAckFrameInfo a) = 0.
Proof. intros H. unfold GetAckFrameInfo. by rewrite H. Qed.

Lemma blocks_written_le available len num : ack_blocks_written available len num <= num.
Proof. unfold ack_blocks_written. rewrite Z.gtb_ltb. destruct (Z.ltb_spec 255 (Z.min num (uint64 (available ÷ (len + 1))))); lia. Qed.

Lemma writes_lower v incremental a e len n : ackable v incremental a -> number_length len ->
  n <= num_ack_blocks (GetAckFrameInfo a) ->
  writes e
    (if n >? 0 then
       match rev (packets a) with
       | [] => crashed EndIterator
       | last :: l => append_blocks len (imin last) l (Z.to_nat n)
       end
     else mret true)
    (concat (block_wire e len <$> take (Z.to_nat n) (lower a))).
Proof.
  intros Ha Hlen Hn. unfold lower. rewrite Z.gtb_ltb. destruct (Z.ltb_spec 0 n) as [Hpos|Hneg].
  2:{ rewrite Z2Nat.nonpos by done. apply writes_nil. }
  destruct (rev (packets a)) as [|x l] eqn:Hr; [rewrite no_blocks_counted in Hn by done; lia|].
  destruct (ackable_below _ _ _ _ _ Ha Hr) as (Hb & Hx & Hm & Hlim). apply writes_ack_blocks; [done..|lia].
Qed.

Lemma ack_written f a w :
  let v := transport_version (Framer.version_ f) in
  ackable v (Framer.use_incremental_ack_processing_ f) a ->
  Writer.endianness_ w = Framer.endianness_of v ->
  let bs := ack_wire v a (Writer.capacity_ w - Writer.length_ w) in
  fits w (length bs) ->
  AppendAckFrameAndTypeByte f a w = Ret true (append w bs).
Proof.
  intros v Ha He bs Hf.
  assert (Writer.length_ w <= Writer.capacity_ w)%nat as Hf0 by (unfold fits in Hf; lia).
  unfold AppendAckFrameAndTypeByte, bs, ack_wire in *. fold v. clear bs. unfold LargestAcked. rewrite get_bind.
  rewrite <- Nat2Z.inj_sub by done. set (room := (Writer.capacity_ w - Writer.length_ w)%nat) in *. clearbody room.
  set (info := GetAckFrameInfo a) in *.
  set (ll := GetMinPacketNumberLength v (largest_acked a)) in *.
  set (bl := GetMinPacketNumberLength v (max_block_length info)) in *.
  pose proof (blocks_written_le (available_ack_bytes (Z.of_nat room) bl ll (num_ack_blocks info)) bl (num_ack_blocks info)) as Hn.
  set (n := ack_blocks_written _ _ _) in *. cbv zeta in *. fold (lower a) in *.
  assert (uint64 (ack_delay_time a) = ack_delay_time a) as -> by (apply uint64_small; pose proof (ak_delay _ _ _ Ha); lia).
  match goal with |- ?m w = ?r => replace (m w) with (m (append w [])) by (by rewrite append_no_bytes) end.
  pose proof (min_length_ok v (largest_acked a)) as Hll. pose proof (min_length_ok v (max_block_length info)) as Hbl.
  fold ll in Hll. fold bl in Hbl. set (e := Framer.endianness_of v) in *.
  set (count := if n >? 0 then store 1 n else []) in *.
  assert (writes e (if n >? 0 then Writer.WriteBytes (store 1 n) else mret true) count) as Hcount
    by apply writes_if, writes_bytes.
  pose proof (writes_lower _ _ a e bl n Ha Hbl Hn) as Hlower.
  pose proof (no_times_written f a w) as Htail. fold v e in Htail. cbv zeta in Htail.
  specialize (Htail : forall acc k, _). pose proof (ak_times _ _ _ Ha) as Ht.
  destruct (Z.eqb_spec v 41) as [E41|E41]; cbn [negb] in *.
  - rewrite <- (app_assoc count) in Hf |- *.
    apply (and_then_append (acc := []) (writes_uint8 e _) He Hf). clear Hf. intros Hf.
    apply (and_then_append Hcount He Hf). clear Hf. intros Hf. rewrite get_bind.
    apply (and_then_append (writes_uint8 e 0) He Hf). clear Hf. intros Hf.
    apply (and_then_append (writes_packet_number e _ _ Hll) He Hf). clear Hf. intros Hf.
    apply (and_then_append (writes_ufloat16 e _) He Hf). clear Hf. intros Hf.
    rewrite and_then_true. apply (and_then_append (writes_packet_number e _ _ Hbl) He Hf). clear Hf. intros Hf.
    apply (and_then_append Hlower He Hf). clear Hf. intros Hf.
    etransitivity; [refine (Htail _ (length ([] ++ store 1 _ ++ count)) Ht He _ Hf)|].
    + intros _. rewrite <- !app_assoc. cbn [app]. rewrite (app_assoc (store 1 _) count).
      rewrite lookup_app_r, Nat.sub_diag by done. done.
    + by rewrite <- !app_assoc.
  - apply (and_then_append (acc := []) (writes_uint8 e _) He Hf). clear Hf. intros Hf.
    rewrite and_then_true, get_bind, and_then_true. cbn [app] in Hf.
    apply (and_then_append (writes_packet_number e _ _ Hll) He Hf). clear Hf. intros Hf.
    apply (and_then_append (writes_ufloat16 e _) He Hf). clear Hf. intros Hf.
    apply (and_then_append Hcount He Hf). clear Hf. intros Hf.
    apply (and_then_append (writes_packet_number e _ _ Hbl) He Hf). clear Hf. intros Hf.
    apply (and_then_append Hlower He Hf). clear Hf. intros Hf.
    etransitivity; [refine (Htail _ O Ht He _ Hf); done|]. by rewrite <- !app_assoc.
Qed.
