(* ===== verification/FrameBuild.v ===== *)
(** [BuildDataPacket] appends the reference encoding of its frames.  Stream data
    comes from the frames or from a producer; what a producer promises the framer
    is a class. *)

From S2P Require Import Prelude World QuicData Wire IntervalSet PacketNumberQueue Framer FrameWriter FrameWire AckWire.

(** ** What a producer promises *)

(** [supplies p l]: asked for the pieces of [l] in this order, the producer has
    them; a piece is a stream, an offset and the bytes. *)
Class Supplier (P : Type) `{!StreamFrameDataProducer P} : Type := {
  supplies : P -> list (Z * Z * list Z) -> Prop;
  supply : forall p id off d rest w,
    supplies p ((id, off, d) :: rest) -> fits w (length d) ->
    exists p', WriteStreamData id off (Z.of_nat (length d)) w p = Ret (true, append w d) p' /\ supplies p' rest
}.

(** The pieces a frame asks for. *)
Definition requests (frame : QuicFrame) : list (Z * Z * list Z) :=
  match frame with
  | STREAM_FRAME s => if decide (content s = []) then [] else [(stream_id s, offset s, content s)]
  | _ => []
  end.

(** The frame as it is given to the framer: without the data when there is a
    producer. *)
Definition hand_over (has_producer : bool) (frame : QuicFrame) : QuicFrame :=
  match frame with
  | STREAM_FRAME s =>
      if has_producer
      then STREAM_FRAME {| stream_id := stream_id s; fin := fin s; data_length := data_length s;
                           data_buffer := None; offset := offset s |}
      else frame
  | _ => frame
  end.

Definition frame_ok (f : Framer.Framer) (header : QuicPacketHeader) (frame : QuicFrame) : Prop :=
  match frame with
  | ACK_FRAME a => ackable (transport_version (Framer.version_ f)) (Framer.use_incremental_ack_processing_ f) a
  | _ => sendable header frame
  end.

Lemma wr_ok {P} e (m : M Writer.Writer bool) bs (b : Building P) :
  writes e m bs -> Writer.endianness_ (writer b) = e -> fits (writer b) (length bs) ->
  wr m b = Ret true (set_writer (append (writer b) bs) b).
Proof. intros Hm He Hf. unfold wr, zoom. simpl. by rewrite Hm. Qed.

Section Build.
Context {P : Type} `{HS : Supplier P}.

(** The state between two frames. *)
Definition ready (f : Framer.Framer) (has_producer : bool) (l : list (Z * Z * list Z)) (b : Building P) : Prop :=
  builder b = f /\ Writer.endianness_ (writer b) = Framer.endianness f /\
  match data_producer_ b with None => has_producer = false | Some p => has_producer = true /\ supplies p l end.

Lemma ready_written f has l b bs : ready f has l b -> ready f has l (set_writer (append (writer b) bs) b).
Proof. done. Qed.

(** A frame written by statements on the writer alone. *)
Lemma built f has l b m bs :
  ready f has l b -> writes (Framer.endianness f) m bs -> fits (writer b) (length bs) ->
  exists b', wr m b = Ret true b' /\ writer b' = append (writer b) bs /\ ready f has l b'.
Proof.
  intros Hr Hw Hf. pose proof Hr as (_ & He & _). eexists. split; [by apply (wr_ok (Framer.endianness f))|].
  split; [done|by apply ready_written].
Qed.

Lemma writes_buffer e d n : n = Z.of_nat (length d) -> writes e (write_buffer (Some d) n) d.
Proof.
  intros ->. unfold write_buffer. rewrite (proj2 (Z.ltb_ge _ _)), Nat2Z.id, take_ge by lia. apply writes_bytes.
Qed.

(** [AppendStreamFrame] after the type byte and the fields [h] before the data. *)
Lemma append_stream_frame_eq f b header s last t h :
  let v := transport_version (Framer.version_ f) in
  let w := append (writer b) (t ++ h) in
  builder b = f -> Writer.endianness_ (writer b) = Framer.endianness f ->
  writes (Framer.endianness f) (Writer.WriteUInt8 (stream_type_byte v s last)) t ->
  writes (Framer.endianness f) (append_stream_header v s last) h ->
  fits (writer b) (length (t ++ h)) ->
  append_frame header (STREAM_FRAME s) last b =
  match data_producer_ b with
  | Some p =>
      if data_length s =? 0 then Ret true (set_writer w b)
      else match WriteStreamData (stream_id s) (offset s) (data_length s) w p with
           | Ret (ok, w) p' => Ret ok {| builder := f; data_producer_ := Some p'; writer := w |}
           | Crash c => Crash c
           end
  | None => wr (write_buffer (data_buffer s) (data_length s)) (set_writer w b)
  end.
Proof using Type.
  intros v w Hb He Ht Hh Hf. rewrite length_app in Hf.
  unfold append_frame, AppendStreamFrame, and_then, mbind, M_bind, gets, get. rewrite Hb. cbn [AppendTypeByte]. fold v.
  rewrite (wr_ok _ _ t _ Ht He) by (unfold fits in *; lia).
  assert (Framer.version_ (builder (set_writer (append (writer b) t) b)) = Framer.version_ f) as -> by by rewrite <- Hb.
  fold v. rewrite (wr_ok _ _ h _ Hh) by (done || by apply append_fits).
  cbn [set_writer writer data_producer_ builder]. rewrite append_app by done. fold w.
  destruct (data_producer_ b); [|done]. destruct (_ =? 0); [done|].
  cbn [set_writer writer]. destruct (WriteStreamData _ _ _ _ _) as [[ok w'] p'|]; [|done].
  unfold modify. cbn [set_writer builder]. by rewrite Hb.
Qed.

(** The fields of a stream frame before its data. *)
Lemma stream_wire_split v s last : exists h : list Z,
  stream_wire v s last = (store 1 (stream_type_byte v s last) ++ h) ++ content s /\
  (u32 (stream_id s) -> u64 (offset s) -> 0 <= data_length s < 2 ^ 16 ->
   writes (Framer.endianness_of v) (append_stream_header v s last) h).
Proof.
  eexists. split; [|by apply writes_stream_header]. unfold stream_wire. by rewrite <- !app_assoc.
Qed.

Lemma stream_frame_built f has l b header s last :
  let v := transport_version (Framer.version_ f) in
  ready f has (requests (STREAM_FRAME s) ++ l) b -> sendable header (STREAM_FRAME s) ->
  fits (writer b) (length (stream_wire v s last)) ->
  exists b', append_frame header (hand_over has (STREAM_FRAME s)) last b = Ret true b' /\
    writer b' = append (writer b) (stream_wire v s last) /\ ready f has l b'.
Proof.
  intros v (Hb & He & Hp) (Hid & Ho & d & Hd & Hn & Hmax) Hf.
  destruct (stream_wire_split v s last) as (h & Eh & Hh). specialize (Hh Hid Ho ltac:(lia)).
  rewrite Eh in Hf |- *. set (t := store 1 _) in *. rewrite length_app in Hf.
  assert (fits (writer b) (length (t ++ h))) as Hth by (unfold fits in *; lia).
  unfold requests, content in *. rewrite Hd in *.
  destruct (data_producer_ b) as [p|] eqn:Ep.
  - destruct Hp as [-> Hp]. cbn [hand_over]. set (s' := {| stream_id := _ |}).
    rewrite (append_stream_frame_eq f b header s' last t h Hb He (writes_uint8 _ _) Hh Hth), Ep.
    unfold s'. cbn [stream_id offset data_length]. rewrite Hn. case_decide as Hempty.
    + subst d. rewrite app_nil_r. eexists. split; [done|]. split; [done|].
      unfold ready. cbn [set_writer builder writer data_producer_]. by rewrite Ep.
    + rewrite (proj2 (Z.eqb_neq _ 0)) by (destruct d; [done|cbn [length]; lia]).
      destruct (supply p _ _ d _ (append (writer b) (t ++ h)) Hp) as (p' & -> & Hp'); [by apply append_fits|].
      eexists. split; [done|]. cbn [writer]. rewrite append_app by done. by unfold ready.
  - subst has. cbn [hand_over].
    rewrite (append_stream_frame_eq f b header s last t h Hb He (writes_uint8 _ _) Hh Hth), Ep, Hd.
    rewrite (wr_ok (Framer.endianness f) _ d); [|by apply writes_buffer|done|by apply append_fits].
    eexists. split; [done|]. cbn [set_writer writer]. rewrite append_app by done. split; [done|].
    unfold ready. cbn [set_writer builder writer data_producer_]. by rewrite Ep.
Qed.

(** The type byte, then the frame, both on the writer alone. *)
Lemma type_then_frame f has l b (frame : QuicFrame) (k : M (Building P) bool) m bs last :
  let v := transport_version (Framer.version_ f) in
  ready f has l b -> (forall b, k b = wr m b) ->
  (AppendTypeByte v frame last &; m) (writer b) = Ret true (append (writer b) bs) ->
  exists b', (wr (AppendTypeByte v frame last) &; k) b = Ret true b' /\
    writer b' = append (writer b) bs /\ ready f has l b'.
Proof using Type.
  intros v Hr Hk Hw. exists (set_writer (append (writer b) bs) b). split; [|by split].
  unfold and_then, mbind, M_bind in *. unfold wr at 1, zoom. simpl.
  destruct (AppendTypeByte v frame last (writer b)) as [ok w|]; [|done]. destruct ok; [|done].
  rewrite Hk. unfold wr, zoom. simpl. by rewrite Hw.
Qed.

(** The bytes after the type byte. *)
Lemma frame_writes f header frame last :
  let v := transport_version (Framer.version_ f) in
  sendable header frame ->
  match frame with
  | RST_STREAM_FRAME _ id error_code byte_offset =>
      writes (Framer.endianness f) (AppendTypeByte v frame last &; AppendRstStreamFrame v id error_code byte_offset)
        (frame_wire v header frame last 0)
  | CONNECTION_CLOSE_FRAME error_code error_details =>
      writes (Framer.endianness f) (AppendTypeByte v frame last &; AppendConnectionCloseFrame error_code error_details)
        (frame_wire v header frame last 0)
  | GOAWAY_FRAME _ error_code id reason_phrase =>
      writes (Framer.endianness f) (AppendTypeByte v frame last &; AppendGoAwayFrame error_code id reason_phrase)
        (frame_wire v header frame last 0)
  | WINDOW_UPDATE_FRAME _ id byte_offset =>
      writes (Framer.endianness f) (AppendTypeByte v frame last &; AppendWindowUpdateFrame id byte_offset)
        (frame_wire v header frame last 0)
  | BLOCKED_FRAME _ id =>
      writes (Framer.endianness f) (AppendTypeByte v frame last &; AppendBlockedFrame id)
        (frame_wire v header frame last 0)
  | STOP_WAITING_FRAME least_unacked =>
      writes (Framer.endianness f) (AppendTypeByte v frame last &; AppendStopWaitingFrame header least_unacked)
        (frame_wire v header frame last 0)
  | PING_FRAME _ | MTU_DISCOVERY_FRAME =>
      writes (Framer.endianness f) (AppendTypeByte v frame last &; mret true) (frame_wire v header frame last 0)
  | _ => True
  end.
Proof using Type.
  intros v Hs. pose proof truncated_length as Ht.
  destruct frame; cbn [AppendTypeByte type frame_wire sendable] in *; try exact I;
    fold (Framer.endianness f).
  1: apply writes_rst_stream, Hs.
  6, 7: apply (writes_and _ _ _ (store 1 7) []); [apply writes_uint8|apply writes_nil].
  all: apply writes_and; [apply writes_uint8|].
  - unfold AppendConnectionCloseFrame. rewrite uint32_small by done.
    apply writes_and; [apply writes_uint|apply writes_string16]. specialize (Ht error_details). lia.
  - unfold AppendGoAwayFrame. rewrite !uint32_small by apply Hs.
    apply writes_and; [apply writes_uint|]. apply writes_and; [apply writes_uint|apply writes_string16].
    specialize (Ht reason_phrase). lia.
  - unfold AppendWindowUpdateFrame. rewrite uint32_small by apply Hs. apply writes_and; apply writes_uint.
  - unfold AppendBlockedFrame. rewrite uint32_small by apply Hs. apply writes_uint.
  - by apply writes_stop_waiting.
Qed.

Lemma frame_built f has l b header frame last :
  let v := transport_version (Framer.version_ f) in
  let bs := frame_wire v header frame last (Writer.capacity_ (writer b) - Writer.length_ (writer b)) in
  ready f has (requests frame ++ l) b -> frame_ok f header frame -> fits (writer b) (length bs) ->
  exists b', append_frame header (hand_over has frame) last b = Ret true b' /\
    writer b' = append (writer b) bs /\ ready f has l b'.
Proof.
  intros v bs Hr Hok Hf. pose proof Hr as (Hb & He & _).
  assert (forall k, append_frame header frame last b = (wr (AppendTypeByte v frame last) &; k) b ->
    forall m, (forall b, k b = wr m b) -> ready f has l b -> hand_over has frame = frame ->
    (AppendTypeByte v frame last &; m) (writer b) = Ret true (append (writer b) bs) ->
    exists b', append_frame header (hand_over has frame) last b = Ret true b' /\
      writer b' = append (writer b) bs /\ ready f has l b') as Hgo.
  { intros k Hk m Hm Hr' -> Hw. rewrite Hk. by apply (type_then_frame f has l b frame k m). }
  assert (forall k, (forall b, builder b = f -> append_frame header frame last b = (wr (AppendTypeByte v frame last) &; k) b) ->
    append_frame header frame last b = (wr (AppendTypeByte v frame last) &; k) b) as Hunf by auto.
  pose proof (frame_writes f header frame last) as Hfw. fold v in Hfw.
  destruct frame; cbn [requests app frame_ok] in *; try specialize (Hfw Hok).
  9: by apply (stream_frame_built f has l b header f0 last).
  all: eapply Hgo; [unfold append_frame, mbind, M_bind, gets; rewrite Hb; reflexivity| |done|done|].
  all: try (intros b0; reflexivity).
  all: try (apply Hfw; [done|exact Hf]).
  - apply padding_written; [done| |exact Hf]. unfold bs, frame_wire, fits in *. cbn [sendable] in Hok.
    destruct (_ || (num_padding_bytes <? 0)) eqn:E; rewrite length_replicate in Hf; [lia|].
    apply orb_false_iff in E as [_ E%Z.ltb_ge]. lia.
  - intros b0. by destruct b0.
  - apply ack_written; [done|done|exact Hf].
  - intros b0. by destruct b0.
Qed.

(** All the frames of a packet. *)
Lemma frames_built f has header frames : forall l b,
  let v := transport_version (Framer.version_ f) in
  let bs := frames_wire v header frames (Writer.capacity_ (writer b) - Writer.length_ (writer b)) in
  ready f has (concat (requests <$> frames) ++ l) b -> Forall (frame_ok f header) frames ->
  fits (writer b) (length bs) ->
  exists b', append_frames header (hand_over has <$> frames) b = Ret true b' /\
    writer b' = append (writer b) bs /\ ready f has l b'.
Proof.
  induction frames as [|frame frames IH]; intros l b v bs Hr Hok Hf.
  { exists b. split; [done|]. split; [|done]. cbn [frames_wire] in bs. unfold bs. rewrite append_no_bytes; [done|].
    unfold fits in Hf. lia. }
  change (concat (requests <$> frame :: frames)) with (requests frame ++ concat (requests <$> frames)) in Hr.
  rewrite fmap_cons. cbn [append_frames]. cbn [frames_wire] in bs. rewrite <- app_assoc in Hr.
  apply Forall_cons in Hok as [Hok Hoks].
  assert (match hand_over has <$> frames with [] => true | _ => false end =
          match frames with [] => true | _ => false end) as -> by by destruct frames.
  set (last := match frames with [] => true | _ => false end) in *. unfold bs in *.
  set (bs1 := frame_wire v header frame last _) in *. set (room := (_ - _)%nat) in bs1, Hf |- *.
  rewrite length_app in Hf.
  destruct (frame_built f has _ b header frame last Hr Hok) as (b1 & E1 & Ew & Hr1); [fold v room bs1; unfold fits in *; lia|].
  fold v room bs1 in Ew.
  assert (Writer.capacity_ (writer b1) - Writer.length_ (writer b1) = room - length bs1)%nat as Hroom.
  { rewrite Ew, append_capacity by (unfold fits in *; lia). simpl. unfold room. lia. }
  destruct (IH l b1 Hr1 Hoks) as (b2 & E2 & Ew2 & Hr2).
  { fold v. rewrite Hroom, Ew. apply append_fits. done. }
  exists b2. unfold and_then, mbind, M_bind. rewrite E1, E2. split; [done|]. split; [|done].
  rewrite Ew2. fold v. rewrite Hroom, Ew. by apply append_app.
Qed.
End Build.
