(* ===== verification/FrameRead.v ===== *)
(** Reading back what was written: on the reference encoding of a frame the
    framer calls its visitor with that frame. *)

From S2P Require Import Prelude World QuicData Wire IntervalSet PacketNumberQueue Framer FrameWriter FrameReader FrameWire.
Import Interval.

(** ** Readers that consume *)

(** [m] on [bs] followed by anything reads [x] and goes on after [bs]. *)
Definition reads {A} (e : Endianness) (m : M Reader.Reader (option A)) (bs : list Z) (x : A) : Prop :=
  forall pre rest, m (reader_at e pre (bs ++ rest)) = Ret (Some x) (reader_at e (pre ++ bs) rest).

Lemma reads_uint8 e x : 0 <= x < 256 -> reads e Reader.ReadUInt8 (store 1 x) x.
Proof.
  intros Hx pre rest. unfold Reader.ReadUInt8, mbind, M_bind. rewrite ReadBytes_ok by done.
  assert (load (store 1 x) = x) as Hl by (rewrite load_store; by apply Z.mod_small).
  cbv [fmap option_fmap option_map mret M_ret]. by rewrite Hl.
Qed.

Lemma reads_uint e n x : 0 <= x < 256 ^ Z.of_nat n -> reads e (Reader.ReadUInt n) (enc_uint e n x) x.
Proof. intros Hx pre rest. by apply ReadUInt_ok. Qed.

Lemma reads_to_uint64 e n x : (n <= 8)%nat -> 0 <= x < 256 ^ Z.of_nat n ->
  reads e (Reader.ReadBytesToUInt64 n) (enc_uint e n x) x.
Proof. intros Hn Hx pre rest. by apply ReadBytesToUInt64_ok. Qed.

Lemma reads_string e s n : n = length s -> reads e (Reader.ReadStringPiece n) s s.
Proof. intros -> pre rest. by apply ReadStringPiece_ok. Qed.

Lemma reads_string16 e s : Z.of_nat (length s) < 2 ^ 16 ->
  reads e Reader.ReadStringPiece16 (enc_uint e 2 (Z.of_nat (length s)) ++ s) s.
Proof.
  intros Hs pre rest. unfold Reader.ReadStringPiece16, Reader.ReadUInt16, mbind, M_bind.
  rewrite <- app_assoc, (reads_uint e 2) by (simpl; lia). rewrite Nat2Z.id, ReadStringPiece_ok by done.
  by rewrite app_assoc.
Qed.

(** The framer [f] before [rest]. *)
Definition at_ (f : Framer.Framer) (pre rest : list Z) : Parsing :=
  {| framer := f; reader := reader_at (Framer.endianness f) pre rest |}.

Definition parses {A} (f : Framer.Framer) (m : M Parsing (option A)) (bs : list Z) (x : A) : Prop :=
  forall pre rest, m (at_ f pre (bs ++ rest)) = Ret (Some x) (at_ f (pre ++ bs) rest).

Section Parses.
Context (f : Framer.Framer).

Lemma parses_ret {A} (x : A) : parses f (mret (Some x)) [] x.
Proof. intros pre rest. by rewrite app_nil_r. Qed.

Lemma parses_bind {A B} (m : M Parsing (option A)) (k : A -> M Parsing (option B)) a b x y :
  parses f m a x -> parses f (k x) b y -> parses f (bind_some m k) (a ++ b) y.
Proof.
  intros Hm Hk pre rest. unfold bind_some, mbind, M_bind. rewrite <- app_assoc, Hm, Hk. by rewrite app_assoc.
Qed.

Lemma parses_read {A} (m : M Reader.Reader (option A)) d bs x :
  reads (Framer.endianness f) m bs x -> parses f (read m d) bs x.
Proof. intros Hm pre rest. unfold read, rd, zoom, mbind, M_bind. simpl. by rewrite Hm. Qed.

(** The last statement of a chain. *)
Lemma parses_last {A B} (m : M Parsing (option A)) (k : A -> M Parsing (option B)) a x y :
  parses f m a x -> k x = mret (Some y) -> parses f (bind_some m k) a y.
Proof.
  intros Hm Hk. rewrite <- (app_nil_r a). eapply parses_bind; [exact Hm|]. rewrite Hk. apply parses_ret.
Qed.
End Parses.

(** ** Frames *)

Definition clip (last error_code : Z) : Z := if error_code >=? last then last else error_code.

(** The visitor's call for a frame other than an ack, of [n] bytes. *)
Definition visit_of (frame : QuicFrame) (n : nat) : Visit :=
  match frame with
  | PADDING_FRAME _ => OnPaddingFrame (Z.of_nat n)
  | RST_STREAM_FRAME _ id error_code byte_offset =>
      OnRstStreamFrame kInvalidControlFrameId id (clip QUIC_STREAM_LAST_ERROR error_code) byte_offset
  | CONNECTION_CLOSE_FRAME error_code error_details =>
      OnConnectionCloseFrame (clip QUIC_LAST_ERROR error_code) (TruncateErrorString error_details)
  | GOAWAY_FRAME _ error_code id reason_phrase =>
      OnGoAwayFrame kInvalidControlFrameId (clip QUIC_LAST_ERROR error_code) id (TruncateErrorString reason_phrase)
  | WINDOW_UPDATE_FRAME _ id byte_offset => OnWindowUpdateFrame kInvalidControlFrameId id byte_offset
  | BLOCKED_FRAME _ id => OnBlockedFrame kInvalidControlFrameId id
  | STOP_WAITING_FRAME least_unacked => OnStopWaitingFrame least_unacked
  | PING_FRAME _ | MTU_DISCOVERY_FRAME => OnPingFrame kInvalidControlFrameId
  | STREAM_FRAME s => OnStreamFrame s
  | ACK_FRAME a => OnAckFrame a
  end.

Section Frames.
Context (f : Framer.Framer).
Notation v := (transport_version (Framer.version_ f)).
Notation e := (Framer.endianness f).

Lemma parses_transport {A} (k : Z -> M Parsing (option A)) bs x :
  parses f (k v) bs x -> parses f (transport ≫= k) bs x.
Proof. intros H pre rest. apply H. Qed.

Lemma parses_rst_stream id error_code byte_offset : u32 id -> u32 error_code -> u64 byte_offset ->
  parses f ProcessRstStreamFrame (tail (rst_stream_wire v id error_code byte_offset))
    (visit_of (RST_STREAM_FRAME 0 id error_code byte_offset) 0).
Proof.
  intros Hid Hc Ho. unfold ProcessRstStreamFrame, rst_stream_wire. fold e. apply parses_transport.
  change (tail (store 1 1 ++ ?x)) with x.
  apply (parses_bind _ _ _ _ _ id); [apply parses_read, reads_uint; done|].
  destruct (v =? 41); cbn [negb].
  - apply (parses_bind _ _ _ [] _ 0); [apply parses_ret|].
    apply (parses_bind _ _ _ _ _ error_code); [apply parses_read, reads_uint; done|].
    eapply parses_last; [apply parses_read, reads_uint; done|done].
  - apply (parses_bind _ _ _ _ _ byte_offset); [apply parses_read, reads_uint; done|].
    eapply parses_last; [apply parses_read, reads_uint; done|]. done.
Qed.

Lemma parses_connection_close error_code error_details : u32 error_code ->
  parses f ProcessConnectionCloseFrame
    (enc_uint e 4 error_code ++ enc_uint e 2 (Z.of_nat (length (TruncateErrorString error_details))) ++
     TruncateErrorString error_details)
    (visit_of (CONNECTION_CLOSE_FRAME error_code error_details) 0).
Proof.
  intros Hc. pose proof (truncated_length error_details).
  apply (parses_bind _ _ _ _ _ error_code); [apply parses_read, reads_uint; done|].
  eapply parses_last; [apply parses_read, reads_string16; lia|done].
Qed.

Lemma parses_goaway error_code id reason_phrase : u32 error_code -> u32 id ->
  parses f ProcessGoAwayFrame
    (enc_uint e 4 error_code ++ enc_uint e 4 id ++
     enc_uint e 2 (Z.of_nat (length (TruncateErrorString reason_phrase))) ++ TruncateErrorString reason_phrase)
    (visit_of (GOAWAY_FRAME 0 error_code id reason_phrase) 0).
Proof.
  intros Hc Hid. pose proof (truncated_length reason_phrase).
  apply (parses_bind _ _ _ _ _ error_code); [apply parses_read, reads_uint; done|].
  apply (parses_bind _ _ _ _ _ id); [apply parses_read, reads_uint; done|].
  eapply parses_last; [apply parses_read, reads_string16; lia|done].
Qed.

Lemma parses_window_update id byte_offset : u32 id -> u64 byte_offset ->
  parses f ProcessWindowUpdateFrame (enc_uint e 4 id ++ enc_uint e 8 byte_offset)
    (visit_of (WINDOW_UPDATE_FRAME 0 id byte_offset) 0).
Proof.
  intros Hid Ho. apply (parses_bind _ _ _ _ _ id); [apply parses_read, reads_uint; done|].
  eapply parses_last; [apply parses_read, reads_uint; done|done].
Qed.

Lemma parses_blocked id : u32 id -> parses f ProcessBlockedFrame (enc_uint e 4 id) (visit_of (BLOCKED_FRAME 0 id) 0).
Proof. intros Hid. eapply parses_last; [apply parses_read, reads_uint; done|done]. Qed.

Lemma parses_stop_waiting header least_unacked : sendable header (STOP_WAITING_FRAME least_unacked) ->
  parses f (ProcessStopWaitingFrame header)
    (enc_uint e (Z.to_nat (packet_number_length header)) (packet_number header - least_unacked))
    (visit_of (STOP_WAITING_FRAME least_unacked) 0).
Proof.
  intros (Hn & Hp & Hl & Hd). assert (1 <= packet_number_length header <= 6) as Hr by (set_unfold in Hn; lia).
  unfold u64 in Hp. eapply parses_last.
  - apply parses_read, reads_to_uint64; [lia|]. rewrite Z2Nat.id by lia. lia.
  - cbv beta. rewrite (proj2 (Z.ltb_ge _ _)), uint64_small by lia. do 3 f_equal. simpl. f_equal. lia.
Qed.

(** The flags of a stream frame are those its type byte was made of. *)
Lemma stream_flags_ok s last : u32 (stream_id s) -> u64 (offset s) ->
  stream_flags v (stream_type_byte v s last) =
  (GetStreamIdSize (stream_id s), GetStreamOffsetSize v (offset s), negb last, fin s) /\
  has (stream_type_byte v s last) 224 = true /\ is_stream_frame v (stream_type_byte v s last) = true /\
  0 < stream_type_byte v s last < 256.
Proof.
  intros Hid Ho. destruct (stream_id_size_ok _ Hid) as [Hk _]. destruct (stream_offset_size_ok v _ Ho) as [Hm _].
  unfold stream_flags, is_stream_frame, stream_type_byte.
  generalize dependent (GetStreamIdSize (stream_id s)). generalize dependent (GetStreamOffsetSize v (offset s)).
  intros m Hm k Hk. unfold offset_lengths in Hm.
  assert (k ∈ [1; 2; 3; 4]) as Hk' by (set_unfold; lia). clear Hk.
  assert (v =? 41 = true -> v >=? 41 = true) as Hge by (rewrite Z.eqb_eq, Z.geb_le; lia).
  destruct (v =? 41); [rewrite Hge by done|]; cbn [negb andb];
    repeat (apply elem_of_cons in Hk' as [->|Hk']); try (by apply elem_of_nil in Hk');
    repeat (apply elem_of_cons in Hm as [->|Hm]); try (by apply elem_of_nil in Hm);
    destruct (fin s), last; vm_compute; split_and!; done || (split; done).
Qed.

(** One statement of a function that reads. *)
Lemma parse_step {A B} (m : M Parsing (option A)) (k : A -> M Parsing (option B)) a x pre rest :
  parses f m a x -> bind_some m k (at_ f pre (a ++ rest)) = k x (at_ f (pre ++ a) rest).
Proof. intros Hm. unfold bind_some, mbind, M_bind. by rewrite Hm. Qed.

Lemma parses_end {A} (m : M Parsing (option A)) a x pre :
  parses f m a x -> m (at_ f pre a) = Ret (Some x) (at_ f (pre ++ a) []).
Proof. intros Hm. rewrite <- (Hm pre []). by rewrite app_nil_r. Qed.

Lemma transport_at {A} (k : Z -> M Parsing A) pre rest : (transport ≫= k) (at_ f pre rest) = k v (at_ f pre rest).
Proof. done. Qed.

Lemma remaining_rest pre rest : Reader.BytesRemaining (reader (at_ f pre rest)) = length rest.
Proof. unfold Reader.BytesRemaining, Reader.len_. simpl. rewrite length_app. lia. Qed.

Lemma process_stream s last header pre rest :
  sendable header (STREAM_FRAME s) -> (last = true -> rest = []) ->
  ProcessStreamFrame (stream_type_byte v s last) (at_ f pre (tail (stream_wire v s last) ++ rest)) =
  Ret (Some s) (at_ f (pre ++ tail (stream_wire v s last)) rest).
Proof.
  intros (Hid & Ho & d & Hd & Hn & Hmax) Hlast. unfold ProcessStreamFrame. rewrite transport_at.
  destruct (stream_flags_ok s last Hid Ho) as (-> & _).
  assert (s = {| stream_id := uint32 (stream_id s); fin := fin s; data_length := uint16 (Z.of_nat (length d));
                 data_buffer := Some d; offset := offset s |}) as Hs.
  { unfold uint16. rewrite uint32_small, wrap_u_small, <- Hn, <- Hd by (done || lia). by destruct s. }
  destruct (stream_id_size_ok _ Hid) as [Hk Hk']. destruct (stream_offset_size_ok v _ Ho) as [Hm Hm'].
  assert (0 <= GetStreamOffsetSize v (offset s) <= 8) as Hm8.
  { revert Hm. generalize (GetStreamOffsetSize v (offset s)). unfold offset_lengths. intros j.
    destruct (v =? 41); set_unfold; lia. }
  unfold u32, u64 in *. unfold stream_wire, content. rewrite Hd. change (tail (store 1 ?x ++ ?y)) with y. fold e.
  rewrite <- !app_assoc.
  erewrite parse_step by (apply parses_read, reads_to_uint64; [lia|rewrite Z2Nat.id by lia; lia]).
  erewrite parse_step by (apply parses_read, reads_to_uint64; [lia|rewrite Z2Nat.id by lia; lia]).
  destruct last; cbn [negb].
  - rewrite Hlast, app_nil_r by done. cbn [app]. unfold bind_some, mbind, M_bind, gets. rewrite remaining_rest.
    rewrite (parses_end _ d d) by by apply parses_read, reads_string.
    rewrite <- Hs. by rewrite !app_assoc.
  - rewrite (app_assoc (enc_uint e 2 _)). rewrite Hn.
    erewrite parse_step by (apply parses_read, reads_string16; lia). rewrite <- Hs. by rewrite !app_assoc.
Qed.

(** ** Padding *)

Lemma padding_loop_ok n : forall fuel k pre rest,
  match rest with [] => True | b :: _ => b <> 0 end -> (n <= fuel)%nat ->
  padding_loop fuel k (reader_at e pre (replicate n 0 ++ rest)) =
  Ret (k + Z.of_nat n) (reader_at e (pre ++ replicate n 0) rest).
Proof.
  induction n as [|n IH]; intros fuel k pre rest Hrest Hfuel.
  - rewrite Z.add_0_r, app_nil_r. cbn [replicate app].
    destruct fuel; cbn [padding_loop]; unfold mbind, M_bind, get.
    all: destruct rest as [|b rest].
    all: unfold Reader.IsDoneReading, Reader.PeekByte, Reader.len_; cbn [reader_at Reader.data_ Reader.pos_].
    1,3: rewrite app_nil_r, Nat.eqb_refl; done.
    all: rewrite length_app, lookup_app_r, Nat.sub_diag by lia; cbn [length lookup list_lookup default from_option].
    all: rewrite (proj2 (Nat.eqb_neq _ _)), (proj2 (Nat.leb_gt _ _)) by lia; cbn [negb andb]; unfold id.
    all: by rewrite (proj2 (Z.eqb_neq _ _)).
  - destruct fuel as [|fuel]; [lia|]. cbn [padding_loop replicate app]. unfold mbind, M_bind, get.
    assert (negb (Reader.IsDoneReading (reader_at e pre (0 :: replicate n 0 ++ rest))) &&
      (Reader.PeekByte (reader_at e pre (0 :: replicate n 0 ++ rest)) =? 0) = true) as ->.
    { unfold Reader.IsDoneReading, Reader.PeekByte, Reader.len_. cbn [reader_at Reader.data_ Reader.pos_].
      rewrite length_app, lookup_app_r, Nat.sub_diag by lia. cbn [length lookup list_lookup default from_option].
      by rewrite (proj2 (Nat.eqb_neq _ _)), (proj2 (Nat.leb_gt _ _)) by lia. }
    change (0 :: replicate n 0 ++ rest) with ([0] ++ replicate n 0 ++ rest). rewrite ReadBytes_ok by done.
    rewrite IH by (done || lia). f_equal; [lia|]. by rewrite <- app_assoc.
Qed.

(** After padding the packet ends, or a frame of another type follows; before
    version 38 it always ends. *)
Definition after_padding (rest : list Z) : Prop :=
  match rest with [] => True | b :: _ => b <> 0 /\ 37 < v end.

Lemma process_padding n pre rest : after_padding rest -> Z.of_nat n < 2 ^ 31 - 1 ->
  ProcessPaddingFrame (at_ f pre (replicate n 0 ++ rest)) =
  Ret (Z.of_nat (S n)) (at_ f (pre ++ replicate n 0) rest).
Proof.
  intros Hrest Hn. unfold ProcessPaddingFrame. rewrite transport_at. unfold mbind, M_bind, gets.
  rewrite remaining_rest. destruct (Z.leb_spec v 37) as [Hv|Hv].
  - destruct rest as [|b rest]; [|destruct Hrest; lia]. rewrite app_nil_r, length_replicate.
    unfold rd, zoom, Reader.ReadRemainingPayload, mbind, M_bind, get, modify. cbn.
    rewrite int32_small by lia. f_equal; [lia|]. unfold set_reader, at_, Reader.set_pos, reader_at, Reader.len_.
    cbn. by rewrite app_nil_r, length_app.
  - unfold rd, zoom. cbn [view reader_lens at_ reader]. rewrite padding_loop_ok.
    + unfold put. cbn [reader_lens]. unfold set_reader. cbn. do 2 f_equal. lia.
    + destruct rest; [done|]. apply Hrest.
    + rewrite length_app, length_replicate. lia.
Qed.

(** ** One frame of a packet *)

Context `{HV : FramerVisitor}.

(** What may follow a frame in the packet. *)
Definition may_follow (frame : QuicFrame) (last : bool) (rest : list Z) : Prop :=
  match frame with
  | PADDING_FRAME _ => after_padding rest
  | STREAM_FRAME _ => last = true -> rest = []
  | _ => True
  end.

Lemma process_at m error bs x pre rest :
  parses f m bs x -> process m error (at_ f pre (bs ++ rest)) = tell x (at_ f (pre ++ bs) rest).
Proof. intros Hm. unfold process, mbind, M_bind. by rewrite Hm. Qed.

(** The bytes of a padding frame. *)
Lemma padding_wire header n last room : n <> 0 ->
  exists k, frame_wire v header (PADDING_FRAME n) last room = 0 :: replicate k 0.
Proof.
  intros Hn. unfold frame_wire. destruct (_ || (n <? 0)) eqn:E.
  - exists (Nat.max 1 room - 1)%nat. change (0 :: ?l) with (replicate 1 0 ++ l). rewrite <- replicate_add. f_equal. lia.
  - apply orb_false_iff in E as [_ E%Z.ltb_ge]. exists (Z.to_nat n - 1)%nat.
    change (0 :: ?l) with (replicate 1 0 ++ l). rewrite <- replicate_add. f_equal. lia.
Qed.

Lemma load_one b : load [b] = b.
Proof. simpl. lia. Qed.

Lemma stream_wire_tail s last : u32 (stream_id s) -> u64 (offset s) ->
  stream_wire v s last = stream_type_byte v s last :: tail (stream_wire v s last).
Proof.
  intros Hid Ho. destruct (stream_flags_ok s last Hid Ho) as (_ & _ & _ & Hr). unfold stream_wire.
  cbn [store app tail]. by rewrite Z.mod_small by lia.
Qed.

Lemma process_frame_at header frame last room pre rest :
  let bs := frame_wire v header frame last room in
  sendable header frame -> may_follow frame last rest -> Z.of_nat (length bs) < 2 ^ 31 ->
  exists b, bs = b :: tail bs /\
    process_frame header b (at_ f (pre ++ [b]) (tail bs ++ rest)) =
    tell (visit_of frame (length bs)) (at_ f (pre ++ bs) rest).
Proof.
  intros bs Hs Hrest Hlen.
  destruct frame; unfold bs in *; cbn [sendable may_follow visit_of] in *.
  - destruct (padding_wire header num_padding_bytes last room Hs) as [k Hk]. rewrite Hk in *. exists 0.
    split; [done|]. cbn [tail length] in *. rewrite length_replicate in *.
    change (process_frame header 0 ?p) with ((n ← ProcessPaddingFrame; tell (OnPaddingFrame n)) p).
    unfold mbind, M_bind. rewrite process_padding by (done || lia). by rewrite <- app_assoc.
  - exists 1. split; [done|].
    change (process_frame header 1 ?p) with (process ProcessRstStreamFrame QUIC_INVALID_RST_STREAM_DATA p).
    cbn [frame_wire]. erewrite process_at by (apply parses_rst_stream; apply Hs). by rewrite <- app_assoc.
  - exists 2. split; [done|].
    change (process_frame header 2 ?p) with (process ProcessConnectionCloseFrame QUIC_INVALID_CONNECTION_CLOSE_DATA p).
    cbn [frame_wire]. change (tail (store 1 2 ++ ?x)) with x. fold e.
    erewrite process_at by (by apply parses_connection_close). by rewrite <- app_assoc.
  - exists 3. split; [done|].
    change (process_frame header 3 ?p) with (process ProcessGoAwayFrame QUIC_INVALID_GOAWAY_DATA p).
    cbn [frame_wire]. change (tail (store 1 3 ++ ?x)) with x. fold e.
    erewrite process_at by (apply parses_goaway; apply Hs). by rewrite <- app_assoc.
  - exists 4. split; [done|].
    change (process_frame header 4 ?p) with (process ProcessWindowUpdateFrame QUIC_INVALID_WINDOW_UPDATE_DATA p).
    cbn [frame_wire]. change (tail (store 1 4 ++ ?x)) with x. fold e.
    erewrite process_at by (apply parses_window_update; apply Hs). by rewrite <- app_assoc.
  - exists 5. split; [done|].
    change (process_frame header 5 ?p) with (process ProcessBlockedFrame QUIC_INVALID_BLOCKED_DATA p).
    cbn [frame_wire]. change (tail (store 1 5 ++ ?x)) with x. fold e.
    erewrite process_at by (apply parses_blocked; apply Hs). by rewrite <- app_assoc.
  - exists 6. split; [done|].
    change (process_frame header 6 ?p) with (process (ProcessStopWaitingFrame header) QUIC_INVALID_STOP_WAITING_DATA p).
    cbn [frame_wire]. change (tail (store 1 6 ++ ?x)) with x. fold e.
    erewrite process_at by (apply parses_stop_waiting; apply Hs). by rewrite <- app_assoc.
  - exists 7. done.
  - exists (stream_type_byte v f0 last). cbn [frame_wire]. pose proof Hs as (Hid & Ho & _).
    destruct (stream_flags_ok f0 last Hid Ho) as (_ & Hh & Hst & Hr).
    split; [by apply stream_wire_tail|]. unfold process_frame. rewrite transport_at, Hh, Hst.
    unfold mbind, M_bind. rewrite (process_stream f0 last header) by done.
    rewrite <- app_assoc. cbn [app]. by rewrite <- stream_wire_tail.
  - done.
  - exists 7. done.
Qed.
End Frames.
