(* ===== verification/AckRead.v ===== *)
(** Reading an acknowledgement back: the framer reports the intervals that were
    written, which are the highest of those acknowledged. *)

From S2P Require Import Prelude World QuicData Wire IntervalSet Intervals PacketNumberQueue PacketNumbers.
From S2P Require Import Framer FrameWriter FrameReader FrameWire AckWire FrameRead.
Import Interval.

(** ** The visitor's calls *)

Definition heard (f : Framer.Framer) (vs : list Visit) : Framer.Framer :=
  Framer.with_visits f (Framer.visits f ++ vs).

Lemma heard_nil f : heard f [] = f.
Proof. unfold heard. rewrite app_nil_r. by destruct f. Qed.

Lemma heard_app f a b : heard (heard f a) b = heard f (a ++ b).
Proof. unfold heard. cbn. by rewrite app_assoc. Qed.

(** The visitor, called so far with [hist], agrees to each of the calls [vs]. *)
Fixpoint accepts `{FramerVisitor} (hist vs : list Visit) : Prop :=
  match vs with
  | [] => True
  | v :: vs => answer hist v = true /\ accepts (hist ++ [v]) vs
  end.

Lemma accepts_app `{FramerVisitor} a : forall hist b, accepts hist (a ++ b) <-> accepts hist a /\ accepts (hist ++ a) b.
Proof.
  induction a as [|v a IH]; intros hist b; cbn [accepts app]; [rewrite app_nil_r; tauto|].
  rewrite IH, <- app_assoc. tauto.
Qed.

Section Visits.
Context `{HV : FramerVisitor}.

Lemma visit_at v f pre rest : visit v (at_ f pre rest) = Ret (answer (Framer.visits f) v) (at_ (heard f [v]) pre rest).
Proof. done. Qed.

Lemma tell_at v f pre rest : answer (Framer.visits f) v = true ->
  tell v (at_ f pre rest) = Ret None (at_ (heard f [v]) pre rest).
Proof. intros H. unfold tell, mbind, M_bind. by rewrite visit_at, H. Qed.
End Visits.

(** ** Blocks *)

(** The intervals that blocks below [first] stand for. *)
Fixpoint block_intervals (first : Z) (bs : list (Z * Z)) : list Interval :=
  match bs with
  | [] => []
  | (gap, len) :: bs =>
      let first := first - (gap + len) in
      if len >? 0 then mk first (first + len) :: block_intervals first bs else block_intervals first bs
  end.

(** The calls for them; a call is marked as the last one when its block is. *)
Fixpoint block_visits (first : Z) (bs : list (Z * Z)) : list Visit :=
  match bs with
  | [] => []
  | (gap, len) :: bs =>
      let first := first - (gap + len) in
      if len >? 0
      then OnAckRange first (first + len) (match bs with [] => true | _ => false end) :: block_visits first bs
      else block_visits first bs
  end.

(** Blocks whose fields fit in their bytes and which do not go below zero. *)
Fixpoint blocks_ok (len : Z) (first : Z) (bs : list (Z * Z)) : Prop :=
  match bs with
  | [] => True
  | (gap, n) :: bs =>
      0 <= gap < 256 /\ 0 <= n < 256 ^ len /\ gap + n <= first /\ blocks_ok len (first - (gap + n)) bs
  end.

Definition add_intervals (l : list Interval) (a : QuicAckFrame) : QuicAckFrame :=
  {| largest_acked := largest_acked a; ack_delay_time := ack_delay_time a;
     received_packet_times := received_packet_times a;
     packets := fold_left (fun q x => PacketNumberQueue.AddRange (imin x) (imax x) q) l (packets a) |}.

Lemma add_intervals_nil a : add_intervals [] a = a.
Proof. by destruct a. Qed.

Section Blocks.
Context `{HV : FramerVisitor} (len : Z) (Hlen : number_length len).

Lemma number_length_8 : (Z.to_nat len <= 8)%nat /\ 0 <= len.
Proof using Hlen. destruct Hlen as [->|[->|[->|[->| ->]]]]; simpl; lia. Qed.

Lemma ack_blocks_read bs : forall first a f pre rest,
  let incremental := Framer.use_incremental_ack_processing_ f in
  blocks_ok len first bs -> first < 2 ^ 63 ->
  (incremental = true -> accepts (Framer.visits f) (block_visits first bs)) ->
  ack_blocks_loop len (length bs) first a (at_ f pre (concat (block_wire (Framer.endianness f) len <$> bs) ++ rest)) =
  Ret (Some (if incremental then a else add_intervals (block_intervals first bs) a))
    (at_ (if incremental then heard f (block_visits first bs) else f)
       (pre ++ concat (block_wire (Framer.endianness f) len <$> bs)) rest).
Proof using Hlen.
  induction bs as [|[gap n] bs IH]; intros first a f pre rest inc Hok Hfirst Hacc.
  { cbn. rewrite app_nil_r, add_intervals_nil, heard_nil. by destruct inc. }
  destruct Hok as (Hg & Hn & Hle & Hok). destruct number_length_8 as [H8 H0].
  rewrite fmap_cons. cbn [concat length ack_blocks_loop]. unfold block_wire at 1. cbn [fst snd].
  rewrite <- !app_assoc.
  erewrite parse_step by (by apply parses_read, reads_uint8).
  erewrite parse_step by (apply parses_read, reads_to_uint64; [done|by rewrite Z2Nat.id]).
  rewrite (proj2 (Z.ltb_ge _ _)) by (rewrite uint64_small; lia).
  rewrite !uint64_small by (rewrite ?uint64_small; lia).
  cbn [block_intervals block_visits] in *. rewrite Z.gtb_ltb in *.
  set (e := Framer.endianness f) in *.
  assert (pre ++ block_wire e len (gap, n) ++ concat (block_wire e len <$> bs) =
    ((pre ++ store 1 gap) ++ enc_uint e (Z.to_nat len) n) ++ concat (block_wire e len <$> bs)) as ->
    by (unfold block_wire; by rewrite <- !app_assoc).
  destruct (Z.ltb_spec 0 n) as [Hpos|Hzero].
  - unfold mbind, M_bind, gets. change (framer (at_ f ?p ?r)) with f. fold inc. destruct inc eqn:Hinc.
    + destruct (Hacc eq_refl) as [Hans Hacc']. rewrite visit_at.
      assert (match length bs with O => true | S _ => false end = match bs with [] => true | _ => false end) as ->
        by by destruct bs.
      rewrite Hans. cbn [negb]. rewrite (IH _ _ (heard f [_])); [|done|lia|done].
      change (Framer.use_incremental_ack_processing_ (heard f ?l)) with inc. rewrite Hinc, heard_app. done.
    + rewrite IH; [fold inc; by rewrite Hinc|done|lia|]. unfold inc in Hinc. congruence.
  - rewrite IH; [done|done|lia|done].
Qed.
End Blocks.

(** ** The blocks that were written *)

(** The intervals whose block is among the first [n]. *)
Fixpoint kept (n : nat) (prev : Z) (l : list Interval) : list Interval :=
  match l with
  | [] => []
  | x :: l =>
      let empty := Z.to_nat (encoded_gaps (prev - imax x) - 1) in
      if (empty <? n)%nat then x :: kept (n - empty - 1) (imin x) l else []
  end.

Lemma kept_prefix l : forall n prev, exists r, l = kept n prev l ++ r.
Proof.
  induction l as [|x l IH]; intros n prev; cbn [kept]; [by exists []|].
  destruct (_ <? n)%nat; [|by exists (x :: l)]. destruct (IH (n - Z.to_nat (encoded_gaps (prev - imax x) - 1) - 1)%nat (imin x)) as [r Hr].
  exists r. cbn [app]. by rewrite <- Hr.
Qed.

(** All of them are, if there is room for all the blocks. *)
Lemma kept_all l : forall n prev, below prev l -> prev <= 2 ^ 62 ->
  (length (gap_blocks prev l) <= n)%nat -> kept n prev l = l.
Proof.
  induction l as [|x l IH]; intros n prev Hb Hp Hn; [done|]. destruct Hb as (Hx & Hxp & Hb).
  pose proof (below_nonneg _ _ Hb). cbn [kept gap_blocks] in *. rewrite length_app, length_replicate in Hn. cbn [length] in Hn.
  destruct (Nat.ltb_spec (Z.to_nat (encoded_gaps (prev - imax x) - 1)) n); [|lia].
  f_equal. apply IH; [done|lia..].
Qed.

(** Empty blocks go down by 255 packets each. *)
Lemma empty_blocks k : forall first bs,
  block_intervals first (replicate k (255, 0) ++ bs) = block_intervals (first - 255 * Z.of_nat k) bs.
Proof.
  induction k as [|k IH]; intros first bs; [by rewrite Z.mul_0_r, Z.sub_0_r|].
  cbn [replicate app block_intervals]. rewrite IH. cbn [Z.gtb Z.compare]. f_equal. lia.
Qed.

Lemma intervals_read l : forall n prev, below prev l -> prev <= 2 ^ 62 ->
  block_intervals prev (take n (gap_blocks prev l)) = kept n prev l.
Proof.
  induction l as [|x l IH]; intros n prev Hb Hp; [cbn [gap_blocks]; by rewrite take_nil|]. destruct Hb as (Hx & Hxp & Hb).
  pose proof (below_nonneg _ _ Hb). destruct (encoded_gaps_spec (prev - imax x)) as [Hg1 Hg2]; [lia|].
  cbn [kept gap_blocks]. set (k := Z.to_nat (encoded_gaps (prev - imax x) - 1)).
  destruct (Nat.ltb_spec k n) as [Hlt|Hge].
  - rewrite take_app_ge, length_replicate, empty_blocks by (rewrite length_replicate; lia).
    destruct (n - k)%nat as [|m] eqn:Hm; [lia|]. rewrite firstn_cons. cbn [block_intervals].
    rewrite Z.gtb_ltb, (proj2 (Z.ltb_lt _ _)) by lia.
    replace (prev - 255 * Z.of_nat k - _) with (imin x) by (unfold k; lia).
    rewrite Z.add_sub_assoc, Z.add_simpl_l, IH by (done || lia). rewrite Nat.sub_1_r. by destruct x.
  - rewrite take_app_le by (rewrite length_replicate; lia). rewrite take_replicate, <- (app_nil_r (replicate _ _)).
    by rewrite empty_blocks.
Qed.

Lemma blocks_ok_empty len k : forall first bs, 0 <= len -> 255 * Z.of_nat k <= first ->
  blocks_ok len (first - 255 * Z.of_nat k) bs -> blocks_ok len first (replicate k (255, 0) ++ bs).
Proof.
  induction k as [|k IH]; intros first bs Hlen Hf Hb; [by rewrite Z.mul_0_r, Z.sub_0_r in Hb|].
  cbn [replicate app blocks_ok]. pose proof (Z.pow_pos_nonneg 256 len). split_and!; [lia..|].
  apply IH; [done|lia|]. replace (_ - _) with (first - 255 * Z.of_nat (S k)) by lia. done.
Qed.

(** The blocks written fit in their bytes, if the intervals they stand for do. *)
Lemma blocks_written_ok len l : forall n prev, 0 <= len -> below prev l -> prev <= 2 ^ 62 ->
  Forall (fun x => imax x - imin x < 256 ^ len) (kept n prev l) ->
  blocks_ok len prev (take n (gap_blocks prev l)).
Proof.
  induction l as [|x l IH]; intros n prev Hlen Hb Hp Hk; [cbn [gap_blocks]; by rewrite take_nil|]. destruct Hb as (Hx & Hxp & Hb).
  pose proof (below_nonneg _ _ Hb). destruct (encoded_gaps_spec (prev - imax x)) as [Hg1 Hg2]; [lia|].
  cbn [kept gap_blocks] in *. set (k := Z.to_nat (encoded_gaps (prev - imax x) - 1)) in *.
  destruct (Nat.ltb_spec k n) as [Hlt|Hge].
  - rewrite take_app_ge, length_replicate by (rewrite length_replicate; lia).
    apply blocks_ok_empty; [done|unfold k; lia|].
    destruct (n - k)%nat as [|m] eqn:Hm; [lia|]. rewrite firstn_cons. cbn [blocks_ok].
    apply Forall_cons in Hk as [Hx' Hk]. split_and!; [lia..|unfold k; lia|].
    replace (prev - 255 * Z.of_nat k - _) with (imin x) by (unfold k; lia).
    apply IH; [done..|lia|]. by rewrite Nat.sub_1_r in Hk.
  - rewrite take_app_le by (rewrite length_replicate; lia). rewrite take_replicate, <- (app_nil_r (replicate _ _)).
    apply blocks_ok_empty; [done| |done]. unfold k in *. lia.
Qed.

(** ** What arrives of an ack *)

(** The delay in microseconds, as [WriteUFloat16] rounds it. *)
Definition delay_read (a : QuicAckFrame) : Z :=
  let us := Reader.decode_ufloat16 (Writer.encode_ufloat16
    (if ack_delay_time a =? kQuicInfiniteTimeUs then kUFloat16MaxValue else ack_delay_time a)) in
  if us =? kUFloat16MaxValue then kQuicInfiniteTimeUs else int64 us.

(** The number of ack blocks in a packet with [room] bytes left. *)
Definition blocks_in (v : Z) (a : QuicAckFrame) (room : nat) : Z :=
  let info := GetAckFrameInfo a in
  let ack_block_length := GetMinPacketNumberLength v (max_block_length info) in
  ack_blocks_written
    (available_ack_bytes (Z.of_nat room) ack_block_length (GetMinPacketNumberLength v (largest_acked a)) (num_ack_blocks info))
    ack_block_length (num_ack_blocks info).

(** There is room for the blocks, or for one at least when there are any. *)
Definition not_starved (v : Z) (a : QuicAckFrame) (room : nat) : Prop :=
  num_ack_blocks (GetAckFrameInfo a) = 0 \/ 0 < blocks_in v a room.

Definition ack_received (v : Z) (a : QuicAckFrame) (room : nat) : QuicAckFrame :=
  {| largest_acked := largest_acked a; ack_delay_time := delay_read a; received_packet_times := [];
     packets := match rev (packets a) with
                | [] => []
                | x :: l => rev (kept (Z.to_nat (blocks_in v a room)) (imin x) l) ++ [x]
                end |}.

Definition ack_visits (incremental : bool) (v : Z) (a : QuicAckFrame) (room : nat) : list Visit :=
  if incremental then
    let info := GetAckFrameInfo a in
    let start := largest_acked a + 1 - first_block_length info in
    OnAckFrameStart (largest_acked a) (delay_read a) ::
    OnAckRange start (largest_acked a + 1) (num_ack_blocks info =? 0) ::
    block_visits start (take (Z.to_nat (blocks_in v a room)) (lower a))
  else [OnAckFrame (ack_received v a room)].

(** Ranges added from the top down end up in front. *)
Lemma AddRange_front lo hi x q : wf (x :: q) -> lo < hi -> hi < imin x ->
  PacketNumberQueue.AddRange lo hi (x :: q) = mk lo hi :: x :: q.
Proof.
  intros Hwf Hlo Hhi. unfold PacketNumberQueue.AddRange.
  assert (imin x < imax (PacketNumberQueue.back (x :: q))) as Hback.
  { destruct (x :: q) as [|y l _] eqn:Hq using rev_ind; [done|]. rewrite back_snoc.
    assert (y ∈ x :: q) as Hy by (rewrite Hq; set_solver).
    rewrite <- Hq in Hwf. pose proof (front_least _ _ _ Hwf Hy). rewrite Hq in Hwf. apply wf_snoc in Hwf as (_ & Hn & _).
    unfold nonempty in Hn. lia. }
  rewrite Z.geb_leb, (proj2 (Z.leb_gt _ _)) by lia. cbn [PacketNumberQueue.Empty].
  rewrite (proj2 (Z.eqb_neq _ _)), (proj2 (Z.ltb_ge _ _)) by lia. unfold PacketNumberQueue.front. cbn [hd].
  rewrite (proj2 (Z.eqb_neq _ _)), Z.gtb_ltb, (proj2 (Z.ltb_lt _ _)) by lia. done.
Qed.

Lemma AddRange_down l : forall x q, wf (rev l ++ x :: q) -> 
  fold_left (fun q y => PacketNumberQueue.AddRange (imin y) (imax y) q) l (x :: q) = rev l ++ x :: q.
Proof.
  induction l as [|y l IH]; intros x q Hwf; [done|]. cbn [fold_left rev] in *. rewrite <- app_assoc in *. cbn [app] in *.
  pose proof Hwf as (_ & Hyx & Hy & _ & _ & Hb)%wf_mid. apply Forall_cons in Hb as [Hb _].
  rewrite AddRange_front by done. destruct y. by apply IH.
Qed.

(** The part of [l] that was counted is where the blocks come from. *)
Lemma kept_app a : forall n prev b, below prev a -> prev <= 2 ^ 62 -> (n <= length (gap_blocks prev a))%nat ->
  kept n prev (a ++ b) = kept n prev a.
Proof.
  induction a as [|x a IH]; intros n prev b Hb Hp Hn.
  { cbn [gap_blocks length] in Hn. assert (n = O) as -> by lia. by destruct b. }
  destruct Hb as (Hx & Hxp & Hb). pose proof (below_nonneg _ _ Hb). cbn [kept gap_blocks app] in *.
  rewrite length_app, length_replicate in Hn. cbn [length] in Hn.
  destruct (Nat.ltb_spec (Z.to_nat (encoded_gaps (prev - imax x) - 1)) n); [|done]. f_equal. apply IH; [done|lia..].
Qed.

Lemma below_app a : forall prev b, below prev (a ++ b) -> below prev a.
Proof.
  induction a as [|x a IH]; intros prev b Hb; [by apply below_nonneg in Hb|].
  destruct Hb as (? & ? & Hb). split_and!; [done..|]. by eapply IH.
Qed.

Lemma below_small seen rest : forall prev m, below prev (seen ++ rest) -> prev <= m ->
  forall y, y ∈ seen -> imax y - imin y <= m.
Proof.
  induction seen as [|z seen IH]; intros prev m Hb Hp y Hy; [by apply elem_of_nil in Hy|].
  destruct Hb as (Hz & Hzp & Hb). pose proof (below_nonneg _ _ Hb).
  apply elem_of_cons in Hy as [->|Hy]; [lia|]. apply (IH (imin z)); [done|lia|done].
Qed.

Record ack_facts (v : Z) (a : QuicAckFrame) : Prop := {
  af_max : 0 <= max_block_length (GetAckFrameInfo a) < packet_limit v;
  af_first : 0 <= first_block_length (GetAckFrameInfo a) <= max_block_length (GetAckFrameInfo a);
  af_first_le : first_block_length (GetAckFrameInfo a) <= largest_acked a + 1;
  af_num : 0 <= num_ack_blocks (GetAckFrameInfo a) <= Z.of_nat (length (lower a));
  af_empty : first_block_length (GetAckFrameInfo a) = 0 ->
             largest_acked a = 0 /\ num_ack_blocks (GetAckFrameInfo a) = 0;
  af_kept : forall x l n, rev (packets a) = x :: l -> Z.of_nat n <= num_ack_blocks (GetAckFrameInfo a) ->
    imin x = largest_acked a + 1 - first_block_length (GetAckFrameInfo a) /\
    Forall (fun y => imax y - imin y <= max_block_length (GetAckFrameInfo a)) (kept n (imin x) l)
}.

Lemma ackable_facts v incremental a : ackable v incremental a -> ack_facts v a.
Proof.
  intros Ha. pose proof Ha as [_ Hlarge Hlim _ _]. pose proof (packet_limit_bound v) as Hpl.
  destruct (rev (packets a)) as [|x l] eqn:Hr.
  { assert (GetAckFrameInfo a = {| max_block_length := 0; first_block_length := 0; num_ack_blocks := 0 |}) as Hi
      by (unfold GetAckFrameInfo; by rewrite Hr).
    split; rewrite ?Hi; cbn; try lia. intros y k n H. by rewrite Hr in H. }
  destruct (ackable_below _ _ _ _ _ Ha Hr) as (Hb & Hx & Hm & Hmax). pose proof (below_nonneg _ _ Hb).
  assert (interval_length x = imax x - imin x) as Elen.
  { unfold interval_length. rewrite Z.geb_leb, (proj2 (Z.leb_gt _ _)), uint64_small by lia. done. }
  assert (PacketNumberQueue.LastIntervalLength (packets a) = imax x - imin x) as Elast.
  { unfold PacketNumberQueue.LastIntervalLength. rewrite <- (rev_involutive (packets a)), Hr. cbn [rev].
    by rewrite back_snoc. }
  set (info0 := {| max_block_length := imax x - imin x; first_block_length := imax x - imin x; num_ack_blocks := 0 |}).
  assert (GetAckFrameInfo a = ack_info_loop (imin x) l info0) as Hinfo
    by (unfold GetAckFrameInfo; by rewrite Hr, Elen, Elast).
  destruct (ack_info_loop_spec l (imin x) info0) as [seen Hs]; [done|lia|done|]. rewrite <- Hinfo in Hs.
  destruct Hs as [(rest & -> & Hrest) Hnum Hfirst Hge Hlens Hleast]. unfold info0 in Hnum, Hfirst, Hge, Hleast.
  cbn [num_ack_blocks first_block_length max_block_length] in *.
  assert (forall y, y ∈ seen -> imax y - imin y <= imax x) as Hsmall by (intros y; apply (below_small _ rest _ _ Hb); lia).
  assert (max_block_length (GetAckFrameInfo a) <= imax x) by (destruct Hleast as [->|(y & Hy & ->)]; [lia|auto]).
  assert (lower a = gap_blocks (imin x) (seen ++ rest)) as Hlower by (unfold lower; by rewrite Hr).
  split; try lia.
  - rewrite Hlower, gap_blocks_app, length_app. lia.
  - intros y k n Hyk Hn. rewrite Hr in Hyk. injection Hyk as <- <-. split; [lia|].
    pose proof (below_app _ _ _ Hb) as Hbs.
    rewrite kept_app by (done || lia). destruct (kept_prefix seen n (imin x)) as [r Hpre]. rewrite Hpre in Hlens.
    by apply Forall_app in Hlens as [? _].
Qed.

(** ** The type byte *)

Lemma min_length_in v n : GetMinPacketNumberLength v n ∈ [1; 2; 4; if v =? 41 then 8 else 6].
Proof. unfold GetMinPacketNumberLength. destruct (v =? 41); cbn [negb]; repeat case_match; set_solver. Qed.

Lemma ack_type_ok v multiple ll bl :
  ll ∈ [1; 2; 4; if v =? 41 then 8 else 6] -> bl ∈ [1; 2; 4; if v =? 41 then 8 else 6] ->
  let b := ack_type_byte v multiple ll bl in
  ExtractBit b (if negb (v =? 41) then 5 else 4) = multiple /\
  ReadAckPacketNumberLength v (ExtractBits b 2 0) = bl /\
  ReadAckPacketNumberLength v (ExtractBits b 2 2) = ll /\
  has b 224 = true /\ is_stream_frame v b = false /\ is_ack_frame v b = true /\ 0 < b < 256.
Proof.
  intros Hll Hbl. unfold is_stream_frame, is_ack_frame, ack_type_byte, ReadAckPacketNumberLength. cbv zeta.
  assert (v =? 41 = true -> v >=? 41 = true) as Hge by (rewrite Z.eqb_eq, Z.geb_le; lia).
  generalize dependent (v >=? 41). intros ge Hge.
  destruct (v =? 41); [rewrite Hge by done|destruct ge]; cbn [negb andb];
    repeat (apply elem_of_cons in Hll as [->|Hll]); try (by apply elem_of_nil in Hll);
    repeat (apply elem_of_cons in Hbl as [->|Hbl]); try (by apply elem_of_nil in Hbl);
    destruct multiple; vm_compute; split_and!; done || (split; done).
Qed.

(** ** The whole frame *)

Section Ack.
Context `{HV : FramerVisitor}.

Lemma encode_range x : 0 <= x -> 0 <= Writer.encode_ufloat16 x < 2 ^ 16.
Proof.
  intros Hx. unfold Writer.encode_ufloat16. destruct (_ <? _); [by apply wrap_u_range|].
  destruct (_ >=? _); [done|]. destruct (Writer.normalize x). by apply wrap_u_range.
Qed.

Lemma reads_ufloat16 e x : 0 <= x ->
  reads e Reader.ReadUFloat16 (enc_uint e 2 (Writer.encode_ufloat16 x)) (Reader.decode_ufloat16 (Writer.encode_ufloat16 x)).
Proof.
  intros Hx pre rest. unfold Reader.ReadUFloat16, Reader.ReadUInt16, mbind, M_bind.
  rewrite (reads_uint e 2) by by apply encode_range. done.
Qed.

Lemma parses_num_ack_blocks f (here : bool) n n0 : 0 <= n < 256 ->
  parses f (read_num_ack_blocks here n0) (if here then store 1 n else []) (if here then n else n0).
Proof. intros Hn. destruct here; [by apply parses_read, reads_uint8|apply parses_ret]. Qed.

Lemma parses_num_received f (here : bool) :
  parses f (read_num_received_packets here 0) (if here then store 1 0 else []) 0.
Proof. destruct here; [by apply parses_read, reads_uint8|apply parses_ret]. Qed.

Lemma blocks_in_range v a room : ack_facts v a ->
  0 <= blocks_in v a room <= 255 /\ blocks_in v a room <= num_ack_blocks (GetAckFrameInfo a).
Proof.
  intros Hf. pose proof (af_num _ _ Hf). unfold blocks_in. split; [|apply blocks_written_le].
  unfold ack_blocks_written. pose proof (uint64_range (available_ack_bytes (Z.of_nat room)
    (GetMinPacketNumberLength v (max_block_length (GetAckFrameInfo a))) (GetMinPacketNumberLength v (largest_acked a))
    (num_ack_blocks (GetAckFrameInfo a)) ÷ (GetMinPacketNumberLength v (max_block_length (GetAckFrameInfo a)) + 1))).
  rewrite Z.gtb_ltb. match goal with |- context [255 <? ?m] => destruct (Z.ltb_spec 255 m); lia end.
Qed.

(** The blocks of an ack: [multiple] when there is more than the first. *)
Lemma ack_blocks_processed f a bl n0 delay (bs : list (Z * Z)) pre rest :
  let v := transport_version (Framer.version_ f) in
  let e := Framer.endianness f in
  let incremental := Framer.use_incremental_ack_processing_ f in
  let info := GetAckFrameInfo a in
  let multiple := negb (num_ack_blocks info =? 0) in
  let start := largest_acked a + 1 - first_block_length info in
  let n := Z.of_nat (length bs) in
  let count := if multiple && negb (v =? 41) then store 1 n else [] in
  let bytes := count ++ enc_uint e (Z.to_nat bl) (first_block_length info) ++
               concat (block_wire e bl <$> bs) ++ (if negb (v =? 41) then store 1 0 else []) in
  let vs := OnAckRange start (largest_acked a + 1) (negb multiple) :: block_visits start bs in
  ack_facts v a -> 0 <= largest_acked a < 2 ^ 62 -> number_length bl -> n <= 255 ->
  (if multiple && negb (v =? 41) then True else n0 = n) -> (multiple = false -> bs = []) ->
  0 <= first_block_length info < 256 ^ bl -> blocks_ok bl start bs ->
  (incremental = true -> accepts (Framer.visits f) vs) ->
  process_ack_blocks multiple bl (largest_acked a) delay n0 0 (at_ f pre (bytes ++ rest)) =
  Ret (Some (if incremental then QuicAckFrame_init
             else add_intervals (block_intervals start bs)
               {| largest_acked := largest_acked a; ack_delay_time := delay; received_packet_times := [];
                  packets := PacketNumberQueue.AddRange start (largest_acked a + 1) [] |}))
    (at_ (if incremental then heard f vs else f) (pre ++ bytes) rest).
Proof.
  intros v e inc info multiple start n count bytes vs Hfacts Hlarge Hbl Hn Hn0 Hbs Hfirst Hok Hacc.
  destruct (number_length_8 bl Hbl) as [H8 H0].
  unfold process_ack_blocks. unfold mbind at 1, M_bind at 1, gets. change (framer (at_ f ?p ?r)) with f. fold v inc.
  unfold bytes. rewrite <- !app_assoc.
  erewrite parse_step by (unfold count; apply parses_num_ack_blocks; lia).
  erewrite parse_step by (apply parses_read, reads_to_uint64; [done|by rewrite Z2Nat.id]).
  assert ((if multiple && negb (v =? 41) then n else n0) = n) as -> by by destruct (multiple && negb (v =? 41)).
  assert ((first_block_length info =? 0) && (negb (largest_acked a =? 0) || negb (n =? 0)) = false) as ->.
  { destruct (Z.eqb_spec (first_block_length info) 0) as [Hz|]; [|done]. destruct (af_empty _ _ Hfacts Hz) as [-> Hnum].
    unfold n. rewrite Hbs; [done|]. unfold multiple, info. by rewrite Hnum. }
  pose proof (af_first_le _ _ Hfacts) as Hle. fold info in Hle.
  rewrite (uint64_small (largest_acked a + 1)), Z.gtb_ltb, (proj2 (Z.ltb_ge _ _)), uint64_small by lia. fold start.
  unfold n. rewrite Nat2Z.id.
  set (frame0 := if inc then QuicAckFrame_init else _).
  set (fv := if inc then heard f [OnAckRange start (largest_acked a + 1) (negb multiple)] else f).
  set (p1 := (pre ++ count) ++ enc_uint e (Z.to_nat bl) (first_block_length info)).
  assert (Framer.use_incremental_ack_processing_ fv = Framer.use_incremental_ack_processing_ f) as Einc
    by (unfold fv; by destruct inc).
  assert (Framer.endianness fv = Framer.endianness f) as Ee by (unfold fv; by destruct inc).
  fold inc in Einc. fold e in Ee.
  transitivity ((x ←? ack_blocks_loop bl (length bs) start frame0;
      m ←? read_num_received_packets (negb (v =? 41)) 0; ProcessTimestampsInAckFrame m x)
    (at_ fv p1 (concat (block_wire e bl <$> bs) ++ (if negb (v =? 41) then store 1 0 else []) ++ rest))).
  { unfold mbind, M_bind, fv. destruct inc; [|done]. destruct (Hacc eq_refl) as [Hans _].
    by rewrite visit_at, Hans. }
  unfold bind_some at 1, mbind, M_bind. rewrite <- Ee, ack_blocks_read, Einc; [|done|done|lia|].
  2:{ intros Hi. rewrite Einc in Hi. unfold fv. rewrite Hi. by destruct (Hacc Hi). }
  assert ((if inc then heard fv (block_visits start bs) else fv) = (if inc then heard f vs else f)) as ->.
  { unfold fv. destruct inc; [|done]. by rewrite heard_app. }
  set (ff := if inc then heard f vs else f).
  assert (Framer.endianness fv = Framer.endianness ff) as Eff by (rewrite Ee; unfold ff; by destruct inc).
  erewrite parse_step by apply parses_num_received.
  unfold p1, frame0. rewrite <- !app_assoc, Ee. by destruct inc.
Qed.

Lemma wf_app_r a b : wf (a ++ b) -> wf b.
Proof. intros [(_ & Hv & _)%valid_app [_ Hn]%Forall_app]. by split. Qed.

(** What the blocks add up to is the ack without the intervals that had no room. *)
Lemma intervals_received v incremental a room : ackable v incremental a ->
  let info := GetAckFrameInfo a in
  let start := largest_acked a + 1 - first_block_length info in
  add_intervals (block_intervals start (take (Z.to_nat (blocks_in v a room)) (lower a)))
    {| largest_acked := largest_acked a; ack_delay_time := delay_read a; received_packet_times := [];
       packets := PacketNumberQueue.AddRange start (largest_acked a + 1) [] |} = ack_received v a room.
Proof.
  intros Ha info start. pose proof (ackable_facts _ _ _ Ha) as Hf.
  destruct (blocks_in_range v a room Hf) as [Hn Hnum]. unfold add_intervals, ack_received. cbn.
  f_equal. unfold lower. destruct (rev (packets a)) as [|x l] eqn:Hr.
  - assert (start = largest_acked a + 1) as -> by (unfold start, info, GetAckFrameInfo; rewrite Hr; cbn; lia).
    rewrite take_nil. cbn. unfold PacketNumberQueue.AddRange. by rewrite Z.geb_leb, Z.leb_refl.
  - destruct (ackable_below _ _ _ _ _ Ha Hr) as (Hb & Hx & Hm & Hmax).
    destruct (af_kept _ _ Hf x l 0 Hr) as [Hmin _]; [pose proof (af_num _ _ Hf); lia|].
    assert (start = imin x) as -> by (unfold start, info; lia).
    rewrite intervals_read, <- Hm by (done || lia).
    assert (PacketNumberQueue.AddRange (imin x) (imax x) [] = [x]) as ->.
    { unfold PacketNumberQueue.AddRange. rewrite Z.geb_leb, (proj2 (Z.leb_gt _ _)) by done. by destruct x. }
    apply AddRange_down. destruct (kept_prefix l (Z.to_nat (blocks_in v a room)) (imin x)) as [r Hpre].
    apply (wf_app_r (rev r)). rewrite app_assoc, <- rev_app_distr, <- Hpre.
    change (rev l ++ [x]) with (rev (x :: l)). rewrite <- Hr, rev_involutive. apply Ha.
Qed.

Lemma ack_wire_tail v a room :
  let info := GetAckFrameInfo a in
  let b := ack_type_byte v (negb (num_ack_blocks info =? 0)) (GetMinPacketNumberLength v (largest_acked a))
             (GetMinPacketNumberLength v (max_block_length info)) in
  ack_wire v a room = b :: tail (ack_wire v a room).
Proof.
  intros info b. destruct (ack_type_ok v (negb (num_ack_blocks info =? 0)) _ _ (min_length_in v (largest_acked a))
    (min_length_in v (max_block_length info))) as (_ & _ & _ & _ & _ & _ & Hb).
  unfold ack_wire. cbn [store app tail]. fold info. fold b. by rewrite Z.mod_small by (fold b in Hb; lia).
Qed.

(** The bytes after the type byte, in the order they are read. *)
Lemma ack_wire_fields v a room : ack_facts v a -> not_starved v a room ->
  let e := Framer.endianness_of v in
  let info := GetAckFrameInfo a in
  let multiple := negb (num_ack_blocks info =? 0) in
  let bl := GetMinPacketNumberLength v (max_block_length info) in
  let ll := GetMinPacketNumberLength v (largest_acked a) in
  let blocks := take (Z.to_nat (blocks_in v a room)) (lower a) in
  let n := Z.of_nat (length blocks) in
  n = blocks_in v a room /\
  tail (ack_wire v a room) =
  (if (v =? 41) && multiple then store 1 n else []) ++ (if v =? 41 then store 1 0 else []) ++
  enc_uint e (Z.to_nat ll) (largest_acked a) ++
  enc_uint e 2 (Writer.encode_ufloat16
    (if ack_delay_time a =? kQuicInfiniteTimeUs then kUFloat16MaxValue else ack_delay_time a)) ++
  ((if multiple && negb (v =? 41) then store 1 n else []) ++
   enc_uint e (Z.to_nat bl) (first_block_length info) ++
   concat (block_wire e bl <$> blocks) ++ (if negb (v =? 41) then store 1 0 else [])).
Proof.
  intros Hf Hns e info multiple bl ll blocks n. destruct (blocks_in_range v a room Hf) as [Hn Hnum].
  pose proof (af_num _ _ Hf) as Hlower.
  assert (n = blocks_in v a room) as En by (unfold n, blocks; rewrite length_take; lia). split; [done|].
  assert ((blocks_in v a room >? 0) = multiple) as Hm.
  { unfold multiple. rewrite Z.gtb_ltb. unfold not_starved in Hns. fold info in Hns, Hnum.
    destruct (Z.eqb_spec (num_ack_blocks info) 0); cbn [negb];
      [apply Z.ltb_ge|apply Z.ltb_lt]; lia. }
  rewrite En. unfold ack_wire. cbv zeta. fold info. fold multiple ll bl (lower a) e.
  change (ack_blocks_written (available_ack_bytes (Z.of_nat room) bl ll (num_ack_blocks info)) bl (num_ack_blocks info))
    with (blocks_in v a room).
  change (tail (store 1 ?x ++ ?y)) with y. fold blocks. rewrite Hm.
  destruct (v =? 41), multiple; cbn [negb andb app]; by rewrite <- ?app_assoc.
Qed.

Lemma blocks_in_ok v incremental a room : ackable v incremental a ->
  let info := GetAckFrameInfo a in
  let bl := GetMinPacketNumberLength v (max_block_length info) in
  0 <= first_block_length info < 256 ^ bl /\
  blocks_ok bl (largest_acked a + 1 - first_block_length info) (take (Z.to_nat (blocks_in v a room)) (lower a)).
Proof.
  intros Ha info bl. pose proof (ackable_facts _ _ _ Ha) as Hf. destruct (blocks_in_range v a room Hf) as [Hn Hnum].
  pose proof (min_length_fits v (max_block_length info) (af_max _ _ Hf)) as Hmax. fold bl in Hmax.
  pose proof (af_first _ _ Hf) as Hfirst. fold info in Hfirst. split; [lia|].
  unfold lower. destruct (rev (packets a)) as [|x l] eqn:Hr; [by rewrite take_nil|].
  destruct (ackable_below _ _ _ _ _ Ha Hr) as (Hb & Hx & Hm & Hlim).
  destruct (af_kept _ _ Hf x l (Z.to_nat (blocks_in v a room)) Hr) as [Hmin Hk]; [lia|].
  fold info in Hmin, Hk. rewrite <- Hmin. apply blocks_written_ok; [|done|lia|].
  - destruct (number_length_8 bl (min_length_ok _ _)). done.
  - eapply Forall_impl; [exact Hk|]. cbn. intros y. fold info. lia.
Qed.

Lemma ack_frame_parsed f incremental a room pre rest :
  let v := transport_version (Framer.version_ f) in
  let inc := Framer.use_incremental_ack_processing_ f in
  let info := GetAckFrameInfo a in
  let b := ack_type_byte v (negb (num_ack_blocks info =? 0)) (GetMinPacketNumberLength v (largest_acked a))
             (GetMinPacketNumberLength v (max_block_length info)) in
  let bs := tail (ack_wire v a room) in
  ackable v incremental a -> not_starved v a room ->
  (inc = true -> accepts (Framer.visits f) (ack_visits true v a room)) ->
  ProcessAckFrame b (at_ f pre (bs ++ rest)) =
  Ret (Some (if inc then QuicAckFrame_init else ack_received v a room))
    (at_ (if inc then heard f (ack_visits true v a room) else f) (pre ++ bs) rest).
Proof.
  intros v inc info b bs Ha Hns Hacc. pose proof (ackable_facts _ _ _ Ha) as Hf. pose proof (packet_limit_bound v) as Hpl.
  pose proof Ha as [_ _ Hlim Hdelay _]. destruct (blocks_in_range v a room Hf) as [Hn Hnum].
  destruct (ack_wire_fields v a room Hf Hns) as [En Ebs]. destruct (blocks_in_ok v _ a room Ha) as [Hfirst Hok].
  pose proof (intervals_received v _ a room Ha) as Hrecv. unfold ack_visits in *.
  unfold bs. rewrite Ebs. clear bs Ebs. fold info in En, Hnum, Hfirst, Hok, Hrecv, Hacc |- *. cbv zeta in *.
  set (multiple := negb (num_ack_blocks info =? 0)) in *.
  set (ll := GetMinPacketNumberLength v (largest_acked a)) in *.
  set (bl := GetMinPacketNumberLength v (max_block_length info)) in *.
  destruct (ack_type_ok v multiple ll bl) as (Hmul & Hbl & Hll & _);
    [apply min_length_in..|]. fold b in Hmul, Hbl, Hll.
  set (blocks := take (Z.to_nat (blocks_in v a room)) (lower a)) in *. set (n := Z.of_nat (length blocks)) in *.
  pose proof (min_length_ok v (largest_acked a)) as Hnl. pose proof (min_length_ok v (max_block_length info)) as Hnb.
  fold ll in Hnl. fold bl in Hnb. destruct (number_length_8 ll Hnl) as [Hl8 Hl0].
  pose proof (min_length_fits v (largest_acked a)) as Hlf. fold ll in Hlf.
  unfold ProcessAckFrame. unfold mbind at 1, M_bind at 1, gets. change (framer (at_ f ?p ?r)) with f. fold v inc.
  rewrite Hmul, Hbl, Hll. set (fields := _ ++ enc_uint _ (Z.to_nat bl) _ ++ _). rewrite <- !(app_assoc _ _ rest).
  erewrite parse_step by (apply parses_num_ack_blocks; lia). erewrite parse_step by apply parses_num_received.
  erewrite parse_step by (apply parses_read, reads_to_uint64; [done|rewrite Z2Nat.id by done; lia]).
  assert (0 <= (if ack_delay_time a =? kQuicInfiniteTimeUs then kUFloat16MaxValue else ack_delay_time a)) as Hd0
    by (change kUFloat16MaxValue with 4396972769280; destruct (ack_delay_time a =? kQuicInfiniteTimeUs); lia).
  erewrite parse_step by (by apply parses_read, reads_ufloat16).
  fold (delay_read a). set (first_visit := OnAckFrameStart (largest_acked a) (delay_read a)) in *.
  set (f1 := if inc then heard f [first_visit] else f). set (p4 := (((pre ++ _) ++ _) ++ _) ++ _).
  transitivity (process_ack_blocks multiple bl (largest_acked a) (delay_read a)
    (if (v =? 41) && multiple then n else 0) 0 (at_ f1 p4 (fields ++ rest))).
  { unfold mbind, M_bind, f1. destruct inc; [|done]. destruct (Hacc eq_refl) as [Hans _]. by rewrite visit_at, Hans. }
  assert (Framer.use_incremental_ack_processing_ f1 = Framer.use_incremental_ack_processing_ f) as Einc
    by (unfold f1; by destruct inc).
  assert (Framer.endianness f1 = Framer.endianness f) as Ee by (unfold f1; by destruct inc).
  assert (transport_version (Framer.version_ f1) = transport_version (Framer.version_ f)) as Ev by (unfold f1; by destruct inc).
  fold inc in Einc. fold v in Ev.
  pose proof (ack_blocks_processed f1 a bl (if (v =? 41) && multiple then n else 0) (delay_read a) blocks p4 rest) as Hgo.
  cbv zeta in Hgo. rewrite Einc, Ev, Ee in Hgo. fold info multiple n in Hgo.
  change (Framer.endianness f) with (Framer.endianness_of v) in Hgo. fold fields in Hgo.
  assert (negb multiple = (num_ack_blocks info =? 0)) as Emul by apply negb_involutive. rewrite Emul in Hgo.
  assert (multiple = false -> blocks = []) as Hnone.
  { intros Hm. rewrite Hm in Emul. symmetry in Emul. apply Z.eqb_eq in Emul. unfold blocks.
    by rewrite Z2Nat.nonpos by lia. }
  rewrite Hgo; clear Hgo; [|done|lia|done|lia| |done|done|done|].
  - rewrite Hrecv. unfold f1, p4. rewrite <- !app_assoc. destruct inc; [|done]. by rewrite heard_app.
  - destruct multiple; cbn [andb]; [by destruct (v =? 41)|]. unfold n. rewrite Hnone by done. by destruct (v =? 41).
  - intros Hi. unfold f1. rewrite Hi. by destruct (Hacc Hi).
Qed.

(** The framer reports the ack, as far as it was written. *)
Lemma ack_processed f incremental a room header pre rest :
  let v := transport_version (Framer.version_ f) in
  let bs := ack_wire v a room in
  let vs := ack_visits (Framer.use_incremental_ack_processing_ f) v a room in
  ackable v incremental a -> not_starved v a room -> accepts (Framer.visits f) vs ->
  exists b, bs = b :: tail bs /\
    process_frame header b (at_ f (pre ++ [b]) (tail bs ++ rest)) = Ret None (at_ (heard f vs) (pre ++ bs) rest).
Proof.
  intros v bs vs Ha Hns Hacc. eexists. split; [apply ack_wire_tail|].
  destruct (ack_type_ok v (negb (num_ack_blocks (GetAckFrameInfo a) =? 0)) _ _ (min_length_in v (largest_acked a))
    (min_length_in v (max_block_length (GetAckFrameInfo a)))) as (_ & _ & _ & Hh & Hst & Hack & _).
  unfold process_frame. rewrite transport_at. fold v. rewrite Hh, Hst, Hack. unfold mbind, M_bind.
  unfold bs. rewrite (ack_frame_parsed f incremental) by (done || (unfold vs in Hacc; intros Hi; by rewrite Hi in Hacc)).
  fold v. unfold gets, vs. rewrite <- app_assoc. cbn [app]. rewrite <- ack_wire_tail.
  destruct (Framer.use_incremental_ack_processing_ f) eqn:Hi; change (framer (at_ ?x ?p ?r)) with x.
  - change (Framer.use_incremental_ack_processing_ (heard f ?l)) with (Framer.use_incremental_ack_processing_ f).
    by rewrite Hi.
  - rewrite Hi. cbn [negb]. apply tell_at. unfold vs in Hacc. by destruct Hacc.
Qed.
End Ack.
