(* ===== verification/FrameData.v ===== *)
(** Packets of frames: what [append_frames] writes, [ProcessFrameData] reports
    frame by frame, and every frame takes the bytes that [ComputeFrameLength]
    reserved for it. *)

From S2P Require Import Prelude World QuicData Wire IntervalSet Intervals PacketNumberQueue PacketNumbers.
From S2P Require Import Framer FrameWriter FrameReader FrameWire AckWire FrameBuild FrameRead AckRead.
Import Interval.

(** ** What is reported *)

Definition frame_visits (incremental : bool) (v : Z) (header : QuicPacketHeader) (frame : QuicFrame) (last : bool) (room : nat) :
    list Visit :=
  match frame with
  | ACK_FRAME a => ack_visits incremental v a room
  | _ => [visit_of frame (length (frame_wire v header frame last room))]
  end.

Fixpoint frames_visits (incremental : bool) (v : Z) (header : QuicPacketHeader) (frames : list QuicFrame) (room : nat) :
    list Visit :=
  match frames with
  | [] => []
  | frame :: rest =>
      let last := match rest with [] => true | _ => false end in
      frame_visits incremental v header frame last room ++
      frames_visits incremental v header rest (room - length (frame_wire v header frame last room))
  end.

(** Padding is last, or of a given size and followed by another kind of frame;
    before version 38 it is last. *)
Fixpoint well_placed (v : Z) (frames : list QuicFrame) : Prop :=
  match frames with
  | [] => True
  | PADDING_FRAME n :: rest =>
      match rest with [] => True | PADDING_FRAME _ :: _ => False | _ => 37 < v /\ 0 <= n end /\ well_placed v rest
  | _ :: rest => well_placed v rest
  end.

(** No ack is so short of room that it loses all its blocks but the first. *)
Fixpoint fed (v : Z) (header : QuicPacketHeader) (frames : list QuicFrame) (room : nat) : Prop :=
  match frames with
  | [] => True
  | frame :: rest =>
      match frame with ACK_FRAME a => not_starved v a room | _ => True end /\
      fed v header rest (room - length (frame_wire v header frame (match rest with [] => true | _ => false end) room))
  end.

(** ** Reading *)

(** A frame that can be sent, for readers of version [v]. *)
Definition encoded_ok (v : Z) (header : QuicPacketHeader) (frame : QuicFrame) : Prop :=
  match frame with
  | ACK_FRAME a => exists incremental, ackable v incremental a
  | _ => sendable header frame
  end.

Lemma frame_ok_encoded f header frame :
  frame_ok f header frame -> encoded_ok (transport_version (Framer.version_ f)) header frame.
Proof. destruct frame; simpl; eauto. Qed.

(** Only padding starts with a zero byte. *)
Lemma wire_head v header frame last room : encoded_ok v header frame ->
  exists b l, frame_wire v header frame last room = b :: l /\
    (b = 0 -> exists n, frame = PADDING_FRAME n).
Proof.
  intros Hok. destruct frame; cbn [frame_wire encoded_ok] in *.
  - set (f0 := Framer.init {| handshake_protocol := PROTOCOL_UNSUPPORTED; transport_version := v |} 0 IS_SERVER false).
    destruct (padding_wire f0 header num_padding_bytes last room Hok) as [k Hk].
    exists 0, (replicate k 0). split; [exact Hk|eauto].
  - by do 2 eexists.
  - by do 2 eexists.
  - by do 2 eexists.
  - by do 2 eexists.
  - by do 2 eexists.
  - by do 2 eexists.
  - by do 2 eexists.
  - set (f0 := Framer.init {| handshake_protocol := PROTOCOL_UNSUPPORTED; transport_version := v |} 0 IS_SERVER false).
    destruct Hok as (Hid & Ho & _). destruct (stream_flags_ok f0 f last Hid Ho) as (_ & _ & _ & Hr). 
    do 2 eexists. split; [exact (stream_wire_tail f0 f last Hid Ho)|]. cbn in Hr |- *. lia.
  - do 2 eexists. split; [apply ack_wire_tail|].
    destruct (ack_type_ok v (negb (num_ack_blocks (GetAckFrameInfo f) =? 0)) _ _ (min_length_in v (largest_acked f))
      (min_length_in v (max_block_length (GetAckFrameInfo f)))) as (_ & _ & _ & _ & _ & _ & Hb). lia.
  - by do 2 eexists.
Qed.

Section Read.
Context `{HV : FramerVisitor}.

Lemma frame_read f header frame last room pre rest :
  let v := transport_version (Framer.version_ f) in
  let bs := frame_wire v header frame last room in
  let vs := frame_visits (Framer.use_incremental_ack_processing_ f) v header frame last room in
  encoded_ok v header frame -> may_follow f frame last rest ->
  match frame with ACK_FRAME a => not_starved v a room | _ => True end ->
  Z.of_nat (length bs) < 2 ^ 31 -> accepts (Framer.visits f) vs ->
  exists b, bs = b :: tail bs /\
    process_frame header b (at_ f (pre ++ [b]) (tail bs ++ rest)) = Ret None (at_ (heard f vs) (pre ++ bs) rest).
Proof.
  intros v bs vs Hok Hrest Hfed Hlen Hacc.
  assert (forall a, frame = ACK_FRAME a -> exists b, bs = b :: tail bs /\
    process_frame header b (at_ f (pre ++ [b]) (tail bs ++ rest)) = Ret None (at_ (heard f vs) (pre ++ bs) rest)) as Hack.
  { intros a ->. destruct Hok as [inc Hok]. by apply (ack_processed f inc a room). }
  assert (sendable header frame -> vs = [visit_of frame (length bs)] ->
    exists b, bs = b :: tail bs /\
    process_frame header b (at_ f (pre ++ [b]) (tail bs ++ rest)) = Ret None (at_ (heard f vs) (pre ++ bs) rest)) as Hother.
  { intros Hs Hvs. destruct (process_frame_at f header frame last room pre rest Hs Hrest Hlen) as (b & Hb & Hp).
    exists b. split; [done|]. fold v bs in Hp. rewrite Hp, Hvs in *. apply tell_at. by destruct Hacc. }
  destruct frame; first [by apply Hother|by eapply Hack].
Qed.

Lemma load_byte b : load [b] = b.
Proof. cbn. lia. Qed.

(** The loop over the frames of a packet. *)
Lemma frames_read header frames : forall f room pre fuel,
  let v := transport_version (Framer.version_ f) in
  let bs := frames_wire v header frames room in
  let vs := frames_visits (Framer.use_incremental_ack_processing_ f) v header frames room in
  Forall (encoded_ok v header) frames -> well_placed v frames -> fed v header frames room ->
  Z.of_nat (length bs) < 2 ^ 31 -> accepts (Framer.visits f) vs -> (length bs <= fuel)%nat ->
  frames_loop header fuel (at_ f pre bs) = Ret true (at_ (heard f vs) (pre ++ bs) []).
Proof.
  induction frames as [|frame frames IH]; intros f room pre fuel v bs vs Hok Hplace Hfed Hlen Hacc Hfuel.
  { cbn in bs, vs. unfold bs, vs. rewrite heard_nil, app_nil_r.
    assert (Reader.IsDoneReading (reader (at_ f pre [])) = true) as Hdone
      by (unfold Reader.IsDoneReading, Reader.len_; cbn; by rewrite app_nil_r, Nat.eqb_refl).
    destruct fuel; cbn [frames_loop]; unfold mbind, M_bind, get; by rewrite Hdone. }
  apply Forall_cons in Hok as [Hok Hoks]. cbn [frames_wire frames_visits fed] in *. destruct Hfed as [Hfed Hfeds].
  set (last := match frames with [] => true | _ => false end) in *.
  set (bs1 := frame_wire v header frame last room) in *.
  set (vs1 := frame_visits (Framer.use_incremental_ack_processing_ f) v header frame last room) in *.
  set (room2 := (room - length bs1)%nat) in *. set (bs2 := frames_wire v header frames room2) in *.
  unfold bs, vs in *. apply accepts_app in Hacc as [Hacc1 Hacc2]. rewrite length_app in *.
  assert (may_follow f frame last bs2) as Hrest.
  { unfold may_follow. destruct frame; try done.
    - cbn [well_placed] in Hplace. destruct Hplace as [Hnext _]. destruct frames as [|next rest]; [done|].
      apply Forall_cons in Hoks as [Hnok _].
      destruct (wire_head v header next (match rest with [] => true | _ => false end) room2 Hnok) as (b & l & Hw & Hb0).
      unfold bs2. cbn [frames_wire]. rewrite Hw. cbn [app after_padding].
      split; [|by destruct next; destruct Hnext]. intros Hb. destruct (Hb0 Hb) as [m ->]. done.
    - unfold last, bs2. by destruct frames. }
  destruct (frame_read f header frame last room pre bs2 Hok Hrest Hfed ltac:(fold v bs1; lia) Hacc1) as (b & Hb & Hp).
  fold v bs1 vs1 in Hb, Hp. destruct fuel as [|fuel]; [rewrite Hb in Hfuel; cbn [length] in Hfuel; lia|].
  cbn [frames_loop]. unfold mbind, M_bind, get.
  assert (Reader.IsDoneReading (reader (at_ f pre (bs1 ++ bs2))) = false) as ->.
  { unfold Reader.IsDoneReading, Reader.len_. cbn. rewrite !length_app, Hb. cbn [length]. apply Nat.eqb_neq. lia. }
  assert (rd (Reader.ReadBytes 1) (at_ f pre (bs1 ++ bs2)) = Ret (Some [b]) (at_ f (pre ++ [b]) (tail bs1 ++ bs2))) as ->.
  { rewrite Hb at 1. unfold rd, zoom. cbn [view reader_lens at_ reader].
    change ((b :: tail bs1) ++ bs2) with ([b] ++ tail bs1 ++ bs2). by rewrite ReadBytes_ok. }
  rewrite load_byte, Hp.
  rewrite (IH (heard f vs1) room2); [|done| | |change (frames_wire _ header frames room2) with bs2; lia|done|].
  - rewrite heard_app, <- app_assoc. done.
  - destruct frame; cbn [well_placed] in Hplace; try done. by destruct Hplace.
  - done.
  - rewrite Hb in Hfuel. cbn [length] in Hfuel. change (frames_wire _ header frames room2) with bs2. lia.
Qed.
End Read.

(** ** Room *)

Lemma id_size_range id : u32 id -> 1 <= GetStreamIdSize id <= 4.
Proof. intros H. apply (stream_id_size_ok id H). Qed.

Lemma offset_size_range v o : u64 o -> 0 <= GetStreamOffsetSize v o <= 8.
Proof.
  intros H. destruct (stream_offset_size_ok v o H) as [Hm _]. revert Hm. generalize (GetStreamOffsetSize v o).
  unfold offset_lengths. intros j. destruct (v =? 41); set_unfold; lia.
Qed.

(** With the bytes [GetAckFrameSize] asks for, all blocks that can be counted in a
    byte are written. *)
Lemma blocks_in_full f a room :
  let v := transport_version (Framer.version_ f) in
  let num := num_ack_blocks (GetAckFrameInfo a) in
  ackable v (Framer.use_incremental_ack_processing_ f) a ->
  GetAckFrameSize f a <= Z.of_nat room -> Z.of_nat room < 2 ^ 31 ->
  blocks_in v a room = Z.min num 255.
Proof.
  intros v num Ha Hsize Hroom. pose proof (af_num _ _ (ackable_facts _ _ _ Ha)) as Hnum. fold num in Hnum.
  unfold GetAckFrameSize, LargestAcked in Hsize. fold v in Hsize. cbv zeta in Hsize. fold num in Hsize.
  assert ((if negb (Framer.use_incremental_ack_processing_ f) then GetAckFrameTimeStampSize a else 0) >= 0) as Ht.
  { unfold GetAckFrameTimeStampSize. destruct (Framer.use_incremental_ack_processing_ f); [done|]. cbn [negb].
    destruct (received_packet_times a); cbn [length]; lia. }
  unfold blocks_in. fold num. set (ll := GetMinPacketNumberLength v (largest_acked a)) in *.
  set (bl := GetMinPacketNumberLength v (max_block_length (GetAckFrameInfo a))) in *.
  change kMaxAckBlocks with 255 in Hsize.
  assert (1 <= ll <= 8 /\ 1 <= bl <= 8) as [Hll Hbl].
  { pose proof (min_length_ok v (largest_acked a)) as H1. pose proof (min_length_ok v (max_block_length (GetAckFrameInfo a))) as H2.
    unfold number_length in *. lia. }
  unfold GetMinAckFrameSize, kQuicFrameTypeSize, kQuicDeltaTimeLargestObservedSize, kQuicNumTimestampsSize,
    kNumberOfAckBlocksSize in *.
  set (extra := if negb (num =? 0) then 1 else 0).
  set (avail := Z.of_nat room - bl - (1 + ll + 2 + 1) - extra).
  assert (Z.min num 255 * (bl + 1) <= avail < 2 ^ 31) as Havail.
  { unfold avail, extra. destruct (Z.eqb_spec num 0); cbn [negb] in *; nia. }
  assert (available_ack_bytes (Z.of_nat room) bl ll num = avail) as ->.
  { unfold available_ack_bytes, GetMinAckFrameSize, kQuicFrameTypeSize, kQuicDeltaTimeLargestObservedSize,
      kQuicNumTimestampsSize, kNumberOfAckBlocksSize. fold extra. rewrite uint64_small, int32_small; [done|nia..]. }
  unfold ack_blocks_written. rewrite Z.quot_div_nonneg by nia.
  assert (Z.min num 255 <= avail / (bl + 1)) as Hdiv by (apply Z.div_le_lower_bound; nia).
  assert (avail / (bl + 1) <= avail) by (apply Z.div_le_upper_bound; nia).
  rewrite uint64_small, Z.gtb_ltb by nia.
  destruct (Z.ltb_spec 255 (Z.min num (avail / (bl + 1)))); lia.
Qed.

Lemma ack_wire_length f a room :
  let v := transport_version (Framer.version_ f) in
  ackable v (Framer.use_incremental_ack_processing_ f) a ->
  GetAckFrameSize f a <= Z.of_nat room -> Z.of_nat room < 2 ^ 31 ->
  Z.of_nat (length (ack_wire v a room)) = GetAckFrameSize f a /\ not_starved v a room.
Proof.
  intros v Ha Hsize Hroom. pose proof (blocks_in_full f a room Ha Hsize Hroom) as Hn. fold v in Hn.
  pose proof (ackable_facts _ _ _ Ha) as Hf. pose proof (af_num _ _ Hf) as Hnum. fold v in Hf.
  assert (not_starved v a room) as Hns by (unfold not_starved; lia). split; [|done].
  destruct (ack_wire_fields v a room Hf Hns) as [En Ebs]. rewrite (ack_wire_tail v a room), Ebs.
  rewrite <- En in Hn. cbn [length]. rewrite !length_app, !enc_uint_length, length_concat_blocks.
  unfold GetAckFrameSize, LargestAcked, GetMinAckFrameSize, kQuicFrameTypeSize, kQuicDeltaTimeLargestObservedSize,
    kQuicNumTimestampsSize, kNumberOfAckBlocksSize. fold v. cbv zeta. change kMaxAckBlocks with 255.
  assert ((if negb (Framer.use_incremental_ack_processing_ f) then GetAckFrameTimeStampSize a else 0) = 0) as ->.
  { unfold GetAckFrameTimeStampSize. destruct (ak_times _ _ _ Ha) as [->|Ht]; [done|rewrite Ht].
    by destruct (Framer.use_incremental_ack_processing_ f). }
  destruct (number_length_8 _ (min_length_ok v (largest_acked a))) as [_ Hl0].
  destruct (number_length_8 _ (min_length_ok v (max_block_length (GetAckFrameInfo a)))) as [_ Hb0].
  set (k := length (take _ (lower a))) in *. set (num := num_ack_blocks (GetAckFrameInfo a)) in *.
  destruct (Z.eqb_spec num 0) as [Hz|Hz]; cbn [negb andb].
  - assert (k = O) as -> by lia. destruct (v =? 41); cbn [andb negb app store length]; lia.
  - rewrite <- Hn. destruct (v =? 41); cbn [andb negb app store length]; nia.
Qed.

(** Every frame other than padding takes the bytes that were computed for it. *)
Lemma frame_wire_length f header frame last room :
  let v := transport_version (Framer.version_ f) in
  let n := ComputeFrameLength f frame last (packet_number_length header) in
  frame_ok f header frame -> (forall k, frame <> PADDING_FRAME k) ->
  n <= Z.of_nat room -> Z.of_nat room < 2 ^ 31 ->
  Z.of_nat (length (frame_wire v header frame last room)) = n /\
  match frame with ACK_FRAME a => not_starved v a room | _ => True end.
Proof.
  intros v n Hok Hpad Hn Hroom. unfold n in *. clear n.
  destruct frame; cbn [frame_ok sendable frame_wire ComputeFrameLength] in *; try (split; [|done]).
  - by destruct (Hpad num_padding_bytes).
  - unfold rst_stream_wire. destruct (v =? 41); rewrite !length_app, !enc_uint_length, store_length; done.
  - rewrite !length_app, !enc_uint_length, store_length. 
    unfold GetMinConnectionCloseFrameSize, kQuicFrameTypeSize, kQuicErrorCodeSize, kQuicErrorDetailsLengthSize. lia.
  - rewrite !length_app, !enc_uint_length, store_length. 
    unfold GetMinGoAwayFrameSize, kQuicFrameTypeSize, kQuicErrorCodeSize, kQuicErrorDetailsLengthSize,
      kQuicMaxStreamIdSize. lia.
  - by rewrite !length_app, !enc_uint_length, store_length.
  - by rewrite length_app, enc_uint_length, store_length.
  - destruct Hok as (Hl & _). rewrite !length_app, !enc_uint_length, store_length.
    unfold GetStopWaitingFrameSize, kQuicFrameTypeSize. set_unfold in Hl. lia.
  - done.
  - destruct Hok as (Hid & Ho & d & Hd & Hlen & _). unfold stream_wire, content. rewrite Hd.
    pose proof (id_size_range _ Hid). pose proof (offset_size_range v _ Ho).
    unfold GetMinStreamFrameSize, kQuicFrameTypeSize, kQuicStreamPayloadLengthSize. fold v.
    destruct last; rewrite !length_app, !enc_uint_length, store_length; rewrite ?length_app, ?enc_uint_length; cbn [length]; lia.
  - by apply ack_wire_length.
  - done.
Qed.

(** ** Packets of frames *)

(** The bytes to reserve for frames: what [ComputeFrameLength] says, and the
    padding, which takes at least a byte where it fills the packet. *)
Fixpoint needed (f : Framer.Framer) (header : QuicPacketHeader) (frames : list QuicFrame) : Z :=
  match frames with
  | [] => 0
  | frame :: rest =>
      match frame with
      | PADDING_FRAME n => if (transport_version (Framer.version_ f) <=? 37) || (n <? 0) then 1 else n
      | _ => ComputeFrameLength f frame (match rest with [] => true | _ => false end) (packet_number_length header)
      end + needed f header rest
  end.

Lemma frame_length_nonneg f header frame last : frame_ok f header frame ->
  0 <= ComputeFrameLength f frame last (packet_number_length header).
Proof.
  intros Hok. destruct frame; cbn [frame_ok sendable ComputeFrameLength] in *; try done.
  - unfold GetMinConnectionCloseFrameSize, kQuicFrameTypeSize, kQuicErrorCodeSize, kQuicErrorDetailsLengthSize. lia.
  - unfold GetMinGoAwayFrameSize, kQuicFrameTypeSize, kQuicErrorCodeSize, kQuicErrorDetailsLengthSize, kQuicMaxStreamIdSize. lia.
  - unfold GetStopWaitingFrameSize, kQuicFrameTypeSize. destruct Hok as [Hl _]. set_unfold in Hl. lia.
  - destruct Hok as (Hid & Ho & d & _ & Hn & _). pose proof (id_size_range _ Hid).
    pose proof (offset_size_range (transport_version (Framer.version_ f)) _ Ho).
    unfold GetMinStreamFrameSize, kQuicFrameTypeSize, kQuicStreamPayloadLengthSize. destruct last; lia.
  - pose proof (af_num _ _ (ackable_facts _ _ _ Hok)) as Hnum.
    set (v := transport_version (Framer.version_ f)) in *.
    destruct (number_length_8 _ (min_length_ok v (largest_acked f0))) as [_ Hl0].
    destruct (number_length_8 _ (min_length_ok v (max_block_length (GetAckFrameInfo f0)))) as [_ Hb0].
    unfold GetAckFrameSize, LargestAcked, GetMinAckFrameSize, GetAckFrameTimeStampSize, kQuicFrameTypeSize,
      kQuicDeltaTimeLargestObservedSize, kQuicNumTimestampsSize, kNumberOfAckBlocksSize. fold v. cbv zeta.
    change kMaxAckBlocks with 255. destruct (num_ack_blocks _ =? 0), (Framer.use_incremental_ack_processing_ f),
      (received_packet_times f0); cbn [negb length]; nia.
Qed.

Lemma needed_nonneg f header frames : Forall (frame_ok f header) frames -> 0 <= needed f header frames.
Proof.
  induction frames as [|frame frames IH]; intros Hok; [done|]. apply Forall_cons in Hok as [Hok Hoks].
  specialize (IH Hoks). cbn [needed].
  pose proof (frame_length_nonneg f header frame (match frames with [] => true | _ => false end) Hok).
  destruct frame; try lia. destruct (Z.leb_spec (transport_version (Framer.version_ f)) 37), (Z.ltb_spec num_padding_bytes 0);
    cbn [orb]; lia.
Qed.

(** With the room that was computed all frames fit and no ack is cut short. *)
Lemma frames_fit f header frames : forall room,
  let v := transport_version (Framer.version_ f) in
  let bs := frames_wire v header frames room in
  Forall (frame_ok f header) frames -> well_placed v frames ->
  needed f header frames <= Z.of_nat room -> Z.of_nat room < 2 ^ 31 ->
  needed f header frames <= Z.of_nat (length bs) <= Z.of_nat room /\ fed v header frames room /\
  ((forall n, PADDING_FRAME n ∉ frames) -> Z.of_nat (length bs) = needed f header frames).
Proof.
  induction frames as [|frame frames IH]; intros room v bs Hok Hplace Hn Hroom; [cbn; split_and!; try done; lia|].
  apply Forall_cons in Hok as [Hok Hoks]. cbn [needed frames_wire fed] in *.
  pose proof (needed_nonneg f header frames Hoks) as Hrest.
  set (last := match frames with [] => true | _ => false end) in *. unfold bs. clear bs.
  set (bs1 := frame_wire v header frame last room) in *. rewrite length_app, Nat2Z.inj_add.
  assert ((exists n, frame = PADDING_FRAME n) \/ forall n, frame <> PADDING_FRAME n) as [[n ->]|Hpad]
    by (destruct frame; eauto).
  - cbn [sendable frame_ok well_placed] in *. unfold bs1, frame_wire in *. clear bs1. fold v in Hn |- *.
    destruct Hplace as [Hnext Hplace].
    destruct (_ || _) eqn:E; rewrite length_replicate.
    + assert (frames = []) as ->.
      { destruct frames as [|x l]; [done|]. apply orb_true_iff in E. rewrite Z.leb_le, Z.ltb_lt in E. destruct x; lia. }
      cbn in *. split_and!; [lia..|done|done|]. intros Hno. destruct (Hno n). left.
    + apply orb_false_iff in E as [_ E%Z.ltb_ge].
      destruct (IH (room - Z.to_nat n)%nat Hoks Hplace) as (Hl & Hfed & _); [lia..|]. fold v in Hl, Hfed.
      split_and!; [lia..|done|done|]. intros Hno. destruct (Hno n). left.
  - assert (match frame with
            | PADDING_FRAME n => if (transport_version (Framer.version_ f) <=? 37) || (n <? 0) then 1 else n
            | _ => ComputeFrameLength f frame last (packet_number_length header)
            end = ComputeFrameLength f frame last (packet_number_length header)) as E.
    { destruct frame; try done. by destruct (Hpad num_padding_bytes). }
    rewrite E in *.
    assert (well_placed v frames) as Hplace' by (destruct frame; cbn [well_placed] in Hplace; [by destruct Hplace|done..]).
    destruct (frame_wire_length f header frame last room Hok) as [Hl1 Hfed1]; [eauto|lia|done|].
    fold v bs1 in Hl1, Hfed1.
    destruct (IH (room - length bs1)%nat Hoks Hplace') as (Hl2 & Hfed2 & Heq2); [lia..|]. fold v in Hl2, Hfed2, Heq2.
    split_and!; [lia..|done|done|]. intros Hno. rewrite Hl1, Heq2; [done|]. intros n Hin. apply (Hno n). by right.
Qed.
