(* ===== verification/Handshake.v ===== *)
(** Handshake messages: [CryptoHandshakeMessage] and [CryptoFramer] of
    libquic/net/quic/core/crypto, a tagged map to bytes and back, and the coder of
    socket addresses. *)

From stdpp Require Import pretty.
From S2P Require Import Prelude World QuicData IntervalSet PacketNumberQueue Framer FrameWriter FrameReader.

Definition QUIC_NO_ERROR : Z := 0.
Definition QUIC_CRYPTO_TAGS_OUT_OF_ORDER : Z := 29.
Definition QUIC_CRYPTO_TOO_MANY_ENTRIES : Z := 30.
Definition QUIC_INVALID_CRYPTO_MESSAGE_PARAMETER : Z := 34.
Definition QUIC_CRYPTO_MESSAGE_PARAMETER_NOT_FOUND : Z := 35.
Definition QUIC_CRYPTO_MESSAGE_INDEX_NOT_FOUND : Z := 37.
Definition QUIC_CRYPTO_DUPLICATE_TAG : Z := 43.

(** [TAG('P', 'A', 'D', '\0')] and the others *)
Definition kPAD : Z := MakeQuicTag 80 65 68 0.
Definition kPRST : Z := MakeQuicTag 80 82 83 84.
Definition kRNON : Z := MakeQuicTag 82 78 79 78.
Definition kCADR : Z := MakeQuicTag 67 65 68 82.

Definition kMaxEntries : Z := 128.
Definition kQuicTagSize : Z := 4.
Definition kCryptoEndOffsetSize : Z := 4.
Definition kNumEntriesSize : Z := 2.

(** ** Messages *)

(** [QuicTagValueMap], a [std::map]: the entries in ascending order of tags *)
Definition TagValueMap : Type := list (Z * list Z).

(** [map[tag] = value] *)
Fixpoint map_set (tag : Z) (value : list Z) (l : TagValueMap) : TagValueMap :=
  match l with
  | [] => [(tag, value)]
  | (t, x) :: r =>
      if tag <? t then (tag, value) :: l
      else if tag =? t then (tag, value) :: r
      else (t, x) :: map_set tag value r
  end.

(** [map.find(tag)] *)
Fixpoint map_find (tag : Z) (l : TagValueMap) : option (list Z) :=
  match l with
  | [] => None
  | (t, x) :: r => if tag =? t then Some x else map_find tag r
  end.

Module Message.

Record CryptoHandshakeMessage : Type := {
  tag_ : Z;
  tag_value_map_ : TagValueMap;
  minimum_size_ : Z;
  serialized_ : option (list Z)
}.

(** [CryptoHandshakeMessage()] *)
Definition init : CryptoHandshakeMessage :=
  {| tag_ := 0; tag_value_map_ := []; minimum_size_ := 0; serialized_ := None |}.

(** The copy constructor and the assignment: the cache is not copied. *)
Definition copy (m : CryptoHandshakeMessage) : CryptoHandshakeMessage :=
  {| tag_ := tag_ m; tag_value_map_ := tag_value_map_ m; minimum_size_ := minimum_size_ m; serialized_ := None |}.

Definition Clear (m : CryptoHandshakeMessage) : CryptoHandshakeMessage :=
  {| tag_ := 0; tag_value_map_ := []; minimum_size_ := 0; serialized_ := None |}.

Definition set_tag (tag : Z) (m : CryptoHandshakeMessage) : CryptoHandshakeMessage :=
  {| tag_ := tag; tag_value_map_ := tag_value_map_ m; minimum_size_ := minimum_size_ m; serialized_ := serialized_ m |}.

(** A message with another map: the cache stays. *)
Definition with_map (l : TagValueMap) (m : CryptoHandshakeMessage) : CryptoHandshakeMessage :=
  {| tag_ := tag_ m; tag_value_map_ := l; minimum_size_ := minimum_size_ m; serialized_ := serialized_ m |}.

Definition with_serialized (s : option (list Z)) (m : CryptoHandshakeMessage) : CryptoHandshakeMessage :=
  {| tag_ := tag_ m; tag_value_map_ := tag_value_map_ m; minimum_size_ := minimum_size_ m; serialized_ := s |}.

Definition MarkDirty (m : CryptoHandshakeMessage) : CryptoHandshakeMessage := with_serialized None m.

Definition SetStringPiece (tag : Z) (value : list Z) (m : CryptoHandshakeMessage) : CryptoHandshakeMessage :=
  with_map (map_set tag value (tag_value_map_ m)) m.

(** [SetValue(tag, v)] of a [v] of [n] bytes *)
Definition SetValue (n : nat) (tag v : Z) (m : CryptoHandshakeMessage) : CryptoHandshakeMessage :=
  SetStringPiece tag (store n v) m.

(** [SetVector(tag, v)] of elements of [n] bytes *)
Definition SetVector (n : nat) (tag : Z) (v : list Z) (m : CryptoHandshakeMessage) : CryptoHandshakeMessage :=
  SetStringPiece tag (concat (store n <$> v)) m.

(** [QuicVersionToQuicVersionLabel(version)] *)
Definition version_label (v : Z) : Z :=
  CreateQuicVersionLabel {| handshake_protocol := PROTOCOL_QUIC_CRYPTO; transport_version := v |}.

Definition SetVersionVector (tag : Z) (versions : list Z) (m : CryptoHandshakeMessage) : CryptoHandshakeMessage :=
  SetVector 4 tag ((fun v => swap 4 (version_label v)) <$> versions) m.

Definition SetVersion (tag v : Z) (m : CryptoHandshakeMessage) : CryptoHandshakeMessage :=
  SetValue 4 tag (swap 4 (version_label v)) m.

Definition Erase (tag : Z) (m : CryptoHandshakeMessage) : CryptoHandshakeMessage :=
  with_map (List.filter (fun e => negb (fst e =? tag)) (tag_value_map_ m)) m.

(** [bool GetStringPiece(QuicTag tag, QuicStringPiece* out)] *)
Definition GetStringPiece (tag : Z) (m : CryptoHandshakeMessage) : option (list Z) := map_find tag (tag_value_map_ m).

Definition HasStringPiece (tag : Z) (m : CryptoHandshakeMessage) : bool :=
  match map_find tag (tag_value_map_ m) with Some _ => true | None => false end.

(** [QuicErrorCode GetPOD(tag, out, len)]: the code and the value *)
Definition GetPOD (tag : Z) (len : nat) (m : CryptoHandshakeMessage) : Z * Z :=
  match map_find tag (tag_value_map_ m) with
  | None => (QUIC_CRYPTO_MESSAGE_PARAMETER_NOT_FOUND, 0)
  | Some v => if (length v =? len)%nat then (QUIC_NO_ERROR, load v) else (QUIC_INVALID_CRYPTO_MESSAGE_PARAMETER, 0)
  end.

Definition GetUint32 (tag : Z) (m : CryptoHandshakeMessage) : Z * Z := GetPOD tag 4 m.
Definition GetUint64 (tag : Z) (m : CryptoHandshakeMessage) : Z * Z := GetPOD tag 8 m.
Definition GetUint128 (tag : Z) (m : CryptoHandshakeMessage) : Z * Z := GetPOD tag 16 m.

(** The tags a value holds, [num_tags] of them. *)
Fixpoint read_tags (num_tags : nat) (v : list Z) : list Z :=
  match num_tags with
  | O => []
  | S n => load (take 4 v) :: read_tags n (drop 4 v)
  end.

(** [QuicErrorCode GetTaglist(tag, out_tags)] *)
Definition GetTaglist (tag : Z) (m : CryptoHandshakeMessage) : Z * list Z :=
  match map_find tag (tag_value_map_ m) with
  | None => (QUIC_CRYPTO_MESSAGE_PARAMETER_NOT_FOUND, [])
  | Some v =>
      if negb (length v mod 4 =? 0)%nat then (QUIC_INVALID_CRYPTO_MESSAGE_PARAMETER, [])
      else (QUIC_NO_ERROR, read_tags (length v / 4) v)
  end.

(** [QuicErrorCode GetVersionLabelList(tag, out)] *)
Definition GetVersionLabelList (tag : Z) (m : CryptoHandshakeMessage) : Z * list Z :=
  let '(error, out) := GetTaglist tag m in
  if negb (error =? QUIC_NO_ERROR) then (error, out) else (QUIC_NO_ERROR, swap 4 <$> out).

(** [QuicErrorCode GetVersionLabel(tag, out)] *)
Definition GetVersionLabel (tag : Z) (m : CryptoHandshakeMessage) : Z * Z :=
  let '(error, out) := GetUint32 tag m in
  if negb (error =? QUIC_NO_ERROR) then (error, out) else (QUIC_NO_ERROR, swap 4 out).

(** The loop of [GetNthValue24]; [index] counts down. *)
Fixpoint nth_value24 (fuel : nat) (index : nat) (value : list Z) : M unit (Z * list Z) :=
  match value with
  | [] => mret (QUIC_CRYPTO_MESSAGE_INDEX_NOT_FOUND, [])
  | b0 :: b1 :: b2 :: value =>
      let size := Z.to_nat (Z.lor (Z.lor b0 (Z.shiftl b1 8)) (Z.shiftl b2 16)) in
      if (length value <? size)%nat then mret (QUIC_INVALID_CRYPTO_MESSAGE_PARAMETER, [])
      else
        match index, fuel with
        | O, _ => mret (QUIC_NO_ERROR, take size value)
        | S index, S fuel => nth_value24 fuel index (drop size value)
        | S _, O => crashed OutOfFuel
        end
  | _ => mret (QUIC_INVALID_CRYPTO_MESSAGE_PARAMETER, [])
  end.

(** [QuicErrorCode GetNthValue24(tag, index, out)] *)
Definition GetNthValue24 (tag : Z) (index : nat) (m : CryptoHandshakeMessage) : M unit (Z * list Z) :=
  match GetStringPiece tag m with
  | None => mret (QUIC_CRYPTO_MESSAGE_PARAMETER_NOT_FOUND, [])
  | Some value => nth_value24 (length value) index value
  end.

(** [size_t size() const] *)
Definition size (m : CryptoHandshakeMessage) : Z :=
  4 + 2 + 2 + (4 + 4) * Z.of_nat (length (tag_value_map_ m)) +
  fold_right (fun e n => Z.of_nat (length (snd e)) + n) 0 (tag_value_map_ m).

Definition set_minimum_size (min_bytes : Z) (m : CryptoHandshakeMessage) : CryptoHandshakeMessage :=
  if min_bytes =? minimum_size_ m then m
  else {| tag_ := tag_ m; tag_value_map_ := tag_value_map_ m; minimum_size_ := min_bytes; serialized_ := None |}.

End Message.
Export Message (CryptoHandshakeMessage).

(** ** Writing a message *)

(** [if (!m) return nullptr;] *)
Definition wrote {S} (m : M S bool) : M S (option unit) := ok ← m; mret (if ok : bool then Some tt else None).

(** [bool WritePadTag(writer, pad_length, end_offset)]: the new end offset *)
Definition WritePadTag (pad_length end_offset : Z) : M Writer.Writer (option Z) :=
  _ ←? wrote (Writer.WriteTag kPAD);
  let end_offset := uint32 (end_offset + pad_length) in
  _ ←? wrote (Writer.WriteUInt32 end_offset);
  mret (Some end_offset).

(** The loop over tags and end offsets: [need_pad_tag] and the end offset after it *)
Fixpoint write_tags (pad_length : Z) (l : TagValueMap) (need_pad_tag : bool) (end_offset : Z) :
    M Writer.Writer (option (bool * Z)) :=
  match l with
  | [] => mret (Some (need_pad_tag, end_offset))
  | (tag, value) :: l =>
      if (tag =? kPAD) && need_pad_tag then mret None
      else
        padded ←? (if (tag >? kPAD) && need_pad_tag
                   then e ←? WritePadTag pad_length end_offset; mret (Some (false, e))
                   else mret (Some (need_pad_tag, end_offset)));
        _ ←? wrote (Writer.WriteTag tag);
        let end_offset := uint32 (snd padded + Z.of_nat (length value)) in
        _ ←? wrote (Writer.WriteUInt32 end_offset);
        write_tags pad_length l (fst padded) end_offset
  end.

(** The loop over values: [need_pad_value] after it *)
Fixpoint write_values (pad_length : Z) (l : TagValueMap) (need_pad_value : bool) : M Writer.Writer (option bool) :=
  match l with
  | [] => mret (Some need_pad_value)
  | (tag, value) :: l =>
      need_pad_value ←? (if (tag >? kPAD) && need_pad_value
                         then _ ←? wrote (Writer.WriteRepeatedByte 45 (Z.to_nat pad_length)); mret (Some false)
                         else mret (Some need_pad_value));
      _ ←? wrote (Writer.WriteBytes value);
      write_values pad_length l need_pad_value
  end.

(** [size_t pad_length] where padding is needed *)
Definition pad_length (m : CryptoHandshakeMessage) : Z :=
  let delta := Message.minimum_size_ m - Message.size m in
  let overhead := kQuicTagSize + kCryptoEndOffsetSize in
  if delta >? overhead then delta - overhead else 0.

(** The statements of [ConstructHandshakeMessage] on the writer. *)
Definition write_message (m : CryptoHandshakeMessage) (need_pad : bool) (num_entries pad_length : Z) :
    M Writer.Writer (option unit) :=
  let l := Message.tag_value_map_ m in
  _ ←? wrote (Writer.WriteTag (Message.tag_ m));
  _ ←? wrote (Writer.WriteUInt16 (uint16 num_entries));
  _ ←? wrote (Writer.WriteUInt16 0);
  tags ←? write_tags pad_length l need_pad 0;
  _ ←? (if fst tags : bool then e ←? WritePadTag pad_length (snd tags); mret (Some tt) else mret (Some tt));
  need_pad_value ←? write_values pad_length l need_pad;
  if need_pad_value : bool then wrote (Writer.WriteRepeatedByte 45 (Z.to_nat pad_length)) else mret (Some tt).

(** [QuicData* ConstructHandshakeMessage(message, perspective)], null or the bytes *)
Definition ConstructHandshakeMessage (m : CryptoHandshakeMessage) : M unit (option (list Z)) :=
  let need_pad := Message.size m <? Message.minimum_size_ m in
  let num_entries := Z.of_nat (length (Message.tag_value_map_ m)) + (if need_pad then 1 else 0) in
  let pad_length := if need_pad then pad_length m else 0 in
  let len := Message.size m + (if need_pad then kQuicTagSize + kCryptoEndOffsetSize + pad_length else 0) in
  if num_entries >? kMaxEntries then mret None
  else
    match write_message m need_pad num_entries pad_length
            (Writer.init (replicate (Z.to_nat len) 0) HOST_BYTE_ORDER) with
    | Ret (Some _) w => mret (Some (Writer.buffer_ w))
    | Ret None _ => mret None
    | Crash c => crashed c
    end.

(** [const QuicData& GetSerialized(perspective)]: what was built before is given
    again *)
Definition GetSerialized : M CryptoHandshakeMessage (list Z) :=
  m ← get;
  match Message.serialized_ m with
  | Some s => mret s
  | None =>
      match ConstructHandshakeMessage m tt with
      | Ret (Some s) _ => modify (Message.with_serialized (Some s));; mret s
      | Ret None _ => crashed NullDeref
      | Crash c => crashed c
      end
  end.

(** ** Reading messages *)

(** [enum CryptoFramerState] *)
Inductive CryptoFramerState : Type :=
| STATE_READING_TAG
| STATE_READING_NUM_ENTRIES
| STATE_READING_TAGS_AND_LENGTHS
| STATE_READING_VALUES.

(** A call of [CryptoFramerVisitorInterface]. *)
Inductive Call : Type :=
| OnCryptoError
| OnHandshakeMessage (m : CryptoHandshakeMessage).

Module CryptoFramer.

Record CryptoFramer : Type := {
  error_ : Z;
  buffer_ : list Z;
  state_ : CryptoFramerState;
  message_ : CryptoHandshakeMessage;
  error_detail_ : string;
  num_entries_ : Z;
  tags_and_lengths_ : list (Z * Z);
  values_len_ : Z;
  process_truncated_messages_ : bool;
  calls : list Call
}.

(** [CryptoFramer()] *)
Definition init : CryptoFramer :=
  {| error_ := QUIC_NO_ERROR; buffer_ := []; state_ := STATE_READING_TAG; message_ := Message.init;
     error_detail_ := EmptyString; num_entries_ := 0; tags_and_lengths_ := []; values_len_ := 0;
     process_truncated_messages_ := false; calls := [] |}.

Section Setters.
Variable f : CryptoFramer.

Definition with_buffer (b : list Z) : CryptoFramer :=
  {| error_ := error_ f; buffer_ := b; state_ := state_ f; message_ := message_ f;
     error_detail_ := error_detail_ f; num_entries_ := num_entries_ f; tags_and_lengths_ := tags_and_lengths_ f;
     values_len_ := values_len_ f; process_truncated_messages_ := process_truncated_messages_ f; calls := calls f |}.

Definition with_error (e : Z) : CryptoFramer :=
  {| error_ := e; buffer_ := buffer_ f; state_ := state_ f; message_ := message_ f;
     error_detail_ := error_detail_ f; num_entries_ := num_entries_ f; tags_and_lengths_ := tags_and_lengths_ f;
     values_len_ := values_len_ f; process_truncated_messages_ := process_truncated_messages_ f; calls := calls f |}.

Definition with_detail (d : string) : CryptoFramer :=
  {| error_ := error_ f; buffer_ := buffer_ f; state_ := state_ f; message_ := message_ f;
     error_detail_ := d; num_entries_ := num_entries_ f; tags_and_lengths_ := tags_and_lengths_ f;
     values_len_ := values_len_ f; process_truncated_messages_ := process_truncated_messages_ f; calls := calls f |}.

Definition with_message (s : CryptoFramerState) (m : CryptoHandshakeMessage) : CryptoFramer :=
  {| error_ := error_ f; buffer_ := buffer_ f; state_ := s; message_ := m;
     error_detail_ := error_detail_ f; num_entries_ := num_entries_ f; tags_and_lengths_ := tags_and_lengths_ f;
     values_len_ := values_len_ f; process_truncated_messages_ := process_truncated_messages_ f; calls := calls f |}.

Definition with_tags (s : CryptoFramerState) (n : Z) (l : list (Z * Z)) (len : Z) : CryptoFramer :=
  {| error_ := error_ f; buffer_ := buffer_ f; state_ := s; message_ := message_ f;
     error_detail_ := error_detail_ f; num_entries_ := n; tags_and_lengths_ := l;
     values_len_ := len; process_truncated_messages_ := process_truncated_messages_ f; calls := calls f |}.

(** [visitor_->...] *)
Definition call (c : Call) : CryptoFramer :=
  {| error_ := error_ f; buffer_ := buffer_ f; state_ := state_ f; message_ := message_ f;
     error_detail_ := error_detail_ f; num_entries_ := num_entries_ f; tags_and_lengths_ := tags_and_lengths_ f;
     values_len_ := values_len_ f; process_truncated_messages_ := process_truncated_messages_ f;
     calls := calls f ++ [c] |}.

(** [void Clear()] *)
Definition Clear : CryptoFramer :=
  {| error_ := QUIC_NO_ERROR; buffer_ := buffer_ f; state_ := STATE_READING_TAG; message_ := Message.Clear (message_ f);
     error_detail_ := EmptyString; num_entries_ := num_entries_ f; tags_and_lengths_ := [];
     values_len_ := values_len_ f; process_truncated_messages_ := process_truncated_messages_ f; calls := calls f |}.
End Setters.

(** The framer and the reader of its buffer. *)
Record Input : Type := { self : CryptoFramer; reader : Reader.Reader }.

Definition set_self (g : CryptoFramer -> CryptoFramer) (i : Input) : Input :=
  {| self := g (self i); reader := reader i |}.
Definition upd (g : CryptoFramer -> CryptoFramer) : M Input unit := modify (set_self g).

Definition input_lens : Lens Input Reader.Reader :=
  {| view := reader; put := fun r i => {| self := self i; reader := r |} |}.

(** A read whose flag is not looked at: the variable stays uninitialised. *)
Definition get_value {A} (m : M Reader.Reader (option A)) : M Input A :=
  o ← zoom input_lens m; deref o Uninit.

Definition remaining : M Input Z := gets (fun i => Z.of_nat (Reader.BytesRemaining (reader i))).

(** [error_detail_ = d; return e;] *)
Definition stop (e : Z) (d : string) : M Input Z := upd (fun f => with_detail f d);; mret e.

(** [tags_and_lengths_[i - 1].first], if [i > 0] *)
Definition previous_tag (i : nat) : M Input (option Z) :=
  f ← gets self;
  match i with
  | O => mret None
  | S j => p ← deref (tags_and_lengths_ f !! j) OutOfBounds; mret (Some (fst p))
  end.

(** The error of a tag that is not above the one before it. *)
Definition order_error (previous : option Z) (tag : Z) : option (Z * string) :=
  match previous with
  | Some p =>
      if tag <=? p then
        if tag =? p then Some (QUIC_CRYPTO_DUPLICATE_TAG, "Duplicate tag:" +:+ pretty tag)
        else Some (QUIC_CRYPTO_TAGS_OUT_OF_ORDER, "Tag " +:+ pretty tag +:+ " out of order")
      else None
  | None => None
  end.

(** The loop over tags and end offsets, [n] of them left: an error, or the last
    end offset *)
Fixpoint tags_loop (n i : nat) (last_end_offset : Z) : M Input (Z + Z) :=
  match n with
  | O => mret (inr last_end_offset)
  | S n =>
      tag ← get_value Reader.ReadTag;
      previous ← previous_tag i;
      match order_error previous tag with
      | Some (e, d) => e ← stop e d; mret (inl e)
      | None =>
          end_offset ← get_value Reader.ReadUInt32;
          if end_offset <? last_end_offset then
            e ← stop QUIC_CRYPTO_TAGS_OUT_OF_ORDER
              ("End offset: " +:+ pretty end_offset +:+ " vs " +:+ pretty last_end_offset); mret (inl e)
          else
            upd (fun f => with_tags f (state_ f) (num_entries_ f)
                            (tags_and_lengths_ f ++ [(tag, uint32 (end_offset - last_end_offset))]) (values_len_ f));;
            tags_loop n (S i) end_offset
      end
  end.

(** The loop over the values. *)
Fixpoint values_loop (l : list (Z * Z)) : M Input unit :=
  match l with
  | [] => mret tt
  | (tag, len) :: l =>
      o ← zoom input_lens (Reader.ReadStringPiece (Z.to_nat len));
      let value := match o with Some v => v | None => [] end in
      upd (fun f => with_message f (state_ f) (Message.SetStringPiece tag value (message_ f)));;
      values_loop l
  end.

(** The cases of the switch of [Process], each with those it falls through to;
    the error that is returned, if any. *)
Definition process_values : M Input (option Z) :=
  f ← gets self;
  n ← remaining;
  if (n <? values_len_ f) && negb (process_truncated_messages_ f) then mret None
  else
    values_loop (tags_and_lengths_ f);;
    upd (fun f => call f (OnHandshakeMessage (message_ f)));;
    upd Clear;;
    upd (fun f => with_message f STATE_READING_TAG (message_ f));;
    mret None.

Definition process_tags : M Input (option Z) :=
  f ← gets self;
  n ← remaining;
  if n <? num_entries_ f * (kQuicTagSize + kCryptoEndOffsetSize) then mret None
  else
    r ← tags_loop (Z.to_nat (num_entries_ f)) 0 0;
    match r with
    | inl e => mret (Some e)
    | inr last_end_offset =>
        upd (fun f => with_tags f STATE_READING_VALUES (num_entries_ f) (tags_and_lengths_ f) last_end_offset);;
        process_values
    end.

Definition process_num_entries : M Input (option Z) :=
  n ← remaining;
  if n <? kNumEntriesSize + 2 then mret None
  else
    num ← get_value Reader.ReadUInt16;
    upd (fun f => with_tags f (state_ f) num (tags_and_lengths_ f) (values_len_ f));;
    if num >? kMaxEntries then
      e ← stop QUIC_CRYPTO_TOO_MANY_ENTRIES (pretty num +:+ " entries"); mret (Some e)
    else
      _ ← get_value Reader.ReadUInt16;
      upd (fun f => with_tags f STATE_READING_TAGS_AND_LENGTHS num (tags_and_lengths_ f) 0);;
      process_tags.

Definition process_tag : M Input (option Z) :=
  n ← remaining;
  if n <? kQuicTagSize then mret None
  else
    message_tag ← get_value Reader.ReadTag;
    upd (fun f => with_message f STATE_READING_NUM_ENTRIES (Message.set_tag message_tag (message_ f)));;
    process_num_entries.

Definition switch (s : CryptoFramerState) : M Input (option Z) :=
  match s with
  | STATE_READING_TAG => process_tag
  | STATE_READING_NUM_ENTRIES => process_num_entries
  | STATE_READING_TAGS_AND_LENGTHS => process_tags
  | STATE_READING_VALUES => process_values
  end.

(** [QuicErrorCode Process(input, perspective)] *)
Definition Process (input : list Z) : M CryptoFramer Z := fun f =>
  let f := with_buffer f (buffer_ f ++ input) in
  match switch (state_ f) {| self := f; reader := Reader.init (buffer_ f) HOST_BYTE_ORDER |} with
  | Ret (Some e) i => Ret e (self i)
  | Ret None i => Ret QUIC_NO_ERROR (with_buffer (self i) (Reader.PeekRemainingPayload (reader i)))
  | Crash c => Crash c
  end.

(** [bool ProcessInput(input, perspective)] *)
Definition ProcessInput (input : list Z) : M CryptoFramer bool :=
  f ← get;
  if negb (error_ f =? QUIC_NO_ERROR) then mret false
  else
    e ← Process input;
    modify (fun f => with_error f e);;
    if negb (e =? QUIC_NO_ERROR) then modify (fun f => call f OnCryptoError);; mret false else mret true.

Definition InputBytesRemaining (f : CryptoFramer) : Z := Z.of_nat (length (buffer_ f)).

Definition HasTag (tag : Z) (f : CryptoFramer) : bool :=
  match state_ f with
  | STATE_READING_VALUES => existsb (fun it => fst it =? tag) (tags_and_lengths_ f)
  | _ => false
  end.

(** The loop of [ForceHandshake]. *)
Fixpoint force_loop (l : list (Z * Z)) : M Input unit :=
  match l with
  | [] => mret tt
  | (tag, len) :: l =>
      n ← remaining;
      if n <? len then mret tt
      else
        value ← get_value (Reader.ReadStringPiece (Z.to_nat len));
        upd (fun f => with_message f (state_ f) (Message.SetStringPiece tag value (message_ f)));;
        force_loop l
  end.

(** [void ForceHandshake()] *)
Definition ForceHandshake : M CryptoFramer unit := fun f =>
  match force_loop (tags_and_lengths_ f) {| self := f; reader := Reader.init (buffer_ f) HOST_BYTE_ORDER |} with
  | Ret _ i => Ret tt (call (self i) (OnHandshakeMessage (message_ (self i))))
  | Crash c => Crash c
  end.

(** [ParseMessage(in, perspective)] with a [OneShotVisitor]: the last message it
    was given, or null *)
Definition ParseMessage (input : list Z) : M unit (option CryptoHandshakeMessage) :=
  match ProcessInput input init with
  | Ret ok f =>
      if negb ok || existsb (fun c => match c with OnCryptoError => true | _ => false end) (calls f)
         || negb (InputBytesRemaining f =? 0)
      then mret None
      else mret (fold_left (fun out c => match c with OnHandshakeMessage m => Some (Message.copy m) | OnCryptoError => out end) (calls f) None)
  | Crash c => crashed c
  end.

End CryptoFramer.

(** ** Socket addresses *)

(** [QuicSocketAddress]: the bytes of the address, none of one that is not
    initialised, and the port. *)
Record QuicSocketAddress : Type := { host : list Z; port : Z }.

Definition kIPv4 : Z := 2.
Definition kIPv6 : Z := 10.

(** [std::string Encode() const]; the address family follows from the size *)
Definition Encode (a : QuicSocketAddress) : list Z :=
  let family := if (length (host a) =? 4)%nat then Some kIPv4
                else if (length (host a) =? 16)%nat then Some kIPv6 else None in
  match family with
  | None => []
  | Some family => store 2 family ++ host a ++ store 2 (port a)
  end.

(** [bool Decode(const char* data, size_t length)] *)
Definition Decode (data : list Z) : option QuicSocketAddress :=
  if (length data <? 2)%nat then None
  else
    let address_family := load (take 2 data) in
    let data := drop 2 data in
    let ip_length := if address_family =? kIPv4 then Some 4%nat
                     else if address_family =? kIPv6 then Some 16%nat else None in
    match ip_length with
    | None => None
    | Some ip_length =>
        if (length data <? ip_length)%nat then None
        else
          let ip := take ip_length data in
          let data := drop ip_length data in
          if negb (length data =? 2)%nat then None else Some {| host := ip; port := load data |}
    end.
