(* ===== verification/HandshakeTrip.v ===== *)
(** Handshake messages arrive as they were sent: what [ConstructHandshakeMessage]
    writes, [CryptoFramer] reports, however the bytes are cut into pieces. *)

From S2P Require Import Prelude World QuicData Wire IntervalSet PacketNumberQueue Framer FrameWriter FrameReader.
From S2P Require Import FrameWire FrameRead Handshake.

(** ** The encoding *)

Definition total (l : TagValueMap) : Z := fold_right (fun e n => Z.of_nat (length (snd e)) + n) 0 l.

(** Tags and end offsets, the values before being [offset] bytes long. *)
Fixpoint index_wire (offset : Z) (l : TagValueMap) : list Z :=
  match l with
  | [] => []
  | (t, v) :: l =>
      let offset := offset + Z.of_nat (length v) in
      store 4 t ++ store 4 offset ++ index_wire offset l
  end.

Definition values_wire (l : TagValueMap) : list Z := concat (snd <$> l).

Definition message_wire (tag : Z) (l : TagValueMap) : list Z :=
  store 4 tag ++ store 2 (Z.of_nat (length l)) ++ store 2 0 ++ index_wire 0 l ++ values_wire l.

(** The tags ascend. *)
Fixpoint ascending (bound : Z) (l : TagValueMap) : Prop :=
  match l with
  | [] => True
  | (t, _) :: l => bound < t /\ ascending t l
  end.

Lemma total_nonneg l : 0 <= total l.
Proof. induction l as [|x l IH]; cbn [total fold_right]; [done|]. fold (total l). lia. Qed.

Lemma total_app a b : total (a ++ b) = total a + total b.
Proof. induction a as [|x a IH]; cbn [app total fold_right] in *; [done|]. fold (total (a ++ b)) (total a) in *. lia. Qed.

Lemma values_length l : Z.of_nat (length (values_wire l)) = total l.
Proof.
  induction l as [|x l IH]; [done|]. unfold values_wire in *. rewrite fmap_cons. cbn [concat total fold_right].
  rewrite length_app. fold (total l). lia.
Qed.

Lemma index_length l : forall o, length (index_wire o l) = (8 * length l)%nat.
Proof.
  induction l as [|[t v] l IH]; intros o; [done|]. cbn [index_wire length].
  rewrite !length_app, !store_length, IH. lia.
Qed.

Lemma index_app a : forall o b, index_wire o (a ++ b) = index_wire o a ++ index_wire (o + total a) b.
Proof.
  induction a as [|[t v] a IH]; intros o b; [by rewrite Z.add_0_r|]. cbn [index_wire app total fold_right snd].
  rewrite IH, <- !app_assoc. do 4 f_equal. fold (total a). lia.
Qed.

Lemma values_app a b : values_wire (a ++ b) = values_wire a ++ values_wire b.
Proof. unfold values_wire. by rewrite fmap_app, concat_app. Qed.

(** ** Writing *)

(** [m] succeeds with [x] wherever [bs] fits, and appends [bs]. *)
Definition makes {A} (m : M Writer.Writer (option A)) (bs : list Z) (x : A) : Prop :=
  forall w, Writer.endianness_ w = HOST_BYTE_ORDER -> fits w (length bs) -> m w = Ret (Some x) (append w bs).

Lemma makes_ret {A} (x : A) : makes (mret (Some x)) [] x.
Proof. intros w _ Hf. unfold fits in Hf. cbn in Hf. rewrite append_no_bytes by lia. done. Qed.

Lemma makes_wrote m bs : writes HOST_BYTE_ORDER m bs -> makes (wrote m) bs tt.
Proof. intros Hm w He Hf. unfold wrote, mbind, M_bind. by rewrite Hm. Qed.

Lemma makes_bind {A B} (m : M _ (option A)) (k : A -> M _ (option B)) a b x y :
  makes m a x -> makes (k x) b y -> makes (bind_some m k) (a ++ b) y.
Proof.
  intros Hm Hk w He Hf. rewrite length_app in Hf. unfold bind_some, mbind, M_bind.
  rewrite Hm by (unfold fits in *; lia || done). rewrite Hk; [|done|by apply append_fits]. by rewrite append_app.
Qed.

(** A statement that writes nothing. *)
Lemma makes_skip {A B} (x : A) (k : A -> M _ (option B)) b y :
  makes (k x) b y -> makes (bind_some (mret (Some x)) k) b y.
Proof. done. Qed.

(** The last statement. *)
Lemma makes_last {A B} (m : M _ (option A)) (k : A -> M _ (option B)) a x y :
  makes m a x -> k x = mret (Some y) -> makes (bind_some m k) a y.
Proof. intros Hm Hk. rewrite <- (app_nil_r a). eapply makes_bind; [done|]. rewrite Hk. apply makes_ret. Qed.

Lemma makes_tag t : makes (wrote (Writer.WriteTag t)) (store 4 t) tt.
Proof. apply makes_wrote, writes_bytes. Qed.

Lemma makes_uint n x : makes (wrote (Writer.WriteUInt n x)) (store n x) tt.
Proof. apply makes_wrote. apply (writes_uint HOST_BYTE_ORDER). Qed.

Lemma makes_pad_tag pad o : 0 <= o -> 0 <= pad -> o + pad < 2 ^ 32 ->
  makes (WritePadTag pad o) (store 4 kPAD ++ store 4 (o + pad)) (o + pad).
Proof.
  intros Ho Hp Hs. unfold WritePadTag. rewrite uint32_small by lia.
  eapply makes_bind; [apply makes_tag|]. eapply makes_last; [apply makes_uint|done].
Qed.

Lemma makes_tags pad l : forall o, 0 <= o -> o + total l < 2 ^ 32 ->
  makes (write_tags pad l false o) (index_wire o l) (false, o + total l).
Proof.
  induction l as [|[t v] l IH]; intros o Ho Hs; cbn [write_tags index_wire total fold_right snd] in *;
    [rewrite Z.add_0_r; apply makes_ret|].
  fold (total l) in *. pose proof (total_nonneg l). rewrite andb_false_r. rewrite andb_false_r. apply makes_skip.
  cbn [fst snd]. rewrite uint32_small by lia.
  eapply makes_bind; [apply makes_tag|]. eapply makes_bind; [apply makes_uint|].
  rewrite Z.add_assoc. apply IH; lia.
Qed.

(** Entries below the padding tag. *)
Lemma tags_below pad lo hi x bs : forall o, Forall (fun e => fst e < kPAD) lo ->
  0 <= o -> o + total lo < 2 ^ 32 ->
  makes (write_tags pad hi true (o + total lo)) bs x ->
  makes (write_tags pad (lo ++ hi) true o) (index_wire o lo ++ bs) x.
Proof.
  induction lo as [|[t v] lo IH]; intros o Hlo Ho Hs Hhi; cbn [app index_wire total fold_right snd] in *;
    [by rewrite Z.add_0_r in Hhi|].
  apply Forall_cons in Hlo as [Ht Hlo]. cbn [fst] in Ht. fold (total lo) in *. pose proof (total_nonneg lo).
  cbn [write_tags]. rewrite (proj2 (Z.eqb_neq _ _)) by lia. cbn [andb].
  rewrite Z.gtb_ltb, (proj2 (Z.ltb_ge _ _)) by lia. cbn [andb]. rewrite <- !app_assoc.
  apply makes_skip. cbn [fst snd]. rewrite uint32_small by lia.
  eapply makes_bind; [apply makes_tag|]. eapply makes_bind; [apply makes_uint|].
  apply IH; [done|lia|lia|]. by rewrite <- Z.add_assoc.
Qed.

(** The index with the padding entry between [lo] and [hi]. *)
Lemma makes_padded_tags pad p lo hi : 0 <= pad -> Z.of_nat (length p) = pad ->
  Forall (fun e => fst e < kPAD) lo -> Forall (fun e => kPAD < fst e) hi ->
  total (lo ++ (kPAD, p) :: hi) < 2 ^ 32 ->
  makes (tags ←? write_tags pad (lo ++ hi) true 0;
         (if fst tags : bool then _ ←? WritePadTag pad (snd tags); mret (Some tt) else mret (Some tt)))
    (index_wire 0 (lo ++ (kPAD, p) :: hi)) tt.
Proof.
  intros Hpad Hp Hlo Hhi Hs. rewrite index_app. cbn [index_wire]. rewrite Z.add_0_l, Hp.
  rewrite total_app in Hs. cbn [total fold_right snd] in Hs. fold (total lo) (total hi) in Hs. rewrite Hp in Hs.
  pose proof (total_nonneg lo). pose proof (total_nonneg hi). destruct hi as [|[t v] hi].
  - cbn [index_wire]. rewrite !app_nil_r. eapply makes_bind.
    + rewrite <- (app_nil_r (index_wire 0 lo)), <- (app_nil_r lo) at 1. apply (tags_below pad lo []); [done|done|lia|].
      cbn [write_tags]. apply makes_ret.
    + cbn [fst snd]. eapply makes_last; [apply makes_pad_tag; cbn [total fold_right snd] in *; lia|done].
  - apply Forall_cons in Hhi as [Ht Hhi]. cbn [fst] in Ht. cbn [total fold_right snd] in *. fold (total hi) in *.
    pose proof (total_nonneg hi).
    eapply (makes_last _ _ _ (false, _)); [|done]. apply (tags_below pad lo ((t, v) :: hi)); [done|done|lia|]. rewrite Z.add_0_l.
    cbn [write_tags index_wire]. rewrite (proj2 (Z.eqb_neq _ _)), Z.gtb_ltb, (proj2 (Z.ltb_lt _ _)) by lia. cbn [andb].
    rewrite app_assoc. eapply makes_bind; [eapply makes_last; [apply makes_pad_tag; lia|done]|].
    cbn [fst snd]. rewrite uint32_small by lia.
    eapply makes_bind; [apply makes_tag|]. eapply makes_bind; [apply makes_uint|]. apply makes_tags; lia.
Qed.

Lemma makes_values pad l : makes (write_values pad l false) (values_wire l) false.
Proof.
  induction l as [|[t v] l IH]; [apply makes_ret|]. unfold values_wire in *. rewrite fmap_cons. cbn [write_values concat snd].
  rewrite andb_false_r. apply makes_skip.
  eapply makes_bind; [apply makes_wrote, writes_bytes|done].
Qed.

Lemma values_below pad lo hi x bs : Forall (fun e => fst e < kPAD) lo ->
  makes (write_values pad hi true) bs x -> makes (write_values pad (lo ++ hi) true) (values_wire lo ++ bs) x.
Proof.
  induction lo as [|[t v] lo IH]; intros Hlo Hhi; [done|]. apply Forall_cons in Hlo as [Ht Hlo]. cbn [fst] in Ht.
  unfold values_wire in *. rewrite fmap_cons. cbn [app write_values concat snd].
  rewrite Z.gtb_ltb, (proj2 (Z.ltb_ge _ _)) by lia. cbn [andb]. rewrite <- app_assoc.
  apply makes_skip. eapply makes_bind; [apply makes_wrote, writes_bytes|]. by apply IH.
Qed.

Lemma makes_padded_values pad lo hi : 
  let p := replicate (Z.to_nat pad) 45 in
  Forall (fun e => fst e < kPAD) lo -> Forall (fun e => kPAD < fst e) hi ->
  makes (need ←? write_values pad (lo ++ hi) true;
         if need : bool then wrote (Writer.WriteRepeatedByte 45 (Z.to_nat pad)) else mret (Some tt))
    (values_wire (lo ++ (kPAD, p) :: hi)) tt.
Proof.
  intros p Hlo Hhi. rewrite values_app.
  change (values_wire ((kPAD, p) :: hi)) with (p ++ values_wire hi). destruct hi as [|[t v] hi].
  - eapply makes_bind.
    + rewrite <- (app_nil_r (values_wire lo)). apply values_below; [done|]. apply makes_ret.
    + change (values_wire []) with (@nil Z). rewrite app_nil_r. cbv iota. apply makes_wrote, writes_repeated.
  - apply Forall_cons in Hhi as [Ht Hhi]. cbn [fst] in Ht.
    eapply (makes_last _ _ _ false); [|done]. apply (values_below pad lo); [done|]. cbn [write_values].
    rewrite Z.gtb_ltb, (proj2 (Z.ltb_lt _ _)) by lia. cbn [andb].
    eapply makes_bind; [eapply makes_last; [apply makes_wrote, writes_repeated|done]|].
    change (values_wire ((t, v) :: hi)) with (v ++ values_wire hi).
    eapply makes_bind; [apply makes_wrote, writes_bytes|apply makes_values].
Qed.

(** ** Messages that can be sent *)

(** The entries that go on the wire. *)
Definition padded (m : CryptoHandshakeMessage) : TagValueMap :=
  let l := Message.tag_value_map_ m in
  if Message.size m <? Message.minimum_size_ m
  then map_set kPAD (replicate (Z.to_nat (pad_length m)) 45) l
  else l.

(** The map is one, tags and lengths fit in their fields, and a message that
    needs padding has none. *)
Record sendable_message (m : CryptoHandshakeMessage) : Prop := {
  sm_tag : 0 <= Message.tag_ m < 2 ^ 32;
  sm_ascending : ascending (-1) (Message.tag_value_map_ m);
  sm_tags : Forall (fun e => fst e < 2 ^ 32) (Message.tag_value_map_ m);
  sm_entries : Z.of_nat (length (padded m)) <= kMaxEntries;
  sm_total : total (padded m) < 2 ^ 32;
  sm_pad : Message.size m < Message.minimum_size_ m ->
           Forall (fun e => fst e <> kPAD) (Message.tag_value_map_ m)
}.

Lemma ascending_above l : forall b, ascending b l -> Forall (fun e => b < fst e) l.
Proof.
  induction l as [|[t v] l IH]; intros b Hl; [done|]. destruct Hl as [Ht Hl]. constructor; [done|].
  eapply Forall_impl; [by apply IH|]. cbn. lia.
Qed.

(** A new tag divides the entries. *)
Lemma map_set_split t v l : forall b, ascending b l -> Forall (fun e => fst e <> t) l ->
  exists lo hi, l = lo ++ hi /\ map_set t v l = lo ++ (t, v) :: hi /\
    Forall (fun e => fst e < t) lo /\ Forall (fun e => t < fst e) hi.
Proof.
  induction l as [|[u x] l IH]; intros b Hl Hne; [by exists [], []|].
  destruct Hl as [Hb Hl]. apply Forall_cons in Hne as [Hu Hne]. cbn [fst map_set] in *.
  destruct (Z.ltb_spec t u) as [Hlt|Hge].
  - exists [], ((u, x) :: l). split_and!; [done..|]. constructor; [done|].
    eapply Forall_impl; [by apply ascending_above|]. cbn. lia.
  - rewrite (proj2 (Z.eqb_neq _ _)) by lia. destruct (IH u Hl Hne) as (lo & hi & -> & -> & Hlo & Hhi).
    exists ((u, x) :: lo), hi. split_and!; [done..| |done]. constructor; [cbn; lia|done].
Qed.

Lemma map_set_ascending t v l : forall b, b < t -> ascending b l -> ascending b (map_set t v l).
Proof.
  induction l as [|[u x] l IH]; intros b Hb Hl; [by cbn|]. destruct Hl as [Hu Hl]. cbn [map_set].
  destruct (Z.ltb_spec t u); [by cbn|]. destruct (Z.eqb_spec t u) as [->|]; [by cbn|].
  split; [done|]. apply IH; [lia|done].
Qed.

Lemma pad_length_nonneg m : 0 <= pad_length m.
Proof.
  unfold pad_length, kQuicTagSize, kCryptoEndOffsetSize. rewrite Z.gtb_ltb.
  destruct (Z.ltb_spec (4 + 4) (Message.minimum_size_ m - Message.size m)); lia.
Qed.

Lemma message_wire_length tag l : Z.of_nat (length (message_wire tag l)) = 8 + 8 * Z.of_nat (length l) + total l.
Proof. unfold message_wire. rewrite !length_app, !store_length, index_length, <- values_length. lia. Qed.

(** A buffer of the right size is filled. *)
Lemma filled n e bs : n = length bs -> Writer.buffer_ (append (Writer.init (replicate n 0) e) bs) = bs.
Proof. intros ->. cbn. rewrite drop_ge by (rewrite length_replicate; lia). by rewrite app_nil_r. Qed.

Lemma makes_message m : sendable_message m ->
  let need_pad := Message.size m <? Message.minimum_size_ m in
  makes (write_message m need_pad (Z.of_nat (length (padded m))) (if need_pad then pad_length m else 0))
    (message_wire (Message.tag_ m) (padded m)) tt.
Proof.
  intros [Ht Ha Hts He Hs Hp] need_pad. unfold write_message, message_wire.
  eapply makes_bind; [apply makes_tag|]. unfold uint16. rewrite wrap_u_small by (unfold kMaxEntries in He; lia).
  eapply makes_bind; [apply makes_uint|]. eapply makes_bind; [apply makes_uint|].
  unfold padded in *. fold need_pad in Hs |- *. destruct need_pad eqn:Hneed.
  - destruct (map_set_split kPAD (replicate (Z.to_nat (pad_length m)) 45) _ _ Ha) as (lo & hi & El & E & Hlo & Hhi);
      [by apply Hp, Z.ltb_lt|]. rewrite E in Hs |- *. rewrite El. pose proof (pad_length_nonneg m).
    pose proof (makes_padded_tags (pad_length m) _ lo hi ltac:(done) ltac:(by rewrite length_replicate, Z2Nat.id) Hlo Hhi Hs) as H1.
    pose proof (makes_padded_values (pad_length m) lo hi Hlo Hhi) as H2. cbv zeta in H2.
    intros w Hw Hf. pose proof Hf as Hf'. rewrite length_app in Hf'.
    match type of H2 with makes ?k _ _ => pose proof (makes_bind _ (fun _ => k) _ _ tt tt H1 H2 w Hw Hf) as H3 end.
    rewrite <- H3.
    unfold bind_some, mbind, M_bind, mret, M_ret.
    destruct (write_tags _ _ _ _ w) as [[[b o]|] w1|]; [|done..]. cbn [fst snd].
    destruct b; [|done]. by destruct (WritePadTag _ _ w1) as [[]|].
  - eapply makes_bind; [apply makes_tags; [done|by rewrite Z.add_0_l]|]. cbn [fst]. apply makes_skip.
    eapply makes_last; [apply makes_values|done].
Qed.

Lemma padded_total m : sendable_message m ->
  let need_pad := Message.size m <? Message.minimum_size_ m in
  let l := Message.tag_value_map_ m in
  Z.of_nat (length (padded m)) = Z.of_nat (length l) + (if need_pad then 1 else 0) /\
  total (padded m) = total l + (if need_pad then pad_length m else 0).
Proof.
  intros Hm need_pad l. unfold padded. fold need_pad l. destruct need_pad eqn:Hneed; [|lia].
  destruct (map_set_split kPAD (replicate (Z.to_nat (pad_length m)) 45) l (-1)) as (lo & hi & Hl & E & _ & _);
    [apply Hm|by apply Hm, Z.ltb_lt|]. rewrite E, Hl, !length_app, !total_app. pose proof (pad_length_nonneg m).
  cbn [total fold_right snd length]. fold (total hi). rewrite length_replicate. lia.
Qed.

Lemma message_constructed m : sendable_message m ->
  ConstructHandshakeMessage m tt = Ret (Some (message_wire (Message.tag_ m) (padded m))) tt.
Proof.
  intros Hm. destruct (padded_total m Hm) as [Hn Ht]. unfold ConstructHandshakeMessage. cbv zeta.
  set (need_pad := Message.size m <? Message.minimum_size_ m) in *.
  rewrite <- Hn, Z.gtb_ltb, (proj2 (Z.ltb_ge _ _)) by apply Hm.
  set (n := Z.to_nat _).
  assert (n = length (message_wire (Message.tag_ m) (padded m))) as Hlen.
  { pose proof (message_wire_length (Message.tag_ m) (padded m)) as Hw.
    pose proof (total_nonneg (Message.tag_value_map_ m)). pose proof (pad_length_nonneg m). unfold n, Message.size. clear n.
    fold (total (Message.tag_value_map_ m)). unfold kQuicTagSize, kCryptoEndOffsetSize.
    destruct need_pad; lia. }
  unfold need_pad at 1 2. rewrite (makes_message m Hm); [|done|
    unfold fits, Writer.capacity_; cbn [Writer.init Writer.buffer_ Writer.length_]; rewrite length_replicate; lia].
  by rewrite filled.
Qed.

(** ** Reading *)

Import CryptoFramer.

Definition lengths (l : TagValueMap) : list (Z * Z) := (fun e => (fst e, Z.of_nat (length (snd e)))) <$> l.

(** The framer [f] before [rest]. *)
Definition in_ (f : CryptoFramer) (pre rest : list Z) : Input :=
  {| self := f; reader := reader_at HOST_BYTE_ORDER pre rest |}.

Lemma reads_tag t : 0 <= t < 2 ^ 32 -> reads HOST_BYTE_ORDER Reader.ReadTag (store 4 t) t.
Proof.
  intros Ht pre rest. unfold Reader.ReadTag, mbind, M_bind. rewrite ReadBytes_ok by (by rewrite store_length).
  cbv [fmap option_fmap option_map mret M_ret]. by rewrite load_store, Z.mod_small.
Qed.

Lemma reads_host n x : 0 <= x < 256 ^ Z.of_nat n -> reads HOST_BYTE_ORDER (Reader.ReadUInt n) (store n x) x.
Proof. apply (reads_uint HOST_BYTE_ORDER). Qed.

Lemma get_value_in {A B} (m : M Reader.Reader (option A)) (k : A -> M Input B) bs x f pre rest :
  reads HOST_BYTE_ORDER m bs x -> (get_value m ≫= k) (in_ f pre (bs ++ rest)) = k x (in_ f (pre ++ bs) rest).
Proof. intros Hm. unfold get_value, mbind, M_bind, zoom. cbn [view input_lens in_ reader]. by rewrite Hm. Qed.

Lemma remaining_in {B} (k : Z -> M Input B) f pre rest :
  (remaining ≫= k) (in_ f pre rest) = k (Z.of_nat (length rest)) (in_ f pre rest).
Proof.
  unfold mbind, M_bind, remaining, gets. do 2 f_equal. unfold Reader.BytesRemaining, Reader.len_. cbn.
  rewrite length_app. lia.
Qed.

Lemma self_in {B} (k : CryptoFramer -> M Input B) f pre rest : (gets self ≫= k) (in_ f pre rest) = k f (in_ f pre rest).
Proof. done. Qed.

Lemma upd_in {B} g (k : unit -> M Input B) f pre rest : (upd g ≫= k) (in_ f pre rest) = k tt (in_ (g f) pre rest).
Proof. done. Qed.

Lemma previous_in {B} (k : option Z -> M Input B) f pre rest :
  (previous_tag (length (tags_and_lengths_ f)) ≫= k) (in_ f pre rest) = k (fst <$> last (tags_and_lengths_ f)) (in_ f pre rest).
Proof.
  unfold previous_tag, mbind, M_bind, gets. cbn [self in_]. destruct (tags_and_lengths_ f) as [|q d _] using rev_ind; [done|].
  rewrite last_snoc, length_app, Nat.add_1_r. unfold deref. by rewrite lookup_app_r, Nat.sub_diag.
Qed.

(** The index: it was written in ascending order of tags. *)
Lemma tags_read l : forall off f pre rest,
  ascending (match last (tags_and_lengths_ f) with Some p => fst p | None => -1 end) l ->
  Forall (fun e => fst e < 2 ^ 32) l -> 0 <= off -> off + total l < 2 ^ 32 ->
  Forall (fun e => 0 <= fst e) l ->
  tags_loop (length l) (length (tags_and_lengths_ f)) off (in_ f pre (index_wire off l ++ rest)) =
  Ret (inr (off + total l))
    (in_ (with_tags f (state_ f) (num_entries_ f) (tags_and_lengths_ f ++ lengths l) (values_len_ f))
       (pre ++ index_wire off l) rest).
Proof.
  induction l as [|[t v] l IH]; intros off f pre rest Ha Ht Hoff Hs H0.
  { cbn. rewrite !app_nil_r, Z.add_0_r. by destruct f. }
  apply Forall_cons in Ht as [Ht Hts]. apply Forall_cons in H0 as [H0 H0s]. destruct Ha as [Hb Ha].
  cbn [fst total fold_right snd] in *. fold (total l) in *.
  pose proof (total_nonneg l). cbn [tags_loop length index_wire]. rewrite <- !app_assoc.
  rewrite (get_value_in _ _ (store 4 t) t) by (apply reads_tag; lia). rewrite previous_in.
  assert (order_error (fst <$> last (tags_and_lengths_ f)) t = None) as ->.
  { destruct (last (tags_and_lengths_ f)) as [q|]; [|done]. cbn. by rewrite (proj2 (Z.leb_gt _ _)). }
  set (o := off + Z.of_nat (length v)) in *.
  rewrite (get_value_in _ _ (store 4 o) o) by (apply reads_host; unfold o; cbn; lia).
  rewrite (proj2 (Z.ltb_ge _ _)) by lia. rewrite upd_in.
  replace (uint32 (o - off)) with (Z.of_nat (length v)) by (rewrite uint32_small; lia).
  set (f1 := with_tags f _ _ _ _).
  assert (S (length (tags_and_lengths_ f)) = length (tags_and_lengths_ f1)) as ->
    by (unfold f1; cbn; rewrite length_app; cbn; lia).
  rewrite IH; [|unfold f1; cbn; by rewrite last_snoc|done|lia|lia|done].
  unfold f1, with_tags, o. cbn. rewrite <- Z.add_assoc, <- !app_assoc. done.
Qed.

Lemma map_set_last t v l : Forall (fun e => fst e < t) l -> map_set t v l = l ++ [(t, v)].
Proof.
  induction l as [|[u x] l IH]; intros Hl; [done|]. apply Forall_cons in Hl as [Hu Hl]. cbn [fst map_set app] in *.
  rewrite (proj2 (Z.ltb_ge _ _)), (proj2 (Z.eqb_neq _ _)) by lia. by rewrite IH.
Qed.

Lemma ascending_middle a : forall b t v l, ascending b (a ++ (t, v) :: l) -> Forall (fun e => fst e < t) a.
Proof.
  induction a as [|[u x] a IH]; intros b t v l Ha; [done|]. cbn [app ascending] in Ha. destruct Ha as [_ Ha].
  constructor; [|by eapply IH]. apply ascending_above, Forall_app in Ha as [_ Ha]. by apply Forall_cons in Ha as [Ha _].
Qed.

(** The message of the entries read so far. *)
Definition received (tag : Z) (l : TagValueMap) : CryptoHandshakeMessage :=
  {| Message.tag_ := tag; Message.tag_value_map_ := l; Message.minimum_size_ := 0; Message.serialized_ := None |}.

Lemma values_read tag l : forall a b f pre rest,
  ascending b (a ++ l) -> message_ f = received tag a ->
  values_loop (lengths l) (in_ f pre (values_wire l ++ rest)) =
  Ret tt (in_ (with_message f (state_ f) (received tag (a ++ l))) (pre ++ values_wire l) rest).
Proof.
  induction l as [|[t v] l IH]; intros a b f pre rest Ha Hm.
  { cbn. rewrite !app_nil_r, <- Hm. by destruct f. }
  change (lengths ((t, v) :: l)) with ((t, Z.of_nat (length v)) :: lengths l).
  change (values_wire ((t, v) :: l)) with (v ++ values_wire l). cbn [values_loop]. rewrite <- app_assoc, Nat2Z.id.
  unfold mbind at 1, M_bind at 1, zoom. cbn [view input_lens in_ reader]. rewrite ReadStringPiece_ok by done.
  cbn [put input_lens]. change {| self := self _; reader := ?r |} with (in_ f (pre ++ v) (values_wire l ++ rest)).
  rewrite upd_in, Hm. unfold Message.SetStringPiece. cbn [Message.tag_value_map_ received].
  rewrite map_set_last by (by eapply ascending_middle).
  rewrite (IH (a ++ [(t, v)]) b) by (by rewrite <- ?app_assoc). by rewrite <- !app_assoc.
Qed.

(** ** Stages *)

Lemma prefix_split (b todo x y : list Z) : b ++ todo = x ++ y -> (length x <= length b)%nat ->
  exists b', b = x ++ b' /\ b' ++ todo = y.
Proof.
  intros E Hl. exists (drop (length x) b).
  assert (take (length x) b = x) as Hx.
  { apply (f_equal (take (length x))) in E. rewrite take_app_le, take_app_length in E by lia. done. }
  split; [by rewrite <- Hx at 1; rewrite take_drop|].
  apply (f_equal (drop (length x))) in E. rewrite drop_app_le, drop_app_length in E by lia. done.
Qed.

Lemma peek_in f pre rest : Reader.PeekRemainingPayload (reader (in_ f pre rest)) = rest.
Proof. unfold Reader.PeekRemainingPayload. cbn. by rewrite drop_app_length. Qed.

Section Stages.
Context (f0 : CryptoFramer) (tag : Z) (l : TagValueMap).
Context (Htag : 0 <= tag < 2 ^ 32) (Hasc : ascending (-1) l) (Hlt : Forall (fun e => fst e < 2 ^ 32) l)
  (Hnum : Z.of_nat (length l) <= kMaxEntries) (Htotal : total l < 2 ^ 32).

(** A framer between two messages. *)
Definition idle (f : CryptoFramer) : Prop :=
  error_ f = QUIC_NO_ERROR /\ state_ f = STATE_READING_TAG /\ message_ f = Message.init /\ tags_and_lengths_ f = [] /\
  process_truncated_messages_ f = false.

Context (Hidle : idle f0).

(** The framer after the tag, the number of entries and the index. *)
Definition after_tag : CryptoFramer := with_message f0 STATE_READING_NUM_ENTRIES (received tag []).
Definition after_num : CryptoFramer := with_tags after_tag STATE_READING_TAGS_AND_LENGTHS (Z.of_nat (length l)) [] 0.
Definition after_index : CryptoFramer :=
  with_tags after_num STATE_READING_VALUES (Z.of_nat (length l)) (lengths l) (total l).

(** The framer that has reported the message. *)
Definition after_message : CryptoFramer :=
  call (Clear (with_buffer after_index [])) (OnHandshakeMessage (received tag l)).

(** [awaiting todo f]: the bytes [todo] of the message are still to come. *)
Inductive awaiting : list Z -> CryptoFramer -> Prop :=
| awaiting_tag b todo :
    b ++ todo = message_wire tag l -> Z.of_nat (length b) < 4 -> awaiting todo (with_buffer f0 b)
| awaiting_num b todo :
    b ++ todo = store 2 (Z.of_nat (length l)) ++ store 2 0 ++ index_wire 0 l ++ values_wire l ->
    Z.of_nat (length b) < 4 -> awaiting todo (with_buffer after_tag b)
| awaiting_index b todo :
    b ++ todo = index_wire 0 l ++ values_wire l ->
    Z.of_nat (length b) < 8 * Z.of_nat (length l) -> awaiting todo (with_buffer after_num b)
| awaiting_values b todo :
    b ++ todo = values_wire l -> Z.of_nat (length b) < total l -> awaiting todo (with_buffer after_index b)
| awaiting_none : awaiting [] after_message.

(** [m] stops for want of input, and the framer waits for [todo]. *)
Definition leads (m : M Input (option Z)) (i : Input) (todo : list Z) : Prop :=
  exists i', m i = Ret None i' /\ awaiting todo (with_buffer (self i') (Reader.PeekRemainingPayload (reader i'))).

Lemma values_stage X pre b todo : b ++ todo = values_wire l ->
  leads process_values (in_ (with_buffer after_index X) pre b) todo.
Proof using Hasc Hidle.
  intros E. unfold leads, process_values. rewrite self_in, remaining_in.
  destruct Hidle as (_ & _ & _ & _ & Htr). cbn [with_buffer values_len_ after_index with_tags process_truncated_messages_
    after_num after_tag with_message tags_and_lengths_]. rewrite Htr, andb_true_r.
  pose proof (values_length l) as Hv. pose proof (f_equal length E) as Hl. rewrite length_app in Hl.
  destruct (Z.ltb_spec (Z.of_nat (length b)) (total l)) as [Hlt'|Hge].
  - eexists. split; [done|]. rewrite peek_in. by apply (awaiting_values b todo).
  - assert (todo = []) as -> by (apply length_zero_iff_nil; lia). rewrite app_nil_r in E. subst b.
    eexists. split.
    + unfold mbind at 1, M_bind at 1. rewrite <- (app_nil_r (values_wire l)).
      rewrite (values_read tag l [] (-1)) by done. rewrite !upd_in. reflexivity.
    + rewrite peek_in. exact awaiting_none.
Qed.

Lemma index_stage X pre b todo : b ++ todo = index_wire 0 l ++ values_wire l ->
  leads process_tags (in_ (with_buffer after_num X) pre b) todo.
Proof using Hasc Hidle Hlt Htotal.
  intros E. unfold leads, process_tags. rewrite self_in, remaining_in.
  cbn [with_buffer after_num with_tags num_entries_]. unfold kQuicTagSize, kCryptoEndOffsetSize.
  rewrite (Z.mul_comm _ (4 + 4)). change (4 + 4) with 8. pose proof (index_length l 0) as Hi.
  destruct (Z.ltb_spec (Z.of_nat (length b)) (8 * Z.of_nat (length l))) as [Hlt'|Hge].
  - eexists. split; [done|]. rewrite peek_in. by apply (awaiting_index b todo).
  - destruct (prefix_split _ _ _ _ E) as (b' & -> & E'); [lia|]. rewrite Nat2Z.id.
    unfold mbind at 1, M_bind at 1.
    assert (Forall (fun e => 0 <= fst e) l) as H0 by (eapply Forall_impl; [by apply ascending_above|]; cbn; lia).
    rewrite (tags_read l 0 (with_buffer after_num X)) by (try done; lia).
    rewrite upd_in. by apply (values_stage X).
Qed.

Lemma num_stage X pre b todo :
  b ++ todo = store 2 (Z.of_nat (length l)) ++ store 2 0 ++ index_wire 0 l ++ values_wire l ->
  leads process_num_entries (in_ (with_buffer after_tag X) pre b) todo.
Proof using Hasc Hidle Hlt Hnum Htotal.
  intros E. unfold leads, process_num_entries. rewrite remaining_in. unfold kNumEntriesSize, kMaxEntries in *.
  destruct (Z.ltb_spec (Z.of_nat (length b)) (2 + 2)) as [Hlt'|Hge].
  - eexists. split; [done|]. rewrite peek_in. by apply (awaiting_num b todo).
  - rewrite app_assoc in E. destruct (prefix_split _ _ _ _ E) as (b' & -> & E').
    { rewrite length_app, !store_length. lia. }
    rewrite <- app_assoc, (get_value_in _ _ _ (Z.of_nat (length l))) by (apply reads_host; cbn; lia).
    rewrite upd_in, Z.gtb_ltb, (proj2 (Z.ltb_ge _ _)) by lia.
    rewrite (get_value_in _ _ _ 0) by (apply reads_host; cbn; lia). rewrite upd_in.
    destruct Hidle as (_ & _ & _ & Htags & _).
    assert (with_tags (with_tags (with_buffer after_tag X) (state_ (with_buffer after_tag X)) (Z.of_nat (length l))
      (tags_and_lengths_ (with_buffer after_tag X)) (values_len_ (with_buffer after_tag X)))
      STATE_READING_TAGS_AND_LENGTHS (Z.of_nat (length l))
      (tags_and_lengths_ (with_tags (with_buffer after_tag X) (state_ (with_buffer after_tag X)) (Z.of_nat (length l))
      (tags_and_lengths_ (with_buffer after_tag X)) (values_len_ (with_buffer after_tag X)))) 0 =
      with_buffer after_num X) as ->.
    { unfold after_num, with_buffer, with_tags. cbn. by rewrite Htags. }
    by apply index_stage.
Qed.

Lemma tag_stage X pre b todo : b ++ todo = message_wire tag l ->
  leads process_tag (in_ (with_buffer f0 X) pre b) todo.
Proof using Hasc Hidle Hlt Hnum Htotal Htag.
  intros E. unfold leads, process_tag. rewrite remaining_in. unfold kQuicTagSize.
  destruct (Z.ltb_spec (Z.of_nat (length b)) 4) as [Hlt'|Hge].
  - eexists. split; [done|]. rewrite peek_in. by apply (awaiting_tag b todo).
  - destruct (prefix_split _ _ _ _ E) as (b' & -> & E'); [rewrite store_length; lia|].
    rewrite (get_value_in _ _ _ tag) by by apply reads_tag. rewrite upd_in.
    destruct Hidle as (_ & _ & Hm & _). cbn [with_buffer message_]. rewrite Hm. by apply (num_stage X).
Qed.

(** A further piece of the message. *)
Lemma piece_taken c todo f : awaiting (c ++ todo) f ->
  exists f', ProcessInput c f = Ret true f' /\ awaiting todo f'.
Proof using Hasc Hidle Hlt Hnum Htotal Htag.
  intros Hf.
  assert (error_ f = QUIC_NO_ERROR) as He by (destruct Hidle as (He & _); by destruct Hf).
  assert (exists f', Process c f = Ret QUIC_NO_ERROR f' /\ awaiting todo f') as (f' & Hp & Hf').
  { assert (forall g m b, f = with_buffer g b ->
      (forall X, leads m (in_ (with_buffer g X) [] (b ++ c)) todo) -> switch (state_ g) = m ->
      exists f', Process c f = Ret QUIC_NO_ERROR f' /\ awaiting todo f') as Hgo.
    { intros g m b -> Hm Hs. destruct (Hm (b ++ c)) as (i' & Ei & Ha). unfold Process. cbn [with_buffer buffer_ state_].
      change (Reader.init (b ++ c) HOST_BYTE_ORDER) with (reader_at HOST_BYTE_ORDER [] (b ++ c)).
      change (with_buffer _ (b ++ c)) with (with_buffer g (b ++ c)).
      rewrite Hs. unfold in_ in Ei. rewrite Ei. by eexists. }
    inversion Hf as [b t E Hl|b t E Hl|b t E Hl|b t E Hl|E Hl]; subst.
    - apply (Hgo f0 process_tag b); [done| |]. 
      + intros X. apply tag_stage. by rewrite <- app_assoc.
      + destruct Hidle as (_ & -> & _). done.
    - apply (Hgo after_tag process_num_entries b); [done| |done]. intros X. apply num_stage. by rewrite <- app_assoc.
    - apply (Hgo after_num process_tags b); [done| |done]. intros X. apply index_stage. by rewrite <- app_assoc.
    - apply (Hgo after_index process_values b); [done| |done]. intros X. apply values_stage. by rewrite <- app_assoc.
    - symmetry in E. apply app_eq_nil in E as [-> ->]. eexists. split; [done|exact awaiting_none]. }
  exists (with_error f' QUIC_NO_ERROR). unfold ProcessInput, mbind, M_bind, get. rewrite He. cbn [negb Z.eqb].
  change (QUIC_NO_ERROR =? QUIC_NO_ERROR) with true. cbn [negb]. rewrite Hp. split; [done|].
  assert (error_ f' = QUIC_NO_ERROR) as He' by (destruct Hidle as (He' & _); by destruct Hf').
  rewrite <- He'. by destruct f'.
Qed.
End Stages.

(** ** Whole messages *)

(** The pieces in which input arrives, until one is refused. *)
Fixpoint feed (pieces : list (list Z)) : M CryptoFramer bool :=
  match pieces with
  | [] => mret true
  | c :: pieces => ok ← ProcessInput c; if ok : bool then feed pieces else mret false
  end.

Lemma awaiting_nothing f0 tag l f : awaiting f0 tag l [] f -> f = after_message f0 tag l.
Proof.
  pose proof (message_wire_length tag l). pose proof (values_length l). pose proof (index_length l 0).
  pose proof (total_nonneg l). inversion 1 as [b t E Hl|b t E Hl|b t E Hl|b t E Hl|E Hl]; subst; [..|done]; exfalso;
    apply (f_equal length) in E; rewrite ?length_app, ?store_length in E; cbn [length] in E; lia.
Qed.

Lemma pieces_taken f0 tag l pieces : forall todo f,
  0 <= tag < 2 ^ 32 -> ascending (-1) l -> Forall (fun e => fst e < 2 ^ 32) l ->
  Z.of_nat (length l) <= kMaxEntries -> total l < 2 ^ 32 -> idle f0 ->
  awaiting f0 tag l (concat pieces ++ todo) f ->
  exists f', feed pieces f = Ret true f' /\ awaiting f0 tag l todo f'.
Proof.
  induction pieces as [|c pieces IH]; intros todo f H1 H2 H3 H4 H5 H6 Hf; [by eexists|].
  cbn [concat] in Hf. rewrite <- app_assoc in Hf.
  destruct (piece_taken f0 tag l H1 H2 H3 H4 H5 H6 c _ f Hf) as (f1 & E1 & Hf1).
  destruct (IH todo f1 H1 H2 H3 H4 H5 H6 Hf1) as (f2 & E2 & Hf2).
  exists f2. cbn [feed]. unfold mbind, M_bind. by rewrite E1, E2.
Qed.

Lemma map_find_set t u v l : t <> u -> map_find t (map_set u v l) = map_find t l.
Proof.
  intros Hne. induction l as [|[w x] l IH]; cbn [map_set map_find]; [by rewrite (proj2 (Z.eqb_neq _ _))|].
  destruct (u <? w); [cbn [map_find]; by rewrite (proj2 (Z.eqb_neq t u))|].
  destruct (Z.eqb_spec u w) as [->|]; cbn [map_find]; [by rewrite !(proj2 (Z.eqb_neq t w))|]. by rewrite IH.
Qed.

Lemma padded_ok m : sendable_message m ->
  ascending (-1) (padded m) /\ Forall (fun e => fst e < 2 ^ 32) (padded m).
Proof.
  intros Hm. unfold padded. destruct (Z.ltb_spec (Message.size m) (Message.minimum_size_ m)); [|split; apply Hm].
  split; [apply map_set_ascending; [done|apply Hm]|].
  destruct (map_set_split kPAD (replicate (Z.to_nat (pad_length m)) 45) (Message.tag_value_map_ m) (-1))
    as (lo & hi & El & -> & _ & _); [apply Hm|by apply Hm|].
  pose proof (sm_tags _ Hm) as Ht. rewrite El in Ht. apply Forall_app in Ht as [H1 H2].
  apply Forall_app. split; [done|]. by constructor.
Qed.

(** C9: A handshake message with at most 128 entries is serialised into at least its minimum
    size, and a parser that is given those bytes in any pieces reports exactly one message,
    with the same tag and the same value for every tag but that of the padding, and is ready
    for the next; parsing the bytes at once gives the same message. *)
Theorem a_handshake_message_arrives_however_it_is_cut m f :
  sendable_message m -> idle f -> buffer_ f = [] ->
  exists bytes, ConstructHandshakeMessage m tt = Ret (Some bytes) tt /\
    Message.minimum_size_ m <= Z.of_nat (length bytes) /\
    (forall pieces, concat pieces = bytes -> exists f',
       feed pieces f = Ret true f' /\ idle f' /\ buffer_ f' = [] /\
       calls f' = calls f ++ [OnHandshakeMessage (received (Message.tag_ m) (padded m))]) /\
    ParseMessage bytes tt = Ret (Some (received (Message.tag_ m) (padded m))) tt /\
    (forall t, t <> kPAD -> Message.GetStringPiece t (received (Message.tag_ m) (padded m)) = Message.GetStringPiece t m).
Proof.
  intros Hm Hidle Hbuf. eexists. split; [by apply message_constructed|].
  destruct (padded_ok m Hm) as [Hasc Ht]. pose proof (sm_entries _ Hm) as Hn. pose proof (sm_total _ Hm) as Htot.
  pose proof (sm_tag _ Hm) as Htag.
  assert (forall f pieces, idle f -> buffer_ f = [] -> concat pieces = message_wire (Message.tag_ m) (padded m) ->
    feed pieces f = Ret true (after_message f (Message.tag_ m) (padded m))) as Hfeed.
  { intros g pieces Hg Hb E.
    destruct (pieces_taken g (Message.tag_ m) (padded m) pieces [] g) as (f' & Ef & Ha); [done..| |].
    - rewrite E, app_nil_r. assert (g = with_buffer g []) as Eg by (rewrite <- Hb; by destruct g).
      rewrite Eg at 2. by apply awaiting_tag.
    - rewrite Ef. f_equal. by apply awaiting_nothing. }
  split_and!.
  - rewrite message_wire_length. destruct (padded_total m Hm) as [-> ->]. unfold pad_length, kQuicTagSize, kCryptoEndOffsetSize.
    rewrite Z.gtb_ltb. assert (Message.size m = 8 + 8 * Z.of_nat (length (Message.tag_value_map_ m)) + total (Message.tag_value_map_ m)) as Es
      by (unfold Message.size, total; lia).
    destruct (Z.ltb_spec (Message.size m) (Message.minimum_size_ m)); [|lia].
    destruct (Z.ltb_spec (4 + 4) (Message.minimum_size_ m - Message.size m)); lia.
  - intros pieces E. eexists. split; [by apply Hfeed|]. destruct Hidle as (_ & _ & _ & _ & Htr). by repeat split.
  - unfold ParseMessage. specialize (Hfeed init [message_wire (Message.tag_ m) (padded m)]).
    unfold feed, mbind, M_bind in Hfeed. cbn [concat] in Hfeed. rewrite app_nil_r in Hfeed.
    destruct (ProcessInput _ init) as [ok g|]; [|by discriminate Hfeed].
    destruct ok; [|by discriminate Hfeed]. injection Hfeed as ->; done.
  - intros t Hne. unfold Message.GetStringPiece, padded. cbn [received Message.tag_value_map_].
    destruct (_ <? _); [by apply map_find_set|done].
Qed.

(** A client hello with padding, in three pieces. *)
Definition hello : CryptoHandshakeMessage :=
  Message.set_minimum_size 64 (Message.SetStringPiece 5 [1; 2; 3] (Message.SetValue 4 (2 ^ 24) 77 (Message.set_tag 1330399299 Message.init))).

Lemma a_handshake_message_arrives_however_it_is_cut_witness :
  exists bytes f', length bytes = 64%nat /\
    feed [take 3 bytes; take 20 (drop 3 bytes); drop 23 bytes] init = Ret true f' /\
    calls f' = [OnHandshakeMessage (received 1330399299 (padded hello))].
Proof.
  destruct (a_handshake_message_arrives_however_it_is_cut hello init) as (bytes & E & _ & Hp & _).
  - split.
    + vm_compute; split; discriminate || reflexivity.
    + vm_compute; split_and!; reflexivity || exact I.
    + apply (Forall_cons_2 _ (5, [1; 2; 3]) [(2 ^ 24, [77; 0; 0; 0])]); [|apply Forall_singleton]; vm_compute; reflexivity.
    + vm_compute; discriminate.
    + vm_compute; reflexivity.
    + intros _. apply (Forall_cons_2 _ (5, [1; 2; 3]) [(2 ^ 24, [77; 0; 0; 0])]); [|apply Forall_singleton]; vm_compute; discriminate.
  - done.
  - done.
  - destruct (Hp [take 3 bytes; take 20 (drop 3 bytes); drop 23 bytes]) as (f' & Ef & _ & _ & Ec).
    { revert E. vm_compute. by intros [= <-]. }
    exists bytes, f'. split_and!; [revert E; vm_compute; by intros [= <-]|done|done].
Defined.
