(* ===== verification/HandshakeSafety.v ===== *)
(** The handshake parser on arbitrary input: it never fails, stops at the first
    error, and what it reports has its tags in order. *)

From S2P Require Import Prelude World QuicData Wire IntervalSet PacketNumberQueue Framer FrameWriter FrameReader.
From S2P Require Import FrameWire FrameRead ReaderSafety Handshake HandshakeTrip.
Import CryptoFramer.

(** Ascending tags, whatever the first one is. *)
Definition in_order (l : TagValueMap) : Prop :=
  match l with [] => True | (t, _) :: l => ascending t l end.

Definition tags_in_order (l : list (Z * Z)) : Prop := in_order ((fun p => (fst p, [])) <$> l).

(** The framer between two pieces of input, as long as there was no error. *)
Record parsing_ok (f : CryptoFramer) : Prop := {
  po_tags : match state_ f with
            | STATE_READING_VALUES => tags_in_order (tags_and_lengths_ f)
            | _ => tags_and_lengths_ f = []
            end;
  po_message : Message.tag_value_map_ (message_ f) = []
}.

(** Only messages in order have been reported. *)
Definition reported_in_order (f : CryptoFramer) : Prop :=
  Forall (fun c => match c with OnHandshakeMessage m => in_order (Message.tag_value_map_ m) | OnCryptoError => True end) (calls f).

Lemma in_order_snoc l t v : in_order l -> (forall u, fst <$> last l = Some u -> u < t) -> in_order (l ++ [(t, v)]).
Proof.
  destruct l as [|[u x] l]; [done|]. cbn [in_order app]. revert u x.
  induction l as [|[w y] l IH]; intros u x Ho Hu; cbn [ascending app] in *.
  - split; [|done]. by apply Hu.
  - destruct Ho as [Huw Ho]. split; [done|]. apply (IH w y); [done|]. intros z Hz. apply Hu. done.
Qed.

Lemma order_kept p t : order_error p t = None -> forall u, p = Some u -> u < t.
Proof. unfold order_error. intros H u ->. destruct (Z.leb_spec t u); [by destruct (t =? u)|done]. Qed.

(** The state of the framer and of the reader during a call. *)
Definition reading (i : Input) : Prop := within (reader i).

Lemma get_value_total {A} n (m : M Reader.Reader (option A)) i : consumes n m -> reading i ->
  (n <= Reader.BytesRemaining (reader i))%nat ->
  terminates_in (get_value m i) (fun x i' => self i' = self i /\ further (reader i) (reader i') /\
    Reader.pos_ (reader i') = (Reader.pos_ (reader i) + n)%nat).
Proof.
  intros Hm Hr Hn. unfold get_value. apply total_bind. unfold zoom. cbn [view input_lens].
  specialize (Hm (reader i) Hr). destruct (m (reader i)) as [o r|]; [|done]. destruct Hm as [Hf Hx].
  destruct o as [x|]; [done|lia].
Qed.

(** The loop over the index. *)
Lemma tags_loop_total n : forall off i, reading i ->
  (8 * n <= Reader.BytesRemaining (reader i))%nat -> tags_in_order (tags_and_lengths_ (self i)) ->
  terminates_in (tags_loop n (length (tags_and_lengths_ (self i))) off i) (fun r i' =>
    further (reader i) (reader i') /\ calls (self i') = calls (self i) /\
    match r with
    | inl e => e <> QUIC_NO_ERROR
    | inr _ => tags_in_order (tags_and_lengths_ (self i')) /\ message_ (self i') = message_ (self i)
    end).
Proof.
  induction n as [|n IH]; intros off i Hr Hn Ho; cbn [tags_loop].
  { apply total_ret. split_and!; [by apply further_refl|done|done|done]. }
  apply total_bind. eapply total_mono; [apply (get_value_total 4); [apply consumes_tag|done|lia]|].
  cbv beta. intros tag i1 (S1 & F1 & P1). apply total_bind.
  assert (previous_tag (length (tags_and_lengths_ (self i))) i1 = Ret (fst <$> last (tags_and_lengths_ (self i))) i1) as ->.
  { rewrite <- S1. unfold previous_tag, mbind, M_bind, gets.
    destruct (tags_and_lengths_ (self i1)) as [|q d _] using rev_ind; [done|].
    rewrite last_snoc, length_app, Nat.add_1_r. unfold deref. by rewrite lookup_app_r, Nat.sub_diag. }
  cbn [terminates_in]. destruct (order_error _ tag) as [[e d]|] eqn:Eo.
  { change (further (reader i) (reader i1) /\ calls (self i1) = calls (self i) /\ e <> QUIC_NO_ERROR).
    rewrite S1. split_and!; [done|done|]. unfold order_error in Eo.
    destruct (fst <$> last _) as [p|]; [|done]. destruct (tag <=? p); [|done]. by destruct (tag =? p); injection Eo as <- _. }
  apply total_bind. eapply total_mono; [apply (get_value_total 4); [apply consumes_uint|apply F1|]|].
  { unfold Reader.BytesRemaining, Reader.len_ in *. destruct F1 as (-> & _). lia. }
  cbv beta. intros end_offset i2 (S2 & F2 & P2). pose proof (further_trans _ _ _ F1 F2) as F12.
  destruct (_ <? off).
  { change (further (reader i) (reader i2) /\ calls (self i2) = calls (self i) /\ QUIC_CRYPTO_TAGS_OUT_OF_ORDER <> QUIC_NO_ERROR).
    rewrite S2, S1. by split_and!. }
  apply total_bind. cbn [upd modify terminates_in]. set (i3 := set_self _ i2).
  assert (tags_and_lengths_ (self i3) = tags_and_lengths_ (self i) ++ [(tag, uint32 (end_offset - off))]) as E3
    by (unfold i3; cbn; by rewrite S2, S1).
  replace (S (length (tags_and_lengths_ (self i)))) with (length (tags_and_lengths_ (self i3)))
    by (rewrite E3, length_app; cbn; lia).
  eapply total_mono; [apply IH|].
  - apply F2.
  - unfold i3. cbn. unfold Reader.BytesRemaining, Reader.len_ in *. destruct F12 as (-> & _). rewrite P2, P1. lia.
  - rewrite E3. unfold tags_in_order in *. rewrite fmap_app. apply in_order_snoc; [done|]. intros u Hu.
    apply (order_kept _ _ Eo). rewrite fmap_last in Hu. destruct (last (tags_and_lengths_ (self i))); [|done]. done.
  - cbv beta. intros r i' (F & C & R). split_and!; [by eapply further_trans|by rewrite C; unfold i3; cbn; rewrite S2, S1|].
    destruct r; [done|]. destruct R as [R1 R2]. split; [done|]. rewrite R2. unfold i3. cbn. by rewrite S2, S1.
Qed.

Lemma ascending_keys l : forall b l', fst <$> l = fst <$> l' -> ascending b l -> ascending b l'.
Proof.
  induction l as [|[t v] l IH]; intros b [|[t' v'] l'] E H; try done. cbn in E. injection E as <- E.
  destruct H as [Hb H]. split; [done|]. by apply IH.
Qed.

Lemma in_order_keys l l' : fst <$> l = fst <$> l' -> in_order l -> in_order l'.
Proof.
  destruct l as [|[t v] l], l' as [|[t' v'] l']; try done. cbn. intros [= <- E]. by apply ascending_keys.
Qed.

Lemma in_order_middle a t v l : in_order (a ++ (t, v) :: l) -> Forall (fun e => fst e < t) a.
Proof.
  destruct a as [|[u x] a]; [done|]. cbn [app in_order]. intros Ha. constructor; [|by eapply ascending_middle].
  apply ascending_above, Forall_app in Ha as [_ Ha]. by apply Forall_cons in Ha as [Ha _].
Qed.

(** The loop over the values. *)
Lemma values_loop_total l : forall i, reading i ->
  in_order (Message.tag_value_map_ (message_ (self i)) ++ ((fun p => (fst p, [])) <$> l)) ->
  terminates_in (values_loop l i) (fun _ i' =>
    reading i' /\ calls (self i') = calls (self i) /\ in_order (Message.tag_value_map_ (message_ (self i')))).
Proof.
  induction l as [|[t n] l IH]; intros i Hr Ho; cbn [values_loop].
  { apply total_ret. rewrite app_nil_r in Ho. done. }
  apply total_bind. unfold zoom. cbn [view input_lens].
  pose proof (moves_string (Z.to_nat n) (reader i) Hr) as Hm.
  destruct (Reader.ReadStringPiece (Z.to_nat n) (reader i)) as [o r|]; [|done]. cbn [terminates_in put input_lens] in *.
  apply total_bind. cbn [upd modify terminates_in]. set (i2 := set_self _ _).
  set (v := match o with Some v => v | None => [] end) in *. rewrite fmap_cons in Ho. cbn [fst] in Ho.
  assert (Message.tag_value_map_ (message_ (self i2)) = Message.tag_value_map_ (message_ (self i)) ++ [(t, v)]) as E2.
  { unfold i2. cbn. by eapply map_set_last, in_order_middle. }
  eapply total_mono; [apply IH|].
  - apply Hm.
  - rewrite E2, <- app_assoc. eapply in_order_keys; [|exact Ho]. by rewrite !fmap_app.
  - cbv beta. intros _ i' (R & C & O). by split_and!.
Qed.

(** What every case of the switch gives: an error, or a framer that waits. *)
Definition step_ok (i : Input) (o : option Z) (i' : Input) : Prop :=
  (reported_in_order (self i) -> reported_in_order (self i')) /\
  match o with Some e => e <> QUIC_NO_ERROR | None => parsing_ok (self i') end.

Lemma process_values_total i : reading i -> state_ (self i) = STATE_READING_VALUES -> parsing_ok (self i) ->
  terminates_in (process_values i) (step_ok i).
Proof.
  intros Hr Hs Hok. unfold process_values. apply total_bind. cbn [gets terminates_in]. apply total_bind.
  cbn [remaining gets terminates_in]. destruct (_ && _); [by split|]. pose proof Hok as [Ht Hm]. rewrite Hs in Ht.
  apply total_bind. eapply total_mono; [apply values_loop_total; [done|by rewrite Hm]|].
  cbv beta. intros _ i' (R & C & O). split.
  - unfold reported_in_order. cbn. rewrite C. intros Hc. apply Forall_app. split; [done|]. by apply Forall_singleton.
  - by split.
Qed.

Lemma step_ok_from i i1 o i' : calls (self i1) = calls (self i) -> step_ok i1 o i' -> step_ok i o i'.
Proof. unfold step_ok, reported_in_order. intros ->. done. Qed.

Lemma process_tags_total i : reading i -> state_ (self i) = STATE_READING_TAGS_AND_LENGTHS -> parsing_ok (self i) ->
  terminates_in (process_tags i) (step_ok i).
Proof.
  intros Hr Hs Hok. unfold process_tags. apply total_bind. cbn [gets terminates_in]. apply total_bind.
  cbn [remaining gets terminates_in]. unfold kQuicTagSize, kCryptoEndOffsetSize.
  destruct (Z.ltb_spec (Z.of_nat (Reader.BytesRemaining (reader i))) (num_entries_ (self i) * (4 + 4))); [by split|].
  pose proof Hok as [Ht Hm]. rewrite Hs in Ht. apply total_bind.
  pose proof (tags_loop_total (Z.to_nat (num_entries_ (self i))) 0 i Hr ltac:(lia)) as Htl.
  rewrite Ht in Htl. specialize (Htl I). eapply total_mono; [exact Htl|]. cbv beta.
  intros r i1 (F & C & R). destruct r as [e|off].
  - apply total_ret. split; [unfold reported_in_order; by rewrite C|done].
  - destruct R as [R1 R2]. apply total_bind. cbn [upd modify terminates_in]. set (i2 := set_self _ i1).
    eapply total_mono; [apply (process_values_total i2); [apply F|done|]|].
    + split; [done|]. unfold i2. cbn. by rewrite R2.
    + intros o i'. by apply step_ok_from.
Qed.

Lemma process_num_total i : reading i -> state_ (self i) = STATE_READING_NUM_ENTRIES -> parsing_ok (self i) ->
  terminates_in (process_num_entries i) (step_ok i).
Proof.
  intros Hr Hs Hok. unfold process_num_entries. apply total_bind. cbn [remaining gets terminates_in].
  unfold kNumEntriesSize. destruct (Z.ltb_spec (Z.of_nat (Reader.BytesRemaining (reader i))) (2 + 2)); [by split|].
  pose proof Hok as [Ht Hm]. rewrite Hs in Ht.
  apply total_bind. eapply total_mono; [apply (get_value_total 2); [apply consumes_uint|done|lia]|].
  cbv beta. intros num i1 (S1 & F1 & P1). apply total_bind. cbn [upd modify terminates_in]. set (i2 := set_self _ i1).
  assert (calls (self i2) = calls (self i)) as C2 by (unfold i2; cbn; by rewrite S1).
  destruct (num >? kMaxEntries).
  { change (step_ok i (Some QUIC_CRYPTO_TOO_MANY_ENTRIES) (set_self (fun f => with_detail f (pretty.pretty num +:+ " entries")) i2)).
    split; [|done]. unfold reported_in_order. cbn. by rewrite S1. }
  apply total_bind. eapply total_mono; [apply (get_value_total 2); [apply consumes_uint|apply F1|]|].
  { unfold i2. cbn. unfold Reader.BytesRemaining, Reader.len_ in *. destruct F1 as (-> & _). rewrite P1. lia. }
  cbv beta. intros _ i3 (S3 & F3 & _). apply total_bind. cbn [upd modify terminates_in]. set (i4 := set_self _ i3).
  eapply total_mono; [apply (process_tags_total i4); [apply F3|done|]|].
  - split; unfold i4; cbn; rewrite S3; unfold i2; cbn; by rewrite S1.
  - intros o i'. apply step_ok_from. unfold i4. cbn. by rewrite S3.
Qed.

Lemma process_tag_total i : reading i -> state_ (self i) = STATE_READING_TAG -> parsing_ok (self i) ->
  terminates_in (process_tag i) (step_ok i).
Proof.
  intros Hr Hs Hok. unfold process_tag. apply total_bind. cbn [remaining gets terminates_in].
  unfold kQuicTagSize. destruct (Z.ltb_spec (Z.of_nat (Reader.BytesRemaining (reader i))) 4); [by split|].
  pose proof Hok as [Ht Hm]. rewrite Hs in Ht.
  apply total_bind. eapply total_mono; [apply (get_value_total 4); [apply consumes_tag|done|lia]|].
  cbv beta. intros tag i1 (S1 & F1 & _). apply total_bind. cbn [upd modify terminates_in]. set (i2 := set_self _ i1).
  eapply total_mono; [apply (process_num_total i2); [apply F1|done|]|].
  - split; unfold i2; cbn; by rewrite S1.
  - intros o i'. apply step_ok_from. unfold i2. cbn. by rewrite S1.
Qed.

Lemma Process_total c f : parsing_ok f ->
  terminates_in (Process c f) (fun e f' => (reported_in_order f -> reported_in_order f') /\ (e = QUIC_NO_ERROR -> parsing_ok f')).
Proof.
  intros Hok. unfold Process. set (f1 := with_buffer f _). set (i := {| self := f1; reader := _ |}).
  assert (parsing_ok (self i)) as Hi by by destruct Hok.
  assert (reading i) as Hr by (unfold reading, within; cbn; lia).
  assert (terminates_in (switch (state_ f1) i) (step_ok i)) as Hs.
  { destruct (state_ f1) eqn:Es; cbn [switch];
      [by apply process_tag_total|by apply process_num_total|by apply process_tags_total|by apply process_values_total]. }
  destruct (switch (state_ f1) i) as [o i'|]; [|done]. cbn [terminates_in] in Hs. destruct Hs as [H1 H2].
  destruct o as [e|]; cbn [terminates_in]; (split; [done|]); [done|]. intros _. destruct H2. by split.
Qed.

Lemma ProcessInput_total c f : reported_in_order f -> (error_ f = QUIC_NO_ERROR -> parsing_ok f) ->
  terminates_in (ProcessInput c f) (fun ok f' => reported_in_order f' /\ (error_ f' = QUIC_NO_ERROR -> parsing_ok f') /\
    (ok = true <-> error_ f' = QUIC_NO_ERROR)).
Proof.
  intros Hc Hok. unfold ProcessInput. apply total_bind. cbn [get terminates_in].
  destruct (Z.eqb_spec (error_ f) QUIC_NO_ERROR) as [He|He]; cbn [negb]; [|apply total_ret; by split_and!].
  apply total_bind. eapply total_mono; [by apply Process_total, Hok|]. cbv beta. intros e f1 [R P].
  apply total_bind. cbn [modify terminates_in]. destruct (Z.eqb_spec e QUIC_NO_ERROR) as [->|Hne]; cbn [negb].
  - apply total_ret. split_and!; [by apply R| |done]. intros _. by destruct (P eq_refl).
  - cbn. split_and!; [|done|by split]. unfold reported_in_order. cbn. apply Forall_app. split; [by apply R|by constructor].
Qed.

Lemma feed_total pieces : forall f, reported_in_order f -> (error_ f = QUIC_NO_ERROR -> parsing_ok f) ->
  terminates_in (feed pieces f) (fun ok f' => reported_in_order f' /\
    ((ok = true <-> error_ f' = QUIC_NO_ERROR) \/ pieces = [] /\ ok = true /\ f' = f)).
Proof.
  induction pieces as [|c pieces IH]; intros f Hc Hok; [split; [done|by right]|].
  pose proof (ProcessInput_total c f Hc Hok) as Hp. cbn [feed].
  unfold mbind, M_bind. destruct (ProcessInput c f) as [ok f1|]; [|done]. cbn [terminates_in] in Hp.
  destruct Hp as (H1 & H2 & H3). destruct ok; [|by split; [|left]].
  eapply total_mono; [by apply IH|]. cbv beta. intros ok f' [Hr [?|(-> & -> & ->)]]; (split; [done|by left]).
Qed.

(** What a [OneShotVisitor] keeps. *)
Lemma kept_in_order l : forall o : option CryptoHandshakeMessage,
  match o with Some m => in_order (Message.tag_value_map_ m) | None => True end ->
  Forall (fun c => match c with OnHandshakeMessage m => in_order (Message.tag_value_map_ m) | OnCryptoError => True end) l ->
  match fold_left (fun out c => match c with OnHandshakeMessage m => Some (Message.copy m) | OnCryptoError => out end) l o with
  | Some m => in_order (Message.tag_value_map_ m)
  | None => True
  end.
Proof.
  induction l as [|c l IH]; intros o Ho Hl; [done|]. apply Forall_cons in Hl as [Hc Hl]. cbn [fold_left].
  apply IH; [|done]. by destruct c.
Qed.

Lemma init_ok : reported_in_order init /\ parsing_ok init.
Proof. split; [constructor|by split]. Qed.

Lemma ParseMessage_total input :
  terminates_in (ParseMessage input tt) (fun o _ => match o with Some m => in_order (Message.tag_value_map_ m) | None => True end).
Proof.
  unfold ParseMessage. destruct init_ok as [H0 Hi]. pose proof (ProcessInput_total input init H0 (fun _ => Hi)) as Hp.
  destruct (ProcessInput _ init) as [ok f|]; [|done]. destruct Hp as (H1 & _). destruct (_ || _); [done|].
  by apply kept_in_order.
Qed.

(** C10: Whatever pieces of whatever bytes a handshake parser is given, no call faults or
    reads outside its buffer, it answers true exactly while no error was met, and every
    message it reports has its tags in strictly ascending order; the same holds of parsing
    them at once. *)
Theorem no_input_derails_the_handshake_parser pieces :
  terminates_in (feed pieces init) (fun ok f =>
    (ok = true <-> error_ f = QUIC_NO_ERROR) /\
    Forall (fun c => match c with
                     | OnHandshakeMessage m => in_order (Message.tag_value_map_ m)
                     | OnCryptoError => True
                     end) (calls f)) /\
  terminates_in (ParseMessage (concat pieces) tt) (fun o _ =>
    match o with Some m => in_order (Message.tag_value_map_ m) | None => True end).
Proof.
  split; [|apply ParseMessage_total]. destruct init_ok as [H0 Hi].
  eapply total_mono; [apply (feed_total pieces init H0 (fun _ => Hi))|].
  cbv beta. intros ok f [Hr [?|(-> & -> & ->)]]; by split.
Qed.
