(* ===== verification/PacketFramer.v ===== *)
(** Packets: [ProcessPacket] of the framer with the headers, the encryption and
    the packets that carry no frames, and the functions that build and seal
    packets (libquic/net/quic/core/quic_framer.cc, quic_packets.cc,
    quic_versions.cc). *)

From S2P Require Import Prelude World QuicData Wire IntervalSet Crypter PacketNumberQueue Framer FrameWriter FrameReader.
From S2P Require Import Handshake.

Definition QUIC_INVALID_VERSION_NEGOTIATION_PACKET : Z := 10.
Definition QUIC_INVALID_PUBLIC_RST_PACKET : Z := 11.
Definition QUIC_DECRYPTION_FAILURE : Z := 12.
Definition QUIC_ENCRYPTION_FAILURE : Z := 13.
Definition QUIC_PACKET_TOO_LARGE : Z := 14.

Definition kMaxPacketSize : Z := 1452.
Definition kPublicFlagsSize : Z := 1.
Definition kQuicVersionSize : Z := 4.
Definition kDiversificationNonceSize : Z := 32.

(** [enum QuicPacketPublicFlags] *)
Definition PACKET_PUBLIC_FLAGS_VERSION : Z := 1.
Definition PACKET_PUBLIC_FLAGS_RST : Z := 2.
Definition PACKET_PUBLIC_FLAGS_NONCE : Z := 4.
Definition PACKET_PUBLIC_FLAGS_8BYTE_CONNECTION_ID : Z := 8.
Definition PACKET_PUBLIC_FLAGS_8BYTE_CONNECTION_ID_OLD : Z := 12.
Definition PACKET_PUBLIC_FLAGS_MAX : Z := 63.

(** ** Headers *)

(** [QuicPacketHeader()] *)
Definition QuicPacketHeader_init : QuicPacketHeader :=
  {| connection_id := 0; connection_id_length := 8; reset_flag := false; version_flag := false;
     packet_number_length := 4; version := unsupported_version; nonce := None; packet_number := 0 |}.

(** [size_t GetPacketHeaderSize(version, connection_id_length, include_version,
    include_diversification_nonce, packet_number_length)] *)
Definition GetPacketHeaderSize (connection_id_length : Z) (include_version include_diversification_nonce : bool)
    (packet_number_length : Z) : Z :=
  kPublicFlagsSize + connection_id_length + (if include_version then kQuicVersionSize else 0) + packet_number_length +
  (if include_diversification_nonce then kDiversificationNonceSize else 0).

(** [size_t GetStartOfEncryptedData(version, header)] *)
Definition GetStartOfEncryptedData (header : QuicPacketHeader) : Z :=
  GetPacketHeaderSize (connection_id_length header) (version_flag header)
    (match nonce header with Some _ => true | None => false end) (packet_number_length header).

Definition kSupportedTransportVersions : list Z := [99; 43; 42; 41; 39; 38; 37; 35].

(** [ParsedQuicVersion ParseQuicVersionLabel(QuicVersionLabel version_label)];
    [tls] is [FLAGS_quic_supports_tls_handshake] *)
Definition ParseQuicVersionLabel (tls : bool) (version_label : Z) : ParsedQuicVersion :=
  let protocols := PROTOCOL_QUIC_CRYPTO :: (if tls then [PROTOCOL_TLS1_3] else []) in
  let candidates := concat ((fun v => (fun p => {| handshake_protocol := p; transport_version := v |}) <$> protocols)
                              <$> kSupportedTransportVersions) in
  match List.find (fun pv => version_label =? CreateQuicVersionLabel pv) candidates with
  | Some pv => pv
  | None => unsupported_version
  end.

(** ** The framer with its keys *)

(** What [OnProtocolVersionMismatch] does to the framer: the version it sets, if
    any, after the calls so far. *)
Class VersionVisitor : Type := set_version : list Visit -> ParsedQuicVersion -> option ParsedQuicVersion.

(** The rest of [class QuicFramer]: encrypters by level, decrypters and the last
    nonce; [parsing] holds the fields that frames use and the reader of the
    packet at hand. *)
Record Endpoint (E D : Type) : Type := {
  parsing : Parsing;
  encrypter_ : EncryptionLevel -> option E;
  decrypter_ : D;
  decrypter_level_ : EncryptionLevel;
  alternative_decrypter_ : option D;
  alternative_decrypter_level_ : EncryptionLevel;
  alternative_decrypter_latch_ : bool;
  last_nonce_ : list Z
}.
Arguments parsing {E D} _.
Arguments encrypter_ {E D} _ _.
Arguments decrypter_ {E D} _.
Arguments decrypter_level_ {E D} _.
Arguments alternative_decrypter_ {E D} _.
Arguments alternative_decrypter_level_ {E D} _.
Arguments alternative_decrypter_latch_ {E D} _.
Arguments last_nonce_ {E D} _.

Section Endpoints.
Context {E D : Type}.
Implicit Types s : Endpoint E D.

Definition set_parsing (p : Parsing) s : Endpoint E D :=
  {| parsing := p; encrypter_ := encrypter_ s; decrypter_ := decrypter_ s; decrypter_level_ := decrypter_level_ s;
     alternative_decrypter_ := alternative_decrypter_ s; alternative_decrypter_level_ := alternative_decrypter_level_ s;
     alternative_decrypter_latch_ := alternative_decrypter_latch_ s; last_nonce_ := last_nonce_ s |}.

Definition set_decrypters (d : D) (l : EncryptionLevel) (a : option D) (al : EncryptionLevel) (latch : bool) s :
    Endpoint E D :=
  {| parsing := parsing s; encrypter_ := encrypter_ s; decrypter_ := d; decrypter_level_ := l;
     alternative_decrypter_ := a; alternative_decrypter_level_ := al;
     alternative_decrypter_latch_ := latch; last_nonce_ := last_nonce_ s |}.

Definition set_nonce (n : list Z) s : Endpoint E D :=
  {| parsing := parsing s; encrypter_ := encrypter_ s; decrypter_ := decrypter_ s; decrypter_level_ := decrypter_level_ s;
     alternative_decrypter_ := alternative_decrypter_ s; alternative_decrypter_level_ := alternative_decrypter_level_ s;
     alternative_decrypter_latch_ := alternative_decrypter_latch_ s; last_nonce_ := n |}.

Definition parsing_lens : Lens (Endpoint E D) Parsing := {| view := parsing; put := set_parsing |}.
Definition pa {A} (m : M Parsing A) : M (Endpoint E D) A := zoom parsing_lens m.

(** [void SetDecrypter(level, decrypter)] *)
Definition SetDecrypter (level : EncryptionLevel) (d : D) s : Endpoint E D :=
  set_decrypters d level (alternative_decrypter_ s) (alternative_decrypter_level_ s) (alternative_decrypter_latch_ s) s.

(** [void SetAlternativeDecrypter(level, decrypter, latch_once_used)] *)
Definition SetAlternativeDecrypter (level : EncryptionLevel) (d : D) (latch_once_used : bool) s : Endpoint E D :=
  set_decrypters (decrypter_ s) (decrypter_level_ s) (Some d) level latch_once_used s.

(** [void SetEncrypter(level, encrypter)] *)
Definition SetEncrypter (level : EncryptionLevel) (e : E) s : Endpoint E D :=
  {| parsing := parsing s;
     encrypter_ := fun l => if decide (l = level) then Some e else encrypter_ s l;
     decrypter_ := decrypter_ s; decrypter_level_ := decrypter_level_ s;
     alternative_decrypter_ := alternative_decrypter_ s; alternative_decrypter_level_ := alternative_decrypter_level_ s;
     alternative_decrypter_latch_ := alternative_decrypter_latch_ s; last_nonce_ := last_nonce_ s |}.

Context `{!Encrypter E, !Decrypter D, !FramerVisitor, !VersionVisitor} (tls : bool).

(** ** Sealing packets *)

(** [size_t GetMaxPlaintextSize(size_t ciphertext_size)] *)
Definition max_plaintext_size (ciphertext_size : Z) s : Z :=
  fold_left (fun m l => match encrypter_ s l with
                        | Some e => let size := GetMaxPlaintextSize ciphertext_size e in if size <? m then size else m
                        | None => m
                        end) [ENCRYPTION_NONE; ENCRYPTION_INITIAL; ENCRYPTION_FORWARD_SECURE] ciphertext_size.

(** [size_t EncryptPayload(level, packet_number, packet, buffer, buffer_len)] of
    the packet [data] with header [header]: what is in the buffer, nothing on
    failure *)
Definition EncryptPayload (level : EncryptionLevel) (number : Z) (header : QuicPacketHeader) (data : list Z)
    (buffer_len : nat) : M (Endpoint E D) (list Z) :=
  s ← get;
  e ← deref (encrypter_ s level) NullDeref;
  let ad_len := Z.to_nat (GetStartOfEncryptedData header) in
  let associated_data := take ad_len data in
  let v := transport_version (Framer.version_ (framer (parsing s))) in
  if (length data <? ad_len)%nat || (buffer_len <? ad_len)%nat then crashed OutOfBounds
  else
    match EncryptPacket v number associated_data (drop ad_len data) (buffer_len - ad_len) e with
    | None => _ ← pa (RaiseError QUIC_ENCRYPTION_FAILURE); mret []
    | Some output => mret (associated_data ++ output)
    end.

(** [size_t EncryptInPlace(level, packet_number, ad_len, total_len, buffer_len,
    buffer)], the first [total_len] bytes of the buffer being [data] *)
Definition EncryptInPlace (level : EncryptionLevel) (number : Z) (ad_len : nat) (data : list Z) (buffer_len : nat) :
    M (Endpoint E D) (list Z) :=
  s ← get;
  e ← deref (encrypter_ s level) NullDeref;
  let v := transport_version (Framer.version_ (framer (parsing s))) in
  if (length data <? ad_len)%nat || (buffer_len <? ad_len)%nat then crashed OutOfBounds
  else
    match EncryptPacket v number (take ad_len data) (drop ad_len data) (buffer_len - ad_len) e with
    | None => _ ← pa (RaiseError QUIC_ENCRYPTION_FAILURE); mret []
    | Some output => mret (take ad_len data ++ output)
    end.

(** ** Reading headers *)

Definition refuse {A} (d : string) : M (Endpoint E D) (option A) := pa (fail d).

(** The connection id and its length. *)
Definition read_connection_id (public_flags : Z) : M (Endpoint E D) (option (Z * Z)) :=
  if Z.land public_flags PACKET_PUBLIC_FLAGS_8BYTE_CONNECTION_ID =? PACKET_PUBLIC_FLAGS_8BYTE_CONNECTION_ID then
    id ←? pa (read Reader.ReadConnectionId "Unable to read ConnectionId."); mret (Some (id, 8))
  else
    id ← gets (fun s => Framer.last_serialized_connection_id_ (framer (parsing s)));
    mret (Some (id, 0)).

(** The version, of a packet from a client. *)
Definition read_version (public_flags : Z) (version_flag : bool) : M (Endpoint E D) (option ParsedQuicVersion) :=
  f ← gets (fun s => framer (parsing s));
  if version_flag && bool_decide (Framer.perspective_ f = IS_SERVER) then
    label ←? pa (read Reader.ReadTag "Unable to read protocol version.");
    let version_label := swap 4 label in
    pa (modify (fun p => set_framer (Framer.with_numbers (framer p) (Framer.largest_packet_number_ (framer p))
          (Framer.last_serialized_connection_id_ (framer p)) version_label) p));;
    let v := ParseQuicVersionLabel tls version_label in
    if bool_decide (v = Framer.version_ f) && (public_flags >? PACKET_PUBLIC_FLAGS_MAX)
    then refuse "Illegal public flags value."
    else mret (Some v)
  else mret (Some unsupported_version).

(** The nonce, of a packet from a server. *)
Definition read_nonce (public_flags : Z) : M (Endpoint E D) (option (option (list Z))) :=
  f ← gets (fun s => framer (parsing s));
  if has public_flags PACKET_PUBLIC_FLAGS_NONCE && negb (has public_flags PACKET_PUBLIC_FLAGS_VERSION) &&
     negb (has public_flags PACKET_PUBLIC_FLAGS_RST) && bool_decide (Framer.perspective_ f = IS_CLIENT)
  then
    n ←? pa (read (Reader.ReadBytes (Z.to_nat kDiversificationNonceSize)) "Unable to read nonce.");
    modify (set_nonce n);; mret (Some (Some n))
  else mret (Some None).

(** [bool ProcessPublicHeader(reader, header)] *)
Definition ProcessPublicHeader : M (Endpoint E D) (option QuicPacketHeader) :=
  flags ←? pa (read (Reader.ReadBytes 1) "Unable to read public flags.");
  let public_flags := load flags in
  let reset_flag := has public_flags PACKET_PUBLIC_FLAGS_RST in
  let version_flag := has public_flags PACKET_PUBLIC_FLAGS_VERSION in
  f ← gets (fun s => framer (parsing s));
  if Framer.validate_flags_ f && negb version_flag && (public_flags >? PACKET_PUBLIC_FLAGS_MAX)
  then refuse "Illegal public flags value."
  else if reset_flag && version_flag then refuse "Got version flag in reset packet"
  else
    id ←? read_connection_id public_flags;
    let packet_number_length := ReadSequenceNumberLength (Z.shiftr public_flags 4) in
    v ←? read_version public_flags version_flag;
    n ←? read_nonce public_flags;
    mret (Some {| connection_id := fst id; connection_id_length := snd id; reset_flag := reset_flag;
                  version_flag := version_flag; packet_number_length := packet_number_length;
                  version := v; nonce := n; packet_number := 0 |}).

(** [bool ProcessAndCalculatePacketNumber(reader, packet_number_length,
    base_packet_number, packet_number)] *)
Definition ProcessAndCalculatePacketNumber (packet_number_length base_packet_number : Z) : M Parsing (option Z) :=
  wire ← rd (Reader.ReadBytesToUInt64 (Z.to_nat packet_number_length));
  mret (CalculatePacketNumberFromWire packet_number_length base_packet_number <$> wire).

Definition with_packet_number (n : Z) (h : QuicPacketHeader) : QuicPacketHeader :=
  {| connection_id := connection_id h; connection_id_length := connection_id_length h; reset_flag := reset_flag h;
     version_flag := version_flag h; packet_number_length := packet_number_length h; version := version h;
     nonce := nonce h; packet_number := n |}.

(** [bool ProcessUnauthenticatedHeader(encrypted_reader, header)] *)
Definition ProcessUnauthenticatedHeader (header : QuicPacketHeader) : M Parsing (option QuicPacketHeader) :=
  base_packet_number ← gets (fun p => Framer.largest_packet_number_ (framer p));
  n ← ProcessAndCalculatePacketNumber (packet_number_length header) base_packet_number;
  match n with
  | None =>
      set_detailed_error "Unable to read packet number.";; _ ← RaiseError QUIC_INVALID_PACKET_HEADER; mret None
  | Some n =>
      if n =? 0 then
        set_detailed_error "packet numbers cannot be 0.";; _ ← RaiseError QUIC_INVALID_PACKET_HEADER; mret None
      else
        let header := with_packet_number n header in
        ok ← visit (OnUnauthenticatedHeader header);
        if negb ok then fail "Visitor asked to stop processing of unauthenticated header."
        else mret (Some header)
  end.

(** ** Opening packets *)

(** The decryption by the alternative decrypter, and which one is tried first from
    then on. *)
Definition try_alternative (header : QuicPacketHeader) (associated_data encrypted : list Z) (buffer_length : nat) :
    M (Endpoint E D) (option (list Z)) :=
  s ← get;
  let f := framer (parsing s) in
  match alternative_decrypter_ s with
  | None => mret None
  | Some a =>
      let a := match nonce header with Some n => SetDiversificationNonce n a | None => a end in
      let try_alternative_decryption :=
        negb (bool_decide (alternative_decrypter_level_ s = ENCRYPTION_INITIAL) &&
              bool_decide (Framer.perspective_ f = IS_CLIENT) &&
              match nonce header with None => true | Some _ => false end) in
      let level := alternative_decrypter_level_ s in
      let opened :=
        if try_alternative_decryption
        then DecryptPacket (transport_version (Framer.version_ f)) (packet_number header) associated_data encrypted
               buffer_length a
        else None in
      match opened with
      | None =>
          modify (fun s => set_decrypters (decrypter_ s) (decrypter_level_ s) (Some a) level
                             (alternative_decrypter_latch_ s) s);; mret None
      | Some plaintext =>
          _ ← pa (visit (OnDecryptedPacket level));
          modify (fun s =>
            if alternative_decrypter_latch_ s
            then set_decrypters a level None ENCRYPTION_NONE (alternative_decrypter_latch_ s) s
            else set_decrypters a level (Some (decrypter_ s)) (decrypter_level_ s) (alternative_decrypter_latch_ s) s);;
          mret (Some plaintext)
      end
  end.

(** [bool DecryptPayload(encrypted_reader, header, packet, decrypted_buffer,
    buffer_length, decrypted_length)] *)
Definition DecryptPayload (header : QuicPacketHeader) (packet : list Z) (buffer_length : nat) :
    M (Endpoint E D) (option (list Z)) :=
  encrypted ← pa (rd Reader.ReadRemainingPayload);
  s ← get;
  let associated_data := take (Z.to_nat (GetStartOfEncryptedData header)) packet in
  match DecryptPacket (transport_version (Framer.version_ (framer (parsing s)))) (packet_number header)
          associated_data encrypted buffer_length (decrypter_ s) with
  | Some plaintext => _ ← pa (visit (OnDecryptedPacket (decrypter_level_ s))); mret (Some plaintext)
  | None => try_alternative header associated_data encrypted buffer_length
  end.

(** [bool ProcessDataPacket(encrypted_reader, header, packet, decrypted_buffer,
    buffer_length)] *)
Definition ProcessDataPacket (header : QuicPacketHeader) (packet : list Z) (buffer_length : nat) : M (Endpoint E D) bool :=
  o ← pa (ProcessUnauthenticatedHeader header);
  match o with
  | None => mret false
  | Some header =>
      plaintext ← DecryptPayload header packet buffer_length;
      match plaintext with
      | None => pa (set_detailed_error "Unable to decrypt payload.";; RaiseError QUIC_DECRYPTION_FAILURE)
      | Some plaintext =>
          pa (modify (fun p => set_reader (Reader.init plaintext (Framer.endianness (framer p))) p));;
          pa (modify (fun p => set_framer (Framer.with_numbers (framer p)
                (Z.max (packet_number header) (Framer.largest_packet_number_ (framer p)))
                (Framer.last_serialized_connection_id_ (framer p)) (Framer.last_version_label_ (framer p))) p));;
          ok ← pa (visit (OnPacketHeader header));
          if negb ok then mret true
          else if Z.of_nat (length packet) >? kMaxPacketSize then pa (RaiseError QUIC_PACKET_TOO_LARGE)
          else
            ok ← pa (ProcessFrameData header);
            if negb ok then mret false
            else _ ← pa (visit OnPacketComplete); mret true
      end
  end.

(** ** Packets without frames *)

(** The loop of [ProcessVersionNegotiationPacket]: the versions read, or failure *)
Fixpoint versions_loop (fuel : nat) (versions : list ParsedQuicVersion) : M Reader.Reader (option (list ParsedQuicVersion)) :=
  label ← Reader.ReadTag;
  match label with
  | None => mret None
  | Some label =>
      let versions := versions ++ [ParseQuicVersionLabel tls (swap 4 label)] in
      r ← get;
      if Reader.IsDoneReading r then mret (Some versions)
      else match fuel with O => crashed OutOfFuel | S fuel => versions_loop fuel versions end
  end.

(** [bool ProcessVersionNegotiationPacket(reader, header)] *)
Definition ProcessVersionNegotiationPacket (header : QuicPacketHeader) : M Parsing bool :=
  r ← gets reader;
  versions ← rd (versions_loop (Reader.BytesRemaining r) []);
  match versions with
  | None =>
      set_detailed_error "Unable to read supported version in negotiation.";;
      RaiseError QUIC_INVALID_VERSION_NEGOTIATION_PACKET
  | Some versions => _ ← visit (OnVersionNegotiationPacket (connection_id header) versions); mret true
  end.

(** [bool ProcessPublicResetPacket(reader, header)] *)
Definition ProcessPublicResetPacket (header : QuicPacketHeader) : M Parsing bool :=
  payload ← rd Reader.ReadRemainingPayload;
  match CryptoFramer.ParseMessage payload tt with
  | Crash c => crashed c
  | Ret None _ => set_detailed_error "Unable to read reset message.";; RaiseError QUIC_INVALID_PUBLIC_RST_PACKET
  | Ret (Some reset) _ =>
      if negb (Message.tag_ reset =? kPRST) then
        set_detailed_error "Incorrect message tag.";; RaiseError QUIC_INVALID_PUBLIC_RST_PACKET
      else
        let '(error, nonce_proof) := Message.GetUint64 kRNON reset in
        if negb (error =? QUIC_NO_ERROR) then
          set_detailed_error "Unable to read nonce proof.";; RaiseError QUIC_INVALID_PUBLIC_RST_PACKET
        else
          let client_address :=
            match Message.GetStringPiece kCADR reset with
            | Some address => (fun a => (host a, port a)) <$> Decode address
            | None => None
            end in
          _ ← visit (OnPublicResetPacket (connection_id header) nonce_proof client_address);
          mret true
  end.

(** [bool ProcessPacket(packet)] after the public header was accepted *)
Definition process_packet (header : QuicPacketHeader) (packet : list Z) : M (Endpoint E D) bool :=
  pa (modify (fun p => set_reader {| Reader.data_ := Reader.data_ (reader p); Reader.pos_ := Reader.pos_ (reader p);
                                     Reader.endianness_ := Framer.endianness (framer p) |} p));;
  f ← gets (fun s => framer (parsing s));
  if bool_decide (Framer.perspective_ f = IS_CLIENT) && version_flag header then
    pa (ProcessVersionNegotiationPacket header)
  else if reset_flag header then pa (ProcessPublicResetPacket header)
  else if Z.of_nat (length packet) <=? kMaxPacketSize then
    ProcessDataPacket header packet (Z.to_nat kMaxPacketSize)
  else ProcessDataPacket header packet (length packet).

(** [bool ProcessPacket(const QuicEncryptedPacket& packet)] *)
Definition ProcessPacket (packet : list Z) : M (Endpoint E D) bool :=
  pa (modify (fun p => set_reader (Reader.init packet (Framer.endianness (framer p))) p));;
  _ ← pa (visit OnPacket);
  o ← ProcessPublicHeader;
  match o with
  | None => pa (RaiseError QUIC_INVALID_PACKET_HEADER)
  | Some header =>
      ok ← pa (visit (OnUnauthenticatedPublicHeader header));
      if negb ok then mret true
      else
        f ← gets (fun s => framer (parsing s));
        if bool_decide (Framer.perspective_ f = IS_SERVER) && version_flag header &&
           negb (bool_decide (version header = Framer.version_ f)) then
          ok ← pa (visit (OnProtocolVersionMismatch (version header)));
          pa (modify (fun p => match set_version (Framer.visits (framer p)) (version header) with
                               | Some v => set_framer (Framer.with_version (framer p) v) p
                               | None => p
                               end));;
          if negb ok then mret true else process_packet header packet
        else process_packet header packet
  end.
End Endpoints.

(** ** Building packets without frames *)

(** The statements on the writer of the static functions; null on failure. *)
Definition built_packet (len : nat) (m : M Writer.Writer bool) : M unit (option (list Z)) :=
  match m (Writer.init (replicate len 0) NETWORK_BYTE_ORDER) with
  | Ret true w => mret (Some (Writer.buffer_ w))
  | Ret false _ => mret None
  | Crash c => crashed c
  end.

(** [for (const ParsedQuicVersion& version : versions)] *)
Fixpoint write_versions (versions : list ParsedQuicVersion) : M Writer.Writer bool :=
  match versions with
  | [] => mret true
  | v :: versions => Writer.WriteTag (swap 4 (CreateQuicVersionLabel v)) &; write_versions versions
  end.

(** [BuildVersionNegotiationPacket(connection_id, ietf_quic, versions)] where
    [ietf_quic] is false *)
Definition BuildVersionNegotiationPacket (connection_id : Z) (versions : list ParsedQuicVersion) : M unit (option (list Z)) :=
  let len := Z.to_nat (kPublicFlagsSize + 8 + Z.of_nat (length versions) * kQuicVersionSize) in
  let flags := Z.lor (Z.lor PACKET_PUBLIC_FLAGS_VERSION PACKET_PUBLIC_FLAGS_8BYTE_CONNECTION_ID)
                 PACKET_PUBLIC_FLAGS_8BYTE_CONNECTION_ID_OLD in
  built_packet len (Writer.WriteUInt8 flags &; Writer.WriteConnectionId connection_id &; write_versions versions).

(** [BuildPublicResetPacket(packet)] *)
Definition BuildPublicResetPacket (connection_id nonce_proof : Z) (client_address : option QuicSocketAddress) :
    M unit (option (list Z)) :=
  let reset := Message.SetValue 8 kRNON nonce_proof (Message.set_tag kPRST Message.init) in
  let reset :=
    match client_address with
    | None => Some reset
    | Some a => match Encode a with [] => None | s => Some (Message.SetStringPiece kCADR s reset) end
    end in
  match reset with
  | None => mret None
  | Some reset =>
      match GetSerialized reset with
      | Crash c => crashed c
      | Ret reset_serialized _ =>
          let len := Z.to_nat (kPublicFlagsSize + 8 + Z.of_nat (length reset_serialized)) in
          let flags := Z.lor (Z.lor PACKET_PUBLIC_FLAGS_RST PACKET_PUBLIC_FLAGS_8BYTE_CONNECTION_ID)
                         PACKET_PUBLIC_FLAGS_8BYTE_CONNECTION_ID_OLD in
          built_packet len (Writer.WriteUInt8 flags &; Writer.WriteConnectionId connection_id &;
                            Writer.WriteBytes reset_serialized)
      end
  end.
