(* ===== verification/PacketSafety.v ===== *)
(** Packets that may hold anything: whatever bytes arrive, the framer comes to an
    end inside the packet, and where it gives up it says why. *)

From S2P Require Import Prelude World QuicData Wire IntervalSet Crypter ReaderSafety PacketNumberQueue Framer FrameWriter.
From S2P Require Import FrameReader FrameWire FrameRead Handshake HandshakeTrip HandshakeSafety PacketFramer.

Create HintDb sound.

(** ** Runs of the framer *)

(** [m] goes on in the packet or fails; the only fault is one of signed
    arithmetic, in the time stamps of an ack. *)
Definition sound {A} (m : M Parsing A) : Prop := forall p, within (reader p) ->
  mild (m p) (fun _ p' => further (reader p) (reader p')).

Lemma sound_ret {A} (x : A) : sound (mret x).
Proof. intros p Hp. by apply further_refl. Qed.

Lemma sound_bind {A B} (m : M Parsing A) (k : A -> M Parsing B) : sound m -> (forall x, sound (k x)) -> sound (m ≫= k).
Proof.
  intros Hm Hk p Hp. apply mild_then. eapply mild_mono; [by apply Hm|]. cbv beta. intros x p' Hf.
  eapply mild_mono; [apply Hk, (further_within _ _ Hf)|]. cbv beta. intros _ p''. by apply further_trans.
Qed.

Lemma sound_bind_some {A B} (m : M Parsing (option A)) (k : A -> M Parsing (option B)) :
  sound m -> (forall x, sound (k x)) -> sound (bind_some m k).
Proof. intros Hm Hk. apply sound_bind; [done|]. intros [x|]; [apply Hk|apply sound_ret]. Qed.

Lemma sound_gets {A} (g : Parsing -> A) : sound (gets g).
Proof. intros p Hp. by apply further_refl. Qed.

Lemma sound_get : sound get.
Proof. intros p Hp. by apply further_refl. Qed.

Lemma sound_framer (g : Parsing -> Parsing) : (forall p, reader (g p) = reader p) -> sound (modify g).
Proof. intros Hg p Hp. cbn. rewrite Hg. by apply further_refl. Qed.

Lemma sound_rd {A} (m : M Reader.Reader A) : moves m -> sound (rd m).
Proof.
  intros Hm p Hp. unfold rd, zoom. cbn [view reader_lens]. specialize (Hm (reader p) Hp).
  by destruct (m (reader p)).
Qed.

Lemma sound_error d : sound (set_detailed_error d).
Proof. by apply sound_framer. Qed.

Lemma sound_int64 {S A} x (k : Z -> M S A) s Q : (forall y, mild (k y s) Q) -> mild ((int64_op x ≫= k) s) Q.
Proof. intros Hk. apply mild_then. unfold int64_op. destruct (_ && _); cbn; [apply Hk|done]. Qed.

Lemma sound_op {A} x (k : Z -> M Parsing A) : (forall y, sound (k y)) -> sound (int64_op x ≫= k).
Proof. intros Hk p Hp. apply sound_int64. intros y. by apply Hk. Qed.

#[export] Hint Resolve sound_ret sound_gets sound_get sound_error : sound.

Lemma sound_fail {A} d : sound (@fail A d).
Proof. unfold fail. apply sound_bind; intros; auto with sound. Qed.

Lemma sound_read {A} (m : M Reader.Reader (option A)) d : moves m -> sound (read m d).
Proof.
  intros Hm. unfold read. apply sound_bind; [by apply sound_rd|]. intros [x|]; [auto with sound|apply sound_fail].
Qed.

#[export] Hint Resolve sound_fail : sound.
#[export] Hint Extern 1 (sound (read _ _)) => apply sound_read; auto with posix_quic : sound.
#[export] Hint Extern 1 (sound (rd _)) => apply sound_rd; auto with posix_quic : sound.

(** Goes through the statements of a function. *)
Ltac goes :=
  repeat first
    [ progress auto with sound
    | apply sound_op; intros
    | apply sound_bind_some; intros
    | apply sound_bind; intros
    | apply sound_framer; intros; reflexivity
    | match goal with
      | |- sound (if ?b then _ else _) => destruct b
      | |- sound (match ?x with _ => _ end) => destruct x
      | |- sound (let '(_, _) := ?x in _) => destruct x
      end ].

Lemma sound_transport : sound transport.
Proof. apply sound_gets. Qed.
#[export] Hint Resolve sound_transport : sound.

Lemma sound_stream frame_type : sound (ProcessStreamFrame frame_type).
Proof. unfold ProcessStreamFrame. goes. Qed.

Lemma sound_stop_waiting header : sound (ProcessStopWaitingFrame header).
Proof. unfold ProcessStopWaitingFrame. goes. Qed.

Lemma sound_rst_stream : sound ProcessRstStreamFrame.
Proof. unfold ProcessRstStreamFrame. goes. Qed.

Lemma sound_connection_close : sound ProcessConnectionCloseFrame.
Proof. unfold ProcessConnectionCloseFrame. goes. Qed.

Lemma sound_goaway : sound ProcessGoAwayFrame.
Proof. unfold ProcessGoAwayFrame. goes. Qed.

Lemma sound_window_update : sound ProcessWindowUpdateFrame.
Proof. unfold ProcessWindowUpdateFrame. goes. Qed.

Lemma sound_blocked : sound ProcessBlockedFrame.
Proof. unfold ProcessBlockedFrame. goes. Qed.

(** Padding is counted to its end. *)
Lemma moves_padding fuel : forall n r, within r -> (Reader.BytesRemaining r <= fuel)%nat ->
  terminates_in (padding_loop fuel n r) (fun _ r' => further r r').
Proof.
  induction fuel as [|fuel IH]; intros n r Hr Hf; cbn [padding_loop]; apply total_bind; cbn [get terminates_in].
  all: unfold Reader.IsDoneReading, within, Reader.BytesRemaining in *.
  all: destruct (Nat.eqb_spec (Reader.len_ r) (Reader.pos_ r)) as [E|E]; cbn [negb andb]; [by apply further_refl; unfold within; lia|].
  - lia.
  - destruct (_ =? 0); [|by apply further_refl]. apply total_bind.
    eapply total_mono; [by apply (consumes_bytes 1)|]. cbv beta. intros o r' [Hfu Hx].
    destruct o as [b|]; [|unfold Reader.BytesRemaining in Hx; lia].
    eapply total_mono; [apply IH; [apply Hfu|]|].
    + unfold Reader.BytesRemaining, Reader.len_ in *. destruct Hfu as (-> & _). lia.
    + cbv beta. intros _ r''. by apply further_trans.
Qed.

Lemma sound_padding : sound ProcessPaddingFrame.
Proof.
  unfold ProcessPaddingFrame. apply sound_bind; [auto with sound|]. intros v p Hp. apply mild_then. cbn [gets mild].
  destruct (v <=? 37).
  - assert (sound (rd Reader.ReadRemainingPayload;; mret (int32 (Z.of_nat (Reader.BytesRemaining (reader p)) + 1)))) as H by goes.
    by apply H.
  - unfold rd, zoom. cbn [view reader_lens].
    pose proof (moves_padding (Reader.BytesRemaining (reader p)) 1 (reader p) Hp (le_n _)) as H.
    by destruct (padding_loop _ 1 (reader p)).
Qed.

Lemma sound_times n : forall a, sound (times_loop n a).
Proof. induction n as [|n IH]; intros a; cbn [times_loop]; goes. Qed.

Section Visitor.
Context `{HV : !FramerVisitor}.

Lemma sound_visit v : sound (visit v).
Proof. unfold visit. goes. Qed.
#[local] Hint Resolve sound_visit : sound.

Lemma sound_raise e : sound (RaiseError e).
Proof. unfold RaiseError. goes. Qed.
#[local] Hint Resolve sound_raise : sound.

Lemma sound_blocks len n : forall first a, sound (ack_blocks_loop len n first a).
Proof. induction n as [|n IH]; intros first a; cbn [ack_blocks_loop]; goes. Qed.
#[local] Hint Resolve sound_blocks sound_times : sound.

Lemma sound_timestamps n a : sound (ProcessTimestampsInAckFrame n a).
Proof. unfold ProcessTimestampsInAckFrame. goes. Qed.
#[local] Hint Resolve sound_timestamps : sound.

Lemma sound_ack_blocks b len largest delay n t : sound (process_ack_blocks b len largest delay n t).
Proof. unfold process_ack_blocks, read_num_ack_blocks, read_num_received_packets. goes. Qed.
#[local] Hint Resolve sound_ack_blocks : sound.

Lemma sound_ack frame_type : sound (ProcessAckFrame frame_type).
Proof. unfold ProcessAckFrame, read_num_ack_blocks, read_num_received_packets. goes. Qed.

(** ** One frame *)

(** As [sound]; and where the answer is to give up, there is an error. *)
Definition explains {A} (gives_up : A -> Prop) (m : M Parsing A) : Prop := forall p, within (reader p) ->
  mild (m p) (fun o p' => further (reader p) (reader p') /\ (gives_up o -> Framer.error_ (framer p') <> 0)).

Lemma explains_bind {A B} (m : M Parsing A) (k : A -> M Parsing B) gives_up :
  sound m -> (forall x, explains gives_up (k x)) -> explains gives_up (m ≫= k).
Proof using Type.
  intros Hm Hk p Hp. apply mild_then. eapply mild_mono; [by apply Hm|]. cbv beta. intros x p' Hf.
  eapply mild_mono; [apply Hk, (further_within _ _ Hf)|]. cbv beta. intros o p'' [Hf' He]. split; [|done].
  by eapply further_trans.
Qed.

Definition gives_up (o : option bool) : Prop := o = Some false.

Lemma explains_raise e : e <> 0 -> explains gives_up (raise e).
Proof using Type. intros He p Hp. cbn. split; [by apply further_refl|done]. Qed.

Lemma explains_tell v : explains gives_up (tell v).
Proof using Type. intros p Hp. cbn. split; [by apply further_refl|]. destruct (answer _ v); by unfold gives_up. Qed.

Lemma explains_none : explains gives_up (mret None).
Proof using Type. intros p Hp. cbn. split; [by apply further_refl|by unfold gives_up]. Qed.

Lemma explains_process m e : sound m -> e <> 0 -> explains gives_up (process m e).
Proof using Type.
  intros Hm He. unfold process. apply explains_bind; [done|]. intros [v|]; [apply explains_tell|by apply explains_raise].
Qed.

Lemma explains_frame header frame_type : explains gives_up (process_frame header frame_type).
Proof using Type.
  unfold process_frame. apply explains_bind; [auto with sound|]. intros v.
  repeat match goal with |- explains _ (if ?b then _ else _) => destruct b end.
  all: try (apply explains_process; [|done]); auto using explains_tell, explains_raise, sound_stop_waiting, sound_rst_stream,
    sound_connection_close, sound_goaway, sound_window_update, sound_blocked.
  all: try (apply explains_bind; [auto with sound|intros; by apply explains_raise]).
  - apply explains_bind; [apply sound_stream|]. intros [s|]; [apply explains_tell|by apply explains_raise].
  - apply explains_bind; [apply sound_ack|]. intros [a|]; [|by apply explains_raise].
    apply explains_bind; [auto with sound|]. intros f. destruct (negb _); [apply explains_tell|apply explains_none].
  - apply explains_bind; [apply sound_padding|]. intros n. apply explains_tell.
Qed.

(** ** All frames *)

Lemma explains_frames header fuel : forall p, within (reader p) -> (Reader.BytesRemaining (reader p) <= fuel)%nat ->
  mild (frames_loop header fuel p) (fun ok p' => further (reader p) (reader p') /\ (ok = false -> Framer.error_ (framer p') <> 0)).
Proof using Type.
  induction fuel as [|fuel IH]; intros p Hp Hf; cbn [frames_loop]; apply mild_then; cbn [get mild].
  all: destruct (Reader.IsDoneReading (reader p)) eqn:Ed; [split; [by apply further_refl|done]|].
  all: unfold Reader.IsDoneReading in Ed; apply Nat.eqb_neq in Ed; unfold within in Hp.
  - unfold Reader.BytesRemaining in Hf. lia.
  - assert (1 <= Reader.BytesRemaining (reader p))%nat as H1 by (unfold Reader.BytesRemaining; lia).
    apply mild_then. unfold rd, zoom. cbn [view reader_lens].
    pose proof (consumes_bytes 1 (reader p) Hp) as Hb. destruct (Reader.ReadBytes 1 (reader p)) as [o r|]; [|done].
    destruct Hb as [Hfu Hpos]. destruct o as [b|]; [|lia]. cbn [mild put reader_lens]. apply mild_then.
    eapply mild_mono; [apply explains_frame, Hfu|]. cbv beta. cbn [set_reader reader]. intros o p1 [Hf1 He].
    destruct o as [ok|].
    + split; [by eapply further_trans|]. intros ->. by apply He.
    + eapply mild_mono; [apply IH; [apply Hf1|]|].
      * apply further_remaining in Hf1. unfold Reader.BytesRemaining, Reader.len_ in *. destruct Hfu as (Hd & _).
        rewrite Hd in Hf1. lia.
      * cbv beta. intros ok p' [Hf' He']. split; [|done]. eapply further_trans; [exact Hfu|]. by eapply further_trans.
Qed.

Lemma explains_data header : explains (fun ok => ok = false) (ProcessFrameData header).
Proof using Type.
  intros p Hp. unfold ProcessFrameData. apply mild_then. cbn [get mild].
  destruct (Reader.IsDoneReading (reader p)); [|by apply explains_frames].
  cbn. split; [by apply further_refl|done].
Qed.

(** ** Packets *)

Context {E D : Type} `{!Encrypter E, !Decrypter D, !VersionVisitor} (tls : bool).
Implicit Types s : Endpoint E D.

(** [m] keeps the reader inside its data and gives [Q]. *)
Definition safe {A} (Q : A -> Endpoint E D -> Prop) (m : M (Endpoint E D) A) : Prop := forall s,
  within (reader (parsing s)) -> mild (m s) (fun x s' => within (reader (parsing s')) /\ Q x s').

Notation any := (fun _ _ => True).

Lemma safe_done {A} (x : A) : safe any (mret x).
Proof using Type. by intros s Hs. Qed.

Lemma safe_then {A B} (m : M (Endpoint E D) A) (k : A -> M (Endpoint E D) B) Q :
  safe any m -> (forall x, safe Q (k x)) -> safe Q (m ≫= k).
Proof using Type.
  intros Hm Hk s Hs. apply mild_then. eapply mild_mono; [by apply Hm|]. cbv beta. intros x s' [Hs' _]. by apply Hk.
Qed.

Lemma safe_bind_some {A B} (m : M (Endpoint E D) (option A)) (k : A -> M (Endpoint E D) (option B)) :
  safe any m -> (forall x, safe any (k x)) -> safe any (bind_some m k).
Proof using Type. intros Hm Hk. apply safe_then; [done|]. intros [x|]; [apply Hk|apply safe_done]. Qed.

Lemma safe_pa {A} (m : M Parsing A) : sound m -> safe any (pa m).
Proof using Type.
  intros Hm s Hs. unfold pa, zoom. cbn [view parsing_lens]. specialize (Hm (parsing s) Hs).
  destruct (m (parsing s)); [|done]. split; [|done]. by eapply further_within.
Qed.

Lemma safe_got {A} (g : Endpoint E D -> A) : safe any (gets g).
Proof using Type. by intros s Hs. Qed.

Lemma safe_whole : safe any get.
Proof using Type. by intros s Hs. Qed.

Lemma safe_changed (g : Endpoint E D -> Endpoint E D) : (forall s, parsing (g s) = parsing s) -> safe any (modify g).
Proof using Type. intros Hg s Hs. cbn. by rewrite Hg. Qed.

(** A statement that sets a reader. *)
Lemma safe_reader (g : Parsing -> Parsing) : (forall p, within (reader p) -> within (reader (g p))) -> safe any (pa (modify g)).
Proof using Type. intros Hg s Hs. split; [by apply Hg|done]. Qed.

#[local] Hint Resolve safe_done safe_got safe_whole : sound.
#[local] Hint Extern 1 (safe _ (pa _)) => apply safe_pa; auto with sound : sound.

Ltac goes_on :=
  repeat first
    [ progress auto with sound
    | apply safe_pa; solve [goes]
    | apply safe_bind_some; intros
    | apply safe_then; intros
    | apply safe_changed; intros; reflexivity
    | match goal with
      | |- safe _ (if ?b then _ else _) => destruct b
      | |- safe _ (match ?x with _ => _ end) => destruct x
      end ].

Lemma safe_public_header : safe any (ProcessPublicHeader (E := E) (D := D) tls).
Proof using Type.
  unfold ProcessPublicHeader, read_connection_id, read_version, read_nonce, refuse. goes_on.
Qed.

Lemma sound_number header : sound (ProcessUnauthenticatedHeader header).
Proof using Type. unfold ProcessUnauthenticatedHeader, ProcessAndCalculatePacketNumber. goes. Qed.

Lemma safe_payload header packet n : safe any (DecryptPayload (E := E) (D := D) header packet n).
Proof using Type.
  unfold DecryptPayload, try_alternative. goes_on.
  all: try (apply safe_changed; intros s; by destruct (alternative_decrypter_latch_ s)).
Qed.

Lemma versions_loop_moves fuel : forall l r, within r -> (Reader.BytesRemaining r <= fuel)%nat ->
  terminates_in (versions_loop tls fuel l r) (fun _ r' => further r r').
Proof using Type.
  induction fuel as [|fuel IH]; intros l r Hr Hf; cbn [versions_loop]; apply total_bind;
    (eapply total_mono; [by apply consumes_tag|]); cbv beta; intros o r' [Hfu Hx];
    (destruct o as [t|]; [|done]); apply total_bind; cbn [get terminates_in];
    destruct (Reader.IsDoneReading r') eqn:Ed; try done;
    unfold Reader.IsDoneReading in Ed; apply Nat.eqb_neq in Ed; pose proof (further_remaining _ _ Hfu) as Hle.
  - destruct Hfu as (D' & _ & L & W). unfold within, Reader.BytesRemaining, Reader.len_ in *. rewrite D' in *. lia.
  - eapply total_mono; [apply IH; [apply Hfu|]|cbv beta; intros _ r''; by apply further_trans].
    destruct Hfu as (D' & _ & L & W). unfold within, Reader.BytesRemaining, Reader.len_ in *. rewrite D' in *. lia.
Qed.

(** ** What was raised *)

Definition stopped : string := "Visitor asked to stop processing of unauthenticated header.".

(** A packet that was given up has an error, or the visitor stopped it. *)
Definition explained (f : Framer.Framer) : Prop := Framer.error_ f <> 0 \/ Framer.detailed_error_ f = stopped.

Definition accounted (ok : bool) s : Prop := ok = false -> explained (framer (parsing s)).

Lemma safe_raise e : e <> 0 -> safe accounted (pa (RaiseError e)).
Proof using Type. intros He s Hs. cbn. split; [done|]. intros _. by left. Qed.

Lemma safe_true : safe accounted (mret true).
Proof using Type. by intros s Hs. Qed.

Lemma accounts_explains m : explains (fun ok => ok = false) m -> safe accounted (pa m).
Proof using Type.
  intros Hm s Hs. unfold pa, zoom. cbn [view parsing_lens]. specialize (Hm (parsing s) Hs).
  destruct (m (parsing s)) as [ok p|]; [|done]. destruct Hm as [Hf He]. split; [by eapply further_within|].
  intros Hok. left. by apply He.
Qed.

Lemma safe_fails (d : string) e : e <> 0 -> safe accounted (pa (set_detailed_error d;; RaiseError e)).
Proof using Type. intros He s Hs. cbn. split; [done|]. intros _. by left. Qed.

Lemma safe_negotiation header : safe accounted (pa (ProcessVersionNegotiationPacket tls header)).
Proof using Type.
  apply accounts_explains. intros p Hp. unfold ProcessVersionNegotiationPacket. apply mild_then. cbn [gets mild].
  apply mild_then. unfold rd, zoom. cbn [view reader_lens].
  pose proof (versions_loop_moves (Reader.BytesRemaining (reader p)) [] (reader p) Hp (le_n _)) as Hv.
  destruct (versions_loop tls _ [] (reader p)) as [[l|] r|]; [|done..]; cbn in Hv |- *; by split.
Qed.

Lemma safe_reset header : safe accounted (pa (ProcessPublicResetPacket header)).
Proof using Type.
  apply accounts_explains. unfold ProcessPublicResetPacket. apply explains_bind; [apply sound_rd; auto with posix_quic|].
  intros payload. pose proof (ParseMessage_total payload) as Hpm.
  assert (forall d e, e <> 0 -> explains (fun ok => ok = false) (set_detailed_error d;; RaiseError e)) as Hraise.
  { intros d e He p Hp. cbn. split; [by apply further_refl|done]. }
  destruct (CryptoFramer.ParseMessage payload tt) as [[reset|] u|]; [| |done]; [|by apply Hraise].
  destruct (negb _); [by apply Hraise|]. destruct (Message.GetUint64 kRNON reset) as [e n].
  destruct (negb _); [by apply Hraise|]. apply explains_bind; [apply sound_visit|].
  intros _ p Hp. cbn. split; [by apply further_refl|done].
Qed.

(** The packet number is read, or the packet is given up. *)
Lemma number_accounted header s : within (reader (parsing s)) ->
  mild (pa (ProcessUnauthenticatedHeader header) s) (fun o s' => within (reader (parsing s')) /\
    (o = None -> explained (framer (parsing s')))).
Proof using Type.
  intros Hs. unfold pa, zoom. cbn [view parsing_lens]. unfold ProcessUnauthenticatedHeader, ProcessAndCalculatePacketNumber.
  unfold mbind, M_bind, gets, rd, zoom. cbn [view reader_lens].
  pose proof (moves_to_uint64 (Z.to_nat (packet_number_length header)) (reader (parsing s)) Hs) as Hm.
  destruct (Reader.ReadBytesToUInt64 _ (reader (parsing s))) as [o r|]; [|done]. cbn in Hm. apply further_within in Hm.
  destruct o as [w|]; cbn.
  - destruct (_ =? 0); cbn; [split; [done|intros _; by left]|].
    unfold visit, mbind, M_bind. cbn. destruct (answer _ _); cbn; (split; [done|]); [done|]. intros _. by right.
  - split; [done|]. intros _. by left.
Qed.

Lemma safe_data_packet header packet n : safe accounted (ProcessDataPacket (E := E) (D := D) header packet n).
Proof using Type.
  intros s Hs. unfold ProcessDataPacket. apply mild_then. eapply mild_mono; [by apply number_accounted|].
  cbv beta. intros o s1 [Hs1 He]. destruct o as [h|]; [|split; [done|intros _; by apply He]].
  assert (safe accounted (plaintext ← DecryptPayload h packet n;
      match plaintext with
      | None => pa (set_detailed_error "Unable to decrypt payload.";; RaiseError QUIC_DECRYPTION_FAILURE)
      | Some plaintext =>
          pa (modify (fun p => set_reader (Reader.init plaintext (Framer.endianness (framer p))) p));;
          pa (modify (fun p => set_framer (Framer.with_numbers (framer p)
                (Z.max (packet_number h) (Framer.largest_packet_number_ (framer p)))
                (Framer.last_serialized_connection_id_ (framer p)) (Framer.last_version_label_ (framer p))) p));;
          ok ← pa (visit (OnPacketHeader h));
          if negb ok then mret true
          else if Z.of_nat (length packet) >? kMaxPacketSize then pa (RaiseError QUIC_PACKET_TOO_LARGE)
          else
            ok ← pa (ProcessFrameData h);
            if negb ok then mret false
            else _ ← pa (visit OnPacketComplete); mret true
      end)) as Hrest; [|by apply Hrest].
  apply safe_then; [apply safe_payload|]. intros [plaintext|]; [|by apply safe_fails].
  apply safe_then; [apply safe_reader; intros p _; unfold within; cbn; lia|]. intros _.
  apply safe_then; [apply safe_pa; by apply sound_framer|]. intros _.
  apply safe_then; [apply safe_pa, sound_visit|]. intros ok. destruct (negb ok); [apply safe_true|].
  destruct (_ >? _); [by apply safe_raise|].
  intros s2 Hs2. apply mild_then. eapply mild_mono; [by apply accounts_explains; [apply explains_data|]|].
  cbv beta. intros ok2 s3 [Hs3 Ha]. destruct ok2; cbn [negb]; [|split; [done|exact Ha]].
  assert (safe accounted (_ ← pa (visit OnPacketComplete); mret true)) as H2; [|by apply H2].
  apply safe_then; [apply safe_pa, sound_visit|]. intros _. apply safe_true.
Qed.

Lemma safe_packet header packet : safe accounted (process_packet (E := E) (D := D) tls header packet).
Proof using Type.
  unfold process_packet. apply safe_then; [by apply safe_reader|]. intros _. apply safe_then; [apply safe_got|]. intros f.
  destruct (_ && _); [apply safe_negotiation|]. destruct (reset_flag header); [apply safe_reset|].
  destruct (_ <=? _); apply safe_data_packet.
Qed.

(** C8: Whatever bytes arrive and whatever the visitor answers, processing a packet ends
    with the reader inside the packet, and where it answers false an error was raised or the
    visitor stopped it; the one fault it can meet is the signed overflow of a time stamp in
    an ack. *)
Theorem no_packet_derails_the_framer packet s :
  match ProcessPacket tls packet s with
  | Ret ok s' =>
      within (reader (parsing s')) /\
      (ok = false -> Framer.error_ (framer (parsing s')) <> 0 \/ Framer.detailed_error_ (framer (parsing s')) = stopped)
  | Crash c => c = IntOverflow
  end.
Proof using Type.
  set (s1 := set_parsing (set_reader (Reader.init packet (Framer.endianness (framer (parsing s)))) (parsing s)) s).
  assert (within (reader (parsing s1))) as Hs1 by (unfold within; cbn; lia).
  match goal with |- match ?o with Ret ok s' => @?Q ok s' | Crash c => _ end => change (mild o Q) end.
  assert (safe accounted (_ ← pa (visit OnPacket);
    o ← ProcessPublicHeader (E := E) (D := D) tls;
    match o with
    | None => pa (RaiseError QUIC_INVALID_PACKET_HEADER)
    | Some header =>
        ok ← pa (visit (OnUnauthenticatedPublicHeader header));
        if negb ok then mret true
        else
          f ← gets (fun s => framer (parsing s));
          if bool_decide (Framer.perspective_ f = IS_SERVER) && version_flag header &&
             negb (bool_decide (version header = Framer.version_ f)) then
            ok ← pa (visit (OnProtocolVersionMismatch (version header)));
            pa (modify (fun p => match set_version (Framer.visits (framer p)) (version header) with
                                 | Some v => set_framer (Framer.with_version (framer p) v) p
                                 | None => p
                                 end));;
            if negb ok then mret true else process_packet tls header packet
          else process_packet tls header packet
    end)) as Hrest; [|exact (Hrest s1 Hs1)].
  apply safe_then; [apply safe_pa, sound_visit|]. intros _. apply safe_then; [apply safe_public_header|].
  intros [header|]; [|by apply safe_raise]. apply safe_then; [apply safe_pa, sound_visit|]. intros ok.
  destruct (negb ok); [apply safe_true|]. apply safe_then; [apply safe_got|]. intros f.
  destruct (_ && _); [|apply safe_packet]. apply safe_then; [apply safe_pa, sound_visit|]. intros ok2.
  apply safe_then; [apply safe_pa, sound_framer; intros p; by destruct (set_version _ _)|]. intros _.
  destruct (negb ok2); [apply safe_true|apply safe_packet].
Qed.
End Visitor.
