(* ===== verification/PacketNumberWire.v ===== *)
(** Packet numbers are recovered from the low bytes that are sent of them. *)

From S2P Require Import Prelude World QuicData Wire IntervalSet PacketNumberQueue Framer FrameWriter FrameReader.

(** ** Packet numbers *)

Lemma closest_first t a b : Delta t a < Delta t b -> ClosestTo t a b = a.
Proof. unfold ClosestTo. intros H. by rewrite (proj2 (Z.ltb_lt _ _)). Qed.

Lemma closest_second t a b : Delta t b <= Delta t a -> ClosestTo t a b = b.
Proof. unfold ClosestTo. intros H. by rewrite (proj2 (Z.ltb_ge _ _)). Qed.

Lemma Delta_abs a b : 0 <= a < 2 ^ 64 -> 0 <= b < 2 ^ 64 -> Delta a b = Z.abs (a - b).
Proof. intros Ha Hb. unfold Delta. destruct (Z.ltb_spec a b); rewrite uint64_small; lia. Qed.

(** The start of the epoch of [base]. *)
Lemma epoch_start base k : 0 <= base < 2 ^ 64 -> 0 <= k < 64 ->
  Z.land base (uint64 (Z.lnot (uint64 (uint64 (Z.shiftl 1 k) - 1)))) = base - base mod 2 ^ k.
Proof.
  intros Hb Hk. assert (0 < 2 ^ k) by (apply Z.pow_pos_nonneg; lia).
  assert (2 ^ k <= 2 ^ 63) as Hk63 by (apply Z.pow_le_mono_r; lia).
  rewrite Z.shiftl_1_l, (uint64_small (2 ^ k)), (uint64_small (2 ^ k - 1)) by lia.
  unfold uint64, wrap_u. rewrite <- Z.land_ones by done.
  rewrite (Z.land_comm (Z.lnot _)), Z.land_assoc, Z.land_ones, Z.mod_small by (done || lia).
  rewrite <- Z.ldiff_land. replace (2 ^ k - 1) with (Z.ones k) by (rewrite Z.ones_equiv; lia).
  rewrite Z.ldiff_ones_r, Z.shiftl_mul_pow2, Z.shiftr_div_pow2 by lia.
  pose proof (Z.div_mod base (2 ^ k)). lia.
Qed.

Lemma number_recovered packet_number_length base n :
  packet_number_length ∈ [1; 2; 4; 6] -> 0 <= base < 2 ^ 62 -> 0 <= n < 2 ^ 62 ->
  2 * Z.abs (n - (base + 1)) < 256 ^ packet_number_length ->
  CalculatePacketNumberFromWire packet_number_length base (n mod 256 ^ packet_number_length) = n.
Proof.
  intros Hl Hb Hn Hclose. unfold CalculatePacketNumberFromWire.
  assert (256 ^ packet_number_length = 2 ^ (8 * packet_number_length)) as Hpow
    by (set_unfold in Hl; change 256 with (2 ^ 8); rewrite <- Z.pow_mul_r; [done|lia|lia]).
  assert (8 <= 8 * packet_number_length <= 48) as Hk by (set_unfold in Hl; lia).
  rewrite Hpow in *. set (k := 8 * packet_number_length) in *.
  assert (2 ^ k <= 2 ^ 48) as Hd by (apply Z.pow_le_mono_r; lia).
  assert (2 <= 2 ^ k) as Hd2 by (change 2 with (2 ^ 1) at 1; apply Z.pow_le_mono_r; lia).
  rewrite epoch_start by lia. rewrite Z.shiftl_1_l, (uint64_small (2 ^ k)) by lia. clearbody k. clear Hl Hpow Hk packet_number_length.
  set (d := 2 ^ k) in *. clearbody d.
  pose proof (Z.mod_pos_bound base d). pose proof (Z.mod_pos_bound n d).
  pose proof (Z.div_mod base d). pose proof (Z.div_mod n d).
  set (bq := base / d) in *. set (nq := n / d) in *. set (br := base mod d) in *. set (nr := n mod d) in *.
  assert (base - br = d * bq) as -> by lia. clearbody bq nq br nr.
  assert (0 <= bq) by nia. assert (0 <= nq) by nia.
  assert (nq = bq - 1 \/ nq = bq \/ nq = bq + 1) as Hcases by nia.
  rewrite (uint64_small (base + 1)), (uint64_small (d * bq + nr)), (uint64_small (d * bq + d)), (uint64_small (d * bq + d + nr)) by nia.
  assert (uint64 (uint64 (d * bq - d) + nr) = if decide (bq = 0) then 2 ^ 64 - d + nr else d * bq - d + nr) as ->.
  { case_decide as E; [|rewrite (uint64_small (d * bq - d)), uint64_small; nia].
    rewrite E, Z.mul_0_r. unfold uint64, wrap_u. replace (0 - d) with (2 ^ 64 - d + (-1) * 2 ^ 64) by lia.
    rewrite Z.mod_add, (Z.mod_small (2 ^ 64 - d)), Z.mod_small by lia. lia. }
  set (prev := if decide (bq = 0) then _ else _).
  assert (0 <= prev < 2 ^ 64) as Hp by (unfold prev; case_decide; nia).
  destruct Hcases as [E|[E|E]]; subst nq.
  - assert (prev = n) as Eprev by (unfold prev; case_decide; nia). rewrite Eprev in *.
    rewrite (closest_first _ n), closest_second; [done|rewrite !Delta_abs; nia..].
  - rewrite closest_first; [lia|]. unfold ClosestTo. destruct (_ <? _).
    + rewrite !Delta_abs by nia. unfold prev. case_decide; nia.
    + rewrite !Delta_abs by nia. nia.
  - rewrite (closest_second _ prev), closest_second; [lia|rewrite !Delta_abs by nia..].
    + nia.
    + unfold prev. case_decide; nia.
Qed.

(** A packet number of which only the low bytes were sent is recovered from the largest
    one seen, as long as it is within half the range of those bytes of the number expected
    next. *)
Theorem a_packet_number_is_recovered packet_number_length base n :
  packet_number_length ∈ [1; 2; 4; 6] -> 0 <= base < 2 ^ 62 -> 0 <= n < 2 ^ 62 ->
  2 * Z.abs (n - (base + 1)) < 256 ^ packet_number_length ->
  CalculatePacketNumberFromWire packet_number_length base (n mod 256 ^ packet_number_length) = n.
Proof. exact (number_recovered packet_number_length base n). Qed.

Lemma a_packet_number_is_recovered_witness :
  CalculatePacketNumberFromWire 1 1000 (1100 mod 256) = 1100 /\ CalculatePacketNumberFromWire 2 65535 (65530 mod 65536) = 65530.
Proof.
  split; [apply (a_packet_number_is_recovered 1 1000 1100)|apply (a_packet_number_is_recovered 2 65535 65530)];
    first [set_solver|lia].
Defined.
