(* ===== verification/SessionProducer.v ===== *)
(** The session as the producer of stream data: [QuicSession::WriteStreamData]
    (libquic/net/quic/core/quic_session.cc, quic_stream.cc) finds the stream and
    lets its send buffer copy the bytes.  The send buffers keep the promise that
    the framer relies on. *)

From S2P Require Import Prelude World QuicData Wire IntervalSet Intervals SendBuffer Sending PacketNumberQueue Framer.
From S2P Require Import FrameWriter FrameWire AckWire FrameBuild.

(** The streams of a session, each by its send buffer. *)
Record SessionStreams : Type := { streams : gmap Z SendBuffer.SendBuffer }.

(** [bool QuicSession::WriteStreamData(id, offset, data_length, writer)] with
    [QuicStream::WriteStreamData] *)
Definition write_stream_data (id offset data_length : Z) (w : Writer.Writer) : M SessionStreams (bool * Writer.Writer) :=
  s ← get;
  match streams s !! id with
  | None => mret (false, w)
  | Some b =>
      match SendBuffer.WriteStreamData offset data_length w b with
      | Ret r b => modify (fun s => {| streams := <[id := b]> (streams s) |});; mret r
      | Crash c => crashed c
      end
  end.

#[export] Instance session_producer : StreamFrameDataProducer SessionStreams := write_stream_data.

(** The pieces are data of their streams that may go into packets now, one after
    the other. *)
Fixpoint pieces_ready (A : gmap Z Sending) (l : list (Z * Z * list Z)) : Prop :=
  match l with
  | [] => True
  | (id, o, d) :: l =>
      exists a, A !! id = Some a /\ may_write o (len d) a /\ d = bytes (saved a) o (len d) /\
        pieces_ready (<[id := put_in_packet o (len d) a]> A) l
  end.

(** The buffers stand for what the streams were given. *)
Definition stand_for (A : gmap Z Sending) (s : SessionStreams) : Prop :=
  forall id a, A !! id = Some a -> exists b, streams s !! id = Some b /\ represents a b.

#[export, program] Instance session_supplier : Supplier SessionStreams := {
  supplies s l := exists A, stand_for A s /\ pieces_ready A l
}.
Next Obligation.
  intros s id o d rest w (A & Hs & a & Ha & Hm & Hd & Hrest) Hf.
  destruct (Hs id a Ha) as (b & Hb & Hr).
  destruct (WriteStreamData_spec o (len d) w a b Hr Hm) as (b' & E & Hr'); [unfold len; by rewrite Nat2Z.id|].
  rewrite <- Hd in E. exists {| streams := <[id := b']> (streams s) |}. split.
  - unfold WriteStreamData, session_producer, write_stream_data, mbind, M_bind, get. rewrite Hb.
    fold (len d). by rewrite E.
  - exists (<[id := put_in_packet o (len d) a]> A). split; [|done]. intros id' a'.
    destruct (decide (id' = id)) as [->|Hne].
    + rewrite lookup_insert_eq. intros [= <-]. exists b'. cbn [streams]. by rewrite lookup_insert_eq.
    + rewrite lookup_insert_ne by done. intros Ha'. destruct (Hs id' a' Ha') as (b0 & Hb0 & Hr0).
      exists b0. cbn [streams]. by rewrite lookup_insert_ne by done.
Qed.
