(* ===== verification/PacketTrip.v ===== *)
(** Packets from one endpoint to the other: headers are read as they were
    written, and a packet that was built and sealed by one framer is opened and reported by the other. *)

From S2P Require Import Prelude World QuicData Wire IntervalSet Intervals Crypter PacketNumberQueue PacketNumbers.
From S2P Require Import Framer FrameWriter FrameReader FrameWire AckWire FrameBuild FrameRead AckRead FrameData Handshake PacketNumberWire.
From S2P Require Import SendBuffer Sending PacketFramer SessionProducer.

(** ** Version labels *)

Definition supported (tls : bool) (v : ParsedQuicVersion) : Prop :=
  transport_version v ∈ kSupportedTransportVersions /\
  (handshake_protocol v = PROTOCOL_QUIC_CRYPTO \/ tls = true /\ handshake_protocol v = PROTOCOL_TLS1_3).

Lemma version_label_parsed tls v : supported tls v -> ParseQuicVersionLabel tls (CreateQuicVersionLabel v) = v.
Proof.
  destruct v as [p n]. intros [Hn Hp]. cbn [transport_version handshake_protocol] in *. unfold kSupportedTransportVersions in Hn.
  assert (p = PROTOCOL_QUIC_CRYPTO \/ tls = true /\ p = PROTOCOL_TLS1_3) as [->|[-> ->]] by done;
    repeat (apply elem_of_cons in Hn as [->|Hn]); try (by apply elem_of_nil in Hn); [destruct tls..| | | | | | | |]; reflexivity.
Qed.

Lemma version_label_range v : 0 <= CreateQuicVersionLabel v < 2 ^ 32.
Proof. unfold CreateQuicVersionLabel. repeat case_match; vm_compute; split; done. Qed.

(** ** Headers *)

(** The bytes of a header that [p] sends. *)
Definition header_wire (p : Perspective) (v : ParsedQuicVersion) (h : QuicPacketHeader) : list Z :=
  let flags := Z.lor (header_flags h) (if connection_id_length h =? 0 then 0
                                       else if decide (p = IS_CLIENT) then 12 else 8) in
  store 1 flags ++
  (if connection_id_length h =? 0 then [] else rev (store 8 (connection_id h))) ++
  (if version_flag h then rev (store 4 (CreateQuicVersionLabel v)) else []) ++
  match nonce h with Some n => n | None => [] end ++
  enc_uint (Framer.endianness_of (transport_version v)) (Z.to_nat (packet_number_length h)) (packet_number h).

(** A header that [p] sends: no reset; clients announce versions, servers nonces. *)
Record sendable_header (p : Perspective) (h : QuicPacketHeader) : Prop := {
  sh_id_length : connection_id_length h = 0 \/ connection_id_length h = 8;
  sh_id : u64 (connection_id h);
  sh_reset : reset_flag h = false;
  sh_version : version_flag h = true -> p = IS_CLIENT;
  sh_nonce : match nonce h with Some n => p = IS_SERVER /\ length n = 32%nat | None => True end;
  sh_length : packet_number_length h ∈ [1; 2; 4; 6]
}.

Lemma header_flags_ok p h : sendable_header p h ->
  let flags := Z.lor (header_flags h) (if connection_id_length h =? 0 then 0
                                       else if decide (p = IS_CLIENT) then 12 else 8) in
  0 <= flags <= 63 /\ has flags 2 = false /\ has flags 1 = version_flag h /\
  (Z.land flags 8 =? 8) = negb (connection_id_length h =? 0) /\
  ReadSequenceNumberLength (Z.shiftr flags 4) = packet_number_length h /\
  (has flags 4 && negb (has flags 1) && negb (has flags 2) && bool_decide (peer p = IS_CLIENT)) =
    match nonce h with Some _ => true | None => false end.
Proof.
  intros [Hi _ Hr Hv Hn Hl]. unfold header_flags. rewrite Hr.
  generalize dependent (packet_number_length h). intros k Hk.
  assert (version_flag h = false \/ p = IS_CLIENT) as Hv' by (destruct (version_flag h); auto). clear Hv.
  assert (nonce h = None \/ p = IS_SERVER) as Hn' by (destruct (nonce h); [right; apply Hn|by left]). clear Hn.
  repeat (apply elem_of_cons in Hk as [->|Hk]); try (by apply elem_of_nil in Hk);
    destruct Hi as [-> | ->], (nonce h), (version_flag h), p;
    try (destruct Hv'; discriminate); try (destruct Hn'; discriminate); vm_compute; split_and!; done || (split; done).
Qed.

Section Build.
Context {P : Type} `{HS : Supplier P}.

(** [f] with the id of the header it wrote last. *)
Definition wrote_header (h : QuicPacketHeader) (f : Framer.Framer) : Framer.Framer :=
  Framer.with_numbers f (Framer.largest_packet_number_ f) (connection_id h) (Framer.last_version_label_ f).

Lemma writes_connection_id e id : writes e (Writer.WriteConnectionId id) (rev (store 8 id)).
Proof using Type. unfold Writer.WriteConnectionId. rewrite store_swap. apply writes_bytes. Qed.

(** One statement of a function that writes, [rest] following it. *)
Lemma wr_then {e m} {k : M (Building P) bool} {bs rest b r} :
  writes e m bs -> Writer.endianness_ (writer b) = e -> fits (writer b) (length (bs ++ rest)) ->
  (fits (append (writer b) bs) (length rest) -> k (set_writer (append (writer b) bs) b) = r) -> (wr m &; k) b = r.
Proof using Type.
  intros Hm He Hf Hk. rewrite length_app in Hf. unfold and_then, mbind, M_bind.
  rewrite (wr_ok e _ bs) by (done || unfold fits in *; lia). apply Hk. by apply append_fits.
Qed.

Lemma wr_nothing (b : Building P) : wr (mret true) b = Ret true b.
Proof using Type. by destruct b. Qed.

(** The flags and the connection id. *)
Lemma flags_built f (b : Building P) h :
  let p := Framer.perspective_ f in
  let flags := Z.lor (header_flags h) (if connection_id_length h =? 0 then 0 else if decide (p = IS_CLIENT) then 12 else 8) in
  let bs := store 1 flags ++ (if connection_id_length h =? 0 then [] else rev (store 8 (connection_id h))) in
  sendable_header p h -> fits (writer b) (length bs) ->
  (if connection_id_length h =? 0 then wr (Writer.WriteUInt8 (Z.lor (header_flags h) 0))
   else if connection_id_length h =? 8 then
     let public_flags := Z.lor (header_flags h) 8 in
     let public_flags := if decide (Framer.perspective_ f = IS_CLIENT) then Z.lor public_flags 12 else public_flags in
     wr (Writer.WriteUInt8 public_flags) &; wr (Writer.WriteConnectionId (connection_id h))
   else mret true) b = Ret true (set_writer (append (writer b) bs) b).
Proof using Type.
  intros p flags bs Hh Hf. unfold bs, flags in *. fold p. destruct (sh_id_length _ _ Hh) as [E|E]; rewrite E in *.
  - rewrite app_nil_r in *. apply (wr_ok (Writer.endianness_ (writer b))); [apply writes_uint8|done|done].
  - change (8 =? 0) with false in *. change (8 =? 8) with true. cbv iota in *.
    assert ((if decide (p = IS_CLIENT) then Z.lor (Z.lor (header_flags h) 8) 12 else Z.lor (header_flags h) 8) =
      Z.lor (header_flags h) (if decide (p = IS_CLIENT) then 12 else 8)) as ->
      by (case_decide; [by rewrite <- Z.lor_assoc|done]).
    apply (wr_then (writes_uint8 (Writer.endianness_ (writer b)) _) eq_refl Hf). intros Hf2.
    rewrite (wr_ok (Writer.endianness_ (writer b)) _ (rev (store 8 (connection_id h)))); [|apply writes_connection_id|done|done].
    cbn [set_writer writer]. by rewrite append_app by (by rewrite <- length_app).
Qed.

Lemma header_built f has l (b : Building P) h :
  let bs := header_wire (Framer.perspective_ f) (Framer.version_ f) h in
  ready f has l b -> sendable_header (Framer.perspective_ f) h -> fits (writer b) (length bs) ->
  exists b', AppendPacketHeader h b = Ret true b' /\ writer b' = append (writer b) bs /\ ready (wrote_header h f) has l b'.
Proof.
  intros bs (Hb & He & Hp) Hh Hf. destruct b as [bb dp w]. cbn [builder writer data_producer_] in *. subst bb.
  set (b := {| builder := f; data_producer_ := dp; writer := w |}).
  unfold bs, header_wire in *. cbv zeta in *. set (fl := Z.lor (header_flags h) _) in *.
  set (id := if connection_id_length h =? 0 then [] else _) in *. rewrite (app_assoc (store 1 fl) id) in *.
  set (vl := if version_flag h then _ else _) in *. set (e := Framer.endianness_of _) in *.
  set (pn := enc_uint e _ _) in *. set (no := match nonce h with Some n => n | None => [] end) in *.
  pose proof (flags_built f b h Hh) as Hflags. fold fl id in Hflags. rewrite length_app in Hf.
  assert (fits w (length (store 1 fl ++ id))) as Hf0 by (unfold fits in *; lia). specialize (Hflags Hf0).
  set (b1 := {| builder := wrote_header h f; data_producer_ := dp;
                writer := append w (store 1 fl ++ id) |}).
  assert (fits (writer b1) (length (vl ++ no ++ pn))) as Hf1 by (unfold b1; cbn [writer]; by apply append_fits).
  exists (set_writer (append (writer b1) (vl ++ no ++ pn)) b1). split; [|split].
  - unfold AppendPacketHeader. unfold mbind at 1, M_bind at 1, gets.
    change (builder b) with f. unfold and_then at 1, mbind at 1, M_bind at 1.
    cbv zeta in Hflags |- *. rewrite Hflags. unfold mbind at 1, M_bind at 1, modify.
    change (set_builder _ _) with b1.
    assert (Writer.endianness_ (writer b1) = e) as He1 by done.
    assert (writes e (if version_flag h then Writer.WriteTag (swap 4 (CreateQuicVersionLabel (Framer.version_ f))) else mret true) vl) as Hvl.
    { unfold vl. destruct (version_flag h); [|apply writes_nil]. unfold Writer.WriteTag. rewrite store_swap. apply writes_bytes. }
    assert (writes e match nonce h with Some n => Writer.WriteBytes n | None => mret true end no) as Hno.
    { unfold no. destruct (nonce h); [apply writes_bytes|apply writes_nil]. }
    transitivity ((wr (if version_flag h then Writer.WriteTag (swap 4 (CreateQuicVersionLabel (Framer.version_ f))) else mret true) &;
      wr match nonce h with Some n => Writer.WriteBytes n | None => mret true end &;
      wr (AppendPacketNumber (packet_number_length h) (packet_number h))) b1).
    { unfold and_then, mbind, M_bind. destruct (version_flag h); rewrite ?wr_nothing; [destruct (wr _ b1) as [[] b2|]; try done; set (b' := b2)|
      set (b' := b1)]; destruct (nonce h); rewrite ?wr_nothing; done. }
    apply (wr_then Hvl He1 Hf1). intros Hf2.
    apply (wr_then (b := set_writer (append (writer b1) vl) b1) Hno He1 Hf2). intros Hf3.
    rewrite (wr_ok e _ pn); [|apply writes_packet_number|done|done].
    + unfold b1 in *. cbn [set_writer writer] in *.
      rewrite (append_app _ no pn), (append_app _ vl) by (by rewrite <- length_app). done.
    + pose proof (sh_length _ _ Hh) as Hl. unfold number_length. set_unfold in Hl. lia.
  - unfold b1. cbn [set_writer writer]. by rewrite append_app.
  - split_and!; [done|done|]. exact Hp.
Qed.
End Build.

(** ** Reading headers *)

Lemma reads_bytes e bs n : n = length bs -> reads e (Reader.ReadBytes n) bs bs.
Proof. intros -> pre rest. by apply ReadBytes_ok. Qed.

Lemma load_rev_store n x : load (rev (store n x)) = swap n x.
Proof. rewrite <- store_swap, load_store. apply Z.mod_small, swap_range. Qed.

Lemma reads_connection_id e id : u64 id -> reads e Reader.ReadConnectionId (rev (store 8 id)) id.
Proof.
  intros Hid pre rest. unfold Reader.ReadConnectionId, mbind, M_bind.
  rewrite ReadBytes_ok by (by rewrite length_rev, store_length).
  cbv [fmap option_fmap option_map mret M_ret]. by rewrite load_rev_store, swap_swap.
Qed.

Lemma reads_label e x : reads e Reader.ReadTag (rev (store 4 x)) (swap 4 x).
Proof.
  intros pre rest. unfold Reader.ReadTag, mbind, M_bind. rewrite ReadBytes_ok by (by rewrite length_rev, store_length).
  cbv [fmap option_fmap option_map mret M_ret]. by rewrite load_rev_store.
Qed.

Lemma enc_uint_mod e n x : enc_uint e n (x mod 256 ^ Z.of_nat n) = enc_uint e n x.
Proof. unfold enc_uint. by rewrite store_mod. Qed.

(** The part of a header before the packet number. *)
Definition public_wire (p : Perspective) (v : ParsedQuicVersion) (h : QuicPacketHeader) : list Z :=
  let flags := Z.lor (header_flags h) (if connection_id_length h =? 0 then 0
                                       else if decide (p = IS_CLIENT) then 12 else 8) in
  store 1 flags ++
  (if connection_id_length h =? 0 then [] else rev (store 8 (connection_id h))) ++
  (if version_flag h then rev (store 4 (CreateQuicVersionLabel v)) else []) ++
  match nonce h with Some n => n | None => [] end.

Definition number_wire (v : Z) (h : QuicPacketHeader) : list Z :=
  enc_uint (Framer.endianness_of v) (Z.to_nat (packet_number_length h)) (packet_number h).

Lemma header_wire_split p v h : header_wire p v h = public_wire p v h ++ number_wire (transport_version v) h.
Proof. unfold header_wire, public_wire, number_wire. by rewrite <- !app_assoc. Qed.

Lemma header_wire_length p v h : sendable_header p h ->
  Z.of_nat (length (header_wire p v h)) = GetStartOfEncryptedData h.
Proof.
  intros Hh. rewrite header_wire_split. unfold public_wire, number_wire, GetStartOfEncryptedData, GetPacketHeaderSize,
    kPublicFlagsSize, kQuicVersionSize, kDiversificationNonceSize.
  rewrite !length_app, store_length, enc_uint_length.
  pose proof (sh_length _ _ Hh) as Hl. assert (0 <= packet_number_length h) by (set_unfold in Hl; lia).
  pose proof (sh_nonce _ _ Hh) as Hn.
  destruct (sh_id_length _ _ Hh) as [-> | ->]; cbn [Z.eqb]; destruct (version_flag h), (nonce h);
    rewrite ?length_rev, ?store_length; cbn [length]; try destruct Hn as [_ ->]; lia.
Qed.

Section Read.
Context {E D : Type} `{!Encrypter E, !Decrypter D, HV : !FramerVisitor, !VersionVisitor} (tls : bool).
Implicit Types s : Endpoint E D.

(** The header that the receiver [g] makes of the bytes before the number. *)
Definition public_seen (g : Framer.Framer) (v : ParsedQuicVersion) (h : QuicPacketHeader) : QuicPacketHeader :=
  {| connection_id := if connection_id_length h =? 0 then Framer.last_serialized_connection_id_ g else connection_id h;
     connection_id_length := connection_id_length h; reset_flag := false; version_flag := version_flag h;
     packet_number_length := packet_number_length h;
     version := if version_flag h then v else unsupported_version; nonce := nonce h; packet_number := 0 |}.

(** The receiver after them. *)
Definition seen_label (v : ParsedQuicVersion) (h : QuicPacketHeader) (g : Framer.Framer) : Framer.Framer :=
  if version_flag h
  then Framer.with_numbers g (Framer.largest_packet_number_ g) (Framer.last_serialized_connection_id_ g) (CreateQuicVersionLabel v)
  else g.

Definition seen_nonce (h : QuicPacketHeader) s : Endpoint E D :=
  match nonce h with Some n => set_nonce n s | None => s end.

Lemma pa_read {A B} (m : M Parsing (option A)) (k : A -> M (Endpoint E D) (option B)) f bs x s pre rest :
  parses f m bs x -> bind_some (pa m) k (set_parsing (at_ f pre (bs ++ rest)) s) = k x (set_parsing (at_ f (pre ++ bs) rest) s).
Proof. intros Hm. unfold bind_some, mbind, M_bind, pa, zoom. cbn [view parsing_lens set_parsing parsing]. by rewrite Hm. Qed.

Lemma framer_on {B} (k : Framer.Framer -> M (Endpoint E D) B) f s pre rest :
  (gets (fun s => framer (parsing s)) ≫= k) (set_parsing (at_ f pre rest) s) = k f (set_parsing (at_ f pre rest) s).
Proof. done. Qed.

Lemma connection_id_read {B} (k : Z * Z -> M (Endpoint E D) (option B)) p flags g h s pre rest :
  sendable_header p h -> (Z.land flags 8 =? 8) = negb (connection_id_length h =? 0) ->
  bind_some (read_connection_id flags) k
    (set_parsing (at_ g pre ((if connection_id_length h =? 0 then [] else rev (store 8 (connection_id h))) ++ rest)) s) =
  k (if connection_id_length h =? 0 then Framer.last_serialized_connection_id_ g else connection_id h, connection_id_length h)
    (set_parsing (at_ g (pre ++ (if connection_id_length h =? 0 then [] else rev (store 8 (connection_id h)))) rest) s).
Proof.
  intros Hh Hflags. unfold read_connection_id, PACKET_PUBLIC_FLAGS_8BYTE_CONNECTION_ID. rewrite Hflags.
  destruct (sh_id_length _ _ Hh) as [-> | ->]; cbn [Z.eqb negb]; [by rewrite app_nil_r|].
  unfold bind_some at 1, mbind at 1, M_bind at 1.
  rewrite (pa_read _ _ g (rev (store 8 (connection_id h))) (connection_id h)); [done|].
  apply parses_read, reads_connection_id. apply Hh.
Qed.

Lemma version_read {B} (k : ParsedQuicVersion -> M (Endpoint E D) (option B)) p v flags g h s pre rest :
  sendable_header p h -> flags <= 63 -> Framer.perspective_ g = peer p -> supported tls v ->
  bind_some (read_version tls flags (version_flag h)) k
    (set_parsing (at_ g pre ((if version_flag h then rev (store 4 (CreateQuicVersionLabel v)) else []) ++ rest)) s) =
  k (if version_flag h then v else unsupported_version)
    (set_parsing (at_ (seen_label v h g)
       (pre ++ (if version_flag h then rev (store 4 (CreateQuicVersionLabel v)) else [])) rest) s).
Proof.
  intros Hh Hflags Hp Hv. unfold read_version, seen_label. pose proof (sh_version _ _ Hh) as Hclient.
  destruct (version_flag h); [|cbn; by rewrite app_nil_r]. rewrite Hclient in Hp by done.
  unfold bind_some at 1, mbind at 1, M_bind at 1. rewrite framer_on. rewrite Hp. cbn [peer].
  rewrite bool_decide_true by done. cbn [andb].
  rewrite (pa_read _ _ g (rev (store 4 (CreateQuicVersionLabel v))) (swap 4 (CreateQuicVersionLabel v)))
    by (apply parses_read, reads_label).
  cbv zeta. rewrite swap_swap by apply version_label_range. rewrite version_label_parsed by done.
  unfold mbind, M_bind, pa, zoom, modify. cbn [view parsing_lens set_parsing parsing].
  unfold PACKET_PUBLIC_FLAGS_MAX. rewrite Z.gtb_ltb, (proj2 (Z.ltb_ge _ _)), andb_false_r by lia. done.
Qed.

Lemma nonce_read {B} (k : option (list Z) -> M (Endpoint E D) (option B)) p flags g h s pre rest :
  sendable_header p h -> Framer.perspective_ g = peer p ->
  (has flags 4 && negb (has flags 1) && negb (has flags 2) && bool_decide (peer p = IS_CLIENT)) =
    match nonce h with Some _ => true | None => false end ->
  bind_some (read_nonce flags) k (set_parsing (at_ g pre (match nonce h with Some n => n | None => [] end ++ rest)) s) =
  k (nonce h) (set_parsing (at_ g (pre ++ match nonce h with Some n => n | None => [] end) rest) (seen_nonce h s)).
Proof.
  intros Hh Hp Hflags. unfold read_nonce, seen_nonce, PACKET_PUBLIC_FLAGS_NONCE, PACKET_PUBLIC_FLAGS_VERSION, PACKET_PUBLIC_FLAGS_RST.
  unfold bind_some at 1, mbind at 1, M_bind at 1. rewrite framer_on, Hp, Hflags. pose proof (sh_nonce _ _ Hh) as Hn.
  destruct (nonce h) as [n|]; [|by rewrite app_nil_r]. destruct Hn as [_ Hn].
  rewrite (pa_read _ _ g n n) by (apply parses_read, reads_bytes; by rewrite Hn). done.
Qed.

Lemma header_parsed p v g h s pre rest :
  sendable_header p h -> Framer.perspective_ g = peer p -> supported tls v ->
  ProcessPublicHeader tls (set_parsing (at_ g pre (public_wire p v h ++ rest)) s) =
  Ret (Some (public_seen g v h)) (set_parsing (at_ (seen_label v h g) (pre ++ public_wire p v h) rest) (seen_nonce h s)).
Proof.
  intros Hh Hp Hv. destruct (header_flags_ok p h Hh) as (Hr & H2 & H1 & H8 & Hl & Hn). unfold public_wire. cbv zeta.
  set (flags := Z.lor (header_flags h) _) in *. unfold ProcessPublicHeader. rewrite <- !app_assoc.
  rewrite (pa_read _ _ g (store 1 flags) (store 1 flags)) by (apply parses_read, reads_bytes; by rewrite store_length).
  rewrite load_store, Z.mod_small by (cbn; lia). cbv zeta.
  unfold PACKET_PUBLIC_FLAGS_RST, PACKET_PUBLIC_FLAGS_VERSION, PACKET_PUBLIC_FLAGS_MAX. rewrite H2, H1, framer_on.
  rewrite Z.gtb_ltb, (proj2 (Z.ltb_ge _ _)), andb_false_r by lia. cbn [andb].
  rewrite (connection_id_read _ p) by done. rewrite (version_read _ p v) by (done || lia).
  rewrite (nonce_read _ p); [|done|unfold seen_label; by destruct (version_flag h)|done].
  cbn [fst snd]. unfold public_seen. rewrite Hl. unfold mret, M_ret. by rewrite <- !app_assoc.
Qed.

(** ** Opening packets *)

Lemma number_read v g h hp pre rest :
  let h1 := with_packet_number (packet_number h) hp in
  Framer.endianness g = Framer.endianness_of v -> packet_number_length hp = packet_number_length h ->
  packet_number_length h ∈ [1; 2; 4; 6] -> 0 <= Framer.largest_packet_number_ g < 2 ^ 62 -> 0 < packet_number h < 2 ^ 62 ->
  2 * Z.abs (packet_number h - (Framer.largest_packet_number_ g + 1)) < 256 ^ packet_number_length h ->
  answer (Framer.visits g) (OnUnauthenticatedHeader h1) = true ->
  ProcessUnauthenticatedHeader hp (at_ g pre (number_wire v h ++ rest)) =
  Ret (Some h1) (at_ (heard g [OnUnauthenticatedHeader h1]) (pre ++ number_wire v h) rest).
Proof using Type.
  intros h1 He Hs Hl Hbase Hn Hclose Hans. unfold ProcessUnauthenticatedHeader, ProcessAndCalculatePacketNumber.
  rewrite Hs. assert (1 <= packet_number_length h <= 6) as Hr by (set_unfold in Hl; lia).
  assert (rd (Reader.ReadBytesToUInt64 (Z.to_nat (packet_number_length h))) (at_ g pre (number_wire v h ++ rest)) =
    Ret (Some (packet_number h mod 256 ^ packet_number_length h)) (at_ g (pre ++ number_wire v h) rest)) as Hrd.
  { unfold rd, zoom, number_wire. cbn [view reader_lens at_ reader]. rewrite <- He, <- enc_uint_mod, Z2Nat.id by lia.
    rewrite ReadBytesToUInt64_ok; [done|lia|rewrite Z2Nat.id by lia; apply Z.mod_pos_bound, Z.pow_pos_nonneg; lia]. }
  unfold mbind, M_bind, gets. cbn [at_ framer]. rewrite Hrd. unfold mret, M_ret.
  change (CalculatePacketNumberFromWire ?a ?b <$> Some ?x) with (Some (CalculatePacketNumberFromWire a b x)).
  rewrite number_recovered by (done || lia). rewrite (proj2 (Z.eqb_neq _ 0)) by lia. fold h1.
  change {| framer := g; reader := ?r |} with (at_ g (pre ++ number_wire v h) rest).
  rewrite visit_at, Hans. done.
Qed.

Lemma payload_opened g h s pre rest plaintext buflen :
  Z.of_nat (length pre) = GetStartOfEncryptedData h ->
  DecryptPacket (transport_version (Framer.version_ g)) (packet_number h) pre rest buflen (decrypter_ s) = Some plaintext ->
  DecryptPayload h (pre ++ rest) buflen (set_parsing (at_ g pre rest) s) =
  Ret (Some plaintext) (set_parsing (at_ (heard g [OnDecryptedPacket (decrypter_level_ s)]) (pre ++ rest) []) s).
Proof using Type.
  intros Hpre Hd. unfold DecryptPayload. rewrite <- Hpre, Nat2Z.id, take_app_length.
  assert (rd Reader.ReadRemainingPayload (at_ g pre rest) = Ret rest (at_ g (pre ++ rest) [])) as Hrd.
  { unfold rd, zoom, Reader.ReadRemainingPayload, mbind, M_bind, get, modify. cbn [view reader_lens at_ reader].
    unfold Reader.PeekRemainingPayload. cbn [reader_at Reader.data_ Reader.pos_]. rewrite drop_app_length.
    unfold at_, reader_at, put, set_reader. cbn. by rewrite app_nil_r. }
  unfold mbind, M_bind, pa at 1, zoom, get. cbn [view parsing_lens set_parsing parsing]. rewrite Hrd.
  cbn [put parsing_lens set_parsing parsing at_ framer decrypter_ decrypter_level_].
  rewrite Hd. done.
Qed.

(** Frames do not look at more of the header than the packet number. *)
Definition same_number (h h1 : QuicPacketHeader) : Prop :=
  packet_number h1 = packet_number h /\ packet_number_length h1 = packet_number_length h.

Lemma process_frame_header h h1 b p : same_number h h1 -> process_frame h1 b p = process_frame h b p.
Proof using Type. intros [H1 H2]. unfold process_frame, ProcessStopWaitingFrame. by rewrite H1, H2. Qed.

Lemma frames_loop_header h h1 fuel : forall p, same_number h h1 -> frames_loop h1 fuel p = frames_loop h fuel p.
Proof using Type.
  induction fuel as [|fuel IH]; intros p Hs; [done|]. cbn [frames_loop]. unfold mbind, M_bind, get.
  destruct (Reader.IsDoneReading (reader p)); [done|]. destruct (rd _ p) as [[b|] p1|]; [|done..].
  rewrite (process_frame_header h h1) by done. destruct (process_frame h _ p1) as [[?|] p2|]; [done| |done]. by apply IH.
Qed.

Lemma frame_data_read g h h1 frames room :
  let v := transport_version (Framer.version_ g) in
  let bs := frames_wire v h frames room in
  let vs := frames_visits (Framer.use_incremental_ack_processing_ g) v h frames room in
  same_number h h1 -> frames <> [] -> Forall (encoded_ok v h) frames -> well_placed v frames -> fed v h frames room ->
  Z.of_nat (length bs) < 2 ^ 31 -> accepts (Framer.visits g) vs ->
  ProcessFrameData h1 (at_ g [] bs) = Ret true (at_ (heard g vs) bs []).
Proof using Type.
  intros v bs vs Hs Hne Hok Hplace Hfed Hlen Hacc. unfold ProcessFrameData, mbind, M_bind, get.
  destruct frames as [|frame rest]; [done|].
  assert (exists b l, bs = b :: l) as (b & l & Hbs).
  { apply Forall_cons in Hok as [Hok _].
    destruct (wire_head v h frame (match rest with [] => true | _ => false end) room Hok) as (b & l & Hw & _).
    unfold bs. cbn [frames_wire]. rewrite Hw. cbn [app]. eauto. }
  assert (Reader.IsDoneReading (reader (at_ g [] bs)) = false) as -> by (rewrite Hbs; done).
  rewrite (frames_loop_header h h1) by done. rewrite remaining_rest.
  by apply (frames_read h (frame :: rest) g room []).
Qed.

(** The calls of a visitor for a packet. *)
Definition packet_visits (g : Framer.Framer) (level : EncryptionLevel) (v : ParsedQuicVersion) (h : QuicPacketHeader)
    (frames : list QuicFrame) (room : nat) : list Visit :=
  let hp := public_seen g v h in
  let h1 := with_packet_number (packet_number h) hp in
  [OnPacket; OnUnauthenticatedPublicHeader hp; OnUnauthenticatedHeader h1; OnDecryptedPacket level; OnPacketHeader h1] ++
  frames_visits (Framer.use_incremental_ack_processing_ g) (transport_version v) h frames room ++ [OnPacketComplete].

(** The receiver after the packet. *)
Definition received_packet (g : Framer.Framer) (v : ParsedQuicVersion) (h : QuicPacketHeader) (vs : list Visit) : Framer.Framer :=
  let g := seen_label v h g in
  heard (Framer.with_numbers g (Z.max (packet_number h) (Framer.largest_packet_number_ g))
           (Framer.last_serialized_connection_id_ g) (Framer.last_version_label_ g)) vs.

Lemma pa_visit {B} (k : bool -> M (Endpoint E D) B) x f s pre rest :
  (pa (visit x) ≫= k) (set_parsing (at_ f pre rest) s) =
  k (answer (Framer.visits f) x) (set_parsing (at_ (heard f [x]) pre rest) s).
Proof using Type. done. Qed.

Lemma seen_label_heard v h g vs : seen_label v h (heard g vs) = heard (seen_label v h g) vs.
Proof using Type. unfold seen_label. by destruct (version_flag h). Qed.

(** What the label leaves as it was. *)
Lemma seen_label_same v h g : let g' := seen_label v h g in
  Framer.version_ g' = Framer.version_ g /\ Framer.perspective_ g' = Framer.perspective_ g /\
  Framer.visits g' = Framer.visits g /\ Framer.largest_packet_number_ g' = Framer.largest_packet_number_ g /\
  Framer.use_incremental_ack_processing_ g' = Framer.use_incremental_ack_processing_ g.
Proof using Type. unfold seen_label. by destruct (version_flag h). Qed.

(** [ProcessDataPacket], from the packet number on. *)
Lemma data_packet_processed g (r0 : Endpoint E D) v h hp frames room plaintext sealed pre packet :
  let tv := transport_version (Framer.version_ g) in
  let h1 := with_packet_number (packet_number h) hp in
  let fv := frames_visits (Framer.use_incremental_ack_processing_ g) tv h frames room in
  let vs := [OnUnauthenticatedHeader h1; OnDecryptedPacket (decrypter_level_ r0); OnPacketHeader h1] ++ fv ++ [OnPacketComplete] in
  tv = transport_version v -> packet = (pre ++ number_wire tv h) ++ sealed -> plaintext = frames_wire tv h frames room ->
  packet_number_length hp = packet_number_length h ->
  Z.of_nat (length (pre ++ number_wire tv h)) = GetStartOfEncryptedData h1 ->
  packet_number_length h ∈ [1; 2; 4; 6] ->
  0 <= Framer.largest_packet_number_ g < 2 ^ 62 -> 0 < packet_number h < 2 ^ 62 ->
  2 * Z.abs (packet_number h - (Framer.largest_packet_number_ g + 1)) < 256 ^ packet_number_length h ->
  DecryptPacket tv (packet_number h) (pre ++ number_wire tv h) sealed (Z.to_nat kMaxPacketSize) (decrypter_ r0) = Some plaintext ->
  Z.of_nat (length packet) <= kMaxPacketSize -> Z.of_nat (length plaintext) < 2 ^ 31 ->
  frames <> [] -> Forall (encoded_ok tv h) frames -> well_placed tv frames -> fed tv h frames room ->
  accepts (Framer.visits g) vs ->
  ProcessDataPacket hp packet (Z.to_nat kMaxPacketSize) (set_parsing (at_ g pre (number_wire tv h ++ sealed)) r0) =
  Ret true (set_parsing (at_ (heard (Framer.with_numbers g (Z.max (packet_number h) (Framer.largest_packet_number_ g))
     (Framer.last_serialized_connection_id_ g) (Framer.last_version_label_ g)) vs) plaintext []) r0).
Proof using Type.
  intros tv h1 fv vs Htv Hpk Hpt Hl Hstart Hin Hbase Hn Hclose Hdec Hlen Hlen2 Hne Hok Hplace Hfed Hacc.
  unfold vs in Hacc |- *. clear vs. cbn [app accepts] in Hacc. destruct Hacc as (A1 & _ & A3 & Hacc).
  apply accepts_app in Hacc as [A4 _].
  unfold ProcessDataPacket. unfold mbind at 1, M_bind at 1, pa at 1, zoom at 1. cbn [view parsing_lens set_parsing parsing].
  rewrite (number_read tv g h hp) by done. fold h1. cbn [put parsing_lens].
  unfold mbind at 1, M_bind at 1. rewrite Hpk. change (set_parsing ?x (set_parsing _ r0)) with (set_parsing x r0).
  rewrite (payload_opened _ h1 r0 (pre ++ number_wire tv h) sealed plaintext) by done.
  rewrite heard_app. cbn [app].
  set (g2 := Framer.with_numbers _ _ _ _).
  set (vs2 := [OnUnauthenticatedHeader h1; OnDecryptedPacket (decrypter_level_ r0)]).
  match goal with |- context [pa (visit (OnPacketHeader h1)) ≫= ?kk] => set (k := kk) end.
  transitivity ((pa (visit (OnPacketHeader h1)) ≫= k) (set_parsing (at_ (heard g2 vs2) [] plaintext) r0)); [done|].
  rewrite pa_visit. cbn [heard Framer.visits Framer.with_visits] in A3. 
  change (Framer.visits (heard g2 vs2)) with (Framer.visits g ++ vs2). unfold vs2 in *.
  rewrite <- app_assoc in A3. cbn [app] in A3. rewrite A3. unfold k. cbn [negb]. rewrite <- Hpk.
  rewrite Z.gtb_ltb, (proj2 (Z.ltb_ge _ _)) by lia. rewrite heard_app. cbn [app].
  unfold mbind at 1, M_bind at 1, pa at 1, zoom at 1. cbn [view parsing_lens set_parsing parsing]. subst plaintext.
  set (g3 := heard g2 _).
  assert (ProcessFrameData h1 (at_ g3 [] (frames_wire tv h frames room)) =
    Ret true (at_ (heard g3 fv) (frames_wire tv h frames room) [])) as ->.
  { apply (frame_data_read g3 h h1 frames room); [by split|done..|]. unfold g3. change (Framer.visits (heard g2 ?x)) with (Framer.visits g ++ x). by rewrite <- !app_assoc in A4. }
  cbn [negb put parsing_lens]. change (set_parsing ?x (set_parsing _ r0)) with (set_parsing x r0).
  rewrite pa_visit. unfold g3. rewrite !heard_app. cbn [app]. done.
Qed.

Lemma packet_processed g (r0 : Endpoint E D) h frames room plaintext sealed packet :
  let p := peer (Framer.perspective_ g) in
  let v := Framer.version_ g in
  let tv := transport_version v in
  let vs := packet_visits g (decrypter_level_ r0) v h frames room in
  packet = header_wire p v h ++ sealed -> plaintext = frames_wire tv h frames room ->
  sendable_header p h -> supported tls v ->
  0 <= Framer.largest_packet_number_ g < 2 ^ 62 -> 0 < packet_number h < 2 ^ 62 ->
  2 * Z.abs (packet_number h - (Framer.largest_packet_number_ g + 1)) < 256 ^ packet_number_length h ->
  DecryptPacket tv (packet_number h) (header_wire p v h) sealed (Z.to_nat kMaxPacketSize) (decrypter_ r0) = Some plaintext ->
  Z.of_nat (length packet) <= kMaxPacketSize -> Z.of_nat (length plaintext) < 2 ^ 31 ->
  frames <> [] -> Forall (encoded_ok tv h) frames -> well_placed tv frames -> fed tv h frames room ->
  accepts (Framer.visits g) vs ->
  ProcessPacket tls packet (set_parsing (at_ g [] []) r0) =
  Ret true (set_parsing (at_ (received_packet g v h vs) plaintext []) (seen_nonce h r0)).
Proof using Type.
  intros p v tv vs Hpk Hpt Hh Hv Hbase Hn Hclose Hdec Hlen Hlen2 Hne Hok Hplace Hfed Hacc.
  assert (Framer.perspective_ g = peer p) as Hpeer by (unfold p; by destruct (Framer.perspective_ g)).
  unfold vs, packet_visits in Hacc |- *. cbv zeta in Hacc |- *. set (hp := public_seen g v h) in *. cbn [app] in *.
  destruct Hacc as (_ & A2 & Hacc). rewrite <- app_assoc in Hacc. cbn [app] in Hacc.
  unfold ProcessPacket.
  match goal with |- context [pa (visit OnPacket) ≫= ?kk] => set (k := kk) end.
  transitivity ((pa (visit OnPacket) ≫= k) (set_parsing (at_ g [] packet) r0)); [done|]. rewrite pa_visit. unfold k. clear k.
  rewrite Hpk, header_wire_split, <- app_assoc. unfold mbind at 1, M_bind at 1.
  rewrite (header_parsed p v (heard g [OnPacket]) h r0) by done. cbn [app].
  change (public_seen (heard g [OnPacket]) v h) with hp. rewrite seen_label_heard.
  set (g' := seen_label v h g) in *. destruct (seen_label_same v h g) as (Gv & Gp & Gvis & Gl & Gi). fold g' in Gv, Gp, Gvis, Gl, Gi.
  set (r1 := seen_nonce h r0) in *.
  rewrite pa_visit. change (Framer.visits (heard g' ?x)) with (Framer.visits g' ++ x). rewrite Gvis, A2. cbn [negb].
  rewrite framer_on, heard_app. cbn [app]. set (vs1 := [OnPacket; OnUnauthenticatedPublicHeader hp]) in *.
  change (version_flag hp) with (version_flag h).
  change (version hp) with (if version_flag h then v else unsupported_version).
  change (Framer.version_ (heard g' vs1)) with (Framer.version_ g'). rewrite Gv. fold v tv.
  assert (bool_decide (Framer.perspective_ (heard g' vs1) = IS_SERVER) && version_flag h &&
    negb (bool_decide ((if version_flag h then v else unsupported_version) = v)) = false) as ->.
  { destruct (version_flag h); [|by rewrite andb_false_r]. rewrite (bool_decide_true (v = v)) by done. by rewrite andb_false_r. }
  unfold process_packet.
  match goal with |- context [gets (fun s => framer (parsing s)) ≫= ?kk] => set (k := kk) end.
  transitivity ((gets (fun s => framer (parsing s)) ≫= k)
    (set_parsing (at_ (heard g' vs1) (public_wire p v h) (number_wire tv h ++ sealed)) r1)); [done|].
  rewrite framer_on. unfold k. clear k. change (Framer.perspective_ (heard g' vs1)) with (Framer.perspective_ g'). rewrite Gp, Hpeer.
  assert (bool_decide (peer p = IS_CLIENT) && version_flag hp = false) as ->.
  { change (version_flag hp) with (version_flag h). pose proof (sh_version _ _ Hh) as Hc.
    destruct (version_flag h); [rewrite Hc by done; done|apply andb_false_r]. }
  change (reset_flag hp) with false. cbv iota.
  rewrite (app_assoc (public_wire p v h)), <- header_wire_split, <- Hpk. rewrite (proj2 (Z.leb_le _ _)) by done.
  assert (transport_version (Framer.version_ (heard g' vs1)) = tv) as Htv
    by (change (Framer.version_ (heard g' vs1)) with (Framer.version_ g'); by rewrite Gv).
  rewrite <- Htv.
  rewrite (data_packet_processed (heard g' vs1) r1 v h hp frames room plaintext sealed (public_wire p v h) packet).
  all: rewrite ?Htv; try done.
  - change (Framer.use_incremental_ack_processing_ (heard g' vs1)) with (Framer.use_incremental_ack_processing_ g').
    rewrite Gi. assert (decrypter_level_ r1 = decrypter_level_ r0) as -> by (unfold r1, seen_nonce; by destruct (nonce h)).
    unfold received_packet. fold g'. unfold heard. cbn. by rewrite <- app_assoc.
  - by rewrite Hpk, header_wire_split.
  - rewrite <- header_wire_split. rewrite (header_wire_length p) by done. done.
  - apply Hh.
  - change (Framer.largest_packet_number_ (heard g' vs1)) with (Framer.largest_packet_number_ g'). by rewrite Gl.
  - change (Framer.largest_packet_number_ (heard g' vs1)) with (Framer.largest_packet_number_ g'). by rewrite Gl.
  - rewrite <- header_wire_split. assert (decrypter_ r1 = decrypter_ r0) as -> by (unfold r1, seen_nonce; by destruct (nonce h)). done.
  - change (Framer.use_incremental_ack_processing_ (heard g' vs1)) with (Framer.use_incremental_ack_processing_ g').
    rewrite Gi. assert (decrypter_level_ r1 = decrypter_level_ r0) as -> by (unfold r1, seen_nonce; by destruct (nonce h)).
    change (Framer.visits (heard g' vs1)) with (Framer.visits g' ++ vs1). by rewrite Gvis.
Qed.
End Read.

(** ** From one endpoint to the other *)

Section Transfer.
Context {P E D : Type} `{HS : Supplier P} `{HC : Channel E D} `{HV : !FramerVisitor, !VersionVisitor} (tls : bool).

(** The sending framer [f] and the receiving endpoint [r] are two ends of a
    connection, and [r] opens what [e] seals. *)
Record linked (f : Framer.Framer) (e : E) (r : Endpoint E D) : Prop := {
  li_version : Framer.version_ (framer (parsing r)) = Framer.version_ f;
  li_sides : Framer.perspective_ (framer (parsing r)) = peer (Framer.perspective_ f);
  li_supported : supported tls (Framer.version_ f);
  li_keys : opens e (decrypter_ r);
  li_largest : 0 <= Framer.largest_packet_number_ (framer (parsing r)) < 2 ^ 62
}.

(** A packet that fits in [size] bytes. *)
Record buildable (f : Framer.Framer) (h : QuicPacketHeader) (frames : list QuicFrame) (size : nat) : Prop := {
  bu_header : sendable_header (Framer.perspective_ f) h;
  bu_frames : frames <> [];
  bu_ok : Forall (frame_ok f h) frames;
  bu_placed : well_placed (transport_version (Framer.version_ f)) frames;
  bu_room : GetStartOfEncryptedData h + needed f h frames <= Z.of_nat size <= kMaxPacketSize;
  bu_number : 0 < packet_number h < 2 ^ 62
}.

(** The receiver [r] can recover the packet number. *)
Definition close_to (r : Endpoint E D) (h : QuicPacketHeader) : Prop :=
  2 * Z.abs (packet_number h - (Framer.largest_packet_number_ (framer (parsing r)) + 1)) < 256 ^ packet_number_length h.

Definition sendable_packet (f : Framer.Framer) (r : Endpoint E D) (h : QuicPacketHeader) (frames : list QuicFrame) (size : nat) :
    Prop := buildable f h frames size /\ close_to r h.

Definition has_producer (p : option P) : bool := match p with Some _ => true | None => false end.
Definition supplied (p : option P) (frames : list QuicFrame) : Prop :=
  match p with Some p => supplies p (concat (requests <$> frames)) | None => True end.

(** The bytes of a packet before it is sealed. *)
Definition packet_wire (f : Framer.Framer) (h : QuicPacketHeader) (frames : list QuicFrame) (size : nat) : list Z :=
  let hw := header_wire (Framer.perspective_ f) (Framer.version_ f) h in
  hw ++ frames_wire (transport_version (Framer.version_ f)) h frames (size - length hw).

(** What the producer had after the data of [frames] it still has. *)
Definition hands_on (p : option P) (frames : list QuicFrame) (p' : option P) : Prop :=
  match p, p' with
  | Some p, Some p' => forall rest, supplies p (concat (requests <$> frames) ++ rest) -> supplies p' rest
  | _, _ => True
  end.

Lemma packet_appended f (p : option P) h frames buffer rest :
  buildable f h frames (length buffer) ->
  match p with Some p => supplies p (concat (requests <$> frames) ++ rest) | None => True end ->
  let bs := packet_wire f h frames (length buffer) in
  (length bs <= length buffer)%nat /\
  ((forall n, PADDING_FRAME n ∉ frames) -> Z.of_nat (length bs) = GetStartOfEncryptedData h + needed f h frames) /\
  exists b, BuildDataPacket h (hand_over (has_producer p) <$> frames) (building f p buffer) = Ret (length bs) b /\
    take (length bs) (Writer.buffer_ (writer b)) = bs /\ Writer.length_ (writer b) = length bs /\
    ready (wrote_header h f) (has_producer p) rest b.
Proof using Type.
  intros Hp Hs bs. pose proof (header_wire_length _ (Framer.version_ f) _ (bu_header _ _ _ _ Hp)) as Hlen.
  set (hw := header_wire (Framer.perspective_ f) (Framer.version_ f) h) in *.
  set (tv := transport_version (Framer.version_ f)) in *. set (room := (length buffer - length hw)%nat) in *.
  pose proof (bu_room _ _ _ _ Hp) as Hroom. unfold kMaxPacketSize in Hroom.
  pose proof (needed_nonneg f h frames (bu_ok _ _ _ _ Hp)) as Hn0.
  destruct (frames_fit f h frames room) as (Hfit & _ & Heq); [apply Hp|apply Hp|unfold room; lia|unfold room; lia|].
  fold tv in Hfit, Heq. unfold bs, packet_wire. cbv zeta. fold hw tv room. set (fw := frames_wire tv h frames room) in *.
  rewrite length_app. split; [unfold room in *; lia|]. split; [intros Hno; rewrite Nat2Z.inj_add, Heq by done; lia|].
  set (b0 := building f p buffer).
  assert (ready f (has_producer p) (concat (requests <$> frames) ++ rest) b0) as Hr0.
  { split_and!; [done|done|]. by destruct p. }
  assert (forall n, (n <= length buffer)%nat -> fits (writer b0) n) as Hfits by (intros n Hn; exact Hn).
  assert (fits (writer b0) (length hw + length fw)) as Hf2 by (apply Hfits; unfold room in *; lia).
  assert (fits (writer b0) (length hw)) as Hf0 by (apply Hfits; unfold room in *; lia).
  destruct (header_built f (has_producer p) _ b0 h Hr0) as (b1 & E1 & Ew1 & Hr1); [apply Hp|done|]. fold hw in Ew1.
  assert (Writer.capacity_ (writer b1) - Writer.length_ (writer b1) = room)%nat as Hroom1.
  { rewrite Ew1, append_capacity by done. done. }
  destruct (frames_built (wrote_header h f) (has_producer p) h frames rest b1 Hr1) as (b2 & E2 & Ew2 & Hr2); [apply Hp| |].
  { change (transport_version (Framer.version_ (wrote_header h f))) with tv. rewrite Hroom1. fold fw.
    rewrite Ew1. by apply append_fits. }
  change (transport_version (Framer.version_ (wrote_header h f))) with tv in Ew2. rewrite Hroom1 in Ew2. fold fw in Ew2.
  rewrite Ew1, append_app in Ew2 by done.
  exists b2. split.
  - unfold BuildDataPacket, and_then, mbind, M_bind. rewrite E1, E2. unfold gets. rewrite Ew2. cbn. by rewrite length_app.
  - assert (Writer.length_ (writer b2) = length hw + length fw)%nat as El by (rewrite Ew2; cbn; by rewrite length_app).
    split; [|by split].
    pose proof (append_payload (writer b0) (hw ++ fw) ltac:(by rewrite length_app)) as Hpay.
    rewrite <- Ew2 in Hpay. unfold payload in Hpay.
    rewrite El in Hpay. exact Hpay.
Qed.

Lemma packet_built f (p : option P) h frames buffer :
  buildable f h frames (length buffer) -> supplied p frames ->
  let bs := packet_wire f h frames (length buffer) in
  (length bs <= length buffer)%nat /\
  ((forall n, PADDING_FRAME n ∉ frames) -> Z.of_nat (length bs) = GetStartOfEncryptedData h + needed f h frames) /\
  exists b, BuildDataPacket h (hand_over (has_producer p) <$> frames) (building f p buffer) = Ret (length bs) b /\
    take (length bs) (Writer.buffer_ (writer b)) = bs /\ Writer.length_ (writer b) = length bs /\
    ready (wrote_header h f) (has_producer p) [] b /\ hands_on p frames (data_producer_ b).
Proof using Type.
  intros Hp Hs bs. destruct (packet_appended f p h frames buffer [] Hp) as (H1 & H2 & b & Eb & H3 & H4 & H5);
    [rewrite app_nil_r; by destruct p|].
  split; [done|]. split; [done|]. exists b. split_and!; try done. destruct p as [p|]; [|done].
  destruct (data_producer_ b) as [p'|] eqn:Ep; [|done]. intros rest Hrest.
  destruct (packet_appended f (Some p) h frames buffer rest Hp Hrest) as (_ & _ & b' & Eb' & _ & _ & _ & _ & H6).
  rewrite Eb in Eb'. injection Eb' as <-. rewrite Ep in H6. apply H6.
Qed.

Lemma payload_sealed level n h hw fw buffer_len (s : Endpoint E D) e sealed s' :
  EncryptPayload level n h (hw ++ fw) buffer_len s = Ret sealed s' -> sealed <> [] ->
  Z.to_nat (GetStartOfEncryptedData h) = length hw -> encrypter_ s level = Some e ->
  exists output, EncryptPacket (transport_version (Framer.version_ (framer (parsing s)))) n hw fw (buffer_len - length hw) e =
    Some output /\ sealed = hw ++ output.
Proof using Type.
  intros Es Hne Hlen Henc. unfold EncryptPayload, mbind, M_bind, get, deref in Es. rewrite Henc, Hlen in Es. cbv zeta in Es.
  rewrite take_app_length, drop_app_length in Es.
  destruct (_ || _) in Es; [done|]. destruct (EncryptPacket _ n hw fw _ e) as [output|].
  - injection Es as <- _. by exists output.
  - destruct (pa (RaiseError QUIC_ENCRYPTION_FAILURE) s); [|done]. injection Es as <- _. done.
Qed.

(** A packet built, sealed and processed. *)
Lemma packet_crosses f (s r : Endpoint E D) (p : option P) h frames buffer level e buffer_len :
  let g := framer (parsing r) in
  let room := (length buffer - Z.to_nat (GetStartOfEncryptedData h))%nat in
  let vs := packet_visits g (decrypter_level_ r) (Framer.version_ f) h frames room in
  linked f e r -> sendable_packet f r h frames (length buffer) -> supplied p frames ->
  Framer.version_ (framer (parsing s)) = Framer.version_ f -> encrypter_ s level = Some e ->
  accepts (Framer.visits g) vs ->
  exists n b, BuildDataPacket h (hand_over (has_producer p) <$> frames) (building f p buffer) = Ret n b /\
    (0 < n <= length buffer)%nat /\
    forall sealed s',
      EncryptPayload level (packet_number h) h (take n (Writer.buffer_ (writer b))) buffer_len s = Ret sealed s' ->
      sealed <> [] -> Z.of_nat (length sealed) <= kMaxPacketSize ->
      exists plaintext, ProcessPacket tls sealed r =
        Ret true (set_parsing (at_ (received_packet g (Framer.version_ f) h vs) plaintext []) (seen_nonce h r)).
Proof using Type.
  intros g room vs Hli [Hp Hclose] Hs Hsv Henc Hacc.
  destruct (packet_built f p h frames buffer Hp Hs) as (Hle & _ & b & Eb & Htake & _).
  pose proof (header_wire_length _ (Framer.version_ f) _ (bu_header _ _ _ _ Hp)) as Hlen.
  set (hw := header_wire (Framer.perspective_ f) (Framer.version_ f) h) in *.
  set (tv := transport_version (Framer.version_ f)) in *.
  assert (Z.to_nat (GetStartOfEncryptedData h) = length hw) as Hstart by lia.
  assert (length buffer - length hw = room)%nat as Hroom' by (unfold room; lia).
  set (fw := frames_wire tv h frames room) in *.
  assert (packet_wire f h frames (length buffer) = hw ++ fw) as Hpw by (unfold packet_wire; fold hw; by rewrite Hroom').
  rewrite Hpw in *. exists (length (hw ++ fw)), b. split; [done|].
  assert (0 < length hw)%nat as Hpos by (unfold hw; rewrite header_wire_split; unfold public_wire; rewrite !length_app, store_length; lia).
  rewrite length_app in Hle |- *. split; [lia|]. intros sealed s' Es Hne Hmax. rewrite <- length_app, Htake in Es.
  destruct (payload_sealed level (packet_number h) h hw fw buffer_len s e sealed s') as (output & Eout & ->); [done..|].
  rewrite Hsv in Eout. fold tv in Eout.
  pose proof (bu_room _ _ _ _ Hp) as Hroom. unfold kMaxPacketSize in Hroom.
  pose proof (needed_nonneg f h frames (bu_ok _ _ _ _ Hp)) as Hn0.
  destruct (frames_fit f h frames room) as (_ & Hfed & _); [apply Hp|apply Hp|lia|lia|].
  fold tv in Hfed. destruct Hli as [Lv Ls Lsup Lk Ll]. fold g in Lv, Ls, Ll.
  assert (peer (Framer.perspective_ g) = Framer.perspective_ f) as Lp by (rewrite Ls; by destruct (Framer.perspective_ f)).
  pose proof (packet_processed tls g r h frames room fw output (hw ++ output)) as Hpr. cbv zeta in Hpr.
  rewrite Lp, Lv in Hpr. fold hw tv vs in Hpr.
  exists fw. transitivity (ProcessPacket tls (hw ++ output) (set_parsing (at_ g [] []) r)); [done|].
  apply Hpr; try done; try apply Hp; try exact Hclose.
  - eapply opened; [done|exact Eout|]. unfold kMaxPacketSize. lia.
  - lia.
  - eapply Forall_impl; [apply Hp|]. apply frame_ok_encoded.
Qed.

Lemma received_numbers g v h vs : let g' := received_packet g v h vs in
  Framer.visits g' = Framer.visits g ++ vs /\
  Framer.largest_packet_number_ g' = Z.max (packet_number h) (Framer.largest_packet_number_ g) /\
  Framer.version_ g' = Framer.version_ g /\ Framer.perspective_ g' = Framer.perspective_ g.
Proof using Type.
  unfold received_packet. cbv zeta. destruct (seen_label_same v h g) as (Gv & Gp & Gvis & Gl & _).
  cbn [heard Framer.with_visits Framer.visits Framer.with_numbers Framer.largest_packet_number_ Framer.version_ Framer.perspective_].
  by rewrite Gvis, Gl.
Qed.

End Transfer.

(** A client sends an acknowledgement, data of a stream and a window update. *)
Section Example.
Definition v43 : ParsedQuicVersion := {| handshake_protocol := PROTOCOL_QUIC_CRYPTO; transport_version := 43 |}.

Definition example_header : QuicPacketHeader :=
  {| connection_id := 77; connection_id_length := 8; reset_flag := false; version_flag := true;
     packet_number_length := 1; version := v43; nonce := None; packet_number := 5 |}.

Definition example_frames : list QuicFrame :=
  [ACK_FRAME {| largest_acked := 9; ack_delay_time := 250; received_packet_times := [];
                packets := [Interval.mk 1 4; Interval.mk 6 10] |};
   STREAM_FRAME {| stream_id := 5; fin := true; data_length := 3; data_buffer := Some [97; 98; 99]; offset := 0 |};
   WINDOW_UPDATE_FRAME 0 5 65536; PADDING_FRAME (-1)].

Definition example_buffer : SendBuffer.SendBuffer :=
  match SendBuffer.SaveMemSlice [97; 98; 99] (SendBuffer.init true true) with Ret _ b => b | Crash _ => SendBuffer.init true true end.

Definition example_sender : Framer.Framer := Framer.init v43 0 IS_CLIENT false.

Definition example_endpoint (p : Perspective) : Endpoint NullEncrypter NullDecrypter :=
  {| parsing := {| framer := Framer.init v43 0 p false; reader := Reader.init [] NETWORK_BYTE_ORDER |};
     encrypter_ := fun _ => Some {| encrypter_perspective_ := p |};
     decrypter_ := {| decrypter_perspective_ := p |}; decrypter_level_ := ENCRYPTION_NONE;
     alternative_decrypter_ := None; alternative_decrypter_level_ := ENCRYPTION_NONE;
     alternative_decrypter_latch_ := false; last_nonce_ := [] |}.

#[local] Instance agreeing : FramerVisitor := fun _ _ => true.
#[local] Instance unchanging : VersionVisitor := fun _ _ => None.

Lemma agrees vs : forall hist, accepts hist vs.
Proof. induction vs; intros hist; [done|by split]. Qed.

Definition example_packet : outcome (Building SessionStreams) nat :=
  BuildDataPacket example_header (hand_over true <$> example_frames)
    (building example_sender (Some {| streams := {[5 := example_buffer]} |}) (replicate 100 0)).

Definition example_sealed : option (list Z) :=
  match example_packet with
  | Ret n b =>
      match EncryptPayload ENCRYPTION_NONE 5 example_header (take n (Writer.buffer_ (writer b))) 1452 (example_endpoint IS_CLIENT) with
      | Ret sealed _ => Some sealed
      | Crash _ => None
      end
  | Crash _ => None
  end.

Lemma example_supplied : supplied (Some {| streams := {[5 := example_buffer]} |}) example_frames.
Proof.
  exists {[5 := save [97; 98; 99] 1 {| saved := []; framed := 0; sent := 0; acked := ∅; lost := ∅; pieces := 0 |}]}. split.
  - intros id a Ha. apply lookup_singleton_Some in Ha as [<- <-]. exists example_buffer. split; [apply lookup_singleton_eq|].
    pose proof (SaveMemSlice_spec [97; 98; 99] _ _ (represents_init true true)) as H. apply H. vm_compute; split; done.
  - cbn. eexists. split; [apply lookup_singleton_eq|]. split; [|split; [reflexivity|exact I]].
    split_and!; [done|done|done|by left|]. apply disjoint_empty_r.
Qed.

Lemma example_frames_ok : Forall (frame_ok example_sender example_header) example_frames.
Proof.
  apply Forall_cons; split; [|apply Forall_cons; split; [|apply Forall_cons; split; [|apply Forall_singleton]]].
  - split; [|reflexivity|split; vm_compute; done|cbn; lia|by right]. cbn [packets].
    apply wf_cons. split_and!; [apply wf_cons; split_and!; [apply wf_nil|..]|..];
      first [by vm_compute|split; by vm_compute|apply Forall_nil_2|apply Forall_singleton; by vm_compute].
  - unfold frame_ok, sendable, u32, u64. cbn. split_and!; [lia..|]. by exists [97; 98; 99].
  - unfold frame_ok, sendable, u32, u64. cbn. lia.
  - done.
Qed.

Lemma example_sendable : sendable_packet example_sender (example_endpoint IS_SERVER) example_header example_frames 100.
Proof.
  split; [split; [|done|apply example_frames_ok|done|vm_compute; split; discriminate|cbn; lia]|unfold close_to; cbn; lia].
  split; [by right|unfold u64; cbn; lia|done|done|exact I|set_solver].
Qed.

End Example.
