(* ===== verification/Datagrams.v ===== *)
(** From one application to the other over datagrams: the frames a stream puts out
    are built into packets, sealed, opened by the framer at the other end and
    handed to the stream there. *)

From S2P Require Import Prelude World FlowController FlowControl QuicData Wire IntervalSet Intervals ReceiveStream StreamDelivery.
From S2P Require Import StreamClosing ReassemblyRuns StreamRuns SendBuffer Sending SendAcks SendRuns SendStream SendKept SendSide SendWrites SendTraces Transfer.
From S2P Require Import Crypter PacketNumberQueue PacketNumbers Framer FrameWriter FrameReader FrameWire AckWire FrameBuild.
From S2P Require Import FrameRead AckRead FrameData Handshake PacketFramer PacketNumberWire SessionProducer PacketTrip.

Lemma for_each_app {S A} (f : A -> M S unit) b : forall a s,
  for_each (a ++ b) f s = match for_each a f s with Ret _ s' => for_each b f s' | Crash c => Crash c end.
Proof.
  induction a as [|x a IH]; intros s; [done|]. cbn [app for_each]. unfold mbind, M_bind.
  destruct (f x s) as [u s'|]; [apply IH|done].
Qed.

(** ** The stream frames of a packet *)

(** The stream frames for stream [id] among the visitor's calls, as the session
    hands them to that stream. *)
Definition heard_frame (id : Z) (v : Visit) : option input :=
  match v with
  | OnStreamFrame s => if stream_id s =? id then Some (StreamFrame (offset s) (content s) (fin s)) else None
  | _ => None
  end.

Definition heard_frames (id : Z) (vs : list Visit) : list input := omap (heard_frame id) vs.

Definition carried_frame (id : Z) (x : QuicFrame) : option input :=
  match x with
  | STREAM_FRAME s => heard_frame id (OnStreamFrame s)
  | _ => None
  end.

Definition carried_frames (id : Z) (xs : list QuicFrame) : list input := omap (carried_frame id) xs.

Lemma heard_frames_app id a b : heard_frames id (a ++ b) = heard_frames id a ++ heard_frames id b.
Proof. apply omap_app. Qed.

Lemma heard_blocks id : forall bs start, heard_frames id (block_visits start bs) = [].
Proof.
  induction bs as [|[g n] bs IH]; intros start; [done|]. cbn [block_visits]. cbv zeta.
  destruct (n >? 0); [|done]. apply (IH (start - (g + n))).
Qed.

Lemma heard_of_frame id incremental v h x last room :
  heard_frames id (frame_visits incremental v h x last room) = option_list (carried_frame id x).
Proof.
  destruct x; try done; cbn [frame_visits].
  unfold ack_visits. destruct incremental; [|done]. apply (heard_blocks id).
Qed.

Lemma heard_of_frames id incremental v h : forall xs room,
  heard_frames id (frames_visits incremental v h xs room) = carried_frames id xs.
Proof.
  induction xs as [|x xs IH]; intros room; [done|]. cbn [frames_visits]. cbv zeta.
  rewrite heard_frames_app, heard_of_frame, IH. cbn [carried_frames omap list_omap]. by destruct (carried_frame id x).
Qed.

Lemma heard_of_packet id g level v h xs room : heard_frames id (packet_visits g level v h xs room) = carried_frames id xs.
Proof.
  unfold packet_visits. cbv zeta. rewrite !heard_frames_app, heard_of_frames. apply app_nil_r.
Qed.

(** ** The two ends *)

Section Ends.
Context {P E D : Type} `{HS : Supplier P} `{HC : Channel E D} `{HV : !FramerVisitor, !VersionVisitor} (tls : bool).
Context (fast too_long : bool) (multiplied : Z -> Z) (id : Z).

(** A packet of the sender: what is built, with the state of the source of its
    stream data, and the buffer it is built in. *)
Record Packet : Type := {
  packet_header : QuicPacketHeader;
  packet_frames : list QuicFrame;
  packet_producer : option P;
  packet_buffer : list Z
}.

(** The datagram: [BuildDataPacket] by the framer [f], [EncryptPayload] by [s]. *)
Definition datagram (f : Framer.Framer) (s : Endpoint E D) (level : EncryptionLevel) (buffer_len : nat) (q : Packet) : list Z :=
  match BuildDataPacket (packet_header q) (hand_over (has_producer (packet_producer q)) <$> packet_frames q)
          (building f (packet_producer q) (packet_buffer q)) with
  | Ret n b =>
      match EncryptPayload level (packet_number (packet_header q)) (packet_header q)
              (take n (Writer.buffer_ (writer b))) buffer_len s with
      | Ret sealed _ => sealed
      | Crash _ => []
      end
  | Crash _ => []
  end.

(** What happens at the receiver: a datagram arrives, or something else does. *)
Inductive happening : Type := Arrives (d : list Z) | Happens (i : input).

(** The framer of the receiver takes a datagram and the stream the frames it
    reports, in order. *)
Definition take_in (x : happening) : M (Endpoint E D * ReceiveStream.Stream) unit := fun '(r, st) =>
  match x with
  | Arrives d =>
      match ProcessPacket tls d r with
      | Ret _ r' =>
          let news := drop (length (Framer.visits (framer (parsing r)))) (Framer.visits (framer (parsing r'))) in
          match handle_all fast too_long multiplied (heard_frames id news) st with
          | Ret _ st' => Ret tt (r', st')
          | Crash c => Crash c
          end
      | Crash c => Crash c
      end
  | Happens i =>
      match handle fast too_long multiplied i st with
      | Ret _ st' => Ret tt (r, st')
      | Crash c => Crash c
      end
  end.

Definition take_in_all (xs : list happening) : M (Endpoint E D * ReceiveStream.Stream) unit := for_each xs take_in.

(** ** A network that drops, repeats and reorders *)

(** What the network does: it delivers a packet of the sender, or something
    happens at the receiver. *)
Inductive delivery : Type := Delivers (q : Packet) | Locally (i : input).

Section Network.
Context (f : Framer.Framer) (s : Endpoint E D) (level : EncryptionLevel) (buffer_len : nat) (e : E).

Definition happens (x : delivery) : happening :=
  match x with Delivers q => Arrives (datagram f s level buffer_len q) | Locally i => Happens i end.

Definition reaches (x : delivery) : list input :=
  match x with Delivers q => carried_frames id (packet_frames q) | Locally i => [i] end.

(** The packet can be built and sealed, and is not too large. *)
Record transmittable (q : Packet) : Prop := {
  tr_header : sendable_header (Framer.perspective_ f) (packet_header q);
  tr_frames : packet_frames q <> [];
  tr_ok : Forall (frame_ok f (packet_header q)) (packet_frames q);
  tr_placed : well_placed (transport_version (Framer.version_ f)) (packet_frames q);
  tr_room : GetStartOfEncryptedData (packet_header q) + needed f (packet_header q) (packet_frames q) <=
            Z.of_nat (length (packet_buffer q)) <= kMaxPacketSize;
  tr_number : 0 < packet_number (packet_header q) < 2 ^ 62;
  tr_supplied : supplied (packet_producer q) (packet_frames q);
  tr_sealed : datagram f s level buffer_len q <> [];
  tr_size : Z.of_nat (length (datagram f s level buffer_len q)) <= kMaxPacketSize
}.

(** Each packet that arrives is within reach of the largest number seen so far. *)
Fixpoint in_reach (largest : Z) (xs : list delivery) : Prop :=
  match xs with
  | [] => True
  | Delivers q :: xs =>
      let h := packet_header q in
      transmittable q /\ 2 * Z.abs (packet_number h - (largest + 1)) < 256 ^ packet_number_length h /\
      in_reach (Z.max (packet_number h) largest) xs
  | Locally _ :: xs => in_reach largest xs
  end.

Hypothesis willing : forall hist v, answer hist v = true.
Hypothesis same_version : Framer.version_ (framer (parsing s)) = Framer.version_ f.
Hypothesis has_keys : encrypter_ s level = Some e.

Lemma all_accepted vs : forall hist, accepts hist vs.
Proof using willing. induction vs; intros hist; [done|]. by split. Qed.

(** A packet that arrives is taken in: the stream gets its frames. *)
Lemma datagram_taken q r st : linked tls f e r -> transmittable q ->
  let h := packet_header q in
  2 * Z.abs (packet_number h - (Framer.largest_packet_number_ (framer (parsing r)) + 1)) < 256 ^ packet_number_length h ->
  exists r', linked tls f e r' /\
    Framer.largest_packet_number_ (framer (parsing r')) =
      Z.max (packet_number h) (Framer.largest_packet_number_ (framer (parsing r))) /\
    take_in (Arrives (datagram f s level buffer_len q)) (r, st) =
      match handle_all fast too_long multiplied (carried_frames id (packet_frames q)) st with
      | Ret _ st' => Ret tt (r', st')
      | Crash c => Crash c
      end.
Proof using willing same_version has_keys.
  intros Hli Hq h Hclose. set (g := framer (parsing r)) in *.
  assert (sendable_packet f r h (packet_frames q) (length (packet_buffer q))) as Hp
    by (destruct Hq; split; [by split|done]).
  destruct (packet_crosses tls f s r (packet_producer q) h (packet_frames q) (packet_buffer q) level e buffer_len
    Hli Hp (tr_supplied _ Hq) same_version has_keys (all_accepted _ _)) as (n & b & Eb & _ & Hall).
  pose proof (tr_sealed _ Hq) as Hne. pose proof (tr_size _ Hq) as Hsz.
  unfold datagram in Hne, Hsz |- *. fold h in Hne, Hsz |- *. rewrite Eb in Hne, Hsz |- *.
  destruct (EncryptPayload _ _ _ _ _ s) as [sealed s'|] eqn:Ee; [|done].
  destruct (Hall sealed s' eq_refl Hne Hsz) as (plaintext & Er). cbv zeta in Er. fold g in Er.
  set (vs := packet_visits _ _ _ _ _ _) in Er.
  destruct (received_numbers g (Framer.version_ f) h vs) as (H1 & H2 & H3 & H4).
  set (g' := received_packet g (Framer.version_ f) h vs) in *.
  exists (set_parsing (at_ g' plaintext []) (seen_nonce h r)). split_and!.
  - destruct Hli as [L1 L2 L3 L4 L5]. split; cbn [parsing set_parsing at_ framer].
    + by rewrite H3.
    + by rewrite H4.
    + done.
    + unfold set_parsing, seen_nonce. cbn [decrypter_]. by destruct (nonce h).
    + rewrite H2. pose proof (tr_number _ Hq) as Hnum. fold h in Hnum. fold g in L5. lia.
  - exact H2.
  - unfold take_in. rewrite Er. cbv zeta. cbn [parsing set_parsing at_ framer]. fold g. rewrite H1, drop_app_length.
    unfold vs. by rewrite heard_of_packet.
Qed.

(** The stream sees the frames of the packets that arrive, in the order in which
    they do. *)
Lemma deliveries_taken : forall xs r st, linked tls f e r ->
  in_reach (Framer.largest_packet_number_ (framer (parsing r))) xs ->
  exists r', take_in_all (happens <$> xs) (r, st) =
    match handle_all fast too_long multiplied (xs ≫= reaches) st with
    | Ret _ st' => Ret tt (r', st')
    | Crash c => Crash c
    end.
Proof using willing same_version has_keys.
  induction xs as [|x xs IH]; intros r st Hli Hr; [by exists r|].
  unfold take_in_all. rewrite fmap_cons. cbn [for_each]. unfold mbind at 1, M_bind at 1. fold (take_in_all (happens <$> xs)).
  rewrite bind_cons. unfold handle_all. rewrite for_each_app.
  destruct x as [q|i]; cbn [happens reaches].
  - destruct Hr as (Hq & Hclose & Hr). destruct (datagram_taken q r st Hli Hq Hclose) as (r1 & Hl1 & Hn1 & E1).
    rewrite E1. unfold handle_all. destruct (for_each _ _ st) as [u st1|c]; [|by exists r1].
    apply IH; [done|]. by rewrite Hn1.
  - cbn [for_each]. unfold mbind at 1, M_bind at 1. cbn [take_in].
    destruct (handle _ _ _ i st) as [u st1|c]; [|by exists r]. by apply IH.
Qed.
End Network.
End Ends.

(** ** From one application to the other *)

(** What the network delivers comes from the sender; what else happens is local to
    the receiver. *)
Definition of_sender {P} (id : Z) (ss : SendStream.Sender) (x : delivery (P := P)) : Prop :=
  match x with
  | Delivers q => Forall (from_sender ss) (carried_frames id (packet_frames q))
  | Locally (StreamFrame _ _ _) | Locally (RstFrame _ _) => False
  | Locally _ => True
  end.

Definition locally {P} (Q : input -> Prop) (x : delivery (P := P)) : Prop :=
  match x with Delivers _ => True | Locally i => Q i end.

Definition carries_frame {P} (id : Z) (x : SendStream.frame) (y : delivery (P := P)) : Prop :=
  match y with Delivers q => arrival x ∈ carried_frames id (packet_frames q) | Locally _ => False end.

Lemma reaches_of_sender {P} id ss (xs : list (delivery (P := P))) :
  Forall (of_sender id ss) xs -> Forall (from_sender ss) (xs ≫= reaches id).
Proof.
  induction 1 as [|x xs Hx Hxs IH]; [done|]. rewrite bind_cons. apply Forall_app. split; [|done].
  destruct x as [q|i]; [done|]. apply Forall_singleton. by destruct i.
Qed.

Lemma reaches_locally {P} id (Q : input -> Prop) (xs : list (delivery (P := P))) :
  (forall o d b, Q (StreamFrame o d b)) -> Forall (locally Q) xs -> Forall Q (xs ≫= reaches id).
Proof.
  intros HQ. induction 1 as [|x xs Hx Hxs IH]; [done|]. rewrite bind_cons. apply Forall_app. split; [|done].
  destruct x as [q|i]; [|by apply Forall_singleton]. apply Forall_forall. intros i Hi.
  apply list_elem_of_omap in Hi as (y & _ & Hy). destruct y; try done. cbn in Hy.
  destruct (_ =? _); [|done]. injection Hy as <-. apply HQ.
Qed.

Lemma reaches_carried {P} id x (xs : list (delivery (P := P))) :
  Exists (carries_frame id x) xs -> arrival x ∈ xs ≫= reaches id.
Proof.
  intros (y & Hy & Hc)%Exists_exists. apply list_elem_of_bind. exists y. split; [|done]. by destruct y.
Qed.

Section Applications.
Context {P E D : Type} `{HS : Supplier P} `{HC : Channel E D} `{HV : !FramerVisitor, !VersionVisitor}.

(** C4: From one application to the other over a network that drops, repeats and reorders
    datagrams: the frames a stream puts out are built into packets, sealed, opened by the
    framer at the other end and handed to the stream there, nothing of it fails, and the
    delegate is given a prefix of the accepted writes in order, all that was sent once every
    frame has arrived, and the end only after all of it. *)
Theorem what_is_written_crosses_the_network g psent plimit fs id w kb kw bf ys net l ss fast long multiplied fr
    tls f (s r : Endpoint E D) level buffer_len e (xs : list (delivery (P := P))) :
  0 < slice_size g -> 0 <= plimit <= 2 ^ 61 -> opened_both fs id plimit w kb kw ->
  trace g psent plimit (new_sender fs id bf ys net) l ss -> fitting g l ->
  SendBuffer.stream_offset_ (SendStream.send_buffer_ ss) <= 2 ^ 61 ->
  StreamRuns.opened fr id (SendBuffer.stream_offset_ (SendStream.send_buffer_ ss)) ->
  (forall hist v, answer hist v = true) -> Framer.version_ (framer (parsing s)) = Framer.version_ f ->
  encrypter_ s level = Some e -> linked tls f e r ->
  in_reach f s level buffer_len (Framer.largest_packet_number_ (framer (parsing r))) xs -> Forall (of_sender id ss) xs ->
  exists ws, ws `sublist_of` (offered <$> l) /\ let D := concat ws in
  terminates_in (take_in_all tls fast long multiplied id (happens f s level buffer_len <$> xs) (r, ReceiveStream.init id true fr))
    (fun _ rs => let told := ReceiveStream.events rs.2 in exists n,
      given told = take n D /\
      (ReceiveStream.FinRead ∈ told -> Forall (locally (fun i => ~ is_shutdown i)) xs -> given told = D) /\
      (StreamDelivery.connected rs.2 = true -> Forall (locally uncut) xs ->
       (forall x, x ∈ SendStream.outbox ss -> Exists (carries_frame id x) xs) ->
       given told = take (Z.to_nat (SendStream.stream_bytes_written ss)) D /\
       (SendStream.fin_sent ss = true -> given told = D /\ ReceiveStream.FinRead ∈ told))).
Proof.
  intros Hsize Hlimit Hopen Ht Hfit Hlen Hop Hw Hsv Hk Hli Hr Hxs.
  destruct (course_delivered g psent plimit fs id w kb kw bf ys net l ss fast long multiplied id fr) as (ws & Hws & Hd); [done..|].
  exists ws. split; [done|]. intros D0. specialize (Hd (xs ≫= reaches id) (reaches_of_sender id ss xs Hxs)).
  destruct (deliveries_taken tls fast long multiplied id f s level buffer_len e Hw Hsv Hk xs r (ReceiveStream.init id true fr)
    Hli Hr) as (r' & Er).
  rewrite Er. destruct (handle_all _ _ _ _ _) as [u st|]; [|done]. destruct Hd as (n & H1 & H2 & H3).
  exists n. cbn [snd]. split; [done|]. split.
  - intros Hf Hs. apply H2; [done|]. apply reaches_locally; [|done]. intros o d b Hsh. exact Hsh.
  - intros Hc Hu Harr. apply H3; [done| |].
    + apply reaches_locally; [|done]. intros o d b. unfold uncut. simpl. tauto.
    + intros x Hx. by apply reaches_carried, Harr.
Qed.
End Applications.

(** The frames of the course of [SendTraces], two to a packet, from a client to a
    server. *)
Section Example.
Definition packed (x : SendStream.frame) : QuicFrame :=
  STREAM_FRAME {| stream_id := 5; fin := SendStream.ffin x; data_length := Z.of_nat (length (SendStream.fdata x));
                  data_buffer := Some (SendStream.fdata x); offset := SendStream.foffset x |}.

Definition example_crossing (n : Z) (xs : list SendStream.frame) : Packet (P := SessionStreams) :=
  {| packet_header := with_packet_number n example_header; packet_frames := packed <$> xs; packet_producer := None;
     packet_buffer := replicate 60 0 |}.

(** The first packet comes last, and the second twice. *)
Definition example_deliveries : list delivery :=
  [Delivers (example_crossing 6 [frame3]); Locally FinSent; Delivers (example_crossing 7 [frame4; frame5]);
   Delivers (example_crossing 6 [frame3]); Delivers (example_crossing 5 [frame1; frame2])].

#[local] Instance agreeing_there : FramerVisitor := fun _ _ => true.
#[local] Instance unchanging_there : VersionVisitor := fun _ _ => None.

Definition example_packets : list (Z * list SendStream.frame) := [(5, [frame1; frame2]); (6, [frame3]); (7, [frame4; frame5])].

Definition example_datagram (x : Z * list SendStream.frame) : list Z :=
  datagram example_sender (example_endpoint IS_CLIENT) ENCRYPTION_NONE 1452 (example_crossing x.1 x.2).

Lemma example_datagrams :
  forallb (fun x => let n := length (example_datagram x) in negb (n =? 0)%nat && (n <=? 1452)%nat) example_packets = true.
Proof. vm_compute. reflexivity. Qed.

Lemma example_transmittable n xs : (n, xs) ∈ example_packets ->
  transmittable example_sender (example_endpoint IS_CLIENT) ENCRYPTION_NONE 1452 (example_crossing n xs).
Proof.
  intros Hin. pose proof example_datagrams as Hd. rewrite forallb_forall in Hd.
  specialize (Hd (n, xs) (proj1 (list_elem_of_In _ _) Hin)). cbv zeta in Hd.
  change (example_datagram (n, xs)) with
    (datagram example_sender (example_endpoint IS_CLIENT) ENCRYPTION_NONE 1452 (example_crossing n xs)) in Hd.
  apply andb_true_iff in Hd as [Hd1 Hd2]. apply Nat.leb_le in Hd2. apply negb_true_iff, Nat.eqb_neq in Hd1.
  assert (n = 5 \/ n = 6 \/ n = 7) as Hn by (clear -Hin; set_unfold; naive_solver).
  assert (xs = [frame1; frame2] \/ xs = [frame3] \/ xs = [frame4; frame5]) as Hxs by (clear -Hin; set_unfold; naive_solver).
  split; cbn [packet_header packet_frames packet_producer packet_buffer example_crossing];
    [clear Hd1 Hd2..|intros E0; by rewrite E0 in Hd1|clear -Hd2; revert Hd2; generalize (length (datagram example_sender
      (example_endpoint IS_CLIENT) ENCRYPTION_NONE 1452 (example_crossing n xs))); unfold kMaxPacketSize; lia].
  - split; [by right|unfold u64; cbn; lia|done|done|exact I|set_solver].
  - by destruct Hxs as [->|[-> | ->]].
  - destruct Hxs as [->|[-> | ->]]; repeat apply Forall_cons_2; try apply Forall_nil_2;
      (cbn; unfold u32, u64; split_and!; [lia..|eexists; split; [reflexivity|cbn; lia]]).
  - by destruct Hxs as [->|[-> | ->]].
  - destruct Hxs as [->|[-> | ->]]; vm_compute; split; discriminate.
  - cbn. lia.
  - done.
Qed.

Lemma example_in_reach : in_reach example_sender (example_endpoint IS_CLIENT) ENCRYPTION_NONE 1452 0 example_deliveries.
Proof.
  unfold example_deliveries. cbn [in_reach].
  repeat (split; [apply example_transmittable; unfold example_packets; set_solver|split; [reflexivity|]]). exact I.
Qed.

Lemma what_is_written_crosses_the_network_witness :
  match demo_end with
  | Some s => exists ws, ws `sublist_of` (offered <$> demo_course) /\
      terminates_in (take_in_all false true true (fun x => x * 3 / 2) 5
          (happens example_sender (example_endpoint IS_CLIENT) ENCRYPTION_NONE 1452 <$> example_deliveries)
          (example_endpoint IS_SERVER, ReceiveStream.init 5 true flow0)) (fun _ rs =>
        given (ReceiveStream.events rs.2) = concat ws /\ ReceiveStream.FinRead ∈ ReceiveStream.events rs.2)
  | None => False
  end.
Proof.
  destruct demo_end as [s|] eqn:E; [|vm_compute in E; discriminate].
  pose proof (demo_outbox s E) as Ho. pose proof (f_equal (fun x => x.1.1.1) (demo_sees s E)) as H1. simpl in H1.
  destruct (what_is_written_crosses_the_network demo_settings demo_sent 7 flow0 5 100 0 100 demo_flags [] demo_network demo_course s
    true true (fun x => x * 3 / 2) flow0 false example_sender (example_endpoint IS_CLIENT) (example_endpoint IS_SERVER)
    ENCRYPTION_NONE 1452 {| encrypter_perspective_ := IS_CLIENT |} example_deliveries) as (ws & Hws & H).
  { reflexivity. } { lia. } { exact flow0_opened_both. } { exact (demo_trace s E). } { exact demo_course_fits. }
  { rewrite H1. lia. } { rewrite H1. exact flow0_opened_8. } { reflexivity. } { reflexivity. } { reflexivity. }
  { clear. split; [done|done|split; [set_solver|by left]|done|cbn; lia]. }
  { exact example_in_reach. }
  { clear -Ho. repeat constructor; unfold from_sender; cbn; rewrite ?Ho; clear; set_solver. }
  exists ws. split; [exact Hws|].
  assert (match take_in_all false true true (fun x => x * 3 / 2) 5
          (happens example_sender (example_endpoint IS_CLIENT) ENCRYPTION_NONE 1452 <$> example_deliveries)
          (example_endpoint IS_SERVER, ReceiveStream.init 5 true flow0) with
    Ret _ rs => StreamDelivery.connected rs.2 | Crash _ => true end = true) as Hc by (vm_compute; reflexivity).
  destruct (take_in_all _ _ _ _ _ _ _) as [u rs|]; [|exact H]. destruct H as (n & _ & _ & H).
  destruct (H Hc) as [_ Hf].
  - repeat constructor; unfold uncut; simpl; clear; tauto.
  - rewrite Ho. clear. intros x Hx.
    repeat (apply elem_of_cons in Hx as [->|Hx]); [..|by apply not_elem_of_nil in Hx];
      repeat first [solve [apply Exists_cons_hd; unfold carries_frame; cbn; clear; set_solver]|apply Exists_cons_tl].
  - apply Hf. assert (SendStream.fin_sent <$> demo_end = Some true) as Hs by (vm_compute; reflexivity).
    rewrite E in Hs. exact (Some_inj _ _ Hs).
Defined.
End Example.
