(* ===== verification/ControlLedger.v ===== *)
(** The control frame manager as a ledger: which frames were asked for, how many of
    them were sent, which are acknowledged and which wait to be sent again. *)

From S2P Require Import Prelude World QuicData IntervalSet Crypter PacketNumberQueue Framer ControlFrames.
Import ControlFrameManager.

(** ** The ledger *)

(** Frames are numbered from 1 in the order in which they were asked for. *)
Record Ledger : Type := {
  asked : list QuicFrame;
  sent : nat;
  acked : gset Z;
  lost : list Z;
  log : list QuicFrame;
  shut : bool
}.

Definition blank : Ledger := {| asked := []; sent := 0; acked := ∅; lost := []; log := []; shut := false |}.

Definition ask (x : QuicFrame) (a : Ledger) : Ledger :=
  {| asked := asked a ++ [x]; sent := sent a; acked := acked a; lost := lost a; log := log a; shut := shut a |}.
Definition send_one (x : QuicFrame) (a : Ledger) : Ledger :=
  {| asked := asked a; sent := S (sent a); acked := acked a; lost := lost a; log := log a ++ [x]; shut := shut a |}.
Definition resend_one (l : list Z) (x : QuicFrame) (a : Ledger) : Ledger :=
  {| asked := asked a; sent := sent a; acked := acked a; lost := l; log := log a ++ [x]; shut := shut a |}.
Definition settle (id : Z) (a : Ledger) : Ledger :=
  {| asked := asked a; sent := sent a; acked := {[id]} ∪ acked a; lost := filter (fun x => x <> id) (lost a);
     log := log a; shut := shut a |}.
Definition lose (id : Z) (a : Ledger) : Ledger :=
  {| asked := asked a; sent := sent a; acked := acked a; lost := lost a ++ [id]; log := log a; shut := shut a |}.
Definition shut_down (a : Ledger) : Ledger :=
  {| asked := asked a; sent := sent a; acked := acked a; lost := lost a; log := log a; shut := true |}.

(** Frames that were never sent go out in order, as long as the session takes them. *)
Fixpoint send_new (w : list bool) (a : Ledger) : Ledger :=
  match w with
  | true :: w => match asked a !! sent a with Some x => send_new w (send_one x a) | None => a end
  | _ => a
  end.

(** So do lost ones, in the order in which they were lost. *)
Fixpoint send_lost (w : list bool) (a : Ledger) : Ledger :=
  match w with
  | true :: w =>
      match lost a with
      | id :: l => match asked a !! Z.to_nat (id - 1) with Some x => send_lost w (resend_one l x a) | None => a end
      | [] => a
      end
  | _ => a
  end.

(** ** Requests *)

Inductive request : Type :=
| AskRstStream (id error bytes_written : Z)
| AskGoAway (error last_good_stream_id : Z) (reason : list Z)
| AskWindowUpdate (id byte_offset : Z)
| AskBlocked (id : Z)
| AskPing.

Definition frame_of (r : request) (i : Z) : QuicFrame :=
  match r with
  | AskRstStream id error n => RST_STREAM_FRAME i id error n
  | AskGoAway error id reason => GOAWAY_FRAME i error id reason
  | AskWindowUpdate id n => WINDOW_UPDATE_FRAME i id n
  | AskBlocked id => BLOCKED_FRAME i id
  | AskPing => PING_FRAME i
  end.

(** What the session asks of the manager, with the answers of its
    [WriteControlFrame] meanwhile. *)
Inductive op : Type :=
| Ask (r : request) (w : list bool)
| Acked (x : QuicFrame)
| Lost (x : QuicFrame)
| CanWrite (w : list bool)
| Again (x : QuicFrame) (w : list bool).

Definition given_answers (w : list bool) : M Manager unit := modify (fun m => with_session m w (written m) (closed m)).

Definition request_made (r : request) : M Manager unit :=
  match r with
  | AskRstStream id error n => WriteOrBufferRstStream id error n
  | AskGoAway error id reason => WriteOrBufferGoAway error id reason
  | AskWindowUpdate id n => WriteOrBufferWindowUpdate id n
  | AskBlocked id => WriteOrBufferBlocked id
  | AskPing => WritePing
  end.

Definition carry_out (o : op) : M Manager bool :=
  match o with
  | Ask r w => given_answers w;; request_made r;; mret true
  | Acked x => OnControlFrameAcked x
  | Lost x => OnControlFrameLost x;; mret true
  | CanWrite w => given_answers w;; OnCanWrite;; mret true
  | Again x w => given_answers w;; RetransmitControlFrame x
  end.

Fixpoint carry_out_all (l : list op) : M Manager (list bool) :=
  match l with
  | [] => mret []
  | o :: l => r ← carry_out o; rs ← carry_out_all l; mret (r :: rs)
  end.

(** The same in the ledger. *)
Definition number (x : QuicFrame) : Z := GetControlFrameId x.

Definition entered (o : op) (a : Ledger) : bool * Ledger :=
  match o with
  | Ask r w =>
      let buffered := (sent a <? length (asked a))%nat in
      let a := ask (frame_of r (Z.of_nat (length (asked a)) + 1)) a in
      (true, if buffered then a else send_new w a)
  | Acked x =>
      if number x =? 0 then (false, a)
      else if number x >? Z.of_nat (sent a) then (false, shut_down a)
      else if bool_decide (number x ∈ acked a) then (false, a) else (true, settle (number x) a)
  | Lost x =>
      if number x =? 0 then (true, a)
      else if number x >? Z.of_nat (sent a) then (true, shut_down a)
      else if bool_decide (number x ∈ acked a) || bool_decide (number x ∈ lost a) then (true, a)
      else (true, lose (number x) a)
  | CanWrite w => (true, match lost a with [] => send_new w a | _ => send_lost w a end)
  | Again x w =>
      if number x =? 0 then (true, a)
      else if number x >? Z.of_nat (sent a) then (false, shut_down a)
      else if bool_decide (number x ∈ acked a) then (true, a)
      else match w with
           | true :: _ => (true, resend_one (lost a) x a)
           | _ => (false, a)
           end
  end.

Fixpoint entered_all (l : list op) (a : Ledger) : list bool * Ledger :=
  match l with
  | [] => ([], a)
  | o :: l => let '(r, a) := entered o a in let '(rs, a) := entered_all l a in (r :: rs, a)
  end.

(** ** The manager stands for the ledger *)

(** A frame of the queue: acknowledged ones have lost their id. *)
Definition entry (done : gset Z) (x : QuicFrame) : QuicFrame :=
  if decide (number x ∈ done) then SetControlFrameId kInvalidControlFrameId x else x.

Record stands (u : nat) (a : Ledger) (m : Manager) : Prop := {
  st_count : Z.of_nat (length (asked a)) < 2 ^ 32 - 1;
  st_ids : forall i x, asked a !! i = Some x -> number x = Z.of_nat i + 1;
  st_last : last_control_frame_id_ m = Z.of_nat (length (asked a));
  st_least : least_unacked_ m = Z.of_nat u + 1;
  st_prefix : forall i, (i < u)%nat -> Z.of_nat i + 1 ∈ acked a;
  st_front : Z.of_nat u + 1 ∉ acked a;
  st_frames : control_frames_ m = entry (acked a) <$> drop u (asked a);
  st_unsent : least_unsent_ m = Z.of_nat (sent a) + 1;
  st_sent : (u <= sent a <= length (asked a))%nat;
  st_acked : forall id, id ∈ acked a -> 1 <= id <= Z.of_nat (sent a);
  st_lost : forall id, id ∈ lost a -> 1 <= id <= Z.of_nat (sent a) /\ id ∉ acked a;
  st_nodup : NoDup (lost a);
  st_pending : pending_retransmissions_ m = lost a;
  st_log : written m = log a;
  st_shut : closed m = shut a
}.

Lemma stands_blank : stands 0 blank init.
Proof.
  split; try done; cbn; try lia; try set_solver. constructor.
Qed.

Lemma stands_answers u a m w : stands u a m -> stands u a (with_session m w (written m) (closed m)).
Proof. by intros []. Qed.

Lemma id_set x : number x <> 0 -> GetControlFrameId (SetControlFrameId kInvalidControlFrameId x) = 0.
Proof. by destruct x. Qed.

Lemma copy_same x : number x <> 0 -> CopyRetransmittableControlFrame x = x.
Proof. by destruct x. Qed.

Lemma entry_id done x : number x <> 0 ->
  GetControlFrameId (entry done x) = if decide (number x ∈ done) then 0 else number x.
Proof. intros Hx. unfold entry. case_decide; [by apply id_set|done]. Qed.

Section Queue.
Context {u : nat} {a : Ledger} {m : Manager} (Hst : stands u a m).

Lemma queue_length : length (control_frames_ m) = (length (asked a) - u)%nat.
Proof using Hst. rewrite (st_frames _ _ _ Hst), length_fmap, length_drop. done. Qed.

Lemma buffered_spec : HasBufferedFrames m = (sent a <? length (asked a))%nat.
Proof using Hst.
  unfold HasBufferedFrames. rewrite (st_unsent _ _ _ Hst), (st_least _ _ _ Hst), queue_length.
  pose proof (st_sent _ _ _ Hst). apply Bool.eq_iff_eq_true. rewrite Z.ltb_lt, Nat.ltb_lt. lia.
Qed.

(** The frame with number [i + 1] is in the queue, marked if it is acknowledged. *)
Lemma at_id_spec i x : (u <= i)%nat -> asked a !! i = Some x ->
  at_id (Z.of_nat i + 1) m = Ret (entry (acked a) x) m.
Proof using Hst.
  intros Hi Hx. unfold at_id, mbind, M_bind, get, deref. rewrite (st_least _ _ _ Hst), (st_frames _ _ _ Hst).
  pose proof (lookup_lt_Some _ _ _ Hx) as Hlt. pose proof (st_count _ _ _ Hst) as Hc.
  rewrite uint32_small by lia. replace (Z.to_nat (Z.of_nat i + 1 - (Z.of_nat u + 1))) with (i - u)%nat by lia.
  rewrite list_lookup_fmap, lookup_drop. replace (u + (i - u))%nat with i by lia. by rewrite Hx.
Qed.

Lemma already_acked_spec id : 1 <= id <= Z.of_nat (sent a) ->
  already_acked id m = Ret (bool_decide (id ∈ acked a)) m.
Proof using Hst.
  intros Hid. unfold already_acked, mbind, M_bind, get. rewrite (st_least _ _ _ Hst).
  pose proof (st_sent _ _ _ Hst) as Hs. destruct (Z.ltb_spec id (Z.of_nat u + 1)) as [Hlt|Hge].
  - rewrite bool_decide_true; [done|]. replace id with (Z.of_nat (Z.to_nat (id - 1)) + 1) by lia. apply (st_prefix _ _ _ Hst). lia.
  - destruct (lookup_lt_is_Some_2 (asked a) (Z.to_nat (id - 1))) as [x Hx]; [lia|].
    replace id with (Z.of_nat (Z.to_nat (id - 1)) + 1) by lia. rewrite (at_id_spec _ x) by (done || lia).
    pose proof (st_ids _ _ _ Hst _ _ Hx) as Hn. rewrite entry_id by lia. rewrite Hn. unfold mret, M_ret, kInvalidControlFrameId. f_equal.
    case_decide as Hin; [by rewrite bool_decide_true|]. rewrite bool_decide_false by done. apply Z.eqb_neq. lia.
Qed.

Lemma outstanding_spec x : 1 <= number x <= Z.of_nat (length (asked a)) ->
  IsControlFrameOutstanding x m = Ret (bool_decide (number x ∉ acked a)) m.
Proof using Hst.
  intros Hx. unfold IsControlFrameOutstanding, mbind, M_bind, get. fold (number x). cbv zeta.
  rewrite (proj2 (Z.eqb_neq _ _)) by (unfold kInvalidControlFrameId; lia).
  rewrite (st_least _ _ _ Hst), queue_length. pose proof (st_sent _ _ _ Hst) as Hs.
  rewrite (proj2 (Z.ltb_lt _ _)) by lia. rewrite Z.geb_leb. cbn [andb].
  destruct (Z.leb_spec (Z.of_nat u + 1) (number x)) as [Hge|Hlt].
  - destruct (lookup_lt_is_Some_2 (asked a) (Z.to_nat (number x - 1))) as [y Hy]; [lia|].
    pose proof (st_ids _ _ _ Hst _ _ Hy) as Hn.
    replace (number x) with (Z.of_nat (Z.to_nat (number x - 1)) + 1) at 1 by lia. rewrite (at_id_spec _ y) by (done || lia).
    rewrite entry_id by lia. unfold mret, M_ret, kInvalidControlFrameId. f_equal. replace (number y) with (number x) by lia.
    case_decide as Hin; [by rewrite bool_decide_false by tauto|]. rewrite bool_decide_true by done. by rewrite (proj2 (Z.eqb_neq _ _)) by lia.
  - unfold mret, M_ret. f_equal. symmetry. apply bool_decide_false. intros []. 
    replace (number x) with (Z.of_nat (Z.to_nat (number x - 1)) + 1) by lia. apply (st_prefix _ _ _ Hst). lia.
Qed.
End Queue.

(** ** Sending *)

Lemma filter_absent (id : Z) (l : list Z) : id ∉ l -> filter (fun x => x <> id) l = l.
Proof.
  induction l as [|x l IH]; intros Hn; [done|]. rewrite filter_cons_True by set_solver. by rewrite IH by set_solver.
Qed.

Lemma sent_first u a m x w : stands u a m -> asked a !! sent a = Some x ->
  OnControlFrameSent x (with_session m w (written m ++ [x]) (closed m)) =
  Ret tt (with_sending (with_session m w (written m ++ [x]) (closed m)) (Z.of_nat (sent a) + 2) (lost a)) /\
  stands u (send_one x a) (with_sending (with_session m w (written m ++ [x]) (closed m)) (Z.of_nat (sent a) + 2) (lost a)).
Proof.
  intros Hst Hx. pose proof (st_ids _ _ _ Hst _ _ Hx) as Hn. pose proof (lookup_lt_Some _ _ _ Hx) as Hlt.
  destruct Hst as [H1 H2 H3 H4 H5 H6 H7 H8 H9 H10 H11 H12 H13 H14 H15]. split.
  - unfold OnControlFrameSent. fold (number x). cbv zeta. rewrite Hn, (proj2 (Z.eqb_neq _ _)) by (unfold kInvalidControlFrameId; lia).
    unfold mbind, M_bind, get. cbn [pending_retransmissions_ least_unsent_ with_session]. rewrite H13.
    rewrite bool_decide_false by (intros Hin; apply H11 in Hin; lia). rewrite H8, Z.gtb_ltb, Z.ltb_irrefl.
    unfold modify. cbn [pending_retransmissions_ least_unsent_ with_session]. rewrite H8, H13, uint32_small by lia.
    do 2 f_equal. lia.
  - split; cbn; try done; try lia.
    + intros id Hid. apply H10 in Hid. lia.
    + intros id Hid. apply H11 in Hid as [??]. split; [lia|done].
    + by rewrite H14.
Qed.

Lemma write_buffered_spec : forall fuel u a m, stands u a m -> (length (asked a) - sent a <= fuel)%nat ->
  terminates_in (write_buffered fuel m) (fun _ m' => stands u (send_new (willing m) a) m').
Proof.
  induction fuel as [|fuel IH]; intros u a m Hst Hf; cbn [write_buffered]; unfold mbind at 1, M_bind at 1, get;
    rewrite (buffered_spec Hst); destruct (Nat.ltb_spec (sent a) (length (asked a))) as [Hlt|Hge]; try lia.
  1,3: assert (asked a !! sent a = None) as E by (apply lookup_ge_None; lia);
    destruct (willing m) as [|[] w]; cbn; rewrite ?E; exact Hst.
  destruct (lookup_lt_is_Some_2 _ _ Hlt) as [x Hx]. pose proof (st_ids _ _ _ Hst _ _ Hx) as Hn.
  rewrite (st_unsent _ _ _ Hst). unfold mbind at 1, M_bind at 1. pose proof (st_sent _ _ _ Hst) as Hs.
  rewrite (at_id_spec Hst _ x) by (done || lia).
  assert (entry (acked a) x = x) as ->.
  { unfold entry. rewrite decide_False; [done|]. intros Hin. apply (st_acked _ _ _ Hst) in Hin. lia. }
  rewrite copy_same by lia. unfold mbind at 1, M_bind at 1, WriteControlFrame.
  destruct (willing m) as [|[] w] eqn:Ew; cbn [send_new]; [exact Hst| |by apply stands_answers].
  rewrite Hx. destruct (sent_first u a m x w Hst Hx) as [E Hst']. unfold mbind at 1, M_bind at 1. rewrite E.
  apply (IH u (send_one x a) _ Hst'). cbn. lia.
Qed.

Lemma lost_again u a m id l x w : stands u a m -> lost a = id :: l -> asked a !! Z.to_nat (id - 1) = Some x ->
  OnControlFrameSent x (with_session m w (written m ++ [x]) (closed m)) =
  Ret tt (with_sending (with_session m w (written m ++ [x]) (closed m)) (least_unsent_ m) l) /\
  stands u (resend_one l x a) (with_sending (with_session m w (written m ++ [x]) (closed m)) (least_unsent_ m) l).
Proof.
  intros Hst Hl Hx. pose proof (st_ids _ _ _ Hst _ _ Hx) as Hn.
  destruct (st_lost _ _ _ Hst id) as [Hid Hna]; [rewrite Hl; set_solver|].
  pose proof (st_nodup _ _ _ Hst) as Hnd. rewrite Hl in Hnd. apply NoDup_cons in Hnd as [Hni Hnd].
  destruct Hst as [H1 H2 H3 H4 H5 H6 H7 H8 H9 H10 H11 H12 H13 H14 H15]. split.
  - unfold OnControlFrameSent. fold (number x). cbv zeta. rewrite Hn, (proj2 (Z.eqb_neq _ _)) by (unfold kInvalidControlFrameId; lia).
    replace (Z.of_nat (Z.to_nat (id - 1)) + 1) with id by lia.
    unfold mbind, M_bind, get. cbn [pending_retransmissions_ least_unsent_ with_session]. rewrite H13, Hl, bool_decide_true by set_solver.
    unfold modify. cbn [pending_retransmissions_ least_unsent_ with_session]. rewrite H13, Hl, filter_cons_False by tauto.
    by rewrite filter_absent.
  - split; cbn; try done.
    + intros y Hy. apply H11. rewrite Hl. set_solver.
    + by rewrite H14.
Qed.

Lemma pending_resent : forall fuel u a m, stands u a m -> (length (lost a) <= fuel)%nat ->
  terminates_in (write_pending fuel m) (fun _ m' => stands u (send_lost (willing m) a) m').
Proof.
  induction fuel as [|fuel IH]; intros u a m Hst Hf; cbn [write_pending]; unfold mbind at 1, M_bind at 1, get;
    unfold HasPendingRetransmission; rewrite (st_pending _ _ _ Hst); destruct (lost a) as [|id l] eqn:Hl; try (cbn in Hf; lia).
  1,2: destruct (willing m) as [|[] w]; cbn; rewrite ?Hl; exact Hst.
  destruct (st_lost _ _ _ Hst id) as [Hid Hna]; [rewrite Hl; set_solver|]. pose proof (st_sent _ _ _ Hst) as Hs.
  destruct (lookup_lt_is_Some_2 (asked a) (Z.to_nat (id - 1))) as [x Hx]; [lia|]. pose proof (st_ids _ _ _ Hst _ _ Hx) as Hn.
  unfold NextPendingRetransmission. unfold mbind at 1, M_bind at 1. unfold mbind at 1, M_bind at 1, get.
  rewrite (st_pending _ _ _ Hst), Hl. cbn [head]. unfold mbind at 1, M_bind at 1, deref.
  replace id with (Z.of_nat (Z.to_nat (id - 1)) + 1) at 1 by lia.
  rewrite (at_id_spec Hst _ x); [|destruct (decide (u <= Z.to_nat (id - 1))%nat) as [|Hlt]; [done|]; destruct Hna|done].
  2: { replace id with (Z.of_nat (Z.to_nat (id - 1)) + 1) by lia. apply (st_prefix _ _ _ Hst). lia. }
  assert (entry (acked a) x = x) as ->.
  { unfold entry. rewrite decide_False; [done|]. rewrite Hn. by replace (Z.of_nat (Z.to_nat (id - 1)) + 1) with id by lia. }
  rewrite copy_same by lia. unfold mbind at 1, M_bind at 1, WriteControlFrame.
  destruct (willing m) as [|[] w] eqn:Ew; cbn [send_lost]; [exact Hst| |by apply stands_answers].
  rewrite Hl, Hx. destruct (lost_again u a m id l x w Hst Hl Hx) as [E Hst']. unfold mbind at 1, M_bind at 1. rewrite E.
  apply (IH u (resend_one l x a) _ Hst'). cbn in Hf |- *. lia.
Qed.

(** ** Acknowledging *)

(** Marking the frame is the same as adding its number to the set. *)
Lemma entries_settled done id : id ∉ done -> forall (l : list QuicFrame) (u i : nat),
  (forall k x, l !! k = Some x -> number x = Z.of_nat (u + k) + 1) -> id = Z.of_nat (u + i) + 1 ->
  alter (SetControlFrameId kInvalidControlFrameId) i (entry done <$> l) = entry ({[id]} ∪ done) <$> l.
Proof.
  intros Hid. induction l as [|x l IH]; intros u i Hl Hi; [done|].
  assert (number x = Z.of_nat u + 1) as Hx by (rewrite (Hl 0%nat x) by done; lia).
  assert (forall k y, l !! k = Some y -> number y = Z.of_nat (S u + k) + 1) as Hl'
    by (intros k y Hy; rewrite (Hl (S k) y) by done; lia).
  destruct i as [|i]; rewrite !fmap_cons.
  - cbn [alter list_alter]. replace id with (number x) in * by lia. f_equal.
    + unfold entry. by rewrite decide_False, decide_True by set_solver.
    + apply list_fmap_ext. intros k y Hy. unfold entry. rewrite (Hl' k y Hy).
      case_decide; case_decide; try done; set_solver by lia.
  - change (alter ?f (S i) (?y :: ?l)) with (y :: alter f i l). rewrite (IH (S u) i) by (done || lia). f_equal.
    unfold entry. case_decide; case_decide; try done; set_solver by lia.
Qed.

(** The loop removes what is acknowledged at the front. *)
Lemma clean_up_spec done : forall (l : list QuicFrame) (u : nat), (forall k x, l !! k = Some x -> number x = Z.of_nat (u + k) + 1) ->
  Z.of_nat (u + length l) < 2 ^ 32 - 1 -> exists n, (n <= length l)%nat /\
    clean_up (entry done <$> l) (Z.of_nat u + 1) = (entry done <$> drop n l, Z.of_nat (u + n) + 1) /\
    (forall i, (i < n)%nat -> Z.of_nat (u + i) + 1 ∈ done) /\ ((n < length l)%nat -> Z.of_nat (u + n) + 1 ∉ done).
Proof.
  induction l as [|x l IH]; intros u Hl Hc.
  { exists 0%nat. rewrite Nat.add_0_r. split_and!; [done|done|lia|cbn; lia]. }
  assert (number x = Z.of_nat u + 1) as Hx by (rewrite (Hl 0%nat x) by done; lia). cbn [length] in Hc.
  rewrite fmap_cons. cbn [clean_up]. rewrite entry_id by lia. unfold kInvalidControlFrameId. case_decide as Hin.
  - destruct (IH (S u)) as (n & Hn & E & Hp & Hf); [intros k y Hy; rewrite (Hl (S k) y) by done; lia|lia|].
    exists (S n). rewrite uint32_small by lia. replace (Z.of_nat u + 1 + 1) with (Z.of_nat (S u) + 1) by lia.
    cbn [Z.eqb]. rewrite E. split_and!.
    + cbn. lia.
    + cbn [drop]. f_equal. lia.
    + intros [|i] Hi; [rewrite Nat.add_0_r; by rewrite <- Hx|]. replace (u + S i)%nat with (S u + i)%nat by lia. apply Hp. lia.
    + intros Hlt. replace (u + S n)%nat with (S u + n)%nat by lia. apply Hf. cbn in Hlt. lia.
  - rewrite (proj2 (Z.eqb_neq _ _)) by lia. exists 0%nat. rewrite Nat.add_0_r. split_and!; [lia|done|lia|]. by rewrite <- Hx.
Qed.

Lemma ack_settles u a m x : stands u a m -> 1 <= number x <= Z.of_nat (sent a) -> number x ∉ acked a ->
  terminates_in (OnControlFrameAcked x m) (fun r m' => r = true /\ exists u', stands u' (settle (number x) a) m').
Proof.
  intros Hst Hx Hna. unfold OnControlFrameAcked. fold (number x). cbv zeta.
  rewrite (proj2 (Z.eqb_neq _ _)) by (unfold kInvalidControlFrameId; lia).
  unfold mbind at 1, M_bind at 1, get. rewrite (st_unsent _ _ _ Hst), Z.geb_leb, (proj2 (Z.leb_gt _ _)) by lia.
  unfold mbind at 1, M_bind at 1. rewrite (already_acked_spec Hst) by done. rewrite bool_decide_false by done.
  unfold mbind, M_bind, modify. cbn [mret M_ret terminates_in]. split; [done|].
  set (id := number x) in *. pose proof Hst as [H1 H2 H3 H4 H5 H6 H7 H8 H9 H10 H11 H12 H13 H14 H15].
  assert (u <= Z.to_nat (id - 1))%nat as Hu.
  { destruct (decide (u <= Z.to_nat (id - 1))%nat); [done|]. destruct Hna.
    replace id with (Z.of_nat (Z.to_nat (id - 1)) + 1) by lia. apply H5. lia. }
  cbn [least_unacked_ with_sending control_frames_ last_control_frame_id_]. rewrite H4, H7.
  rewrite (entries_settled (acked a) id Hna (drop u (asked a)) u).
  2: { intros k y Hy. rewrite lookup_drop in Hy. apply (H2 _ _ Hy). }
  2: { rewrite uint32_small by lia. lia. }
  destruct (clean_up_spec ({[id]} ∪ acked a) (drop u (asked a)) u) as (n & Hn & E & Hp & Hf).
  { intros k y Hy. rewrite lookup_drop in Hy. apply (H2 _ _ Hy). }
  { rewrite length_drop. lia. }
  rewrite length_drop in Hn, Hf. rewrite E. exists (u + n)%nat.
  assert (forall y, y ∈ {[id]} ∪ acked a -> 1 <= y <= Z.of_nat (sent a)) as Hin by (intros y Hy; set_unfold in Hy; destruct Hy as [->|Hy]; [lia|by apply H10]).
  assert (u + n <= sent a)%nat as Hun.
  { destruct n as [|n]; [lia|]. pose proof (Hin _ (Hp n ltac:(lia))). lia. }
  split; cbn; try done.
  - intros i Hi. destruct (decide (i < u)%nat) as [Hlt|Hge]; [apply H5 in Hlt; set_solver|].
    replace i with (u + (i - u))%nat by lia. apply Hp. lia.
  - destruct (decide (n < length (asked a) - u)%nat) as [Hlt|Hge]; [by apply Hf|]. intros Hin'. apply Hin in Hin'. lia.
  - by rewrite drop_drop.
  - lia.
  - intros y Hy. apply list_elem_of_filter in Hy as [Hne Hy]. destruct (H11 _ Hy). split; [done|]. set_solver.
  - by apply NoDup_filter.
  - by rewrite H13.
Qed.

(** ** Every operation *)

Lemma request_write r : request_made r = write_or_buffer (frame_of r).
Proof. by destruct r. Qed.

Lemma ask_spec u a m r : stands u a m -> Z.of_nat (length (asked a)) + 1 < 2 ^ 32 - 1 ->
  terminates_in (write_or_buffer (frame_of r) m) (fun _ m' => stands u (entered (Ask r (willing m)) a).2 m').
Proof.
  intros Hst Hc. unfold write_or_buffer. unfold mbind at 1, M_bind at 1, get. rewrite (buffered_spec Hst). cbv zeta.
  unfold mbind at 1, M_bind at 1, modify. cbn [entered]. cbv zeta.
  pose proof Hst as [H1 H2 H3 H4 H5 H6 H7 H8 H9 H10 H11 H12 H13 H14 H15].
  rewrite H3, uint32_small by lia. set (x := frame_of r (Z.of_nat (length (asked a)) + 1)).
  assert (number x = Z.of_nat (length (asked a)) + 1) as Hx by (by destruct r).
  assert (stands u (ask x a) (with_frames m (control_frames_ m ++ [x]) (Z.of_nat (length (asked a)) + 1) (least_unacked_ m))) as Hst'.
  { split; cbn; try done.
    - rewrite length_app. cbn. lia.
    - intros i y Hy. apply lookup_app_Some in Hy as [Hy|[Hi Hy]]; [by apply H2|].
      apply list_lookup_singleton_Some in Hy as [Hz <-]. rewrite Hx. lia.
    - rewrite length_app. cbn. lia.
    - rewrite H7, drop_app_le, fmap_app by lia. f_equal. cbn. f_equal. unfold entry. rewrite decide_False; [done|].
      intros Hin. apply H10 in Hin. lia.
    - rewrite length_app. cbn. lia. }
  destruct (Nat.ltb_spec (sent a) (length (asked a))); [exact Hst'|].
  unfold WriteBufferedFrames. unfold mbind at 1, M_bind at 1, get.
  eapply total_mono; [apply (write_buffered_spec _ u _ _ Hst')|cbv beta; intros _ m'; exact id].
  rewrite (queue_length Hst'). cbn [asked sent ask]. rewrite !length_app. cbn. lia.
Qed.

Lemma lost_spec u a m x : stands u a m -> 0 <= number x ->
  terminates_in (OnControlFrameLost x m) (fun _ m' => stands u (entered (Lost x) a).2 m').
Proof.
  intros Hst Hx. unfold OnControlFrameLost. fold (number x). cbv zeta. cbn [entered]. unfold kInvalidControlFrameId.
  destruct (Z.eqb_spec (number x) 0); [exact Hst|]. unfold mbind at 1, M_bind at 1, get.
  rewrite (st_unsent _ _ _ Hst), Z.geb_leb, Z.gtb_ltb.
  destruct (Z.ltb_spec (Z.of_nat (sent a)) (number x)) as [Hlt|Hge].
  { rewrite (proj2 (Z.leb_le _ _)) by lia. by destruct Hst. }
  rewrite (proj2 (Z.leb_gt _ _)) by lia. unfold mbind at 1, M_bind at 1. rewrite (already_acked_spec Hst) by lia.
  destruct (bool_decide_reflect (number x ∈ acked a)) as [|Hna]; [exact Hst|]. rewrite (st_pending _ _ _ Hst). cbn [orb].
  destruct (bool_decide_reflect (number x ∈ lost a)) as [|Hnl]; [exact Hst|].
  unfold modify. cbn [terminates_in]. pose proof Hst as [H1 H2 H3 H4 H5 H6 H7 H8 H9 H10 H11 H12 H13 H14 H15].
  split; cbn; try done.
  - intros y Hy. apply elem_of_app in Hy as [Hy| ->%list_elem_of_singleton]; [by apply H11|]. split; [lia|done].
  - apply NoDup_app. split_and!; [done|set_solver|apply NoDup_singleton].
  - by rewrite H13.
Qed.

Lemma can_write_spec u a m : stands u a m ->
  terminates_in (OnCanWrite m) (fun _ m' => stands u (entered (CanWrite (willing m)) a).2 m').
Proof.
  intros Hst. unfold OnCanWrite. unfold mbind at 1, M_bind at 1, get. unfold HasPendingRetransmission.
  pose proof (st_pending _ _ _ Hst) as Hp. cbn [entered snd]. destruct (lost a) as [|id l] eqn:Hl; rewrite Hp.
  - unfold WriteBufferedFrames. unfold mbind at 1, M_bind at 1, get. apply write_buffered_spec; [done|].
    rewrite (queue_length Hst). pose proof (st_sent _ _ _ Hst). lia.
  - unfold WritePendingRetransmission. unfold mbind at 1, M_bind at 1, get. apply pending_resent; [done|]. by rewrite Hp, Hl.
Qed.

Lemma again_spec u a m x : stands u a m -> 0 <= number x ->
  terminates_in (RetransmitControlFrame x m) (fun r m' =>
    r = (entered (Again x (willing m)) a).1 /\ stands u (entered (Again x (willing m)) a).2 m').
Proof.
  intros Hst Hx. unfold RetransmitControlFrame. fold (number x). cbv zeta. cbn [entered]. unfold kInvalidControlFrameId.
  destruct (Z.eqb_spec (number x) 0); [by split|]. unfold mbind at 1, M_bind at 1, get.
  rewrite (st_unsent _ _ _ Hst), Z.geb_leb, Z.gtb_ltb.
  destruct (Z.ltb_spec (Z.of_nat (sent a)) (number x)) as [Hlt|Hge].
  { rewrite (proj2 (Z.leb_le _ _)) by lia. split; [done|]. by destruct Hst. }
  rewrite (proj2 (Z.leb_gt _ _)) by lia. unfold mbind at 1, M_bind at 1. rewrite (already_acked_spec Hst) by lia.
  destruct (bool_decide_reflect (number x ∈ acked a)) as [|Hna]; [by split|]. rewrite copy_same by done. unfold WriteControlFrame.
  destruct (willing m) as [|[] w]; (split; [done|]); [done| |by apply stands_answers].
  destruct Hst as [H1 H2 H3 H4 H5 H6 H7 H8 H9 H10 H11 H12 H13 H14 H15]. split; cbn; try done. by rewrite H14.
Qed.

(** The numbers an operation mentions are those of 32-bit ids. *)
Definition numbered (o : op) : Prop :=
  match o with Acked x | Lost x | Again x _ => 0 <= number x | _ => True end.

Lemma carried_out u a m o : stands u a m -> Z.of_nat (length (asked a)) + 1 < 2 ^ 32 - 1 -> numbered o ->
  terminates_in (carry_out o m) (fun r m' => r = (entered o a).1 /\ exists u', stands u' (entered o a).2 m').
Proof.
  intros Hst Hc Ho. destruct o as [r w|x|x|w|x w]; cbn [carry_out].
  - rewrite request_write. unfold mbind at 1, M_bind at 1, given_answers, modify. apply total_bind.
    eapply total_mono; [apply (ask_spec u a _ r (stands_answers u a m w Hst) Hc)|]. cbv beta. intros _ m' Hm'. by split; [|exists u].
  - cbn in Ho. destruct (decide (1 <= number x <= Z.of_nat (sent a) /\ number x ∉ acked a)) as [[Hx Hna]|Hno].
    + eapply total_mono; [by apply (ack_settles u)|]. cbv beta. intros r m' [-> Hm']. cbn [entered].
      rewrite (proj2 (Z.eqb_neq _ _)), Z.gtb_ltb, (proj2 (Z.ltb_ge _ _)), bool_decide_false by (done || lia). by split.
    + unfold OnControlFrameAcked. fold (number x). cbv zeta. cbn [entered]. unfold kInvalidControlFrameId.
      destruct (Z.eqb_spec (number x) 0); [by split; [|exists u]|]. unfold mbind at 1, M_bind at 1, get.
      rewrite (st_unsent _ _ _ Hst), Z.geb_leb, Z.gtb_ltb.
      destruct (Z.ltb_spec (Z.of_nat (sent a)) (number x)) as [Hlt|Hge].
      { rewrite (proj2 (Z.leb_le _ _)) by lia. split; [done|]. exists u. by destruct Hst. }
      rewrite (proj2 (Z.leb_gt _ _)) by lia. unfold mbind at 1, M_bind at 1. rewrite (already_acked_spec Hst) by lia.
      destruct (bool_decide_reflect (number x ∈ acked a)); [by split; [|exists u]|]. destruct Hno. split; [lia|done].
  - apply total_bind. eapply total_mono; [by apply (lost_spec u a m x)|]. cbv beta. intros _ m' Hm'. cbn [mret M_ret terminates_in].
    split; [cbn; by repeat case_match|by exists u].
  - unfold mbind at 1, M_bind at 1, given_answers, modify. apply total_bind.
    eapply total_mono; [apply (can_write_spec u a _ (stands_answers u a m w Hst))|]. cbv beta. intros _ m' Hm'. by split; [|exists u].
  - unfold mbind at 1, M_bind at 1, given_answers, modify.
    eapply total_mono; [apply (again_spec u a _ x (stands_answers u a m w Hst) Ho)|]. cbv beta. intros r m' [-> Hm']. by split; [|exists u].
Qed.

Lemma asked_grows o a : (length (asked (entered o a).2) <= S (length (asked a)))%nat.
Proof.
  assert (forall w a, asked (send_new w a) = asked a) as Hn.
  { induction w as [|[] w IH]; intros b; [done| |done]. cbn [send_new]. destruct (_ !! _); [|done]. by rewrite IH. }
  assert (forall w a, asked (send_lost w a) = asked a) as Hl.
  { induction w as [|[] w IH]; intros b; [done| |done]. cbn [send_lost]. destruct (lost b); [done|]. destruct (_ !! _); [|done]. by rewrite IH. }
  destruct o; cbn [entered]; cbv zeta; repeat case_match; cbn [snd]; rewrite ?Hn, ?Hl; cbn [asked ask settle shut_down lose resend_one];
    rewrite ?length_app; cbn [length]; lia.
Qed.

Lemma all_carried_out : forall l u a m, stands u a m -> Forall numbered l ->
  Z.of_nat (length (asked a)) + Z.of_nat (length l) < 2 ^ 32 - 1 ->
  terminates_in (carry_out_all l m) (fun rs m' => rs = (entered_all l a).1 /\ exists u', stands u' (entered_all l a).2 m').
Proof.
  induction l as [|o l IH]; intros u a m Hst Hl Hc; [by split; [|exists u]|].
  apply Forall_cons in Hl as [Ho Hl]. cbn [length] in Hc. cbn [carry_out_all entered_all]. apply total_bind.
  eapply total_mono; [apply (carried_out u a m o Hst); [lia|done]|]. cbv beta. intros r m' [-> [u' Hst']].
  pose proof (asked_grows o a) as Hg. destruct (entered o a) as [r a']. cbn [fst snd] in *. apply total_bind.
  eapply total_mono; [apply (IH u' a' m' Hst' Hl); lia|]. cbv beta. intros rs m'' [-> Hst''].
  destruct (entered_all l a') as [rs a'']. by split.
Qed.

(** C18: In any course of requests, acknowledgements, losses and turns to write, whatever
    the connection takes, no operation of the control frame manager fails: it is a ledger in
    which the frames get the ids 1, 2, 3 ... in the order of the requests, are first sent in
    that order, and each one is kept with its contents until it is acknowledged; a lost one
    is sent again, an acknowledged one is not. *)
Theorem control_frames_are_kept_until_acknowledged l : Forall numbered l -> Z.of_nat (length l) < 2 ^ 32 - 1 ->
  let '(answers, a) := entered_all l blank in
  terminates_in (carry_out_all l init) (fun rs m =>
    rs = answers /\ written m = log a /\ closed m = shut a /\
    WillingToWrite m = negb (bool_decide (lost a = [])) || (sent a <? length (asked a))%nat /\
    forall i x, asked a !! i = Some x -> number x = Z.of_nat i + 1 /\
      IsControlFrameOutstanding x m = Ret (bool_decide (number x ∉ acked a)) m /\
      (number x ∉ acked a -> x ∈ control_frames_ m)).
Proof.
  intros Hl Hc. pose proof (all_carried_out l 0 blank init stands_blank Hl Hc) as H.
  destruct (entered_all l blank) as [answers a]. cbn [fst snd] in H. eapply total_mono; [exact H|].
  cbv beta. intros rs m (-> & u & Hst). split_and!; [done|apply Hst|apply Hst| |].
  - unfold WillingToWrite, HasPendingRetransmission. rewrite (buffered_spec Hst), (st_pending _ _ _ Hst). by destruct (lost a).
  - intros i x Hx. pose proof (st_ids _ _ _ Hst i x Hx) as Hn. pose proof (lookup_lt_Some _ _ _ Hx) as Hlt. split; [done|].
    split; [apply (outstanding_spec Hst); lia|]. intros Hna. rewrite (st_frames _ _ _ Hst).
    apply list_elem_of_fmap. exists x. split; [unfold entry; by rewrite decide_False|].
    assert (u <= i)%nat as Hu.
    { destruct (decide (u <= i)%nat); [done|]. destruct Hna. rewrite Hn. apply (st_prefix _ _ _ Hst). lia. }
    apply list_elem_of_lookup. exists (i - u)%nat. rewrite lookup_drop. by replace (u + (i - u))%nat with i by lia.
Qed.

(** Two window updates and a reset; the session is blocked after the first, the
    first is lost and sent again, the second acknowledged twice. *)
Definition demo_ops : list op :=
  [Ask (AskWindowUpdate 5 100) [true]; Ask (AskBlocked 5) [false]; Ask (AskRstStream 7 6 20) [true]; CanWrite [true; true; true];
   Lost (WINDOW_UPDATE_FRAME 1 5 100); Lost (BLOCKED_FRAME 2 5); CanWrite [true; false]; Acked (BLOCKED_FRAME 2 5);
   Acked (BLOCKED_FRAME 2 5); Acked (WINDOW_UPDATE_FRAME 1 5 100)].

Lemma control_frames_are_kept_until_acknowledged_witness :
  terminates_in (carry_out_all demo_ops init) (fun rs m =>
    rs = [true; true; true; true; true; true; true; true; false; true] /\
    written m = [WINDOW_UPDATE_FRAME 1 5 100; BLOCKED_FRAME 2 5; RST_STREAM_FRAME 3 7 6 20; WINDOW_UPDATE_FRAME 1 5 100] /\
    RST_STREAM_FRAME 3 7 6 20 ∈ control_frames_ m /\ WillingToWrite m = false).
Proof.
  assert (Forall numbered demo_ops) as Hn by (repeat constructor; cbn; lia).
  pose proof (control_frames_are_kept_until_acknowledged demo_ops Hn eq_refl) as H.
  assert (entered_all demo_ops blank = ([true; true; true; true; true; true; true; true; false; true],
    {| asked := [WINDOW_UPDATE_FRAME 1 5 100; BLOCKED_FRAME 2 5; RST_STREAM_FRAME 3 7 6 20]; sent := 3;
       acked := {[1]} ∪ ({[2]} ∪ ∅); lost := []; shut := false;
       log := [WINDOW_UPDATE_FRAME 1 5 100; BLOCKED_FRAME 2 5; RST_STREAM_FRAME 3 7 6 20; WINDOW_UPDATE_FRAME 1 5 100] |})) as E
    by (vm_compute; reflexivity).
  rewrite E in H. destruct (carry_out_all demo_ops init) as [rs m|]; [|exact H]. destruct H as (H1 & H2 & _ & H4 & H5).
  split_and!; [exact H1|exact H2| |exact H4]. destruct (H5 2%nat _ eq_refl) as (_ & _ & H6). apply H6. set_solver by lia.
Defined.
