(* ===== verification/ReceivedPackets.v ===== *)
(** Which packets arrived: [QuicReceivedPacketManager] of
    libquic/net/quic/core/quic_received_packet_manager.cc records the packets of a
    connection and makes the acknowledgements that are sent for them. *)

From S2P Require Import Prelude World QuicData Wire IntervalSet Intervals PacketNumberQueue PacketNumbers Framer AckWire.
Import Interval.

Module ReceivedPacketManager.

(** The fields of [QuicConnectionStats] that the manager keeps. *)
Record Stats : Type := {
  packets_reordered : Z;
  max_sequence_reordering : Z;
  max_time_reordering_us : Z
}.

(** [class QuicReceivedPacketManager]; times are microseconds, [QuicTime::Zero()] is 0. *)
Record Manager : Type := {
  peer_least_packet_awaiting_ack_ : Z;
  ack_frame_ : QuicAckFrame;
  ack_frame_updated_ : bool;
  max_ack_ranges_ : Z;
  time_largest_observed_ : Z;
  stats_ : Stats
}.

(** [QuicReceivedPacketManager(stats)] and [set_max_ack_ranges(max_ack_ranges)] *)
Definition init (max_ack_ranges : Z) : Manager :=
  {| peer_least_packet_awaiting_ack_ := 0; ack_frame_ := QuicAckFrame_init; ack_frame_updated_ := false;
     max_ack_ranges_ := max_ack_ranges; time_largest_observed_ := 0;
     stats_ := {| packets_reordered := 0; max_sequence_reordering := 0; max_time_reordering_us := 0 |} |}.

(** [void RecordPacketReceived(header, receipt_time)] *)
Definition RecordPacketReceived (packet_number receipt_time : Z) (m : Manager) : Manager :=
  let a := ack_frame_ m in
  let largest := LargestAcked a in
  let times := if negb (ack_frame_updated_ m) then [] else received_packet_times a in
  let s := stats_ m in
  let stats :=
    if largest >? packet_number then
      {| packets_reordered := uint64 (packets_reordered s + 1);
         max_sequence_reordering := Z.max (max_sequence_reordering s) (uint64 (largest - packet_number));
         max_time_reordering_us := Z.max (max_time_reordering_us s) (receipt_time - time_largest_observed_ m) |}
    else s in
  let newest := packet_number >? largest in
  {| peer_least_packet_awaiting_ack_ := peer_least_packet_awaiting_ack_ m;
     ack_frame_ := {| largest_acked := if newest then packet_number else largest_acked a;
                      ack_delay_time := ack_delay_time a;
                      received_packet_times := times ++ [(packet_number, receipt_time)];
                      packets := PacketNumberQueue.Add packet_number (packets a) |};
     ack_frame_updated_ := true;
     max_ack_ranges_ := max_ack_ranges_ m;
     time_largest_observed_ := if newest then receipt_time else time_largest_observed_ m;
     stats_ := stats |}.

(** [bool IsMissing(packet_number)] *)
Definition IsMissing (packet_number : Z) (m : Manager) : bool :=
  (packet_number <? LargestAcked (ack_frame_ m)) && negb (PacketNumberQueue.Contains packet_number (packets (ack_frame_ m))).

(** [bool IsAwaitingPacket(packet_number)] *)
Definition IsAwaitingPacket (packet_number : Z) (m : Manager) : bool :=
  (packet_number >=? peer_least_packet_awaiting_ack_ m) &&
  negb (PacketNumberQueue.Contains packet_number (packets (ack_frame_ m))).

(** The loop that drops the smallest intervals. *)
Fixpoint trim (max_ack_ranges : Z) (q : list Interval) : list Interval :=
  match q with
  | [] => q
  | _ :: r => if (max_ack_ranges >? 0) && (PacketNumberQueue.NumIntervals q >? max_ack_ranges) then trim max_ack_ranges r else q
  end.

(** [const QuicFrame GetUpdatedAckFrame(approximate_now)] *)
Definition GetUpdatedAckFrame (approximate_now : Z) (m : Manager) : QuicFrame * Manager :=
  let a := ack_frame_ m in
  let delay :=
    if time_largest_observed_ m =? 0 then kQuicInfiniteTimeUs
    else if approximate_now <? time_largest_observed_ m then 0 else approximate_now - time_largest_observed_ m in
  let a := {| largest_acked := largest_acked a; ack_delay_time := delay;
              received_packet_times := filter (fun p => uint64 (LargestAcked a - p.1) < 255) (received_packet_times a);
              packets := trim (max_ack_ranges_ m) (packets a) |} in
  (ACK_FRAME a,
   {| peer_least_packet_awaiting_ack_ := peer_least_packet_awaiting_ack_ m; ack_frame_ := a; ack_frame_updated_ := false;
      max_ack_ranges_ := max_ack_ranges_ m; time_largest_observed_ := time_largest_observed_ m; stats_ := stats_ m |}).

(** [void DontWaitForPacketsBefore(least_unacked)] *)
Definition DontWaitForPacketsBefore (least_unacked : Z) (m : Manager) : Manager :=
  if least_unacked >? peer_least_packet_awaiting_ack_ m then
    let a := ack_frame_ m in
    let '(packets_updated, q) := PacketNumberQueue.RemoveUpTo least_unacked (packets a) in
    {| peer_least_packet_awaiting_ack_ := least_unacked;
       ack_frame_ := {| largest_acked := largest_acked a; ack_delay_time := ack_delay_time a;
                        received_packet_times := received_packet_times a; packets := q |};
       ack_frame_updated_ := if packets_updated : bool then true else ack_frame_updated_ m;
       max_ack_ranges_ := max_ack_ranges_ m; time_largest_observed_ := time_largest_observed_ m; stats_ := stats_ m |}
  else m.

(** [bool HasMissingPackets() const] *)
Definition HasMissingPackets (m : Manager) : bool :=
  let q := packets (ack_frame_ m) in
  (PacketNumberQueue.NumIntervals q >? 1) ||
  (negb (PacketNumberQueue.Empty q) && (PacketNumberQueue.Min q >? Z.max 1 (peer_least_packet_awaiting_ack_ m))).

Definition kMaxPacketsAfterNewMissing : Z := 4.

(** [bool HasNewMissingPackets() const] *)
Definition HasNewMissingPackets (m : Manager) : bool :=
  HasMissingPackets m && (PacketNumberQueue.LastIntervalLength (packets (ack_frame_ m)) <=? kMaxPacketsAfterNewMissing).

Definition GetLargestObserved (m : Manager) : Z := LargestAcked (ack_frame_ m).

End ReceivedPacketManager.
Import ReceivedPacketManager.

(** ** What the connection asks of the manager *)

(** A packet arrives: the connection records it if it waits for it.  The peer says
    that it will not send the packets below [least_unacked] again.  An
    acknowledgement is made. *)
Inductive occasion : Type :=
| PacketArrives (packet_number receipt_time : Z)
| StopWaiting (least_unacked : Z)
| AckMade (approximate_now : Z).

Definition meet (o : occasion) (m : Manager) : Manager :=
  match o with
  | PacketArrives n t => if IsAwaitingPacket n m then RecordPacketReceived n t m else m
  | StopWaiting n => DontWaitForPacketsBefore n m
  | AckMade now => (GetUpdatedAckFrame now m).2
  end.

Definition meet_all (l : list occasion) (m : Manager) : Manager := fold_left (fun m o => meet o m) l m.

(** Packet numbers and times are in range, and the peer gives up no packet above
    the largest that arrived. *)
Definition proper (o : occasion) (m : Manager) : Prop :=
  match o with
  | PacketArrives n t => 0 < n < 2 ^ 62 /\ 0 < t < 2 ^ 62
  | StopWaiting n => n <= GetLargestObserved m
  | AckMade now => 0 <= now < 2 ^ 62
  end.

Fixpoint proper_all (l : list occasion) (m : Manager) : Prop :=
  match l with
  | [] => True
  | o :: l => proper o m /\ proper_all l (meet o m)
  end.

(** Some ranges did not fit the acknowledgement and were dropped. *)
Definition trims (o : occasion) (m : Manager) : bool :=
  match o with
  | AckMade _ => (max_ack_ranges_ m >? 0) && (PacketNumberQueue.NumIntervals (packets (ack_frame_ m)) >? max_ack_ranges_ m)
  | _ => false
  end.

Fixpoint trims_some (l : list occasion) (m : Manager) : bool :=
  match l with
  | [] => false
  | o :: l => trims o m || trims_some l (meet o m)
  end.

Definition arrived_in (l : list occasion) : list Z :=
  omap (fun o => match o with PacketArrives n _ => Some n | _ => None end) l.

(** ** The set it keeps *)

Notation kept m v := (member v (packets (ack_frame_ m))).

(** [R] arrived so far, and [whole] if nothing was dropped. *)
Record sane (R : list Z) (whole : bool) (m : Manager) : Prop := {
  sn_wf : wf (packets (ack_frame_ m));
  sn_sound : forall v, kept m v -> v ∈ R /\ peer_least_packet_awaiting_ack_ m <= v;
  sn_whole : whole = true -> forall v, v ∈ R -> peer_least_packet_awaiting_ack_ m <= v -> kept m v;
  sn_range : Forall (fun v => 0 < v < 2 ^ 62) R;
  sn_largest : largest_acked (ack_frame_ m) = foldr Z.max 0 R;
  sn_top : R <> [] -> kept m (largest_acked (ack_frame_ m));
  sn_least : peer_least_packet_awaiting_ack_ m <= largest_acked (ack_frame_ m);
  sn_time : 0 <= time_largest_observed_ m < 2 ^ 62;
  sn_delay : 0 <= ack_delay_time (ack_frame_ m) < 2 ^ 63
}.

Lemma sane_init k : sane [] true (init k).
Proof.
  split; try done; cbn; [apply wf_nil|intros v Hv; by apply member_nil in Hv|intros _ v Hv; by apply not_elem_of_nil in Hv].
Qed.

Lemma max_all (R : list Z) v : v ∈ R -> v <= foldr Z.max 0 R.
Proof.
  induction R as [|x R IH]; intros Hv; [by apply not_elem_of_nil in Hv|].
  apply elem_of_cons in Hv as [->|Hv]; cbn; [lia|specialize (IH Hv); lia].
Qed.

Lemma max_bound (R : list Z) : Forall (fun v => 0 < v < 2 ^ 62) R -> 0 <= foldr Z.max 0 R < 2 ^ 62.
Proof. induction 1; cbn; lia. Qed.

Lemma max_snoc (R : list Z) n : foldr Z.max 0 (R ++ [n]) = Z.max (foldr Z.max 0 R) (Z.max n 0).
Proof. induction R as [|x R IH]; cbn; [|rewrite IH]; lia. Qed.

Lemma sane_arrives R whole m n t : sane R whole m -> 0 < n < 2 ^ 62 -> 0 < t < 2 ^ 62 ->
  sane (R ++ [n]) whole (meet (PacketArrives n t) m).
Proof.
  intros Hs Hn Ht. pose proof Hs as [H1 H2 H3 H4 H5 H6 H7 H8 H9]. pose proof (max_bound R H4) as Hb. rewrite <- H5 in Hb.
  assert (Forall (fun v => 0 < v < 2 ^ 62) (R ++ [n])) as H4' by (apply Forall_app; split; [done|by apply Forall_singleton]).
  cbn [meet]. unfold IsAwaitingPacket. rewrite Z.geb_leb.
  destruct (Z.leb_spec (peer_least_packet_awaiting_ack_ m) n) as [Hle|Hlt].
  - destruct (PacketNumberQueue.Contains n (packets (ack_frame_ m))) eqn:Ec; cbn [negb andb].
    + apply Contains_spec in Ec; [|done]. destruct (H2 n Ec) as [Hin _]. pose proof (max_all R n Hin) as Hm.
      split; try done.
      * intros v Hv. destruct (H2 v Hv). set_solver.
      * intros Hw v Hv. apply elem_of_app in Hv as [Hv| ->%list_elem_of_singleton]; [by apply H3|done].
      * rewrite max_snoc. lia.
      * intros _. apply H6. intros ->. by apply not_elem_of_nil in Hin.
    + unfold RecordPacketReceived. cbv zeta. unfold LargestAcked.
      destruct (queue_Add_spec n (packets (ack_frame_ m)) H1) as [Hwf Hmem]; [unfold number; lia|].
      split; cbn [packets ack_frame_ peer_least_packet_awaiting_ack_ largest_acked time_largest_observed_ ack_delay_time];
        try done; rewrite ?Z.gtb_ltb.
      * intros v Hv. apply Hmem in Hv as [->|Hv]; [set_solver|]. destruct (H2 v Hv). set_solver.
      * intros Hw v Hv Hl. apply Hmem. apply elem_of_app in Hv as [Hv| ->%list_elem_of_singleton]; [right; by apply H3|by left].
      * rewrite max_snoc. destruct (Z.ltb_spec (largest_acked (ack_frame_ m)) n); lia.
      * intros _. apply Hmem. destruct (Z.ltb_spec (largest_acked (ack_frame_ m)) n) as [|Hge]; [by left|]. right.
        apply H6. intros ->. cbn in H5. lia.
      * destruct (Z.ltb_spec (largest_acked (ack_frame_ m)) n); lia.
      * destruct (Z.ltb_spec (largest_acked (ack_frame_ m)) n); lia.
  - cbn [andb]. split; try done.
    + intros v Hv. destruct (H2 v Hv). set_solver.
    + intros Hw v Hv Hl. apply elem_of_app in Hv as [Hv| ->%list_elem_of_singleton]; [by apply H3|lia].
    + rewrite max_snoc. lia.
    + intros _. apply H6. intros ->. cbn in H5. lia.
Qed.

Lemma sane_stops R whole m n : sane R whole m -> n <= GetLargestObserved m -> sane R whole (meet (StopWaiting n) m).
Proof.
  intros Hs Hn. pose proof Hs as [H1 H2 H3 H4 H5 H6 H7 H8 H9]. cbn [meet]. unfold DontWaitForPacketsBefore. rewrite Z.gtb_ltb.
  destruct (Z.ltb_spec (peer_least_packet_awaiting_ack_ m) n) as [Hlt|Hge]; [|done]. cbv zeta.
  pose proof (RemoveUpTo_spec n (packets (ack_frame_ m)) H1) as Hr.
  destruct (PacketNumberQueue.RemoveUpTo n (packets (ack_frame_ m))) as [b q]. destruct Hr as (Hwf & Hmem & _).
  split; cbn [packets ack_frame_ peer_least_packet_awaiting_ack_ largest_acked time_largest_observed_ ack_delay_time]; try done.
  - intros v Hv. apply Hmem in Hv as [Hv1 Hv2]. by destruct (H2 v Hv2).
  - intros Hw v Hv Hl. apply Hmem. split; [done|]. apply H3; [done|done|lia].
  - intros HR. apply Hmem. split; [exact Hn|by apply H6].
Qed.

(** What is dropped lies below what is kept. *)
Lemma trim_spec k : forall q, wf q -> wf (trim k q) /\ (forall v, member v (trim k q) -> member v q) /\
  (forall v w, member v q -> member w (trim k q) -> w <= v -> member v (trim k q)) /\
  (q <> [] -> trim k q <> []) /\ (forall x l, q = l ++ [x] -> exists l', trim k q = l' ++ [x]) /\
  ((k >? 0) && (PacketNumberQueue.NumIntervals q >? k) = false -> trim k q = q) /\
  (0 < k -> Z.of_nat (length (trim k q)) <= k).
Proof.
  induction q as [|x q IH]; intros Hwf.
  { cbn. split_and!; try done; [|lia]. intros y l E. by destruct l. }
  cbn [trim]. destruct ((k >? 0) && (PacketNumberQueue.NumIntervals (x :: q) >? k)) eqn:E.
  - apply andb_true_iff in E as [Ek En]. rewrite Z.gtb_ltb in Ek, En. apply Z.ltb_lt in Ek, En.
    unfold PacketNumberQueue.NumIntervals in En. cbn [length] in En. destruct q as [|y q]; [cbn in En; lia|].
    pose proof Hwf as (Hwq & Hx & _ & Hb)%wf_cons. destruct (IH Hwq) as (W1 & W2 & W3 & W4 & W5 & W6 & W7). split_and!.
    + done.
    + intros v Hv. apply member_cons. right. by apply W2.
    + intros v w Hv Hw Hle. apply (W3 v w); [|done|done]. apply member_cons in Hv as [Hv|Hv]; [exfalso|done].
      destruct (W2 w Hw) as (z & Hz & Hwz). rewrite Forall_forall in Hb. specialize (Hb z Hz).
      unfold before, Intervals.within in *. lia.
    + intros _. by apply W4.
    + intros z l E. destruct l as [|z' l]; [done|]. injection E as -> E. by apply (W5 z l).
    + done.
    + done.
  - split_and!; try done.
    + intros z l ->. by exists l.
    + intros Hk. unfold PacketNumberQueue.NumIntervals in E. rewrite !Z.gtb_ltb in E.
      rewrite (proj2 (Z.ltb_lt _ _)) in E by done. cbn [andb] in E. apply Z.ltb_ge in E. exact E.
Qed.

Lemma sane_acks R whole m now : sane R whole m -> 0 <= now < 2 ^ 62 ->
  sane R (whole && negb (trims (AckMade now) m)) (meet (AckMade now) m).
Proof.
  intros Hs Hnow. pose proof Hs as [H1 H2 H3 H4 H5 H6 H7 H8 H9]. cbn [meet trims]. unfold GetUpdatedAckFrame. cbv zeta.
  destruct (trim_spec (max_ack_ranges_ m) (packets (ack_frame_ m)) H1) as (W1 & W2 & W3 & W4 & W5 & W6 & W7).
  split; cbn [snd packets ack_frame_ peer_least_packet_awaiting_ack_ largest_acked time_largest_observed_ ack_delay_time]; try done.
  - intros v Hv. apply H2. by apply W2.
  - intros Hw v Hv Hl. apply andb_true_iff in Hw as [Hw Hnt]. apply negb_true_iff in Hnt. rewrite W6 by done. by apply H3.
  - intros HR. specialize (H6 HR). destruct (trim _ _) as [|y q] eqn:E.
    { exfalso. apply W4; [|done]. intros E0. rewrite E0 in H6. by apply member_nil in H6. }
    rewrite <- E in *. apply (W3 _ (imin y)); [done| |].
    + rewrite E. rewrite E in W1. by apply member_front.
    + assert (kept m (imin y)) as Hy by (apply W2; rewrite E; rewrite E in W1; by apply member_front).
      rewrite H5. apply max_all. by apply H2.
  - unfold kQuicInfiniteTimeUs. repeat case_match; lia.
Qed.

Lemma sane_all : forall l R whole m, sane R whole m -> proper_all l m ->
  sane (R ++ arrived_in l) (whole && negb (trims_some l m)) (meet_all l m).
Proof.
  induction l as [|o l IH]; intros R whole m Hs Hp.
  { cbn. by rewrite app_nil_r, andb_true_r. }
  destruct Hp as [Ho Hp]. cbn [trims_some]. change (meet_all (o :: l) m) with (meet_all l (meet o m)).
  destruct o as [n t|n|now].
  - replace (R ++ arrived_in (PacketArrives n t :: l)) with ((R ++ [n]) ++ arrived_in l) by (by rewrite <- app_assoc).
    apply IH; [|done]. apply sane_arrives; [done|apply Ho..].
  - apply (IH R); [|done]. by apply sane_stops.
  - rewrite negb_orb, andb_assoc. apply (IH R); [|done]. by apply sane_acks.
Qed.

(** ** What can be read off it *)

Lemma kept_below R whole m v : sane R whole m -> kept m v -> 0 < v <= largest_acked (ack_frame_ m).
Proof.
  intros Hs Hv. destruct (sn_sound _ _ _ Hs v Hv) as [Hin _]. pose proof (sn_range _ _ _ Hs) as Hr. rewrite Forall_forall in Hr.
  rewrite (sn_largest _ _ _ Hs). pose proof (max_all R v Hin). specialize (Hr v Hin). lia.
Qed.

Lemma kept_top R whole m l x : sane R whole m -> packets (ack_frame_ m) = l ++ [x] -> largest_acked (ack_frame_ m) = imax x - 1.
Proof.
  intros Hs Hq. pose proof (sn_wf _ _ _ Hs) as Hwf. rewrite Hq in Hwf. pose proof Hwf as (_ & Hx & _)%wf_snoc.
  assert (kept m (imax x - 1)) as Hm by (rewrite Hq; exists x; split; [set_solver|unfold nonempty, Intervals.within in *; lia]).
  pose proof (kept_below _ _ _ _ Hs Hm) as Hb. enough (kept m (largest_acked (ack_frame_ m))) as Hl
    by (rewrite Hq in Hl; pose proof (member_high l x _ Hwf Hl); lia).
  apply (sn_top _ _ _ Hs). intros ->. destruct (sn_sound _ _ _ Hs _ Hm) as [Hin _]. by apply not_elem_of_nil in Hin.
Qed.

Lemma missing_spec R whole m : sane R whole m ->
  HasMissingPackets m = true <->
  exists v, Z.max 1 (peer_least_packet_awaiting_ack_ m) <= v < GetLargestObserved m /\ ~ kept m v.
Proof.
  intros Hs. pose proof (sn_wf _ _ _ Hs) as Hwf. unfold HasMissingPackets, GetLargestObserved, LargestAcked. cbv zeta.
  assert (forall v, kept m v -> Z.max 1 (peer_least_packet_awaiting_ack_ m) <= v) as Hlow.
  { intros v Hv. destruct (sn_sound _ _ _ Hs v Hv). pose proof (kept_below _ _ _ _ Hs Hv). lia. }
  destruct (packets (ack_frame_ m)) as [|x q] eqn:Hq.
  { cbn. split; [done|]. intros (v & Hv & _). pose proof (sn_largest _ _ _ Hs) as Hl.
    destruct R as [|r R]; [cbn in Hl; lia|]. exfalso. apply (member_nil (largest_acked (ack_frame_ m))). rewrite <- Hq.
    by apply (sn_top _ _ _ Hs). }
  pose proof Hwf as (Hwq & Hx & _ & Hb)%wf_cons. unfold PacketNumberQueue.NumIntervals, PacketNumberQueue.Min. cbn [length].
  destruct q as [|y q].
  - change ((Z.of_nat (S (length (@nil Interval))) >? 1)) with false. cbn [orb negb PacketNumberQueue.Empty PacketNumberQueue.front hd andb].
    pose proof (kept_top _ _ _ [] x Hs Hq) as Ht. rewrite Z.gtb_ltb, Z.ltb_lt. split.
    + intros Hlt. exists (Z.max 1 (peer_least_packet_awaiting_ack_ m)). unfold nonempty in Hx. split; [lia|].
      intros Hm. apply (member_low x [] _ Hwf) in Hm. lia.
    + intros (v & Hv & Hn). destruct (Z.lt_ge_cases v (imin x)) as [Hlt|Hge]; [lia|]. exfalso. apply Hn.
      exists x. split; [set_solver|]. unfold Intervals.within. lia.
  - assert (Z.of_nat (S (length (y :: q))) >? 1 = true) as -> by (rewrite Z.gtb_ltb; apply Z.ltb_lt; cbn [length]; lia).
    cbn [orb]. split; [|done]. intros _. exists (imax x).
    rewrite Forall_forall in Hb. pose proof (Hb y ltac:(set_solver)) as Hxy. unfold before, nonempty in *.
    pose proof (Hlow (imin x) (member_front _ _ Hwf)) as Hlx.
    assert (member (imin y) (x :: y :: q)) as Hmy by (apply member_cons; right; by apply member_front).
    rewrite <- Hq in Hmy. pose proof (kept_below _ _ _ _ Hs Hmy). split; [lia|].
    intros Hm. apply member_cons in Hm as [Hm|(z & Hz & Hm)]; [unfold Intervals.within in Hm; lia|].
    specialize (Hb z Hz). unfold Intervals.within in Hm. lia.
Qed.

(** The acknowledgement can be written by the framer. *)
Lemma ack_made v R whole m now : sane R whole m -> 0 <= now < 2 ^ 62 -> foldr Z.max 0 R < packet_limit v - 1 ->
  exists a, (GetUpdatedAckFrame now m).1 = ACK_FRAME a /\ ackable v true a /\
    packets a = trim (max_ack_ranges_ m) (packets (ack_frame_ m)).
Proof.
  intros Hs Hnow Hlim. pose proof (sane_acks _ _ _ _ Hs Hnow) as Hs'. cbn [meet] in Hs'. unfold GetUpdatedAckFrame in *.
  cbv zeta in *. cbn [snd] in Hs'. eexists. split; [reflexivity|]. split; [|done].
  set (m' := {| peer_least_packet_awaiting_ack_ := _ |}) in Hs'. set (a := {| largest_acked := _ |}) in *.
  change a with (ack_frame_ m'). split; try apply Hs'.
  - destruct (rev (packets (ack_frame_ m'))) as [|x l] eqn:E.
    + apply (f_equal (@rev _)) in E. rewrite rev_involutive in E. cbn in E.
      destruct (decide (R = [])) as [->|HR]; [apply (sn_largest _ _ _ Hs')|].
      pose proof (sn_top _ _ _ Hs' HR) as Ht. cbn in Ht. rewrite E in Ht. by apply member_nil in Ht.
    + apply (kept_top _ _ _ (rev l) x Hs'). rewrite <- (rev_involutive (packets (ack_frame_ m'))), E. done.
  - rewrite (sn_largest _ _ _ Hs'). pose proof (max_bound R (sn_range _ _ _ Hs)). lia.
  - by left.
Qed.

(** C19: Over any packets that arrive, packets the peer gives up and acks that are made, the
    set of an acknowledgement holds only packets that arrived and the peer still waits for,
    its largest is the largest that arrived, all of them are in it unless ranges were
    dropped for the limit, something is missing exactly when a number between the least
    awaited and the largest is not in it; the framer can transport every ack that is made,
    which keeps the highest ranges and no more of them than the limit. *)
Theorem acks_tell_what_arrived l k v : proper_all l (init k) ->
  let m := meet_all l (init k) in
  let R := arrived_in l in
  let least := peer_least_packet_awaiting_ack_ m in
  (forall n, PacketNumberQueue.Contains n (packets (ack_frame_ m)) = true -> n ∈ R /\ least <= n) /\
  (trims_some l (init k) = false -> forall n, n ∈ R -> least <= n -> PacketNumberQueue.Contains n (packets (ack_frame_ m)) = true) /\
  GetLargestObserved m = foldr Z.max 0 R /\
  (HasMissingPackets m = true <->
   exists n, Z.max 1 least <= n < GetLargestObserved m /\ PacketNumberQueue.Contains n (packets (ack_frame_ m)) = false) /\
  (forall now, 0 <= now < 2 ^ 62 -> foldr Z.max 0 R < packet_limit v - 1 -> exists a,
     (GetUpdatedAckFrame now m).1 = ACK_FRAME a /\ ackable v true a /\
     (forall n n', PacketNumberQueue.Contains n (packets (ack_frame_ m)) = true -> PacketNumberQueue.Contains n' (packets a) = true ->
        n' <= n -> PacketNumberQueue.Contains n (packets a) = true) /\
     (0 < k -> PacketNumberQueue.NumIntervals (packets a) <= k)).
Proof.
  intros Hp m R least. pose proof (sane_all l [] true (init k) (sane_init k) Hp) as Hs. cbn [app andb] in Hs. fold m R in Hs.
  pose proof (sn_wf _ _ _ Hs) as Hwf. split_and!.
  - intros n Hn. apply (sn_sound _ _ _ Hs). by apply Contains_spec.
  - intros Ht n Hn Hl. apply Contains_spec; [done|]. apply (sn_whole _ _ _ Hs); [by rewrite Ht|done|done].
  - apply (sn_largest _ _ _ Hs).
  - rewrite (missing_spec _ _ _ Hs). fold least.
    split; intros (n & Hn & Hk); exists n; (split; [done|]);
      [apply not_true_is_false; intros Hc; by apply Hk, Contains_spec|intros Hm; apply Contains_spec in Hm; [congruence|done]].
  - intros now Hnow Hlim. destruct (ack_made v _ _ m now Hs Hnow Hlim) as (a & Ea & Ha & Hpk). exists a. split; [done|]. split; [done|].
    assert (max_ack_ranges_ m = k) as Ek.
    { unfold m. clear. unfold meet_all. change k with (max_ack_ranges_ (init k)) at 2. generalize (init k).
      induction l as [|o l IH]; intros m; [done|]. cbn [fold_left]. rewrite IH. destruct o; cbn [meet]; [by case_match| |done].
      unfold DontWaitForPacketsBefore. cbv zeta. by repeat case_match. }
    rewrite Ek in Hpk. destruct (trim_spec k (packets (ack_frame_ m)) Hwf) as (W1 & W2 & W3 & _ & _ & _ & W7). rewrite Hpk. split.
    + intros n n' Hn Hn' Hle. rewrite Contains_spec in Hn by done. rewrite Contains_spec in Hn' by done.
      apply Contains_spec; [done|]. by apply (W3 n n').
    + exact W7.
Qed.

(** Packets 1, 2, 5 and 4 arrive, 2 twice; those below 2 are given up, and with room
    for one range the acknowledgement keeps the upper one. *)
Definition demo_occasions : list occasion :=
  [PacketArrives 1 10; PacketArrives 2 20; PacketArrives 5 30; AckMade 35; PacketArrives 2 40; StopWaiting 2; PacketArrives 4 50].

Lemma acks_tell_what_arrived_witness :
  let m := meet_all demo_occasions (init 2) in
  packets (ack_frame_ m) = [mk 2 3; mk 4 6] /\ HasMissingPackets m = true /\ packets_reordered (stats_ m) = 1 /\
  exists a, (GetUpdatedAckFrame 60 m).1 = ACK_FRAME a /\ ackable 43 true a.
Proof.
  assert (proper_all demo_occasions (init 2)) as Hp.
  { cbn [proper_all demo_occasions proper]. split_and!; try (vm_compute; split; congruence); try done; vm_compute; congruence. }
  destruct (acks_tell_what_arrived demo_occasions 2 43 Hp) as (_ & _ & _ & _ & H).
  split; [reflexivity|]. split; [reflexivity|]. split; [reflexivity|].
  destruct (H 60) as (a & Ea & Ha & _); [lia|reflexivity|]. by exists a.
Defined.
