(* ===== verification/PacketCreator.v ===== *)
(** Putting frames into packets: [QuicPacketCreator] of
    libquic/net/quic/core/quic_packet_creator.cc collects frames until a packet is
    full, pads, builds and seals it and hands it to its delegate. *)

From S2P Require Import Prelude World QuicData Wire IntervalSet Crypter PacketNumberQueue Framer FrameWriter FrameReader.
From S2P Require Import Handshake PacketFramer.

Definition kDefaultMaxPacketSize : Z := 1350.
Definition kCryptoStreamId : Z := 1.

(** [int16_t] *)
Definition int16 (x : Z) : Z := wrap_s 16 x.

(** [enum TransmissionType] *)
Inductive TransmissionType : Type :=
| NOT_RETRANSMISSION | HANDSHAKE_RETRANSMISSION | ALL_UNACKED_RETRANSMISSION | ALL_INITIAL_RETRANSMISSION
| LOSS_RETRANSMISSION | RTO_RETRANSMISSION | TLP_RETRANSMISSION | PROBING_RETRANSMISSION.

#[export] Instance TransmissionType_dec : EqDecision TransmissionType.
Proof. solve_decision. Defined.

(** [kCHLO], by its bytes in memory *)
Definition kCHLO : list Z := [67; 72; 76; 79].

Module Serialized.

(** [struct SerializedPacket]; [encrypted_buffer] is null or points to
    [encrypted_length] bytes. *)
Record SerializedPacket : Type := {
  encrypted_buffer : option (list Z);
  retransmittable_frames : list QuicFrame;
  has_crypto_handshake : bool;
  num_padding_bytes : Z;
  packet_number : Z;
  packet_number_length : Z;
  encryption_level : EncryptionLevel;
  has_ack : bool;
  has_stop_waiting : bool;
  transmission_type : TransmissionType;
  original_packet_number : Z;
  largest_acked : Z
}.

(** [SerializedPacket(packet_number, packet_number_length, encrypted_buffer,
    encrypted_length, has_ack, has_stop_waiting)] *)
Definition init (number length : Z) (buffer : option (list Z)) (ack stop_waiting : bool) : SerializedPacket :=
  {| encrypted_buffer := buffer; retransmittable_frames := []; has_crypto_handshake := false; num_padding_bytes := 0;
     packet_number := number; packet_number_length := length; encryption_level := ENCRYPTION_NONE; has_ack := ack;
     has_stop_waiting := stop_waiting; transmission_type := NOT_RETRANSMISSION; original_packet_number := 0;
     largest_acked := 0 |}.

Section Setters.
Variable p : SerializedPacket.

Definition with_buffer (b : option (list Z)) : SerializedPacket :=
  {| encrypted_buffer := b; retransmittable_frames := retransmittable_frames p;
     has_crypto_handshake := has_crypto_handshake p; num_padding_bytes := num_padding_bytes p;
     packet_number := packet_number p; packet_number_length := packet_number_length p;
     encryption_level := encryption_level p; has_ack := has_ack p; has_stop_waiting := has_stop_waiting p;
     transmission_type := transmission_type p; original_packet_number := original_packet_number p;
     largest_acked := largest_acked p |}.

Definition with_frames (l : list QuicFrame) (crypto : bool) : SerializedPacket :=
  {| encrypted_buffer := encrypted_buffer p; retransmittable_frames := l;
     has_crypto_handshake := crypto; num_padding_bytes := num_padding_bytes p;
     packet_number := packet_number p; packet_number_length := packet_number_length p;
     encryption_level := encryption_level p; has_ack := has_ack p; has_stop_waiting := has_stop_waiting p;
     transmission_type := transmission_type p; original_packet_number := original_packet_number p;
     largest_acked := largest_acked p |}.

Definition with_padding (n : Z) : SerializedPacket :=
  {| encrypted_buffer := encrypted_buffer p; retransmittable_frames := retransmittable_frames p;
     has_crypto_handshake := has_crypto_handshake p; num_padding_bytes := n;
     packet_number := packet_number p; packet_number_length := packet_number_length p;
     encryption_level := encryption_level p; has_ack := has_ack p; has_stop_waiting := has_stop_waiting p;
     transmission_type := transmission_type p; original_packet_number := original_packet_number p;
     largest_acked := largest_acked p |}.

Definition with_number (n length : Z) : SerializedPacket :=
  {| encrypted_buffer := encrypted_buffer p; retransmittable_frames := retransmittable_frames p;
     has_crypto_handshake := has_crypto_handshake p; num_padding_bytes := num_padding_bytes p;
     packet_number := n; packet_number_length := length;
     encryption_level := encryption_level p; has_ack := has_ack p; has_stop_waiting := has_stop_waiting p;
     transmission_type := transmission_type p; original_packet_number := original_packet_number p;
     largest_acked := largest_acked p |}.

Definition with_level (l : EncryptionLevel) : SerializedPacket :=
  {| encrypted_buffer := encrypted_buffer p; retransmittable_frames := retransmittable_frames p;
     has_crypto_handshake := has_crypto_handshake p; num_padding_bytes := num_padding_bytes p;
     packet_number := packet_number p; packet_number_length := packet_number_length p;
     encryption_level := l; has_ack := has_ack p; has_stop_waiting := has_stop_waiting p;
     transmission_type := transmission_type p; original_packet_number := original_packet_number p;
     largest_acked := largest_acked p |}.

Definition with_acks (ack stop_waiting : bool) (largest : Z) : SerializedPacket :=
  {| encrypted_buffer := encrypted_buffer p; retransmittable_frames := retransmittable_frames p;
     has_crypto_handshake := has_crypto_handshake p; num_padding_bytes := num_padding_bytes p;
     packet_number := packet_number p; packet_number_length := packet_number_length p;
     encryption_level := encryption_level p; has_ack := ack; has_stop_waiting := stop_waiting;
     transmission_type := transmission_type p; original_packet_number := original_packet_number p;
     largest_acked := largest |}.

Definition with_transmission (t : TransmissionType) (original : Z) : SerializedPacket :=
  {| encrypted_buffer := encrypted_buffer p; retransmittable_frames := retransmittable_frames p;
     has_crypto_handshake := has_crypto_handshake p; num_padding_bytes := num_padding_bytes p;
     packet_number := packet_number p; packet_number_length := packet_number_length p;
     encryption_level := encryption_level p; has_ack := has_ack p; has_stop_waiting := has_stop_waiting p;
     transmission_type := t; original_packet_number := original; largest_acked := largest_acked p |}.
End Setters.

End Serialized.
Import Serialized (SerializedPacket).

(** [struct QuicPendingRetransmission] *)
Record QuicPendingRetransmission : Type := {
  pending_packet_number : Z;
  pending_frames : list QuicFrame;
  pending_transmission_type : TransmissionType;
  pending_crypto_handshake : bool;
  pending_num_padding_bytes : Z;
  pending_encryption_level : EncryptionLevel;
  pending_packet_number_length : Z
}.

Definition QUIC_FAILED_TO_SERIALIZE_PACKET : Z := 75.
Definition QUIC_ATTEMPT_TO_SEND_UNENCRYPTED_STREAM_DATA : Z := 88.
Definition QUIC_CRYPTO_CHLO_TOO_LARGE : Z := 90.

(** A call of [QuicPacketCreator::DelegateInterface]. *)
Inductive DelegateCall : Type :=
| OnSerializedPacket (p : SerializedPacket)
| OnUnrecoverableError (error : Z).

Module PacketCreator.

(** [class QuicPacketCreator]; [endpoint_] and [producer_] are the framer it uses,
    [calls] the calls of its delegate, which does not act on the creator. *)
Record Creator (P E D : Type) : Type := {
  endpoint_ : Endpoint E D;
  producer_ : option P;
  send_version_in_packet_ : bool;
  have_diversification_nonce_ : bool;
  diversification_nonce_ : list Z;
  max_packet_length_ : Z;
  max_plaintext_size_ : Z;
  connection_id_length_ : Z;
  queued_frames_ : list QuicFrame;
  packet_size_ : Z;
  connection_id_ : Z;
  packet_ : SerializedPacket;
  long_header_type_ : Z;
  pending_padding_bytes_ : Z;
  needs_full_padding_ : bool;
  can_set_transmission_type_ : bool;
  calls : list DelegateCall
}.
Arguments endpoint_ {P E D} _.
Arguments producer_ {P E D} _.
Arguments send_version_in_packet_ {P E D} _.
Arguments have_diversification_nonce_ {P E D} _.
Arguments diversification_nonce_ {P E D} _.
Arguments max_packet_length_ {P E D} _.
Arguments max_plaintext_size_ {P E D} _.
Arguments connection_id_length_ {P E D} _.
Arguments queued_frames_ {P E D} _.
Arguments packet_size_ {P E D} _.
Arguments connection_id_ {P E D} _.
Arguments packet_ {P E D} _.
Arguments long_header_type_ {P E D} _.
Arguments pending_padding_bytes_ {P E D} _.
Arguments needs_full_padding_ {P E D} _.
Arguments can_set_transmission_type_ {P E D} _.
Arguments calls {P E D} _.

Section Setters.
Context {P E D : Type}.
Variable c : Creator P E D.

Definition with_framer (e : Endpoint E D) (p : option P) : Creator P E D :=
  {| endpoint_ := e; producer_ := p; send_version_in_packet_ := send_version_in_packet_ c;
     have_diversification_nonce_ := have_diversification_nonce_ c; diversification_nonce_ := diversification_nonce_ c;
     max_packet_length_ := max_packet_length_ c; max_plaintext_size_ := max_plaintext_size_ c;
     connection_id_length_ := connection_id_length_ c; queued_frames_ := queued_frames_ c; packet_size_ := packet_size_ c;
     connection_id_ := connection_id_ c; packet_ := packet_ c; long_header_type_ := long_header_type_ c;
     pending_padding_bytes_ := pending_padding_bytes_ c; needs_full_padding_ := needs_full_padding_ c;
     can_set_transmission_type_ := can_set_transmission_type_ c; calls := calls c |}.

Definition with_public (send_version have_nonce : bool) (nonce : list Z) (id_length : Z) : Creator P E D :=
  {| endpoint_ := endpoint_ c; producer_ := producer_ c; send_version_in_packet_ := send_version;
     have_diversification_nonce_ := have_nonce; diversification_nonce_ := nonce;
     max_packet_length_ := max_packet_length_ c; max_plaintext_size_ := max_plaintext_size_ c;
     connection_id_length_ := id_length; queued_frames_ := queued_frames_ c; packet_size_ := packet_size_ c;
     connection_id_ := connection_id_ c; packet_ := packet_ c; long_header_type_ := long_header_type_ c;
     pending_padding_bytes_ := pending_padding_bytes_ c; needs_full_padding_ := needs_full_padding_ c;
     can_set_transmission_type_ := can_set_transmission_type_ c; calls := calls c |}.

Definition with_lengths (packet plaintext : Z) : Creator P E D :=
  {| endpoint_ := endpoint_ c; producer_ := producer_ c; send_version_in_packet_ := send_version_in_packet_ c;
     have_diversification_nonce_ := have_diversification_nonce_ c; diversification_nonce_ := diversification_nonce_ c;
     max_packet_length_ := packet; max_plaintext_size_ := plaintext;
     connection_id_length_ := connection_id_length_ c; queued_frames_ := queued_frames_ c; packet_size_ := packet_size_ c;
     connection_id_ := connection_id_ c; packet_ := packet_ c; long_header_type_ := long_header_type_ c;
     pending_padding_bytes_ := pending_padding_bytes_ c; needs_full_padding_ := needs_full_padding_ c;
     can_set_transmission_type_ := can_set_transmission_type_ c; calls := calls c |}.

Definition with_queue (l : list QuicFrame) (size : Z) : Creator P E D :=
  {| endpoint_ := endpoint_ c; producer_ := producer_ c; send_version_in_packet_ := send_version_in_packet_ c;
     have_diversification_nonce_ := have_diversification_nonce_ c; diversification_nonce_ := diversification_nonce_ c;
     max_packet_length_ := max_packet_length_ c; max_plaintext_size_ := max_plaintext_size_ c;
     connection_id_length_ := connection_id_length_ c; queued_frames_ := l; packet_size_ := size;
     connection_id_ := connection_id_ c; packet_ := packet_ c; long_header_type_ := long_header_type_ c;
     pending_padding_bytes_ := pending_padding_bytes_ c; needs_full_padding_ := needs_full_padding_ c;
     can_set_transmission_type_ := can_set_transmission_type_ c; calls := calls c |}.

Definition with_packet (p : SerializedPacket) : Creator P E D :=
  {| endpoint_ := endpoint_ c; producer_ := producer_ c; send_version_in_packet_ := send_version_in_packet_ c;
     have_diversification_nonce_ := have_diversification_nonce_ c; diversification_nonce_ := diversification_nonce_ c;
     max_packet_length_ := max_packet_length_ c; max_plaintext_size_ := max_plaintext_size_ c;
     connection_id_length_ := connection_id_length_ c; queued_frames_ := queued_frames_ c; packet_size_ := packet_size_ c;
     connection_id_ := connection_id_ c; packet_ := p; long_header_type_ := long_header_type_ c;
     pending_padding_bytes_ := pending_padding_bytes_ c; needs_full_padding_ := needs_full_padding_ c;
     can_set_transmission_type_ := can_set_transmission_type_ c; calls := calls c |}.

Definition with_padding (pending : Z) (full : bool) : Creator P E D :=
  {| endpoint_ := endpoint_ c; producer_ := producer_ c; send_version_in_packet_ := send_version_in_packet_ c;
     have_diversification_nonce_ := have_diversification_nonce_ c; diversification_nonce_ := diversification_nonce_ c;
     max_packet_length_ := max_packet_length_ c; max_plaintext_size_ := max_plaintext_size_ c;
     connection_id_length_ := connection_id_length_ c; queued_frames_ := queued_frames_ c; packet_size_ := packet_size_ c;
     connection_id_ := connection_id_ c; packet_ := packet_ c; long_header_type_ := long_header_type_ c;
     pending_padding_bytes_ := pending; needs_full_padding_ := full;
     can_set_transmission_type_ := can_set_transmission_type_ c; calls := calls c |}.

Definition with_types (long_header_type : Z) (can_set : bool) : Creator P E D :=
  {| endpoint_ := endpoint_ c; producer_ := producer_ c; send_version_in_packet_ := send_version_in_packet_ c;
     have_diversification_nonce_ := have_diversification_nonce_ c; diversification_nonce_ := diversification_nonce_ c;
     max_packet_length_ := max_packet_length_ c; max_plaintext_size_ := max_plaintext_size_ c;
     connection_id_length_ := connection_id_length_ c; queued_frames_ := queued_frames_ c; packet_size_ := packet_size_ c;
     connection_id_ := connection_id_ c; packet_ := packet_ c; long_header_type_ := long_header_type;
     pending_padding_bytes_ := pending_padding_bytes_ c; needs_full_padding_ := needs_full_padding_ c;
     can_set_transmission_type_ := can_set; calls := calls c |}.

Definition with_calls (l : list DelegateCall) : Creator P E D :=
  {| endpoint_ := endpoint_ c; producer_ := producer_ c; send_version_in_packet_ := send_version_in_packet_ c;
     have_diversification_nonce_ := have_diversification_nonce_ c; diversification_nonce_ := diversification_nonce_ c;
     max_packet_length_ := max_packet_length_ c; max_plaintext_size_ := max_plaintext_size_ c;
     connection_id_length_ := connection_id_length_ c; queued_frames_ := queued_frames_ c; packet_size_ := packet_size_ c;
     connection_id_ := connection_id_ c; packet_ := packet_ c; long_header_type_ := long_header_type_ c;
     pending_padding_bytes_ := pending_padding_bytes_ c; needs_full_padding_ := needs_full_padding_ c;
     can_set_transmission_type_ := can_set_transmission_type_ c; calls := l |}.
End Setters.

Section Operations.
Context {P E D : Type} `{!StreamFrameDataProducer P, !Encrypter E, !Decrypter D, !FramerVisitor}.
Implicit Types c : Creator P E D.

Definition framer_of c : Framer.Framer := framer (parsing (endpoint_ c)).
Definition transport_version_of c : Z := transport_version (Framer.version_ (framer_of c)).
Definition perspective_of c : Perspective := Framer.perspective_ (framer_of c).
Definition level_of c : EncryptionLevel := Serialized.encryption_level (packet_ c).

Definition set_framer (f : Framer.Framer) (p : option P) c : Creator P E D :=
  with_framer c (set_parsing (set_framer f (parsing (endpoint_ c))) (endpoint_ c)) p.
Definition set_packet (f : SerializedPacket -> SerializedPacket) c : Creator P E D := with_packet c (f (packet_ c)).
Definition tell (x : DelegateCall) : M (Creator P E D) unit := modify (fun c => with_calls c (calls c ++ [x])).

(** ** Settings *)

(** [void SetMaxPacketLength(QuicByteCount length)] *)
Definition SetMaxPacketLength (length : Z) c : Creator P E D :=
  if length =? max_packet_length_ c then c else with_lengths c length (max_plaintext_size length (endpoint_ c)).

(** [QuicPacketCreator(connection_id, framer, delegate)] *)
Definition init (connection_id : Z) (e : Endpoint E D) (p : option P) : Creator P E D :=
  SetMaxPacketLength kDefaultMaxPacketSize
    {| endpoint_ := e; producer_ := p;
       send_version_in_packet_ := bool_decide (Framer.perspective_ (framer (parsing e)) = IS_CLIENT);
       have_diversification_nonce_ := false; diversification_nonce_ := []; max_packet_length_ := 0;
       max_plaintext_size_ := 0; connection_id_length_ := 8; queued_frames_ := []; packet_size_ := 0;
       connection_id_ := connection_id; packet_ := Serialized.init 0 1 None false false; long_header_type_ := 125;
       pending_padding_bytes_ := 0; needs_full_padding_ := false; can_set_transmission_type_ := false; calls := [] |}.

(** [void SetEncrypter(level, encrypter)] *)
Definition SetEncrypter (level : EncryptionLevel) (e : E) c : Creator P E D :=
  let endpoint := PacketFramer.SetEncrypter level e (endpoint_ c) in
  with_lengths (with_framer c endpoint (producer_ c)) (max_packet_length_ c)
    (max_plaintext_size (max_packet_length_ c) endpoint).

Definition CanSetMaxPacketLength c : bool := match queued_frames_ c with [] => true | _ => false end.

(** [void StopSendingVersion()] *)
Definition StopSendingVersion c : Creator P E D :=
  let c := with_public c false (have_diversification_nonce_ c) (diversification_nonce_ c) (connection_id_length_ c) in
  if packet_size_ c >? 0 then with_queue c (queued_frames_ c) (uint64 (packet_size_ c - kQuicVersionSize)) else c.

(** [void SetDiversificationNonce(const DiversificationNonce& nonce)] *)
Definition SetDiversificationNonce (nonce : list Z) c : Creator P E D :=
  with_public c (send_version_in_packet_ c) true nonce (connection_id_length_ c).

(** [void UpdatePacketNumberLength(least_packet_awaited_by_peer, max_packets_in_flight)] *)
Definition UpdatePacketNumberLength (least_packet_awaited_by_peer max_packets_in_flight : Z) c : Creator P E D :=
  match queued_frames_ c with
  | _ :: _ => c
  | [] =>
      let number := Serialized.packet_number (packet_ c) in
      let current_delta := uint64 (number + 1 - least_packet_awaited_by_peer) in
      let delta := Z.max current_delta max_packets_in_flight in
      set_packet (fun p => Serialized.with_number p number
                             (GetMinPacketNumberLength (transport_version_of c) (uint64 (delta * 4)))) c
  end.

Definition set_encryption_level (level : EncryptionLevel) c : Creator P E D :=
  set_packet (fun p => Serialized.with_level p level) c.
Definition SetConnectionIdLength (length : Z) c : Creator P E D :=
  with_public c (send_version_in_packet_ c) (have_diversification_nonce_ c) (diversification_nonce_ c) length.
Definition AddPendingPadding (size : Z) c : Creator P E D :=
  with_padding c (uint64 (pending_padding_bytes_ c + size)) (needs_full_padding_ c).
Definition SetTransmissionType (type : TransmissionType) c : Creator P E D :=
  set_packet (fun p => Serialized.with_transmission p type (Serialized.original_packet_number p)) c.
Definition SetLongHeaderType (type : Z) c : Creator P E D := with_types c type (can_set_transmission_type_ c).
Definition set_can_set_transmission_type (b : bool) c : Creator P E D := with_types c (long_header_type_ c) b.

(** ** What is in the open packet *)

Definition GetConnectionIdLength c : Z := connection_id_length_ c.
Definition GetPacketNumberLength c : Z := Serialized.packet_number_length (packet_ c).
Definition IncludeVersionInHeader c : bool := send_version_in_packet_ c.

(** [bool IncludeNonceInPublicHeader() const] *)
Definition IncludeNonceInPublicHeader c : bool :=
  have_diversification_nonce_ c && bool_decide (level_of c = ENCRYPTION_INITIAL).

Definition HasPendingFrames c : bool := match queued_frames_ c with [] => false | _ => true end.
Definition HasPendingRetransmittableFrames c : bool :=
  match Serialized.retransmittable_frames (packet_ c) with [] => false | _ => true end.

(** [bool HasPendingStreamFramesOfStream(QuicStreamId id) const] *)
Definition HasPendingStreamFramesOfStream (id : Z) c : bool :=
  existsb (fun frame => match frame with STREAM_FRAME s => stream_id s =? id | _ => false end)
    (Serialized.retransmittable_frames (packet_ c)).

(** [size_t ExpansionOnNewFrame() const] *)
Definition ExpansionOnNewFrame c : Z :=
  match last (queued_frames_ c) with Some (STREAM_FRAME _) => kQuicStreamPayloadLengthSize | _ => 0 end.

(** [size_t PacketSize()] *)
Definition PacketSize : M (Creator P E D) Z :=
  c ← get;
  match queued_frames_ c with
  | _ :: _ => mret (packet_size_ c)
  | [] =>
      let size := GetPacketHeaderSize (GetConnectionIdLength c) (IncludeVersionInHeader c) (IncludeNonceInPublicHeader c)
                    (GetPacketNumberLength c) in
      modify (fun c => with_queue c (queued_frames_ c) size);;
      mret size
  end.

(** [size_t BytesFree()] *)
Definition BytesFree : M (Creator P E D) Z :=
  size ← PacketSize;
  c ← get;
  mret (max_plaintext_size_ c - Z.min (max_plaintext_size_ c) (uint64 (size + ExpansionOnNewFrame c))).

(** [bool HasRoomForStreamFrame(QuicStreamId id, QuicStreamOffset offset)] *)
Definition HasRoomForStreamFrame (id offset : Z) : M (Creator P E D) bool :=
  free ← BytesFree;
  c ← get;
  mret (free >? GetMinStreamFrameSize (transport_version_of c) id offset true).

(** [static bool ShouldRetransmit(const QuicFrame& frame)] *)
Definition ShouldRetransmit (frame : QuicFrame) : bool :=
  match frame with
  | ACK_FRAME _ | PADDING_FRAME _ | STOP_WAITING_FRAME _ | MTU_DISCOVERY_FRAME => false
  | _ => true
  end.

(** ** Building packets *)

(** [void FillPacketHeader(QuicPacketHeader* header)] *)
Definition FillPacketHeader : M (Creator P E D) QuicPacketHeader :=
  modify (fun c => set_packet (fun p => Serialized.with_number p (uint64 (Serialized.packet_number p + 1))
                                          (Serialized.packet_number_length p)) c);;
  c ← get;
  mret {| connection_id := connection_id_ c; connection_id_length := GetConnectionIdLength c; reset_flag := false;
          version_flag := IncludeVersionInHeader c;
          packet_number_length := Serialized.packet_number_length (packet_ c);
          version := version QuicPacketHeader_init;
          nonce := if IncludeNonceInPublicHeader c then Some (diversification_nonce_ c) else None;
          packet_number := Serialized.packet_number (packet_ c) |}.

(** What the framer does with a writer over a buffer of [n] bytes, whatever they
    were before. *)
Definition on_buffer {A} (n : nat) (m : M (Building P) A) : M (Creator P E D) (A * Writer.Writer) := fun c =>
  match m (building (framer_of c) (producer_ c) (replicate n 0)) with
  | Ret x b => Ret (x, writer b) (set_framer (builder b) (data_producer_ b) c)
  | Crash e => Crash e
  end.

(** [framer_->EncryptInPlace(...)] at the level of the packet *)
Definition seal (ad_len : Z) (data : list Z) (buffer_len : nat) : M (Creator P E D) (list Z) := fun c =>
  match EncryptInPlace (level_of c) (Serialized.packet_number (packet_ c)) (Z.to_nat ad_len) data buffer_len (endpoint_ c) with
  | Ret sealed e => Ret sealed (with_framer c e (producer_ c))
  | Crash x => Crash x
  end.

(** [void ClearPacket()] of the fields that were moved out *)
Definition ClearPacket c : Creator P E D :=
  let p := packet_ c in
  let type := if can_set_transmission_type_ c then Serialized.transmission_type p else NOT_RETRANSMISSION in
  with_padding
    (with_packet c
       {| Serialized.encrypted_buffer := None; Serialized.retransmittable_frames := Serialized.retransmittable_frames p;
          Serialized.has_crypto_handshake := false; Serialized.num_padding_bytes := 0;
          Serialized.packet_number := Serialized.packet_number p;
          Serialized.packet_number_length := Serialized.packet_number_length p;
          Serialized.encryption_level := Serialized.encryption_level p; Serialized.has_ack := false;
          Serialized.has_stop_waiting := false; Serialized.transmission_type := type;
          Serialized.original_packet_number := 0; Serialized.largest_acked := 0 |})
    (pending_padding_bytes_ c) false.

(** [void OnSerializedPacket()]; the packet is moved out with its frames *)
Definition packet_serialized : M (Creator P E D) unit :=
  c ← get;
  match Serialized.encrypted_buffer (packet_ c) with
  | None => tell (OnUnrecoverableError QUIC_FAILED_TO_SERIALIZE_PACKET)
  | Some _ =>
      let packet := packet_ c in
      modify (set_packet (fun p => Serialized.with_frames p [] (Serialized.has_crypto_handshake p)));;
      modify ClearPacket;;
      tell (OnSerializedPacket packet)
  end.

(** [AddFrame] flushes a full packet, which may add padding to it by [AddFrame]. *)
Section Padding.
Context (AddFrame : QuicFrame -> bool -> M (Creator P E D) bool).

(** [void MaybeAddPadding()] *)
Definition MaybeAddPadding : M (Creator P E D) unit :=
  free ← BytesFree;
  if free =? 0 then mret tt
  else
    modify (fun c => if decide (Serialized.transmission_type (packet_ c) = PROBING_RETRANSMISSION)
                     then with_padding c (pending_padding_bytes_ c) true else c);;
    c ← get;
    if negb (needs_full_padding_ c) && (pending_padding_bytes_ c =? 0) then mret tt
    else
      (if needs_full_padding_ c then modify (set_packet (fun p => Serialized.with_padding p (-1)))
       else
         free ← BytesFree;
         let n := Z.min (int16 (pending_padding_bytes_ c)) (int16 free) in
         modify (fun c => with_padding (set_packet (fun p => Serialized.with_padding p n) c)
                            (uint64 (pending_padding_bytes_ c - n)) (needs_full_padding_ c)));;
      c ← get;
      _ ← AddFrame (PADDING_FRAME (Serialized.num_padding_bytes (packet_ c))) false;
      mret tt.

(** [void SerializePacket(char* encrypted_buffer, size_t encrypted_buffer_len)] *)
Definition SerializePacket (encrypted_buffer_len : nat) : M (Creator P E D) unit :=
  header ← FillPacketHeader;
  MaybeAddPadding;;
  c ← get;
  if packet_size_ c >? Z.of_nat encrypted_buffer_len then crashed OutOfBounds
  else
    r ← on_buffer (Z.to_nat (packet_size_ c)) (BuildDataPacket header (queued_frames_ c));
    let '(length, w) := r in
    if (length =? 0)%nat then mret tt
    else
      sealed ← seal (GetStartOfEncryptedData header) (take length (Writer.buffer_ w)) encrypted_buffer_len;
      match sealed with
      | [] => mret tt
      | _ =>
          modify (fun c => with_queue c [] 0);;
          modify (set_packet (fun p => Serialized.with_buffer p (Some sealed)))
      end.

(** [void Flush()] *)
Definition flush : M (Creator P E D) unit :=
  c ← get;
  if negb (HasPendingFrames c) && (pending_padding_bytes_ c =? 0) then mret tt
  else SerializePacket (Z.to_nat kMaxPacketSize);; packet_serialized.
End Padding.

(** What [AddFrame] does with a frame that fits in [frame_len] bytes. *)
Definition take_frame (frame : QuicFrame) (save_retransmittable_frames : bool) (frame_len : Z) c : Creator P E D :=
  let c := with_queue c (queued_frames_ c) (uint64 (packet_size_ c + uint64 (ExpansionOnNewFrame c + frame_len))) in
  let c :=
    if save_retransmittable_frames && ShouldRetransmit frame then
      set_packet (fun p =>
        Serialized.with_frames p (Serialized.retransmittable_frames p ++ [frame])
          (match frame with
           | STREAM_FRAME s => if stream_id s =? kCryptoStreamId then true else Serialized.has_crypto_handshake p
           | _ => Serialized.has_crypto_handshake p
           end)) c
    else c in
  let c := with_queue c (queued_frames_ c ++ [frame]) (packet_size_ c) in
  match frame with
  | ACK_FRAME a => set_packet (fun p => Serialized.with_acks p true (Serialized.has_stop_waiting p) (LargestAcked a)) c
  | STOP_WAITING_FRAME _ => set_packet (fun p => Serialized.with_acks p (Serialized.has_ack p) true (Serialized.largest_acked p)) c
  | _ => c
  end.

(** Stream data, other than of the handshake, while there is no encryption. *)
Definition unencrypted_data (frame : QuicFrame) c : bool :=
  match frame with
  | STREAM_FRAME s => negb (stream_id s =? kCryptoStreamId) && bool_decide (level_of c = ENCRYPTION_NONE)
  | _ => false
  end.

(** [bool AddFrame(frame, save_retransmittable_frames)], through at most [fuel]
    packets that are flushed for the frame that pads another *)
Fixpoint AddFrame (fuel : nat) (frame : QuicFrame) (save_retransmittable_frames : bool) : M (Creator P E D) bool :=
  match fuel with
  | O => crashed OutOfFuel
  | S fuel =>
      c ← get;
      if unencrypted_data frame c then
        tell (OnUnrecoverableError QUIC_ATTEMPT_TO_SEND_UNENCRYPTED_STREAM_DATA);;
        mret false
      else
        free ← BytesFree;
        c ← get;
        let frame_len := GetSerializedFrameLength (framer_of c) frame free
                           (match queued_frames_ c with [] => true | _ => false end) true (GetPacketNumberLength c) in
        if frame_len =? 0 then flush (AddFrame fuel);; mret false
        else modify (take_frame frame save_retransmittable_frames frame_len);; mret true
  end.

(** A frame, the padding of the packet it did not fit in, and no more. *)
Definition levels : nat := 2.

(** ** Operations *)

Definition Flush : M (Creator P E D) unit := flush (AddFrame levels).

Definition AddSavedFrame (frame : QuicFrame) : M (Creator P E D) bool := AddFrame levels frame true.

(** [bool AddPaddedSavedFrame(const QuicFrame& frame)] *)
Definition AddPaddedSavedFrame (frame : QuicFrame) : M (Creator P E D) bool :=
  ok ← AddFrame levels frame true;
  if ok : bool then modify (fun c => with_padding c (pending_padding_bytes_ c) true);; mret true else mret false.

(** [QuicStreamFrame(id, fin, offset, data_length)] and a frame without data *)
Definition stream_frame (id : Z) (fin : bool) (offset data_length : Z) : QuicStreamFrame :=
  {| stream_id := id; fin := fin; data_length := uint16 data_length; data_buffer := None; offset := offset |}.

(** [void CreateStreamFrame(id, write_length, iov_offset, offset, fin, frame)] *)
Definition CreateStreamFrame (id write_length iov_offset offset : Z) (fin : bool) : M (Creator P E D) QuicStreamFrame :=
  if iov_offset =? write_length then mret (stream_frame id true offset 0)
  else
    let data_size := uint64 (write_length - iov_offset) in
    c ← get;
    let min_frame_size := GetMinStreamFrameSize (transport_version_of c) id offset true in
    free ← BytesFree;
    let bytes_consumed := Z.min (uint64 (free - min_frame_size)) data_size in
    mret (stream_frame id (fin && (bytes_consumed =? data_size)) offset bytes_consumed).

(** [bool QuicFramer::StartsWithChlo(id, offset) const] *)
Definition StartsWithChlo (id offset : Z) : M (Creator P E D) bool :=
  c ← get;
  match producer_ c with
  | None => mret false
  | Some p =>
      match WriteStreamData id offset 4 (Writer.init (replicate 4 0) (Framer.endianness (framer_of c))) p with
      | Ret (ok, w) p =>
          modify (fun c => with_framer c (endpoint_ c) (Some p));;
          mret (ok && bool_decide (Writer.buffer_ w = kCHLO))
      | Crash x => crashed x
      end
  end.

(** [bool StreamFrameStartsWithChlo(const QuicStreamFrame& frame) const] *)
Definition StreamFrameStartsWithChlo (frame : QuicStreamFrame) : M (Creator P E D) bool :=
  c ← get;
  if bool_decide (perspective_of c = IS_SERVER) || negb (stream_id frame =? kCryptoStreamId) || (data_length frame <? 4)
  then mret false
  else StartsWithChlo (stream_id frame) (offset frame).

(** [bool ConsumeData(id, write_length, iov_offset, offset, fin, needs_full_padding,
    frame)]: the frame if it answers true; [single_packet_chlo] is
    [FLAGS_quic_enforce_single_packet_chlo] *)
Definition ConsumeData (single_packet_chlo : bool) (id write_length iov_offset offset : Z) (fin needs_full_padding : bool) :
    M (Creator P E D) (option QuicStreamFrame) :=
  room ← HasRoomForStreamFrame id offset;
  if negb room then mret None
  else
    frame ← CreateStreamFrame id write_length iov_offset offset fin;
    chlo ← (if single_packet_chlo then StreamFrameStartsWithChlo frame else mret false);
    if chlo && (data_length frame <? write_length) then
      tell (OnUnrecoverableError QUIC_CRYPTO_CHLO_TOO_LARGE);; mret None
    else
      ok ← AddFrame levels (STREAM_FRAME frame) true;
      if negb ok then mret None
      else
        when needs_full_padding (modify (fun c => with_padding c (pending_padding_bytes_ c) true));;
        mret (Some frame).

(** [void CreateAndSerializeStreamFrame(id, write_length, iov_offset, stream_offset,
    fin, num_bytes_consumed)]: the number of bytes, unless it is left as it was *)
Definition CreateAndSerializeStreamFrame (id write_length iov_offset stream_offset : Z) (fin : bool) :
    M (Creator P E D) (option Z) :=
  header ← FillPacketHeader;
  c ← get;
  let v := transport_version_of c in
  let n := Z.to_nat kMaxPacketSize in
  r ← on_buffer n (
    ok ← AppendPacketHeader header;
    if negb ok then mret None
    else
      w ← gets writer;
      let remaining_data_size := uint64 (write_length - iov_offset) in
      let min_frame_size := GetMinStreamFrameSize v id stream_offset true in
      let available_size := uint64 (max_plaintext_size_ c - Z.of_nat (Writer.length_ w) - min_frame_size) in
      let bytes_consumed := Z.min available_size remaining_data_size in
      let frame := stream_frame id (fin && (bytes_consumed =? remaining_data_size)) stream_offset bytes_consumed in
      ok ← (wr (AppendTypeByte v (STREAM_FRAME frame) true) &; AppendStreamFrame frame true);
      mret (if ok : bool then Some (bytes_consumed, frame) else None));
  match r with
  | (None, _) => mret None
  | (Some (bytes_consumed, frame), w) =>
      sealed ← seal (GetStartOfEncryptedData header) (take (Writer.length_ w) (Writer.buffer_ w)) n;
      match sealed with
      | [] => mret None
      | _ =>
          modify (fun c => with_queue c (queued_frames_ c) 0);;
          modify (set_packet (fun p =>
            Serialized.with_frames (Serialized.with_buffer p (Some sealed))
              (Serialized.retransmittable_frames p ++ [STREAM_FRAME frame]) (Serialized.has_crypto_handshake p)));;
          packet_serialized;;
          mret (Some bytes_consumed)
      end
  end.

(** [void ReserializeAllFrames(retransmission, buffer, buffer_len)] *)
Definition ReserializeAllFrames (retransmission : QuicPendingRetransmission) (buffer_len : nat) : M (Creator P E D) unit :=
  c ← get;
  let default_encryption_level := level_of c in
  modify (set_packet (fun p => Serialized.with_number p (Serialized.packet_number p)
                                 (pending_packet_number_length retransmission)));;
  when (pending_num_padding_bytes retransmission =? -1)
    (modify (fun c => with_padding c (pending_padding_bytes_ c) true));;
  when (pending_crypto_handshake retransmission || bool_decide (default_encryption_level <> ENCRYPTION_FORWARD_SECURE))
    (modify (set_encryption_level (pending_encryption_level retransmission)));;
  for_each (pending_frames retransmission) (fun frame => _ ← AddFrame levels frame false; mret tt);;
  modify (SetTransmissionType (pending_transmission_type retransmission));;
  SerializePacket (AddFrame levels) buffer_len;;
  modify (set_packet (fun p => Serialized.with_transmission p (Serialized.transmission_type p)
                                 (pending_packet_number retransmission)));;
  packet_serialized;;
  modify (set_encryption_level default_encryption_level).

(** [OwningSerializedPacketPointer SerializeConnectivityProbingPacket()] *)
Definition SerializeConnectivityProbingPacket : M (Creator P E D) SerializedPacket :=
  header ← FillPacketHeader;
  c ← get;
  if max_plaintext_size_ c >? kMaxPacketSize then crashed OutOfBounds
  else
    r ← on_buffer (Z.to_nat (max_plaintext_size_ c)) (BuildConnectivityProbingPacket header);
    let '(length, w) := r in
    sealed ← seal (GetStartOfEncryptedData header) (take length (Writer.buffer_ w)) (Z.to_nat kMaxPacketSize);
    mret (Serialized.with_transmission
            (Serialized.with_level
               (Serialized.init (packet_number header) (packet_number_length header) (Some sealed) false false) (level_of c))
            NOT_RETRANSMISSION 0).

(** [SerializeVersionNegotiationPacket(ietf_quic, supported_versions)] where
    [ietf_quic] is false *)
Definition SerializeVersionNegotiationPacket (supported_versions : list ParsedQuicVersion) : M (Creator P E D) (option (list Z)) :=
  c ← get;
  match BuildVersionNegotiationPacket (connection_id_ c) supported_versions tt with
  | Ret encrypted _ => mret encrypted
  | Crash x => crashed x
  end.

(** [static SerializedPacket NoPacket()] *)
Definition NoPacket : SerializedPacket := Serialized.init 0 1 None false false.
End Operations.

End PacketCreator.
