(* ===== verification/PacketFilling.v ===== *)
(** The open packet of a packet creator: what its size counter stands for, and that
    a packet that is flushed can be built, sealed and sent. *)

From S2P Require Import Prelude World QuicData Wire IntervalSet Intervals Crypter PacketNumberQueue PacketNumbers.
From S2P Require Import Framer FrameWriter FrameReader FrameWire AckWire FrameBuild FrameRead AckRead FrameData Handshake.
From S2P Require Import PacketFramer PacketNumberWire SessionProducer PacketTrip PacketCreator.
Import Serialized (SerializedPacket) PacketCreator.

(** ** What an encrypter promises *)

(** A text grows by a fixed number of bytes, which [GetMaxPlaintextSize] takes off,
    and is encrypted wherever the result fits. *)
Class Sealer (E : Type) `{!Encrypter E} : Type := {
  overhead : E -> Z;
  overhead_nonneg : forall e, 0 <= overhead e;
  sealed_size : forall e v pn ad plaintext max, Z.of_nat (length plaintext) + overhead e <= Z.of_nat max ->
    exists c, EncryptPacket v pn ad plaintext max e = Some c /\
      Z.of_nat (length c) = Z.of_nat (length plaintext) + overhead e;
  max_plaintext : forall e n, overhead e <= n < 2 ^ 64 -> GetMaxPlaintextSize n e = n - overhead e
}.

#[export, program] Instance null_sealer : Sealer NullEncrypter := { overhead _ := 12 }.
Next Obligation. done. Qed.
Next Obligation.
  intros e v pn ad plaintext max Hmax. cbn. unfold null_encrypt. cbv zeta.
  assert ((max <? length plaintext + kHashSizeShort)%nat = false) as -> by (apply Nat.ltb_ge; unfold kHashSizeShort; lia).
  eexists. split; [done|]. unfold SerializeUint128Short. rewrite !length_app, !store_length. lia.
Qed.
Next Obligation. intros e n Hn. change (uint64 (n - 12) = n - 12). cbn in Hn. apply uint64_small. lia. Qed.

Section Plaintext.
Context {E D : Type} `{HSe : Sealer E, !Decrypter D}.
Implicit Types s : Endpoint E D.

Lemma max_plaintext_bounds n s : (forall l e, encrypter_ s l = Some e -> overhead e <= n) -> 0 <= n < 2 ^ 64 ->
  max_plaintext_size n s <= n /\
  forall l e, encrypter_ s l = Some e -> max_plaintext_size n s <= n - overhead e.
Proof.
  intros Ho Hn. unfold max_plaintext_size. cbn [fold_left].
  assert (forall l e m, encrypter_ s l = Some e ->
    (if GetMaxPlaintextSize n e <? m then GetMaxPlaintextSize n e else m) = Z.min (n - overhead e) m) as Hm.
  { intros l e m He. rewrite max_plaintext by (specialize (Ho l e He); lia). destruct (Z.ltb_spec (n - overhead e) m); lia. }
  destruct (encrypter_ s ENCRYPTION_NONE) as [e1|] eqn:E1; [rewrite (Hm _ _ _ E1)|];
  destruct (encrypter_ s ENCRYPTION_INITIAL) as [e2|] eqn:E2; try rewrite (Hm _ _ _ E2);
  destruct (encrypter_ s ENCRYPTION_FORWARD_SECURE) as [e3|] eqn:E3; try rewrite (Hm _ _ _ E3);
  (split; [lia|]); intros [] e He; simplify_eq; lia.
Qed.
End Plaintext.

(** ** Sizes of frames in a row *)

Definition is_padding (x : QuicFrame) : Prop := match x with PADDING_FRAME _ => True | _ => False end.

(** What the last frame grows by when another follows. *)
Definition grown (xs : list QuicFrame) : Z :=
  match last xs with Some (STREAM_FRAME _) => kQuicStreamPayloadLengthSize | _ => 0 end.

Definition cost (f : Framer.Framer) (h : QuicPacketHeader) (x : QuicFrame) : Z :=
  match x with
  | PADDING_FRAME n => if (transport_version (Framer.version_ f) <=? 37) || (n <? 0) then 1 else n
  | _ => ComputeFrameLength f x true (packet_number_length h)
  end.

Lemma needed_snoc f h x : forall xs, needed f h (xs ++ [x]) = needed f h xs + grown xs + cost f h x.
Proof.
  induction xs as [|y xs IH]; [cbn [app needed]; unfold grown, cost; cbn [last]; destruct x; lia|]. cbn [app needed]. rewrite IH.
  destruct xs as [|z xs].
  { cbn [app needed]. unfold grown. cbn [last]. destruct y; cbn [ComputeFrameLength]; try lia.
    unfold GetMinStreamFrameSize, kQuicStreamPayloadLengthSize. lia. }
  change (grown (y :: z :: xs)) with (grown (z :: xs)). cbn [app]. lia.
Qed.

Lemma grown_handed xs : grown (hand_over true <$> xs) = grown xs.
Proof. unfold grown. rewrite fmap_last. destruct (last xs) as [[]|]; done. Qed.

Lemma grown_range xs : 0 <= grown xs <= 2.
Proof. unfold grown, kQuicStreamPayloadLengthSize. destruct (last xs) as [[]|]; lia. Qed.

Lemma handed_length f x b n : ComputeFrameLength f (hand_over true x) b n = ComputeFrameLength f x b n.
Proof. by destruct x. Qed.

Lemma frame_length_pos f h x last : frame_ok f h x -> ~ is_padding x ->
  0 < ComputeFrameLength f x last (packet_number_length h).
Proof.
  intros Hok Hp. destruct x; cbn [frame_ok sendable ComputeFrameLength is_padding] in *; try done.
  - unfold GetMinConnectionCloseFrameSize, kQuicFrameTypeSize, kQuicErrorCodeSize, kQuicErrorDetailsLengthSize. lia.
  - unfold GetMinGoAwayFrameSize, kQuicFrameTypeSize, kQuicErrorCodeSize, kQuicErrorDetailsLengthSize, kQuicMaxStreamIdSize. lia.
  - unfold GetStopWaitingFrameSize, kQuicFrameTypeSize. destruct Hok as [Hl _]. set_unfold in Hl. lia.
  - destruct Hok as (Hid & Ho & d & _ & Hn & _). pose proof (id_size_range _ Hid).
    pose proof (offset_size_range (transport_version (Framer.version_ f)) _ Ho).
    unfold GetMinStreamFrameSize, kQuicFrameTypeSize, kQuicStreamPayloadLengthSize. destruct last; lia.
  - pose proof (af_num _ _ (ackable_facts _ _ _ Hok)) as Hnum. rename f0 into a.
    set (v := transport_version (Framer.version_ f)) in *.
    destruct (number_length_8 _ (min_length_ok v (largest_acked a))) as [_ Hl0].
    destruct (number_length_8 _ (min_length_ok v (max_block_length (GetAckFrameInfo a)))) as [_ Hb0].
    unfold GetAckFrameSize, LargestAcked, GetMinAckFrameSize, GetAckFrameTimeStampSize, kQuicFrameTypeSize,
      kQuicDeltaTimeLargestObservedSize, kQuicNumTimestampsSize, kNumberOfAckBlocksSize. fold v. cbv zeta.
    change kMaxAckBlocks with 255. destruct (num_ack_blocks _ =? 0), (Framer.use_incremental_ack_processing_ f),
      (received_packet_times a); cbn [negb length]; nia.
Qed.

(** The length [AddFrame] counts: that of the frame if it fits. *)
Lemma serialized_length f h x free first : frame_ok f h x -> ~ is_padding x ->
  (first = true -> match x with ACK_FRAME a => GetAckFrameSize f a <= free | _ => True end) ->
  GetSerializedFrameLength f (hand_over true x) free first true (packet_number_length h) =
  if cost f h x <=? free then cost f h x else 0.
Proof.
  intros Hok Hp Hack. unfold GetSerializedFrameLength, cost. rewrite handed_length.
  destruct x; try done; cbn [hand_over]; try (destruct (_ <=? free); [done|by destruct first]).
  cbn [ComputeFrameLength] in *. destruct (Z.leb_spec (GetAckFrameSize f f0) free); [done|].
  destruct first; [specialize (Hack eq_refl); lia|done].
Qed.

Section Filling.
Context {P E D : Type} `{HS : Supplier P} `{HSe : Sealer E} `{!Decrypter D, !FramerVisitor}.
Implicit Types c : Creator P E D.

(** ** The next header *)

Definition header_size c : Z :=
  GetPacketHeaderSize (connection_id_length_ c) (send_version_in_packet_ c) (IncludeNonceInPublicHeader c)
    (GetPacketNumberLength c).

Definition number_of c : Z := Serialized.packet_number (packet_ c).

Definition next_header c : QuicPacketHeader :=
  {| connection_id := connection_id_ c; connection_id_length := connection_id_length_ c; reset_flag := false;
     version_flag := send_version_in_packet_ c; packet_number_length := GetPacketNumberLength c;
     version := unsupported_version;
     nonce := if IncludeNonceInPublicHeader c then Some (diversification_nonce_ c) else None;
     packet_number := number_of c + 1 |}.

Lemma next_header_start c : GetStartOfEncryptedData (next_header c) = header_size c.
Proof. unfold GetStartOfEncryptedData, header_size. cbn. by destruct (IncludeNonceInPublicHeader c). Qed.

(** The creator after [FillPacketHeader]. *)
Definition numbered c : Creator P E D :=
  set_packet (fun p => Serialized.with_number p (number_of c + 1) (Serialized.packet_number_length p)) c.

Lemma header_filled c : 0 <= number_of c < 2 ^ 62 -> FillPacketHeader c = Ret (next_header c) (numbered c).
Proof.
  intros Hn. unfold FillPacketHeader, mbind, M_bind, modify, get, mret, M_ret, numbered, set_packet. fold (number_of c).
  by rewrite uint64_small by lia.
Qed.

(** ** The queue and its size *)

(** The frames [xs] are queued for a packet with header [h]. *)
Record loaded (f : Framer.Framer) (h : QuicPacketHeader) (xs : list QuicFrame) c : Prop := {
  lo_queue : queued_frames_ c = hand_over true <$> xs;
  lo_size : xs <> [] -> packet_size_ c = header_size c + needed f h xs;
  lo_needed : 0 <= needed f h xs;
  lo_header : 0 <= header_size c < max_plaintext_size_ c;
  lo_room : header_size c + needed f h xs <= max_plaintext_size_ c <= kMaxPacketSize;
  lo_pending : 0 <= pending_padding_bytes_ c < 2 ^ 15
}.

Definition size_of (f : Framer.Framer) (h : QuicPacketHeader) (xs : list QuicFrame) c : Z := header_size c + needed f h xs.
Definition free_of (f : Framer.Framer) (h : QuicPacketHeader) (xs : list QuicFrame) c : Z :=
  max_plaintext_size_ c - Z.min (max_plaintext_size_ c) (size_of f h xs c + grown xs).
Definition sized (f : Framer.Framer) (h : QuicPacketHeader) (xs : list QuicFrame) c : Creator P E D :=
  with_queue c (hand_over true <$> xs) (size_of f h xs c).

Lemma loaded_sized f h xs c : loaded f h xs c -> loaded f h xs (sized f h xs c).
Proof. intros [H1 H2 H3 H4 H5 H6]. by split. Qed.

Lemma bytes_free f h xs c : loaded f h xs c -> BytesFree c = Ret (free_of f h xs c) (sized f h xs c).
Proof.
  intros [H1 H2 H3 H4 H5 H6]. unfold BytesFree, PacketSize, mbind, M_bind, get, modify, mret, M_ret. cbv beta.
  assert (kMaxPacketSize = 1452) as Hk by done. pose proof (grown_range xs) as Hg. rewrite H1.
  destruct xs as [|x xs]; cbn [fmap list_fmap].
  - change (GetPacketHeaderSize _ _ _ _) with (header_size c). unfold free_of, sized, size_of. cbn [needed] in *. rewrite Z.add_0_r.
    unfold ExpansionOnNewFrame. cbn [with_queue queued_frames_ max_plaintext_size_ fmap list_fmap last grown].
    rewrite H1. cbn [fmap list_fmap last]. rewrite uint64_small, Z.add_0_r by lia. done.
  - assert (sized f h (x :: xs) c = c) as Hs.
    { unfold sized, size_of. rewrite <- H1, <- H2 by done. by destruct c. }
    rewrite Hs. f_equal. unfold free_of, size_of. rewrite H2 by done.
    unfold ExpansionOnNewFrame. rewrite H1. fold (grown (hand_over true <$> x :: xs)). rewrite grown_handed.
    rewrite uint64_small by lia. done.
Qed.

Lemma free_range f h xs c : loaded f h xs c -> 0 <= free_of f h xs c <= max_plaintext_size_ c.
Proof. intros [H1 H2 H3 H4 H5 H6]. pose proof (grown_range xs). unfold free_of, size_of. lia. Qed.

(** ** Padding *)

(** The padding that is added, if any, and the creator with it. *)
Definition padded (q : list QuicFrame) (size n pending : Z) (full : bool) c : Creator P E D :=
  with_queue (with_padding (set_packet (fun p => Serialized.with_padding p n) c) pending full) q size.

Definition pads (pad : list QuicFrame) : Prop := pad = [] \/ exists n, n <> 0 /\ pad = [PADDING_FRAME n].

Lemma add_padding fuel f h xs c n (c0 := sized f h xs c) : loaded f h xs c -> f = framer_of c -> n <> 0 ->
  n = -1 \/ 0 < n <= free_of f h xs c -> 0 < free_of f h xs c ->
  let len := if n =? -1 then free_of f h xs c else n in
  AddFrame (S fuel) (PADDING_FRAME n) false c0 =
  Ret true (with_queue c ((hand_over true <$> xs) ++ [PADDING_FRAME n]) (size_of f h xs c + grown xs + len)).
Proof.
  intros Hl Hf Hn0 Hn Hfree len. pose proof (loaded_sized _ _ _ _ Hl) as Hl0. fold c0 in Hl0.
  cbn [AddFrame unencrypted_data]. unfold mbind, M_bind, get. cbv beta iota. rewrite (bytes_free f h xs c0 Hl0). cbv beta iota.
  assert (sized f h xs c0 = c0) as -> by done. assert (free_of f h xs c0 = free_of f h xs c) as -> by done.
  pose proof Hl as [H1 H2 H3 H4 H5 H6]. assert (kMaxPacketSize = 1452) as Hk by done. pose proof (grown_range xs) as Hg.
  assert (size_of f h xs c + grown xs + free_of f h xs c = max_plaintext_size_ c) as Hsum.
  { unfold free_of in *. lia. }
  cbn [GetSerializedFrameLength]. assert ((if n =? -1 then free_of f h xs c
    else if free_of f h xs c <? uint64 n then free_of f h xs c else uint64 n) = len) as ->.
  { unfold len. pose proof (free_range _ _ _ _ Hl). destruct (Z.eqb_spec n (-1)); [done|]. rewrite uint64_small by lia.
    destruct (Z.ltb_spec (free_of f h xs c) n); [lia|done]. }
  assert (0 < len <= free_of f h xs c) as Hlen by (unfold len; destruct (Z.eqb_spec n (-1)); lia).
  rewrite (proj2 (Z.eqb_neq len 0)) by lia. unfold modify, mret, M_ret. f_equal.
  unfold take_frame. cbn [andb]. unfold ExpansionOnNewFrame. change (queued_frames_ c0) with (hand_over true <$> xs).
  fold (grown (hand_over true <$> xs)). rewrite grown_handed. change (packet_size_ c0) with (size_of f h xs c).
  clearbody len. unfold size_of in *. rewrite (uint64_small (grown xs + len)), uint64_small, Z.add_assoc by lia. done.
Qed.

(** No padding is asked for. *)
Definition unpadded c : Prop :=
  needs_full_padding_ c = false /\ pending_padding_bytes_ c = 0 /\ Serialized.transmission_type (packet_ c) <> PROBING_RETRANSMISSION.

Lemma padding_added fuel f h xs c : loaded f h xs c -> f = framer_of c -> xs <> [] \/ 0 < pending_padding_bytes_ c ->
  exists pad q size n pending full,
    MaybeAddPadding (AddFrame (S fuel)) c = Ret tt (padded q size n pending full c) /\ pads pad /\
    q = hand_over true <$> (xs ++ pad) /\ xs ++ pad <> [] /\ 0 <= pending <= pending_padding_bytes_ c /\
    header_size c + needed f h (xs ++ pad) <= size <= max_plaintext_size_ c /\
    (unpadded c -> pad = [] /\ n = Serialized.num_padding_bytes (packet_ c) /\ pending = pending_padding_bytes_ c).
Proof.
  intros Hl Hf Hsome. pose proof (loaded_sized _ _ _ _ Hl) as Hl0. pose proof (bytes_free _ _ _ _ Hl) as Hb.
  pose proof (free_range _ _ _ _ Hl) as Hfr. pose proof Hl as [H1 H2 H3 H4 H5 H6]. assert (kMaxPacketSize = 1452) as Hk by done.
  pose proof (grown_range xs) as Hg. unfold MaybeAddPadding, mbind, M_bind. rewrite Hb.
  set (free := free_of f h xs c) in *. set (c0 := sized f h xs c) in *.
  destruct (Z.eqb_spec free 0) as [Hz|Hz].
  { exists [], (hand_over true <$> xs), (size_of f h xs c), (Serialized.num_padding_bytes (packet_ c)),
      (pending_padding_bytes_ c), (needs_full_padding_ c). rewrite app_nil_r. split; [|split; [by left|]].
    - unfold mret, M_ret. f_equal. unfold c0, sized, padded. destruct c as [? ? ? ? ? ? ? ? ? ? ? pk]. by destruct pk.
    - unfold free, free_of, size_of in *. cbn [grown] in *. destruct xs; [cbn [needed last] in *; unfold grown in *; cbn [last] in *; lia|].
      split_and!; try done; lia. }
  set (full := if decide (Serialized.transmission_type (packet_ c) = PROBING_RETRANSMISSION) then true else needs_full_padding_ c).
  unfold modify at 1. set (c1 := if decide (Serialized.transmission_type (packet_ c0) = _) then _ else _).
  assert (c1 = sized f h xs (with_padding c (pending_padding_bytes_ c) full)) as -> by
    (unfold c1, full, c0; cbn [packet_ sized with_queue]; by destruct (decide _), c).
  set (c2 := with_padding c _ full). assert (loaded f h xs c2) as Hl2 by by split. unfold get.
  change (needs_full_padding_ (sized f h xs c2)) with full.
  change (pending_padding_bytes_ (sized f h xs c2)) with (pending_padding_bytes_ c).
  assert (forall n pending', ~ unpadded c -> n <> 0 -> n = -1 \/ 0 < n <= free -> 0 <= pending' <= pending_padding_bytes_ c ->
    exists pad q size n0 pending full0,
      match AddFrame (S fuel) (PADDING_FRAME n) false
              (sized f h xs (with_padding (set_packet (fun p => Serialized.with_padding p n) c) pending' full)) with
      | Ret _ s => Ret tt s | Crash x => Crash x end = Ret tt (padded q size n0 pending full0 c) /\ pads pad /\
      q = hand_over true <$> (xs ++ pad) /\ xs ++ pad <> [] /\ 0 <= pending <= pending_padding_bytes_ c /\
      header_size c + needed f h (xs ++ pad) <= size <= max_plaintext_size_ c /\
      (unpadded c -> pad = [] /\ n0 = Serialized.num_padding_bytes (packet_ c) /\ pending = pending_padding_bytes_ c)) as Hgo.
  { intros n pending' Hun Hn0 Hn Hp'. set (c3 := with_padding _ pending' full). assert (loaded f h xs c3) as Hl3 by (split; try done; cbn; lia).
    rewrite (add_padding fuel f h xs c3 n Hl3) by (done || change (free_of f h xs c3) with free; lia).
    exists [PADDING_FRAME n], ((hand_over true <$> xs) ++ [PADDING_FRAME n]),
      (size_of f h xs c + grown xs + (if n =? -1 then free else n)), n, pending', full.
    split; [done|]. split; [right; by exists n|]. rewrite fmap_app. split; [done|]. split; [by destruct xs|]. split; [done|].
    split; [|done]. rewrite needed_snoc. unfold cost, free, free_of, size_of in *.
    destruct (transport_version _ <=? 37), (Z.ltb_spec n 0), (Z.eqb_spec n (-1)); cbn [orb]; lia. }
  destruct full eqn:Efull; cbn [negb andb].
  - unfold modify. apply (Hgo (-1) (pending_padding_bytes_ c)); [|lia..].
    intros (U1 & _ & U3). unfold full in Efull. by rewrite decide_False, U1 in Efull.
  - destruct (Z.eqb_spec (pending_padding_bytes_ c) 0) as [Hp0|Hp0].
    + exists [], (hand_over true <$> xs), (size_of f h xs c), (Serialized.num_padding_bytes (packet_ c)),
        (pending_padding_bytes_ c), false. rewrite app_nil_r. split; [|split; [by left|]].
      * unfold mret, M_ret. f_equal. unfold c2, sized, padded. destruct c as [? ? ? ? ? ? ? ? ? ? ? pk]. by destruct pk.
      * unfold size_of. split_and!; try done; try lia. destruct Hsome; [done|lia].
    + rewrite (bytes_free f h xs (sized f h xs c2)) by by apply loaded_sized.
      change (free_of f h xs (sized f h xs c2)) with free. change (sized f h xs (sized f h xs c2)) with (sized f h xs c2).
      unfold modify. unfold int16. rewrite !wrap_s_small by (change (2 ^ 15) with 32768 in *; lia).
      set (n := pending_padding_bytes_ c `min` free).
      change (pending_padding_bytes_ (sized f h xs c2)) with (pending_padding_bytes_ c).
      rewrite uint64_small by lia. apply (Hgo n (pending_padding_bytes_ c - n)); [|lia..].
      by intros (_ & U2 & _).
Qed.

(** ** Building and sealing *)

(** [sealed] is the packet of [frames] with header [h], as the framer and the keys
    of [s] make it. *)
Definition sent_as (s : Endpoint E D) (level : EncryptionLevel) (h : QuicPacketHeader) (frames : list QuicFrame) (sealed : list Z) :
    Prop :=
  let f := framer (parsing s) in
  exists (p : P) n b len,
    buildable f h frames n /\ supplied (Some p) frames /\
    BuildDataPacket h (hand_over true <$> frames) (building f (Some p) (replicate n 0)) = Ret len b /\
    EncryptPayload level (packet_number h) h (take len (Writer.buffer_ (writer b))) (Z.to_nat kMaxPacketSize) s = Ret sealed s.

Lemma sealed_in_place v level e pn ad data buffer_len : (ad <= length data)%nat ->
  Z.of_nat (length data) + overhead e <= Z.of_nat buffer_len ->
  exists sealed, Z.of_nat (length sealed) = Z.of_nat (length data) + overhead e /\
    forall s : Endpoint E D, encrypter_ s level = Some e -> transport_version (Framer.version_ (framer (parsing s))) = v ->
      EncryptInPlace level pn ad data buffer_len s = Ret sealed s.
Proof.
  intros Had Hlen. pose proof (overhead_nonneg e) as Ho.
  destruct (sealed_size e v pn (take ad data) (drop ad data) (buffer_len - ad)) as (out & Eo & Hout);
    [rewrite length_drop; lia|].
  exists (take ad data ++ out). split; [rewrite length_app, length_take, Nat2Z.inj_add, Hout, length_drop; lia|].
  intros s He Hv. unfold EncryptInPlace, mbind, M_bind, get, deref. rewrite He, Hv. cbv beta iota zeta.
  rewrite (proj2 (Nat.ltb_ge _ _) Had), (proj2 (Nat.ltb_ge buffer_len ad)) by lia. cbn [orb]. by rewrite Eo.
Qed.

Definition built c (h : QuicPacketHeader) (p : option P) : Creator P E D := set_framer (wrote_header h (framer_of c)) p c.

Lemma wire_fits f h frames n (p : P) : buildable f h frames n -> supplied (Some p) frames -> (length (packet_wire f h frames n) <= n)%nat.
Proof.
  intros Hb Hs. rewrite <- (length_replicate n 0) in Hb. destruct (packet_built f (Some p) h frames (replicate n 0) Hb Hs) as (Hle & _).
  by rewrite length_replicate in Hle.
Qed.

(** What the keys of the creator make of the bytes of a packet. *)
Definition seals c (h : QuicPacketHeader) (bs sealed : list Z) : Prop :=
  EncryptInPlace (level_of c) (packet_number h) (Z.to_nat (GetStartOfEncryptedData h)) bs (Z.to_nat kMaxPacketSize) (endpoint_ c) =
  Ret sealed (endpoint_ c).

Lemma packet_made c h frames n p e : buildable (framer_of c) h frames n -> producer_ c = Some p -> supplied (Some p) frames ->
  number_of c = packet_number h -> encrypter_ (endpoint_ c) (level_of c) = Some e ->
  Z.of_nat (length (packet_wire (framer_of c) h frames n)) + overhead e <= max_packet_length_ c <= kMaxPacketSize ->
  exists b p' sealed, let len := Writer.length_ (writer b) in
    BuildDataPacket h (hand_over true <$> frames) (building (framer_of c) (producer_ c) (replicate n 0)) = Ret len b /\
    builder b = wrote_header h (framer_of c) /\ data_producer_ b = Some p' /\
    (0 < len)%nat /\ supplied (Some p') [] /\ hands_on (producer_ c) frames (Some p') /\
    seal (GetStartOfEncryptedData h) (take len (Writer.buffer_ (writer b))) (Z.to_nat kMaxPacketSize) (built c h (Some p')) =
      Ret sealed (built c h (Some p')) /\
    sealed <> [] /\ Z.of_nat (length sealed) <= max_packet_length_ c /\
    sent_as (endpoint_ c) (level_of c) h frames sealed /\ seals c h (packet_wire (framer_of c) h frames n) sealed.
Proof.
  intros Hb Hp Hs Hn He Hlen. set (f := framer_of c) in *. assert (kMaxPacketSize = 1452) as Hk by done.
  assert (buildable f h frames (length (replicate n 0))) as Hb' by by rewrite length_replicate.
  destruct (packet_built f (Some p) h frames (replicate n 0) Hb' Hs) as (_ & _ & b & Eb & Ht & Hl & Hr & Hho).
  destruct Hr as (Hfr & _ & Hpr). rewrite length_replicate in Eb, Ht, Hl. set (bs := packet_wire f h frames n) in *.
  pose proof (header_wire_length _ (Framer.version_ f) _ (bu_header _ _ _ _ Hb)) as Hhl.
  set (hw := header_wire (Framer.perspective_ f) (Framer.version_ f) h) in *.
  assert (length hw <= length bs)%nat as Hhb by (unfold bs, packet_wire; rewrite length_app; fold hw; lia).
  assert (0 < length hw)%nat as Hpos by (unfold hw; rewrite header_wire_split; unfold public_wire; rewrite !length_app, store_length; lia).
  destruct (sealed_in_place (transport_version (Framer.version_ f)) (level_of c) e (packet_number h)
    (Z.to_nat (GetStartOfEncryptedData h)) bs (Z.to_nat kMaxPacketSize)) as (sealed & Hsl & Hse); [lia..|].
  destruct (data_producer_ b) as [p'|] eqn:Ep; [|done].
  exists b, p', sealed. pose proof (overhead_nonneg e). cbv zeta. rewrite Hl. split_and!.
  - rewrite Hp. change (hand_over true) with (hand_over (has_producer (Some p))). exact Eb.
  - done.
  - done.
  - lia.
  - apply Hpr.
  - by rewrite Hp.
  - rewrite Ht. unfold seal. change (level_of (built c h (Some p'))) with (level_of c).
    change (Serialized.packet_number (packet_ (built c h (Some p')))) with (number_of c). rewrite Hn.
    rewrite Hse by done. f_equal.
  - intros ->. cbn in Hsl. lia.
  - lia.
  - exists p, n, b, (length bs). split_and!; [done|done|exact Eb|]. rewrite Ht. by apply Hse.
  - by apply Hse.
Qed.

(** ** Between two operations *)

(** The settings fit each other; the level of the packet has a key. *)
Record settled c : Prop := {
  se_header : sendable_header (perspective_of c) (next_header c);
  se_number : 0 <= number_of c < 2 ^ 62;
  se_plain : max_plaintext_size_ c = max_plaintext_size (max_packet_length_ c) (endpoint_ c);
  se_length : 0 <= max_packet_length_ c <= kMaxPacketSize;
  se_keys : exists e, encrypter_ (endpoint_ c) (level_of c) = Some e;
  se_overheads : forall l e, encrypter_ (endpoint_ c) l = Some e -> overhead e <= max_packet_length_ c;
  se_room : header_size c < max_plaintext_size_ c;
  se_pending : 0 <= pending_padding_bytes_ c < 2 ^ 15;
  se_clean : Serialized.encrypted_buffer (packet_ c) = None
}.

(** The frames [xs] are in the open packet, and their stream data is there. *)
Record filling (xs : list QuicFrame) c : Prop := {
  fi_settled : settled c;
  fi_queue : queued_frames_ c = hand_over true <$> xs;
  fi_size : xs <> [] -> packet_size_ c = size_of (framer_of c) (next_header c) xs c;
  fi_room : size_of (framer_of c) (next_header c) xs c <= max_plaintext_size_ c;
  fi_ok : Forall (frame_ok (framer_of c) (next_header c)) xs;
  fi_plain : Forall (fun x => ~ is_padding x) xs;
  fi_data : exists p, producer_ c = Some p /\ supplied (Some p) xs
}.

Lemma header_size_nonneg c : settled c -> 0 <= header_size c.
Proof.
  intros Hs. destruct (se_header _ Hs) as [Hi _ _ _ _ Hl]. unfold header_size, GetPacketHeaderSize, kPublicFlagsSize,
    kQuicVersionSize, kDiversificationNonceSize. cbn [connection_id_length packet_number_length next_header] in *.
  set_unfold in Hl. destruct (send_version_in_packet_ c), (IncludeNonceInPublicHeader c); lia.
Qed.

Lemma plaintext_bound c e : settled c -> encrypter_ (endpoint_ c) (level_of c) = Some e ->
  max_plaintext_size_ c + overhead e <= max_packet_length_ c <= kMaxPacketSize.
Proof.
  intros Hs He. rewrite (se_plain _ Hs). pose proof (se_length _ Hs) as Hl. assert (kMaxPacketSize = 1452) as Hk by done.
  destruct (max_plaintext_bounds (max_packet_length_ c) (endpoint_ c) (se_overheads _ Hs)) as [_ Hb]; [lia|].
  specialize (Hb _ _ He). lia.
Qed.

Lemma filling_loaded xs c : filling xs c -> loaded (framer_of c) (next_header c) xs c.
Proof.
  intros [Hs H1 H2 H3 H4 H5 H6]. destruct (se_keys _ Hs) as [e He]. pose proof (plaintext_bound c e Hs He).
  pose proof (overhead_nonneg e). pose proof (header_size_nonneg c Hs). unfold size_of in *.
  split; [done|done|by apply needed_nonneg|split; [done|apply Hs]|lia|apply Hs].
Qed.

(** Padding at the end of frames without padding. *)
Lemma placed_last v pad : pads pad -> forall xs, Forall (fun x => ~ is_padding x) xs -> well_placed v (xs ++ pad).
Proof.
  intros Hp. induction xs as [|x xs IH]; intros Hx.
  - destruct Hp as [->|(n & _ & ->)]; cbn; done.
  - apply Forall_cons in Hx as [Hx Hxs]. specialize (IH Hxs). destruct x; cbn [app well_placed is_padding] in *; done.
Qed.

Lemma supplied_pad (p : P) xs pad : pads pad -> supplied (Some p) xs -> supplied (Some p) (xs ++ pad).
Proof.
  intros Hp. unfold supplied. rewrite fmap_app, concat_app. destruct Hp as [->|(n & _ & ->)]; cbn; by rewrite app_nil_r.
Qed.

Lemma handed_pad (p : P) pad xs p' : pads pad -> hands_on (Some p) (xs ++ pad) (Some p') -> hands_on (Some p) xs (Some p').
Proof.
  intros Hp. unfold hands_on. rewrite fmap_app, concat_app. destruct Hp as [->|(n & _ & ->)]; cbn; by rewrite app_nil_r.
Qed.

Lemma ok_pad f h xs pad : pads pad -> Forall (frame_ok f h) xs -> Forall (frame_ok f h) (xs ++ pad).
Proof.
  intros Hp Hx. apply Forall_app. split; [done|]. destruct Hp as [->|(n & Hn & ->)]; [done|]. by apply Forall_singleton.
Qed.

(** What no operation of a course changes. *)
Definition kept c c' : Prop :=
  Framer.version_ (framer_of c') = Framer.version_ (framer_of c) /\
  Framer.use_incremental_ack_processing_ (framer_of c') = Framer.use_incremental_ack_processing_ (framer_of c) /\
  perspective_of c' = perspective_of c /\ encrypter_ (endpoint_ c') = encrypter_ (endpoint_ c).

(** The packet [pk] went out with the frames [xs] and padding. *)
Record released c (xs : list QuicFrame) (pk : SerializedPacket) : Prop := {
  re_number : Serialized.packet_number pk = number_of c + 1;
  re_level : Serialized.encryption_level pk = level_of c;
  re_frames : Serialized.retransmittable_frames pk = Serialized.retransmittable_frames (packet_ c);
  re_sealed : exists sealed pad, Serialized.encrypted_buffer pk = Some sealed /\ sealed <> [] /\
    Z.of_nat (length sealed) <= max_packet_length_ c /\ pads pad /\
    sent_as (endpoint_ c) (level_of c) (next_header c) (xs ++ pad) sealed
}.

(** The creator after a packet was handed over. *)
Definition emptied c (n pending : Z) (p : option P) (pk : SerializedPacket) : Creator P E D :=
  let c := numbered c in
  let c := with_padding (set_packet (fun p => Serialized.with_padding p n) c) pending (needs_full_padding_ c) in
  let c := set_framer (Framer.with_numbers (framer_of c) (Framer.largest_packet_number_ (framer_of c)) (connection_id_ c)
                         (Framer.last_version_label_ (framer_of c))) p c in
  let c := ClearPacket (set_packet (fun p => Serialized.with_frames p [] (Serialized.has_crypto_handshake p)) c) in
  with_calls (with_queue c [] 0) (calls c ++ [OnSerializedPacket pk]).

Lemma emptied_filling c n pending p pk xs : filling xs c -> number_of c + 1 < 2 ^ 62 -> 0 <= pending < 2 ^ 15 -> supplied (Some p) [] ->
  filling [] (emptied c n pending (Some p) pk) /\ kept c (emptied c n pending (Some p) pk) /\
  number_of (emptied c n pending (Some p) pk) = number_of c + 1 /\
  Serialized.retransmittable_frames (packet_ (emptied c n pending (Some p) pk)) = [].
Proof.
  intros Hfi Hn Hpe Hp. set (c' := emptied _ _ _ _ _). destruct Hfi as [Hs _ _ _ _ _ _]. pose proof Hs as [S1 S2 S3 S4 S5 S6 S7 S8 S9].
  assert (settled c') as Hs'.
  { split; try done. - destruct S1 as [A1 A2 A3 A4 A5 A6]. by split. - change (0 <= number_of c + 1 < 2 ^ 62). lia. }
  assert (size_of (framer_of c') (next_header c') [] c' = header_size c) as Hsz by (unfold size_of; cbn [needed]; apply Z.add_0_r).
  split; [|by repeat split]. split; try done; [rewrite Hsz; change (max_plaintext_size_ c') with (max_plaintext_size_ c); lia|].
  by exists p.
Qed.

(** The packet as it is handed over. *)
Definition flushed_packet c (n : Z) (sealed : list Z) : SerializedPacket :=
  Serialized.with_buffer (Serialized.with_padding (packet_ (numbered c)) n) (Some sealed).

Lemma packet_flushed_as fuel xs c : filling xs c -> xs <> [] \/ 0 < pending_padding_bytes_ c -> number_of c + 1 < 2 ^ 62 ->
  exists n pending p' pk sealed pad size,
    (SerializePacket (AddFrame (S fuel)) (Z.to_nat kMaxPacketSize);; packet_serialized) c = Ret tt (emptied c n pending (Some p') pk) /\
    0 <= pending <= pending_padding_bytes_ c /\ supplied (Some p') [] /\ hands_on (producer_ c) xs (Some p') /\ pads pad /\ sealed <> [] /\ Z.of_nat (length sealed) <= max_packet_length_ c /\
    pk = flushed_packet c n sealed /\
    sent_as (endpoint_ c) (level_of c) (next_header c) (xs ++ pad) sealed /\
    seals c (next_header c) (packet_wire (framer_of c) (next_header c) (xs ++ pad) size) sealed /\
    (unpadded c -> pad = [] /\ n = Serialized.num_padding_bytes (packet_ c) /\ pending = pending_padding_bytes_ c).
Proof.
  intros Hfi Hsome Hn. pose proof (filling_loaded _ _ Hfi) as Hl. pose proof Hfi as [Hs F1 F2 F3 F4 F5 (p & F6 & F7)].
  set (f := framer_of c) in *. set (h := next_header c) in *. destruct (se_keys _ Hs) as [e He].
  pose proof (plaintext_bound c e Hs He) as Hpl. pose proof (overhead_nonneg e) as Ho. assert (kMaxPacketSize = 1452) as Hk by done.
  assert (loaded f h xs (numbered c)) as Hln by (destruct Hl; by split).
  destruct (padding_added fuel f h xs (numbered c) Hln eq_refl Hsome) as (pad & q & size & n & pending & full & Ep & Hpad & Hq & Hne & Hpe & Hsz & Hun).
  change (pending_padding_bytes_ (numbered c)) with (pending_padding_bytes_ c) in Hpe.
  change (header_size (numbered c)) with (header_size c) in Hsz. change (max_plaintext_size_ (numbered c)) with (max_plaintext_size_ c) in Hsz.
  set (c2 := padded q size n pending full (numbered c)) in *.
  pose proof (header_size_nonneg c Hs) as Hh0. pose proof (needed_nonneg f h _ (ok_pad f h xs pad Hpad F4)) as Hn0.
  assert (buildable (framer_of c2) h (xs ++ pad) (Z.to_nat size)) as Hb.
  { split; [apply Hs|done|by apply ok_pad|by apply placed_last| |].
    - unfold h. rewrite next_header_start. change (framer_of c2) with f. fold h. lia.
    - change (0 < number_of c + 1 < 2 ^ 62). pose proof (se_number _ Hs). lia. }
  destruct (packet_made c2 h (xs ++ pad) (Z.to_nat size) p e Hb F6) as (b & p' & sealed & Eb & Ebu & Edp & Hpos & Hsup & Hho & Es & Hnil & Hlen & Hsent & Hse);
    [by apply supplied_pad|done|done| |].
  { pose proof (wire_fits _ _ _ _ p Hb (supplied_pad p xs pad Hpad F7)). change (max_packet_length_ c2) with (max_packet_length_ c). lia. }
  cbv zeta in *. set (len := Writer.length_ (writer b)) in *.
  assert (SerializePacket (AddFrame (S fuel)) (Z.to_nat kMaxPacketSize) c =
    Ret tt (set_packet (fun p => Serialized.with_buffer p (Some sealed)) (with_queue (built c2 h (Some p')) [] 0))) as Eser.
  { unfold SerializePacket, mbind, M_bind. rewrite (header_filled c (se_number _ Hs)). fold h. rewrite Ep. unfold get. fold c2.
    change (packet_size_ c2) with size. rewrite Z.gtb_ltb, (proj2 (Z.ltb_ge _ size)) by lia.
    change (queued_frames_ c2) with q. rewrite Hq. unfold on_buffer. rewrite Eb, Ebu, Edp. fold (built c2 h (Some p')).
    rewrite (proj2 (Nat.eqb_neq len 0)) by lia.
    rewrite Es. destruct sealed; [done|]. reflexivity. }
  set (c3 := set_packet _ _) in Eser. set (pk := packet_ c3).
  assert (packet_serialized c3 = Ret tt (emptied c n pending (Some p') pk)) as Eout.
  { unfold packet_serialized, mbind, M_bind, get. reflexivity. }
  exists n, pending, p', pk, sealed, pad, (Z.to_nat size).
  split; [unfold mbind, M_bind; by rewrite Eser|]. split_and!; try done; try lia. rewrite F6. apply (handed_pad p pad); [done|]. rewrite <- F6. exact Hho.
Qed.

Lemma packet_flushed fuel xs c : filling xs c -> xs <> [] \/ 0 < pending_padding_bytes_ c -> number_of c + 1 < 2 ^ 62 ->
  exists c' pk, (SerializePacket (AddFrame (S fuel)) (Z.to_nat kMaxPacketSize);; packet_serialized) c = Ret tt c' /\
    released c xs pk /\ calls c' = calls c ++ [OnSerializedPacket pk] /\
    filling [] c' /\ kept c c' /\ number_of c' = number_of c + 1 /\
    Serialized.retransmittable_frames (packet_ c') = [].
Proof.
  intros Hfi Hsome Hn. destruct (packet_flushed_as fuel xs c Hfi Hsome Hn) as
    (n & pending & p' & pk & sealed & pad & size & Eq & Hpe & Hsup & _ & Hpad & Hne & Hlen & -> & Hsent & _ & _).
  eexists _, _. split; [exact Eq|]. pose proof (se_pending _ (fi_settled _ _ Hfi)).
  split; [|split; [done|apply (emptied_filling _ _ _ _ _ xs); try done; lia]].
  split; try done. by exists sealed, pad.
Qed.
End Filling.
