(* ===== verification/PacketCourses.v ===== *)
(** Courses of a packet creator: whatever frames are added, consumed and flushed,
    the packets it hands over hold the accepted frames in order, and the peer reads
    them. *)

From S2P Require Import Prelude World QuicData Wire IntervalSet Intervals Crypter PacketNumberQueue PacketNumbers.
From S2P Require Import Framer FrameWriter FrameReader FrameWire AckWire FrameBuild FrameRead AckRead FrameData Handshake.
From S2P Require Import SendBuffer Sending PacketFramer PacketNumberWire SessionProducer PacketTrip PacketCreator PacketFilling.
Import Serialized (SerializedPacket) PacketCreator.

Section Courses.
Context {P E D : Type} `{HS : Supplier P} `{HSe : Sealer E} `{!Decrypter D, !FramerVisitor}.
Implicit Types c : Creator P E D.

(** ** What an operation leaves behind *)

(** A packet of the frames [o.1], by an endpoint with the keys and the version of [c]. *)
Definition carries c (o : list QuicFrame * SerializedPacket) : Prop :=
  exists (s : Endpoint E D) h pad sealed,
    Framer.version_ (framer (parsing s)) = Framer.version_ (framer_of c) /\
    Framer.perspective_ (framer (parsing s)) = perspective_of c /\ encrypter_ s = encrypter_ (endpoint_ c) /\
    Serialized.encrypted_buffer o.2 = Some sealed /\ sealed <> [] /\ Z.of_nat (length sealed) <= kMaxPacketSize /\ pads pad /\
    packet_number h = Serialized.packet_number o.2 /\
    sent_as (P := P) s (Serialized.encryption_level o.2) h (o.1 ++ pad) sealed.

(** The frames a packet keeps for retransmission. *)
Definition retransmittables (xs : list QuicFrame) : list QuicFrame := List.filter ShouldRetransmit (hand_over true <$> xs).
Definition keeps (xs : list QuicFrame) (pk : SerializedPacket) : Prop := Serialized.retransmittable_frames pk = retransmittables xs.

(** From a creator with [xs] in its open packet to one with [xs'], [acc] having
    been accepted meanwhile. *)
Definition advances (xs : list QuicFrame) c (acc xs' : list QuicFrame) c' : Prop :=
  exists out : list (list QuicFrame * SerializedPacket),
    calls c' = calls c ++ (OnSerializedPacket ∘ snd <$> out) /\ Forall (carries c) out /\
    Forall (fun o => keeps o.1 o.2) out /\
    (forall i o, out !! i = Some o -> Serialized.packet_number o.2 = number_of c + Z.of_nat i + 1) /\
    number_of c' = number_of c + Z.of_nat (length out) /\ concat out.*1 ++ xs' = xs ++ acc /\
    filling xs' c' /\ keeps xs' (packet_ c') /\ kept c c'.

Lemma creator_kept_refl c : kept c c.
Proof. by repeat split. Qed.
Lemma creator_kept_trans c1 c2 c3 : kept c1 c2 -> kept c2 c3 -> kept c1 c3.
Proof. intros (A1 & A2 & A3 & A4) (B1 & B2 & B3 & B4). repeat split; congruence. Qed.

Lemma carries_kept c c' o : kept c c' -> carries c' o -> carries c o.
Proof.
  intros (A1 & _ & A3 & A4) (s & h & pad & sealed & H1 & H2 & H3 & Hrest). exists s, h, pad, sealed.
  split; [congruence|]. split; [congruence|]. split; [congruence|done].
Qed.

(** Nothing went out. *)
Lemma advances_quiet xs c acc c' : calls c' = calls c -> number_of c' = number_of c ->
  filling (xs ++ acc) c' -> keeps (xs ++ acc) (packet_ c') -> kept c c' -> advances xs c acc (xs ++ acc) c'.
Proof.
  intros H1 H2 H3 H4 H5. exists []. rewrite H1, H2. cbn. rewrite app_nil_r, Z.add_0_r. by split_and!.
Qed.

Lemma advances_trans xs1 c1 a1 xs2 c2 a2 xs3 c3 :
  advances xs1 c1 a1 xs2 c2 -> advances xs2 c2 a2 xs3 c3 -> advances xs1 c1 (a1 ++ a2) xs3 c3.
Proof.
  intros (o1 & A1 & A2 & A3 & A4 & A5 & A6 & A7 & A8 & A9) (o2 & B1 & B2 & B3 & B4 & B5 & B6 & B7 & B8 & B9).
  exists (o1 ++ o2). split_and!; try done.
  - by rewrite B1, A1, fmap_app, <- app_assoc.
  - apply Forall_app. split; [done|]. eapply Forall_impl; [exact B2|]. intros o. by apply carries_kept.
  - by apply Forall_app.
  - intros i o Hi. apply lookup_app_Some in Hi as [Hi|[Hge Hi]]; [by apply A4|]. rewrite (B4 _ _ Hi), A5. lia.
  - rewrite B5, A5, length_app. lia.
  - rewrite fmap_app, concat_app, <- app_assoc, B6, app_assoc, A6. by rewrite app_assoc.
  - by apply (creator_kept_trans _ c2).
Qed.

(** One packet went out with all that was open. *)
Lemma advances_flushed fuel xs c : filling xs c -> keeps xs (packet_ c) -> xs <> [] \/ 0 < pending_padding_bytes_ c ->
  number_of c + 1 < 2 ^ 62 ->
  exists n pending p' pk, let c' := emptied c n pending (Some p') pk in
    (SerializePacket (AddFrame (S fuel)) (Z.to_nat kMaxPacketSize);; packet_serialized) c = Ret tt c' /\
    advances xs c [] [] c' /\ hands_on (producer_ c) xs (Some p') /\ 0 <= pending <= pending_padding_bytes_ c.
Proof.
  intros Hfi Hk Hsome Hn. pose proof Hfi as [Hs _ _ _ _ _ _]. pose proof (se_length _ Hs) as Hml. pose proof (se_pending _ Hs) as Hpe.
  destruct (packet_flushed_as fuel xs c Hfi Hsome Hn) as
    (n & pending & p' & pk & sealed & pad & size & Eq & Hpd & Hsup & Hho & Hpad & Hne & Hlen & -> & Hsent & _ & _).
  exists n, pending, p', (flushed_packet c n sealed). split; [exact Eq|]. split; [|done].
  destruct (emptied_filling c n pending p' (flushed_packet c n sealed) xs Hfi Hn) as (G1 & G2 & G3 & G4); [lia|done|].
  exists [(xs, flushed_packet c n sealed)]. split_and!; try assumption; try reflexivity.
  - apply Forall_singleton. exists (endpoint_ c), (next_header c), pad, sealed. cbn [fst snd]. split_and!; try done; lia.
  - apply Forall_singleton. exact Hk.
  - intros [|i] o Hi; [|by destruct i]. cbn in Hi. simplify_eq. cbn. unfold number_of. lia.
  - cbn. by rewrite app_nil_r.
Qed.

(** ** Adding a frame *)

Definition resized xs c : Creator P E D := sized (framer_of c) (next_header c) xs c.
Definition free xs c : Z := free_of (framer_of c) (next_header c) xs c.

Lemma filling_resized xs c : filling xs c -> filling xs (resized xs c).
Proof. intros [[S1 S2 S3 S4 S5 S6 S7 S8 S9] F1 F2 F3 F4 F5 F6]. by split. Qed.

Lemma free_bytes xs c : filling xs c -> BytesFree c = Ret (free xs c) (resized xs c).
Proof. intros Hfi. by apply bytes_free, filling_loaded. Qed.

(** The packet of [take_frame] differs in the frames it keeps and in its acks only. *)
Lemma take_frame_eq x len c : exists pk, take_frame (hand_over true x) true len c =
    with_queue (with_packet c pk) (queued_frames_ c ++ [hand_over true x])
      (uint64 (packet_size_ c + uint64 (ExpansionOnNewFrame c + len))) /\
  Serialized.encrypted_buffer pk = Serialized.encrypted_buffer (packet_ c) /\
  Serialized.packet_number pk = Serialized.packet_number (packet_ c) /\
  Serialized.packet_number_length pk = Serialized.packet_number_length (packet_ c) /\
  Serialized.encryption_level pk = Serialized.encryption_level (packet_ c) /\
  Serialized.retransmittable_frames pk = Serialized.retransmittable_frames (packet_ c) ++ retransmittables [x].
Proof.
  unfold take_frame. destruct x; cbn [hand_over ShouldRetransmit andb retransmittables fmap list_fmap List.filter];
    (eexists; split; [reflexivity|]); cbn; rewrite ?app_nil_r; split_and!; reflexivity.
Qed.

(** A change of the queue and of parts of the packet that no header shows. *)
Lemma filling_queue xs xs' c pk size : filling xs c ->
  Serialized.encrypted_buffer pk = Serialized.encrypted_buffer (packet_ c) ->
  Serialized.packet_number pk = Serialized.packet_number (packet_ c) ->
  Serialized.packet_number_length pk = Serialized.packet_number_length (packet_ c) ->
  Serialized.encryption_level pk = Serialized.encryption_level (packet_ c) ->
  size = size_of (framer_of c) (next_header c) xs' c -> size <= max_plaintext_size_ c ->
  Forall (frame_ok (framer_of c) (next_header c)) xs' -> Forall (fun x => ~ is_padding x) xs' ->
  (exists p, producer_ c = Some p /\ supplied (Some p) xs') ->
  let c' := with_queue (with_packet c pk) (hand_over true <$> xs') size in filling xs' c' /\ kept c c' /\ number_of c' = number_of c.
Proof.
  intros Hfi P1 P2 P3 P4 Hsz Hle Hok Hpl Hda c'. pose proof Hfi as [Hs _ _ _ _ _ _]. pose proof Hs as [S1 S2 S3 S4 S5 S6 S7 S8 S9].
  assert (number_of c' = number_of c) as En by exact P2.
  assert (IncludeNonceInPublicHeader c' = IncludeNonceInPublicHeader c) as Ei.
  { unfold IncludeNonceInPublicHeader, level_of. cbn [packet_ c' with_queue with_packet]. by rewrite P4. }
  assert (next_header c' = next_header c) as Eh.
  { unfold next_header. rewrite En, Ei. unfold GetPacketNumberLength. cbn [packet_ c' with_queue with_packet]. by rewrite P3. }
  assert (header_size c' = header_size c) as Ez.
  { unfold header_size. rewrite Ei. unfold GetPacketNumberLength. cbn [packet_ c' with_queue with_packet]. by rewrite P3. }
  assert (level_of c' = level_of c) as El by exact P4.
  assert (size_of (framer_of c') (next_header c') xs' c' = size) as Es by (unfold size_of in *; by rewrite Ez, Eh).
  split; [|by repeat split]. split; [|done|intros _; symmetry; exact Es|rewrite Es; exact Hle|rewrite Eh; exact Hok|done|exact Hda].
  split; [rewrite Eh; exact S1|rewrite En; exact S2|exact S3|exact S4|rewrite El; exact S5|exact S6|rewrite Ez; exact S7|exact S8|].
  cbn [packet_ c' with_queue with_packet]. by rewrite P1.
Qed.

(** What must hold of a frame that is to be added. *)
Record addable (xs : list QuicFrame) (x : QuicFrame) c : Prop := {
  ad_plain : ~ is_padding x;
  ad_ok : frame_ok (framer_of c) (next_header c) x;
  ad_data : exists p, producer_ c = Some p /\ supplied (Some p) (xs ++ [x]);
  ad_level : unencrypted_data x c = false;
  ad_ack : match x with ACK_FRAME a => header_size c + GetAckFrameSize (framer_of c) a <= max_plaintext_size_ c | _ => True end
}.

Lemma retransmittables_app a b : retransmittables (a ++ b) = retransmittables a ++ retransmittables b.
Proof. unfold retransmittables. by rewrite fmap_app, List.filter_app. Qed.

Lemma frame_taken xs x c : filling xs c -> keeps xs (packet_ c) -> addable xs x c ->
  cost (framer_of c) (next_header c) x <= free xs c ->
  advances xs c [x] (xs ++ [x]) (take_frame (hand_over true x) true (cost (framer_of c) (next_header c) x) (resized xs c)).
Proof.
  intros Hfi Hk [A1 A2 A3 A4 A5] Hfree. pose proof Hfi as [Hs F1 F2 F3 F4 F5 F6]. pose proof (filling_loaded _ _ Hfi) as Hl.
  set (f := framer_of c) in *. set (h := next_header c) in *. set (len := cost f h x) in *.
  pose proof (filling_resized xs c Hfi) as Hfr. set (c0 := resized xs c) in *.
  destruct (take_frame_eq x len c0) as (pk & Et & P1 & P2 & P3 & P4 & P5). rewrite Et.
  assert (0 < len) as Hlen.
  { unfold len, cost. pose proof (frame_length_pos f h x true A2 A1). by destruct x. }
  pose proof (grown_range xs) as Hg. destruct Hl as [_ _ L3 L4 L5 _]. assert (kMaxPacketSize = 1452) as Hmax by done.
  assert (uint64 (packet_size_ c0 + uint64 (ExpansionOnNewFrame c0 + len)) = size_of f h (xs ++ [x]) c) as Hsz.
  { change (packet_size_ c0) with (size_of f h xs c). unfold ExpansionOnNewFrame. change (queued_frames_ c0) with (hand_over true <$> xs).
    fold (grown (hand_over true <$> xs)). rewrite grown_handed. unfold free, free_of in Hfree. fold f h in Hfree. unfold size_of in *.
    rewrite needed_snoc. fold len. rewrite (uint64_small (grown xs + len)), uint64_small by lia. lia. }
  change (queued_frames_ c0) with (hand_over true <$> xs). change [hand_over true x] with (hand_over true <$> [x]). rewrite <- fmap_app, Hsz.
  destruct (filling_queue xs (xs ++ [x]) c0 pk (size_of f h (xs ++ [x]) c) Hfr) as (G1 & G2 & G3); try done.
  - change (size_of f h (xs ++ [x]) c <= max_plaintext_size_ c). unfold free, free_of in Hfree. fold f h in Hfree. unfold size_of in *.
    rewrite needed_snoc. fold len. lia.
  - apply Forall_app. split; [done|by apply Forall_singleton].
  - apply Forall_app. split; [done|by apply Forall_singleton].
  - apply advances_quiet; try done. unfold keeps. cbn [packet_ with_queue with_packet]. rewrite P5.
    change (packet_ c0) with (packet_ c). rewrite Hk, retransmittables_app. done.
Qed.

Lemma flushed fuel xs c : filling xs c -> keeps xs (packet_ c) -> number_of c + 1 < 2 ^ 62 ->
  exists c', flush (AddFrame (S fuel)) c = Ret tt c' /\ advances xs c [] [] c'.
Proof.
  intros Hfi Hk Hn. pose proof (se_pending _ (fi_settled _ _ Hfi)) as Hp. unfold flush, mbind, M_bind, get, HasPendingFrames.
  rewrite (fi_queue _ _ Hfi). destruct xs as [|x xs]; cbn [fmap list_fmap negb andb].
  - destruct (Z.eqb_spec (pending_padding_bytes_ c) 0) as [H0|H0].
    + exists c. split; [done|]. by apply (advances_quiet [] c []).
    + destruct (advances_flushed fuel [] c Hfi Hk) as (n & pd & p' & pk & E1 & Ha & _); [right; lia|done|].
      eexists. split; [exact E1|exact Ha].
  - destruct (advances_flushed fuel (x :: xs) c Hfi Hk) as (n & pd & p' & pk & E1 & Ha & _); [by left|done|].
    eexists. split; [exact E1|exact Ha].
Qed.

Lemma advances_resized xs c acc xs' c' : advances xs (resized xs c) acc xs' c' -> advances xs c acc xs' c'.
Proof. done. Qed.

(** A frame is added, or the packet goes out without it. *)
Lemma add_frame_eq fuel xs x c : filling xs c -> addable xs x c ->
  AddFrame (S fuel) (hand_over true x) true c =
  if cost (framer_of c) (next_header c) x <=? free xs c then
    Ret true (take_frame (hand_over true x) true (cost (framer_of c) (next_header c) x) (resized xs c))
  else (flush (AddFrame fuel);; mret false) (resized xs c).
Proof.
  intros Hfi [A1 A2 A3 A4 A5]. set (f := framer_of c) in *. set (h := next_header c) in *. cbn [AddFrame].
  assert (unencrypted_data (hand_over true x) c = unencrypted_data x c) as Eu by by destruct x.
  unfold mbind at 1, M_bind at 1, get at 1. rewrite Eu, A4. unfold mbind at 1, M_bind at 1. rewrite (free_bytes xs c Hfi).
  set (c0 := resized xs c) in *. unfold mbind at 1, M_bind at 1, get at 1.
  change (framer_of c0) with f. change (GetPacketNumberLength c0) with (packet_number_length h).
  change (queued_frames_ c0) with (hand_over true <$> xs).
  rewrite (serialized_length f h x (free xs c)); [|done|done|].
  2: { intros Hfirst. destruct xs; [|done]. destruct x; try done. unfold free, free_of, size_of. cbn [needed grown].
       unfold grown. cbn [last]. fold f in A5. lia. }
  destruct (Z.leb_spec (cost f h x) (free xs c)) as [Hle|Hgt]; [|done].
  assert (0 < cost f h x) by (unfold cost; pose proof (frame_length_pos f h x true A2 A1); by destruct x).
  by rewrite (proj2 (Z.eqb_neq _ 0)) by lia.
Qed.

Lemma frame_accepted fuel xs x c : filling xs c -> keeps xs (packet_ c) -> addable xs x c -> number_of c + 1 < 2 ^ 62 ->
  exists ok c', AddFrame (S (S fuel)) (hand_over true x) true c = Ret ok c' /\
    advances xs c (if ok then [x] else []) (if ok then xs ++ [x] else []) c' /\
    (cost (framer_of c) (next_header c) x <= free xs c -> ok = true /\
       c' = take_frame (hand_over true x) true (cost (framer_of c) (next_header c) x) (resized xs c)).
Proof.
  intros Hfi Hk Had Hn. rewrite (add_frame_eq (S fuel) xs x c Hfi Had).
  destruct (Z.leb_spec (cost (framer_of c) (next_header c) x) (free xs c)) as [Hle|Hgt].
  - eexists true, _. split; [reflexivity|]. split; [|done]. apply (frame_taken xs x c Hfi Hk Had Hle).
  - destruct (flushed fuel xs (resized xs c) (filling_resized xs c Hfi) Hk Hn) as (c' & Ef & Ha). unfold mbind, M_bind. rewrite Ef.
    exists false, c'. split; [done|]. split; [exact Ha|lia].
Qed.

(** ** Stream data *)

Definition piece (id off : Z) (d : list Z) (fin : bool) : QuicStreamFrame :=
  {| stream_id := id; fin := fin; data_length := Z.of_nat (length d); data_buffer := Some d; offset := off |}.

(** The data [d] is offered to the creator, [k] bytes of the write being consumed. *)
Record consumable (single_packet_chlo : bool) (xs : list QuicFrame) (id k off : Z) (d : list Z) (fin : bool) c : Prop := {
  co_id : u32 id;
  co_off : u64 off;
  co_length : 0 <= k /\ k + Z.of_nat (length d) < 2 ^ 64;
  co_some : d <> [] \/ fin = true;
  co_chlo : single_packet_chlo = false \/ perspective_of c = IS_SERVER \/ id <> kCryptoStreamId;
  co_level : id = kCryptoStreamId \/ level_of c <> ENCRYPTION_NONE;
  co_data : exists p, producer_ c = Some p /\
    forall n, (n <= length d)%nat -> supplied (Some p) (xs ++ [STREAM_FRAME (piece id off (take n d) fin)])
}.

Lemma min_stream_size v id off : u32 id -> u64 off -> 2 <= GetMinStreamFrameSize v id off true <= 13.
Proof.
  intros Hid Ho. pose proof (id_size_range _ Hid). pose proof (offset_size_range v _ Ho).
  unfold GetMinStreamFrameSize, kQuicFrameTypeSize. lia.
Qed.

Lemma piece_addable flag xs id k off d fin c n fin' : consumable flag xs id k off d fin c -> (n <= length d)%nat -> (n <= 1452)%nat ->
  addable xs (STREAM_FRAME (piece id off (take n d) fin')) c.
Proof.
  intros [C1 C2 C3 C4 C5 C6 (p & C7 & C8)] Hn Hmax. split; [by intros []| | | |done].
  - split; [done|]. split; [done|]. exists (take n d). cbn. split_and!; try done. rewrite length_take. lia.
  - exists p. split; [done|]. specialize (C8 n Hn). unfold supplied in *. rewrite fmap_app, concat_app in *. exact C8.
  - cbn. destruct C6 as [->|Hl]; [done|]. rewrite (bool_decide_eq_false_2 _ Hl). apply andb_false_r.
Qed.

Lemma cost_piece f h id off d fin : cost f h (STREAM_FRAME (piece id off d fin)) =
  GetMinStreamFrameSize (transport_version (Framer.version_ f)) id off true + Z.of_nat (length d).
Proof. done. Qed.

(** How much of the data a packet with [room] bytes takes. *)
Definition taken (room : Z) (d : list Z) : nat := Nat.min (Z.to_nat room) (length d).

Lemma frame_created xs c id k off d fin : filling xs c -> u32 id -> u64 off -> 0 <= k /\ k + Z.of_nat (length d) < 2 ^ 64 -> d <> [] \/ fin = true ->
  let v := transport_version_of c in
  let room := free xs c - GetMinStreamFrameSize v id off true in
  let n := taken room d in
  0 < room ->
  CreateStreamFrame id (k + Z.of_nat (length d)) k off fin (resized xs c) =
  Ret (stream_frame id (fin && (n =? length d)%nat) off (Z.of_nat n)) (resized xs c) /\ (n <= length d)%nat /\ (n <= 1452)%nat /\
  Z.of_nat n <= room.
Proof.
  intros Hfi Hid Ho Hk Hd v room n Hroom. pose proof (free_range _ _ _ _ (filling_loaded _ _ Hfi)) as Hfr. fold (free xs c) in Hfr.
  pose proof (lo_room _ _ _ _ (filling_loaded _ _ Hfi)) as Hlo. assert (kMaxPacketSize = 1452) as Hmax by done.
  pose proof (min_stream_size v id off Hid Ho) as Hms.
  split; [|unfold n, taken; lia]. unfold CreateStreamFrame. destruct (Z.eqb_spec k (k + Z.of_nat (length d))) as [He|He].
  - assert (length d = 0%nat) as H0 by lia. destruct d; [|done]. destruct Hd as [?|Hfin]; [done|]. subst fin. unfold n, taken. cbn [length].
    by rewrite Nat.min_0_r.
  - unfold mbind, M_bind, get. rewrite (free_bytes xs (resized xs c) (filling_resized xs c Hfi)).
    change (free xs (resized xs c)) with (free xs c). change (resized xs (resized xs c)) with (resized xs c).
    change (transport_version_of (resized xs c)) with v. fold room.
    rewrite !uint64_small by lia. replace (k + Z.of_nat (length d) - k) with (Z.of_nat (length d)) by lia.
    replace (room `min` Z.of_nat (length d)) with (Z.of_nat n) by (unfold n, taken; lia).
    unfold mret, M_ret. f_equal. f_equal. f_equal.
    destruct (Z.eqb_spec (Z.of_nat n) (Z.of_nat (length d))), (Nat.eqb_spec n (length d)); lia || done.
Qed.

Lemma chlo_skipped xs id off n c : perspective_of c = IS_SERVER \/ id <> kCryptoStreamId ->
  forall fin, StreamFrameStartsWithChlo (stream_frame id fin off n) (resized xs c) = Ret false (resized xs c).
Proof.
  intros Hc fin. unfold StreamFrameStartsWithChlo, mbind, M_bind, get. change (perspective_of (resized xs c)) with (perspective_of c).
  cbn [stream_id stream_frame]. destruct Hc as [Hc|Hc].
  - by rewrite (bool_decide_eq_true_2 _ Hc).
  - rewrite (proj2 (Z.eqb_neq _ _) Hc). by rewrite orb_true_r.
Qed.

Lemma advances_padding xs c acc xs' c' n b : advances xs c acc xs' c' -> 0 <= n < 2 ^ 15 -> advances xs c acc xs' (with_padding c' n b).
Proof.
  intros (o & A1 & A2 & A3 & A4 & A5 & A6 & A7 & A8 & A9) Hn. exists o. split_and!; try done.
  destruct A7 as [[S1 S2 S3 S4 S5 S6 S7 S8 S9] F1 F2 F3 F4 F5 F6]. by split.
Qed.

Lemma advances_end xs c acc xs' c' : advances xs c acc xs' c' -> filling xs' c' /\ keeps xs' (packet_ c').
Proof. intros (o & A1 & A2 & A3 & A4 & A5 & A6 & A7 & A8 & A9). done. Qed.

Lemma piece_handed id off d n fin : (n <= length d)%nat -> (n <= 1452)%nat ->
  hand_over true (STREAM_FRAME (piece id off (take n d) fin)) = STREAM_FRAME (stream_frame id fin off (Z.of_nat n)).
Proof.
  intros Hn Hmax. cbn [hand_over piece stream_id Framer.fin data_length data_buffer offset]. unfold stream_frame. rewrite length_take, Nat.min_l by done.
  unfold uint16. by rewrite wrap_u_small by lia.
Qed.

(** The creator takes what fits, if anything does. *)
Lemma data_consumed flag xs id k off d fin full c : filling xs c -> keeps xs (packet_ c) -> consumable flag xs id k off d fin c ->
  number_of c + 1 < 2 ^ 62 ->
  let room := free xs c - GetMinStreamFrameSize (transport_version_of c) id off true in
  let n := taken room d in
  let last := fin && (n =? length d)%nat in
  let x := STREAM_FRAME (piece id off (take n d) last) in
  if 0 <? room then
    exists c', ConsumeData flag id (k + Z.of_nat (length d)) k off fin full c = Ret (Some (stream_frame id last off (Z.of_nat n))) c' /\
      advances xs c [x] (xs ++ [x]) c' /\
      (full = false -> c' = take_frame (hand_over true x) true (cost (framer_of c) (next_header c) x) (resized xs c))
  else ConsumeData flag id (k + Z.of_nat (length d)) k off fin full c = Ret None (resized xs c).
Proof.
  intros Hfi Hk Hco Hnum room n last x. pose proof Hco as [C1 C2 C3 C4 C5 C6 C7].
  unfold ConsumeData, HasRoomForStreamFrame, mbind, M_bind, get. rewrite (free_bytes xs c Hfi). unfold mret, M_ret. cbv beta iota.
  change (transport_version_of (resized xs c)) with (transport_version_of c).
  assert ((free xs c >? GetMinStreamFrameSize (transport_version_of c) id off true) = (0 <? room)) as ->
    by (rewrite Z.gtb_ltb; unfold room; destruct (Z.ltb_spec 0 (free xs c - GetMinStreamFrameSize (transport_version_of c) id off true)),
        (Z.ltb_spec (GetMinStreamFrameSize (transport_version_of c) id off true) (free xs c)); lia).
  destruct (Z.ltb_spec 0 room) as [Hroom|Hroom]; [|done]. cbn [negb].
  destruct (frame_created xs c id k off d fin Hfi C1 C2 C3 C4 Hroom) as (Ecr & Hn1 & Hn2 & Hn3). fold room n in Ecr, Hn1, Hn2, Hn3.
  rewrite Ecr. fold last. set (s := stream_frame id last off (Z.of_nat n)).
  assert ((if flag then StreamFrameStartsWithChlo s else fun s => Ret false s) (resized xs c) = Ret false (resized xs c)) as Ech.
  { destruct flag; [|done]. destruct C5 as [|C5]; [done|]. by apply chlo_skipped. }
  change (fun s0 : Creator P E D => Ret false s0) with (mret (M := M (Creator P E D)) false) in Ech.
  unfold mret, M_ret in Ech. rewrite Ech. cbn [andb].
  pose proof (piece_addable flag xs id k off d fin (resized xs c) n last ltac:(by destruct Hco) Hn1 Hn2) as Had. fold x in Had.
  destruct (frame_accepted 0 xs x (resized xs c) (filling_resized xs c Hfi) Hk Had Hnum) as (ok & c' & Ea & Hadv & Hok).
  assert (ok = true /\ c' = take_frame (hand_over true x) true (cost (framer_of c) (next_header c) x) (resized xs c)) as [-> Ec'].
  { apply Hok. unfold x. rewrite cost_piece, length_take, Nat.min_l by done.
    change (transport_version (Framer.version_ (framer_of (resized xs c)))) with (transport_version_of c).
    change (free xs (resized xs c)) with (free xs c). lia. }
  unfold x in Ea. rewrite (piece_handed id off d n last Hn1 Hn2) in Ea. fold s in Ea. change levels with 2%nat. rewrite Ea. cbn [negb].
  apply advances_resized in Hadv.
  destruct full; cbn [when]; [|by exists c']. unfold modify. eexists. split; [reflexivity|]. split; [|done]. apply advances_padding; [done|].
  destruct (advances_end _ _ _ _ _ Hadv) as [Hfi' _]. apply (se_pending _ (fi_settled _ _ Hfi')).
Qed.

(** ** A packet of one stream frame *)

Lemma wire_length f h frames n (p : P) : buildable f h frames n -> supplied (Some p) frames ->
  (forall n, PADDING_FRAME n ∉ frames) -> Z.of_nat (length (packet_wire f h frames n)) = GetStartOfEncryptedData h + needed f h frames.
Proof.
  intros Hb Hs Hno. rewrite <- (length_replicate n 0) in Hb. destruct (packet_built f (Some p) h frames (replicate n 0) Hb Hs) as (_ & Hl & _).
  rewrite length_replicate in Hl. by apply Hl.
Qed.

(** [BuildDataPacket] of one stream frame, taken apart. *)
Lemma one_frame_built f (p : P) xs h s n len b : sendable_header (Framer.perspective_ f) h -> supplied (Some p) xs ->
  (Z.to_nat (GetStartOfEncryptedData h) <= n)%nat -> (0 < len)%nat ->
  BuildDataPacket h [STREAM_FRAME s] (building f (Some p) (replicate n 0)) = Ret len b ->
  exists b1, AppendPacketHeader h (building f (Some p) (replicate n 0)) = Ret true b1 /\
    Z.of_nat (Writer.length_ (writer b1)) = GetStartOfEncryptedData h /\
    (wr (AppendTypeByte (transport_version (Framer.version_ f)) (STREAM_FRAME s) true) &; AppendStreamFrame s true) b1 = Ret true b.
Proof.
  intros Hh Hp Hn Hlen Eb. set (b0 := building f (Some p) (replicate n 0)) in *.
  pose proof (header_wire_length _ (Framer.version_ f) _ Hh) as Hhl.
  assert (ready f true (concat (requests <$> xs)) b0) as Hr0 by by split_and!.
  destruct (header_built f true _ b0 h Hr0 Hh) as (b1 & E1 & Ew & (Hb1 & _)).
  { change (0 + length (header_wire (Framer.perspective_ f) (Framer.version_ f) h) <= length (replicate n 0%Z))%nat.
    rewrite length_replicate. lia. }
  exists b1. split; [done|]. split; [rewrite Ew; exact Hhl|].
  assert (append_frame h (STREAM_FRAME s) true b1 =
    (wr (AppendTypeByte (transport_version (Framer.version_ f)) (STREAM_FRAME s) true) &; AppendStreamFrame s true) b1) as Ea.
  { unfold append_frame, mbind, M_bind, gets. rewrite Hb1. done. }
  rewrite <- Ea. assert (BuildDataPacket h [STREAM_FRAME s] b0 =
    match append_frame h (STREAM_FRAME s) true b1 with
    | Ret true b2 => Ret (Writer.length_ (writer b2)) b2
    | Ret false b2 => Ret O b2
    | Crash x => Crash x
    end) as Ebd.
  { unfold BuildDataPacket, and_then, mbind, M_bind. rewrite E1. cbn [append_frames]. unfold and_then, mbind, M_bind.
    destruct (append_frame h (STREAM_FRAME s) true b1) as [[] b2|]; done. }
  rewrite Ebd in Eb. destruct (append_frame _ _ _ b1) as [[] b2|]; [by injection Eb as _ <-|injection Eb as <- _; lia|done].
Qed.

(** One stream frame fills a packet of its own; the packet as it is handed over. *)
Definition lone_packet c (s : QuicStreamFrame) (sealed : list Z) : SerializedPacket :=
  let p := packet_ (numbered c) in
  Serialized.with_frames (Serialized.with_buffer p (Some sealed)) (Serialized.retransmittable_frames p ++ [STREAM_FRAME s])
    (Serialized.has_crypto_handshake p).

Lemma data_packed flag id k off d fin c : filling [] c -> consumable flag [] id k off d fin c -> number_of c + 1 < 2 ^ 62 ->
  let room := free [] c - GetMinStreamFrameSize (transport_version_of c) id off true in
  let n := taken room d in
  let ends := fin && (n =? length d)%nat in
  let x := STREAM_FRAME (piece id off (take n d) ends) in
  0 < room ->
  exists p' sealed, supplied (Some p') [] /\ hands_on (producer_ c) [x] (Some p') /\ sealed <> [] /\ Z.of_nat (length sealed) <= max_packet_length_ c /\
    sent_as (endpoint_ c) (level_of c) (next_header c) [x] sealed /\
    seals c (next_header c) (packet_wire (framer_of c) (next_header c) [x] (Z.to_nat kMaxPacketSize)) sealed /\
    CreateAndSerializeStreamFrame id (k + Z.of_nat (length d)) k off fin c =
    Ret (Some (Z.of_nat n))
      (emptied c 0 (pending_padding_bytes_ c) (Some p') (lone_packet c (stream_frame id ends off (Z.of_nat n)) sealed)).
Proof.
  intros Hfi Hco Hnum room n ends x Hroom. pose proof Hfi as [Hs F1 F2 F3 F4 F5 F6]. pose proof Hco as [C1 C2 C3 C4 C5 C6 C7].
  destruct (frame_created [] c id k off d fin Hfi C1 C2 C3 C4 Hroom) as (_ & Hn1 & Hn2 & Hn3). fold room n in Hn1, Hn2, Hn3.
  pose proof (piece_addable flag [] id k off d fin c n ends Hco Hn1 Hn2) as [_ A2 (p & A3 & A4) _ _]. fold x in A2, A4. cbn [app] in A4.
  destruct (se_keys _ Hs) as [e He]. pose proof (plaintext_bound c e Hs He) as Hpl. pose proof (overhead_nonneg e) as Ho.
  assert (kMaxPacketSize = 1452) as Hk by done. pose proof (header_size_nonneg c Hs) as Hh0. pose proof (se_room _ Hs) as Hh1.
  set (f := framer_of c) in *. set (h := next_header c) in *. set (c1 := numbered c).
  pose proof (min_stream_size (transport_version_of c) id off C1 C2) as Hms.
  assert (header_size c + needed f h [x] <= max_plaintext_size_ c) as Hneed.
  { change [x] with ([] ++ [x]). rewrite needed_snoc. unfold x. rewrite cost_piece, length_take, Nat.min_l by done.
    change (transport_version (Framer.version_ f)) with (transport_version_of c).
    unfold room, free, free_of, size_of in Hn3, Hroom. unfold grown in *. cbn [last needed] in *. lia. }
  assert (buildable (framer_of c1) h [x] (Z.to_nat kMaxPacketSize)) as Hb.
  { split; [apply Hs|done|by apply Forall_singleton|done| |].
    - unfold h. rewrite next_header_start. fold h. change (framer_of c1) with f. lia.
    - change (0 < number_of c + 1 < 2 ^ 62). pose proof (se_number _ Hs). lia. }
  assert (forall n0, PADDING_FRAME n0 ∉ [x]) as Hnopad by (intros n0 Hin; apply list_elem_of_singleton in Hin; done).
  pose proof (next_header_start c : GetStartOfEncryptedData h = _) as Hst.
  pose proof (wire_length f h [x] _ p Hb A4 Hnopad) as Hwl. rewrite Hst in Hwl.
  destruct (packet_made c1 h [x] (Z.to_nat kMaxPacketSize) p e Hb A3 A4) as (b & p' & sealed & Eb & Ebu & Edp & Hpos & Hsup & Hho & Es & Hnil & Hlen & Hsent & Hse);
    [done|done|change (framer_of c1) with f; change (max_packet_length_ c1) with (max_packet_length_ c); lia|].
  exists p', sealed. split; [done|]. split; [done|]. split; [done|]. split; [done|]. split; [done|]. split; [done|]. cbv zeta in *.
  change (hand_over true <$> [x]) with [hand_over true x] in Eb. unfold x in Eb. rewrite (piece_handed id off d n ends Hn1 Hn2) in Eb.
  set (s := stream_frame id ends off (Z.of_nat n)) in *. change (producer_ c1) with (producer_ c) in Eb. rewrite A3 in Eb.
  change (framer_of c1) with f in Eb.
  destruct (one_frame_built f p [x] h s (Z.to_nat kMaxPacketSize) _ b (se_header _ Hs) A4 ltac:(rewrite Hst; lia)
    Hpos Eb) as (b1 & E1 & Hw1 & E2).
  unfold CreateAndSerializeStreamFrame, mbind, M_bind. rewrite (header_filled c (se_number _ Hs)). fold h c1. unfold get, on_buffer.
  change (framer_of c1) with f. change (producer_ c1) with (producer_ c). rewrite A3, E1. cbn [negb]. unfold gets.
  rewrite Hst in Hw1, Es |- *. rewrite Hw1. change (max_plaintext_size_ c1) with (max_plaintext_size_ c).
  change (transport_version_of c1) with (transport_version_of c).
  replace (max_plaintext_size_ c - header_size c - GetMinStreamFrameSize (transport_version_of c) id off true) with room
    by (unfold room, free, free_of, size_of, grown in *; cbn [last needed] in *; lia).
  replace (k + Z.of_nat (length d) - k) with (Z.of_nat (length d)) by lia. rewrite !uint64_small by (unfold room, free, free_of, size_of, grown in *; cbn [last needed] in *; lia).
  replace (room `min` Z.of_nat (length d)) with (Z.of_nat n) by (unfold n, taken; lia).
  replace (Z.of_nat n =? Z.of_nat (length d)) with (n =? length d)%nat
    by (destruct (Z.eqb_spec (Z.of_nat n) (Z.of_nat (length d))), (Nat.eqb_spec n (length d)); lia || done).
  fold ends s. change (transport_version (Framer.version_ f)) with (transport_version_of c) in E2. rewrite E2. unfold mret, M_ret. cbv beta iota.
  rewrite Ebu, Edp. fold (built c1 h (Some p')). rewrite Es. destruct sealed as [|z sealed]; [done|].
  unfold modify. cbv beta iota. unfold packet_serialized, mbind, M_bind, get. unfold emptied, lone_packet.
  change (queued_frames_ (built c1 h (Some p'))) with (queued_frames_ c). rewrite F1. reflexivity.
Qed.

(** The bytes of a stream frame do not depend on the room that is left. *)
Lemma lone_wire f h s n m : packet_wire f h [STREAM_FRAME s] n = packet_wire f h [STREAM_FRAME s] m.
Proof. done. Qed.

(** What [take_frame] adds is gone after the packet was handed over. *)
Lemma emptied_taken c x len n pending p pk xs :
  emptied (take_frame x true len (resized xs c)) n pending p pk = emptied c n pending p pk.
Proof. destruct c. by destruct x. Qed.

Lemma emptied_producer c n m pending p p' pk :
  with_framer (emptied c n pending p pk) (endpoint_ (emptied c n pending p pk)) p' = emptied c m pending p' pk.
Proof. destruct c as [? ? ? ? ? ? ? ? ? ? ? pk0]. by destruct pk0. Qed.

(** C37: For stream data that starts an empty packet CreateAndSerializeStreamFrame leaves
    the creator as ConsumeData and Flush do, with the same packet, byte for byte, handed
    over and the same number of bytes consumed, of which there is at least one unless only a
    FIN is sent. *)
Theorem the_fast_path_makes_the_same_packet flag id k off d fin c :
  filling [] c -> keeps [] (packet_ c) -> consumable flag [] id k off d fin c -> number_of c + 1 < 2 ^ 62 -> unpadded c ->
  id <> kCryptoStreamId -> GetMinStreamFrameSize (transport_version_of c) id off true < free [] c ->
  let write_length := k + Z.of_nat (length d) in
  exists n c' p1 p2,
    CreateAndSerializeStreamFrame id write_length k off fin c = Ret (Some n) (with_framer c' (endpoint_ c') (Some p1)) /\
    (r ← ConsumeData flag id write_length k off fin false; Flush;; mret (data_length <$> r)) c =
      Ret (Some n) (with_framer c' (endpoint_ c') (Some p2)) /\
    0 < n + (if fin then 1 else 0) /\ n <= Z.of_nat (length d).
Proof.
  intros Hfi Hk Hco Hnum (U1 & U2 & U3) Hid Hroom write_length. set (room := free [] c - GetMinStreamFrameSize (transport_version_of c) id off true).
  assert (0 < room) as Hr by (unfold room; lia). pose proof Hco as [C1 C2 C3 C4 _ _ _].
  destruct (frame_created [] c id k off d fin Hfi C1 C2 C3 C4 Hr) as (_ & Hn1 & Hn2 & Hn3). fold room in Hn1, Hn2, Hn3.
  destruct (data_packed flag id k off d fin c Hfi Hco Hnum Hr) as (p1 & sealed & _ & _ & _ & _ & _ & Hse1 & Efast). fold room in Hse1, Efast.
  pose proof (data_consumed flag [] id k off d fin false c Hfi Hk Hco Hnum) as Hslow. cbv zeta in Hslow. fold room in Hslow.
  set (n := taken room d) in *. set (ends := fin && (n =? length d)%nat) in *.
  rewrite (proj2 (Z.ltb_lt 0 room) Hr) in Hslow. destruct Hslow as (cs & Eslow & Hadv & Hcs). specialize (Hcs eq_refl).
  rewrite (piece_handed id off d n ends Hn1 Hn2) in Hcs. set (s := stream_frame id ends off (Z.of_nat n)) in *.
  set (x := STREAM_FRAME (piece id off (take n d) ends)) in *. destruct (advances_end _ _ _ _ _ Hadv) as [Hfs _]. cbn [app] in Hfs.
  assert (number_of cs = number_of c /\ needs_full_padding_ cs = needs_full_padding_ c /\ pending_padding_bytes_ cs = pending_padding_bytes_ c /\
    Serialized.transmission_type (packet_ cs) = Serialized.transmission_type (packet_ c) /\ HasPendingFrames cs = true /\
    Serialized.num_padding_bytes (packet_ cs) = Serialized.num_padding_bytes (packet_ c)) as (K1 & K2 & K3 & K4 & K5 & K6)
    by (rewrite Hcs; repeat split).
  destruct (packet_flushed_as 1 [x] cs Hfs) as (n2 & pending2 & p2 & pk & sealed2 & pad & size & Eq & _ & _ & _ & _ & _ & _ & -> & _ & Hse2 & Hun);
    [by left|lia|].
  destruct Hun as (-> & -> & ->); [unfold unpadded; rewrite K2, K3, K4; split_and!; assumption|].
  exists (Z.of_nat n), (emptied c 0 (pending_padding_bytes_ c) (Some p1) (lone_packet c s sealed)), p1, p2.
  rewrite !(emptied_producer _ _ 0). split; [exact Efast|].
  assert (sealed2 = sealed) as ->.
  { rewrite Hcs in Hse2. unfold seals in Hse1, Hse2.
    assert (Ret sealed2 (endpoint_ c) = Ret sealed (endpoint_ c)) as [= ->] by (rewrite <- Hse1; symmetry; exact Hse2). done. }
  split.
  - unfold mbind at 1, M_bind at 1. fold write_length in Eslow. rewrite Eslow. unfold mbind, M_bind, Flush, flush, mbind, M_bind, get.
    rewrite K5. cbn [negb andb]. unfold mbind, M_bind in Eq. change levels with 2%nat.
    rewrite Eq. unfold mret, M_ret. f_equal.
    + unfold s, fmap, option_fmap, option_map. cbn [data_length stream_frame]. unfold uint16. by rewrite wrap_u_small by lia.
    + rewrite K3, K6, Hcs, emptied_taken. unfold flushed_packet, lone_packet. cbn. rewrite (proj2 (Z.eqb_neq id kCryptoStreamId) Hid). done.
  - split; [|lia]. unfold n, taken. destruct C4 as [Hd| ->]; [|lia]. destruct d; [done|]. cbn [length]. destruct fin; lia.
Qed.

(** ** Settings *)

Lemma needed_header f h h' : packet_number_length h = packet_number_length h' -> forall xs, needed f h xs = needed f h' xs.
Proof. intros H2. induction xs as [|x xs IH]; [done|]. cbn [needed]. by rewrite IH, H2. Qed.

Lemma version_stopped xs c : filling xs c -> send_version_in_packet_ c = true -> filling xs (StopSendingVersion c).
Proof.
  intros Hfi Hv. pose proof Hfi as [Hs F1 F2 F3 F4 F5 F6]. pose proof Hs as [S1 S2 S3 S4 S5 S6 S7 S8 S9].
  pose proof (filling_loaded _ _ Hfi) as [_ _ L3 L4 L5 _]. assert (kMaxPacketSize = 1452) as Hk by done.
  set (c1 := with_public c false (have_diversification_nonce_ c) (diversification_nonce_ c) (connection_id_length_ c)).
  assert (header_size c1 = header_size c - 4) as Hz.
  { unfold header_size, GetPacketHeaderSize. cbn [c1 with_public connection_id_length_ send_version_in_packet_]. rewrite Hv.
    change (IncludeNonceInPublicHeader c1) with (IncludeNonceInPublicHeader c).
    change (GetPacketNumberLength c1) with (GetPacketNumberLength c). unfold kQuicVersionSize. lia. }
  assert (needed (framer_of c) (next_header c1) xs = needed (framer_of c) (next_header c) xs) as Hn by by apply needed_header.
  assert (5 <= header_size c) as H5.
  { unfold header_size, GetPacketHeaderSize, kPublicFlagsSize, kQuicVersionSize, kDiversificationNonceSize. rewrite Hv.
    destruct S1 as [A1 _ _ _ _ A6]. cbn [next_header connection_id_length packet_number_length] in *. set_unfold in A6.
    destruct (IncludeNonceInPublicHeader c); lia. }
  assert (sendable_header (perspective_of c) (next_header c1)) as Hh by (destruct S1 as [A1 A2 A3 A4 A5 A6]; by split).
  assert (forall q size, (xs <> [] -> size = size_of (framer_of c) (next_header c1) xs c1) -> q = queued_frames_ c ->
    filling xs (with_queue c1 q size)) as Hgo.
  { intros q size Hsz ->. split; try done.
    - split; try done. change (header_size c1 < max_plaintext_size_ c). lia.
    - change (size_of (framer_of c) (next_header c1) xs c1 <= max_plaintext_size_ c). unfold size_of. rewrite Hz, Hn. lia. }
  unfold StopSendingVersion. fold c1. change (packet_size_ c1) with (packet_size_ c). change (queued_frames_ c1) with (queued_frames_ c).
  destruct (Z.gtb_spec (packet_size_ c) 0) as [Hp|Hp].
  - apply Hgo; [|done]. intros Hx. rewrite (F2 Hx). unfold size_of, kQuicVersionSize. rewrite Hz, Hn, uint64_small by lia. lia.
  - assert (c1 = with_queue c1 (queued_frames_ c) (packet_size_ c)) as -> by by destruct c. apply Hgo; [|done]. intros Hx.
    rewrite (F2 Hx) in Hp. unfold size_of in Hp. lia.
Qed.

Inductive setting : Type :=
| Level (level : EncryptionLevel)
| MaxLength (length : Z)
| NumberLength (least_packet_awaited_by_peer max_packets_in_flight : Z)
| Nonce (nonce : list Z)
| IdLength (length : Z).

Definition apply_setting (g : setting) : Creator P E D -> Creator P E D :=
  match g with
  | Level l => set_encryption_level l
  | MaxLength n => SetMaxPacketLength n
  | NumberLength least n => UpdatePacketNumberLength least n
  | Nonce n => SetDiversificationNonce n
  | IdLength n => SetConnectionIdLength n
  end.

Lemma setting_kept g c : kept c (apply_setting g c) /\ calls (apply_setting g c) = calls c /\ number_of (apply_setting g c) = number_of c /\
  queued_frames_ (apply_setting g c) = queued_frames_ c /\ producer_ (apply_setting g c) = producer_ c /\
  Serialized.retransmittable_frames (packet_ (apply_setting g c)) = Serialized.retransmittable_frames (packet_ c).
Proof.
  destruct g; try (by repeat split); cbn [apply_setting].
  - unfold SetMaxPacketLength. destruct (_ =? _); by repeat split.
  - unfold UpdatePacketNumberLength. destruct (queued_frames_ c) eqn:Eq; [|by repeat split]. repeat split. cbn. by rewrite Eq.
Qed.

Lemma setting_applied g c : filling [] c -> keeps [] (packet_ c) -> settled (apply_setting g c) ->
  advances [] c [] [] (apply_setting g c).
Proof.
  intros Hfi Hk Hs. destruct (setting_kept g c) as (K1 & K2 & K3 & K4 & K5 & K6).
  apply (advances_quiet [] c []); try done; [|unfold keeps in *; by rewrite K6]. cbn [app].
  split; [done|by rewrite K4, (fi_queue _ _ Hfi)|done| |done|done|rewrite K5; apply (fi_data _ _ Hfi)].
  unfold size_of. cbn [needed]. pose proof (se_room _ Hs). lia.
Qed.

(** ** Courses *)

(** What the generator asks of the creator; stream data and frames are given with
    their bytes, of which the creator only learns the length. *)
Inductive op : Type :=
| Add (padded : bool) (x : QuicFrame)
| Consume (id k off : Z) (d : list Z) (fin full : bool)
| ConsumeFast (id k off : Z) (d : list Z) (fin : bool)
| FlushNow
| Pad (n : Z)
| Transmission (t : TransmissionType)
| StopVersion
| Configure (g : setting)
| Produce (p : P).

(** The operation, with the frames that were accepted. *)
Definition perform (flag : bool) (o : op) : M (Creator P E D) (list QuicFrame) :=
  match o with
  | Add padded x =>
      ok ← (if padded then AddPaddedSavedFrame (hand_over true x) else AddSavedFrame (hand_over true x));
      mret (if ok : bool then [x] else [])
  | Consume id k off d fin full =>
      r ← ConsumeData flag id (k + Z.of_nat (length d)) k off fin full;
      mret (match r with
            | Some s => [STREAM_FRAME (piece id off (take (Z.to_nat (data_length s)) d) (Framer.fin s))]
            | None => []
            end)
  | ConsumeFast id k off d fin =>
      r ← CreateAndSerializeStreamFrame id (k + Z.of_nat (length d)) k off fin;
      mret (match r with
            | Some n => [STREAM_FRAME (piece id off (take (Z.to_nat n) d) (fin && (n =? Z.of_nat (length d))))]
            | None => []
            end)
  | FlushNow => Flush;; mret []
  | Pad n => modify (AddPendingPadding n);; mret []
  | Transmission t => modify (SetTransmissionType t);; mret []
  | StopVersion => modify StopSendingVersion;; mret []
  | Configure g => modify (apply_setting g);; mret []
  | Produce p => modify (fun c => with_framer c (endpoint_ c) (Some p));; mret []
  end.

Fixpoint perform_all (flag : bool) (l : list op) : M (Creator P E D) (list QuicFrame) :=
  match l with
  | [] => mret []
  | o :: l => acc ← perform flag o; rest ← perform_all flag l; mret (acc ++ rest)
  end.

(** The open packet after an operation that accepted [acc]. *)
Definition still_open (o : op) (xs acc : list QuicFrame) : list QuicFrame :=
  match o with
  | Add _ _ => match acc with [] => [] | _ => xs ++ acc end
  | ConsumeFast _ _ _ _ _ | FlushNow => []
  | _ => xs ++ acc
  end.

(** What the callers of the creator see to. *)
Definition asked_properly (flag : bool) (o : op) (xs : list QuicFrame) c : Prop :=
  number_of c + 1 < 2 ^ 62 /\
  match o with
  | Add _ x => addable xs x c
  | Consume id k off d fin _ => consumable flag xs id k off d fin c
  | ConsumeFast id k off d fin =>
      xs = [] /\ consumable flag xs id k off d fin c /\ GetMinStreamFrameSize (transport_version_of c) id off true < free xs c
  | FlushNow | Transmission _ => True
  | Pad n => 0 <= n /\ pending_padding_bytes_ c + n < 2 ^ 15
  | StopVersion => send_version_in_packet_ c = true
  | Configure g => xs = [] /\ settled (apply_setting g c)
  | Produce p => supplied (Some p) xs
  end.

Fixpoint all_properly (flag : bool) (l : list op) (xs : list QuicFrame) c : Prop :=
  match l with
  | [] => True
  | o :: l =>
      asked_properly flag o xs c /\
      match perform flag o c with Ret acc c' => all_properly flag l (still_open o xs acc) c' | Crash _ => True end
  end.

Lemma lone_advances flag id k off d fin c : filling [] c -> keeps [] (packet_ c) -> consumable flag [] id k off d fin c -> number_of c + 1 < 2 ^ 62 ->
  GetMinStreamFrameSize (transport_version_of c) id off true < free [] c ->
  exists n p' pk, let c' := emptied c 0 (pending_padding_bytes_ c) (Some p') pk in
    let x := STREAM_FRAME (piece id off (take n d) (fin && (n =? length d)%nat)) in
    (n <= length d)%nat /\ (d <> [] -> 0 < n)%nat /\
    CreateAndSerializeStreamFrame id (k + Z.of_nat (length d)) k off fin c = Ret (Some (Z.of_nat n)) c' /\
    advances [] c [x] [] c' /\ hands_on (producer_ c) [x] (Some p').
Proof.
  intros Hfi Hk Hco Hn Hroom. set (room := free [] c - GetMinStreamFrameSize (transport_version_of c) id off true).
  assert (0 < room) as Hr by (unfold room; lia). pose proof Hco as [C1 C2 C3 C4 _ _ _].
  destruct (frame_created [] c id k off d fin Hfi C1 C2 C3 C4 Hr) as (_ & Hn1 & Hn2 & Hn3). fold room in Hn1, Hn2, Hn3.
  destruct (data_packed flag id k off d fin c Hfi Hco Hn Hr) as (p1 & sealed & Hsup & Hho & Hne & Hlen & Hsent & _ & Efast). fold room in Hsent, Efast.
  set (n := taken room d) in *. set (ends := fin && (n =? length d)%nat) in *. set (x := STREAM_FRAME (piece id off (take n d) ends)) in *.
  set (pk := lone_packet _ _ _) in Efast. pose proof (fi_settled _ _ Hfi) as Hs. pose proof (se_length _ Hs) as Hml.
  exists n, p1, pk. split; [done|]. split; [intros Hd; unfold n, taken; destruct d; [done|cbn [length]; lia]|].
  split; [exact Efast|]. split; [|exact Hho].
  destruct (emptied_filling c 0 (pending_padding_bytes_ c) p1 pk [] Hfi Hn (se_pending _ Hs) Hsup) as (G1 & G2 & G3 & G4).
  exists [([x], pk)]. split_and!; try assumption; try reflexivity.
  - apply Forall_singleton. exists (endpoint_ c), (next_header c), [], sealed. cbn [fst snd]. split_and!; try done; [lia|by left].
  - apply Forall_singleton. unfold keeps in *. cbn [fst snd]. unfold pk, lone_packet.
    cbn [Serialized.retransmittable_frames Serialized.with_frames packet_ numbered set_packet with_packet Serialized.with_number]. rewrite Hk.
    unfold x, retransmittables. cbn [fmap list_fmap]. rewrite (piece_handed id off d n ends Hn1 Hn2). done.
  - intros [|i] o Hi; [|by destruct i]. cbn in Hi. simplify_eq. cbn. unfold number_of. lia.
Qed.

Lemma advances_quietly xs c c' : calls c' = calls c -> number_of c' = number_of c -> filling xs c' ->
  keeps xs (packet_ c') -> kept c c' -> advances xs c [] (xs ++ []) c'.
Proof. intros H1 H2 H3 H4 H5. apply advances_quiet; rewrite ?app_nil_r; done. Qed.

Lemma added flag padded x xs c : filling xs c -> keeps xs (packet_ c) -> addable xs x c -> number_of c + 1 < 2 ^ 62 ->
  exists acc c', perform flag (Add padded x) c = Ret acc c' /\ advances xs c acc (still_open (Add padded x) xs acc) c'.
Proof.
  intros Hfi Hk Ho Hn. destruct (frame_accepted 0 xs x c Hfi Hk Ho Hn) as (ok & c' & Ea & Hadv & _).
  cbn [perform]. unfold mbind, M_bind, AddPaddedSavedFrame, AddSavedFrame, mbind, M_bind. change levels with 2%nat.
  destruct padded; rewrite Ea; destruct ok; eexists _, _; (split; [reflexivity|]); try exact Hadv.
  apply advances_padding; [exact Hadv|]. destruct (advances_end _ _ _ _ _ Hadv) as [Hfi' _]. apply (se_pending _ (fi_settled _ _ Hfi')).
Qed.

Lemma consumed flag id k off d fin full xs c : filling xs c -> keeps xs (packet_ c) -> consumable flag xs id k off d fin c ->
  number_of c + 1 < 2 ^ 62 ->
  exists acc c', perform flag (Consume id k off d fin full) c = Ret acc c' /\ advances xs c acc (xs ++ acc) c'.
Proof.
  intros Hfi Hk Hco Hn. pose proof (data_consumed flag xs id k off d fin full c Hfi Hk Hco Hn) as Hd. cbv zeta in Hd.
  pose proof Hco as [C1 C2 C3 C4 _ _ _].
  set (room := free xs c - GetMinStreamFrameSize (transport_version_of c) id off true) in *. cbn [perform]. unfold mbind, M_bind.
  destruct (Z.ltb_spec 0 room) as [Hr|Hr].
  - destruct (frame_created xs c id k off d fin Hfi C1 C2 C3 C4 Hr) as (_ & Hn1 & Hn2 & _). fold room in Hn1, Hn2.
    destruct Hd as (c' & Ec & Hadv & _). rewrite Ec. eexists _, _. split; [reflexivity|].
    cbn [data_length stream_frame Framer.fin]. unfold uint16. rewrite wrap_u_small, Nat2Z.id by lia. exact Hadv.
  - rewrite Hd. eexists _, _. split; [reflexivity|]. apply advances_quietly; try done. by apply filling_resized.
Qed.

Lemma performed flag o xs c : filling xs c -> keeps xs (packet_ c) -> asked_properly flag o xs c ->
  exists acc c', perform flag o c = Ret acc c' /\ advances xs c acc (still_open o xs acc) c'.
Proof.
  intros Hfi Hk [Hn Ho]. destruct o; cbn [still_open] in *.
  - by apply added.
  - by apply consumed.
  - destruct Ho as (-> & Hco & Hroom). destruct (lone_advances flag id k off d fin c Hfi Hk Hco Hn Hroom) as (n & p' & pk & Hn1 & _ & Ef & Hadv & _).
    cbn [perform]. unfold mbind, M_bind. rewrite Ef. eexists _, _. split; [reflexivity|]. rewrite Nat2Z.id.
    replace (Z.of_nat n =? Z.of_nat (length d)) with (n =? length d)%nat; [exact Hadv|].
    destruct (Z.eqb_spec (Z.of_nat n) (Z.of_nat (length d))), (Nat.eqb_spec n (length d)); lia || done.
  - destruct (flushed 1 xs c Hfi Hk Hn) as (c' & Ef & Hadv). cbn [perform]. unfold mbind, M_bind, Flush. change levels with 2%nat.
    rewrite Ef. by eexists _, _.
  - destruct Ho as [Hn0 Hp]. eexists _, _. split; [reflexivity|]. pose proof (se_pending _ (fi_settled _ _ Hfi)).
    apply advances_quietly; try done. unfold AddPendingPadding. rewrite uint64_small by lia.
    destruct Hfi as [[S1 S2 S3 S4 S5 S6 S7 S8 S9] F1 F2 F3 F4 F5 F6]. split; [split; try assumption|..]; try done. cbn. lia.
  - eexists _, _. split; [reflexivity|]. apply advances_quietly; try done.
    destruct Hfi as [[S1 S2 S3 S4 S5 S6 S7 S8 S9] F1 F2 F3 F4 F5 F6]. split; [split; try assumption|..]; done.
  - eexists _, _. split; [reflexivity|]. pose proof (version_stopped xs c Hfi Ho) as Hfs. unfold StopSendingVersion in *.
    apply advances_quietly; try exact Hfs; case_match; done.
  - destruct Ho as [-> Hs]. eexists _, _. split; [reflexivity|]. by apply setting_applied.
  - eexists _, _. split; [reflexivity|]. apply advances_quietly; try done.
    destruct Hfi as [[S1 S2 S3 S4 S5 S6 S7 S8 S9] F1 F2 F3 F4 F5 F6]. split; [split; try assumption|..]; try done. by exists p.
Qed.

Lemma all_performed flag : forall l xs c, filling xs c -> keeps xs (packet_ c) -> all_properly flag l xs c ->
  exists acc xs' c', perform_all flag l c = Ret acc c' /\ advances xs c acc xs' c'.
Proof.
  induction l as [|o l IH]; intros xs c Hfi Hk Hl.
  - exists [], xs, c. split; [done|]. rewrite <- (app_nil_r xs) at 2. by apply advances_quietly.
  - destruct Hl as [Ho Hl]. destruct (performed flag o xs c Hfi Hk Ho) as (acc & c1 & E1 & H1). rewrite E1 in Hl.
    destruct (advances_end _ _ _ _ _ H1) as [Hfi1 Hk1]. destruct (IH _ c1 Hfi1 Hk1 Hl) as (acc2 & xs2 & c2 & E2 & H2).
    exists (acc ++ acc2), xs2, c2. split; [|by eapply advances_trans]. cbn [perform_all]. unfold mbind, M_bind.
    by rewrite E1, E2.
Qed.
End Courses.

(** ** The peer *)

Section Peer.
Context {P E D : Type} `{HS : Supplier P} `{HSe : Sealer E} `{!Decrypter D, !FramerVisitor}.
Context `{HC : !Channel E D, HV : !VersionVisitor}.
Implicit Types c : Creator P E D.

Lemma willing_accepts vs : (forall hist v, answer hist v = true) -> forall hist, accepts hist vs.
Proof. intros Hw. induction vs as [|v vs IH]; intros hist; [done|]. split; [apply Hw|apply IH]. Qed.

(** An endpoint that holds the key of the packet, and expects a number near it,
    reports the frames. *)
Definition read_by_peer c (frames : list QuicFrame) (pk : SerializedPacket) : Prop :=
  exists sealed h pad room, Serialized.encrypted_buffer pk = Some sealed /\ Z.of_nat (length sealed) <= kMaxPacketSize /\
    packet_number h = Serialized.packet_number pk /\ pads pad /\
    forall tls e (r : Endpoint E D), encrypter_ (endpoint_ c) (Serialized.encryption_level pk) = Some e ->
      linked tls (framer_of c) e r -> close_to r h -> (forall hist v, answer hist v = true) ->
      exists r', ProcessPacket tls sealed r = Ret true r' /\
        Framer.visits (framer (parsing r')) = Framer.visits (framer (parsing r)) ++
          packet_visits (framer (parsing r)) (decrypter_level_ r) (Framer.version_ (framer_of c)) h (frames ++ pad) room.

Lemma carried_is_read c o : carries c o -> read_by_peer c o.1 o.2.
Proof.
  intros (s & h & pad & sealed & Hv & Hpe & Hen & Hb & Hne & Hlen & Hpad & Hnum & p & n & b & len & Hbu & Hsu & Eb & Es).
  exists sealed, h, pad, (n - Z.to_nat (GetStartOfEncryptedData h))%nat. split_and!; try done.
  intros tls e r He [L1 L2 L3 L4 L5] Hcl Hw. set (f := framer (parsing s)) in *.
  assert (linked tls f e r) as Hli by (split; [by rewrite L1, Hv|by rewrite L2, Hpe|by rewrite Hv|done|done]).
  assert (sendable_packet f r h (o.1 ++ pad) (length (replicate n 0))) as Hse by (rewrite length_replicate; by split).
  destruct (packet_crosses tls f s r (Some p) h (o.1 ++ pad) (replicate n 0) (Serialized.encryption_level o.2) e (Z.to_nat kMaxPacketSize)
    Hli Hse Hsu eq_refl) as (n' & b' & Eb' & _ & Hall); [by rewrite Hen|by apply willing_accepts|].
  change (hand_over true) with (hand_over (has_producer (Some p))) in Eb. rewrite Eb in Eb'. injection Eb' as <- <-.
  destruct (Hall sealed s Es Hne Hlen) as (plaintext & Er). eexists. split; [exact Er|].
  cbv zeta. rewrite length_replicate, Hv. set (vs := packet_visits _ _ _ _ _ _).
  apply (received_numbers (framer (parsing r)) (Framer.version_ (framer_of c)) h vs).
Qed.

End Peer.

(** A client that pings and sends three bytes and a FIN of stream 5. *)
Section Example.
#[local] Instance agreeing_peer : FramerVisitor := fun _ _ => true.
#[local] Instance unchanging_peer : VersionVisitor := fun _ _ => None.

Definition demo_creator : Creator SessionStreams NullEncrypter NullDecrypter :=
  init 77 (example_endpoint IS_CLIENT) (Some {| streams := {[5 := example_buffer]} |}).

Definition secured_creator : Creator SessionStreams NullEncrypter NullDecrypter :=
  set_encryption_level ENCRYPTION_FORWARD_SECURE demo_creator.

Definition demo_course : list (op (P := SessionStreams)) :=
  [Configure (Level ENCRYPTION_FORWARD_SECURE); Add false (PING_FRAME 1); Consume 5 0 0 [97; 98; 99] true false; FlushNow].

Definition demo_frames : list QuicFrame := [PING_FRAME 1; STREAM_FRAME (piece 5 0 [97; 98; 99] true)].

Lemma demo_settled (c : Creator SessionStreams NullEncrypter NullDecrypter) :
  c = demo_creator \/ c = secured_creator -> settled c.
Proof.
  intros Hc. assert (connection_id_ c = 77 /\ number_of c = 0 /\ connection_id_length_ c = 8 /\ GetPacketNumberLength c = 1 /\
    IncludeNonceInPublicHeader c = false /\ perspective_of c = IS_CLIENT) as (H1 & H2 & H3 & H4 & H5 & H6) by (by destruct Hc as [-> | ->]).
  split.
  - unfold next_header. rewrite H1, H3, H4, H5, H6. split; cbn; [by right|unfold u64; lia|done|done|exact I|set_solver].
  - rewrite H2. lia.
  - by destruct Hc as [-> | ->].
  - by destruct Hc as [-> | ->].
  - destruct Hc as [-> | ->]; by eexists.
  - by destruct Hc as [-> | ->].
  - by destruct Hc as [-> | ->].
  - by destruct Hc as [-> | ->].
  - by destruct Hc as [-> | ->].
Qed.

Lemma demo_filling (c : Creator SessionStreams NullEncrypter NullDecrypter) :
  c = demo_creator \/ c = secured_creator -> filling [] c /\ keeps [] (packet_ c).
Proof.
  intros Hc. split; [|by destruct Hc as [-> | ->]]. split; [by apply demo_settled|by destruct Hc as [-> | ->]|done| |done|done|].
  - by destruct Hc as [-> | ->].
  - exists {| streams := {[5 := example_buffer]} |}. split; [by destruct Hc as [-> | ->]|].
    exists ∅. split; [|exact I]. intros id a. by rewrite lookup_empty.
Qed.

Lemma demo_supplied xs n fin : concat (requests <$> xs) = [] -> (n <= 3)%nat ->
  supplied (Some {| streams := {[5 := example_buffer]} |}) (xs ++ [STREAM_FRAME (piece 5 0 (take n [97; 98; 99]) fin)]).
Proof.
  intros Hx Hn. unfold supplied. rewrite fmap_app, concat_app, Hx. cbn [app].
  exists {[5 := save [97; 98; 99] 1 {| saved := []; framed := 0; sent := 0; acked := ∅; lost := ∅; pieces := 0 |}]}. split.
  - intros id a Ha. apply lookup_singleton_Some in Ha as [<- <-]. exists example_buffer. split; [apply lookup_singleton_eq|].
    pose proof (SaveMemSlice_spec [97; 98; 99] _ _ (represents_init true true)) as H. apply H. vm_compute; split; done.
  - destruct n as [|[|[|[|n]]]]; [exact I|..|lia]; cbn; (eexists; split; [apply lookup_singleton_eq|]);
      (split; [|split; [reflexivity|exact I]]); (split_and!; [done|done|done|by left|apply disjoint_empty_r]).
Qed.

Lemma demo_consumable xs c : c = secured_creator \/ perform false (Add false (PING_FRAME 1)) secured_creator = Ret [PING_FRAME 1] c ->
  concat (requests <$> xs) = [] -> consumable false xs 5 0 0 [97; 98; 99] true c.
Proof.
  intros Hc Hx. assert (producer_ c = Some {| streams := {[5 := example_buffer]} |} /\ level_of c = ENCRYPTION_FORWARD_SECURE) as [H1 H2].
  { destruct Hc as [-> |Hc]; [done|]. vm_compute in Hc. injection Hc as <-. done. }
  split; [split; done|split; done|cbn; lia|by left|by left|right; by rewrite H2|].
  eexists. split; [exact H1|]. intros n Hn. by apply demo_supplied.
Qed.

Lemma the_fast_path_makes_the_same_packet_witness : exists c' p1 p2,
  CreateAndSerializeStreamFrame 5 3 0 0 true secured_creator = Ret (Some 3) (with_framer c' (endpoint_ c') (Some p1)) /\
  (r ← ConsumeData false 5 3 0 0 true false; Flush;; mret (data_length <$> r)) secured_creator =
    Ret (Some 3) (with_framer c' (endpoint_ c') (Some p2)).
Proof.
  destruct (demo_filling secured_creator (or_intror eq_refl)) as [Hfi Hk].
  destruct (the_fast_path_makes_the_same_packet false 5 0 0 [97; 98; 99] true secured_creator Hfi Hk
    (demo_consumable [] secured_creator (or_introl eq_refl) eq_refl)) as (n & c' & p1 & p2 & E1 & E2 & _).
  - vm_compute. done.
  - split_and!; done.
  - done.
  - vm_compute. done.
  - assert (n = 3) as ->.
    { clear E2. destruct (CreateAndSerializeStreamFrame 5 (0 + Z.of_nat (length [97; 98; 99])) 0 0 true secured_creator) as [r c1|] eqn:E; [|done].
      assert (r = Some 3) as -> by (vm_compute in E; by injection E as <- _). by injection E1 as <- _. }
    exists c', p1, p2. split; [exact E1|exact E2].
Defined.

Definition demo_end : option (list QuicFrame * Creator SessionStreams NullEncrypter NullDecrypter) :=
  match perform_all false demo_course demo_creator with Ret acc c => Some (acc, c) | Crash _ => None end.

Lemma demo_proper : all_properly false demo_course [] demo_creator.
Proof.
  split; [split; [done|]; split; [done|]; apply demo_settled; by right|].
  change (perform false (Configure (Level ENCRYPTION_FORWARD_SECURE)) demo_creator) with
    (Ret (S := Creator SessionStreams NullEncrypter NullDecrypter) (@nil QuicFrame) secured_creator).
  split.
  { split; [done|]. split; [by intros []|exact I| |done|exact I].
    exists {| streams := {[5 := example_buffer]} |}. split; [done|]. exists ∅. split; [|exact I]. intros id a. by rewrite lookup_empty. }
  destruct (perform false (Add false (PING_FRAME 1)) secured_creator) as [acc c1|] eqn:E1; [|done].
  assert (acc = [PING_FRAME 1]) as -> by (vm_compute in E1; by injection E1 as <- _).
  split.
  { split; [vm_compute in E1; injection E1 as <-; done|]. apply demo_consumable; [by right|done]. }
  destruct (perform false (Consume _ _ _ _ _ _) c1) as [acc2 c2|] eqn:E2; [|done]. split; [|by destruct (perform false FlushNow c2)].
  split; [|done]. vm_compute in E1. injection E1 as <-. vm_compute in E2. injection E2 as <- <-. done.
Qed.

End Example.
