(* ===== verification/PacketGenerator.v ===== *)
(** What goes into the next packets: [QuicPacketGenerator] of
    libquic/net/quic/core/quic_packet_generator.cc bundles acks, control frames and
    stream data for the packet creator, as long as its delegate lets it. *)

From S2P Require Import Prelude World QuicData Wire IntervalSet Crypter PacketNumberQueue Framer FrameWriter FrameReader.
From S2P Require Import Handshake PacketFramer PacketCreator.
Import PacketCreator.

(** [enum StreamSendingState] *)
Inductive StreamSendingState : Type := NO_FIN | FIN | FIN_AND_PADDING.

#[export] Instance StreamSendingState_dec : EqDecision StreamSendingState.
Proof. solve_decision. Defined.

Definition kMaxNumRandomPaddingBytes : Z := 256.

Module PacketGenerator.

(** [class QuicPacketGenerator]; [questions] are the calls of [ShouldGeneratePacket]
    so far (whether the data is retransmittable, whether it is the handshake),
    [answers] what its delegate will say, no after the last, and [randoms] the
    numbers of its random generator. *)
Record Generator (P E D : Type) : Type := {
  packet_creator_ : Creator P E D;
  queued_control_frames_ : list QuicFrame;
  flusher_attached_ : bool;
  should_send_ack_ : bool;
  should_send_stop_waiting_ : bool;
  questions : list (bool * bool);
  answers : list bool;
  randoms : list Z
}.
Arguments packet_creator_ {P E D} _.
Arguments queued_control_frames_ {P E D} _.
Arguments flusher_attached_ {P E D} _.
Arguments should_send_ack_ {P E D} _.
Arguments should_send_stop_waiting_ {P E D} _.
Arguments questions {P E D} _.
Arguments answers {P E D} _.
Arguments randoms {P E D} _.

Section Setters.
Context {P E D : Type}.
Variable g : Generator P E D.

Definition with_creator (c : Creator P E D) : Generator P E D :=
  {| packet_creator_ := c; queued_control_frames_ := queued_control_frames_ g; flusher_attached_ := flusher_attached_ g;
     should_send_ack_ := should_send_ack_ g; should_send_stop_waiting_ := should_send_stop_waiting_ g;
     questions := questions g; answers := answers g; randoms := randoms g |}.

Definition with_control (l : list QuicFrame) : Generator P E D :=
  {| packet_creator_ := packet_creator_ g; queued_control_frames_ := l; flusher_attached_ := flusher_attached_ g;
     should_send_ack_ := should_send_ack_ g; should_send_stop_waiting_ := should_send_stop_waiting_ g;
     questions := questions g; answers := answers g; randoms := randoms g |}.

Definition with_flags (flusher ack stop_waiting : bool) : Generator P E D :=
  {| packet_creator_ := packet_creator_ g; queued_control_frames_ := queued_control_frames_ g; flusher_attached_ := flusher;
     should_send_ack_ := ack; should_send_stop_waiting_ := stop_waiting;
     questions := questions g; answers := answers g; randoms := randoms g |}.

Definition with_inputs (q : list (bool * bool)) (l : list bool) (r : list Z) : Generator P E D :=
  {| packet_creator_ := packet_creator_ g; queued_control_frames_ := queued_control_frames_ g;
     flusher_attached_ := flusher_attached_ g; should_send_ack_ := should_send_ack_ g;
     should_send_stop_waiting_ := should_send_stop_waiting_ g; questions := q; answers := l; randoms := r |}.
End Setters.

Definition creator_lens {P E D} : Lens (Generator P E D) (Creator P E D) :=
  {| view := packet_creator_; put := fun c g => with_creator g c |}.
Definition cr {P E D A} (m : M (Creator P E D) A) : M (Generator P E D) A := zoom creator_lens m.

Section Operations.
Context {P E D : Type} `{!StreamFrameDataProducer P, !Encrypter E, !Decrypter D, !FramerVisitor}.
Implicit Types g : Generator P E D.

(** The delegate: [GetUpdatedAckFrame] and the number [PopulateStopWaitingFrame]
    fills in; [single_packet_chlo] is [FLAGS_quic_enforce_single_packet_chlo]. *)
Context (GetUpdatedAckFrame : Creator P E D -> QuicAckFrame) (least_unacked : Creator P E D -> Z) (single_packet_chlo : bool).

(** [QuicPacketGenerator(connection_id, framer, random_generator, delegate)] *)
Definition init (connection_id : Z) (e : Endpoint E D) (p : option P) : Generator P E D :=
  {| packet_creator_ := PacketCreator.init connection_id e p; queued_control_frames_ := []; flusher_attached_ := false;
     should_send_ack_ := false; should_send_stop_waiting_ := false; questions := []; answers := []; randoms := [] |}.

(** [delegate_->ShouldGeneratePacket(retransmittable, handshake)] *)
Definition ShouldGeneratePacket (retransmittable handshake : bool) : M (Generator P E D) bool :=
  g ← get;
  modify (fun g => with_inputs g (questions g ++ [(retransmittable, handshake)]) (tail (answers g)) (randoms g));;
  mret (default false (head (answers g))).

(** [random_generator_->RandUint64()] *)
Definition RandUint64 : M (Generator P E D) Z :=
  g ← get;
  match randoms g with
  | [] => mret 0
  | x :: l => modify (fun g => with_inputs g (questions g) (answers g) l);; mret x
  end.

Definition HasPendingFrames g : bool :=
  should_send_ack_ g || should_send_stop_waiting_ g || match queued_control_frames_ g with [] => false | _ => true end.
Definition HasQueuedFrames g : bool := PacketCreator.HasPendingFrames (packet_creator_ g) || HasPendingFrames g.
Definition IsPendingPacketEmpty g : bool := negb (PacketCreator.HasPendingFrames (packet_creator_ g)).
Definition HasRetransmittableFrames g : bool :=
  match queued_control_frames_ g with [] => HasPendingRetransmittableFrames (packet_creator_ g) | _ => true end.

(** [bool CanSendWithNextPendingFrameAddition() const] *)
Definition CanSendWithNextPendingFrameAddition : M (Generator P E D) bool :=
  g ← get;
  let no_retransmittable_data :=
    should_send_ack_ g || should_send_stop_waiting_ g || (pending_padding_bytes_ (packet_creator_ g) >? 0) in
  ShouldGeneratePacket (negb no_retransmittable_data) false.

(** [bool AddNextPendingFrame()] *)
Definition AddNextPendingFrame : M (Generator P E D) bool :=
  g ← get;
  if should_send_ack_ g then
    ok ← cr (AddSavedFrame (ACK_FRAME (GetUpdatedAckFrame (packet_creator_ g))));
    modify (fun g => with_flags g (flusher_attached_ g) (negb ok) (should_send_stop_waiting_ g));;
    mret (ok : bool)
  else if should_send_stop_waiting_ g then
    ok ← cr (AddSavedFrame (STOP_WAITING_FRAME (least_unacked (packet_creator_ g))));
    modify (fun g => with_flags g (flusher_attached_ g) (should_send_ack_ g) (negb ok));;
    mret (ok : bool)
  else
    frame ← deref (last (queued_control_frames_ g)) EndIterator;
    ok ← cr (AddSavedFrame frame);
    if ok : bool then modify (fun g => with_control g (removelast (queued_control_frames_ g)));; mret true
    else mret false.

(** The loop of [SendQueuedFrames]; false if it tore the connection down *)
Fixpoint send_loop (fuel : nat) (flush : bool) : M (Generator P E D) bool :=
  g ← get;
  if HasPendingFrames g then
    go ← (if flush then mret true else CanSendWithNextPendingFrameAddition);
    if go : bool then
      match fuel with
      | O => crashed OutOfFuel
      | S fuel =>
          g ← get;
          let first_frame := CanSetMaxPacketLength (packet_creator_ g) in
          ok ← AddNextPendingFrame;
          if negb ok && first_frame then
            cr (tell (OnUnrecoverableError QUIC_FAILED_TO_SERIALIZE_PACKET));;
            mret false
          else send_loop fuel flush
      end
    else mret true
  else mret true.

(** Each frame is added, or flushes a packet and is then first. *)
Definition turns g : nat :=
  2 * ((if should_send_ack_ g then 1 else 0) + (if should_send_stop_waiting_ g then 1 else 0) + length (queued_control_frames_ g)).

(** [void SendQueuedFrames(bool flush)] *)
Definition SendQueuedFrames (flush : bool) : M (Generator P E D) unit :=
  g ← get;
  ok ← send_loop (turns g) flush;
  when (ok && flush) (cr PacketCreator.Flush).

(** [void SetShouldSendAck(bool also_send_stop_waiting)] *)
Definition SetShouldSendAck (also_send_stop_waiting : bool) : M (Generator P E D) unit :=
  g ← get;
  if Serialized.has_ack (packet_ (packet_creator_ g)) then mret tt
  else if also_send_stop_waiting && Serialized.has_stop_waiting (packet_ (packet_creator_ g)) then mret tt
  else
    modify (fun g => with_flags g (flusher_attached_ g) true also_send_stop_waiting);;
    SendQueuedFrames false.

(** [void AddControlFrame(const QuicFrame& frame)] *)
Definition AddControlFrame (frame : QuicFrame) : M (Generator P E D) unit :=
  modify (fun g => with_control g (queued_control_frames_ g ++ [frame]));;
  SendQueuedFrames false.

(** [void AddRandomPadding()] *)
Definition AddRandomPadding : M (Generator P E D) unit :=
  r ← RandUint64;
  cr (modify (AddPendingPadding (r mod kMaxNumRandomPaddingBytes + 1))).

(** [QuicConsumedData ConsumeDataFastPath(id, write_length, offset, fin,
    total_bytes_consumed)], at most [fuel] packets *)
Fixpoint ConsumeDataFastPath (fuel : nat) (id write_length offset : Z) (fin : bool) (total_bytes_consumed : Z) :
    M (Generator P E D) (Z * bool) :=
  go ← (if total_bytes_consumed <? write_length then ShouldGeneratePacket true false else mret false);
  if go : bool then
    match fuel with
    | O => crashed OutOfFuel
    | S fuel =>
        n ← cr (CreateAndSerializeStreamFrame id write_length total_bytes_consumed (uint64 (offset + total_bytes_consumed)) fin);
        ConsumeDataFastPath fuel id write_length offset fin (uint64 (total_bytes_consumed + default 0 n))
    end
  else mret (total_bytes_consumed, fin && (total_bytes_consumed =? write_length)).

(** [run_fast_path] *)
Definition fast_path (id write_length total_bytes_consumed : Z) (state : StreamSendingState) g : bool :=
  negb (id =? kCryptoStreamId) && bool_decide (state <> FIN_AND_PADDING) && negb (HasQueuedFrames g) &&
  (uint64 (write_length - total_bytes_consumed) >? kMaxPacketSize).

(** How the loop of [ConsumeData] ends. *)
Inductive loop_end : Type := Failed | Fast (total : Z) | Done (total : Z) (fin_consumed : bool).

(** The loop of [ConsumeData], at most [fuel] frames *)
Fixpoint consume_loop (fuel : nat) (id write_length offset : Z) (state : StreamSendingState) (run_fast_path : bool) (total : Z)
    (fin_consumed : bool) : M (Generator P E D) loop_end :=
  if run_fast_path then mret (Fast total)
  else
    go ← ShouldGeneratePacket true (id =? kCryptoStreamId);
    if go : bool then
      match fuel with
      | O => crashed OutOfFuel
      | S fuel =>
          let has_handshake := id =? kCryptoStreamId in
          let fin := bool_decide (state <> NO_FIN) in
          frame ← cr (PacketCreator.ConsumeData single_packet_chlo id write_length total (uint64 (offset + total)) fin has_handshake);
          match frame with
          | None => mret Failed
          | Some frame =>
              let total := uint64 (total + data_length frame) in
              let fin_consumed := fin && (total =? write_length) in
              when (fin_consumed && bool_decide (state = FIN_AND_PADDING)) AddRandomPadding;;
              if total =? write_length then mret (Done total fin_consumed)
              else
                cr PacketCreator.Flush;;
                g ← get;
                consume_loop fuel id write_length offset state (fast_path id write_length total state g) total fin_consumed
          end
      end
    else mret (Done total fin_consumed).

(** [QuicConsumedData ConsumeData(id, write_length, offset, state)] *)
Definition ConsumeData (id write_length offset : Z) (state : StreamSendingState) : M (Generator P E D) (Z * bool) :=
  let has_handshake := id =? kCryptoStreamId in
  let fin := bool_decide (state <> NO_FIN) in
  g ← get;
  SendQueuedFrames (has_handshake && HasPendingRetransmittableFrames (packet_creator_ g));;
  room ← cr (HasRoomForStreamFrame id offset);
  when (negb room) (cr PacketCreator.Flush);;
  if negb fin && (write_length =? 0) then mret (0, false)
  else
    g ← get;
    r ← consume_loop (S (Z.to_nat write_length)) id write_length offset state (fast_path id write_length 0 state g) 0 false;
    match r with
    | Failed => mret (0, false)
    | Fast total => ConsumeDataFastPath (Z.to_nat write_length) id write_length offset fin total
    | Done total fin_consumed =>
        when has_handshake (SendQueuedFrames true);;
        mret (total, fin_consumed)
    end.

(** [void GenerateMtuDiscoveryPacket(QuicByteCount target_mtu)] *)
Definition GenerateMtuDiscoveryPacket (target_mtu : Z) : M (Generator P E D) unit :=
  g ← get;
  if CanSetMaxPacketLength (packet_creator_ g) then
    let current_mtu := max_packet_length_ (packet_creator_ g) in
    cr (modify (SetMaxPacketLength target_mtu));;
    _ ← cr (AddPaddedSavedFrame MTU_DISCOVERY_FRAME);
    cr PacketCreator.Flush;;
    cr (modify (SetMaxPacketLength current_mtu))
  else mret tt.

(** [void SendRemainingPendingPadding()], at most [fuel] packets *)
Fixpoint SendRemainingPendingPadding (fuel : nat) : M (Generator P E D) unit :=
  g ← get;
  if (pending_padding_bytes_ (packet_creator_ g) >? 0) && negb (HasQueuedFrames g) then
    go ← CanSendWithNextPendingFrameAddition;
    if go : bool then
      match fuel with
      | O => crashed OutOfFuel
      | S fuel => cr PacketCreator.Flush;; SendRemainingPendingPadding fuel
      end
    else mret tt
  else mret tt.

(** [void Flush()] *)
Definition Flush : M (Generator P E D) unit :=
  SendQueuedFrames false;;
  cr PacketCreator.Flush;;
  g ← get;
  SendRemainingPendingPadding (S (length (answers g)));;
  modify (fun g => with_flags g false (should_send_ack_ g) (should_send_stop_waiting_ g)).

Definition FlushAllQueuedFrames : M (Generator P E D) unit := SendQueuedFrames true.
Definition AttachPacketFlusher : M (Generator P E D) unit :=
  modify (fun g => with_flags g true (should_send_ack_ g) (should_send_stop_waiting_ g)).

(** What is passed on to the creator *)
Definition PacketFlusherAttached g : bool := flusher_attached_ g.
Definition packet_number g : Z := Serialized.packet_number (packet_ (packet_creator_ g)).
Definition GetCurrentMaxPacketLength g : Z := max_packet_length_ (packet_creator_ g).
Definition HasPendingStreamFramesOfStream (id : Z) g : bool := PacketCreator.HasPendingStreamFramesOfStream id (packet_creator_ g).
Definition StopSendingVersion : M (Generator P E D) unit := cr (modify PacketCreator.StopSendingVersion).
Definition SetDiversificationNonce (nonce : list Z) : M (Generator P E D) unit :=
  cr (modify (PacketCreator.SetDiversificationNonce nonce)).
Definition SetMaxPacketLength (length : Z) : M (Generator P E D) unit := cr (modify (PacketCreator.SetMaxPacketLength length)).
Definition UpdatePacketNumberLength (least_packet_awaited_by_peer max_packets_in_flight : Z) : M (Generator P E D) unit :=
  cr (modify (PacketCreator.UpdatePacketNumberLength least_packet_awaited_by_peer max_packets_in_flight)).
Definition set_encryption_level (level : EncryptionLevel) : M (Generator P E D) unit :=
  cr (modify (PacketCreator.set_encryption_level level)).
Definition SetEncrypter (level : EncryptionLevel) (e : E) : M (Generator P E D) unit := cr (modify (PacketCreator.SetEncrypter level e)).
Definition SetTransmissionType (type : TransmissionType) : M (Generator P E D) unit :=
  cr (modify (PacketCreator.SetTransmissionType type)).
Definition SetLongHeaderType (type : Z) : M (Generator P E D) unit := cr (modify (PacketCreator.SetLongHeaderType type)).
Definition SetCanSetTransmissionType (can_set_transmission_type : bool) : M (Generator P E D) unit :=
  cr (modify (PacketCreator.set_can_set_transmission_type can_set_transmission_type)).

Definition ReserializeAllFrames (retransmission : QuicPendingRetransmission) (buffer_len : nat) : M (Generator P E D) unit :=
  cr (PacketCreator.ReserializeAllFrames retransmission buffer_len).
Definition SerializeConnectivityProbingPacket : M (Generator P E D) Serialized.SerializedPacket :=
  cr PacketCreator.SerializeConnectivityProbingPacket.
Definition SerializeVersionNegotiationPacket (supported_versions : list ParsedQuicVersion) : M (Generator P E D) (option (list Z)) :=
  cr (PacketCreator.SerializeVersionNegotiationPacket supported_versions).

(** [void SetConnectionIdLength(uint32_t length)] *)
Definition SetConnectionIdLength (length : Z) : M (Generator P E D) unit :=
  cr (modify (PacketCreator.SetConnectionIdLength (if length =? 0 then 0 else 8))).
End Operations.

End PacketGenerator.
