(* ===== verification/PacketQueue.v ===== *)
(** Steps of the packet generator on its creator: stream data in pieces, the open
    packet flushed, and the acks and control frames that wait to be sent. *)

From S2P Require Import Prelude World QuicData Wire IntervalSet Intervals Crypter PacketNumberQueue PacketNumbers.
From S2P Require Import Framer FrameWriter FrameReader FrameWire AckWire FrameBuild FrameRead AckRead FrameData Handshake.
From S2P Require Import SendBuffer Sending PacketFramer PacketNumberWire SessionProducer PacketTrip PacketCreator PacketFilling PacketCourses.
From S2P Require Import PacketGenerator.
Import Serialized (SerializedPacket) PacketCreator.

(** ** Data cut into pieces *)

(** The frames for [d] from offset [off], of the given lengths; the one that ends
    the data carries the FIN. *)
Fixpoint pieces_by (cuts : list nat) (id off : Z) (d : list Z) (fin : bool) : list QuicFrame :=
  match cuts with
  | [] => []
  | n :: cuts =>
      STREAM_FRAME (piece id off (take n d) (fin && (n =? length d)%nat)) :: pieces_by cuts id (off + Z.of_nat n) (drop n d) fin
  end.

Lemma pieces_app a b id off d fin : pieces_by (a ++ b) id off d fin =
  pieces_by a id off d fin ++ pieces_by b id (off + Z.of_nat (sum_list a)) (drop (sum_list a) d) fin.
Proof.
  revert off d. induction a as [|n a IH]; intros off d; cbn [app pieces_by sum_list]; [by rewrite drop_0, Z.add_0_r|].
  rewrite IH, drop_drop, Nat2Z.inj_add, Z.add_assoc. done.
Qed.

Section Writes.
Context {P E D : Type} `{HS : Supplier P} `{HSe : Sealer E} `{!Decrypter D, !FramerVisitor}.
Implicit Types c : Creator P E D.
Implicit Types g : PacketGenerator.Generator P E D.

(** The producer has the data of [ys] and then [d], however it is cut. *)
Definition stocked (p : P) (ys : list QuicFrame) (id off : Z) (d : list Z) : Prop :=
  forall cuts, (sum_list cuts <= length d)%nat -> supplies p (concat (requests <$> ys ++ pieces_by cuts id off d false)).

Lemma requests_fin id off d fin fin' : requests (STREAM_FRAME (piece id off d fin)) = requests (STREAM_FRAME (piece id off d fin')).
Proof. done. Qed.

Lemma stocked_nothing p ys id off : supplied (Some p) ys -> stocked p ys id off [].
Proof.
  intros Hs cuts Hc. assert (concat (requests <$> pieces_by cuts id off [] false) = []) as Hn.
  { clear Hc. revert off. induction cuts as [|n cuts IH]; intros off; [done|]. cbn [pieces_by]. rewrite take_nil, drop_nil. exact (IH _). }
  rewrite fmap_app, concat_app, Hn, app_nil_r. exact Hs.
Qed.

Lemma stocked_take p ys id off d n fin : stocked p ys id off d -> (n <= length d)%nat ->
  stocked p (ys ++ [STREAM_FRAME (piece id off (take n d) fin)]) id (off + Z.of_nat n) (drop n d).
Proof.
  intros Hs Hn cuts Hc. rewrite length_drop in Hc. specialize (Hs (n :: cuts) ltac:(cbn; lia)). cbn [pieces_by andb] in Hs.
  rewrite <- app_assoc. cbn [app]. rewrite fmap_app, fmap_cons in Hs |- *. by rewrite (requests_fin _ _ _ _ false).
Qed.

Lemma stocked_supplied p ys id off d n fin : stocked p ys id off d -> (n <= length d)%nat ->
  supplied (Some p) (ys ++ [STREAM_FRAME (piece id off (take n d) fin)]).
Proof.
  intros Hs Hn. specialize (Hs [n] ltac:(cbn; lia)). cbn [pieces_by andb] in Hs. unfold supplied.
  rewrite fmap_app, fmap_cons in Hs |- *. by rewrite (requests_fin _ _ _ _ false).
Qed.

Lemma stocked_handed p p' ys id off d : hands_on (Some p) ys (Some p') -> stocked p ys id off d -> stocked p' [] id off d.
Proof.
  intros Hh Hs cuts Hc. specialize (Hs cuts Hc). rewrite fmap_app, concat_app in Hs. by apply Hh.
Qed.

(** ** Steps of the creator *)

(** Nothing a header shows has changed, and no padding was added. *)
Definition steady c c' : Prop :=
  level_of c' = level_of c /\ header_size c' = header_size c /\ max_plaintext_size_ c' = max_plaintext_size_ c /\
  transport_version_of c' = transport_version_of c /\ pending_padding_bytes_ c' <= pending_padding_bytes_ c.

Lemma steady_trans c1 c2 c3 : steady c1 c2 -> steady c2 c3 -> steady c1 c3.
Proof. intros (A1 & A2 & A3 & A4 & A5) (B1 & B2 & B3 & B4 & B5). unfold steady. split_and!; [congruence..|lia]. Qed.

(** The state in the middle of a write: [acc] accepted since [c0], [ys] open. *)
Record midway c0 (xs acc : list QuicFrame) (id off : Z) (d : list Z) (ys : list QuicFrame) c : Prop := {
  mi_advances : advances xs c0 acc ys c;
  mi_steady : steady c0 c;
  mi_data : exists p, producer_ c = Some p /\ stocked p ys id off d
}.

(** A packet has room for any stream frame. *)
Definition roomy c : Prop := header_size c + 13 < max_plaintext_size_ c.

Lemma empty_room c id off : filling [] c -> roomy c -> u32 id -> u64 off ->
  GetMinStreamFrameSize (transport_version_of c) id off true < free [] c.
Proof.
  intros Hfi Hr Hid Ho. pose proof (min_stream_size (transport_version_of c) id off Hid Ho).
  unfold free, free_of, size_of, roomy, grown in *. cbn [needed last]. lia.
Qed.

Lemma midway_room c0 xs acc id off d c : midway c0 xs acc id off d [] c -> roomy c0 -> u32 id -> u64 off ->
  GetMinStreamFrameSize (transport_version_of c) id off true < free [] c.
Proof.
  intros [Ha (_ & H2 & H3 & _) _] Hr Hid Ho. apply empty_room; [by apply advances_end in Ha as [? _]| |done|done].
  unfold roomy in *. by rewrite H2, H3.
Qed.

Lemma midway_consumable flag c0 xs acc id k off d ys c fin : midway c0 xs acc id off d ys c -> level_of c0 <> ENCRYPTION_NONE ->
  u32 id -> u64 off -> 0 <= k /\ k + Z.of_nat (length d) < 2 ^ 64 -> d <> [] \/ fin = true -> id <> kCryptoStreamId ->
  consumable flag ys id k off d fin c.
Proof.
  intros [_ Hst (p & Hp & Hsk)] Hl Hid Ho Hk Hd Hc. split; try done.
  - by right; right.
  - right. destruct Hst as (-> & _). done.
  - exists p. split; [done|]. intros n Hn. by apply stocked_supplied.
Qed.

(** The open packet goes out. *)
Lemma midway_flush_by fuel c0 xs acc id off d ys c : midway c0 xs acc id off d ys c -> number_of c + 1 < 2 ^ 62 ->
  exists c', flush (AddFrame (S fuel)) c = Ret tt c' /\ midway c0 xs acc id off d [] c' /\ number_of c' <= number_of c + 1.
Proof.
  intros [Ha Hs (p & Hp & Hsk)] Hn. destruct (advances_end _ _ _ _ _ Ha) as [Hfi Hk].
  unfold flush, mbind, M_bind, get. unfold PacketCreator.HasPendingFrames. rewrite (fi_queue _ _ Hfi).
  destruct (decide (ys = [] /\ pending_padding_bytes_ c = 0)) as [[-> Hz]|Hne].
  - cbn [fmap list_fmap negb andb]. rewrite Hz. cbn [Z.eqb]. exists c. split; [done|]. split; [|lia]. split; [exact Ha|exact Hs|by exists p].
  - assert ((negb match hand_over true <$> ys with [] => false | _ :: _ => true end && (pending_padding_bytes_ c =? 0)) = false) as ->.
    { destruct ys; [|done]. cbn. apply Z.eqb_neq. intros Hz. by apply Hne. }
    pose proof (se_pending _ (fi_settled _ _ Hfi)) as Hpe.
    destruct (advances_flushed fuel ys c Hfi Hk) as (n & pending & p' & pk & E1 & Ha' & Hho & Hpd); [|done|].
    { destruct ys; [|by left]. right. assert (pending_padding_bytes_ c <> 0) by (intros Hz; by apply Hne). lia. }
    cbv zeta in Ha'. set (c' := emptied c n pending (Some p') pk) in *. exists c'. split; [exact E1|]. split.
    + split.
      * rewrite <- (app_nil_r acc). by eapply advances_trans.
      * eapply steady_trans; [exact Hs|]. repeat split. exact (proj2 Hpd).
      * exists p'. split; [done|]. rewrite Hp in Hho. by apply (stocked_handed p p' ys).
    + change (number_of c + 1 <= number_of c + 1). lia.
Qed.

Lemma midway_resized c0 xs acc id off d ys c : midway c0 xs acc id off d ys c -> midway c0 xs acc id off d ys (resized ys c).
Proof.
  intros [Ha Hs Hp]. destruct (advances_end _ _ _ _ _ Ha) as [Hfi Hk]. split; [|exact Hs|exact Hp].
  rewrite <- (app_nil_r acc). eapply advances_trans; [exact Ha|]. rewrite <- (app_nil_r ys) at 2.
  apply advances_quietly; try done. by apply filling_resized.
Qed.

Lemma midway_flush c0 xs acc id off d ys c : midway c0 xs acc id off d ys c -> number_of c + 1 < 2 ^ 62 ->
  exists c', PacketCreator.Flush c = Ret tt c' /\ midway c0 xs acc id off d [] c' /\ number_of c' <= number_of c + 1.
Proof. exact (midway_flush_by 1 c0 xs acc id off d ys c). Qed.

(** A frame in the open packet shows in no header. *)
Lemma steady_taken ys x len c c' : c' = take_frame (hand_over true x) true len (resized ys c) ->
  steady c c' /\ producer_ c' = producer_ c /\ number_of c' = number_of c.
Proof.
  intros ->. destruct (take_frame_eq x len (resized ys c)) as (pk & -> & P1 & P2 & P3 & P4 & P5).
  split; [|split; [done|exact P2]]. unfold steady, level_of, header_size, IncludeNonceInPublicHeader, GetPacketNumberLength.
  cbn [packet_ with_queue with_packet]. unfold level_of. cbn [packet_ with_queue with_packet]. rewrite P4, P3. split_and!; done.
Qed.

(** Data goes into the open packet. *)
Lemma midway_consume flag c0 xs acc id k off d ys c fin : midway c0 xs acc id off d ys c -> level_of c0 <> ENCRYPTION_NONE ->
  u32 id -> u64 off -> 0 <= k /\ k + Z.of_nat (length d) < 2 ^ 64 -> d <> [] \/ fin = true -> id <> kCryptoStreamId ->
  number_of c + 1 < 2 ^ 62 -> GetMinStreamFrameSize (transport_version_of c) id off true < free ys c ->
  exists n c', let x := STREAM_FRAME (piece id off (take n d) (fin && (n =? length d)%nat)) in
    ConsumeData flag id (k + Z.of_nat (length d)) k off fin false c =
      Ret (Some (stream_frame id (fin && (n =? length d)%nat) off (Z.of_nat n))) c' /\ (n <= length d)%nat /\ (n <= 1452)%nat /\
    (d <> [] -> 0 < n)%nat /\ midway c0 xs (acc ++ [x]) id (off + Z.of_nat n) (drop n d) (ys ++ [x]) c' /\ number_of c' = number_of c.
Proof.
  intros Hm Hl Hid Ho Hk Hd Hc Hn Hroom. pose proof Hm as [Ha Hs (p & Hp & Hsk)]. destruct (advances_end _ _ _ _ _ Ha) as [Hfi Hke].
  pose proof (midway_consumable flag _ _ _ _ k _ _ _ _ fin Hm Hl Hid Ho Hk Hd Hc) as Hco.
  pose proof (data_consumed flag ys id k off d fin false c Hfi Hke Hco Hn) as Hdc. cbv zeta in Hdc.
  set (room := free ys c - GetMinStreamFrameSize (transport_version_of c) id off true) in *.
  assert (0 < room) as Hr by (unfold room; lia). rewrite (proj2 (Z.ltb_lt _ _) Hr) in Hdc.
  destruct (frame_created ys c id k off d fin Hfi Hid Ho Hk Hd Hr) as (_ & Hn1 & Hn2 & Hn3). fold room in Hn1, Hn2, Hn3.
  set (n := taken room d) in *. destruct Hdc as (c' & Ec & Hadv & Ht). specialize (Ht eq_refl). exists n, c'. cbv zeta.
  set (x := STREAM_FRAME _) in *. destruct (steady_taken _ _ _ _ _ Ht) as (Hst & Hpr & Hnu).
  split; [exact Ec|]. split; [done|]. split; [done|]. split; [intros Hd0; unfold n, taken; destruct d; [done|cbn [length]; lia]|].
  split; [|exact Hnu]. split; [by eapply advances_trans|by eapply steady_trans|].
  exists p. split; [by rewrite Hpr|]. by apply stocked_take.
Qed.

(** Data makes a packet of its own. *)
Lemma midway_fast c0 xs acc id k off d c fin : midway c0 xs acc id off d [] c -> level_of c0 <> ENCRYPTION_NONE -> roomy c0 ->
  u32 id -> u64 off -> 0 <= k /\ k + Z.of_nat (length d) < 2 ^ 64 -> d <> [] -> id <> kCryptoStreamId -> number_of c + 1 < 2 ^ 62 ->
  exists n c', let x := STREAM_FRAME (piece id off (take n d) (fin && (n =? length d)%nat)) in
    CreateAndSerializeStreamFrame id (k + Z.of_nat (length d)) k off fin c = Ret (Some (Z.of_nat n)) c' /\ (0 < n <= length d)%nat /\
    midway c0 xs (acc ++ [x]) id (off + Z.of_nat n) (drop n d) [] c' /\ number_of c' = number_of c + 1.
Proof.
  intros Hm Hl Hr Hid Ho Hk Hd Hc Hn. pose proof Hm as [Ha Hs (p & Hp & Hsk)]. destruct (advances_end _ _ _ _ _ Ha) as [Hfi Hke].
  pose proof (midway_consumable false _ _ _ _ k _ _ _ _ fin Hm Hl Hid Ho Hk (or_introl Hd) Hc) as Hco.
  destruct (lone_advances false id k off d fin c Hfi Hke Hco Hn (midway_room _ _ _ _ _ _ _ Hm Hr Hid Ho)) as (n & p' & pk & H1 & H2 & E1 & Hadv & Hho).
  eexists n, _. cbv zeta. split; [exact E1|]. split; [specialize (H2 Hd); lia|]. split; [|reflexivity]. split.
  - by eapply advances_trans.
  - eapply steady_trans; [exact Hs|]. repeat split. reflexivity.
  - exists p'. split; [done|]. rewrite Hp in Hho. eapply stocked_handed; [exact Hho|].
    apply (stocked_take p [] id off d n _ Hsk H1).
Qed.
End Writes.

(** ** The delegate *)

(** The delegate will agree to the next [n] packets. *)
Definition agrees {P E D} (n : nat) (g : PacketGenerator.Generator P E D) : Prop :=
  exists l, PacketGenerator.answers g = replicate n true ++ l.

Section Queue.
Context {P E D : Type} `{HS : Supplier P} `{HSe : Sealer E} `{!Decrypter D, !FramerVisitor}.
Implicit Types c : Creator P E D.
Implicit Types g : PacketGenerator.Generator P E D.

Lemma agrees_le n m g : (n <= m)%nat -> agrees m g -> agrees n g.
Proof.
  intros Hle [l Hl]. exists (replicate (m - n) true ++ l). rewrite Hl, app_assoc, <- replicate_add. do 2 f_equal. lia.
Qed.

(** One answer of the delegate. *)
Lemma asked r h g : exists b g', PacketGenerator.ShouldGeneratePacket r h g = Ret b g' /\
  PacketGenerator.packet_creator_ g' = PacketGenerator.packet_creator_ g /\
  (forall n, agrees (S n) g -> b = true /\ agrees n g').
Proof.
  unfold PacketGenerator.ShouldGeneratePacket, mbind, M_bind, get, modify. eexists _, _. split; [reflexivity|]. split; [done|].
  intros n [l Hl]. rewrite Hl. split; [done|]. by exists l.
Qed.

Lemma creator_run {A} (m : M (Creator P E D) A) a c g : m (PacketGenerator.packet_creator_ g) = Ret a c ->
  PacketGenerator.cr m g = Ret a (PacketGenerator.with_creator g c).
Proof. intros Hm. unfold PacketGenerator.cr, zoom, PacketGenerator.creator_lens. cbn [view put]. by rewrite Hm. Qed.

(** ** Frames that wait *)

Context (GetUpdatedAckFrame : Creator P E D -> QuicAckFrame) (least_unacked : Creator P E D -> Z).

(** The frames to be sent, each made when it is added: the ack, the stop waiting
    frame, and the control frames from the last to the first. *)
Definition waiting g : list (Creator P E D -> QuicFrame) :=
  (if PacketGenerator.should_send_ack_ g then [fun c => ACK_FRAME (GetUpdatedAckFrame c)] else []) ++
  (if PacketGenerator.should_send_stop_waiting_ g then [fun c => STOP_WAITING_FRAME (least_unacked c)] else []) ++
  ((fun x _ => x) <$> reverse (PacketGenerator.queued_control_frames_ g)).

Lemma waiting_none g : PacketGenerator.HasPendingFrames g = negb (bool_decide (waiting g = [])).
Proof.
  unfold PacketGenerator.HasPendingFrames, waiting. destruct (PacketGenerator.should_send_ack_ g); [done|].
  destruct (PacketGenerator.should_send_stop_waiting_ g); [done|]. destruct (PacketGenerator.queued_control_frames_ g) as [|x l]; [done|].
  cbn [orb app]. rewrite bool_decide_eq_false_2; [done|]. rewrite reverse_cons, fmap_app. intros Hn. by apply app_nil in Hn as [_ ?].
Qed.

Lemma next_pending g x rest ok c' : waiting g = x :: rest ->
  AddSavedFrame (x (PacketGenerator.packet_creator_ g)) (PacketGenerator.packet_creator_ g) = Ret ok c' ->
  exists g', PacketGenerator.AddNextPendingFrame GetUpdatedAckFrame least_unacked g = Ret ok g' /\
    PacketGenerator.packet_creator_ g' = c' /\ waiting g' = (if ok : bool then rest else x :: rest) /\
    PacketGenerator.answers g' = PacketGenerator.answers g.
Proof.
  unfold waiting at 1. intros Hw Ha. unfold PacketGenerator.AddNextPendingFrame, mbind, M_bind, get.
  destruct (PacketGenerator.should_send_ack_ g) eqn:E1.
  { injection Hw as <- <-. rewrite (creator_run _ _ _ _ Ha). eexists. split; [reflexivity|]. split; [done|]. split; [|done].
    unfold waiting. cbn. by destruct ok. }
  destruct (PacketGenerator.should_send_stop_waiting_ g) eqn:E2.
  { injection Hw as <- <-. rewrite (creator_run _ _ _ _ Ha). eexists. split; [reflexivity|]. split; [done|]. split; [|done].
    unfold waiting. cbn. rewrite E1. by destruct ok. }
  destruct (PacketGenerator.queued_control_frames_ g) as [|y l _] eqn:E3 using rev_ind; [done|].
  rewrite reverse_snoc in Hw. cbn [app fmap list_fmap] in Hw. injection Hw as <- <-. rewrite last_snoc. cbn [deref]. rewrite (creator_run _ _ _ _ Ha).
  destruct ok; (eexists; split; [reflexivity|]); (split; [done|]); (split; [|done]); unfold waiting; cbn -[reverse removelast]; rewrite E1, E2, E3.
  - by rewrite removelast_last.
  - by rewrite reverse_snoc.
Qed.

(** A frame without stream data that may be sent in any state a creator gets into
    from [c0], and that fits in an empty packet. *)
Definition offered c0 (x : Creator P E D -> QuicFrame) : Prop :=
  forall c, kept c0 c -> steady c0 c -> number_of c0 <= number_of c ->
    match x c with PADDING_FRAME _ | STREAM_FRAME _ => False | _ => True end /\
    frame_ok (framer_of c) (next_header c) (x c) /\
    header_size c + cost (framer_of c) (next_header c) (x c) <= max_plaintext_size_ c.

Lemma stocked_plain p ys id off d x : requests x = [] -> stocked p ys id off d -> stocked p (ys ++ [x]) id off d.
Proof.
  intros Hx Hs cuts Hc. specialize (Hs cuts Hc). rewrite fmap_app, concat_app in Hs. rewrite !fmap_app, !concat_app.
  change (requests <$> [x]) with [requests x]. cbn [concat]. by rewrite Hx, !app_nil_r.
Qed.

Lemma midway_addable c0 xs acc id off d ys c x : midway c0 xs acc id off d ys c -> offered c0 x ->
  addable ys (x c) c /\ requests (x c) = [] /\ hand_over true (x c) = x c /\
  header_size c + cost (framer_of c) (next_header c) (x c) <= max_plaintext_size_ c.
Proof.
  intros [(out & A1 & A2 & A3 & A4 & A5 & A6 & A7 & A8 & A9) Hs _] Ho. destruct (Ho c A9 Hs) as (O1 & O2 & O3); [lia|].
  assert (requests (x c) = [] /\ hand_over true (x c) = x c) as [Hr Hh] by (by destruct (x c)). split; [|done]. split.
  - destruct (x c); try done; by intros [].
  - exact O2.
  - destruct (fi_data _ _ A7) as (p & Hp & Hsu). exists p. split; [done|]. unfold supplied in *. rewrite fmap_app, concat_app. cbn. rewrite Hr. by rewrite !app_nil_r.
  - by destruct (x c).
  - destruct (x c); try done.
Qed.

(** A waiting frame is added, or flushes a packet that had other frames. *)
Lemma midway_add c0 xs acc id off d ys c x : midway c0 xs acc id off d ys c -> offered c0 x -> number_of c + 1 < 2 ^ 62 ->
  exists ok c', AddSavedFrame (x c) c = Ret ok c' /\ number_of c' <= number_of c + (if ok then 0 else 1) /\
    if ok then midway c0 xs (acc ++ [x c]) id off d (ys ++ [x c]) c' else ys <> [] /\ midway c0 xs acc id off d [] c'.
Proof.
  intros Hm Ho Hn. destruct (midway_addable _ _ _ _ _ _ _ _ _ Hm Ho) as (Had & Hr & Hh & Hfit). pose proof Hm as [Ha Hs (p & Hp & Hsk)].
  destruct (advances_end _ _ _ _ _ Ha) as [Hfi Hk]. pose proof (add_frame_eq 1 ys (x c) c Hfi Had) as Ea. rewrite Hh in Ea.
  unfold AddSavedFrame. change levels with 2%nat. rewrite Ea. set (len := cost _ _ _) in *. clear Ea. destruct (Z.leb_spec len (free ys c)) as [Hle|Hgt].
  - eexists true, _. split; [reflexivity|]. pose proof (frame_taken ys (x c) c Hfi Hk Had Hle) as Hft.
    destruct (steady_taken ys (x c) len c _ eq_refl) as (Hst & Hpr & Hnu). rewrite Hh in Hft, Hst, Hpr, Hnu.
    split; [rewrite Hnu; lia|]. split.
    + by eapply advances_trans.
    + by eapply steady_trans.
    + exists p. split; [by rewrite Hpr|]. by apply stocked_plain.
  - pose proof (midway_resized _ _ _ _ _ _ _ _ Hm) as Hm'.
    destruct (midway_flush_by 0 _ _ _ _ _ _ _ _ Hm' Hn) as (c' & Ef & Hm2 & Hn2). exists false, c'. unfold mbind, M_bind. rewrite Ef.
    split; [done|]. split; [exact Hn2|]. split; [|exact Hm2]. intros ->. unfold free, free_of, size_of, grown in Hgt. cbn [needed last] in Hgt. lia.
Qed.

(** The frames [ys] were made from the sources. *)
Definition made c0 (sources : list (Creator P E D -> QuicFrame)) (ys : list QuicFrame) : Prop :=
  Forall2 (fun x y => exists c, kept c0 c /\ y = x c) sources ys.

Definition open_one (ys : list QuicFrame) : nat := match ys with [] => 0 | _ => 1 end.

Section Sending.
Context (c0 : Creator P E D) (xs : list QuicFrame) (id off : Z) (d : list Z).

(** What a run of the loop leaves: some frames are sent, the others still wait. *)
Definition sent_on (flush : bool) (fuel : nat) (acc ys : list QuicFrame) g g' : Prop :=
  exists sources accs ys', waiting g = sources ++ waiting g' /\ made c0 sources accs /\
    midway c0 xs (acc ++ accs) id off d ys' (PacketGenerator.packet_creator_ g') /\
    number_of (PacketGenerator.packet_creator_ g') + Z.of_nat (length (waiting g') + open_one ys') <=
      number_of (PacketGenerator.packet_creator_ g) + Z.of_nat (length (waiting g) + open_one ys) /\
    (flush = true -> waiting g' = []) /\ (forall n, agrees (fuel + n) g -> waiting g' = [] /\ agrees n g').

Lemma sent_nothing flush fuel acc ys g g' : midway c0 xs acc id off d ys (PacketGenerator.packet_creator_ g) ->
  PacketGenerator.packet_creator_ g' = PacketGenerator.packet_creator_ g -> waiting g' = waiting g ->
  (flush = true -> waiting g = []) -> (forall n, agrees (fuel + n) g -> waiting g = [] /\ agrees n g') -> sent_on flush fuel acc ys g g'.
Proof.
  intros Hm Hc Hw Hf Ha. exists [], [], ys. rewrite app_nil_r, Hc, Hw. split_and!; try done. constructor.
Qed.

(** One more step before a run. *)
Lemma sent_step flush fuel acc ys g g1 x rest ok ys1 c1 g2 g' : waiting g = x :: rest ->
  PacketGenerator.packet_creator_ g1 = PacketGenerator.packet_creator_ g -> kept c0 (PacketGenerator.packet_creator_ g) ->
  (forall n, agrees (S n) g -> agrees n g1) ->
  PacketGenerator.packet_creator_ g2 = c1 -> waiting g2 = (if ok : bool then rest else x :: rest) ->
  PacketGenerator.answers g2 = PacketGenerator.answers g1 ->
  number_of c1 + Z.of_nat (length (waiting g2) + open_one ys1) <= number_of (PacketGenerator.packet_creator_ g) + Z.of_nat (length (waiting g) + open_one ys) ->
  sent_on flush fuel (acc ++ if ok then [x (PacketGenerator.packet_creator_ g)] else []) ys1 g2 g' -> sent_on flush (S fuel) acc ys g g'.
Proof.
  intros Hw Hc1 Hke Hag Hc2 Hw2 Ha2 Hn (sources & accs & ys' & S1 & S2 & S3 & S4 & S5 & S6).
  exists ((if ok then [x] else []) ++ sources), ((if ok then [x (PacketGenerator.packet_creator_ g)] else []) ++ accs), ys'.
  split; [rewrite Hw; destruct ok; cbn [app]; rewrite <- S1, Hw2; done|].
  split. { destruct ok; [|done]. constructor; [|done]. by eexists. }
  split; [by rewrite app_assoc|]. split; [rewrite Hc2 in S4; lia|]. split; [done|].
  intros n Ha. apply S6. destruct (Hag (fuel + n)%nat Ha) as [l Hl]. exists l. by rewrite Ha2.
Qed.

Lemma send_loop_run flush : forall fuel g acc ys, midway c0 xs acc id off d ys (PacketGenerator.packet_creator_ g) ->
  Forall (offered c0) (waiting g) -> (2 * length (waiting g) + open_one ys <= fuel + 1)%nat ->
  number_of (PacketGenerator.packet_creator_ g) + Z.of_nat (length (waiting g) + open_one ys) < 2 ^ 62 ->
  exists g', PacketGenerator.send_loop GetUpdatedAckFrame least_unacked fuel flush g = Ret true g' /\ sent_on flush fuel acc ys g g'.
Proof.
  induction fuel as [|fuel IH]; intros g acc ys Hm Ho Hf Hn.
  { assert (waiting g = []) as Hw by (destruct (waiting g); [done|cbn in Hf; lia]). exists g. cbn [PacketGenerator.send_loop].
    unfold mbind, M_bind, get. rewrite waiting_none, Hw. split; [done|]. by apply sent_nothing. }
  cbn [PacketGenerator.send_loop]. unfold mbind at 1, M_bind at 1, get at 1. rewrite waiting_none.
  destruct (waiting g) as [|x rest] eqn:Hw; cbn [bool_decide negb].
  { exists g. split; [done|]. apply sent_nothing; try done. intros n Ha. split; [done|]. apply (agrees_le _ (S fuel + n)); [lia|done]. }
  assert (exists b g1, (if flush then mret true else PacketGenerator.CanSendWithNextPendingFrameAddition) g = Ret b g1 /\
    PacketGenerator.packet_creator_ g1 = PacketGenerator.packet_creator_ g /\ waiting g1 = waiting g /\ (flush = true -> b = true) /\
    (forall n, agrees (S n) g -> b = true /\ agrees n g1)) as (b & g1 & Eg & Hc1 & Hw1 & Hb & Hag).
  { destruct flush.
    - exists true, g. split_and!; try done. intros n Ha. split; [done|]. apply (agrees_le _ (S n)); [lia|done].
    - unfold PacketGenerator.CanSendWithNextPendingFrameAddition, mbind, M_bind, get.
      edestruct asked as (b & g1 & Ea & Hc & Ha). exists b, g1. split; [exact Ea|]. split; [done|]. split; [|done].
      unfold PacketGenerator.ShouldGeneratePacket in Ea. injection Ea as _ <-. done. }
  change (negb (bool_decide (x :: rest = []))) with true. cbv iota. unfold mbind at 1, M_bind at 1. rewrite Eg. destruct b.
  2: { exists g1. split; [done|]. apply sent_nothing; try done. - intros Hfl. by specialize (Hb Hfl). - intros n Ha. by destruct (Hag (fuel + n)%nat Ha). }
  pose proof Hm as [(out & _ & _ & _ & _ & _ & _ & _ & _ & Hke) _ _]. apply Forall_cons in Ho as [Hx Ho]. rewrite Hw in Hw1. rewrite <- Hc1 in Hm.
  destruct (midway_add _ _ _ _ _ _ _ _ x Hm Hx) as (ok & c1 & Ea & Hn1 & Hok); [rewrite Hc1; cbn [length] in Hn; lia|].
  destruct (next_pending g1 x rest ok c1 Hw1 Ea) as (g2 & En & Hc2 & Hw2 & Ha2).
  unfold mbind, M_bind, get. rewrite En.
  assert (negb ok && CanSetMaxPacketLength (PacketGenerator.packet_creator_ g1) = false) as ->.
  { destruct ok; [done|]. destruct Hok as [Hne _]. destruct Hm as [Ha _ _]. destruct (advances_end _ _ _ _ _ Ha) as [Hfi _].
    unfold CanSetMaxPacketLength. rewrite (fi_queue _ _ Hfi). by destruct ys. }
  set (ys1 := if ok then ys ++ [x (PacketGenerator.packet_creator_ g)] else []).
  assert (midway c0 xs (acc ++ if ok then [x (PacketGenerator.packet_creator_ g)] else []) id off d ys1 (PacketGenerator.packet_creator_ g2)) as Hm2.
  { rewrite Hc2. unfold ys1. rewrite <- Hc1. destruct ok; [exact Hok|]. rewrite app_nil_r. apply Hok. }
  assert (number_of c1 + Z.of_nat (length (waiting g2) + open_one ys1) <=
    number_of (PacketGenerator.packet_creator_ g) + Z.of_nat (length (x :: rest) + open_one ys)) as Hle.
  { rewrite Hc1 in Hn1. rewrite Hw2. unfold ys1. destruct ok; cbn [length] in *.
    - destruct ys; cbn; lia.
    - destruct Hok as [Hne _]. destruct ys; [done|]. cbn. lia. }
  destruct (IH g2 _ ys1 Hm2) as (g' & E2 & Hs2).
  - rewrite Hw2. destruct ok; [done|]. by constructor.
  - rewrite Hw2. unfold ys1. destruct ok; cbn [length] in *.
    + destruct ys; cbn; lia.
    + destruct Hok as [Hne _]. destruct ys; [done|]. cbn in *. lia.
  - rewrite Hc2. lia.
  - exists g'. split; [exact E2|]. apply (sent_step flush fuel acc ys g g1 x rest ok ys1 c1 g2 g'); try done; [|by rewrite Hw].
    intros n Ha. by apply Hag.
Qed.

Lemma turns_waiting g : PacketGenerator.turns g = (2 * length (waiting g))%nat.
Proof.
  unfold PacketGenerator.turns, waiting. rewrite !length_app, length_fmap, length_reverse.
  destruct (PacketGenerator.should_send_ack_ g), (PacketGenerator.should_send_stop_waiting_ g); cbn [length]; lia.
Qed.

(** [SendQueuedFrames]: with [flush], nothing waits and no packet is open. *)
Lemma queue_sent flush g acc ys : midway c0 xs acc id off d ys (PacketGenerator.packet_creator_ g) ->
  Forall (offered c0) (waiting g) -> number_of (PacketGenerator.packet_creator_ g) + Z.of_nat (length (waiting g)) + 2 < 2 ^ 62 ->
  exists sources accs ys' g', PacketGenerator.SendQueuedFrames GetUpdatedAckFrame least_unacked flush g = Ret tt g' /\
    waiting g = sources ++ waiting g' /\ made c0 sources accs /\
    midway c0 xs (acc ++ accs) id off d ys' (PacketGenerator.packet_creator_ g') /\
    number_of (PacketGenerator.packet_creator_ g') <=
      number_of (PacketGenerator.packet_creator_ g) + Z.of_nat (length (waiting g)) + (if flush then 2 else 1) /\
    (flush = true -> waiting g' = [] /\ ys' = []) /\
    (forall n, agrees (2 * length (waiting g) + n) g -> waiting g' = [] /\ agrees n g').
Proof.
  intros Hm Ho Hn. assert (forall l, (open_one l <= 1)%nat) as Hone by (intros []; cbn; lia).
  destruct (send_loop_run flush (PacketGenerator.turns g) g acc ys Hm Ho) as (g1 & E1 & sources & accs & ys1 & S1 & S2 & S3 & S4 & S5 & S6);
    [rewrite turns_waiting; specialize (Hone ys); lia|specialize (Hone ys); lia|].
  rewrite turns_waiting in S6. unfold PacketGenerator.SendQueuedFrames, mbind, M_bind, get. rewrite E1. pose proof (Hone ys) as Hy.
  destruct flush; cbn [andb when].
  - specialize (S5 eq_refl). assert (number_of (PacketGenerator.packet_creator_ g1) <=
      number_of (PacketGenerator.packet_creator_ g) + Z.of_nat (length (waiting g)) + 1) as Hn1 by lia.
    destruct (midway_flush _ _ _ _ _ _ _ _ S3) as (c' & Ef & Hm' & Hn'); [lia|].
    exists sources, accs, [], (PacketGenerator.with_creator g1 c'). split; [by apply creator_run|].
    split_and!; try done. cbn [PacketGenerator.packet_creator_ PacketGenerator.with_creator]. lia.
  - exists sources, accs, ys1, g1. split_and!; try done. lia.
Qed.
End Sending.
End Queue.
