(* ===== verification/PacketWrites.v ===== *)
(** Writing stream data through the packet generator: the acks and control frames
    that wait go first, then the data in stream frames in order and without gaps, in
    as many packets as it takes, on the slow and on the fast path. *)

From S2P Require Import Prelude World QuicData Wire IntervalSet Intervals Crypter PacketNumberQueue PacketNumbers.
From S2P Require Import Framer FrameWriter FrameReader FrameWire AckWire FrameBuild FrameRead AckRead FrameData Handshake.
From S2P Require Import SendBuffer Sending PacketFramer PacketNumberWire SessionProducer PacketTrip PacketCreator PacketFilling PacketCourses.
From S2P Require Import PacketGenerator PacketQueue.
Import Serialized (SerializedPacket) PacketCreator.

(** ** The loops of the generator *)

Section Loops.
Context {P E D : Type} `{HS : Supplier P} `{HSe : Sealer E} `{!Decrypter D, !FramerVisitor}.
Implicit Types c : Creator P E D.
Implicit Types g : PacketGenerator.Generator P E D.
Context (GetUpdatedAckFrame : Creator P E D -> QuicAckFrame) (least_unacked : Creator P E D -> Z) (single_packet_chlo : bool).

(** A write on stream [id] from offset [off0], which begins with the creator [c0]
    and the open packet [xs]. *)
Context (c0 : Creator P E D) (xs : list QuicFrame) (id off0 : Z) (fin : bool).
Context (Hlevel : level_of c0 <> ENCRYPTION_NONE) (Hroomy : roomy c0) (Hid : u32 id) (Hdata : id <> kCryptoStreamId) (Hoff : 0 <= off0).
Context (Hpending : pending_padding_bytes_ c0 + kMaxNumRandomPaddingBytes < 2 ^ 15).

(** [k] bytes are consumed, the [d] bytes are left. *)
Definition amidst (k : Z) (d : list Z) (acc ys : list QuicFrame) c : Prop :=
  midway c0 xs acc id (off0 + k) d ys c /\ 0 <= k /\ off0 + k + Z.of_nat (length d) < 2 ^ 64 /\
  number_of c + Z.of_nat (length d) + 1 < 2 ^ 62.

Definition sum_of (cuts : list nat) : Z := Z.of_nat (sum_list cuts).

Lemma sum_of_cons n cuts : sum_of (n :: cuts) = Z.of_nat n + sum_of cuts.
Proof. apply (Nat2Z.inj_add n (sum_list cuts)). Qed.

Lemma pieces_cons n cuts k d (acc : list QuicFrame) :
  acc ++ pieces_by (n :: cuts) id (off0 + k) d fin =
  (acc ++ [STREAM_FRAME (piece id (off0 + k) (take n d) (fin && (n =? length d)%nat))]) ++
    pieces_by cuts id (off0 + (k + Z.of_nat n)) (drop n d) fin.
Proof. cbn [pieces_by]. by rewrite <- app_assoc, Z.add_assoc. Qed.

Lemma fast_path_run : forall fuel k d acc g, amidst k d acc [] (PacketGenerator.packet_creator_ g) -> (length d <= fuel)%nat ->
  exists cuts g', PacketGenerator.ConsumeDataFastPath fuel id (k + Z.of_nat (length d)) off0 fin k g =
      Ret (k + sum_of cuts, fin && (k + sum_of cuts =? k + Z.of_nat (length d))) g' /\ (sum_list cuts <= length d)%nat /\
    advances xs c0 (acc ++ pieces_by cuts id (off0 + k) d fin) [] (PacketGenerator.packet_creator_ g') /\
    (agrees (length d) g -> sum_list cuts = length d).
Proof.
  induction fuel as [|fuel IH]; intros k d acc g (Hm & Hk & Hb & Hn) Hf.
  { destruct d; [|cbn in Hf; lia]. exists [], g. unfold sum_of. cbn [sum_list length pieces_by PacketGenerator.ConsumeDataFastPath].
    rewrite !Z.add_0_r, Z.ltb_irrefl, app_nil_r. unfold mbind, M_bind, mret, M_ret. split_and!; [done|lia|apply Hm|done]. }
  cbn [PacketGenerator.ConsumeDataFastPath]. unfold mbind at 1, M_bind at 1. destruct (decide (d = [])) as [->|Hd].
  { exists [], g. unfold sum_of. cbn [sum_list length pieces_by]. rewrite !Z.add_0_r, Z.ltb_irrefl, app_nil_r.
    unfold mret, M_ret. split_and!; [done|lia|apply Hm|done]. }
  assert (0 < length d)%nat as Hpos by (destruct d; [done|cbn; lia]). rewrite (proj2 (Z.ltb_lt k _)) by lia.
  destruct (asked true false g) as (b & g1 & -> & Hg1 & Hag). destruct b.
  2: { exists [], g1. unfold sum_of. cbn [sum_list pieces_by]. rewrite !Z.add_0_r, app_nil_r, Hg1. split; [done|]. split; [lia|].
       split; [apply Hm|]. intros Ha. destruct (length d) as [|m]; [lia|]. by destruct (Hag m Ha). }
  rewrite <- Hg1 in Hm, Hn. rewrite (uint64_small (off0 + k)) by lia.
  destruct (midway_fast c0 xs acc id k (off0 + k) d (PacketGenerator.packet_creator_ g1) fin Hm Hlevel Hroomy Hid) as (n & c' & E1 & Hn1 & Hm' & Hn');
    [unfold u64; lia|lia|done|done|lia|].
  unfold mbind, M_bind. rewrite (creator_run _ _ _ _ E1). change (default 0 (Some (Z.of_nat n))) with (Z.of_nat n). rewrite (uint64_small (k + Z.of_nat n)) by lia.
  destruct (IH (k + Z.of_nat n) (drop n d) (acc ++ [STREAM_FRAME (piece id (off0 + k) (take n d) (fin && (n =? length d)%nat))]) (PacketGenerator.with_creator g1 c')) as (cuts & g' & E2 & Hs & Hadv & Hall).
  { split; [rewrite Z.add_assoc; exact Hm'|]. cbn [PacketGenerator.packet_creator_ PacketGenerator.with_creator]. rewrite Hn', length_drop. lia. }
  { rewrite length_drop. lia. }
  rewrite length_drop in *. replace (k + Z.of_nat n + Z.of_nat (length d - n)) with (k + Z.of_nat (length d)) in E2 by lia.
  exists (n :: cuts), g'. assert (k + sum_of (n :: cuts) = k + Z.of_nat n + sum_of cuts) as -> by (rewrite sum_of_cons; lia).
  split; [exact E2|]. split; [change (n + sum_list cuts <= length d)%nat; lia|]. split; [rewrite pieces_cons; exact Hadv|]. intros Ha. change (n + sum_list cuts = length d)%nat.
  destruct (length d) as [|m] eqn:El; [lia|]. destruct (Hag m Ha) as [_ Ha']. rewrite Hall; [lia|].
  apply (agrees_le _ m); [lia|]. exact Ha'.
Qed.

(** Random padding changes no frame. *)
Lemma random_padding k d acc ys g : amidst k d acc ys (PacketGenerator.packet_creator_ g) ->
  exists g', PacketGenerator.AddRandomPadding g = Ret tt g' /\ advances xs c0 acc ys (PacketGenerator.packet_creator_ g').
Proof.
  intros [[Ha Hs _] _]. destruct (advances_end _ _ _ _ _ Ha) as [Hfi _]. pose proof (se_pending _ (fi_settled _ _ Hfi)) as Hp.
  destruct Hs as (_ & _ & _ & _ & Hle). assert (kMaxNumRandomPaddingBytes = 256) as Hmax by done.
  assert (exists r g1, PacketGenerator.RandUint64 g = Ret r g1 /\ PacketGenerator.packet_creator_ g1 = PacketGenerator.packet_creator_ g) as
    (r & g1 & Er & Hg1).
  { unfold PacketGenerator.RandUint64, mbind, M_bind, get, modify. destruct (PacketGenerator.randoms g); by eexists _, _. }
  unfold PacketGenerator.AddRandomPadding, mbind, M_bind. rewrite Er. eexists. split; [reflexivity|].
  unfold PacketGenerator.creator_lens. cbn [view put PacketGenerator.packet_creator_ PacketGenerator.with_creator]. rewrite Hg1.
  pose proof (Z.mod_pos_bound r kMaxNumRandomPaddingBytes ltac:(done)) as Hr. unfold AddPendingPadding.
  apply advances_padding; [exact Ha|]. rewrite uint64_small; lia.
Qed.

(** What the loop of [ConsumeData] leaves behind. *)
Definition loop_result (k : Z) (d : list Z) (acc : list QuicFrame) g (r : PacketGenerator.loop_end) (cuts : list nat) g' : Prop :=
  let acc' := acc ++ pieces_by cuts id (off0 + k) d fin in
  match r with
  | PacketGenerator.Failed => False
  | PacketGenerator.Fast t =>
      t = k + sum_of cuts /\ d <> [] /\ amidst t (drop (sum_list cuts) d) acc' [] (PacketGenerator.packet_creator_ g') /\
      (agrees (S (length d)) g -> agrees (length d - sum_list cuts) g')
  | PacketGenerator.Done t f =>
      t = k + sum_of cuts /\ f = fin && negb (bool_decide (cuts = [])) && (sum_list cuts =? length d)%nat /\
      (exists ys', advances xs c0 acc' ys' (PacketGenerator.packet_creator_ g')) /\
      (agrees (S (length d)) g -> sum_list cuts = length d /\ cuts <> [])
  end.

(** Nothing was taken. *)
Lemma loop_refused k d acc ys g g' : amidst k d acc ys (PacketGenerator.packet_creator_ g') -> ~ agrees (S (length d)) g ->
  loop_result k d acc g (PacketGenerator.Done k false) [] g'.
Proof.
  intros [[Ha _ _] _] Hno. unfold loop_result, sum_of. cbn [sum_list pieces_by]. rewrite app_nil_r. split; [lia|].
  split; [by rewrite andb_false_r|]. split; [by exists ys|done].
Qed.

(** The first frame of a loop, and the rest. *)
Lemma loop_cons n k d acc g g1 r cuts g' : (n < length d)%nat -> (0 < n)%nat -> (agrees (S (length d)) g -> agrees (length d) g1) ->
  (sum_list cuts <= length (drop n d))%nat ->
  loop_result (k + Z.of_nat n) (drop n d) (acc ++ [STREAM_FRAME (piece id (off0 + k) (take n d) (fin && (n =? length d)%nat))]) g1 r cuts g' ->
  loop_result k d acc g r (n :: cuts) g'.
Proof.
  intros Hn Hpos Hag Hs Hr. assert (sum_list (n :: cuts) = n + sum_list cuts)%nat as Hsum by done.
  unfold loop_result in *. rewrite pieces_cons, sum_of_cons, Hsum. rewrite length_drop in *. destruct r as [|t|t f]; [done|..].
  - destruct Hr as (-> & Hd & Ham & Hal). split; [lia|]. split; [intros ->; cbn in Hn; lia|]. rewrite <- drop_drop. split; [exact Ham|].
    intros Ha. replace (length d - (n + sum_list cuts))%nat with (length d - n - sum_list cuts)%nat by lia. apply Hal.
    apply (agrees_le _ (length d)); [lia|auto].
  - destruct Hr as (-> & -> & Hadv & Hal). split; [lia|]. split; [|split; [exact Hadv|]].
    + rewrite (bool_decide_eq_false_2 (n :: cuts = [])) by done. destruct fin; [|done]. cbn [negb andb].
      destruct (Nat.eqb_spec (sum_list cuts) (length d - n)), (Nat.eqb_spec (n + sum_list cuts) (length d)); try lia.
      rewrite (bool_decide_eq_false_2 (cuts = [])); [done|]. intros ->. cbn in *. lia.
    + intros Ha. destruct Hal as [H1 H2]; [|split; [lia|done]]. apply (agrees_le _ (length d)); [lia|auto].
Qed.

(** The last frame of a loop. *)
Lemma loop_last k d acc g g' : (exists ys', advances xs c0 (acc ++ [STREAM_FRAME (piece id (off0 + k) d fin)]) ys' (PacketGenerator.packet_creator_ g')) ->
  loop_result k d acc g (PacketGenerator.Done (k + Z.of_nat (length d)) (fin && true)) [length d] g'.
Proof.
  intros Hadv. unfold loop_result, sum_of. cbn [pieces_by]. rewrite take_ge, Nat.eqb_refl by done.
  assert (sum_list [length d] = length d) as -> by apply Nat.add_0_r. rewrite Nat.eqb_refl, !andb_true_r.
  split; [done|]. split; [done|]. split; [exact Hadv|done].
Qed.

Lemma loop_run state : bool_decide (state <> NO_FIN) = fin -> forall fuel k d acc ys g fast,
  amidst k d acc ys (PacketGenerator.packet_creator_ g) -> (length d < fuel)%nat -> d <> [] \/ fin = true ->
  (if fast : bool then ys = [] /\ d <> []
   else GetMinStreamFrameSize (transport_version_of (PacketGenerator.packet_creator_ g)) id (off0 + k) true <
        free ys (PacketGenerator.packet_creator_ g)) ->
  exists r cuts g',
    PacketGenerator.consume_loop single_packet_chlo fuel id (k + Z.of_nat (length d)) off0 state fast k false g = Ret r g' /\
    (sum_list cuts <= length d)%nat /\ loop_result k d acc g r cuts g'.
Proof.
  intros Hfin. induction fuel as [|fuel IH]; intros k d acc ys g fast Ham Hf Hd Hfast; [lia|].
  destruct fast.
  { destruct Hfast as [-> Hd']. exists (PacketGenerator.Fast k), [], g. split; [done|]. split; [cbn; lia|].
    unfold loop_result, sum_of. cbn [sum_list_with pieces_by]. rewrite app_nil_r, drop_0. split; [lia|]. split; [done|]. split; [exact Ham|].
    intros Ha. apply (agrees_le _ (S (length d))); [lia|done]. }
  cbn [PacketGenerator.consume_loop]. unfold mbind at 1, M_bind at 1. destruct (asked true (id =? kCryptoStreamId) g) as (b & g1 & -> & Hg1 & Hag).
  rewrite <- Hg1 in Ham, Hfast. destruct b.
  2: { exists (PacketGenerator.Done k false), [], g1. split; [done|]. split; [cbn; lia|]. eapply loop_refused; [exact Ham|].
       intros Ha. by destruct (Hag _ Ha). }
  pose proof Ham as (Hm & Hk & Hb & Hn). rewrite Hfin, (uint64_small (off0 + k)), (proj2 (Z.eqb_neq _ _) Hdata) by lia.
  destruct (midway_consume single_packet_chlo c0 xs acc id k (off0 + k) d ys (PacketGenerator.packet_creator_ g1) fin Hm Hlevel Hid) as
    (n & c' & E1 & Hn1 & Hn2 & Hn3 & Hm' & Hn'); [unfold u64; lia|lia|done|done|lia|exact Hfast|].
  unfold mbind at 1, M_bind at 1. rewrite (creator_run _ _ _ _ E1). cbn [data_length stream_frame]. unfold uint16. rewrite wrap_u_small by lia.
  rewrite (uint64_small (k + Z.of_nat n)) by lia. set (g2 := PacketGenerator.with_creator g1 c').
  assert (amidst (k + Z.of_nat n) (drop n d) (acc ++ [STREAM_FRAME (piece id (off0 + k) (take n d) (fin && (n =? length d)%nat))])
    (ys ++ [STREAM_FRAME (piece id (off0 + k) (take n d) (fin && (n =? length d)%nat))]) (PacketGenerator.packet_creator_ g2)) as Ham2.
  { split; [rewrite Z.add_assoc; exact Hm'|]. cbn [PacketGenerator.packet_creator_ PacketGenerator.with_creator g2]. rewrite Hn', length_drop. lia. }
  destruct (Z.eqb_spec (k + Z.of_nat n) (k + Z.of_nat (length d))) as [He|He].
  - assert (n = length d) as -> by lia. clear He. rewrite take_ge, Nat.eqb_refl, andb_true_r in Ham2 by done.
    exists (PacketGenerator.Done (k + Z.of_nat (length d)) (fin && true)), [length d].
    destruct (fin && true && bool_decide (state = FIN_AND_PADDING)) eqn:Epad; cbn [when]; unfold mbind, M_bind.
    + destruct (random_padding _ _ _ _ _ Ham2) as (g' & Er & Hadv). rewrite Er. exists g'. split; [done|]. split; [cbn; lia|].
      apply (loop_last k d acc). by eexists.
    + exists g2. split; [done|]. split; [cbn; lia|]. apply (loop_last k d acc). eexists. exact (mi_advances _ _ _ _ _ _ _ _ (proj1 Ham2)).
  - rewrite andb_false_r. cbn [andb when]. unfold mbind, M_bind, mret, M_ret. destruct Ham2 as (Hm2 & Hk2 & Hb2 & Hnum2).
    rewrite length_drop in Hb2, Hnum2. destruct (midway_flush _ _ _ _ _ _ _ _ Hm2) as (c3 & Ef & Hm3 & Hn3'); [lia|].
    rewrite (creator_run _ _ _ _ Ef). unfold get. set (g3 := PacketGenerator.with_creator g2 c3).
    assert (d <> []) as Hd0 by (intros ->; cbn in He, Hn1; lia). specialize (Hn3 Hd0).
    assert (drop n d <> []) as Hdrop by (intros Hnil; apply (f_equal length) in Hnil; rewrite length_drop in Hnil; cbn in Hnil; lia).
    destruct (IH (k + Z.of_nat n) (drop n d) (acc ++ [STREAM_FRAME (piece id (off0 + k) (take n d) (fin && (n =? length d)%nat))]) [] g3
      (PacketGenerator.fast_path id (k + Z.of_nat (length d)) (k + Z.of_nat n) state g3)) as (r & cuts & g' & E2 & Hs2 & Hr2).
    + split; [exact Hm3|]. cbn [PacketGenerator.packet_creator_ PacketGenerator.with_creator g3]. rewrite length_drop.
      cbn [PacketGenerator.packet_creator_ PacketGenerator.with_creator g2] in *. lia.
    + rewrite length_drop. lia.
    + by left.
    + destruct (PacketGenerator.fast_path _ _ _ _ _); [done|]. apply (midway_room _ _ _ _ _ _ _ Hm3 Hroomy Hid). unfold u64. lia.
    + rewrite length_drop in E2. replace (k + Z.of_nat n + Z.of_nat (length d - n)) with (k + Z.of_nat (length d)) in E2 by lia.
      exists r, (n :: cuts), g'. split; [exact E2|]. split; [rewrite length_drop in Hs2; change (n + sum_list cuts <= length d)%nat; lia|].
      apply (loop_cons n k d acc g g3); try done; [lia|]. intros Ha. exact (proj2 (Hag _ Ha)).
Qed.
End Loops.

(** ** Writes *)

Section Consume.
Context {P E D : Type} `{HS : Supplier P} `{HSe : Sealer E} `{!Decrypter D, !FramerVisitor}.
Implicit Types c : Creator P E D.
Implicit Types g : PacketGenerator.Generator P E D.
Context (GetUpdatedAckFrame : Creator P E D -> QuicAckFrame) (least_unacked : Creator P E D -> Z) (single_packet_chlo : bool).

(** A stream has the data [d] from offset [off]; the frames that wait can be sent. *)
Record writable (xs : list QuicFrame) (id off : Z) (d : list Z) g (c := PacketGenerator.packet_creator_ g)
    (first := waiting GetUpdatedAckFrame least_unacked g) : Prop := {
  wr_filling : filling xs c;
  wr_keeps : keeps xs (packet_ c);
  wr_waiting : Forall (offered c) first;
  wr_roomy : roomy c;
  wr_level : level_of c <> ENCRYPTION_NONE;
  wr_id : u32 id /\ id <> kCryptoStreamId;
  wr_offset : 0 <= off /\ off + Z.of_nat (length d) < 2 ^ 64;
  wr_number : number_of c + Z.of_nat (length first) + Z.of_nat (length d) + 3 < 2 ^ 62;
  wr_pending : pending_padding_bytes_ c + kMaxNumRandomPaddingBytes < 2 ^ 15;
  wr_data : exists p, producer_ c = Some p /\ stocked p xs id off d
}.

(** The open packet goes out first if it has no room. *)
Lemma room_made c0 xs acc id off d ys g (c := PacketGenerator.packet_creator_ g) : midway c0 xs acc id off d ys c -> roomy c0 ->
  u32 id -> u64 off -> number_of c + 1 < 2 ^ 62 ->
  exists ys' g1, (room ← PacketGenerator.cr (HasRoomForStreamFrame id off); when (negb room) (PacketGenerator.cr PacketCreator.Flush)) g = Ret tt g1 /\
    midway c0 xs acc id off d ys' (PacketGenerator.packet_creator_ g1) /\
    GetMinStreamFrameSize (transport_version_of (PacketGenerator.packet_creator_ g1)) id off true < free ys' (PacketGenerator.packet_creator_ g1) /\
    number_of (PacketGenerator.packet_creator_ g1) <= number_of c + 1 /\ PacketGenerator.answers g1 = PacketGenerator.answers g.
Proof.
  intros Hm Hr0 Hid Ho Hn. pose proof (mi_advances _ _ _ _ _ _ _ _ Hm) as Ha. destruct (advances_end _ _ _ _ _ Ha) as [Hfi Hk].
  pose proof (midway_resized _ _ _ _ _ _ _ _ Hm) as Hm'. unfold mbind, M_bind.
  assert (HasRoomForStreamFrame id off c = Ret (free ys c >? GetMinStreamFrameSize (transport_version_of c) id off true) (resized ys c)) as Er.
  { unfold HasRoomForStreamFrame, mbind, M_bind. by rewrite (free_bytes ys c Hfi). }
  rewrite (creator_run _ _ _ _ Er). destruct (Z.gtb_spec (free ys c) (GetMinStreamFrameSize (transport_version_of c) id off true)) as [Hr|Hr]; cbn [negb when].
  - exists ys. eexists. split; [reflexivity|]. split; [exact Hm'|]. split; [exact Hr|]. split; [|done]. change (number_of c <= number_of c + 1). lia.
  - destruct (midway_flush _ _ _ _ _ _ _ _ Hm' Hn) as (c1 & Ef & Hm1 & Hn1).
    exists []. eexists. split; [exact (creator_run Flush tt c1 (PacketGenerator.with_creator g (resized ys c)) Ef)|].
    split; [exact Hm1|]. split; [|done]. exact (midway_room _ _ _ _ _ _ _ Hm1 Hr0 Hid Ho).
Qed.

(** The fast path is taken with an empty packet only. *)
Lemma fast_when_empty id n state ys g : filling ys (PacketGenerator.packet_creator_ g) ->
  PacketGenerator.fast_path id n 0 state g = true -> ys = [] /\ n <> 0.
Proof.
  intros Hfi Ef. unfold PacketGenerator.fast_path in Ef. rewrite !andb_true_iff in Ef. destruct Ef as [[_ Hq] Hl]. split.
  - unfold PacketGenerator.HasQueuedFrames, PacketCreator.HasPendingFrames in Hq. rewrite (fi_queue _ _ Hfi) in Hq. by destruct ys.
  - by intros ->.
Qed.

(** The whole write: the waiting frames and the pieces that were taken, and what is
    reported. *)
Lemma write_consumed xs id off d state g (c := PacketGenerator.packet_creator_ g) (fin := bool_decide (state <> NO_FIN))
    (first := waiting GetUpdatedAckFrame least_unacked) : writable xs id off d g ->
  exists sources accs cuts ys g',
    PacketGenerator.ConsumeData GetUpdatedAckFrame least_unacked single_packet_chlo id (Z.of_nat (length d)) off state g =
      Ret (sum_of cuts, fin && negb (bool_decide (cuts = [])) && (sum_list cuts =? length d)%nat) g' /\ (sum_list cuts <= length d)%nat /\
    sources `prefix_of` first g /\ made c sources accs /\
    advances xs c (accs ++ pieces_by cuts id off d fin) ys (PacketGenerator.packet_creator_ g') /\
    (d <> [] \/ fin = true -> agrees (2 * length (first g) + S (length d)) g -> sources = first g /\ sum_list cuts = length d /\ cuts <> []).
Proof.
  intros [W1 W2 W3 W4 W5 [W6 W6'] W7 W8 W9 W10]. fold c in W1, W2, W3, W4, W5, W8, W9, W10.
  assert (midway c xs [] id off d xs c) as Hm0.
  { split; [|by repeat split|done]. rewrite <- (app_nil_r xs) at 2. by apply advances_quietly. }
  destruct (queue_sent GetUpdatedAckFrame least_unacked c xs id off d false g [] xs Hm0 W3) as (sources & accs & ys0 & g0 & E0 & S1 & S2 & S3 & S4 & _ & S6);
    [change (PacketGenerator.packet_creator_ g) with c; lia|]. change (PacketGenerator.packet_creator_ g) with c in S4. cbn [app] in S3.
  destruct (room_made c xs accs id off d ys0 g0 S3 W4 W6) as (ys & g1 & E1 & Hm1 & Hfree & Hn1 & Hans); [unfold u64; lia|lia|].
  assert (amidst c xs id off 0 d accs ys (PacketGenerator.packet_creator_ g1)) as Ham by (split; [by rewrite Z.add_0_r|lia]).
  exists sources, accs. assert (sources `prefix_of` first g) as Hpre by (by exists (first g0)).
  assert (forall n, agrees (2 * length (first g) + n) g -> sources = first g /\ agrees n g1) as Hag.
  { intros n Ha. destruct (S6 n Ha) as [Hnil [l Hl]]. split; [|exists l; by rewrite Hans]. unfold first. rewrite S1, Hnil. by rewrite app_nil_r. }
  unfold PacketGenerator.ConsumeData. rewrite (proj2 (Z.eqb_neq _ _) W6'). cbn [andb]. unfold mbind, M_bind, get. rewrite E0.
  unfold mbind, M_bind in E1. destruct (PacketGenerator.cr (HasRoomForStreamFrame id off) g0) as [room g00|]; [|discriminate]. rewrite E1.
  destruct (negb (bool_decide (state <> NO_FIN)) && (Z.of_nat (length d) =? 0)) eqn:Enil.
  { exists [], ys, g1. apply andb_true_iff in Enil as [Hf Hz]. fold fin in Hf. apply negb_true_iff in Hf. apply Z.eqb_eq in Hz.
    assert (d = []) as -> by (by destruct d). rewrite Hf. split; [done|]. split; [done|]. split; [done|]. split; [done|]. cbn [pieces_by]. rewrite app_nil_r.
    split; [apply Ham|]. by intros [? |?]. }
  assert (d <> [] \/ fin = true) as Hd.
  { destruct fin eqn:Ef; [by right|]. left. intros ->. unfold fin in Ef. rewrite Ef in Enil. done. }
  assert (if PacketGenerator.fast_path id (Z.of_nat (length d)) 0 state g1 then ys = [] /\ d <> [] else
    GetMinStreamFrameSize (transport_version_of (PacketGenerator.packet_creator_ g1)) id (off + 0) true < free ys (PacketGenerator.packet_creator_ g1)) as Hfast.
  { destruct (PacketGenerator.fast_path _ _ _ _ _) eqn:Ef; [|by rewrite Z.add_0_r]. destruct Ham as [[Ha _ _] _].
    destruct (fast_when_empty _ _ _ ys g1 (proj1 (advances_end _ _ _ _ _ Ha)) Ef) as [-> Hl]. split; [done|]. by intros ->. }
  destruct (loop_run single_packet_chlo c xs id off fin W5 W4 W6 W6' (proj1 W7) W9 state eq_refl (S (Z.to_nat (Z.of_nat (length d)))) 0 d accs ys g1
    (PacketGenerator.fast_path id (Z.of_nat (length d)) 0 state g1) Ham) as (r & cuts & g2 & E2 & Hs & Hr); [lia|done|exact Hfast|].
  rewrite Z.add_0_l in E2. rewrite E2. unfold loop_result in Hr. rewrite !Z.add_0_l, Z.add_0_r in Hr.
  destruct r as [|t|t f]; [done|..].
  - destruct Hr as (-> & Hd0 & Ham2 & Hal). fold fin.
    destruct (fast_path_run c xs id off fin W5 W4 W6 W6' (proj1 W7) (Z.to_nat (Z.of_nat (length d))) (sum_of cuts) (drop (sum_list cuts) d) _ g2 Ham2) as
      (cuts2 & g' & E3 & Hs2 & Hadv & Hall); [rewrite length_drop; lia|]. rewrite length_drop in *.
    replace (sum_of cuts + Z.of_nat (length d - sum_list cuts)) with (Z.of_nat (length d)) in E3 by (unfold sum_of; lia).
    assert (sum_list (cuts ++ cuts2) = sum_list cuts + sum_list cuts2)%nat as Hsum by apply sum_list_with_app.
    exists (cuts ++ cuts2), [], g'. rewrite E3. split; [|split; [lia|split; [done|split; [done|split]]]].
    + assert (0 < length d)%nat as Hpos by (destruct d; [done|cbn; lia]). unfold sum_of. rewrite Hsum. do 2 f_equal; [lia|]. destruct fin; [|done]. cbn [andb].
      destruct (Z.eqb_spec (Z.of_nat (sum_list cuts) + Z.of_nat (sum_list cuts2)) (Z.of_nat (length d))), (Nat.eqb_spec (sum_list cuts + sum_list cuts2) (length d));
        try lia. rewrite bool_decide_eq_false_2; [done|]. intros Hnil. rewrite Hnil in Hsum. cbn in Hsum. lia.
    + rewrite pieces_app, app_assoc. exact Hadv.
    + intros _ Ha. destruct (Hag _ Ha) as [Hsrc Ha1]. assert (sum_list cuts2 = length d - sum_list cuts)%nat as Hs2' by (apply Hall, Hal, Ha1).
      split; [done|]. split; [lia|]. intros Hnil. rewrite Hnil in Hsum. cbn in Hsum. apply Hd0. destruct d; [done|cbn in *; lia].
  - destruct Hr as (-> & -> & (ys' & Hadv) & Hal). exists cuts, ys', g2. split; [done|]. split; [done|]. split; [done|].
    split; [done|]. split; [exact Hadv|]. intros _ Ha. destruct (Hag _ Ha) as [Hsrc Ha1]. split; [done|by apply Hal].
Qed.
End Consume.

(** ** Data of a session *)

(** What a stream has saved and not yet put into a packet can be written, however
    it is cut. *)
Lemma pieces_from_buffer id : forall cuts A a, A !! id = Some a -> 0 <= framed a -> (forall x, x ∈ acked a -> x < framed a) ->
  (sum_list cuts <= length (drop (Z.to_nat (framed a)) (saved a)))%nat ->
  pieces_ready A (concat (requests <$> pieces_by cuts id (framed a) (drop (Z.to_nat (framed a)) (saved a)) false)).
Proof.
  induction cuts as [|n cuts IH]; intros A a Ha Hf Hk Hs; [exact I|]. change (n + sum_list cuts <= length (drop (Z.to_nat (framed a)) (saved a)))%nat in Hs.
  cbn [pieces_by]. rewrite fmap_cons. cbn [concat requests]. set (d := drop (Z.to_nat (framed a)) (saved a)) in *.
  change (content (piece id (framed a) (take n d) _)) with (take n d). assert (length (take n d) = n) as Hl by (rewrite length_take; lia).
  destruct (decide (take n d = [])) as [Hnil|Hne].
  { assert (n = 0)%nat as -> by (rewrite Hnil in Hl; done). rewrite Z.add_0_r, drop_0. cbn [app]. apply IH; try done. }
  assert (0 < n)%nat as Hn by (destruct n; [done|lia]). pose proof (length_drop (saved a) (Z.to_nat (framed a))) as Hld. fold d in Hld.
  cbn [app pieces_ready piece stream_id offset]. unfold len. rewrite Hl. exists a. split; [done|]. split; [|split].
  - unfold may_write, len. split_and!; [done|lia|lia|by left|]. intros x Hx1 Hx2. specialize (Hk x Hx2). apply elem_of_range in Hx1. lia.
  - unfold bytes. by rewrite Nat2Z.id.
  - set (a' := put_in_packet (framed a) (Z.of_nat n) a). assert (framed a' = framed a + Z.of_nat n) as Hfa by (cbn; lia).
    assert (drop n d = drop (Z.to_nat (framed a')) (saved a')) as Hdd.
    { rewrite Hfa. change (saved a') with (saved a). unfold d. rewrite drop_drop. f_equal. lia. }
    rewrite <- Hfa, Hdd. apply IH; [by rewrite lookup_insert_eq|lia| |].
    + intros x Hx. specialize (Hk x Hx). lia.
    + rewrite <- Hdd, length_drop. lia.
Qed.

Lemma session_stocked s A id a xs : stand_for A s -> A !! id = Some a -> 0 <= framed a -> (forall x, x ∈ acked a -> x < framed a) ->
  concat (requests <$> xs) = [] -> stocked s xs id (framed a) (drop (Z.to_nat (framed a)) (saved a)).
Proof.
  intros Hs Ha Hf Hk Hx cuts Hc. exists A. split; [done|]. rewrite fmap_app, concat_app, Hx. by apply pieces_from_buffer.
Qed.

Section Peer.
Context {P E D : Type} `{HS : Supplier P} `{HSe : Sealer E} `{!Decrypter D, !FramerVisitor}.
Context `{HC : !Channel E D, HV : !VersionVisitor}.
Implicit Types g : PacketGenerator.Generator P E D.

(** The packets [out] were handed over between [c] and [c'], and [still] is in the
    open packet. *)
Definition handed_over (c c' : Creator P E D) (out : list (list QuicFrame * SerializedPacket)) (still : list QuicFrame) : Prop :=
  calls c' = calls c ++ (OnSerializedPacket ∘ snd <$> out) /\ queued_frames_ c' = hand_over true <$> still /\
  (forall i o, out !! i = Some o -> Serialized.packet_number o.2 = number_of c + Z.of_nat i + 1) /\
  Forall (fun o => keeps o.1 o.2 /\ read_by_peer c o.1 o.2) out.

Lemma advances_handed xs c acc ys c' : advances xs c acc ys c' -> exists out, handed_over c c' out ys /\ concat out.*1 ++ ys = xs ++ acc.
Proof.
  intros (out & A1 & A2 & A3 & A4 & A5 & A6 & A7 & A8 & A9). exists out. split; [|done]. split; [done|]. split; [apply A7|]. split; [done|].
  apply Forall_and. split; [done|]. eapply Forall_impl; [exact A2|]. intros o. apply carried_is_read.
Qed.

(** C6: A write of a data stream through the packet generator ends: the acks and control
    frames that wait go first, then the data in stream frames from the offset of the write
    on, in order and without gaps, on the slow and on the fast path; what is reported as
    consumed is the length of the pieces that were taken and the FIN exactly if it went with
    the last; the packets handed over are numbered consecutively, hold these frames in order
    and are read by the peer as they are; as long as the delegate agrees nothing of the
    write is left. *)
Theorem a_write_is_packed_in_order ack least_unacked single_packet_chlo xs id off d state g :
  let c := PacketGenerator.packet_creator_ g in
  let fin := bool_decide (state <> NO_FIN) in
  let first := waiting ack least_unacked g in
  writable ack least_unacked xs id off d g ->
  terminates_in (PacketGenerator.ConsumeData ack least_unacked single_packet_chlo id (Z.of_nat (length d)) off state g) (fun r g' =>
    exists sources accs cuts out still,
      sources `prefix_of` first /\ made c sources accs /\ (sum_list cuts <= length d)%nat /\ r.1 = Z.of_nat (sum_list cuts) /\
      (r.2 = true <-> fin = true /\ cuts <> [] /\ sum_list cuts = length d) /\
      handed_over c (PacketGenerator.packet_creator_ g') out still /\
      concat out.*1 ++ still = xs ++ accs ++ pieces_by cuts id off d fin /\
      (d <> [] \/ fin = true -> agrees (2 * length first + S (length d)) g ->
         sources = first /\ sum_list cuts = length d /\ r.2 = fin)).
Proof.
  intros c fin first Hw. destruct (write_consumed ack least_unacked single_packet_chlo xs id off d state g Hw) as
    (sources & accs & cuts & ys & g' & E1 & Hs & Hpre & Hma & Hadv & Hall).
  rewrite E1. destruct (advances_handed _ _ _ _ _ Hadv) as (out & Hout & Hcat). exists sources, accs, cuts, out, ys. cbn [fst snd]. split_and!; try done.
  - rewrite !andb_true_iff, negb_true_iff, bool_decide_eq_false, Nat.eqb_eq. tauto.
  - intros Hd Ha. destruct (Hall Hd Ha) as (Hsrc & Hsum & Hne). split; [done|]. split; [done|].
    rewrite Hsum, Nat.eqb_refl, (bool_decide_eq_false_2 _ Hne). by rewrite !andb_true_r.
Qed.

(** C24: Flushing the generator ends: the ack, the stop waiting frame and the control frames
    that wait, each of which fits a packet of its own, all go out with the open packet, in
    that order, the control frames from the last to the first, and the connection is not
    torn down. *)
Theorem waiting_frames_are_flushed ack least_unacked xs g :
  let c := PacketGenerator.packet_creator_ g in
  let first := waiting ack least_unacked in
  filling xs c -> keeps xs (packet_ c) -> Forall (offered c) (first g) -> number_of c + Z.of_nat (length (first g)) + 2 < 2 ^ 62 ->
  terminates_in (PacketGenerator.FlushAllQueuedFrames ack least_unacked g) (fun _ g' => exists accs out,
    made c (first g) accs /\ first g' = [] /\ handed_over c (PacketGenerator.packet_creator_ g') out [] /\ concat out.*1 = xs ++ accs).
Proof.
  intros c first Hfi Hk Ho Hn. destruct (fi_data _ _ Hfi) as (p & Hp & Hsu).
  assert (midway c xs [] 0 0 [] xs c) as Hm.
  { split; [|by repeat split|exists p; split; [done|by apply stocked_nothing]]. rewrite <- (app_nil_r xs) at 2. by apply advances_quietly. }
  destruct (queue_sent ack least_unacked c xs 0 0 [] true g [] xs Hm Ho Hn) as (sources & accs & ys & g' & E1 & S1 & S2 & S3 & _ & S5 & _).
  destruct (S5 eq_refl) as [Hnil ->]. unfold PacketGenerator.FlushAllQueuedFrames. rewrite E1.
  destruct (advances_handed _ _ _ _ _ (mi_advances _ _ _ _ _ _ _ _ S3)) as (out & Hout & Hcat). rewrite app_nil_r in Hcat.
  exists accs, out. split; [|done]. unfold first. rewrite S1, Hnil. by rewrite app_nil_r.
Qed.
End Peer.

(** A client that has a ping and two thousand bytes of stream 5 to send. *)
Section Example.
#[local] Instance agreeable_visitor : FramerVisitor := fun _ _ => true.
#[local] Instance constant_version : VersionVisitor := fun _ _ => None.

Definition long_text : list Z := replicate 2000 97.

Definition long_buffer : SendBuffer.SendBuffer :=
  match SendBuffer.SaveMemSlice long_text (SendBuffer.init true true) with Ret _ b => b | Crash _ => SendBuffer.init true true end.

Definition long_session : SessionStreams := {| streams := {[5 := long_buffer]} |}.

Definition unsent : Sending := save long_text 1 {| saved := []; framed := 0; sent := 0; acked := ∅; lost := ∅; pieces := 0 |}.

Definition busy_generator : PacketGenerator.Generator SessionStreams NullEncrypter NullDecrypter :=
  let c := set_encryption_level ENCRYPTION_FORWARD_SECURE (init 77 (example_endpoint IS_CLIENT) (Some long_session)) in
  PacketGenerator.with_inputs (PacketGenerator.with_control (PacketGenerator.with_creator (PacketGenerator.init 77 (example_endpoint IS_CLIENT) None) c)
    [PING_FRAME 1]) [] (replicate 2003 true) [].

Lemma long_session_stands : stand_for {[5 := unsent]} long_session.
Proof.
  intros id a Ha. apply lookup_singleton_Some in Ha as [<- <-]. exists long_buffer. split; [apply lookup_singleton_eq|].
  pose proof (SaveMemSlice_spec long_text _ _ (represents_init true true)) as Hsave. apply Hsave. vm_compute; split; done.
Qed.

Lemma busy_writable : writable (fun _ => QuicAckFrame_init) (fun _ => 0) [] 5 0 long_text busy_generator.
Proof.
  pose proof (session_stocked long_session {[5 := unsent]} 5 unsent [] long_session_stands (lookup_singleton_eq _ _)) as Hst.
  split; try done.
  - split; [|done|done|done|done|done|].
    + split; try done; try (by eexists). exact (se_header _ (demo_settled secured_creator (or_intror eq_refl))).
    + exists long_session. split; [done|]. exists ∅. split; [|exact I]. intros id a. by rewrite lookup_empty.
  - apply Forall_singleton. intros c _ (_ & Hh & Hp & _) _. split; [done|]. split; [exact I|]. rewrite Hh, Hp.
    change (cost (framer_of c) (next_header c) (PING_FRAME 1)) with 1. by vm_compute.
  - exists long_session. split; [done|]. apply Hst; done.
Qed.

Lemma a_write_is_packed_in_order_witness : exists g' cuts out still,
  PacketGenerator.ConsumeData (fun _ => QuicAckFrame_init) (fun _ => 0) true 5 2000 0 FIN busy_generator = Ret (2000, true) g' /\
  sum_list cuts = 2000%nat /\ concat out.*1 ++ still = PING_FRAME 1 :: pieces_by cuts 5 0 long_text true /\
  Forall (fun o => read_by_peer (PacketGenerator.packet_creator_ busy_generator) o.1 o.2) out.
Proof.
  pose proof (a_write_is_packed_in_order (fun _ => QuicAckFrame_init) (fun _ => 0) true [] 5 0 long_text FIN busy_generator busy_writable) as Hw.
  change (Z.of_nat (length long_text)) with 2000 in Hw.
  destruct (PacketGenerator.ConsumeData _ _ _ 5 2000 0 FIN busy_generator) as [r g'|] eqn:E1; [|exfalso; exact Hw].
  destruct Hw as (sources & accs & cuts & out & still & _ & H2 & _ & H4 & _ & (_ & _ & _ & H6) & H7 & H8). exists g', cuts, out, still.
  destruct H8 as (-> & Hs & Hf); [by right|by exists []|]. change (length long_text) with 2000%nat in Hs.
  assert (accs = [PING_FRAME 1]) as ->.
  { apply Forall2_cons_inv_l in H2 as (y & l & (c & _ & ->) & Hl & ->). apply Forall2_nil_inv_l in Hl as ->. done. }
  split.
  - destruct r as [n b]. cbn [fst snd] in H4, Hf. rewrite Hs in H4. by rewrite H4, Hf.
  - split; [exact Hs|]. split; [exact H7|]. eapply Forall_impl; [exact H6|]. intros o [_ Ho]. exact Ho.
Defined.

Lemma waiting_frames_are_flushed_witness : exists g' out,
  PacketGenerator.FlushAllQueuedFrames (fun _ => QuicAckFrame_init) (fun _ => 0) busy_generator = Ret tt g' /\
  handed_over (PacketGenerator.packet_creator_ busy_generator) (PacketGenerator.packet_creator_ g') out [] /\ concat out.*1 = [PING_FRAME 1].
Proof.
  pose proof busy_writable as [W1 W2 W3 _ _ _ _ _ _ _].
  pose proof (waiting_frames_are_flushed (fun _ => QuicAckFrame_init) (fun _ => 0) [] busy_generator W1 W2 W3 eq_refl) as Hw.
  destruct (PacketGenerator.FlushAllQueuedFrames _ _ busy_generator) as [[] g'|]; [|exfalso; exact Hw].
  destruct Hw as (accs & out & H1 & _ & H3 & H4). exists g', out. split; [done|]. split; [exact H3|]. rewrite H4.
  apply Forall2_cons_inv_l in H1 as (y & l & (c & _ & ->) & Hl & ->). apply Forall2_nil_inv_l in Hl as ->. done.
Defined.
End Example.
